(* ===== verification/_CoqProject ===== *)
-Q . S2P
Prelude.v
Float64.v
Strconv.v
Strings.v
Metric.v
Tracking.v
Selfstat.v
Interfaces.v
Buffer.v
Filter.v
Running.v
Output.v
Accumulator.v
Aggregators.v
Histogram.v
Processors.v
Parse.v
Converter.v
Agent.v
Influx.v
Lotus.v
Postgresql.v
Templating.v
Graphite.v
TopK.v
Statsd.v
Pipeline.v
Startup.v
Prometheus.v
Rotate.v
Duration.v
Config.v
GraphiteOut.v
Formats.v
Load.v
LoadSpec.v
Digits.v
Wavefront.v
WavefrontOut.v
TextProcessor.v
JsonParser.v
Json.v
JsonSpec.v
LineProtocol.v
LineProtocolSpec.v
LineStream.v
LibProcessors.v
TextFormats.v
