(* ===== verification/Prelude.v ===== *)
(** * Sentinel Drone: a verification library of the metric pipeline

    Sentinel Drone is a Telegraf agent: input plugins produce metrics, a chain
    of processors edits them, aggregators summarise them per time window, and
    outputs write them in batches from bounded buffers; delivery of a metric can
    be tracked, and the agent keeps statistics about itself. This library models
    that pipeline and the plugins with logic of their own, from the Go sources
    under src/, and proves what makes each part correct.

    ** The parts and their files

    - [Prelude]: machine integers, strings, keyed lists, map ranging, sorting;
      the tactics and hint databases of the library.
    - [Float64], [Strconv], [Parse], [Strings], [Digits]: what the sources use of the language and its
      standard library: IEEE 754 doubles, formatting and parsing of numbers, strings as
      bytes and as UTF-8 runes.
    - [Metric] (metric/metric.go, metric.go): the metric type. Tags are a list sorted by
      key, fields a list with unique keys ([wf]); [abs] reads a metric as maps.
    - [Tracking] (metric/tracking.go): reference-counted delivery tracking on
      a heap of tracking data.
    - [Selfstat] (selfstat/): counters, timings and their registry.
    - [Interfaces]: what components promise each other, as type classes: statistics,
      the end of a metric's life, copies, processors, aggregators.
    - [Buffer] (internal/models/buffer.go): the circular buffer of an output.
    - [Filter] (filter/filter.go, internal/models/filter.go): pattern lists and
      plugin filters; glob matching is third-party code and the class [Glob].
    - [Running] (internal/models/: makemetric.go, log.go, running_input.go,
      running_processor.go, running_aggregator.go) and [Output]
      (running_output.go): the wrappers the agent runs plugins in.
    - [Accumulator] (agent/accumulator.go): what plugins add metrics through. [World] joins
      registry, tracking heap and delivery channels, and is the instance of the
      interfaces that the code implements.
    - [Aggregators] and [Histogram] (plugins/aggregators/, metric/series_grouper.go):
      merge, final, valuecounter, minmax, basicstats, histogram.
    - [Processors], [Converter] and [TopK] (plugins/processors/): override, clone, rename,
      pivot, unpivot, tag_limit, enum, dedup, converter, topk. [LibProcessors]: regex, date, template, s2geo, parser and printer, and
      internal/choice/; the libraries they are around are classes.
    - [Agent] (agent/agent.go, internal/internal.go): alignment of times, aggregation
      windows, and the stages of the pipeline as sequential functions on tracked metrics.
    - [Pipeline] (agent/agent.go): the goroutines of the running agent and the channels, contexts and
      timers between them, as a step relation. [Startup] (agent/agent.go): what the agent
      calls before and after, in order, and its test mode.
    - [Influx] (plugins/serializers/influx/, plugins/parsers/influx/escape.go): the line
      protocol: escaping, lines of bounded length, batches, the reader. [LineProtocol] (machine.go.rl and machine.go,
      handler.go and parser.go of the parser): the automaton of the grammar, the machine that runs it, what it calls, and the
      parser; [LineProtocolSpec] has the properties. [LineStream] (machine.go and parser.go): the machine and the parser
      of streams, for any reader, and that blocks are read as the whole text is.
    - [Lotus] (plugins/inputs/lotus/, plugins/processors/lotus_peer_id/): the buffer of chain
      heads that hides reorganisations, the walk back to where collection stopped, the points
      recorded for tipsets and headers, and the tagging with a node's identity. The node's
      calls are parameters.
    - [Postgresql] (plugins/outputs/postgresql/): columns and rows of a batch, tag tables and their
      cache, table management, writing. The database is a parameter.
    - [Templating] (internal/templating/) and [Graphite] (plugins/parsers/graphite/): templates,
      the tree that finds the template of a line, the check of a configuration, and the
      parser of the plain-text protocol.
    - [Statsd] (plugins/inputs/statsd/): lines, names, tags and events of the protocol, the
      aggregation caches, running statistics, and what is gathered.
    - [Prometheus] (plugins/serializers/prometheus/, plugins/outputs/prometheus_client/v2/): names, types,
      samples and their expiry, the families shown, and the collector of the output.
    - [GraphiteOut] (plugins/serializers/graphite/): the names and lines of the plain-text protocol.
    - [Wavefront] (plugins/parsers/wavefront/) and [WavefrontOut] (plugins/serializers/wavefront/): the parser of the format,
      from tokens with push-back to metrics, and its serializer.
    - [TextProcessor] (plugins/processors/strings/): functions on texts applied to values, keys and names, with base64
      and UTF-8.
    - [JsonParser] (plugins/parsers/json/, and the timestamps of internal/internal.go): flattening of documents, and the
      metrics of objects and arrays. [TextFormats] (plugins/parsers/csv, value, logfmt and form_urlencoded,
      plugins/serializers/carbon2): formats of plain values. What splits texts into records and documents is library code
      and a parameter.
    - [Json] (plugins/serializers/json, nowmetric and splunkmetric): the objects written for metrics, and what the code
      uses of [encoding/json] as functions between values and texts, which also stand for the decoder of [JsonParser];
      [JsonSpec] has the properties.
    - [Rotate] (internal/rotate/): the log file that is rotated by time and size.
    - [Duration] ([time.ParseDuration]), [Config], [Formats], [Load] (internal/config/config.go, plugins/parsers/registry.go,
      plugins/serializers/registry.go): the options of plugins, parsers and serializers, environment variables, adding
      plugins, loading files and directories; [LoadSpec] has the properties. The TOML library, the operating system
      and the plugins are parameters.

    ** How code is modelled

    A method is a function from its arguments and the receiver's state to its
    results and the new state. Metrics are pointers in Go; the code hands a
    metric from owner to owner, so an update is a new value in place of the old one;
    where two holders share an object (tracking data, the slots of the buffer's
    array, the grouper's map and slice) the shared store is modelled. [option] is
    a panic where a function can panic, [A + err] an error result. Integers are [Z]
    with the wrap-around of their width written out; floats are the bits of IEEE
    754. A map is a [gmap]; ranging over it goes through the class [MapRange], which
    says only that every entry comes once, so a theorem holds for every iteration
    order. Times are nanoseconds since the Unix epoch; what code reads from the clock is an
    argument, or [ClockEnv] where it is read more than once. Locks are not
    modelled: methods that hold one lock are atomic steps, and interleavings of
    such steps are sequences of operations (the buffer's runs, the tracking
    operations, the rounds of an aggregator) or steps of [Pipeline.step], where a push holds its
    lock over several steps.

    ** What is proved

    - Metrics: any sequence of updates keeps the representation well formed and
      acts on the two maps as it says; construction does not depend on map
      order; the series hash.
    - Tracking: a group is reported exactly once, when its last reference goes,
      with the right counts; releasing too often panics instead. The accumulator,
      the distribution to outputs and the processors keep that count right;
      unpivot does not.
    - Buffer and output: under the contract of one batch at a time, the circular
      buffer refines a bounded queue with a lent batch, loses and invents
      nothing, and a write drains it in batches; what goes wrong outside of the
      contract.
    - Filters and wrappers: which metrics, tags and fields pass, and what name
      and tags a metric gets; windows of aggregators; the processor chain.
    - Aggregators: the values each reports, as functions of the metrics of a
      window.
    - Processors: the edits of each plugin on the maps of a metric, round trips,
      bounds of the conversions, the refinement of dedup with its cache
      to one that remembers for ever. The cache of regex changes nothing; the parser processor keeps the count of tracked metrics,
      except with drop_original.
    - Agent: aligned windows, routing and distribution of metrics. The running agent shuts down: the
      work that is left always ends, no goroutine waits for ever, nothing in the channels is lost,
      and no channel is used after it is closed. Services that were started are stopped.
    - Statistics: counters, timing averages, and the collision of registry keys.
    - Line protocol: a header reads back as name and tags, every serializable field is on
      exactly one line that passes the length check, and the reader ends after all of them, leaving out metrics that cannot be serialized. The parser returns for
      every text, panics at most for one that ends in a backslash, and reads a batch back as the metrics it was written from.
    - Chain heads: what was sent and what is buffered is always the canonical chain, as long as
      the first head is not reverted and no reorganisation after it is deeper than the lag.
    - PostgreSQL: the rows of a batch hold exactly the values of its metrics, as long as their keys are no names of the plugin's
      columns and no tag and field clash; a tag set has an id that the database gave for it, whatever the cache forgets.
    - Templates: the search tree is equivalent to a search of the list of filters; a valid
      configuration builds an engine; a line reads back as what its template describes.
    - topk: the groups passed on are the best ones of each field.
    - Prometheus: what is shown is the newest sample of each series that has not expired, with the type of
      its family, sorted if asked for. Graphite lines: one for each numeric field, of three words.
    - Wavefront: the parser always returns, and reads back what the serializer writes of printable metrics.
    - JSON and CSV: what metric an object or a record becomes, whatever the order of maps. The text of a JSON value reads back as the
      value, and what the serializer writes of a metric the parser makes into that metric again. strings: the converters as
      substitutions on the maps of a metric, and when renaming keys depends on their order.
    - Rotation: nothing written is lost or doubled while calls succeed and no two rotations are in one second.
    - Configuration: a file that loads adds exactly the plugins it declares, a file that is right loads; options are
      read back as written; when replacing environment references is a substitution.
    - statsd: what is gathered are the sums, last values, distinct counts and statistics of
      the samples; counters from text to report; events round trip, and when one panics.

    ** Bounds and fuel

    Loops are structural recursions on the list they range over, or have fuel that
    suffices: the rounds of [Output.RunningOutput.write_loop] are
    the bound the code computes; [Strconv.dec_fuel] is the number of binary digits,
    which is at least the number of decimal ones ([Parse.dec_fuel_enough]);
    [Strconv.shortest_loop] tries up to 17 digits, the number that tells any two
    doubles apart; the walk back of [Lotus.walk_back] has the height of the head as fuel, since
    heights fall towards the genesis; the loops of [Strings] over bytes have the length of the
    text; a file is rotated at most twice for one write before it is open, so [Rotate] has fuel 3; the search of
    [Formats.truncateDuration] has 65 rounds, after which its products are 0 for ever
    ([Formats.truncate_never_ends]); the loops of [Wavefront] over tokens have as many rounds as there are tokens left, which
    is proved to be enough, and its loop over tags has one for each token and one more
    ([Wavefront.LoopedParser_ends]); the decoder of [Json] has the length of the text as fuel for the nesting and for each text, array and
    object, which is enough for every text of a value ([JsonSpec.Unmarshal_text]); the loop of the line protocol parser has one round for each
    byte and one more ([LineProtocolSpec.parse_loop_ends]), and so has the loop that reads a stream, which for some texts no number of rounds ends
    ([LineStream.next_loop_follows], [LineStream.stream_hangs]). The running agent is a relation without fuel; that its work ends is proved with a
    lexicographic measure ([Pipeline.measure]). Counters of 32 and 64 bits wrap, and the theorems that need room
    say how much.

    ** Not modelled

    The recovery of panics; decoding of options into plugins, which is reflection; logging output; texts of the line protocol with a vertical tab
    where the grammar is ambiguous; decoders of TOML and CSV and the query language of JSON, which are library code; the inputs and outputs that
    only talk to the operating system, a service or the network, of which there are some two hundred: their logic is the
    protocol of that service, and what they add to the pipeline goes through the interfaces above. *)

From stdpp Require Export base gmap strings list sorting numbers fin_maps.
From Stdlib Require Export ZArith Lia.

Open Scope Z_scope.
Open Scope stdpp_scope.

Declare Scope drone_scope.
Delimit Scope drone_scope with drone.
(** Case analysis on every boolean comparison of integers. *)
Ltac zcases :=
  repeat match goal with
  | |- context [?x <? ?y] => destruct (Z.ltb_spec x y)
  | |- context [?x <=? ?y] => destruct (Z.leb_spec x y)
  | |- context [?x =? ?y] => destruct (Z.eqb_spec x y)
  | H : context [?x <? ?y] |- _ => destruct (Z.ltb_spec x y)
  | H : context [?x <=? ?y] |- _ => destruct (Z.leb_spec x y)
  | H : context [?x =? ?y] |- _ => destruct (Z.eqb_spec x y)
  end.

(** Reduce the binds whose argument is a value. *)
Ltac binds := cbn [mbind option_bind mret option_ret].

Create HintDb drone discriminated.
Create Rewrite HintDb drone_rw.

(** ** Machine integers

    Go's fixed-width integers are [Z] values; the functions below are the
    wrap-around of the language's arithmetic at each width. *)

Definition wrap_s (bits z : Z) : Z := (z + 2 ^ (bits - 1)) mod 2 ^ bits - 2 ^ (bits - 1).
Definition wrap_u (bits z : Z) : Z := z mod 2 ^ bits.

Definition int64 (z : Z) : Z := wrap_s 64 z.
Definition uint64 (z : Z) : Z := wrap_u 64 z.
Definition int32 (z : Z) : Z := wrap_s 32 z.

Definition MaxInt64 : Z := 2 ^ 63 - 1.
Definition MinInt64 : Z := - 2 ^ 63.
Definition MaxUint64 : Z := 2 ^ 64 - 1.

Lemma wrap_s_small bits z :
  0 < bits -> - 2 ^ (bits - 1) <= z < 2 ^ (bits - 1) -> wrap_s bits z = z.
Proof.
  intros Hb Hz. unfold wrap_s.
  assert (2 ^ bits = 2 * 2 ^ (bits - 1)) as E
    by (rewrite <- Z.pow_succ_r by lia; f_equal; lia).
  rewrite Z.mod_small by lia. lia.
Qed.

Lemma wrap_s_range bits z :
  0 < bits -> - 2 ^ (bits - 1) <= wrap_s bits z < 2 ^ (bits - 1).
Proof.
  intros Hb. unfold wrap_s.
  assert (2 ^ bits = 2 * 2 ^ (bits - 1)) as E
    by (rewrite <- Z.pow_succ_r by lia; f_equal; lia).
  pose proof (Z.mod_pos_bound (z + 2 ^ (bits - 1)) (2 ^ bits)).
  assert (0 < 2 ^ (bits - 1)) by (apply Z.pow_pos_nonneg; lia). lia.
Qed.

Lemma wrap_s_add bits a b : 0 < bits -> wrap_s bits (wrap_s bits a + b) = wrap_s bits (a + b).
Proof.
  intros Hb. unfold wrap_s. f_equal.
  assert (0 < 2 ^ bits) by (apply Z.pow_pos_nonneg; lia).
  replace ((a + 2 ^ (bits - 1)) mod 2 ^ bits - 2 ^ (bits - 1) + b + 2 ^ (bits - 1))
    with ((a + 2 ^ (bits - 1)) mod 2 ^ bits + b) by lia.
  rewrite Z.add_mod_idemp_l by lia. f_equal. lia.
Qed.

Lemma int64_add a b : int64 (int64 a + b) = int64 (a + b).
Proof. apply wrap_s_add. lia. Qed.

Lemma int64_small z : MinInt64 <= z <= MaxInt64 -> int64 z = z.
Proof. unfold MinInt64, MaxInt64. intros. apply wrap_s_small; lia. Qed.

Lemma int64_range z : MinInt64 <= int64 z <= MaxInt64.
Proof.
  pose proof (wrap_s_range 64 z ltac:(lia)).
  unfold MinInt64, MaxInt64, int64. lia.
Qed.

Lemma int32_small z : - 2 ^ 31 <= z < 2 ^ 31 -> int32 z = z.
Proof. intros. apply wrap_s_small; lia. Qed.

Lemma uint64_small z : 0 <= z <= MaxUint64 -> uint64 z = z.
Proof. unfold MaxUint64. intros. apply Z.mod_small. lia. Qed.

Lemma uint64_range z : 0 <= uint64 z <= MaxUint64.
Proof.
  unfold uint64, wrap_u, MaxUint64. pose proof (Z.mod_pos_bound z (2 ^ 64)). lia.
Qed.

(** The remainder of a position that is at most one lap ahead. *)
Lemma mod_one_lap i c :
  0 <= i < 2 * c -> i mod c = if decide (i < c) then i else i - c.
Proof.
  intros Hi. case_decide.
  - apply Z.mod_small. lia.
  - symmetry. apply (Z.mod_unique_pos _ _ 1); lia.
Qed.

#[export] Hint Rewrite int64_small using lia : drone_rw.
#[export] Hint Resolve int64_range uint64_range : drone.

(** ** Go strings

    A Go string is a sequence of bytes, compared bytewise. *)

Definition str_ltb (a b : string) : bool := String.ltb a b.

Lemma str_ltb_le a b : str_ltb a b = true <-> String.le a b /\ a <> b.
Proof.
  unfold str_ltb, String.ltb, String.le, String.leb.
  destruct (String.compare a b) eqn:E; simpl.
  - apply String.compare_eq_iff in E. naive_solver.
  - split; [|done]. intros _. split; [done|]. intros ->.
    pose proof (String.compare_antisym b b) as A. rewrite E in A. done.
  - naive_solver.
Qed.

Lemma str_ltb_irrefl a : str_ltb a a = false.
Proof. destruct (str_ltb a a) eqn:E; [|done]. apply str_ltb_le in E. naive_solver. Qed.

Lemma str_ltb_trans a b c :
  str_ltb a b = true -> str_ltb b c = true -> str_ltb a c = true.
Proof.
  rewrite !str_ltb_le. intros [Hab Nab] [Hbc Nbc]. split; [by etrans|].
  intros ->. apply Nab. by apply (anti_symm String.le).
Qed.

Lemma str_ltb_ge a b : str_ltb a b = false -> a = b \/ str_ltb b a = true.
Proof.
  intros H. destruct (decide (a = b)) as [|N]; [by left|right].
  apply str_ltb_le. split; [|done].
  destruct (total String.le a b) as [L|]; [|done].
  assert (str_ltb a b = true) by (apply str_ltb_le; done). congruence.
Qed.

Definition str_lt (a b : string) : Prop := str_ltb a b = true.

#[export] Instance str_lt_strict : StrictOrder str_lt.
Proof.
  split.
  - intros a Ha. unfold str_lt in Ha. by rewrite str_ltb_irrefl in Ha.
  - intros a b c. apply str_ltb_trans.
Qed.

#[export] Instance str_lt_dec : RelDecision str_lt.
Proof. intros a b. unfold str_lt. apply _. Defined.

(** The bytes of a string, as 8-bit integers. *)
Definition byte_of (c : Ascii.ascii) : Z := Z.of_N (Ascii.N_of_ascii c).

Fixpoint bytes (s : string) : list Z :=
  match s with
  | EmptyString => []
  | String c s' => byte_of c :: bytes s'
  end.

Lemma str_app_nil_r (s : string) : s +:+ EmptyString = s.
Proof. induction s as [|c s IH]; [done|]. exact (f_equal (String c) IH). Qed.

Lemma str_app_assoc (a b c : string) : (a +:+ b) +:+ c = a +:+ (b +:+ c).
Proof. induction a as [|x a IH]; [done|]. exact (f_equal (String x) IH). Qed.

Lemma str_app_inj (a b s t : string) :
  String.length s = String.length t -> a +:+ s = b +:+ t -> a = b /\ s = t.
Proof.
  revert b. induction a as [|x a IH]; intros b Hl E; destruct b as [|y b].
  - done.
  - exfalso. assert (String.length (EmptyString +:+ s) = String.length (String y b +:+ t)) as El by (by rewrite E).
    change (String.length s = S (String.length (b +:+ t))) in El.
    assert (String.length (b +:+ t) = String.length b + String.length t)%nat as Hbt
      by (clear; induction b as [|z b IHb]; [done|exact (f_equal S IHb)]). lia.
  - exfalso. assert (String.length (String x a +:+ s) = String.length (EmptyString +:+ t)) as El by (by rewrite E).
    change (S (String.length (a +:+ s)) = String.length t) in El.
    assert (String.length (a +:+ s) = String.length a + String.length s)%nat as Has
      by (clear; induction a as [|z a IHa]; [done|exact (f_equal S IHa)]). lia.
  - change (String x (a +:+ s) = String y (b +:+ t)) in E. injection E as -> E.
    destruct (IH b Hl E) as [-> ->]. done.
Qed.

Lemma bytes_app s1 s2 : bytes (s1 +:+ s2) = bytes s1 ++ bytes s2.
Proof.
  induction s1 as [|c s1 IH]; [done|].
  change (String c s1 +:+ s2) with (String c (s1 +:+ s2)). simpl. by rewrite IH.
Qed.

(** ** Lists as memory *)

Lemma list_alter_insert {A} (f : A -> A) (l : list A) i x :
  l !! i = Some x -> alter f i l = <[i := f x]> l.
Proof.
  intros Hi. apply list_eq. intros j. rewrite list_lookup_alter, list_lookup_insert.
  apply lookup_lt_Some in Hi as Hlt. destruct (decide (i = j)) as [->|].
  - by rewrite Hi, decide_True.
  - rewrite decide_False by naive_solver. done.
Qed.

(** ** Slices of keyed records

    Tags and fields are slices of records searched by key from the front. The
    functions are the loops the source writes for each of them. *)

Section Keyed.
Context {A : Type} (key : A -> string).

Fixpoint key_find (k : string) (l : list A) : option A :=
  match l with
  | [] => None
  | x :: l' => if decide (key x = k) then Some x else key_find k l'
  end.

Fixpoint key_remove (k : string) (l : list A) : list A :=
  match l with
  | [] => []
  | x :: l' => if decide (key x = k) then l' else x :: key_remove k l'
  end.

Lemma key_find_Some k l x : key_find k l = Some x -> x ∈ l /\ key x = k.
Proof.
  induction l as [|y l IH]; simpl; [done|]. case_decide.
  - intros [= ->]. split; [by left|done].
  - intros [? ?]%IH. split; [by right|done].
Qed.

Lemma key_find_None k l : key_find k l = None <-> k ∉ key <$> l.
Proof.
  induction l as [|y l IH]; simpl; [set_solver|]. case_decide; set_solver.
Qed.

Lemma key_remove_sublist k l : key_remove k l `sublist_of` l.
Proof.
  induction l as [|y l IH]; simpl; [done|]. case_decide.
  - by apply sublist_cons.
  - by apply sublist_skip.
Qed.

Lemma key_remove_keys_sublist k l : key <$> key_remove k l `sublist_of` key <$> l.
Proof.
  induction l as [|y l IH]; simpl; [done|]. case_decide; rewrite ?fmap_cons.
  - by apply sublist_cons.
  - by apply sublist_skip.
Qed.

Lemma key_remove_NoDup k l : NoDup (key <$> l) -> NoDup (key <$> key_remove k l).
Proof. intros. eapply sublist_NoDup; eauto using key_remove_keys_sublist. Qed.

Lemma key_remove_find k k' l :
  NoDup (key <$> l) ->
  key_find k' (key_remove k l) = if decide (k = k') then None else key_find k' l.
Proof.
  induction l as [|y l IH]; intros Hnd; simpl; [by case_decide|].
  rewrite fmap_cons, NoDup_cons in Hnd. destruct Hnd as [Hy Hnd].
  destruct (decide (key y = k)) as [<-|Hk]; simpl.
  - case_decide; [subst|]; [by apply key_find_None|done].
  - rewrite IH by done. repeat case_decide; congruence.
Qed.

Lemma key_remove_length k l :
  length (key_remove k l) = (length l - (if decide (k ∈ key <$> l) then 1 else 0))%nat.
Proof.
  induction l as [|y l IH]; simpl; [done|].
  destruct (decide (key y = k)) as [<-|Hk].
  - rewrite decide_True by set_solver. lia.
  - simpl. rewrite IH. destruct (decide (k ∈ key <$> l)) as [H|H].
    + rewrite decide_True by set_solver. destruct l; [set_solver|]. simpl. lia.
    + rewrite decide_False by set_solver. lia.
Qed.

Lemma filter_ext_in (P Q : A -> Prop) `{!forall x, Decision (P x), !forall x, Decision (Q x)} (l : list A) :
  (forall x, x ∈ l -> P x <-> Q x) -> filter P l = filter Q l.
Proof.
  induction l as [|x l IH]; intros Hpq; [done|].
  rewrite !filter_cons, IH by (intros; apply Hpq; by right).
  specialize (Hpq x ltac:(by left)). repeat case_decide; naive_solver.
Qed.

Lemma filter_keeps_all (P : A -> Prop) `{!forall x, Decision (P x)} (l : list A) :
  (forall x, x ∈ l -> P x) -> filter P l = l.
Proof.
  induction l as [|x l IH]; intros Hp; [done|].
  rewrite filter_cons_True by (apply Hp; by left). f_equal. apply IH.
  intros y Hy. apply Hp. by right.
Qed.

(** Removing a list of keys one by one keeps the other elements. *)
Lemma key_remove_all ks l :
  NoDup (key <$> l) ->
  foldl (fun l k => key_remove k l) l ks = filter (fun x => key x ∉ ks) l.
Proof.
  assert (forall k l, NoDup (key <$> l) -> key_remove k l = filter (fun x => key x <> k) l) as H1.
  { intros k l'. induction l' as [|x l' IH]; intros Hnd; [done|].
    rewrite fmap_cons, NoDup_cons in Hnd. destruct Hnd as [Hx Hnd]. simpl.
    destruct (decide (key x = k)) as [<-|Hk].
    - rewrite filter_cons_False by naive_solver. symmetry. apply filter_keeps_all.
      intros y Hy Heq. apply Hx. rewrite <- Heq. by apply list_elem_of_fmap_2.
    - rewrite filter_cons_True by done. by rewrite IH. }
  revert l. induction ks as [|k ks IH]; intros l Hnd; simpl.
  { symmetry. apply filter_keeps_all. intros. set_solver. }
  rewrite IH by (by apply key_remove_NoDup). rewrite H1, list_filter_filter by done.
  apply list_filter_iff. intros x. set_solver.
Qed.

Context {V : Type} (val : A -> V).

(** The map a slice denotes: the loop [for _, x := range l { m[x.Key] = x.Value }]. *)
Definition keyed_map (l : list A) : gmap string V :=
  foldl (fun m x => <[key x := val x]> m) ∅ l.

Lemma foldl_insert_lookup (l : list A) (m : gmap string V) k :
  NoDup (key <$> l) ->
  foldl (fun m x => <[key x := val x]> m) m l !! k =
  match key_find k l with Some x => Some (val x) | None => m !! k end.
Proof.
  revert m. induction l as [|x l IH]; intros m Hnd; [done|].
  rewrite fmap_cons, NoDup_cons in Hnd. destruct Hnd as [Hx Hnd]. simpl.
  rewrite IH by done. destruct (decide (key x = k)) as [<-|Hk].
  - assert (key_find (key x) l = None) as ->.
    { clear -Hx. induction l as [|y l IH]; [done|]. simpl. rewrite fmap_cons in Hx.
      case_decide; set_solver. }
    by simplify_map_eq.
  - destruct (key_find k l); [done|]. by rewrite lookup_insert_ne.
Qed.

Lemma keyed_map_lookup l k :
  NoDup (key <$> l) -> keyed_map l !! k = val <$> key_find k l.
Proof.
  intros Hnd. unfold keyed_map. rewrite foldl_insert_lookup by done.
  destruct (key_find k l); [done|]. apply lookup_empty.
Qed.

Lemma keyed_map_remove k l :
  NoDup (key <$> l) -> keyed_map (key_remove k l) = delete k (keyed_map l).
Proof.
  intros Hnd. apply map_eq. intros k'.
  rewrite keyed_map_lookup by (by apply key_remove_NoDup).
  rewrite key_remove_find by done. rewrite lookup_delete.
  case_decide; [done|]. by rewrite keyed_map_lookup.
Qed.

Lemma keyed_map_list_to_map l :
  NoDup (key <$> l) -> keyed_map l = list_to_map ((fun x => (key x, val x)) <$> l).
Proof.
  intros Hnd. apply map_eq. intros k. rewrite keyed_map_lookup by done.
  assert (NoDup ((fun x => (key x, val x)) <$> l).*1) as Hnd'
    by (by rewrite <- list_fmap_compose).
  destruct (key_find k l) as [x|] eqn:E; simpl; symmetry.
  - apply key_find_Some in E as [Hx <-]. apply elem_of_list_to_map_1; [done|].
    by apply (list_elem_of_fmap_2 (fun x => (key x, val x))).
  - apply not_elem_of_list_to_map_1. rewrite <- list_fmap_compose.
    by apply key_find_None in E.
Qed.

Lemma keyed_map_perm l1 l2 :
  NoDup (key <$> l1) -> l1 ≡ₚ l2 -> keyed_map l1 = keyed_map l2.
Proof.
  intros Hnd Hp. assert (NoDup (key <$> l2)) by (by rewrite <- Hp).
  rewrite !keyed_map_list_to_map by done. apply list_to_map_proper.
  - by rewrite <- list_fmap_compose.
  - by rewrite Hp.
Qed.

Lemma key_find_filter (P : string -> bool) (l : list A) k :
  key_find k (filter (fun x => P (key x) = true) l) = if P k then key_find k l else None.
Proof.
  induction l as [|x l IH]; [by destruct (P k)|]. rewrite filter_cons. case_decide as HP; simpl.
  - destruct (decide (key x = k)) as [<-|Hk]; [by rewrite HP|exact IH].
  - rewrite IH. destruct (decide (key x = k)) as [<-|Hk]; [|done].
    destruct (P (key x)); done.
Qed.

(** A loop whose rounds each act on the entry of one key. *)
Lemma foldl_by_key {X} (F : gmap string X -> A -> gmap string X) (step : option X -> V -> option X)
    (l : list A) (fs : gmap string X) k :
  (forall fs x k, F fs x !! k = if decide (k = key x) then step (fs !! k) (val x) else fs !! k) ->
  NoDup (key <$> l) ->
  foldl F fs l !! k =
    match val <$> key_find k l with Some v => step (fs !! k) v | None => fs !! k end.
Proof.
  intros HF. revert fs. induction l as [|x l IH]; intros fs Hnd; [done|].
  rewrite fmap_cons, NoDup_cons in Hnd. destruct Hnd as [Hx Hnd]. cbn [foldl key_find].
  rewrite IH, HF by done. destruct (decide (key x = k)) as [<-|Hk].
  - rewrite decide_True by done. assert (key_find (key x) l = None) as -> by (by apply key_find_None). done.
  - by rewrite decide_False by congruence.
Qed.

Lemma keyed_map_dom l : dom (keyed_map l) = list_to_set (key <$> l).
Proof.
  unfold keyed_map.
  cut (forall m, dom (foldl (fun m x => <[key x := val x]> m) m l : gmap string V) =
            dom m ∪ list_to_set (key <$> l)).
  { intros ->. set_solver. }
  induction l as [|x l IH]; intros m; [set_solver|].
  simpl. rewrite IH, dom_insert_L. set_solver.
Qed.

End Keyed.

#[export] Hint Resolve key_remove_NoDup key_remove_sublist : drone.

(** ** Ranging over Go maps

    The language leaves the iteration order of [for k, v := range m] open. An
    instance of [MapRange] is one choice of that order; the theorems hold for
    every instance, and [map_range_default] is the one witnesses compute with. *)

Class MapRange := {
  range_map : forall {K} `{Countable K} {V}, gmap K V -> list (K * V);
  range_map_perm : forall K `{Countable K} V (m : gmap K V),
    range_map m ≡ₚ map_to_list m;
}.

Definition map_range_default : MapRange :=
  {| range_map := fun _ _ _ _ m => map_to_list m;
     range_map_perm := fun _ _ _ _ _ => Permutation_refl _ |}.

Section Ranging.
Context `{MapRange}.

Lemma range_map_NoDup {K} `{Countable K} {V} (m : gmap K V) : NoDup (range_map m).*1.
Proof. rewrite range_map_perm. apply NoDup_fst_map_to_list. Qed.

Lemma range_map_elem {K} `{Countable K} {V} (m : gmap K V) k v :
  (k, v) ∈ range_map m <-> m !! k = Some v.
Proof. rewrite range_map_perm. apply elem_of_map_to_list. Qed.

Lemma range_map_empty {K} `{Countable K} {V} : range_map (∅ : gmap K V) = [].
Proof.
  apply Permutation_nil. by rewrite range_map_perm, map_to_list_empty.
Qed.

Lemma range_map_singleton {A} (k : string) (v : A) : range_map ({[k := v]} : gmap string A) = [(k, v)].
Proof. apply Permutation_length_1_inv. symmetry. by rewrite range_map_perm, map_to_list_singleton. Qed.

Lemma list_to_map_range {K} `{Countable K} {V} (m : gmap K V) :
  list_to_map (range_map m) = m.
Proof.
  rewrite <- (list_to_map_to_list m) at 2. apply list_to_map_proper; [|apply range_map_perm].
  apply range_map_NoDup.
Qed.

Lemma key_find_range {V} (m : gmap string V) k :
  snd <$> key_find fst k (range_map m) = m !! k.
Proof.
  destruct (key_find fst k (range_map m)) as [[k' v]|] eqn:E.
  - apply key_find_Some in E as [Hin Hk]. simpl in Hk. subst k'. by apply range_map_elem in Hin.
  - apply key_find_None in E. simpl. symmetry. destruct (m !! k) as [v|] eqn:Em; [|done].
    destruct E. apply range_map_elem in Em. by apply (list_elem_of_fmap_2 fst _ (k, v)).
Qed.

Lemma range_map_length {K} `{Countable K} {V} (m : gmap K V) :
  length (range_map m) = size m.
Proof. rewrite range_map_perm. apply length_map_to_list. Qed.
End Ranging.

Lemma sorted_lookup {A} (R : A -> A -> Prop) (l : list A) p q u v :
  StronglySorted R l -> (p < q)%nat -> l !! p = Some u -> l !! q = Some v -> R u v.
Proof.
  intros Hs. revert p q. induction Hs as [|x l Hs IH Hx]; intros p q Hpq Hp Hq; [done|].
  destruct q as [|q]; [lia|]. destruct p as [|p]; simpl in *.
  - injection Hp as ->. rewrite Forall_forall in Hx. apply Hx. by eapply list_elem_of_lookup_2.
  - apply (IH p q); [lia|done|done].
Qed.

(** ** Sorting by a string key

    [sort.Slice(l, func(i, j) { return key(l[i]) < key(l[j]) })]. Every use in
    the modelled code sorts records with distinct keys, for which the result is
    unique. *)

Definition key_le {A} (key : A -> string) (x y : A) : Prop := String.le (key x) (key y).

#[export] Instance key_le_dec {A} (key : A -> string) : RelDecision (key_le key).
Proof. intros x y. unfold key_le. apply _. Defined.

Definition sort_by {A} (key : A -> string) (l : list A) : list A :=
  merge_sort (key_le key) l.

Definition key_lt {A} (key : A -> string) (x y : A) : Prop := str_lt (key x) (key y).

#[export] Instance key_lt_dec {A} (key : A -> string) : RelDecision (key_lt key).
Proof. intros x y. unfold key_lt. apply _. Defined.

Section SortBy.
Context {A : Type} (key : A -> string).

#[local] Instance key_le_trans : Transitive (key_le key).
Proof. intros x y z. unfold key_le. apply transitivity. Qed.
#[local] Instance key_le_total : Total (key_le key).
Proof. intros x y. unfold key_le. apply (total String.le). Qed.

Lemma sort_by_perm l : sort_by key l ≡ₚ l.
Proof. apply merge_sort_Permutation. Qed.

Lemma sort_by_sorted l :
  NoDup (key <$> l) -> StronglySorted (key_lt key) (sort_by key l).
Proof.
  intros Hnd.
  assert (NoDup (key <$> sort_by key l)) as Hnd' by (by rewrite sort_by_perm).
  assert (StronglySorted (key_le key) (sort_by key l)) as Hs
    by (apply StronglySorted_merge_sort; apply _).
  revert Hs Hnd'. generalize (sort_by key l) as l'. clear.
  intros l'. induction 1 as [|x l' Hs IH Hx]; [constructor|].
  rewrite fmap_cons, NoDup_cons. intros [Hn Hnd]. constructor; [by apply IH|].
  rewrite Forall_forall in *. intros y Hy. apply str_ltb_le. split; [by apply Hx|].
  intros E. apply Hn. rewrite E. by apply list_elem_of_fmap_2.
Qed.

Lemma key_sorted_NoDup l : StronglySorted (key_lt key) l -> NoDup (key <$> l).
Proof.
  induction 1 as [|x l Hs IH Hx]; [constructor|]. rewrite fmap_cons. constructor; [|done].
  intros (y & Hk & Hy)%list_elem_of_fmap_1. rewrite Forall_forall in Hx.
  specialize (Hx y Hy). unfold key_lt in Hx. rewrite <- Hk in Hx.
  by apply (irreflexivity str_lt) in Hx.
Qed.

(** Two key-sorted slices with the same elements are the same slice. *)
Lemma key_sorted_unique l1 l2 :
  StronglySorted (key_lt key) l1 -> StronglySorted (key_lt key) l2 ->
  l1 ≡ₚ l2 -> l1 = l2.
Proof.
  apply StronglySorted_unique_strong. intros x1 x2 _ _ H1 H2. exfalso.
  eapply (irreflexivity str_lt (key x1)). etrans; [apply H1|apply H2].
Qed.

Lemma key_sorted_sublist l1 l2 :
  l1 `sublist_of` l2 -> StronglySorted (key_lt key) l2 -> StronglySorted (key_lt key) l1.
Proof.
  induction 1 as [|x l1 l2 Hsub IH|x l1 l2 Hsub IH]; intros Hs; [done| |].
  - apply StronglySorted_cons in Hs as [Hx Hs]. constructor; [by apply IH|].
    rewrite Forall_forall in *. intros y Hy. apply Hx.
    eapply (sublist_submseteq l1 l2) in Hsub. by eapply elem_of_submseteq.
  - apply StronglySorted_cons in Hs as [_ Hs]. by apply IH.
Qed.
End SortBy.

#[export] Hint Resolve sort_by_sorted key_sorted_NoDup : drone.

(** ** Searching and sorting slices *)

(** [sort.Search]: the smallest index at which [f] holds, by bisection; the
    interval shrinks each round, so [n] rounds are enough. *)
Fixpoint search_loop (fuel : nat) (i j : nat) (f : nat -> bool) : nat :=
  match fuel with
  | O => i
  | S fuel' =>
    if (i <? j)%nat then
      let h := ((i + j) / 2)%nat in
      if f h then search_loop fuel' i h f else search_loop fuel' (S h) j f
    else i
  end.

Lemma search_loop_bounds fuel i j f : (i <= j)%nat -> (i <= search_loop fuel i j f <= j)%nat.
Proof.
  revert i j. induction fuel as [|fuel IH]; intros i j Hij; [simpl; lia|]. cbn [search_loop].
  destruct (Nat.ltb_spec i j) as [Hl|Hl]; [|lia].
  pose proof (Nat.div_mod_eq (i + j) 2) as Hd. pose proof (Nat.mod_upper_bound (i + j) 2 ltac:(lia)) as Hm.
  set (h := ((i + j) / 2)%nat) in *. case_match.
  - specialize (IH i h ltac:(lia)). lia.
  - specialize (IH (S h) j ltac:(lia)). lia.
Qed.

(** Bisection finds the boundary of a monotone predicate. *)
Lemma search_loop_spec fuel i j f :
  (forall a b, (a <= b < j)%nat -> f a = true -> f b = true) -> (i <= j)%nat -> (j - i < fuel)%nat ->
  (forall k, (i <= k < search_loop fuel i j f)%nat -> f k = false) /\
  (forall k, (search_loop fuel i j f <= k < j)%nat -> f k = true).
Proof.
  revert i j. induction fuel as [|fuel IH]; intros i j Hmono Hij Hf; [lia|]. cbn [search_loop].
  destruct (Nat.ltb_spec i j) as [Hl|Hl]; [|split; intros; lia].
  pose proof (Nat.div_mod_eq (i + j) 2) as Hd. pose proof (Nat.mod_upper_bound (i + j) 2 ltac:(lia)) as Hm.
  set (h := ((i + j) / 2)%nat) in *. destruct (f h) eqn:E.
  - destruct (IH i h) as [H1 H2]; [intros a b Hab; apply Hmono; lia|lia|lia|]. split; [done|].
    intros k Hk. destruct (decide (k < h)%nat); [apply H2; lia|]. apply (Hmono h k); [lia|done].
  - destruct (IH (S h) j) as [H1 H2]; [done|lia|lia|]. split; [|done].
    intros k Hk. destruct (decide (k <= h)%nat) as [Hkh|]; [|apply H1; lia].
    destruct (f k) eqn:Ek; [|done]. rewrite (Hmono k h) in E; [done|lia|done].
Qed.

(** [sort.Sort] with a [Less] that is a strict weak order: a permutation in which no
    element is less than one before it. Elements that tie may come in any order, so
    theorems hold for every instance. *)
Class GoSort := {
  go_sort : forall {A : Type}, (A -> A -> bool) -> list A -> list A;
  go_sort_perm : forall {A} (less : A -> A -> bool) l, go_sort less l ≡ₚ l;
  go_sort_sorted : forall {A} (less : A -> A -> bool) l,
    (forall x y, less x y = true -> less y x = false) ->
    (forall x y z, less x y = false -> less y z = false -> less x z = false) ->
    StronglySorted (fun x y => less y x = false) (go_sort less l);
}.

(** Insertion sort is an instance. *)
Fixpoint insert_sorted {A} (less : A -> A -> bool) (x : A) (l : list A) : list A :=
  match l with
  | [] => [x]
  | y :: l' => if less x y then x :: l else y :: insert_sorted less x l'
  end.
Definition insertion_sort {A} (less : A -> A -> bool) (l : list A) : list A :=
  foldr (insert_sorted less) [] (reverse l).

Lemma insert_sorted_perm {A} (less : A -> A -> bool) x l : insert_sorted less x l ≡ₚ x :: l.
Proof.
  induction l as [|y l IH]; [done|]. cbn [insert_sorted]. destruct (less x y); [done|].
  rewrite IH. apply Permutation_swap.
Qed.

#[refine] Definition insertion_go_sort : GoSort := {| go_sort := @insertion_sort |}.
Proof.
  - intros A less l. unfold insertion_sort. rewrite <- (reverse_Permutation l) at 2.
    induction (reverse l) as [|x l' IH]; [done|]. cbn [foldr]. by rewrite insert_sorted_perm, IH.
  - intros A less l Hasym Htrans. unfold insertion_sort. induction (reverse l) as [|x l' IH]; [constructor|].
    cbn [foldr]. set (s := foldr _ _ _) in *. clearbody s. clear l l'.
    induction IH as [|y s Hs IHs Hy]; [repeat constructor|]. cbn [insert_sorted]. destruct (less x y) eqn:E.
    + constructor; [by constructor|]. constructor; [by apply Hasym|].
      eapply Forall_impl; [exact Hy|]. intros z Hz. eapply Htrans; [exact Hz|]. by apply Hasym.
    + constructor; [done|]. rewrite insert_sorted_perm. by constructor.
Defined.
