(* ===== verification/Float64.v ===== *)
(** * IEEE 754 double precision

    Go's [float64] as the Standard Library's [spec_float] at precision 53 and
    exponent bound 1024: the arithmetic of the amd64 SSE2 instructions the
    compiler emits, with one NaN. The comparison operators are those of the
    language (every comparison with NaN is false, [!=] apart). *)

From Stdlib Require Export SpecFloat.
From S2P Require Import Prelude.

Definition float64 : Type := spec_float.
Definition f64_prec : Z := 53.
Definition f64_emax : Z := 1024.

Definition f_add : float64 -> float64 -> float64 := SFadd f64_prec f64_emax.
Definition f_sub : float64 -> float64 -> float64 := SFsub f64_prec f64_emax.
Definition f_mul : float64 -> float64 -> float64 := SFmul f64_prec f64_emax.
Definition f_div : float64 -> float64 -> float64 := SFdiv f64_prec f64_emax.
Definition f_sqrt : float64 -> float64 := SFsqrt f64_prec f64_emax.

(** [float64(z)] for an integer [z]: round to nearest, ties to even. *)
Definition f_of_Z (z : Z) : float64 := binary_normalize f64_prec f64_emax z 0 false.

(** [float64(x)] for a [float32] [x]. *)
Definition f_of_f32 (x : spec_float) : float64 :=
  match x with
  | S754_finite s m e => binary_round f64_prec f64_emax s m e
  | _ => x
  end.

Definition f_ltb (x y : float64) : bool := SFltb x y.
Definition f_leb (x y : float64) : bool := SFleb x y.
Definition f_eqb (x y : float64) : bool := SFeqb x y.
Definition f_gtb (x y : float64) : bool := SFltb y x.
Definition f_geb (x y : float64) : bool := SFleb y x.

Definition f_is_nan (x : float64) : bool :=
  match x with S754_nan => true | _ => false end.
Definition f_is_inf (x : float64) : bool :=
  match x with S754_infinity _ => true | _ => false end.

Definition f_zero : float64 := S754_zero false.
Definition f_one : float64 := f_of_Z 1.

#[export] Instance float64_eq_dec : EqDecision spec_float.
Proof. intros x y. unfold Decision. repeat decide equality. Defined.

(** ** Order *)

(** A float's rank: comparison of two floats that are not NaN is the
    lexicographic comparison of their ranks. *)
Definition f_rank (x : float64) : Z * Z * Z :=
  match x with
  | S754_zero _ => (0, 0, 0)
  | S754_infinity s => (if s then -2 else 2, 0, 0)
  | S754_nan => (0, 0, 0)
  | S754_finite s m e => if s then (-1, - e, Z.neg m) else (1, e, Z.pos m)
  end.

Definition rank_le (a b : Z * Z * Z) : Prop :=
  let '(a1, a2, a3) := a in let '(b1, b2, b3) := b in
  a1 < b1 \/ (a1 = b1 /\ (a2 < b2 \/ (a2 = b2 /\ a3 <= b3))).

Lemma rank_le_refl a : rank_le a a.
Proof. destruct a as [[??]?]. simpl. lia. Qed.
Lemma rank_le_trans a b c : rank_le a b -> rank_le b c -> rank_le a c.
Proof. destruct a as [[??]?], b as [[??]?], c as [[??]?]. simpl. lia. Qed.
Lemma rank_le_total a b : rank_le a b \/ rank_le b a.
Proof. destruct a as [[??]?], b as [[??]?]. simpl. lia. Qed.

Lemma f_leb_rank x y :
  f_is_nan x = false -> f_is_nan y = false ->
  f_leb x y = true <-> rank_le (f_rank x) (f_rank y).
Proof.
  unfold f_leb, SFleb, SFcompare.
  destruct x as [s|s| |s m e], y as [s'|s'| |s' m' e']; intros Hx Hy; try done;
    repeat match goal with b : bool |- _ => destruct b end; simpl;
    try (split; [done|lia]); try (split; [lia|done]);
    try (split; intros; solve [done|lia]);
    change (Pos.compare_cont Eq m m') with (m ?= m')%positive;
    destruct (Z.compare_spec e e'); try destruct (Pos.compare_spec m m');
    simpl; split; intros; try done; try lia.
Qed.

Lemma f_ltb_rank x y :
  f_is_nan x = false -> f_is_nan y = false ->
  f_ltb x y = false <-> rank_le (f_rank y) (f_rank x).
Proof.
  unfold f_ltb, SFltb, SFcompare.
  destruct x as [s|s| |s m e], y as [s'|s'| |s' m' e']; intros Hx Hy; try done;
    repeat match goal with b : bool |- _ => destruct b end; simpl;
    try (split; [done|lia]); try (split; [lia|done]);
    try (split; intros; solve [done|lia]);
    change (Pos.compare_cont Eq m m') with (m ?= m')%positive;
    destruct (Z.compare_spec e e'); try destruct (Pos.compare_spec m m');
    simpl; split; intros; try done; try lia.
Qed.

Lemma f_leb_nan_l x y : f_leb x y = true -> f_is_nan x = false.
Proof. by destruct x. Qed.
Lemma f_leb_nan_r x y : f_leb x y = true -> f_is_nan y = false.
Proof. by destruct x, y. Qed.

Lemma f_leb_refl x : f_is_nan x = false -> f_leb x x = true.
Proof. intros. apply f_leb_rank; auto using rank_le_refl. Qed.

Lemma f_leb_trans x y z : f_leb x y = true -> f_leb y z = true -> f_leb x z = true.
Proof.
  intros H1 H2.
  assert (f_is_nan x = false) by eauto using f_leb_nan_l.
  assert (f_is_nan y = false) by eauto using f_leb_nan_r.
  assert (f_is_nan z = false) by eauto using f_leb_nan_r.
  rewrite f_leb_rank in * by done. by eapply rank_le_trans.
Qed.

Lemma f_ltb_false_leb x y :
  f_is_nan x = false -> f_is_nan y = false -> f_ltb x y = false -> f_leb y x = true.
Proof. intros ??. rewrite f_ltb_rank, f_leb_rank by done. done. Qed.

Lemma f_ltb_leb x y : f_ltb x y = true -> f_leb x y = true.
Proof. unfold f_ltb, f_leb, SFltb, SFleb. by destruct (SFcompare x y) as [[]|]. Qed.

Lemma f_ltb_nan x y : f_ltb x y = true -> f_is_nan x = false /\ f_is_nan y = false.
Proof. by destruct x, y. Qed.

#[export] Hint Resolve f_leb_refl f_ltb_leb f_ltb_false_leb : drone.

(** ** Rounding keeps the mantissa's sign, so it never makes a NaN *)

Lemma shr_1_nonneg mrs : 0 <= shr_m mrs -> 0 <= shr_m (shr_1 mrs).
Proof. destruct mrs as [m r s]. destruct m as [|[]|[]]; simpl; lia. Qed.

Lemma shr_nonneg mrs e n : 0 <= shr_m mrs -> 0 <= shr_m (shr mrs e n).1.
Proof.
  intros H. destruct n as [|p|p]; simpl; try done.
  revert mrs H. induction p as [p IH|p IH|]; intros mrs H; simpl;
    auto using shr_1_nonneg.
Qed.

Lemma shr_fexp_nonneg m e l :
  0 <= m -> 0 <= shr_m (shr_fexp f64_prec f64_emax m e l).1.
Proof.
  intros H. unfold shr_fexp. apply shr_nonneg. by destruct l as [|[]].
Qed.

Lemma round_nearest_even_nonneg m l : 0 <= m -> 0 <= round_nearest_even m l.
Proof. intros H. destruct l as [|[]]; simpl; try lia. destruct (Z.even m); lia. Qed.

Lemma binary_round_aux_not_nan s m e l :
  0 <= m -> f_is_nan (binary_round_aux f64_prec f64_emax s m e l) = false.
Proof.
  intros H. unfold binary_round_aux.
  pose proof (shr_fexp_nonneg m e l H) as H1.
  destruct (shr_fexp f64_prec f64_emax m e l) as [mrs e1]. simpl in H1.
  pose proof (shr_fexp_nonneg (round_nearest_even (shr_m mrs) (loc_of_shr_record mrs)) e1
    loc_Exact (round_nearest_even_nonneg _ _ H1)) as H2.
  destruct (shr_fexp f64_prec f64_emax
    (round_nearest_even (shr_m mrs) (loc_of_shr_record mrs)) e1 loc_Exact) as [mrs2 e2].
  simpl in H2. destruct (shr_m mrs2); [done| |lia]. by case_match.
Qed.

(** An integer is never converted to NaN. *)
Lemma f_of_Z_not_nan z : f_is_nan (f_of_Z z) = false.
Proof.
  unfold f_of_Z, binary_normalize, binary_round. destruct z as [|p|p]; [done|..];
    case_match;
    by apply binary_round_aux_not_nan.
Qed.
#[export] Hint Resolve f_of_Z_not_nan : drone.
