(* ===== verification/Strconv.v ===== *)
(** * Number formatting

    The functions of Go's [strconv] and [fmt] the program formats numbers with:
    [FormatInt], [FormatUint], and [FormatFloat] with the shortest precision in
    the formats ['f'] and ['g'] ([%v]). The shortest decimal of a float is the
    one with the fewest digits that rounds back to it, the closest one if there
    are several; seventeen digits always do. *)

From Stdlib Require Import SpecFloat Ascii.
From S2P Require Import Prelude Float64.

(** ** Integers *)

Definition digit_char (d : Z) : ascii := ascii_of_N (48 + Z.to_N d).

(** The decimal digits of [n >= 0], most significant first, in front of [acc];
    [fuel] bounds the number of digits. *)
Fixpoint digits_loop (fuel : nat) (n : Z) (acc : string) : string :=
  match fuel with
  | O => acc
  | S fuel' =>
    let acc := String (digit_char (n mod 10)) acc in
    if n / 10 =? 0 then acc else digits_loop fuel' (n / 10) acc
  end.

(** The number of decimal digits of a number is at most that of its bits, plus one. *)
Definition dec_fuel (n : Z) : nat := S (Z.to_nat (Z.log2 n)).
Definition FormatUint (n : Z) : string := digits_loop (dec_fuel n) n EmptyString.
Definition FormatInt (n : Z) : string :=
  if n <? 0 then String "-"%char (FormatUint (- n)) else FormatUint n.
Definition FormatBool (b : bool) : string := if b then "true" else "false".

(** Reading decimal digits back. *)
Fixpoint read_digits (s : string) (acc : Z) : option Z :=
  match s with
  | EmptyString => Some acc
  | String c s' =>
    let d := Z.of_N (N_of_ascii c) - 48 in
    if (0 <=? d) && (d <=? 9) then read_digits s' (acc * 10 + d) else None
  end.

(** ** Floats *)

(** The value of [(-1)^s m 2^e] is [num/den]. *)
Definition ratio (m : positive) (e : Z) : Z * Z :=
  if 0 <=? e then (Zpos m * 2 ^ e, 1) else (Zpos m, 2 ^ (- e)).

(** The float nearest to [d * 10^k], [d > 0]. *)
Definition of_decimal (d k : Z) : float64 :=
  if 0 <=? k then f_of_Z (d * 10 ^ k)
  else let '(q, e, l) := SFdiv_core_binary f64_prec f64_emax d 0 (10 ^ (- k)) 0 in
    binary_round_aux f64_prec f64_emax false q e l.

(** [10^(dp-1) <= num/den < 10^dp]: correct an estimate of [dp]. *)
Fixpoint fix_point (fuel : nat) (num den dp : Z) : Z :=
  match fuel with
  | O => dp
  | S fuel' =>
    let ge k := if 0 <=? k then den * 10 ^ k <=? num else den <=? num * 10 ^ (- k) in
    if ge dp then fix_point fuel' num den (dp + 1)
    else if ge (dp - 1) then dp else fix_point fuel' num den (dp - 1)
  end.
Definition dec_point (num den : Z) : Z :=
  fix_point 8 num den ((Z.log2 num - Z.log2 den) * 30103 / 100000).

(** The digits and the decimal point of the shortest decimal with [n] digits or
    more, [fuel] digits at most. *)
Fixpoint shortest_loop (fuel : nat) (x : float64) (num den dp n : Z) : Z * Z :=
  let k := n - dp in
  let a := if 0 <=? k then num * 10 ^ k else num in
  let b := if 0 <=? k then den else den * 10 ^ (- k) in
  let d := a / b in
  let r := a mod b in
  let ok c := match SFcompare (of_decimal c (- k)) x with Some Eq => true | _ => false end in
  let up := if d + 1 =? 10 ^ n then (1, dp + 1) else (d + 1, dp) in
  match fuel with
  | O => (d, dp)
  | S fuel' =>
    if (0 <? d) && ok d then
      if ok (d + 1) && (b <? 2 * r) then up else (d, dp)
    else if ok (d + 1) then up
    else shortest_loop fuel' x num den dp (n + 1)
  end.

Fixpoint zeros (n : nat) : string := match n with O => EmptyString | S n' => String "0"%char (zeros n') end.

Definition str_take (n : nat) (s : string) : string := String.substring 0 n s.
Definition str_drop (n : nat) (s : string) : string := String.substring n (String.length s - n) s.

(** The digits [ds] with the decimal point at [dp], formats ['f'] and ['e']. *)
Definition fmt_f (ds : string) (dp : Z) : string :=
  let nd := Z.of_nat (String.length ds) in
  if dp <=? 0 then "0." +:+ zeros (Z.to_nat (- dp)) +:+ ds
  else if nd <=? dp then ds +:+ zeros (Z.to_nat (dp - nd))
  else str_take (Z.to_nat dp) ds +:+ "." +:+ str_drop (Z.to_nat dp) ds.
Definition fmt_e (ds : string) (dp : Z) : string :=
  let e := dp - 1 in
  let ae := FormatUint (Z.abs e) in
  str_take 1 ds +:+ (if (String.length ds =? 1)%nat then EmptyString else "." +:+ str_drop 1 ds) +:+
  "e" +:+ (if e <? 0 then "-" else "+") +:+ (if Z.abs e <? 10 then "0" +:+ ae else ae).

Definition format_with (f : string -> Z -> string) (x : float64) : string :=
  match x with
  | S754_nan => "NaN"
  | S754_infinity s => if s then "-Inf" else "+Inf"
  | S754_zero s => if s then "-0" else "0"
  | S754_finite s m e =>
    let '(num, den) := ratio m e in
    let '(d, dp) := shortest_loop 17 (S754_finite false m e) num den (dec_point num den) 1 in
    (if s then "-" else EmptyString) +:+ f (FormatUint d) dp
  end.

(** [strconv.FormatFloat(x, 'f', -1, 64)]. *)
Definition FormatFloat_f (x : float64) : string := format_with fmt_f x.
(** [strconv.FormatFloat(x, 'g', -1, 64)], which [%v] uses. *)
Definition FormatFloat_g (x : float64) : string :=
  format_with (fun ds dp => if (dp - 1 <? -4) || (6 <=? dp - 1) then fmt_e ds dp else fmt_f ds dp) x.

(** ** Properties *)

(** A fraction of integers as a float, for examples. *)
Definition f_frac (a b : Z) : float64 := f_div (f_of_Z a) (f_of_Z b).

Lemma FormatFloat_examples :
  FormatFloat_f (f_frac 1 10) = "0.1" /\ FormatFloat_f (f_frac 156 10) = "15.6" /\
  FormatFloat_f (f_of_Z 100) = "100" /\ FormatFloat_f (f_frac 1 3) = "0.3333333333333333" /\
  FormatFloat_f (f_of_Z (2 ^ 70)) = "1180591620717411300000" /\
  FormatFloat_g (f_of_Z 1000000) = "1e+06" /\ FormatFloat_g (f_frac (-1) 100000) = "-1e-05" /\
  FormatFloat_g (f_of_Z 123456) = "123456" /\ FormatFloat_g (f_of_Z 9) = "9" /\
  FormatFloat_f (S754_finite false 1 (-1074)) = "0." +:+ zeros 323 +:+ "5".
Proof. vm_compute. repeat split. Qed.

Lemma read_digit d s acc : 0 <= d <= 9 -> read_digits (String (digit_char d) s) acc = read_digits s (acc * 10 + d).
Proof.
  intros Hd. cbn [read_digits]. unfold digit_char.
  rewrite N_ascii_embedding by lia.
  replace (Z.of_N (48 + Z.to_N d) - 48) with d by lia.
  rewrite (proj2 (Z.leb_le 0 d)), (proj2 (Z.leb_le d 9)) by lia. done.
Qed.

Lemma digits_loop_read fuel n acc :
  0 <= n < 10 ^ Z.of_nat fuel -> read_digits (digits_loop fuel n acc) 0 = read_digits acc n.
Proof.
  revert n acc. induction fuel as [|fuel IH]; intros n acc Hn.
  { simpl in *. f_equal. lia. }
  cbn [digits_loop]. pose proof (Z.mod_pos_bound n 10 ltac:(lia)) as Hm.
  pose proof (Z.div_mod n 10 ltac:(lia)) as Hdm.
  destruct (Z.eqb_spec (n / 10) 0) as [E|E].
  - rewrite read_digit by lia. f_equal. lia.
  - assert (0 <= n / 10 < 10 ^ Z.of_nat fuel) as Hr.
    { split; [apply Z.div_pos; lia|]. apply Z.div_lt_upper_bound; [lia|].
      rewrite <- Z.pow_succ_r by lia. replace (Z.succ (Z.of_nat fuel)) with (Z.of_nat (S fuel)) by lia. lia. }
    rewrite IH, read_digit by lia.
    f_equal. lia.
Qed.

(** Reading back what [FormatUint] writes. *)
Lemma FormatUint_read n : 0 <= n -> read_digits (FormatUint n) 0 = Some n.
Proof.
  intros Hn. unfold FormatUint, dec_fuel. rewrite digits_loop_read; [done|]. split; [done|].
  destruct (decide (n = 0)) as [->|]; [simpl; lia|].
  pose proof (Z.log2_spec n ltac:(lia)) as [_ Hl].
  assert (Z.of_nat (S (Z.to_nat (Z.log2 n))) = Z.succ (Z.log2 n)) as -> by (pose proof (Z.log2_nonneg n); lia).
  eapply Z.lt_le_trans; [exact Hl|]. apply Z.pow_le_mono_l. lia.
Qed.

Lemma FormatUint_inj n1 n2 : 0 <= n1 -> 0 <= n2 -> FormatUint n1 = FormatUint n2 -> n1 = n2.
Proof. intros H1 H2 E. apply FormatUint_read in H1, H2. rewrite E in H1. congruence. Qed.

Lemma digits_loop_head fuel n acc c s :
  (0 < fuel)%nat -> 0 <= n -> digits_loop fuel n acc = String c s -> c <> "-"%char.
Proof.
  assert (forall d, 0 <= d <= 9 -> digit_char d <> "-"%char) as Hd.
  { intros d Hd E. apply (f_equal N_of_ascii) in E. unfold digit_char in E.
    rewrite N_ascii_embedding in E by lia. change (N_of_ascii "-"%char) with 45%N in E. lia. }
  revert n acc. induction fuel as [|fuel IH]; intros n acc Hf Hn; [lia|]. cbn [digits_loop].
  pose proof (Z.mod_pos_bound n 10 ltac:(lia)) as Hm. case_match.
  - intros [= <- <-]. apply Hd. lia.
  - destruct fuel as [|fuel]; [intros [= <- <-]; apply Hd; lia|].
    apply IH; [lia|apply Z.div_pos; lia].
Qed.

(** Different integers are written differently. *)
Lemma FormatInt_inj n1 n2 : FormatInt n1 = FormatInt n2 -> n1 = n2.
Proof.
  assert (forall n m, 0 <= n -> FormatUint n <> String "-"%char (FormatUint m)) as Hne.
  { intros n m Hn E. unfold FormatUint in E at 1. apply digits_loop_head in E; [done|unfold dec_fuel; lia|done]. }
  unfold FormatInt. destruct (Z.ltb_spec n1 0), (Z.ltb_spec n2 0); intros E.
  - injection E as E. apply FormatUint_inj in E; lia.
  - symmetry in E. by apply Hne in E.
  - by apply Hne in E.
  - by apply FormatUint_inj.
Qed.
