(* ===== verification/Strings.v ===== *)
(** * Strings and UTF-8

    What the sources use of the packages [strings], [bytes], [unicode] and
    [unicode/utf8]: decoding of runes, splitting and joining, white space, replacement. A
    string is its bytes; functions that work on runes decode them as Go does, an
    invalid byte being a rune of its own. *)

From Stdlib Require Import Ascii.
From S2P Require Import Prelude Strconv.

(** ** Runes *)

Definition RuneError : Z := 65533.

Definition between (a b x : Z) : bool := (a <=? x) && (x <=? b).

(** [utf8.DecodeRuneInString]: the rune and its width, for a non-empty string given as bytes. *)
Definition decode_rune (bs : list Z) : Z * nat :=
  match bs with
  | [] => (RuneError, 0%nat)
  | b0 :: r0 =>
    if b0 <? 128 then (b0, 1%nat) else
    match r0 with
    | [] => (RuneError, 1%nat)
    | b1 :: r1 =>
      if between 194 223 b0 then
        if between 128 191 b1 then ((b0 - 192) * 64 + (b1 - 128), 2%nat) else (RuneError, 1%nat)
      else
      let lo1 := if b0 =? 224 then 160 else if b0 =? 240 then 144 else 128 in
      let hi1 := if b0 =? 237 then 159 else if b0 =? 244 then 143 else 191 in
      if negb (between 224 244 b0 && between lo1 hi1 b1) then (RuneError, 1%nat) else
      match r1 with
      | [] => (RuneError, 1%nat)
      | b2 :: r2 =>
        if negb (between 128 191 b2) then (RuneError, 1%nat) else
        if b0 <? 240 then ((b0 - 224) * 4096 + (b1 - 128) * 64 + (b2 - 128), 3%nat) else
        match r2 with
        | [] => (RuneError, 1%nat)
        | b3 :: _ =>
          if between 128 191 b3
          then ((b0 - 240) * 262144 + (b1 - 128) * 4096 + (b2 - 128) * 64 + (b3 - 128), 4%nat)
          else (RuneError, 1%nat)
        end
      end
    end
  end.

(** [for i, r := range s]: the runes, each with its bytes. *)
Fixpoint runes_loop (fuel : nat) (s : string) : list (Z * string) :=
  match fuel, s with
  | _, EmptyString | O, _ => []
  | S fuel', _ =>
    let '(r, n) := decode_rune (bytes s) in
    (r, str_take n s) :: runes_loop fuel' (str_drop n s)
  end.
Definition runes (s : string) : list (Z * string) := runes_loop (String.length s) s.

Definition byte_char (z : Z) : ascii := ascii_of_N (Z.to_N z).

(** [utf8.EncodeRune]: surrogates and numbers beyond the last rune become the error rune. *)
Definition encode_rune (r : Z) : string :=
  let r := if (r <? 0) || (1114111 <? r) || between 55296 57343 r then RuneError else r in
  if r <? 128 then String (byte_char r) EmptyString
  else if r <? 2048 then String (byte_char (192 + r / 64)) (String (byte_char (128 + r mod 64)) EmptyString)
  else if r <? 65536 then
    String (byte_char (224 + r / 4096)) (String (byte_char (128 + r / 64 mod 64)) (String (byte_char (128 + r mod 64)) EmptyString))
  else
    String (byte_char (240 + r / 262144)) (String (byte_char (128 + r / 4096 mod 64))
      (String (byte_char (128 + r / 64 mod 64)) (String (byte_char (128 + r mod 64)) EmptyString))).

(** [unicode.IsSpace]. *)
Definition IsSpace (r : Z) : bool :=
  between 9 13 r || (r =? 32) || (r =? 133) || (r =? 160) || (r =? 5760) || between 8192 8202 r ||
  (r =? 8232) || (r =? 8233) || (r =? 8239) || (r =? 8287) || (r =? 12288).

(** ** Joining and splitting *)

Fixpoint Join (l : list string) (sep : string) : string :=
  match l with
  | [] => EmptyString
  | s :: l' => match l' with [] => s | _ => s +:+ sep +:+ Join l' sep end
  end.

Definition concat_strings (l : list string) : string := foldr (fun s t => s +:+ t) EmptyString l.

(** [strings.HasPrefix], [strings.TrimPrefix] if it has it. *)
Fixpoint strip_prefix (p s : string) : option string :=
  match p, s with
  | EmptyString, _ => Some s
  | String c p', String d s' => if decide (c = d) then strip_prefix p' s' else None
  | _, _ => None
  end.
Definition HasPrefix (s p : string) : bool := bool_decide (is_Some (strip_prefix p s)).

(** The text before and after the first occurrence of [sep]. *)
Fixpoint cut_at (sep s : string) : option (string * string) :=
  match strip_prefix sep s with
  | Some rest => Some (EmptyString, rest)
  | None =>
    match s with
    | EmptyString => None
    | String c s' => '(a, b) ← cut_at sep s'; Some (String c a, b)
    end
  end.
Definition Contains (s sep : string) : bool := bool_decide (is_Some (cut_at sep s)).

Fixpoint split_loop (fuel : nat) (sep s : string) : list string :=
  match fuel with
  | O => [s]
  | S fuel' =>
    match cut_at sep s with
    | None => [s]
    | Some (a, b) => a :: split_loop fuel' sep b
    end
  end.

(** [strings.Split]: by an empty separator, into runes, invalid bytes becoming the error rune. *)
Definition explode (s : string) : list string :=
  (fun rb => if rb.1 =? RuneError then
     String (ascii_of_N 239) (String (ascii_of_N 191) (String (ascii_of_N 189) EmptyString)) else rb.2) <$> runes s.
Definition Split (s sep : string) : list string :=
  match sep with
  | EmptyString => explode s
  | _ => split_loop (String.length s) sep s
  end.

(** [strings.Count] and [strings.Replace(s, old, new, -1)], for a non-empty text. *)
Definition Count (s sep : string) : nat := pred (length (split_loop (String.length s) sep s)).
Definition ReplaceAll (s old new : string) : string := Join (split_loop (String.length s) old s) new.

(** [strings.Replace(s, old, new, 1)]. *)
Definition Replace1 (s old new : string) : string :=
  match cut_at old s with Some (a, b) => a +:+ new +:+ b | None => s end.

(** [strings.NewReplacer]: at each position the first pair whose text comes next is replaced, and the rest is read on after it. The texts
    are not empty. *)

Fixpoint first_pair (ps : list (string * string)) (s : string) : option (string * string) :=
  match ps with
  | [] => None
  | (old, new) :: ps => match strip_prefix old s with Some rest => Some (new, rest) | None => first_pair ps s end
  end.

Fixpoint replace_loop (fuel : nat) (ps : list (string * string)) (s : string) : string :=
  match fuel with
  | O => s
  | S fuel =>
    match s with
    | EmptyString => EmptyString
    | String c s' =>
      match first_pair ps s with
      | Some (new, rest) => new +:+ replace_loop fuel ps rest
      | None => String c (replace_loop fuel ps s')
      end
    end
  end.
Definition Replacer (ps : list (string * string)) (s : string) : string := replace_loop (String.length s) ps s.

(** ** White space *)

(** [strings.TrimSuffix], and whether there was the suffix. *)
Fixpoint strip_suffix (p s : string) : option string :=
  if decide (s = p) then Some EmptyString else
  match s with
  | EmptyString => None
  | String c s' => String c <$> strip_suffix p s'
  end.
Definition HasSuffix (s p : string) : bool := if strip_suffix p s is Some _ then true else false.
Definition TrimSuffix (s p : string) : string := default s (strip_suffix p s).

(** [strings.Trim] of the bytes of one ASCII character, from the left. *)
Fixpoint trim_left (c : ascii) (s : string) : string :=
  match s with
  | String d s' => if decide (d = c) then trim_left c s' else s
  | EmptyString => s
  end.
(** From the right. *)
Fixpoint trim_right (c : ascii) (s : string) : string :=
  match s with
  | EmptyString => EmptyString
  | String d s' =>
    let t := trim_right c s' in
    if decide (d = c /\ t = EmptyString) then EmptyString else String d t
  end.
Definition Trim (s : string) (c : ascii) : string := trim_right c (trim_left c s).

(** [strings.Fields]: the maximal runs of runes that are not white space. *)
Fixpoint fields_of_runes (rs : list (Z * string)) (cur : string) : list string :=
  match rs with
  | [] => if decide (cur = EmptyString) then [] else [cur]
  | (r, b) :: rs' =>
    if IsSpace r then
      (if decide (cur = EmptyString) then [] else [cur]) ++ fields_of_runes rs' EmptyString
    else fields_of_runes rs' (cur +:+ b)
  end.
Definition Fields (s : string) : list string := fields_of_runes (runes s) EmptyString.

(** [strings.TrimSpace]. *)
Fixpoint drop_space (rs : list (Z * string)) : list (Z * string) :=
  match rs with
  | [] => []
  | (r, b) :: rs' => if IsSpace r then drop_space rs' else rs
  end.
Definition TrimSpace (s : string) : string :=
  concat_strings (snd <$> reverse (drop_space (reverse (drop_space (runes s))))).

(** ** Lemmas *)

Lemma strip_prefix_Some p s t : strip_prefix p s = Some t <-> s = p +:+ t.
Proof.
  revert s. induction p as [|c p IH]; intros s.
  - simpl. split; [by intros [= ->]|]. change (EmptyString +:+ t) with t. by intros ->.
  - change (String c p +:+ t) with (String c (p +:+ t)). destruct s as [|d s]; [done|]. cbn [strip_prefix].
    case_decide as E.
    + subst d. rewrite IH. split; [by intros ->|]. by intros [= ->].
    + split; [done|]. intros [=]. congruence.
Qed.

Lemma cut_at_Some sep s a b : cut_at sep s = Some (a, b) -> s = a +:+ sep +:+ b.
Proof.
  revert a. induction s as [|c s IH]; intros a; cbn [cut_at].
  - destruct (strip_prefix sep EmptyString) as [r|] eqn:E; [|done]. intros [= <- <-]. by apply strip_prefix_Some in E.
  - destruct (strip_prefix sep (String c s)) as [r|] eqn:E.
    + intros [= <- <-]. by apply strip_prefix_Some in E.
    + destruct (cut_at sep s) as [[a' b']|] eqn:E'; [|done]. binds. intros [= <- <-].
      change (String c a' +:+ sep +:+ b') with (String c (a' +:+ sep +:+ b')). f_equal. by apply IH.
Qed.

Lemma Join_cons sep s l : l <> [] -> Join (s :: l) sep = s +:+ sep +:+ Join l sep.
Proof. by destruct l. Qed.

Lemma split_loop_nonempty fuel sep s : split_loop fuel sep s <> [].
Proof. destruct fuel; cbn [split_loop]; [done|]. by destruct (cut_at sep s) as [[a b]|]. Qed.

(** Splitting and joining by the same separator is the identity. *)
Lemma Join_split_loop fuel sep s : Join (split_loop fuel sep s) sep = s.
Proof.
  revert s. induction fuel as [|fuel IH]; intros s; [done|]. cbn [split_loop].
  destruct (cut_at sep s) as [[a b]|] eqn:E; [|done].
  rewrite Join_cons by apply split_loop_nonempty. rewrite IH. symmetry. by apply cut_at_Some.
Qed.

Lemma Join_Split sep s : sep <> EmptyString -> Join (Split s sep) sep = s.
Proof. unfold Split. destruct sep; [done|]. intros _. apply Join_split_loop. Qed.

Lemma str_length_app (s t : string) : String.length (s +:+ t) = (String.length s + String.length t)%nat.
Proof.
  induction s as [|c s IH]; [done|]. change (String c s +:+ t) with (String c (s +:+ t)). simpl. lia.
Qed.

(** The first occurrence of a one-byte separator is where a text without it ends. *)
Fixpoint free_of (c : ascii) (s : string) : bool :=
  match s with EmptyString => true | String d s' => negb (bool_decide (d = c)) && free_of c s' end.

Lemma cut_at_free c a b : free_of c a = true -> cut_at (String c EmptyString) (a +:+ String c b) = Some (a, b).
Proof.
  induction a as [|d a IH]; intros Ha.
  - change (EmptyString +:+ String c b) with (String c b). cbn [cut_at strip_prefix]. by rewrite decide_True.
  - change (String d a +:+ String c b) with (String d (a +:+ String c b)).
    cbn [free_of] in Ha. apply andb_true_iff in Ha as [Hd Ha]. apply negb_true_iff, bool_decide_eq_false in Hd.
    cbn [cut_at strip_prefix]. rewrite decide_False by congruence. by rewrite IH.
Qed.

Lemma cut_at_free_None c a : free_of c a = true -> cut_at (String c EmptyString) a = None.
Proof.
  induction a as [|d a IH]; intros Ha; [done|].
  cbn [free_of] in Ha. apply andb_true_iff in Ha as [Hd Ha]. apply negb_true_iff, bool_decide_eq_false in Hd.
  cbn [cut_at strip_prefix]. rewrite decide_False by congruence. by rewrite IH.
Qed.

Lemma split_loop_Join fuel c l :
  l <> [] -> Forall (fun s => free_of c s = true) l -> (length l <= S fuel)%nat ->
  split_loop fuel (String c EmptyString) (Join l (String c EmptyString)) = l.
Proof.
  intros Hne Hl. revert fuel. induction Hl as [|s l Hs Hl IH]; intros fuel Hf; [done|].
  destruct l as [|t l].
  - cbn [Join]. destruct fuel; [done|]. cbn [split_loop]. by rewrite cut_at_free_None.
  - rewrite Join_cons by done. destruct fuel as [|fuel]; [simpl in Hf; lia|].
    change (String c EmptyString +:+ Join (t :: l) (String c EmptyString)) with
      (String c (Join (t :: l) (String c EmptyString))).
    cbn [split_loop]. rewrite cut_at_free by done. f_equal. apply IH; [done|simpl in *; lia].
Qed.

Lemma Join_length c l : (length l <= S (String.length (Join l (String c EmptyString))))%nat.
Proof.
  induction l as [|s l IH]; [simpl; lia|]. destruct l as [|t l]; [simpl; lia|].
  rewrite Join_cons by done. rewrite !str_length_app. cbn [length String.length] in *. lia.
Qed.

(** Joining and splitting by one byte is the identity on lists of texts without it. *)
Lemma Split_Join c l :
  l <> [] -> Forall (fun s => free_of c s = true) l ->
  Split (Join l (String c EmptyString)) (String c EmptyString) = l.
Proof. intros Hne Hl. unfold Split. apply split_loop_Join; [done|done|]. apply Join_length. Qed.

Lemma str_take_drop n s : str_take n s +:+ str_drop n s = s.
Proof.
  unfold str_take, str_drop. revert s. induction n as [|n IH]; intros s.
  - destruct s as [|c s]; [done|]. change (String c (String.substring 0 (String.length s) s) = String c s).
    f_equal. induction s as [|d s IH]; [done|]. simpl. by rewrite IH.
  - destruct s as [|c s]; [done|]. simpl.
    change (String c (String.substring 0 n s +:+ String.substring n (String.length s - n) s) = String c s).
    by rewrite IH.
Qed.

(** ** Words of printable characters *)

Fixpoint printable (s : string) : bool :=
  match s with EmptyString => true | String c s' => between 33 126 (byte_of c) && printable s' end.

(** The runes of an ASCII text are its bytes. *)
Fixpoint chars (s : string) : list (Z * string) :=
  match s with EmptyString => [] | String c s' => (byte_of c, String c EmptyString) :: chars s' end.
Fixpoint is_ascii (s : string) : bool :=
  match s with EmptyString => true | String c s' => (byte_of c <? 128) && is_ascii s' end.

Lemma str_drop_1 c s : str_drop 1 (String c s) = s.
Proof.
  unfold str_drop. cbn [String.length String.substring]. rewrite Nat.sub_succ, Nat.sub_0_r.
  induction s as [|d s IH]; [done|]. cbn [String.length String.substring]. by rewrite IH.
Qed.

Lemma runes_ascii s : is_ascii s = true -> runes s = chars s.
Proof.
  unfold runes. induction s as [|c s IH]; intros Hs; [done|]. cbn [is_ascii] in Hs. apply andb_true_iff in Hs as [Hc Hs].
  cbn [String.length runes_loop bytes]. unfold decode_rune. rewrite Hc. rewrite str_drop_1, IH by done.
  cbn [chars]. f_equal. f_equal. by destruct s.
Qed.

Lemma printable_ascii s : printable s = true -> is_ascii s = true.
Proof.
  induction s as [|c s IH]; [done|]. cbn. unfold between. rewrite !andb_true_iff. intros [[H1 H2] Hs].
  split; [|by apply IH]. apply Z.ltb_lt. apply Z.leb_le in H2. lia.
Qed.

Lemma is_ascii_app s t : is_ascii (s +:+ t) = is_ascii s && is_ascii t.
Proof.
  induction s as [|c s IH]; [done|]. change (String c s +:+ t) with (String c (s +:+ t)). cbn. by rewrite IH, andb_assoc.
Qed.
Lemma chars_app s t : chars (s +:+ t) = chars s ++ chars t.
Proof. induction s as [|c s IH]; [done|]. change (String c s +:+ t) with (String c (s +:+ t)). cbn. by rewrite IH. Qed.

Lemma printable_not_space c : between 33 126 (byte_of c) = true -> IsSpace (byte_of c) = false.
Proof. destruct c as [[] [] [] [] [] [] [] []]; vm_compute; done. Qed.

Lemma fields_of_word w rs cur :
  printable w = true -> fields_of_runes (chars w ++ rs) cur = fields_of_runes rs (cur +:+ w).
Proof.
  revert cur. induction w as [|c w IH]; intros cur Hw; [cbn; by rewrite str_app_nil_r|].
  cbn [printable] in Hw. apply andb_true_iff in Hw as [Hc Hw]. cbn [chars app fields_of_runes].
  rewrite printable_not_space, IH, str_app_assoc by done. done.
Qed.

Lemma str_app_nonempty s t : s <> EmptyString -> s +:+ t <> EmptyString.
Proof. by destruct s. Qed.

Lemma Join_head_nonempty s l sep : s <> EmptyString -> Join (s :: l) sep <> EmptyString.
Proof. intros Hs. destruct l; [done|]. rewrite Join_cons by done. by apply str_app_nonempty. Qed.

(** Words joined by single spaces are the fields of the text. *)
Lemma Fields_Join ws :
  Forall (fun w => printable w = true /\ w <> EmptyString) ws -> Fields (Join ws " ") = ws.
Proof.
  intros Hws. unfold Fields. rewrite runes_ascii.
  - induction Hws as [|w ws [Hp Hne] Hws IH]; [done|]. destruct ws as [|w' ws].
    + cbn [Join]. rewrite <- (app_nil_r (chars w)), fields_of_word by done. cbn. by rewrite decide_False.
    + rewrite Join_cons, !chars_app, fields_of_word by done. change (chars " ") with [(32, " ")]. cbn [app fields_of_runes].
      change (IsSpace 32) with true. cbn match. change (EmptyString +:+ w) with w. rewrite decide_False by done.
      by rewrite IH.
  - induction Hws as [|w ws [Hp Hne] Hws IH]; [done|]. destruct ws as [|w' ws]; [by apply printable_ascii|].
    rewrite Join_cons, !is_ascii_app, IH by done. by rewrite printable_ascii.
Qed.

Lemma printable_app s t : printable (s +:+ t) = printable s && printable t.
Proof.
  induction s as [|c s IH]; [done|]. change (String c s +:+ t) with (String c (s +:+ t)). cbn. by rewrite IH, andb_assoc.
Qed.

Lemma printable_Join ws sep :
  printable sep = true -> Forall (fun w => printable w = true) ws -> printable (Join ws sep) = true.
Proof.
  intros Hs Hws. induction Hws as [|w ws Hw Hws IH]; [done|]. destruct ws as [|w' ws]; [done|].
  rewrite Join_cons, !printable_app, IH, Hw, Hs by done. done.
Qed.

Lemma free_of_app c s t : free_of c (s +:+ t) = free_of c s && free_of c t.
Proof.
  induction s as [|d s IH]; [done|]. change (String d s +:+ t) with (String d (s +:+ t)). cbn. by rewrite IH, andb_assoc.
Qed.

Lemma free_of_Join c ws sep :
  free_of c sep = true -> Forall (fun w => free_of c w = true) ws -> free_of c (Join ws sep) = true.
Proof.
  intros Hs Hws. induction Hws as [|w ws Hw Hws IH]; [done|]. destruct ws as [|w' ws]; [done|].
  by rewrite Join_cons, !free_of_app, IH, Hw, Hs.
Qed.

(** A byte that is not printable is in no printable text. *)
Lemma printable_free c s : between 33 126 (byte_of c) = false -> printable s = true -> free_of c s = true.
Proof.
  intros Hc. induction s as [|d s IH]; [done|]. cbn. rewrite !andb_true_iff. intros [Hd Hs]. split; [|by apply IH].
  apply negb_true_iff, bool_decide_eq_false. intros ->. congruence.
Qed.

Lemma chars_concat s : concat_strings (snd <$> chars s) = s.
Proof. induction s as [|c s IH]; [done|]. unfold concat_strings in *. cbn in *. by rewrite IH. Qed.

Lemma drop_space_id rs : Forall (fun rb => IsSpace rb.1 = false) rs -> drop_space rs = rs.
Proof. destruct 1 as [|[r b] rs Hr _]; [done|]. cbn in *. by rewrite Hr. Qed.

Lemma TrimSpace_printable s : printable s = true -> TrimSpace s = s.
Proof.
  intros Hs. unfold TrimSpace. rewrite runes_ascii by (by apply printable_ascii).
  assert (Forall (fun rb => IsSpace rb.1 = false) (chars s)) as Hc.
  { induction s as [|c s IH]; [constructor|]. cbn in Hs. apply andb_true_iff in Hs as [Hc Hs].
    constructor; [by apply printable_not_space|by apply IH]. }
  rewrite (drop_space_id (chars s)), drop_space_id, reverse_involutive by (done || by rewrite reverse_Permutation).
  apply chars_concat.
Qed.

Lemma substring_app_l s t : String.substring 0 (String.length s) (s +:+ t) = s.
Proof.
  induction s as [|c s IH]; [by destruct t|]. change (String c s +:+ t) with (String c (s +:+ t)). cbn. by rewrite IH.
Qed.
Lemma substring_app_r s t n : String.substring (String.length s) n (s +:+ t) = String.substring 0 n t.
Proof. induction s as [|c s IH]; [done|]. change (String c s +:+ t) with (String c (s +:+ t)). cbn. by rewrite IH. Qed.
Lemma substring_all s : String.substring 0 (String.length s) s = s.
Proof. induction s as [|c s IH]; [done|]. cbn. by rewrite IH. Qed.
