(* ===== verification/Metric.v ===== *)
(** * Metrics

    The data model of [metric.go] and the implementation of [telegraf.Metric]
    in [metric/metric.go]: a measurement name, a slice of tags kept sorted by
    key, a slice of fields with distinct keys, a timestamp, a value type and the
    aggregate flag. The last part states the abstract metric (two finite maps)
    that the slices implement and proves the refinement.

    A [time.Time] is the instant it denotes, in nanoseconds since the Unix
    epoch. [TagList] and [FieldList] return the slices themselves, so code that
    reads them reads [tags] and [fields]. *)

From S2P Require Import Prelude Float64.

(** ** Values *)

(** The dynamic types [convertField] distinguishes, other than pointers. *)
Inductive Scalar :=
| SFloat64 (f : float64) | SFloat32 (f : spec_float)
| SInt64 (z : Z) | SInt (z : Z) | SInt32 (z : Z) | SInt16 (z : Z) | SInt8 (z : Z)
| SUint64 (z : Z) | SUint (z : Z) | SUint32 (z : Z) | SUint16 (z : Z) | SUint8 (z : Z)
| SString (s : string) | SBool (b : bool) | SBytes (s : string).

(** An [interface{}] argument: nil, a scalar, a pointer to a scalar (nil or
    not), or a value of a type the program does not distinguish. *)
Inductive GoVal :=
| GoNil
| GoScalar (s : Scalar)
| GoPtr (p : option Scalar)
| GoOther.

(** The contents of [Field.Value]: the types [convertField] produces. *)
Inductive Val :=
| VNil
| VFloat (f : float64)
| VInt (z : Z)
| VUint (z : Z)
| VString (s : string)
| VBool (b : bool).

#[export] Instance Val_eq_dec : EqDecision Val.
Proof. solve_decision. Defined.

(** A stored value read back as an [interface{}]. *)
Definition go_of_val (v : Val) : GoVal :=
  match v with
  | VNil => GoNil
  | VFloat f => GoScalar (SFloat64 f)
  | VInt z => GoScalar (SInt64 z)
  | VUint z => GoScalar (SUint64 z)
  | VString s => GoScalar (SString s)
  | VBool b => GoScalar (SBool b)
  end.

Definition convertScalar (s : Scalar) : Val :=
  match s with
  | SFloat64 f => VFloat f
  | SInt64 z => VInt z
  | SString s => VString s
  | SBool b => VBool b
  | SInt z => VInt z
  | SUint z => VUint z
  | SUint64 z => VUint z
  | SBytes s => VString s
  | SInt32 z => VInt z
  | SInt16 z => VInt z
  | SInt8 z => VInt z
  | SUint32 z => VUint z
  | SUint16 z => VUint z
  | SUint8 z => VUint z
  | SFloat32 f => VFloat (f_of_f32 f)
  end.

Definition convertField (v : GoVal) : Val :=
  match v with
  | GoScalar s => convertScalar s
  | GoPtr (Some s) => convertScalar s
  | GoPtr None => VNil
  | GoNil | GoOther => VNil
  end.

Lemma convertField_go_of_val v : convertField (go_of_val v) = v.
Proof. by destruct v. Qed.
#[export] Hint Rewrite convertField_go_of_val : drone_rw.

(** ** Metrics *)

Inductive ValueType := Counter | Gauge | Untyped | Summary | Histogram.

Record Tag := mkTag { Key : string; Value : string }.
Record Field := mkField { FKey : string; FValue : Val }.

Record metric := mkMetric {
  name : string;
  tags : list Tag;
  fields : list Field;
  tm : Z;
  tp : ValueType;
  aggregate : bool;
}.

#[export] Instance ValueType_eq_dec : EqDecision ValueType.
Proof. solve_decision. Defined.
#[export] Instance Tag_eq_dec : EqDecision Tag.
Proof. solve_decision. Defined.
#[export] Instance Field_eq_dec : EqDecision Field.
Proof. solve_decision. Defined.
#[export] Instance metric_eq_dec : EqDecision metric.
Proof. solve_decision. Defined.

Definition set_name (n : string) (m : metric) : metric :=
  mkMetric n (tags m) (fields m) (tm m) (tp m) (aggregate m).
Definition set_tags (ts : list Tag) (m : metric) : metric :=
  mkMetric (name m) ts (fields m) (tm m) (tp m) (aggregate m).
Definition set_fields (fs : list Field) (m : metric) : metric :=
  mkMetric (name m) (tags m) fs (tm m) (tp m) (aggregate m).

(** *** Accessors *)

Definition Tags (m : metric) : gmap string string := keyed_map Key Value (tags m).
Definition Fields (m : metric) : gmap string Val := keyed_map FKey FValue (fields m).

Definition HasTag (k : string) (m : metric) : bool :=
  match key_find Key k (tags m) with Some _ => true | None => false end.
Definition GetTag (k : string) (m : metric) : option string :=
  Value <$> key_find Key k (tags m).
Definition HasField (k : string) (m : metric) : bool :=
  match key_find FKey k (fields m) with Some _ => true | None => false end.
Definition GetField (k : string) (m : metric) : option Val :=
  FValue <$> key_find FKey k (fields m).

(** *** Mutators *)

Definition SetName (n : string) (m : metric) : metric := set_name n m.
Definition AddPrefix (prefix : string) (m : metric) : metric := set_name (prefix +:+ name m) m.
Definition AddSuffix (suffix : string) (m : metric) : metric := set_name (name m +:+ suffix) m.

(** The loop of [AddTag]: skip smaller keys, overwrite an equal key in place,
    insert before the first larger key, append at the end. *)
Fixpoint addTag (key value : string) (ts : list Tag) : list Tag :=
  match ts with
  | [] => [mkTag key value]
  | t :: ts' =>
    if str_ltb (Key t) key then t :: addTag key value ts'
    else if decide (key = Key t) then mkTag (Key t) value :: ts'
    else mkTag key value :: t :: ts'
  end.

Definition AddTag (key value : string) (m : metric) : metric :=
  set_tags (addTag key value (tags m)) m.

Definition RemoveTag (key : string) (m : metric) : metric :=
  set_tags (key_remove Key key (tags m)) m.

(** The loop of [AddField]: replace the first field with the key, append otherwise. *)
Fixpoint addField (key : string) (v : Val) (fs : list Field) : list Field :=
  match fs with
  | [] => [mkField key v]
  | f :: fs' =>
    if decide (key = FKey f) then mkField key v :: fs' else f :: addField key v fs'
  end.

Definition AddField (key : string) (value : GoVal) (m : metric) : metric :=
  set_fields (addField key (convertField value) (fields m)) m.

Definition RemoveField (key : string) (m : metric) : metric :=
  set_fields (key_remove FKey key (fields m)) m.

Definition SetTime (t : Z) (m : metric) : metric :=
  mkMetric (name m) (tags m) (fields m) t (tp m) (aggregate m).

(** [SetAggregate] stores [true] whatever its argument is. *)
Definition SetAggregate (b : bool) (m : metric) : metric :=
  mkMetric (name m) (tags m) (fields m) (tm m) (tp m) true.

Definition IsAggregate (m : metric) : bool := aggregate m.

(** *** Construction and copies *)

Definition fields_of (l : list (string * GoVal)) (m : metric) : metric :=
  foldl (fun m kv =>
    let v := convertField kv.2 in
    match v with VNil => m | _ => AddField kv.1 (go_of_val v) m end) m l.

Definition New `{MapRange} (nm : string) (ts : gmap string string)
    (fs : gmap string GoVal) (t : Z) (tps : list ValueType) : metric :=
  let vtype := match tps with v :: _ => v | [] => Untyped end in
  let taglist := sort_by Key ((fun kv => mkTag kv.1 kv.2) <$> range_map ts) in
  fields_of (range_map fs) (mkMetric nm taglist [] t vtype false).

Definition copyTag (t : Tag) : Tag := mkTag (Key t) (Value t).
Definition copyField (f : Field) : Field := mkField (FKey f) (FValue f).

Definition Copy (m : metric) : metric :=
  mkMetric (name m) (copyTag <$> tags m) (copyField <$> fields m) (tm m) (tp m) (aggregate m).

Definition FromMetric (other : metric) : metric :=
  mkMetric (name other) (copyTag <$> tags other) (copyField <$> fields other)
    (tm other) (tp other) (aggregate other).

(** *** Hashing: FNV-1a, 64 bits *)

Definition fnv_offset : Z := 14695981039346656037.
Definition fnv_prime : Z := 1099511628211.

Definition fnv_byte (h b : Z) : Z := uint64 (Z.lxor h b * fnv_prime).
Definition fnv_write (h : Z) (s : string) : Z := foldl fnv_byte h (bytes s).

Definition LF : string := String (Ascii.ascii_of_N 10) EmptyString.

Definition hash_tags (h : Z) (ts : list Tag) : Z :=
  foldl (fun h t =>
    fnv_write (fnv_write (fnv_write (fnv_write h (Key t)) LF) (Value t)) LF) h ts.

Definition HashID (m : metric) : Z :=
  hash_tags (fnv_write (fnv_write fnv_offset (name m)) LF) (tags m).

(** ** The invariant *)

Definition tags_wf (ts : list Tag) : Prop := StronglySorted (key_lt Key) ts.

Record wf (m : metric) : Prop := {
  wf_tags : tags_wf (tags m);
  wf_fields : NoDup (FKey <$> fields m);
}.

#[export] Instance tags_wf_dec ts : Decision (tags_wf ts).
Proof. unfold tags_wf. apply _. Defined.

Lemma tags_wf_NoDup ts : tags_wf ts -> NoDup (Key <$> ts).
Proof. apply key_sorted_NoDup. Qed.

Lemma addTag_elem key value ts t :
  t ∈ addTag key value ts -> Key t = key \/ t ∈ ts.
Proof.
  induction ts as [|t' ts IH]; simpl.
  - rewrite list_elem_of_singleton. intros ->. by left.
  - case_match; [|case_decide as Hk]; rewrite !elem_of_cons.
    + naive_solver.
    + intros [->|]; simpl; auto.
    + intros [->|]; simpl; auto.
Qed.

Lemma addTag_wf key value ts : tags_wf ts -> tags_wf (addTag key value ts).
Proof.
  unfold tags_wf. induction 1 as [|t ts Hs IH Ht]; simpl.
  - repeat constructor.
  - destruct (str_ltb (Key t) key) eqn:E.
    + constructor; [done|]. rewrite Forall_forall in *. intros x [Hx|Hx]%addTag_elem.
      * unfold key_lt, str_lt. congruence.
      * by apply Ht.
    + case_decide as Hk; constructor; auto.
      * by constructor.
      * apply str_ltb_ge in E as [E|E]; [congruence|].
        constructor; [done|]. eapply Forall_impl; [done|]. intros x Hx.
        unfold key_lt, str_lt in *. by eapply str_ltb_trans.
Qed.

Lemma addTag_find key value ts k :
  tags_wf ts ->
  key_find Key k (addTag key value ts) =
  if decide (key = k) then Some (mkTag key value) else key_find Key k ts.
Proof.
  induction 1 as [|t ts Hs IH Ht]; simpl; [done|].
  destruct (str_ltb (Key t) key) eqn:E; simpl.
  - rewrite IH. repeat case_decide; try done. subst.
    by rewrite str_ltb_irrefl in E.
  - destruct (decide (key = Key t)) as [Hk|Hk]; simpl; [subst|];
      repeat case_decide; congruence.
Qed.

Lemma addField_elem key v fs f : f ∈ addField key v fs -> FKey f = key \/ f ∈ fs.
Proof.
  induction fs as [|f' fs IH]; simpl.
  - rewrite list_elem_of_singleton. intros ->. by left.
  - case_decide; rewrite !elem_of_cons; [intros [->|]; simpl; auto|naive_solver].
Qed.

Lemma addField_NoDup key v fs :
  NoDup (FKey <$> fs) -> NoDup (FKey <$> addField key v fs).
Proof.
  induction fs as [|f fs IH]; intros Hnd; simpl; [apply NoDup_singleton|].
  rewrite fmap_cons, NoDup_cons in Hnd. destruct Hnd as [Hf Hnd].
  case_decide as Hk; rewrite fmap_cons; constructor; simpl; auto; [congruence|].
  intros (x & Hx & [E|Hin]%addField_elem)%list_elem_of_fmap_1; [congruence|].
  apply Hf. rewrite Hx. by apply list_elem_of_fmap_2.
Qed.

Lemma addField_find key v fs k :
  key_find FKey k (addField key v fs) =
  if decide (key = k) then Some (mkField key v) else key_find FKey k fs.
Proof.
  induction fs as [|f fs IH]; simpl; [done|].
  destruct (decide (key = FKey f)) as [Hk|Hk]; simpl; [subst|rewrite IH];
    repeat case_decide; congruence.
Qed.

#[export] Hint Resolve addTag_wf addField_NoDup tags_wf_NoDup : drone.
#[export] Hint Constructors wf : drone.

(** ** The abstract metric and the refinement *)

Record AbsMetric := mkAbs {
  a_name : string;
  a_tags : gmap string string;
  a_fields : gmap string Val;
  a_time : Z;
  a_type : ValueType;
  a_aggregate : bool;
}.

Definition abs (m : metric) : AbsMetric :=
  mkAbs (name m) (Tags m) (Fields m) (tm m) (tp m) (aggregate m).

(** The calls that change a metric. *)
Inductive MetricOp :=
| OpSetName (n : string) | OpAddPrefix (p : string) | OpAddSuffix (s : string)
| OpAddTag (k v : string) | OpRemoveTag (k : string)
| OpAddField (k : string) (v : GoVal) | OpRemoveField (k : string)
| OpSetTime (t : Z) | OpSetAggregate (b : bool).

Definition run_op (o : MetricOp) (m : metric) : metric :=
  match o with
  | OpSetName n => SetName n m
  | OpAddPrefix p => AddPrefix p m
  | OpAddSuffix s => AddSuffix s m
  | OpAddTag k v => AddTag k v m
  | OpRemoveTag k => RemoveTag k m
  | OpAddField k v => AddField k v m
  | OpRemoveField k => RemoveField k m
  | OpSetTime t => SetTime t m
  | OpSetAggregate b => SetAggregate b m
  end.

(** What each call does to the two maps. *)
Definition abs_op (o : MetricOp) (a : AbsMetric) : AbsMetric :=
  let '(mkAbs n ts fs t ty ag) := a in
  match o with
  | OpSetName n' => mkAbs n' ts fs t ty ag
  | OpAddPrefix p => mkAbs (p +:+ n) ts fs t ty ag
  | OpAddSuffix s => mkAbs (n +:+ s) ts fs t ty ag
  | OpAddTag k v => mkAbs n (<[k := v]> ts) fs t ty ag
  | OpRemoveTag k => mkAbs n (delete k ts) fs t ty ag
  | OpAddField k v => mkAbs n ts (<[k := convertField v]> fs) t ty ag
  | OpRemoveField k => mkAbs n ts (delete k fs) t ty ag
  | OpSetTime t' => mkAbs n ts fs t' ty ag
  | OpSetAggregate _ => mkAbs n ts fs t ty true
  end.

Lemma Tags_AddTag k v m : wf m -> Tags (AddTag k v m) = <[k := v]> (Tags m).
Proof.
  intros [Hw _]. apply map_eq. intros k'. unfold Tags. simpl.
  rewrite lookup_insert, !keyed_map_lookup by eauto with drone.
  rewrite addTag_find by done. by case_decide.
Qed.

Lemma Fields_AddField k v m :
  NoDup (FKey <$> fields m) -> Fields (AddField k v m) = <[k := convertField v]> (Fields m).
Proof.
  intros Hw. apply map_eq. intros k'. unfold Fields. simpl.
  rewrite lookup_insert, !keyed_map_lookup by eauto with drone.
  rewrite addField_find. by case_decide.
Qed.

Lemma Tags_RemoveTag k m : wf m -> Tags (RemoveTag k m) = delete k (Tags m).
Proof. intros [Hw _]. apply keyed_map_remove. eauto with drone. Qed.

Lemma Fields_RemoveField k m : wf m -> Fields (RemoveField k m) = delete k (Fields m).
Proof. intros [_ Hw]. by apply keyed_map_remove. Qed.

Lemma GetTag_Tags k m : wf m -> GetTag k m = Tags m !! k.
Proof. intros [Hw _]. unfold Tags. rewrite keyed_map_lookup; eauto with drone. Qed.

Lemma GetField_Fields k m : wf m -> GetField k m = Fields m !! k.
Proof. intros [_ Hw]. unfold Fields. rewrite keyed_map_lookup; eauto with drone. Qed.

Lemma HasTag_GetTag k m : HasTag k m = bool_decide (is_Some (GetTag k m)).
Proof.
  unfold HasTag, GetTag. destruct (key_find Key k (tags m)).
  - by rewrite bool_decide_true by (by eexists).
  - rewrite bool_decide_false; [done|]. by intros [? ?].
Qed.

Lemma HasField_GetField k m : HasField k m = bool_decide (is_Some (GetField k m)).
Proof.
  unfold HasField, GetField. destruct (key_find FKey k (fields m)).
  - by rewrite bool_decide_true by (by eexists).
  - rewrite bool_decide_false; [done|]. by intros [? ?].
Qed.

Lemma run_op_wf o m : wf m -> wf (run_op o m).
Proof.
  intros [Ht Hf]. destruct o; constructor; simpl; auto with drone.
  eapply key_sorted_sublist; [|done]. apply key_remove_sublist.
Qed.

Lemma run_op_abs o m : wf m -> abs (run_op o m) = abs_op o (abs m).
Proof.
  intros Hw. pose proof Hw as [Ht Hf]. destruct o; try done; unfold abs; simpl.
  - pose proof (Tags_AddTag k v m Hw) as E. unfold Tags in *. simpl in *. by rewrite E.
  - pose proof (Tags_RemoveTag k m Hw) as E. unfold Tags in *. simpl in *. by rewrite E.
  - pose proof (Fields_AddField k v m Hf) as E. unfold Fields in *. simpl in *. by rewrite E.
  - pose proof (Fields_RemoveField k m Hw) as E. unfold Fields in *. simpl in *. by rewrite E.
Qed.
#[export] Hint Resolve run_op_wf : drone.

Lemma AddTag_wf k v m : wf m -> wf (AddTag k v m).
Proof. apply (run_op_wf (OpAddTag k v)). Qed.
Lemma RemoveTag_wf k m : wf m -> wf (RemoveTag k m).
Proof. apply (run_op_wf (OpRemoveTag k)). Qed.
Lemma AddField_wf k v m : wf m -> wf (AddField k v m).
Proof. apply (run_op_wf (OpAddField k v)). Qed.
Lemma RemoveField_wf k m : wf m -> wf (RemoveField k m).
Proof. apply (run_op_wf (OpRemoveField k)). Qed.
#[export] Hint Resolve AddTag_wf RemoveTag_wf AddField_wf RemoveField_wf : drone.

Lemma run_ops_refine ops m :
  wf m ->
  wf (foldl (fun m o => run_op o m) m ops) /\
  abs (foldl (fun m o => run_op o m) m ops) = foldl (fun a o => abs_op o a) (abs m) ops.
Proof.
  revert m. induction ops as [|o ops IH]; intros m Hw; [done|]. cbn [foldl].
  rewrite <- run_op_abs by done. apply IH. by apply run_op_wf.
Qed.

(** *** Construction *)

(** The fields [New] keeps: those of a supported type. *)
Definition kept (v : GoVal) : option Val :=
  match convertField v with VNil => None | v' => Some v' end.

Lemma fields_of_cons k v l m :
  fields_of ((k, v) :: l) m =
  match kept v with
  | Some w => fields_of l (AddField k (go_of_val w) m)
  | None => fields_of l m
  end.
Proof. unfold kept. cbn. by destruct (convertField v). Qed.

Definition kept_pairs (l : list (string * GoVal)) : list (string * Val) :=
  omap (fun kv => (fun v => (kv.1, v)) <$> kept kv.2) l.

Lemma kept_pairs_keys l k : k ∈ (kept_pairs l).*1 -> k ∈ l.*1.
Proof.
  intros ([k' v'] & -> & ([k2 v2] & Hin & Hom)%list_elem_of_omap)%list_elem_of_fmap_1.
  simpl in *. destruct (kept v2); simplify_eq/=. by apply list_elem_of_fmap_2' with (k', v2).
Qed.

Lemma fields_of_spec l m :
  NoDup (FKey <$> fields m) -> NoDup l.*1 ->
  (forall k, k ∈ l.*1 -> Fields m !! k = None) ->
  let m' := fields_of l m in
  name m' = name m /\ tags m' = tags m /\ tm m' = tm m /\ tp m' = tp m /\
  aggregate m' = aggregate m /\ NoDup (FKey <$> fields m') /\
  Fields m' = list_to_map (kept_pairs l) ∪ Fields m.
Proof.
  revert m. induction l as [|[k v] l IH]; intros m Hnd Hl Hfresh.
  { simpl. repeat split; try done. by rewrite (left_id_L ∅ (∪)). }
  rewrite fmap_cons, NoDup_cons in Hl. destruct Hl as [Hk Hl].
  rewrite fields_of_cons. unfold kept_pairs. simpl. destruct (kept v) as [w|]; simpl.
  2:{ apply IH; [done|done|]. intros k' Hk'. apply Hfresh. set_solver. }
  assert (Fields (AddField k (go_of_val w) m) = <[k := w]> (Fields m)) as HF
    by (by rewrite Fields_AddField, convertField_go_of_val).
  destruct (IH (AddField k (go_of_val w) m)) as (->&->&->&->&->&Hn&->);
    [simpl; auto with drone|done| |].
  - intros k' Hk'. rewrite HF, lookup_insert_ne by set_solver. apply Hfresh. set_solver.
  - repeat split; try done. rewrite HF.
    rewrite <- insert_union_r; [by rewrite insert_union_l|].
    apply not_elem_of_list_to_map_1. by intros ?%kept_pairs_keys.
Qed.

Section NewSpec.
Context `{MapRange}.

Lemma New_tags nm ts fs t tps :
  tags (New nm ts fs t tps) = sort_by Key ((fun kv => mkTag kv.1 kv.2) <$> range_map ts).
Proof.
  unfold New. edestruct fields_of_spec as (_&->&_); [| | |done].
  - constructor.
  - apply range_map_NoDup.
  - intros k _. apply lookup_empty.
Qed.

Lemma mkTag_keys (l : list (string * string)) :
  Key <$> ((fun kv => mkTag kv.1 kv.2) <$> l) = l.*1.
Proof. by rewrite <- list_fmap_compose. Qed.

Lemma New_wf nm ts fs t tps : wf (New nm ts fs t tps).
Proof.
  constructor.
  - rewrite New_tags. apply sort_by_sorted. rewrite mkTag_keys. apply range_map_NoDup.
  - unfold New. edestruct fields_of_spec as (_&_&_&_&_&Hn&_); [| | |exact Hn].
    + constructor.
    + apply range_map_NoDup.
    + intros k _. apply lookup_empty.
Qed.

Lemma New_Tags nm ts fs t tps : Tags (New nm ts fs t tps) = ts.
Proof.
  unfold Tags. rewrite New_tags.
  rewrite (keyed_map_perm _ _ _ ((fun kv => mkTag kv.1 kv.2) <$> range_map ts));
    [|rewrite sort_by_perm, mkTag_keys; apply range_map_NoDup|apply sort_by_perm].
  rewrite keyed_map_list_to_map by (rewrite mkTag_keys; apply range_map_NoDup).
  rewrite <- list_fmap_compose. unfold compose. simpl.
  rewrite (list_fmap_ext _ id), list_fmap_id by (by intros ? []).
  rewrite <- (list_to_map_to_list ts) at 2. apply list_to_map_proper.
  - apply range_map_NoDup.
  - apply range_map_perm.
Qed.

Lemma kept_pairs_NoDup l : NoDup l.*1 -> NoDup (kept_pairs l).*1.
Proof.
  induction l as [|[k v] l IH]; [done|]. rewrite fmap_cons, NoDup_cons. intros [Hk Hnd].
  unfold kept_pairs. simpl. destruct (kept v); simpl; [|by apply IH].
  constructor; [|by apply IH]. by intros ?%kept_pairs_keys.
Qed.

Lemma New_Fields nm ts fs t tps : Fields (New nm ts fs t tps) = omap kept fs.
Proof.
  unfold New. edestruct fields_of_spec as (_&_&_&_&_&_&->).
  - constructor.
  - apply range_map_NoDup.
  - intros k _. apply lookup_empty.
  - simpl. replace (Fields _) with (∅ : gmap string Val) by done.
    rewrite (right_id_L ∅ (∪)). apply map_eq. intros k. rewrite lookup_omap.
    assert (forall v, (k, v) ∈ kept_pairs (range_map fs) <->
                 exists g, fs !! k = Some g /\ kept g = Some v) as Hin.
    { intros v. unfold kept_pairs. rewrite list_elem_of_omap. split.
      - intros ([k' g] & Hg & Hv). apply range_map_elem in Hg. simpl in Hv.
        destruct (kept g) eqn:E; simplify_eq/=. eauto.
      - intros (g & Hg & Hv). exists (k, g). rewrite range_map_elem. simpl.
        by rewrite Hv. }
    destruct (fs !! k) as [g|] eqn:Eg; simpl; [destruct (kept g) as [v|] eqn:Ev|].
    + apply elem_of_list_to_map_1; [apply kept_pairs_NoDup, range_map_NoDup|].
      apply Hin. eauto.
    + apply not_elem_of_list_to_map_1.
      intros ([k' v] & -> & Hv)%list_elem_of_fmap_1. apply Hin in Hv. naive_solver.
    + apply not_elem_of_list_to_map_1.
      intros ([k' v] & -> & Hv)%list_elem_of_fmap_1. apply Hin in Hv. naive_solver.
Qed.

Lemma New_abs nm ts fs t tps :
  abs (New nm ts fs t tps) =
  mkAbs nm ts (omap kept fs) t (default Untyped (head tps)) false.
Proof.
  unfold abs. rewrite New_Tags, New_Fields. unfold New.
  edestruct fields_of_spec as (->&_&->&->&->&_); [| | |by destruct tps].
  - constructor.
  - apply range_map_NoDup.
  - intros k _. apply lookup_empty.
Qed.
End NewSpec.
#[export] Hint Resolve New_wf : drone.

(** *** Canonical form *)

Lemma wf_tags_canonical m1 m2 : wf m1 -> wf m2 -> Tags m1 = Tags m2 -> tags m1 = tags m2.
Proof.
  intros [H1 _] [H2 _] E. apply (key_sorted_unique Key); [done..|].
  pose proof (tags_wf_NoDup _ H1) as N1. pose proof (tags_wf_NoDup _ H2) as N2.
  assert (forall (l : list Tag) t, tags_wf l ->
    t ∈ l <-> keyed_map Key Value l !! Key t = Some (Value t)) as Hin.
  { intros l t Hl. apply tags_wf_NoDup in Hl. rewrite keyed_map_lookup by done. split.
    - intros Ht. destruct (key_find Key (Key t) l) as [t'|] eqn:F.
      + apply key_find_Some in F as [Hin Hk].
        destruct (list_elem_of_lookup_1 _ _ Ht) as [i Hi].
        destruct (list_elem_of_lookup_1 _ _ Hin) as [j Hj].
        assert (i = j) as ->.
        { apply (NoDup_lookup (Key <$> l) i j (Key t)); [done|..];
            rewrite list_lookup_fmap; [by rewrite Hi|rewrite Hj; simpl; by rewrite Hk]. }
        simpl. congruence.
      + apply key_find_None in F. destruct F. by apply list_elem_of_fmap_2.
    - destruct (key_find Key (Key t) l) as [t'|] eqn:F; [|done].
      apply key_find_Some in F as [Hin' Hk]. simpl. intros [= Hv].
      assert (t = t') as -> by (destruct t, t'; simpl in *; congruence). done. }
  apply NoDup_Permutation; [by eapply NoDup_fmap_1|by eapply NoDup_fmap_1|].
  intros t. rewrite !Hin by done. unfold Tags in E. by rewrite E.
Qed.

Lemma fnv_write_range h s : 0 <= h <= MaxUint64 -> 0 <= fnv_write h s <= MaxUint64.
Proof.
  unfold fnv_write. revert h. induction (bytes s) as [|b l IH]; intros h Hh; [done|].
  cbn [foldl]. apply IH. apply uint64_range.
Qed.

Lemma hash_tags_range h ts : 0 <= h <= MaxUint64 -> 0 <= hash_tags h ts <= MaxUint64.
Proof.
  unfold hash_tags. revert h. induction ts as [|t ts IH]; intros h Hh; [done|].
  cbn [foldl]. apply IH. by repeat apply fnv_write_range.
Qed.

(** ** Properties *)

(** C5: The metric's slices implement two finite maps. After any sequence of
    mutating calls on a well-formed metric the tag slice is still strictly sorted
    by key and the field keys are distinct, the maps [Tags] and [Fields] are the
    ones obtained by inserting and deleting in the maps, and [GetTag],
    [GetField], [HasTag] and [HasField] answer from those maps. *)
Theorem metric_refines_maps (ops : list MetricOp) (m : metric) (Hwf : wf m) :
  let m' := foldl (fun m o => run_op o m) m ops in
  let a' := foldl (fun a o => abs_op o a) (abs m) ops in
  wf m' /\ abs m' = a' /\
  (forall k, GetTag k m' = a_tags a' !! k) /\
  (forall k, GetField k m' = a_fields a' !! k) /\
  (forall k, HasTag k m' = bool_decide (is_Some (a_tags a' !! k))) /\
  (forall k, HasField k m' = bool_decide (is_Some (a_fields a' !! k))).
Proof.
  intros m' a'. destruct (run_ops_refine ops m Hwf) as [Hw Ha]. fold m' in Hw, Ha.
  fold a' in Ha. rewrite <- Ha. split_and!; try done; intros k; simpl.
  - by apply GetTag_Tags.
  - by apply GetField_Fields.
  - by rewrite HasTag_GetTag, GetTag_Tags.
  - by rewrite HasField_GetField, GetField_Fields.
Qed.

Definition ex_metric : metric :=
  mkMetric "cpu" [mkTag "host" "a"; mkTag "zone" "b"] [mkField "usage" (VInt 7)] 42 Gauge false.

Lemma ex_metric_wf : wf ex_metric.
Proof. constructor; simpl; [|apply NoDup_singleton]. repeat constructor. Qed.

Lemma metric_refines_maps_witness :
  let m' := foldl (fun m o => run_op o m) ex_metric
    [OpAddTag "rack" "r1"; OpRemoveTag "host"; OpAddField "idle" (GoPtr (Some (SInt8 3)))] in
  wf m' /\ GetTag "rack" m' = Some "r1" /\ GetTag "host" m' = None /\
  GetField "idle" m' = Some (VInt 3) /\ tags m' = [mkTag "rack" "r1"; mkTag "zone" "b"].
Proof.
  split.
  - apply (metric_refines_maps _ ex_metric ex_metric_wf).
  - by vm_compute.
Defined.

(** [New] builds a well-formed metric whose tags are exactly the given map
    and whose fields are exactly the given fields of a supported type, converted;
    neither the tag slice nor the hash depends on the iteration order of the
    argument maps. *)
Theorem New_correct (R1 R2 : MapRange) nm ts fs t tps :
  let m1 := New (H := R1) nm ts fs t tps in
  let m2 := New (H := R2) nm ts fs t tps in
  wf m1 /\
  abs m1 = mkAbs nm ts (omap kept fs) t (default Untyped (head tps)) false /\
  abs m1 = abs m2 /\ tags m1 = tags m2 /\ HashID m1 = HashID m2.
Proof.
  intros m1 m2.
  assert (tags m1 = tags m2) as Ht.
  { apply wf_tags_canonical; try apply New_wf. unfold m1, m2. by rewrite !New_Tags. }
  assert (abs m1 = abs m2) as Ha by (unfold m1, m2; by rewrite !New_abs).
  split_and!; [apply New_wf|apply New_abs|done|done|].
  unfold HashID. rewrite Ht. by injection Ha as ->.
Qed.

Lemma New_correct_witness :
  let m := New (H := map_range_default) "cpu" {["b" := "2"; "a" := "1"]}
    {["n" := GoScalar (SInt 5); "p" := GoPtr None]} 9 [] in
  tags m = [mkTag "a" "1"; mkTag "b" "2"] /\ wf m.
Proof.
  split; [by vm_compute|]. apply (New_correct map_range_default map_range_default).
Defined.

(** Series identity. Two well-formed metrics with the same name and the same
    tags have the same [HashID] whatever the order their tags were added in and
    whatever their fields, times and types are; the hash is a 64-bit value. *)
Theorem HashID_series (m1 m2 : metric)
    (Hwf1 : wf m1) (Hwf2 : wf m2) (Hname : name m1 = name m2) (Htags : Tags m1 = Tags m2) :
  HashID m1 = HashID m2 /\ 0 <= HashID m1 <= MaxUint64.
Proof.
  unfold HashID. rewrite Hname, (wf_tags_canonical m1 m2) by done. split; [done|].
  apply hash_tags_range. do 2 apply fnv_write_range. unfold fnv_offset, MaxUint64. lia.
Qed.

Lemma HashID_series_witness :
  let m1 := AddTag "a" "1" (AddTag "b" "2" ex_metric) in
  let m2 := SetTime 0 (RemoveField "usage" (AddTag "b" "2" (AddTag "a" "1" ex_metric))) in
  HashID m1 = HashID m2.
Proof.
  apply (HashID_series
    (AddTag "a" "1" (AddTag "b" "2" ex_metric))
    (SetTime 0 (RemoveField "usage" (AddTag "b" "2" (AddTag "a" "1" ex_metric))))).
  - apply (run_ops_refine [OpAddTag "b" "2"; OpAddTag "a" "1"]), ex_metric_wf.
  - apply (run_ops_refine [OpAddTag "a" "1"; OpAddTag "b" "2"; OpRemoveField "usage"; OpSetTime 0]),
      ex_metric_wf.
  - done.
  - by vm_compute.
Defined.
