(* ===== verification/Tracking.v ===== *)
(** * Delivery tracking

    [metric/tracking.go]: a tracking metric is a metric with a pointer to shared
    tracking data that counts the live copies and how they were resolved; when
    the last one is resolved the creator is notified. The tracking data live in a
    heap indexed by pointer. What a notification does is the business of the
    component that registered it: the class [Notify] is that interface, its
    instance [notify_log] records the calls, and [Accumulator] has the instance
    the agent uses.

    A panic is [None]. The debug finalizer is not modelled: it only runs when the
    garbage collector frees tracking data. *)

From S2P Require Import Prelude Float64 Metric.

Record deliveryInfo := mkInfo { di_id : Z; accepted : Z; rejected : Z }.

Definition Delivered (r : deliveryInfo) : bool := rejected r =? 0.

(** [NotifyFunc]: calling the function [f] with [info] in the environment [w]. *)
Class Notify (F W : Type) := notify_call : F -> deliveryInfo -> W -> option W.

(** A [telegraf.Metric] as the pipeline passes it around: the plain metric and,
    for a tracking metric, the pointer to its tracking data. *)
Record tmetric := mkTM { base : metric; td : option nat }.

#[export] Instance tmetric_eq_dec : EqDecision tmetric.
Proof. solve_decision. Defined.

Section Tracking.
Context {F W : Type} `{Notify F W}.

Record trackingData := mkTD {
  td_id : Z;
  rc : Z;
  acceptCount : Z;
  rejectCount : Z;
  notifyFunc : F;
}.

Record TState := mkTS { lastID : Z; heap : list trackingData; env : W }.

Definition set_heap (h : list trackingData) (s : TState) : TState := mkTS (lastID s) h (env s).

Definition newTrackingID (s : TState) : Z * TState :=
  let i := uint64 (lastID s + 1) in (i, mkTS i (heap s) (env s)).

Definition incr (p : nat) (s : TState) : TState :=
  set_heap (alter (fun d => mkTD (td_id d) (int32 (rc d + 1)) (acceptCount d) (rejectCount d)
    (notifyFunc d)) p (heap s)) s.

Definition data_decr (d : trackingData) : trackingData :=
  mkTD (td_id d) (int32 (rc d - 1)) (acceptCount d) (rejectCount d) (notifyFunc d).

Definition accept (p : nat) (s : TState) : TState :=
  set_heap (alter (fun d => mkTD (td_id d) (rc d) (int32 (acceptCount d + 1)) (rejectCount d)
    (notifyFunc d)) p (heap s)) s.

Definition reject (p : nat) (s : TState) : TState :=
  set_heap (alter (fun d => mkTD (td_id d) (rc d) (acceptCount d) (int32 (rejectCount d + 1))
    (notifyFunc d)) p (heap s)) s.

Definition notify (d : trackingData) (s : TState) : option TState :=
  w ← notify_call (notifyFunc d) (mkInfo (td_id d) (acceptCount d) (rejectCount d)) (env s);
  Some (mkTS (lastID s) (heap s) w).

(** [trackingMetric.decr]: panics below zero, notifies at zero. *)
Definition decr (p : nat) (s : TState) : option TState :=
  d ← heap s !! p;
  let d' := data_decr d in
  let s' := set_heap (<[p := d']> (heap s)) s in
  if rc d' <? 0 then None
  else if rc d' =? 0 then notify d' s'
  else Some s'.

Definition Accept (m : tmetric) (s : TState) : option TState :=
  match td m with None => Some s | Some p => decr p (accept p s) end.

Definition Reject (m : tmetric) (s : TState) : option TState :=
  match td m with None => Some s | Some p => decr p (reject p s) end.

Definition Drop (m : tmetric) (s : TState) : option TState :=
  match td m with None => Some s | Some p => decr p s end.

Definition CopyT (m : tmetric) (s : TState) : tmetric * TState :=
  match td m with
  | None => (mkTM (Metric.Copy (base m)) None, s)
  | Some p => (mkTM (Metric.Copy (base m)) (Some p), incr p s)
  end.

(** [WithTracking] / [newTrackingMetric]. *)
Definition newTrackingMetric (m : metric) (fn : F) (s : TState) : tmetric * Z * TState :=
  let '(i, s1) := newTrackingID s in
  let p := length (heap s1) in
  (mkTM m (Some p), i, set_heap (heap s1 ++ [mkTD i 1 0 0 fn]) s1).

(** [WithGroupTracking] / [newTrackingMetricGroup]: the loop increments the
    shared count once per metric; an empty group is delivered at once. *)
Definition newTrackingMetricGroup (group : list metric) (fn : F) (s : TState) :
    option (list tmetric * Z * TState) :=
  let '(i, s1) := newTrackingID s in
  let p := length (heap s1) in
  let s2 := set_heap (heap s1 ++ [mkTD i 0 0 0 fn]) s1 in
  let '(out, s3) := foldl (fun '(out, s) m => (out ++ [mkTM m (Some p)], incr p s))
    ([], s2) group in
  if (length group =? 0)%nat
  then d ← heap s3 !! p; s4 ← notify d s3; Some (out, i, s4)
  else Some (out, i, s3).

(** ** The reference count *)

(** The calls a holder of a tracking metric makes. *)
Inductive TOp := TCopy | TAccept | TReject | TDrop.

Definition run_top (p : nat) (o : TOp) (s : TState) : option TState :=
  let m := mkTM (mkMetric EmptyString [] [] 0 Untyped false) (Some p) in
  match o with
  | TCopy => Some (CopyT m s).2
  | TAccept => Accept m s
  | TReject => Reject m s
  | TDrop => Drop m s
  end.

Fixpoint run_tops (p : nat) (ops : list TOp) (s : TState) : option TState :=
  match ops with
  | [] => Some s
  | o :: ops' => s' ← run_top p o s; run_tops p ops' s'
  end.

(** The number of live copies after a sequence of calls, each made on a live
    copy; [None] when a call is made with none left. *)
Fixpoint live (n : nat) (ops : list TOp) : option nat :=
  match ops, n with
  | [], _ => Some n
  | _ :: _, O => None
  | TCopy :: ops', S _ => live (S n) ops'
  | _ :: ops', S n' => live n' ops'
  end.

Definition count_ops (o : TOp -> bool) (ops : list TOp) : Z := Z.of_nat (length (List.filter o ops)).
Definition is_accept (o : TOp) : bool := match o with TAccept => true | _ => false end.
Definition is_reject (o : TOp) : bool := match o with TReject => true | _ => false end.
End Tracking.
Arguments trackingData : clear implicits.
Arguments TState : clear implicits.

(** The environment that records the notifications, in call order. *)
#[export] Instance notify_log {F} : Notify F (list (F * deliveryInfo)) :=
  fun f info w => Some (w ++ [(f, info)]).

(** ** Proofs *)

Section Proofs.
Context {F : Type}.
#[local] Notation state := (TState F (list (F * deliveryInfo))).

(** The effect of one call on the tracking data. *)
Definition top_data (o : TOp) (d : trackingData F) : trackingData F :=
  match o with
  | TCopy => mkTD (td_id d) (rc d + 1) (acceptCount d) (rejectCount d) (notifyFunc d)
  | TAccept => mkTD (td_id d) (rc d - 1) (acceptCount d + 1) (rejectCount d) (notifyFunc d)
  | TReject => mkTD (td_id d) (rc d - 1) (acceptCount d) (rejectCount d + 1) (notifyFunc d)
  | TDrop => mkTD (td_id d) (rc d - 1) (acceptCount d) (rejectCount d) (notifyFunc d)
  end.

Definition td_info (d : trackingData F) : deliveryInfo :=
  mkInfo (td_id d) (acceptCount d) (rejectCount d).

(** All counters are far from the 32-bit limits: [k] more calls cannot overflow. *)
Definition td_room (k : Z) (d : trackingData F) : Prop :=
  0 <= rc d /\ rc d + k < 2 ^ 31 /\ 0 <= acceptCount d /\ acceptCount d + k < 2 ^ 31 /\
  0 <= rejectCount d /\ rejectCount d + k < 2 ^ 31.

Lemma run_top_live p o (s : state) d k :
  heap s !! p = Some d -> 0 < rc d -> 0 < k -> td_room k d ->
  run_top p o s = Some (mkTS (lastID s) (<[p := top_data o d]> (heap s))
    (env s ++ (if rc (top_data o d) =? 0 then [(notifyFunc d, td_info (top_data o d))] else []))).
Proof.
  intros Hp Hrc Hk (H0&H1&H2&H3&H4&H5).
  assert (p < length (heap s))%nat as Hlt by (by apply lookup_lt_Some in Hp).
  assert (forall d', rc d' = rc d -> notifyFunc d' = notifyFunc d ->
    decr p (set_heap (<[p := d']> (heap s)) s) =
    Some (mkTS (lastID s) (<[p := data_decr d']> (heap s))
      (env s ++ (if rc d - 1 =? 0 then [(notifyFunc d, td_info (data_decr d'))] else [])))) as Hdecr.
  { intros d' E1 E2. unfold decr. simpl. rewrite list_lookup_insert_eq by done. simpl.
    unfold data_decr. rewrite E1, int32_small by lia.
    rewrite (proj2 (Z.ltb_ge (rc d - 1) 0)) by lia. unfold set_heap. simpl.
    rewrite list_insert_insert_eq. destruct (rc d - 1 =? 0); [|by rewrite app_nil_r].
    unfold notify, notify_call, notify_log, td_info. simpl. by rewrite E2. }
  destruct o; simpl; unfold Accept, Reject, Drop, incr, accept, reject; simpl;
    rewrite ?(list_alter_insert _ _ _ d) by done.
  - unfold set_heap. rewrite int32_small by lia.
    rewrite (proj2 (Z.eqb_neq (rc d + 1) 0)) by lia. by rewrite app_nil_r.
  - rewrite Hdecr by done. unfold data_decr. simpl. by rewrite !int32_small by lia.
  - rewrite Hdecr by done. unfold data_decr. simpl. by rewrite !int32_small by lia.
  - specialize (Hdecr d eq_refl eq_refl). rewrite list_insert_id in Hdecr by done.
    destruct s as [i h w]. unfold set_heap in Hdecr. simpl in *. rewrite Hdecr.
    unfold data_decr. by rewrite int32_small by lia.
Qed.

(** A call with no live copy left panics. *)
Lemma run_top_dead p o (s : state) d :
  heap s !! p = Some d -> rc d = 0 -> o <> TCopy -> run_top p o s = None.
Proof.
  intros Hp Hrc Ho.
  assert (p < length (heap s))%nat as Hlt by (by apply lookup_lt_Some in Hp).
  destruct o; [done|..]; simpl; unfold Accept, Reject, Drop, accept, reject, decr; simpl;
    rewrite ?list_lookup_alter_eq, Hp; simpl; by rewrite Hrc.
Qed.

Lemma count_ops_cons o q ops :
  count_ops q (o :: ops) = (if q o then 1 else 0) + count_ops q ops.
Proof. unfold count_ops. simpl. destruct (q o); simpl; lia. Qed.

Lemma td_room_step o k d :
  0 < rc d -> 0 < k -> td_room k d -> td_room (k - 1) (top_data o d).
Proof. unfold td_room. intros ??(?&?&?&?&?&?). destruct o; cbn [top_data rc acceptCount rejectCount]; lia. Qed.

Lemma run_tops_live p ops (s : state) d n n' :
  heap s !! p = Some d -> rc d = Z.of_nat n -> td_room (Z.of_nat (length ops)) d ->
  (0 < n)%nat -> live n ops = Some n' ->
  exists s' d', run_tops p ops s = Some s' /\
    lastID s' = lastID s /\ heap s' = <[p := d']> (heap s) /\
    td_id d' = td_id d /\ notifyFunc d' = notifyFunc d /\ rc d' = Z.of_nat n' /\
    acceptCount d' = acceptCount d + count_ops is_accept ops /\
    rejectCount d' = rejectCount d + count_ops is_reject ops /\
    env s' = env s ++ (if (n' =? 0)%nat then [(notifyFunc d, td_info d')] else []).
Proof.
  revert s d n. induction ops as [|o ops IH]; intros s d n Hp Hrc Hroom Hn Hl.
  { simpl in Hl. injection Hl as <-. exists s, d. unfold count_ops. simpl.
    rewrite list_insert_id, (proj2 (Nat.eqb_neq n 0)) by (done || lia).
    split_and!; rewrite ?app_nil_r; done || lia. }
  assert (p < length (heap s))%nat as Hlt by (by apply lookup_lt_Some in Hp).
  destruct n as [|n]; [lia|]. cbn [length] in Hroom.
  assert (exists k, live k ops = Some n' /\ rc (top_data o d) = Z.of_nat k) as (k & Hlk & Hk).
  { simpl in Hl. destruct o; simpl; eexists; (split; [exact Hl|lia]). }
  cbn [run_tops]. rewrite (run_top_live p o s d (Z.of_nat (S (length ops)))) by (done || lia).
  cbn [mbind option_bind]. rewrite Hk.
  apply (td_room_step o) in Hroom as Hroom'; [|lia..].
  replace (Z.of_nat (S (length ops)) - 1) with (Z.of_nat (length ops)) in Hroom' by lia.
  assert (count_ops is_accept (o :: ops) =
    acceptCount (top_data o d) - acceptCount d + count_ops is_accept ops) as Ha
    by (rewrite count_ops_cons; destruct o; simpl; lia).
  assert (count_ops is_reject (o :: ops) =
    rejectCount (top_data o d) - rejectCount d + count_ops is_reject ops) as Hr
    by (rewrite count_ops_cons; destruct o; simpl; lia).
  assert (td_id (top_data o d) = td_id d /\ notifyFunc (top_data o d) = notifyFunc d)
    as [Hid Hfn] by (by destruct o).
  destruct k as [|k].
  - destruct ops as [|o' ops]; [|by destruct o']. simpl in Hlk. injection Hlk as <-.
    eexists _, (top_data o d). split; [done|].
    change (count_ops is_accept []) with 0 in Ha.
    change (count_ops is_reject []) with 0 in Hr. simpl. split_and!; done || lia.
  - rewrite (proj2 (Z.eqb_neq (Z.of_nat (S k)) 0)) by lia.
    destruct (IH (mkTS (lastID s) (<[p := top_data o d]> (heap s)) (env s ++ []))
      (top_data o d) (S k)) as (s' & d' & -> & ? & Hh & ? & ? & ? & ? & ? & He);
      [simpl; by rewrite list_lookup_insert_eq|done|done|lia|done|].
    exists s', d'. split; [done|]. simpl in *.
    rewrite list_insert_insert_eq in Hh. rewrite app_nil_r, Hfn in He.
    split_and!; try congruence; lia.
Qed.

Lemma foldl_group {E} p (group : list metric) (out : list tmetric) (s : TState F E) d :
  heap s !! p = Some d -> rc d + Z.of_nat (length group) < 2 ^ 31 -> 0 <= rc d ->
  foldl (fun '(out, s) m => (out ++ [mkTM m (Some p)], incr p s)) (out, s) group =
  (out ++ ((fun m => mkTM m (Some p)) <$> group),
   mkTS (lastID s) (<[p := mkTD (td_id d) (rc d + Z.of_nat (length group)) (acceptCount d)
     (rejectCount d) (notifyFunc d)]> (heap s)) (env s)).
Proof.
  revert out s d. induction group as [|m group IH]; intros out s d Hp Hb H0.
  { simpl. rewrite app_nil_r, Z.add_0_r. destruct s, d. simpl in *. by rewrite list_insert_id. }
  assert (p < length (heap s))%nat as Hlt by (by apply lookup_lt_Some in Hp).
  cbn [foldl length] in *. unfold incr. rewrite (list_alter_insert _ _ _ d) by done.
  rewrite int32_small by lia.
  erewrite IH; [|simpl; by rewrite list_lookup_insert_eq|simpl; lia|simpl; lia].
  simpl. rewrite list_insert_insert_eq, <- app_assoc. simpl. do 3 f_equal.
  f_equal. lia.
Qed.

Lemma run_tops_snoc p o ops (s s' : state) :
  run_tops p ops s = Some s' -> run_tops p (ops ++ [o]) s = run_top p o s'.
Proof.
  revert s. induction ops as [|o1 ops IH]; intros s; simpl.
  - intros [= ->]. by destruct (run_top p o s').
  - destruct (run_top p o1 s); simpl; [apply IH|done].
Qed.

(** A new non-empty group: every metric points to one fresh tracking record
    that counts them, and no one is notified. *)
Lemma new_group_spec (group : list metric) (fn : F) (s : state) :
  (0 < length group)%nat -> Z.of_nat (length group) < 2 ^ 31 ->
  exists i s1,
    newTrackingMetricGroup group fn s =
      Some ((fun m => mkTM m (Some (length (heap s)))) <$> group, i, s1) /\
    heap s1 !! length (heap s) = Some (mkTD i (Z.of_nat (length group)) 0 0 fn) /\
    env s1 = env s.
Proof.
  intros Hk Hb. unfold newTrackingMetricGroup, newTrackingID. cbn [lastID heap env].
  set (p := length (heap s)). set (i := uint64 (lastID s + 1)).
  erewrite (foldl_group p group [] _ (mkTD i 0 0 0 fn));
    [|simpl; by rewrite list_lookup_middle|simpl; lia|simpl; lia].
  rewrite (proj2 (Nat.eqb_neq (length group) 0)) by lia. simpl.
  eexists i, _. split; [done|]. simpl. split; [|done].
  rewrite list_lookup_insert_eq; [done|]. rewrite length_app. simpl. unfold p. lia.
Qed.

Lemma count_reject_zero ops :
  count_ops is_reject ops = 0 <-> forall o, o ∈ ops -> o <> TReject.
Proof.
  induction ops as [|o ops IH]; [set_solver|]. rewrite count_ops_cons.
  assert (0 <= count_ops is_reject ops) by (unfold count_ops; lia).
  destruct o; simpl; try (rewrite Z.add_0_l, IH; set_solver).
  split; [lia|]. intros Hall. exfalso. by apply (Hall TReject); [left|].
Qed.

(** C4: Exactly-once delivery. A group of [k > 0] metrics is put under tracking
    and its holders make any sequence of Copy, Accept, Reject and Drop calls,
    each on a live copy (fewer than 2^31 calls and metrics in all). Nothing
    panics; as long as a copy is live nothing is reported, and when the last one
    is resolved the creator is notified exactly once, with the tracking id it was
    given and the numbers of accepts and rejects, and [Delivered] tells whether
    there was no reject. *)
Theorem tracking_exactly_once (group : list metric) (fn : F) (s : state)
    (ops : list TOp) (n : nat)
    (Hk : (0 < length group)%nat)
    (Hroom : Z.of_nat (length group) + Z.of_nat (length ops) < 2 ^ 31)
    (Hlive : live (length group) ops = Some n) :
  exists ms i s1 s2, newTrackingMetricGroup group fn s = Some (ms, i, s1) /\
    base <$> ms = group /\ Forall (fun m => td m = Some (length (heap s))) ms /\
    run_tops (length (heap s)) ops s1 = Some s2 /\
    let info := mkInfo i (count_ops is_accept ops) (count_ops is_reject ops) in
    env s2 = env s ++ (if (n =? 0)%nat then [(fn, info)] else []) /\
    (Delivered info = true <-> forall o, o ∈ ops -> o <> TReject).
Proof.
  destruct (new_group_spec group fn s) as (i & s1 & Hnew & Hp & He1); [lia|lia|].
  destruct (run_tops_live _ ops s1 _ (length group) n Hp)
    as (s2 & d' & Hrun & _ & _ & Hid & Hfn & _ & Ha & Hr & He);
    [done|unfold td_room; simpl; lia|done|done|].
  eexists _, i, s1, s2. split; [exact Hnew|].
  split_and!; [|rewrite Forall_fmap; by apply Forall_true|done|..].
  - rewrite <- list_fmap_compose. unfold compose. simpl. apply list_fmap_id.
  - split; [rewrite He, He1; unfold td_info; simpl in *;
            by rewrite Hid, Ha, Hr, !Z.add_0_l|].
    unfold Delivered. simpl. rewrite Z.eqb_eq. apply count_reject_zero.
Qed.

(** Over-release. Once every copy is resolved a further Accept, Reject or
    Drop panics (the negative reference count is caught) instead of notifying a
    second time. *)
Theorem tracking_over_release (group : list metric) (fn : F) (s : state)
    (ops : list TOp) (o : TOp)
    (Hk : (0 < length group)%nat)
    (Hroom : Z.of_nat (length group) + Z.of_nat (length ops) < 2 ^ 31)
    (Hlive : live (length group) ops = Some 0%nat) (Ho : o <> TCopy) :
  exists ms i s1, newTrackingMetricGroup group fn s = Some (ms, i, s1) /\
    is_Some (run_tops (length (heap s)) ops s1) /\
    run_tops (length (heap s)) (ops ++ [o]) s1 = None.
Proof.
  destruct (new_group_spec group fn s) as (i & s1 & Hnew & Hp & He1); [lia|lia|].
  destruct (run_tops_live _ ops s1 _ (length group) 0 Hp)
    as (s2 & d' & Hrun & _ & Hh & _ & _ & Hrc & _);
    [done|unfold td_room; simpl; lia|done|done|].
  eexists _, i, s1. split; [exact Hnew|]. split; [by eexists|].
  rewrite (run_tops_snoc _ _ _ _ _ Hrun). apply run_top_dead with d'; [|done..].
  rewrite Hh. apply list_lookup_insert_eq. by apply lookup_lt_Some in Hp.
Qed.
End Proofs.

Definition ex_state : TState nat (list (nat * deliveryInfo)) := mkTS 0 [] [].

Lemma tracking_exactly_once_witness :
  exists ms i s1 s2, newTrackingMetricGroup [ex_metric; ex_metric] 7%nat ex_state = Some (ms, i, s1) /\
    run_tops 0 [TCopy; TAccept; TReject; TDrop] s1 = Some s2 /\
    env s2 = [(7%nat, mkInfo 1 1 1)].
Proof.
  destruct (tracking_exactly_once [ex_metric; ex_metric] 7%nat ex_state
    [TCopy; TAccept; TReject; TDrop] 0) as (ms & i & s1 & s2 & H1 & _ & _ & H2 & H3 & _);
    [simpl; lia|done|done|].
  exists ms, i, s1, s2. split; [done|]. split; [done|]. rewrite H3.
  vm_compute in H1. injection H1 as <- <- <-. done.
Defined.

Lemma tracking_over_release_witness :
  exists ms i s1, newTrackingMetricGroup [ex_metric] 7%nat ex_state = Some (ms, i, s1) /\
    is_Some (run_tops 0 [TAccept] s1) /\ run_tops 0 ([TAccept] ++ [TReject]) s1 = None.
Proof.
  apply (tracking_over_release [ex_metric] 7%nat ex_state [TAccept] TReject);
    [simpl; lia|done|done|done].
Defined.
