(* ===== verification/Selfstat.v ===== *)
(** * Internal statistics

    [selfstat/selfstat.go], [selfstat/stat.go] and [selfstat/timingStat.go]: the
    process-wide registry of counters. A [Stat] interface value points to an
    entry of the registry; entries are never removed or moved, so a handle is the
    pair of map keys under which the entry is stored, and its methods update the
    entry there. *)

From S2P Require Import Prelude Float64 Metric.

Inductive StatObj :=
| stat (v : Z) (measurement field : string) (stags : gmap string string)
| timingStat (v prev count : Z) (measurement field : string) (stags : gmap string string).

#[export] Instance StatObj_eq_dec : EqDecision StatObj.
Proof. solve_decision. Defined.

Abbreviation Registry := (gmap Z (gmap string StatObj)).

Record Stat := mkStat { st_key : Z; st_field : string }.

#[export] Instance Stat_eq_dec : EqDecision Stat.
Proof. solve_decision. Defined.

(** ** Objects *)

Definition obj_Name (o : StatObj) : string :=
  match o with stat _ m _ _ | timingStat _ _ _ m _ _ => m end.
Definition obj_FieldName (o : StatObj) : string :=
  match o with stat _ _ f _ | timingStat _ _ _ _ f _ => f end.
Definition obj_Tags (o : StatObj) : gmap string string :=
  match o with stat _ _ _ t | timingStat _ _ _ _ _ t => t end.

Definition obj_Incr (d : Z) (o : StatObj) : StatObj :=
  match o with
  | stat v m f t => stat (int64 (v + d)) m f t
  | timingStat v p c m f t => timingStat (int64 (v + d)) p (int64 (c + 1)) m f t
  end.

Definition obj_Set (d : Z) (o : StatObj) : StatObj :=
  match o with
  | stat v m f t => stat d m f t
  | timingStat _ _ _ _ _ _ => obj_Incr d o
  end.

(** A timing's [Get] returns the mean of the values since the last call and
    starts over; the division truncates. *)
Definition obj_Get (o : StatObj) : Z * StatObj :=
  match o with
  | stat v m f t => (v, o)
  | timingStat v p c m f t =>
    if 0 <? c then let avg := Z.quot v c in (avg, timingStat 0 avg 0 m f t)
    else (p, o)
  end.

(** ** The registry *)

Section Registry.
Context `{MapRange}.

Definition key (measurement : string) (stags : gmap string string) : Z :=
  let tmp := (fun kv => kv.1 +:+ kv.2) <$> range_map stags in
  foldl fnv_write (fnv_write fnv_offset measurement) (merge_sort String.le tmp).

Definition reg_get (k : Z) (field : string) (r : Registry) : option StatObj :=
  stats ← r !! k; stats !! field.

Definition reg_set (k : Z) (s : StatObj) (r : Registry) : Registry :=
  match r !! k with
  | None => <[k := {[obj_FieldName s := s]}]> r
  | Some stats => <[k := <[obj_FieldName s := s]> stats]> r
  end.

Definition register (measurement field : string) (stags : gmap string string)
    (r : Registry) : Stat * Registry :=
  let k := key measurement stags in
  match reg_get k field r with
  | Some _ => (mkStat k field, r)
  | None => (mkStat k field, reg_set k (stat 0 measurement field stags) r)
  end.

Definition registerTiming (measurement field : string) (stags : gmap string string)
    (r : Registry) : Stat * Registry :=
  let k := key measurement stags in
  match reg_get k field r with
  | Some _ => (mkStat k field, r)
  | None => (mkStat k field, reg_set k (timingStat 0 0 0 measurement field stags) r)
  end.

Definition Register (measurement field : string) (stags : gmap string string) :
    Registry -> Stat * Registry := register ("internal_" +:+ measurement) field stags.
Definition RegisterTiming (measurement field : string) (stags : gmap string string) :
    Registry -> Stat * Registry := registerTiming ("internal_" +:+ measurement) field stags.

(** Methods through a handle. *)
Definition update (s : Stat) (f : StatObj -> StatObj) (r : Registry) : Registry :=
  alter (alter f (st_field s)) (st_key s) r.

Definition Incr (s : Stat) (v : Z) (r : Registry) : Registry := update s (obj_Incr v) r.
Definition Set_ (s : Stat) (v : Z) (r : Registry) : Registry := update s (obj_Set v) r.

Definition Get (s : Stat) (r : Registry) : option (Z * Registry) :=
  o ← reg_get (st_key s) (st_field s) r;
  Some ((obj_Get o).1, update s (fun o => (obj_Get o).2) r).

(** One registry entry as a metric: every statistic under one key becomes a
    field; name and tags are those of the first statistic ranged over. *)
Definition stats_metric (now : Z) (stats : gmap string StatObj) : metric :=
  let l := range_map stats in
  let '(nm, ts) := match l with
    | [] => (EmptyString, ∅)
    | (_, s) :: _ => (obj_Name s, obj_Tags s)
    end in
  New nm ts (list_to_map ((fun fs => (fs.1, GoScalar (SInt64 (obj_Get fs.2).1))) <$> l)) now [].

(** [Metrics]: a metric per key, in iteration order; reading resets the timings. *)
Definition Metrics (now : Z) (r : Registry) : list (option metric) * Registry :=
  let filled := omap (fun ks : Z * gmap string StatObj =>
    if decide (ks.2 = ∅) then None else Some (stats_metric now ks.2)) (range_map r) in
  ((Some <$> filled) ++ replicate (size r - length filled) None,
   fmap (M := gmap Z) (fmap (M := gmap string) (fun o => (obj_Get o).2)) r).
End Registry.

(** ** Proofs *)

Section Proofs.
Context `{MapRange}.

Lemma reg_get_update s f k fld (r : Registry) :
  reg_get k fld (update s f r) =
  if decide (mkStat k fld = s) then f <$> reg_get k fld r else reg_get k fld r.
Proof.
  destruct s as [k' fld']. unfold reg_get, update. simpl. rewrite lookup_alter.
  destruct (decide (k' = k)) as [->|Hk]; simpl.
  - destruct (r !! k) as [stats|] eqn:E; simpl; [|by case_decide].
    rewrite lookup_alter. repeat case_decide; simplify_eq; done.
  - rewrite decide_False by congruence. done.
Qed.

Lemma reg_get_set k s r k' fld :
  reg_get k' fld (reg_set k s r) =
  if decide (k = k' /\ obj_FieldName s = fld) then Some s else reg_get k' fld r.
Proof.
  unfold reg_get, reg_set. destruct (r !! k) as [stats|] eqn:E.
  - rewrite lookup_insert. destruct (decide (k = k')) as [<-|Hk]; simpl.
    + rewrite E, lookup_insert. simpl. repeat case_decide; naive_solver.
    + by rewrite decide_False by naive_solver.
  - rewrite lookup_insert. destruct (decide (k = k')) as [<-|Hk]; simpl.
    + rewrite E, lookup_singleton. simpl. repeat case_decide; naive_solver.
    + by rewrite decide_False by naive_solver.
Qed.

Lemma foldl_Incr_get s vs (r : Registry) v m f t :
  reg_get (st_key s) (st_field s) r = Some (stat v m f t) ->
  MinInt64 <= v <= MaxInt64 ->
  reg_get (st_key s) (st_field s) (foldl (fun r d => Incr s d r) r vs) =
  Some (stat (int64 (v + foldr Z.add 0 vs)) m f t).
Proof.
  revert r v. induction vs as [|d vs IH]; intros r v Hg Hv.
  { simpl. rewrite Z.add_0_r, int64_small by done. done. }
  cbn [foldl foldr]. erewrite IH; [| |apply int64_range].
  - by rewrite int64_add, Z.add_assoc.
  - unfold Incr. rewrite reg_get_update, decide_True by (by destruct s). by rewrite Hg.
Qed.

Lemma foldl_Incr_timing s vs (r : Registry) v p c m f t :
  reg_get (st_key s) (st_field s) r = Some (timingStat v p c m f t) ->
  MinInt64 <= v <= MaxInt64 -> 0 <= c -> c + Z.of_nat (length vs) <= MaxInt64 ->
  reg_get (st_key s) (st_field s) (foldl (fun r d => Incr s d r) r vs) =
  Some (timingStat (int64 (v + foldr Z.add 0 vs)) p (c + Z.of_nat (length vs)) m f t).
Proof.
  revert r v c. induction vs as [|d vs IH]; intros r v c Hg Hv Hc Hm.
  { simpl. rewrite !Z.add_0_r, int64_small by done. done. }
  cbn [foldl foldr length] in *.
  rewrite (IH (Incr s d r) (int64 (v + d)) (int64 (c + 1))); [| |apply int64_range| |].
  - rewrite int64_add, Z.add_assoc. rewrite (int64_small (c + 1)) by (unfold MinInt64 in *; lia).
    do 2 f_equal; lia.
  - unfold Incr. rewrite reg_get_update, decide_True by (by destruct s). by rewrite Hg.
  - rewrite int64_small by (unfold MinInt64 in *; lia). lia.
  - rewrite int64_small by (unfold MinInt64 in *; lia). lia.
Qed.

Lemma foldl_Incr_other s k fld vs (r : Registry) :
  mkStat k fld <> s -> reg_get k fld (foldl (fun r d => Incr s d r) r vs) = reg_get k fld r.
Proof.
  intros Hne. revert r. induction vs as [|d vs IH]; intros r; [done|].
  cbn [foldl]. rewrite IH. unfold Incr. by rewrite reg_get_update, decide_False.
Qed.

Lemma register_get m f t (r : Registry) :
  reg_get (key m t) f (register m f t r).2 =
    Some (default (stat 0 m f t) (reg_get (key m t) f r)) /\
  (register m f t r).1 = mkStat (key m t) f /\
  (forall k fld, mkStat k fld <> mkStat (key m t) f ->
     reg_get k fld (register m f t r).2 = reg_get k fld r).
Proof.
  unfold register. destruct (reg_get (key m t) f r) eqn:E; simpl; [done|].
  rewrite reg_get_set, decide_True by done. split_and!; [done..|].
  intros k fld Hne. rewrite reg_get_set, decide_False; [done|]. simpl. naive_solver.
Qed.

Lemma registerTiming_get m f t (r : Registry) :
  reg_get (key m t) f (registerTiming m f t r).2 =
    Some (default (timingStat 0 0 0 m f t) (reg_get (key m t) f r)) /\
  (registerTiming m f t r).1 = mkStat (key m t) f.
Proof.
  unfold registerTiming. destruct (reg_get (key m t) f r) eqn:E; simpl; [done|].
  by rewrite reg_get_set, decide_True.
Qed.
End Proofs.

(** ** Properties *)

(** A counter counts. Registering a fresh counter, registering it again and
    applying any increments yields, at [Get], their sum (modulo 2^64, as an
    int64): the second registration returns the same statistic and does not
    reset it, and no other statistic of the registry changes. *)
Theorem counter_counts (R : MapRange) (ms f : string) (ts : gmap string string)
    (vs1 vs2 : list Z) (r : Registry)
    (Hfresh : reg_get (key ("internal_" +:+ ms) ts) f r = None) :
  let '(s1, r1) := Register ms f ts r in
  let r2 := foldl (fun r d => Incr s1 d r) r1 vs1 in
  let '(s2, r3) := Register ms f ts r2 in
  let r4 := foldl (fun r d => Incr s2 d r) r3 vs2 in
  s1 = s2 /\ fst <$> Get s1 r4 = Some (int64 (foldr Z.add 0 vs1 + foldr Z.add 0 vs2)) /\
  (forall k fld, mkStat k fld <> s1 -> reg_get k fld r4 = reg_get k fld r).
Proof.
  unfold Register. set (m := "internal_" +:+ ms) in *.
  destruct (register_get m f ts r) as (G1 & E1 & O1).
  destruct (register m f ts r) as [s1 r1]. simpl in G1, E1, O1. subst s1.
  rewrite Hfresh in G1. simpl in G1.
  set (s := mkStat (key m ts) f). set (r2 := foldl _ r1 vs1).
  assert (reg_get (key m ts) f r2 = Some (stat (int64 (0 + foldr Z.add 0 vs1)) m f ts)) as G2
    by (apply (foldl_Incr_get s); [done|unfold MinInt64, MaxInt64; lia]).
  destruct (register_get m f ts r2) as (G3 & E3 & O3).
  destruct (register m f ts r2) as [s2 r3]. simpl in G3, E3, O3. subst s2.
  rewrite G2 in G3. simpl in G3. split; [done|]. fold s. split.
  - unfold Get. erewrite (foldl_Incr_get s vs2); [|done|apply int64_range]. simpl.
    by rewrite int64_add.
  - intros k fld Hne. rewrite foldl_Incr_other, O3 by done. unfold r2.
    by rewrite foldl_Incr_other, O1.
Qed.

Lemma counter_counts_witness :
  let R := map_range_default in
  let '(s1, r1) := Register "write" "metrics_added" {["output" := "file"]} ∅ in
  let '(s2, r3) := Register "write" "metrics_added" {["output" := "file"]}
    (foldl (fun r d => Incr s1 d r) r1 [10; 5]) in
  fst <$> Get s1 (foldl (fun r d => Incr s2 d r) r3 [-2]) = Some 13.
Proof.
  pose proof (counter_counts map_range_default "write" "metrics_added" {["output" := "file"]}
    [10; 5] [-2] ∅ eq_refl) as W. cbv zeta in *.
  destruct (Register _ _ _ ∅) as [s1 r1]. cbv beta in *.
  destruct (Register _ _ _ (foldl _ _ _)) as [s2 r3]. destruct W as (_ & W & _). exact W.
Defined.

(** A timing averages. After any values are recorded on a timing statistic
    [Get] returns their mean, truncated; a second [Get] with nothing recorded in
    between returns the same value again, and values recorded before a [Get] do
    not count in the next one. *)
Theorem timing_averages (R : MapRange) (ms f : string) (ts : gmap string string)
    (vs1 vs2 : list Z) (r : Registry)
    (Hfresh : reg_get (key ("internal_" +:+ ms) ts) f r = None)
    (H1 : vs1 <> []) (Hlen1 : Z.of_nat (length vs1) <= MaxInt64)
    (Hlen2 : Z.of_nat (length vs2) <= MaxInt64) :
  let mean vs := Z.quot (int64 (foldr Z.add 0 vs)) (Z.of_nat (length vs)) in
  let '(s, r1) := RegisterTiming ms f ts r in
  exists r2 r3 r4,
    Get s (foldl (fun r d => Incr s d r) r1 vs1) = Some (mean vs1, r2) /\
    Get s r2 = Some (mean vs1, r3) /\
    Get s (foldl (fun r d => Incr s d r) r3 vs2) =
      Some (if decide (vs2 = []) then mean vs1 else mean vs2, r4).
Proof.
  intros mean. unfold RegisterTiming. set (m := "internal_" +:+ ms) in *.
  destruct (registerTiming_get m f ts r) as (G1 & E1).
  destruct (registerTiming m f ts r) as [s1 r1]. simpl in G1, E1. subst s1.
  rewrite Hfresh in G1. simpl in G1. set (s := mkStat (key m ts) f).
  assert (forall vs r0 p, reg_get (key m ts) f r0 = Some (timingStat 0 p 0 m f ts) ->
    Z.of_nat (length vs) <= MaxInt64 ->
    let v := if decide (vs = []) then p else mean vs in
    exists r', Get s (foldl (fun r d => Incr s d r) r0 vs) = Some (v, r') /\
      reg_get (key m ts) f r' = Some (timingStat 0 v 0 m f ts)) as Hget.
  { intros vs r0 p Hr0 Hl v. unfold Get. eexists.
    erewrite (foldl_Incr_timing s vs); [|done|unfold MinInt64, MaxInt64; lia|lia|lia].
    cbn [mbind option_bind]. rewrite !Z.add_0_l. split.
    - unfold v, obj_Get. destruct (decide (vs = [])) as [->|Hne]; [done|].
      destruct vs; [done|]. by rewrite (proj2 (Z.ltb_lt 0 _)) by (simpl; lia).
    - rewrite reg_get_update, decide_True by done.
      erewrite (foldl_Incr_timing s vs); [|done|unfold MinInt64, MaxInt64; lia|lia|lia].
      rewrite !Z.add_0_l. unfold v. simpl. destruct (decide (vs = [])) as [->|Hne]; [done|].
      destruct vs; [done|]. by rewrite (proj2 (Z.ltb_lt 0 _)) by (simpl; lia). }
  destruct (Hget vs1 r1 0 G1 Hlen1) as (r2 & A1 & B1). rewrite decide_False in A1, B1 by done.
  destruct (Hget [] r2 _ B1) as (r3 & A2 & B2); [done|].
  destruct (Hget vs2 r3 _ B2 Hlen2) as (r4 & A3 & _).
  exists r2, r3, r4. done.
Qed.

Lemma timing_averages_witness :
  let R := map_range_default in
  let '(s, r1) := RegisterTiming "gather" "gather_time_ns" {["input" := "cpu"]} ∅ in
  exists r2 r3, Get s (foldl (fun r d => Incr s d r) r1 [10; 5]) = Some (7, r2) /\
    Get s r2 = Some (7, r3).
Proof.
  pose proof (timing_averages map_range_default "gather" "gather_time_ns" {["input" := "cpu"]}
    [10; 5] [12] ∅ eq_refl) as W.
  specialize (W ltac:(done) ltac:(done) ltac:(done)). cbv zeta in *.
  destruct (RegisterTiming _ _ _ ∅) as [s r1].
  destruct W as (r2 & r3 & r4 & A1 & A2 & _). exists r2, r3. done.
Defined.

(** The key of a statistic concatenates measurement, tag keys and tag values
    without separators, so two different tag sets can collide: the second
    registration then returns the first one's statistic, tagged as the first
    one, and both callers share one counter. *)
Theorem register_tag_collision :
  let R := map_range_default in
  let t1 := {["output" := "x"]} : gmap string string in
  let t2 := {["outp" := "utx"]} : gmap string string in
  let '(s1, r1) := Register "write" "errors" t1 ∅ in
  let '(s2, r2) := Register "write" "errors" t2 r1 in
  t1 <> t2 /\ s1 = s2 /\ r2 = r1 /\
  obj_Tags <$> reg_get (st_key s2) (st_field s2) r2 = Some t1.
Proof.
  intros R t1 t2.
  assert (key (H := R) ("internal_" +:+ "write") t1 = key (H := R) ("internal_" +:+ "write") t2)
    as Hk by (by vm_compute).
  assert (t1 <> t2) as Hne
    by (intros E; by apply (f_equal (fun m : gmap string string => m !! "output")) in E).
  unfold Register, register. rewrite <- Hk. clear Hk. generalize (key (H := R) ("internal_" +:+ "write") t1).
  intros k. assert (reg_get k "errors" ∅ = None) as -> by (unfold reg_get; by rewrite lookup_empty).
  rewrite reg_get_set, decide_True by done. cbv beta iota.
  split_and!; [done..|]. cbn [st_key st_field]. by rewrite reg_get_set, decide_True.
Qed.
