(* ===== verification/Interfaces.v ===== *)
(** * What the pipeline asks of its environment

    The buffer and the running plugins call methods of statistics and of
    metrics. The classes here are those interfaces: an instance says what the
    calls do to the state [W] of the rest of the process. [Accumulator] has
    the instance made of the registry and the tracking heap; proofs about call traces
    use an instance that records the calls. *)

From S2P Require Import Prelude Float64 Metric Tracking Selfstat.

(** Statistics: [selfstat.Stat]. *)
Class StatEnv (W : Type) := {
  stat_Incr : Stat -> Z -> W -> W;
  stat_Set : Stat -> Z -> W -> W;
}.

(** The end of a metric's life: [telegraf.Metric]'s [Accept], [Reject] and
    [Drop]; [None] is a panic. *)
Class MetricEnv (A W : Type) := {
  m_Accept : A -> W -> option W;
  m_Reject : A -> W -> option W;
  m_Drop : A -> W -> option W;
}.

(** [telegraf.Metric.Copy]: a tracking metric's copy counts as one more. *)
Class CopyEnv (A W : Type) := m_Copy : A -> W -> A * W.

(** [telegraf.Processor.Apply] of a plugin with state [P]. *)
Class Processor (P W : Type) :=
  processor_Apply : list tmetric -> P -> W -> option (list tmetric * P * W).

(** The calls a plugin makes on an accumulator. *)
Inductive AccCall :=
| CallFields (measurement : string) (cfields : gmap string GoVal) (ctags : gmap string string)
    (ctp : ValueType) (ct : option Z)
| CallMetric (m : metric)
| CallPrecision (p : Z).

(** [telegraf.Aggregator] with state [G]: [Push], at the time [now], gives the
    sequence of calls it makes on the accumulator; [None] is a panic. *)
Class Aggregator (G : Type) := {
  agg_Add : metric -> G -> option G;
  agg_Push : Z -> G -> option (list AccCall * G);
  agg_Reset : G -> G;
}.

(** The package-level counters of [internal/models/buffer.go]. *)
Definition AgentMetricsWritten `{MapRange} : Stat :=
  mkStat (key "internal_agent" ∅) "metrics_written".
Definition AgentMetricsDropped `{MapRange} : Stat :=
  mkStat (key "internal_agent" ∅) "metrics_dropped".

(** An environment that records the calls on metrics, for concrete runs. *)
Inductive Call (A : Type) :=
| CAccept (m : A)
| CReject (m : A)
| CDrop (m : A).
Arguments CAccept {A}.
Arguments CReject {A}.
Arguments CDrop {A}.
Definition log_stats A : StatEnv (list (Call A)) :=
  {| stat_Incr := fun _ _ w => w; stat_Set := fun _ _ w => w |}.
Definition log_metrics A : MetricEnv A (list (Call A)) :=
  {| m_Accept := fun m w => Some (w ++ [CAccept m]);
     m_Reject := fun m w => Some (w ++ [CReject m]);
     m_Drop := fun m w => Some (w ++ [CDrop m]) |}.
