(* ===== verification/Buffer.v ===== *)
(** * The output buffer

    [internal/models/buffer.go]: the circular buffer between the pipeline and an
    output. Metrics are added at the end, a batch is taken from the end (newest
    first), and is accepted or put back while newer metrics may have been added
    in between; when the buffer is full the oldest metric is dropped.

    Every method holds the buffer's mutex from start to end, so a run is a
    sequence of calls. Indices are Go [int]s: they stay below the capacity, which
    is the length of an allocated slice, so no index computation overflows. An
    index out of range and a nil metric are panics ([None]). *)

From S2P Require Import Prelude Float64 Metric Tracking Selfstat Interfaces.

Module Buf.

Record BufferStats := mkBStats {
  MetricsAdded : Stat;
  MetricsWritten : Stat;
  MetricsDropped : Stat;
  BufferSize : Stat;
  BufferLimit : Stat;
}.

Record Buffer (A : Type) := mkBuffer {
  buf : list (option A);
  first : Z;
  last : Z;
  size : Z;
  cap : Z;
  batchFirst : Z;
  batchSize : Z;
  bstats : BufferStats;
}.
Arguments mkBuffer {A}.
Arguments buf {A}.
Arguments first {A}.
Arguments last {A}.
Arguments size {A}.
Arguments cap {A}.
Arguments batchFirst {A}.
Arguments batchSize {A}.
Arguments bstats {A}.

(** [min] of the package. *)
Definition min (a b : Z) : Z := if b <? a then b else a.

Section Buffer.
Context `{MapRange} {A W : Type} `{StatEnv W} `{MetricEnv A W}.
Implicit Types (b : Buffer A) (w : W).

Definition set_buf (l : list (option A)) b : Buffer A :=
  mkBuffer l (first b) (last b) (size b) (cap b) (batchFirst b) (batchSize b) (bstats b).
Definition set_first (i : Z) b : Buffer A :=
  mkBuffer (buf b) i (last b) (size b) (cap b) (batchFirst b) (batchSize b) (bstats b).
Definition set_last (i : Z) b : Buffer A :=
  mkBuffer (buf b) (first b) i (size b) (cap b) (batchFirst b) (batchSize b) (bstats b).
Definition set_size (n : Z) b : Buffer A :=
  mkBuffer (buf b) (first b) (last b) n (cap b) (batchFirst b) (batchSize b) (bstats b).
Definition set_batch (i n : Z) b : Buffer A :=
  mkBuffer (buf b) (first b) (last b) (size b) (cap b) i n (bstats b).

(** [b.buf[i]] and [b.buf[i] = x]. *)
Definition rd b (i : Z) : option (option A) :=
  if 0 <=? i then buf b !! Z.to_nat i else None.
Definition wr (i : Z) (x : option A) b : option (Buffer A) :=
  if (0 <=? i) && (i <? Z.of_nat (length (buf b)))
  then Some (set_buf (<[Z.to_nat i := x]> (buf b)) b) else None.

(** *** Index arithmetic *)

Definition next b (index : Z) : Z :=
  let index := index + 1 in if index =? cap b then 0 else index.
Definition nextby b (index count : Z) : Z := Z.rem (index + count) (cap b).
Definition prev b (index : Z) : Z :=
  let index := index - 1 in if index <? 0 then cap b - 1 else index.
Definition dist b (begin_ end_ : Z) : Z :=
  if begin_ <=? end_ then end_ - begin_ else cap b - begin_ + end_.

Definition resetBatch b : Buffer A := set_batch 0 0 b.

(** [length], and [Len], which takes the lock around it. *)
Definition Len b : Z := min (size b + batchSize b) (cap b).

(** *** Statistics and metric life cycle *)

Definition metricAdded b w : W := stat_Incr (MetricsAdded (bstats b)) 1 w.

Definition metricWritten b (m : option A) w : option W :=
  let w := stat_Incr AgentMetricsWritten 1 w in
  let w := stat_Incr (MetricsWritten (bstats b)) 1 w in
  m ← m; m_Accept m w.

Definition metricDropped b (m : option A) w : option W :=
  let w := stat_Incr AgentMetricsDropped 1 w in
  let w := stat_Incr (MetricsDropped (bstats b)) 1 w in
  m ← m; m_Reject m w.

Definition setBufferSize b w : W := stat_Set (BufferSize (bstats b)) (Len b) w.

(** *** Adding *)

Definition add b (m : A) w : option (Z * Buffer A * W) :=
  '(dropped, b, w) ← (if size b =? cap b then
      x ← rd b (last b);
      w ← metricDropped b x w;
      let b := if (last b =? batchFirst b) && (0 <? batchSize b)
        then set_batch (next b (batchFirst b)) (batchSize b - 1) b else b in
      Some (1, b, w)
    else Some (0, b, w));
  let w := metricAdded b w in
  b ← wr (last b) (Some m) b;
  let b := set_last (next b (last b)) b in
  let b := if size b =? cap b then set_first (next b (first b)) b else b in
  let b := set_size (min (size b + 1) (cap b)) b in
  Some (dropped, b, w).

Fixpoint add_loop b (metrics : list A) (dropped : Z) w : option (Z * Buffer A * W) :=
  match metrics with
  | [] => Some (dropped, b, w)
  | m :: metrics' =>
    '(n, b, w) ← add b m w;
    add_loop b metrics' (if n =? 0 then dropped else dropped + n) w
  end.

Definition Add b (metrics : list A) w : option (Z * Buffer A * W) :=
  '(dropped, b, w) ← add_loop b metrics 0 w;
  Some (dropped, b, setBufferSize b w).

(** *** Batches *)

(** The loop of [Batch]; [out] is filled from its end. *)
Fixpoint batch_loop (n : nat) b (batchIndex : Z) (out : list (option A)) :
    option (list (option A) * Buffer A) :=
  match n with
  | O => Some (out, b)
  | S n' =>
    x ← rd b batchIndex;
    b ← wr batchIndex None b;
    batch_loop n' b (next b batchIndex) (x :: out)
  end.

Definition Batch b (n : Z) : option (list (option A) * Buffer A) :=
  let outLen := min (size b) n in
  if outLen <? 0 then None
  else if outLen =? 0 then Some ([], b)
  else
    let b := set_batch (Z.rem (cap b + last b - outLen) (cap b)) outLen b in
    '(out, b) ← batch_loop (Z.to_nat outLen) b (batchFirst b) [];
    let b := set_last (batchFirst b) b in
    let b := set_size (size b - outLen) b in
    Some (out, b).

Fixpoint written_loop b (batch : list (option A)) w : option W :=
  match batch with
  | [] => Some w
  | m :: batch' => w ← metricWritten b m w; written_loop b batch' w
  end.

Definition Accept b (batch : list (option A)) w : option (Buffer A * W) :=
  w ← written_loop b batch w;
  let b := resetBatch b in
  Some (b, setBufferSize b w).

(** The rotation of [Reject]: [for rb != rp && rp != re]. Each round moves [rp]
    one step back towards [rb], so [cap] rounds are enough. *)
Fixpoint reject_rotate (fuel : nat) b (rb rp re : Z) w : option (Z * Buffer A * W) :=
  if (rb =? rp) || (rp =? re) then Some (re, b, w)
  else match fuel with
  | O => None
  | S fuel' =>
    let rp := prev b rp in
    let re := prev b re in
    x ← rd b re;
    '(b, w) ← match x with
      | Some _ =>
        w ← metricDropped b x w;
        Some (set_first (next b (first b)) b, w)
      | None => Some (b, w)
      end;
    y ← rd b rp;
    b ← wr re y b;
    b ← wr rp None b;
    reject_rotate fuel' b rb rp re w
  end.

(** The restore loop of [Reject], from position [i] of the batch. *)
Fixpoint reject_copy b (batch : list (option A)) (i restore re : Z) w :
    option (Buffer A * W) :=
  match batch with
  | [] => Some (b, w)
  | m :: batch' =>
    if i <? restore then
      let re := prev b re in
      b ← wr re m b;
      let b := set_size (min (size b + 1) (cap b)) b in
      reject_copy b batch' (i + 1) restore re w
    else
      w ← metricDropped b m w;
      reject_copy b batch' (i + 1) restore re w
  end.

Definition Reject b (batch : list (option A)) w : option (Buffer A * W) :=
  match batch with
  | [] => Some (b, w)
  | _ =>
    let older := dist b (first b) (batchFirst b) in
    let free := cap b - size b in
    let restore := min (Z.of_nat (length batch)) (free + older) in
    let rb := batchFirst b in
    let rp := last b in
    let re := nextby b rp restore in
    let b := set_last re b in
    '(re, b, w) ← reject_rotate (Z.to_nat (cap b)) b rb rp re w;
    '(b, w) ← reject_copy b batch 0 restore re w;
    let b := resetBatch b in
    Some (b, setBufferSize b w)
  end.
End Buffer.

(** [NewBuffer]: the empty buffer, its statistics registered under the output's
    tags. [make] panics on a negative capacity. *)
Definition NewBuffer `{MapRange} {A} (nm alias : string) (capacity : Z) (r : Registry) :
    option (Buffer A * Registry) :=
  let tgs : gmap string string := {["output" := nm]} in
  let tgs := if decide (alias = EmptyString) then tgs else <["alias" := alias]> tgs in
  if capacity <? 0 then None else
  let '(s1, r) := Register "write" "metrics_added" tgs r in
  let '(s2, r) := Register "write" "metrics_written" tgs r in
  let '(s3, r) := Register "write" "metrics_dropped" tgs r in
  let '(s4, r) := Register "write" "buffer_size" tgs r in
  let '(s5, r) := Register "write" "buffer_limit" tgs r in
  let b := mkBuffer (replicate (Z.to_nat capacity) None) 0 0 0 capacity 0 0
    (mkBStats s1 s2 s3 s4 s5) in
  Some (b, Selfstat.Set_ s5 capacity (Selfstat.Set_ s4 0 r)).

(** ** The ring as a list

    [slot f k c] is the position [k] steps after [f] in a ring of [c] slots, and
    [view f b] the slots read from [f] on. *)

Definition slot (f k c : Z) : Z := (f + k) mod c.
Definition view {A} (f : Z) (b : Buffer A) : list (option A) := rotate (Z.to_nat f) (buf b).

Section Ring.
Context {A : Type}.
Implicit Types (b : Buffer A).

(** The buffer's slice has [cap > 0] slots. *)
Definition shaped b : Prop := 0 < cap b /\ Z.of_nat (length (buf b)) = cap b.

Lemma slot_range f k c : 0 < c -> 0 <= slot f k c < c.
Proof. intros. by apply Z.mod_pos_bound. Qed.

Lemma slot_slot f j k c : 0 < c -> slot (slot f j c) k c = slot f (j + k) c.
Proof. intros. unfold slot. rewrite Z.add_mod_idemp_l by lia. f_equal. lia. Qed.

Lemma slot_0 f c : 0 <= f < c -> slot f 0 c = f.
Proof. intros. unfold slot. rewrite Z.add_0_r. by apply Z.mod_small. Qed.

Lemma slot_lap f k c : 0 < c -> slot f (k + c) c = slot f k c.
Proof.
  intros. unfold slot. rewrite Z.add_assoc. rewrite <- (Z.mul_1_l c) at 1.
  by rewrite Z.mod_add by lia.
Qed.

Lemma slot_inj f j k c :
  0 < c -> 0 <= j < c -> 0 <= k < c -> slot f j c = slot f k c -> j = k.
Proof.
  intros Hc Hj Hk E. unfold slot in E.
  assert ((f + j - (f + k)) mod c = 0) as E0 by (rewrite Zminus_mod, E, Z.sub_diag; by apply Z.mod_0_l; lia).
  replace (f + j - (f + k)) with (j - k) in E0 by lia.
  apply Z.mod_divide in E0; [|lia]. destruct E0 as [q Hq]. assert (q = 0) by nia. lia.
Qed.

Lemma slot_ne f k r c : 0 < r < c -> slot f k c <> slot f (k + r) c.
Proof.
  intros Hr E. rewrite <- slot_slot in E by lia.
  pose proof (slot_range f k c ltac:(lia)) as Hk. revert E Hk. generalize (slot f k c).
  intros g E Hg. assert (0 = r); [|lia]. apply (slot_inj g 0 r c); try lia. by rewrite slot_0.
Qed.

Lemma next_slot b f k : 0 < cap b -> next b (slot f k (cap b)) = slot f (k + 1) (cap b).
Proof.
  intros Hc. unfold next. pose proof (slot_range f k (cap b) Hc).
  rewrite <- (slot_slot f k 1) by done. revert H. generalize (slot f k (cap b)).
  intros i Hi. unfold slot. rewrite mod_one_lap by lia.
  destruct (Z.eqb_spec (i + 1) (cap b)); case_decide; lia.
Qed.

Lemma prev_slot b f k : 0 < cap b -> prev b (slot f k (cap b)) = slot f (k - 1) (cap b).
Proof.
  intros Hc. unfold prev. pose proof (slot_range f k (cap b) Hc).
  rewrite <- (slot_lap f (k - 1)) by done.
  replace (k - 1 + cap b) with (k + (cap b - 1)) by lia.
  rewrite <- slot_slot by done. revert H. generalize (slot f k (cap b)).
  intros i Hi. unfold slot. rewrite mod_one_lap by lia.
  destruct (Z.ltb_spec (i - 1) 0); case_decide; lia.
Qed.

Lemma nextby_slot b f k n :
  0 < cap b -> 0 <= n -> nextby b (slot f k (cap b)) n = slot f (k + n) (cap b).
Proof.
  intros Hc Hn. unfold nextby. pose proof (slot_range f k (cap b) Hc).
  rewrite Z.rem_mod_nonneg by lia. by apply slot_slot.
Qed.

Lemma length_view f b : length (view f b) = length (buf b).
Proof. apply length_rotate. Qed.

Lemma rd_slot b f k :
  shaped b -> 0 <= f < cap b -> 0 <= k < cap b ->
  rd b (slot f k (cap b)) = view f b !! Z.to_nat k.
Proof.
  intros [Hc Hl] Hf Hk. unfold rd. pose proof (slot_range f k (cap b) Hc).
  rewrite (proj2 (Z.leb_le 0 _)) by lia.
  unfold view. rewrite lookup_rotate_r by lia. f_equal. unfold rotate_nat_add, slot.
  rewrite Hl. f_equal. f_equal. lia.
Qed.

Lemma wr_slot b f k x :
  shaped b -> 0 <= f < cap b -> 0 <= k < cap b ->
  exists l, wr (slot f k (cap b)) x b = Some (set_buf l b) /\ length l = length (buf b) /\
    rotate (Z.to_nat f) l = <[Z.to_nat k := x]> (view f b).
Proof.
  intros [Hc Hl] Hf Hk. unfold wr. pose proof (slot_range f k (cap b) Hc).
  rewrite (proj2 (Z.leb_le 0 _)), (proj2 (Z.ltb_lt _ _)) by lia. simpl.
  eexists. split; [done|]. rewrite length_insert. split; [done|].
  unfold view. rewrite <- rotate_insert_l by lia. do 2 f_equal.
  unfold rotate_nat_add, slot. rewrite Hl. do 2 f_equal. lia.
Qed.

Lemma wr_set_first b b' i j x : wr i x b = Some b' -> wr i x (set_first j b) = Some (set_first j b').
Proof. unfold wr. simpl. case_match; [|done]. by intros [= <-]. Qed.

Lemma rotate_slot (l : list (option A)) f k c :
  Z.of_nat (length l) = c -> 0 < c -> 0 <= f -> 0 <= k ->
  rotate (Z.to_nat (slot f k c)) l = rotate (Z.to_nat k) (rotate (Z.to_nat f) l).
Proof.
  intros Hl Hc Hf Hk. pose proof (slot_range f k c Hc) as Hs.
  apply list_eq. intros i. destruct (decide (i < length l)%nat) as [Hi|Hi].
  - rewrite !lookup_rotate_r by (rewrite ?length_rotate; try done; apply rotate_nat_add_lt; lia).
    f_equal. rewrite length_rotate. unfold rotate_nat_add.
    rewrite Hl. f_equal. rewrite !Z2Nat.id by (try apply Z.mod_pos_bound; lia).
    unfold slot. rewrite Z.add_mod_idemp_l, Z.add_mod_idemp_r by lia. f_equal. lia.
  - rewrite !(proj2 (lookup_ge_None _ _)); [done|..]; rewrite ?length_rotate; lia.
Qed.

Lemma rotate_drop_take {B} n (l : list B) : (n < length l)%nat -> rotate n l = drop n l ++ take n l.
Proof. intros. unfold rotate. by rewrite Nat.mod_small. Qed.

Lemma rotate_1_cons {B} (x : B) l : rotate 1 (x :: l) = l ++ [x].
Proof.
  destruct l as [|y l]; [done|]. rewrite rotate_drop_take by (simpl; lia). done.
Qed.

(** ** The queue a buffer holds *)

(** [rep b q]: the occupied slots, from the oldest to the newest metric, hold
    [q], and every other slot is nil. *)
Record rep b (q : list A) : Prop := {
  rep_shaped : shaped b;
  rep_first : 0 <= first b < cap b;
  rep_size : size b = Z.of_nat (length q);
  rep_le : Z.of_nat (length q) <= cap b;
  rep_last : last b = slot (first b) (Z.of_nat (length q)) (cap b);
  rep_view : view (first b) b =
    (Some <$> q) ++ replicate (Z.to_nat (cap b) - length q) None;
}.

Lemma insert_next_slot (q : list A) x n :
  <[length q := Some x]> ((Some <$> q) ++ replicate (S n) None) =
  (Some <$> (q ++ [x])) ++ replicate n None.
Proof.
  rewrite insert_app_r_alt by (by rewrite length_fmap).
  rewrite length_fmap, Nat.sub_diag. simpl. by rewrite fmap_app, <- app_assoc.
Qed.
End Ring.
#[export] Hint Resolve slot_range : drone.

Section Specs.
Context `{MapRange} {A W : Type} `{StatEnv W} `{MetricEnv A W}.
Implicit Types (b : Buffer A) (q : list A) (w : W).

(** Dropping metrics one after the other. *)
Fixpoint drop_each b (xs : list A) w : option W :=
  match xs with
  | [] => Some w
  | x :: xs' => w ← metricDropped b (Some x) w; drop_each b xs' w
  end.

Lemma drop_each_app b xs ys w :
  drop_each b (xs ++ ys) w = w ← drop_each b xs w; drop_each b ys w.
Proof.
  revert w. induction xs as [|x xs IH]; intros w; [done|]. cbn [drop_each app].
  destruct (metricDropped b (Some x) w); simpl; [apply IH|done].
Qed.

Lemma drop_each_ext b b' xs w : bstats b = bstats b' -> drop_each b xs w = drop_each b' xs w.
Proof.
  intros E. revert w. induction xs as [|x xs IH]; intros w; [done|]. cbn [drop_each].
  assert (metricDropped b (Some x) w = metricDropped b' (Some x) w) as ->
    by (unfold metricDropped; by rewrite E).
  destruct (metricDropped b' (Some x) w); simpl; [apply IH|done].
Qed.

(** *** Add *)

(** The metric [add] drops, if any, and the queue it leaves. *)
Definition add_drops (c : Z) q : list A := if Z.of_nat (length q) =? c then take 1 q else [].
Definition add_queue (c : Z) q (m : A) : list A :=
  if Z.of_nat (length q) =? c then drop 1 q ++ [m] else q ++ [m].

(** How [add] moves the batch mark. *)
Definition add_mark b : Z * Z :=
  if (size b =? cap b) && ((last b =? batchFirst b) && (0 <? batchSize b))
  then (next b (batchFirst b), batchSize b - 1) else (batchFirst b, batchSize b).

Lemma add_spec b q m :
  rep b q ->
  exists b', rep b' (add_queue (cap b) q m) /\ cap b' = cap b /\ bstats b' = bstats b /\
    (batchFirst b', batchSize b') = add_mark b /\
    first b' = (if size b =? cap b then next b (first b) else first b) /\
    forall w, add b m w =
      w1 ← drop_each b (add_drops (cap b) q) w;
      Some (Z.of_nat (length (add_drops (cap b) q)), b', metricAdded b w1).
Proof.
  intros [Hsh Hf Hsz Hle Hl Hv]. pose proof Hsh as [Hc Hlen].
  unfold add_queue, add_drops, add_mark. rewrite Hsz.
  destruct (Z.eqb_spec (Z.of_nat (length q)) (cap b)) as [E|E].
  - destruct q as [|x q]; [simpl in *; lia|]. cbn [length] in *.
    assert (last b = slot (first b) 0 (cap b)) as Hl0.
    { rewrite Hl, E. rewrite <- (Z.add_0_l (cap b)) at 1. by apply slot_lap. }
    assert (rd b (last b) = Some (Some x)) as Hrd
      by (rewrite Hl0, rd_slot, Hv by (done || lia); done).
    destruct (wr_slot b (first b) 0 (Some m)) as (l & Hwr & Hll & Hrot); [done|lia|lia|].
    rewrite Hv in Hrot. simpl in Hrot.
    set (mk := if (last b =? batchFirst b) && (0 <? batchSize b)
      then (next b (batchFirst b), batchSize b - 1) else (batchFirst b, batchSize b)).
    exists (mkBuffer l (next b (first b)) (next b (last b)) (cap b) (cap b) mk.1 mk.2 (bstats b)).
    assert (next b (first b) = slot (first b) 1 (cap b)) as Hn1
      by (rewrite <- (slot_0 (first b) (cap b)) at 1 by done; by apply next_slot).
    split_and!; try done.
    + constructor; simpl; rewrite ?drop_0, ?length_app; simpl; try lia.
      * split; simpl; lia.
      * rewrite Hn1. by apply slot_range.
      * rewrite Hl0, next_slot, Hn1, slot_slot by done.
        rewrite <- (slot_lap (first b) (0 + 1)) by done. f_equal. lia.
      * unfold view. simpl. rewrite Hn1, (rotate_slot _ _ _ (cap b)) by lia.
        rewrite Hrot. change (Z.to_nat 1) with 1%nat. rewrite rotate_1_cons, fmap_app.
        replace (Z.to_nat (cap b) - S (length q))%nat with 0%nat by lia.
        replace (Z.to_nat (cap b) - (length q + 1))%nat with 0%nat by lia.
        simpl. by rewrite !app_nil_r.
    + simpl. symmetry. apply surjective_pairing.
    + intros w. unfold add. rewrite Hsz, (proj2 (Z.eqb_eq _ _) E), Hrd.
      cbn [mbind option_bind drop_each take].
      destruct (metricDropped b (Some x) w) as [w1|]; [|done]. cbn [mbind option_bind].
      unfold mk. destruct ((last b =? batchFirst b) && (0 <? batchSize b)); simpl;
        unfold wr in *; simpl in *; rewrite <- Hl0 in Hwr;
        (case_match; [|done]); injection Hwr as <-; simpl;
        rewrite Hsz, (proj2 (Z.eqb_eq _ _) E);
        unfold next, set_size, set_first, set_last, set_buf, set_batch, min; simpl;
        rewrite Hsz, (proj2 (Z.ltb_lt (cap b) _)) by lia; done.
  - destruct (wr_slot b (first b) (Z.of_nat (length q)) (Some m)) as (l & Hwr & Hll & Hrot);
      [done|lia|lia|].
    rewrite Hv, Nat2Z.id in Hrot.
    replace (Z.to_nat (cap b) - length q)%nat with (S (Z.to_nat (cap b) - length (q ++ [m])))
      in Hrot by (rewrite length_app; simpl; lia).
    rewrite insert_next_slot in Hrot.
    exists (mkBuffer l (first b) (next b (last b)) (size b + 1) (cap b)
      (batchFirst b) (batchSize b) (bstats b)).
    split_and!; try done.
    + constructor; simpl; rewrite ?length_app; simpl; try lia; try done.
      * split; simpl; lia.
      * rewrite Hl, next_slot by done. f_equal. lia.
      * unfold view. simpl. rewrite Hrot, length_app. done.
    + intros w. unfold add. rewrite Hsz, (proj2 (Z.eqb_neq _ _) E).
      cbn [mbind option_bind drop_each]. rewrite Hl, Hwr. cbn [mbind option_bind].
      unfold set_last, set_size, set_buf, min; simpl. rewrite Hsz, (proj2 (Z.eqb_neq _ _) E).
      simpl. rewrite ?Hsz, (proj2 (Z.ltb_ge (cap b) _)) by lia. by rewrite ?Hsz, <- ?Hl.
Qed.

(** *** Batch *)

Lemma batch_loop_spec n b f k out :
  shaped b -> 0 <= f < cap b -> 0 <= k -> k + Z.of_nat n <= cap b ->
  exists l, batch_loop n b (slot f k (cap b)) out =
    Some (reverse (take n (drop (Z.to_nat k) (view f b))) ++ out, set_buf l b) /\
    length l = length (buf b) /\
    rotate (Z.to_nat f) l =
      take (Z.to_nat k) (view f b) ++ replicate n None ++ drop (Z.to_nat k + n) (view f b).
Proof.
  revert b k out. induction n as [|n IH]; intros b k out Hsh Hf Hk Hn.
  { exists (buf b). rewrite take_0, Nat.add_0_r. simpl. split_and!; [by destruct b|done|].
    symmetry. apply take_drop. }
  pose proof Hsh as [Hc Hlen]. cbn [batch_loop].
  rewrite rd_slot by (done || lia).
  destruct (view f b !! Z.to_nat k) as [x|] eqn:Ex;
    [|apply lookup_ge_None in Ex; rewrite length_view in Ex; lia].
  cbn [mbind option_bind].
  destruct (wr_slot b f k None) as (l & -> & Hll & Hrot); [done|done|lia|].
  cbn [mbind option_bind]. change (cap b) with (cap (set_buf l b)).
  rewrite next_slot by done.
  destruct (IH (set_buf l b) (k + 1) (x :: out)) as (l' & -> & Hl' & Hrot');
    [split; simpl; lia|done|lia|simpl; lia|].
  exists l'. split_and!; [|simpl in Hl'; congruence|].
  - unfold set_buf. simpl.
    assert (drop (Z.to_nat (k + 1)) (view f (set_buf l b)) = drop (S (Z.to_nat k)) (view f b)) as E
      by (unfold view at 1; simpl; rewrite Hrot, drop_insert_lt by lia; f_equal; lia).
    unfold set_buf in E. rewrite E, (drop_S (view f b) x (Z.to_nat k)) by done. simpl.
    by rewrite reverse_cons, <- app_assoc.
  - rewrite Hrot'.
    change (view f (set_buf l b)) with (rotate (Z.to_nat f) l). rewrite Hrot.
    rewrite drop_insert_lt by lia. replace (Z.to_nat (k + 1)) with (S (Z.to_nat k)) by lia.
    rewrite take_S_r with (x := None) by (apply list_lookup_insert_eq; rewrite length_view; lia).
    rewrite take_insert_ge, <- app_assoc by lia. simpl. do 4 f_equal. lia.
Qed.

(** The number of metrics [Batch] takes. *)
Definition out_len q (n : Z) : nat := Z.to_nat (min (Z.of_nat (length q)) n).

Lemma Batch_spec b q n :
  rep b q -> 0 <= n ->
  let o := out_len q n in
  exists b', Batch b n = Some (Some <$> reverse (drop (length q - o) q), b') /\
    rep b' (take (length q - o) q) /\ cap b' = cap b /\ bstats b' = bstats b /\
    first b' = first b /\
    (o = 0%nat -> b' = b) /\
    ((0 < o)%nat ->
      batchFirst b' = slot (first b) (Z.of_nat (length q - o)) (cap b) /\
      batchSize b' = Z.of_nat o).
Proof.
  intros [Hsh Hf Hsz Hle Hl Hv] Hn o. pose proof Hsh as [Hc Hlen].
  assert (min (size b) n = Z.of_nat o) as Ho
    by (unfold o, out_len, min; rewrite Hsz; case_match; lia).
  assert (o <= length q)%nat as Hoq
    by (unfold o, out_len, min; destruct (Z.ltb_spec n (Z.of_nat (length q))); lia).
  unfold Batch. rewrite Ho, (proj2 (Z.ltb_ge _ 0)) by lia.
  destruct (Z.eqb_spec (Z.of_nat o) 0) as [E|E].
  - exists b. replace (length q - o)%nat with (length q) by lia.
    rewrite drop_all, take_ge by lia. split_and!; try done. lia.
  - set (k := Z.of_nat (length q) - Z.of_nat o).
    assert (Z.rem (cap b + last b - Z.of_nat o) (cap b) = slot (first b) k (cap b)) as Hbf.
    { pose proof (slot_range (first b) (Z.of_nat (length q)) (cap b) Hc).
      rewrite Hl, Z.rem_mod_nonneg by lia.
      replace (cap b + slot (first b) (Z.of_nat (length q)) (cap b) - Z.of_nat o)
        with (slot (first b) (Z.of_nat (length q)) (cap b) + (cap b - Z.of_nat o)) by lia.
      change (slot (slot (first b) (Z.of_nat (length q)) (cap b)) (cap b - Z.of_nat o) (cap b)
        = slot (first b) k (cap b)).
      rewrite slot_slot by done. rewrite <- (slot_lap (first b) k) by done.
      f_equal. unfold k. lia. }
    rewrite Hbf. set (b1 := set_batch _ _ b). rewrite Nat2Z.id.
    destruct (batch_loop_spec o b1 (first b1) k []) as (l & Hbl & Hll & Hrot);
      [done|done|unfold k; lia|unfold k; simpl; lia|].
    change (batchFirst b1) with (slot (first b1) k (cap b1)). rewrite Hbl.
    cbn [mbind option_bind]. rewrite app_nil_r.
    assert (Z.to_nat k = length q - o)%nat as Hk by (unfold k; lia).
    change (view (first b1) b1) with (view (first b) b) in *. rewrite Hv in *. rewrite Hk in *.
    assert (reverse (take o (drop (length q - o)
        ((Some <$> q) ++ replicate (Z.to_nat (cap b) - length q) None))) =
      Some <$> reverse (drop (length q - o) q)) as Hout.
    { rewrite drop_app_le by (rewrite length_fmap; lia).
      rewrite take_app_le by (rewrite length_drop, length_fmap; lia).
      rewrite take_ge by (rewrite length_drop, length_fmap; lia).
      by rewrite <- fmap_drop, fmap_reverse. }
    rewrite Hout. eexists. split; [reflexivity|].
    split; [|split_and!; [done|done|done|intros; lia|]].
    + simpl in *. constructor; simpl; rewrite ?length_take; try lia; try done.
      * split; simpl; lia.
      * f_equal. unfold k. lia.
      * unfold view. simpl. rewrite Hrot.
        rewrite take_app_le by (rewrite length_fmap; lia). rewrite fmap_take.
        f_equal. replace (length q - o + o)%nat with (length (Some <$> q)) by (rewrite length_fmap; lia).
        rewrite drop_app_length, <- replicate_add. f_equal. lia.
    + intros _. simpl. split; [|done]. f_equal. unfold k. lia.
Qed.
(** *** Reject *)

Lemma insert_middle {B} (l1 l2 : list B) x y n :
  n = length l1 -> <[n := y]> (l1 ++ x :: l2) = l1 ++ y :: l2.
Proof. intros ->. by rewrite insert_app_r_alt, Nat.sub_diag. Qed.

(** Moving one metric forward over a gap of the slots [G ++ [x]]. *)
Lemma rotate_step b f (L G T : list (option A)) y x :
  shaped b -> 0 <= f < cap b ->
  view f b = L ++ Some y :: G ++ x :: T ->
  let rp := slot f (Z.of_nat (length L)) (cap b) in
  let re := slot f (Z.of_nat (length L + S (length G))) (cap b) in
  exists l1 l2, rd b re = Some x /\ rd b rp = Some (Some y) /\
    length l1 = length (buf b) /\ length l2 = length (buf b) /\
    wr re (Some y) b = Some (set_buf l1 b) /\
    wr rp None (set_buf l1 b) = Some (set_buf l2 b) /\
    rotate (Z.to_nat f) l2 = L ++ None :: G ++ Some y :: T.
Proof.
  intros Hsh Hf Hv rp re. pose proof Hsh as [Hc Hlen].
  pose proof (f_equal length Hv) as Hll. rewrite length_view in Hll.
  rewrite !length_app in Hll. cbn [length] in Hll. rewrite length_app in Hll. cbn [length] in Hll.
  assert (L ++ Some y :: G ++ x :: T = (L ++ Some y :: G) ++ x :: T) as Hv2 by (by rewrite <- app_assoc).
  destruct (wr_slot b f (Z.of_nat (length L + S (length G))) (Some y)) as (l1 & Hw1 & Hl1 & Hr1);
    [done|done|lia|].
  destruct (wr_slot (set_buf l1 b) f (Z.of_nat (length L)) None) as (l2 & Hw2 & Hl2 & Hr2);
    [split; simpl; lia|done|simpl; lia|].
  exists l1, l2. subst rp re.
  rewrite !rd_slot by (done || lia). rewrite Nat2Z.id in *.
  split_and!; try done.
  - rewrite Hv, Hv2. apply list_lookup_middle. rewrite length_app. simpl. lia.
  - rewrite Hv. rewrite Nat2Z.id. by apply list_lookup_middle.
  - by rewrite Hl2.
  - rewrite Hr2. change (view f (set_buf l1 b)) with (rotate (Z.to_nat f) l1). rewrite Hr1, Hv, Hv2.
    rewrite insert_middle by (rewrite length_app; simpl; lia).
    rewrite <- app_assoc. simpl. by rewrite insert_middle by lia.
Qed.

(** The last slot of a gap, and the gap after one metric moved over it. *)
Lemma gap_last a (dl : list A) :
  (0 < a + length dl)%nat ->
  exists G x, replicate a None ++ (Some <$> dl) = G ++ [x] /\ S (length G) = (a + length dl)%nat /\
    ((x = None /\ dl = [] /\ None :: G = replicate a None) \/
     (exists d dl', x = Some d /\ dl = dl' ++ [d] /\
        None :: G = replicate (S a) None ++ (Some <$> dl'))).
Proof.
  intros H0'. destruct dl as [|d dl' _] using rev_ind.
  - destruct a as [|a]; [simpl in *; lia|]. exists (replicate a None), None.
    rewrite length_replicate. cbn [length fmap list_fmap]. rewrite app_nil_r.
    split_and!; [apply (replicate_cons_app a)|lia|by left].
  - exists (replicate a None ++ (Some <$> dl')), (Some d). rewrite fmap_app, app_assoc.
    split_and!; [done| |right; by exists d, dl'].
    rewrite !length_app, length_replicate, length_fmap. simpl. lia.
Qed.

(** The rotation loop moves the newer metrics [N] forward over [a] free slots and
    the [dl] oldest metrics, which it drops from the newest to the oldest. *)
Lemma reject_rotate_spec N fuel b f X a dl T :
  shaped b -> 0 <= f < cap b -> 0 <= first b < cap b ->
  view f b = X ++ (Some <$> N) ++ (replicate a None ++ (Some <$> dl)) ++ T ->
  (0 < a + length dl)%nat -> Z.of_nat (a + length dl) < cap b ->
  (length dl <= length N <= fuel)%nat ->
  exists l, length l = length (buf b) /\
    rotate (Z.to_nat f) l = X ++ replicate (a + length dl) None ++ (Some <$> N) ++ T /\
    forall w, reject_rotate fuel b (slot f (Z.of_nat (length X)) (cap b))
        (slot f (Z.of_nat (length X + length N)) (cap b))
        (slot f (Z.of_nat (length X + length N + (a + length dl))) (cap b)) w =
      w' ← drop_each b (reverse dl) w;
      Some (slot f (Z.of_nat (length X + (a + length dl))) (cap b),
        set_first (slot (first b) (Z.of_nat (length dl)) (cap b)) (set_buf l b), w').
Proof.
  revert fuel b a dl T. induction N as [|y N IH] using rev_ind;
    intros fuel b a dl T Hsh Hf Hfi Hv Hr0 Hrc Hdl; pose proof Hsh as [Hc Hlen].
  { destruct dl as [|d dl]; [|cbn in Hdl; lia]. exists (buf b). simpl in *.
    rewrite Nat.add_0_r, app_nil_r in *. split_and!; [done|done|].
    intros w. rewrite slot_0 by done. rewrite Nat.add_0_r.
    destruct fuel; simpl; rewrite Z.eqb_refl; simpl; by destruct b. }
  pose proof (f_equal length Hv) as Hll. rewrite length_view in Hll.
  rewrite !length_app, length_replicate, !length_fmap, length_app in Hll. cbn [length] in Hll.
  destruct (gap_last a dl Hr0) as (G & x & HG & Hlr & Hcase).
  rewrite length_app in Hdl. cbn [length] in Hdl. destruct fuel as [|fuel]; [lia|].
  rewrite HG, fmap_app in Hv.
  replace (X ++ ((Some <$> N) ++ (Some <$> [y])) ++ (G ++ [x]) ++ T)
    with ((X ++ (Some <$> N)) ++ Some y :: G ++ x :: T) in Hv
    by (by rewrite <- !app_assoc).
  destruct (rotate_step b f _ _ _ _ _ Hsh Hf Hv) as (l1 & l2 & Hre & Hrp & Hl1 & Hl2 & Hw1 & Hw2 & Hr2).
  rewrite length_app, length_fmap in Hre, Hrp, Hw1, Hw2. rewrite Hlr in Hre, Hw1.
  assert (slot f (Z.of_nat (length X)) (cap b) =?
    slot f (Z.of_nat (length X + length (N ++ [y]))) (cap b) = false) as Hne1.
  { apply Z.eqb_neq. intros E%slot_inj; rewrite ?length_app in *; simpl in *; lia. }
  assert (slot f (Z.of_nat (length X + length (N ++ [y]))) (cap b) =?
    slot f (Z.of_nat (length X + length (N ++ [y]) + (a + length dl))) (cap b) = false) as Hne2.
  { apply Z.eqb_neq. rewrite (Nat2Z.inj_add (_ + _)). apply slot_ne. lia. }
  assert (prev b (slot f (Z.of_nat (length X + length (N ++ [y]))) (cap b)) =
    slot f (Z.of_nat (length X + length N)) (cap b)) as Hp1
    by (rewrite prev_slot by done; f_equal; rewrite length_app; simpl; lia).
  assert (prev b (slot f (Z.of_nat (length X + length (N ++ [y]) + (a + length dl))) (cap b)) =
    slot f (Z.of_nat (length X + length N + (a + length dl))) (cap b)) as Hp2
    by (rewrite prev_slot by done; f_equal; rewrite length_app; simpl; lia).
  destruct Hcase as [(-> & -> & HG')|(d & dl' & -> & -> & HG')].
  - destruct (IH fuel (set_buf l2 b) a [] (Some y :: T)) as (l & Hl & Hrot & Hrun);
      [split; simpl; lia|done|done| |done|done|simpl; lia|].
    { change (view f (set_buf l2 b)) with (rotate (Z.to_nat f) l2). rewrite Hr2, <- HG'.
      simpl. by rewrite <- !app_assoc. }
    exists l. split_and!; [simpl in Hl; lia| |].
    { rewrite Hrot, fmap_app, <- app_assoc. done. }
    intros w. cbn [reject_rotate]. rewrite Hne1, Hne2, Hp1, Hp2, Hre. cbn [orb mbind option_bind].
    rewrite Hrp. cbn [mbind option_bind]. rewrite Hw1. cbn [mbind option_bind].
    rewrite Hw2. cbn [mbind option_bind]. apply Hrun.
  - set (b1 := set_first (next b (first b)) b).
    rewrite (length_app dl') in *. cbn [length] in *.
    assert (next b (first b) = slot (first b) 1 (cap b)) as Hnf
      by (rewrite <- (slot_0 (first b) (cap b)) at 1 by done; by apply next_slot).
    destruct (IH fuel (set_buf l2 b1) (S a) dl' (Some y :: T)) as (l & Hl & Hrot & Hrun);
      [split; simpl; lia|done|simpl; rewrite Hnf; by apply slot_range| |lia|simpl; lia|lia|].
    { change (view f (set_buf l2 b1)) with (rotate (Z.to_nat f) l2). rewrite Hr2.
      change (None :: G ++ Some y :: T) with ((None :: G) ++ Some y :: T).
      rewrite HG'. by rewrite <- !app_assoc. }
    exists l. replace (a + (length dl' + 1))%nat with (S a + length dl')%nat in * by lia.
    split_and!; [simpl in Hl; lia| |].
    { rewrite Hrot, fmap_app, <- app_assoc. done. }
    intros w. cbn [reject_rotate]. rewrite Hne1, Hne2, Hp1, Hp2, Hre. cbn [orb mbind option_bind].
    rewrite reverse_app. cbn [reverse app rev_append drop_each].
    destruct (metricDropped b (Some d) w) as [w1|]; [|done]. cbn [mbind option_bind].
    change (rd (set_first (next b (first b)) b)) with (rd b). rewrite Hrp. cbn [mbind option_bind].
    rewrite (wr_set_first _ _ _ _ _ Hw1). cbn [mbind option_bind].
    rewrite (wr_set_first _ _ _ _ _ Hw2). cbn [mbind option_bind].
    rewrite (drop_each_ext b (set_buf l2 b1)) by done. etransitivity; [exact (Hrun w1)|].
    simpl. rewrite Hnf, slot_slot by done.
    by replace (1 + Z.of_nat (length dl')) with (Z.of_nat (length dl' + 1)) by lia.
Qed.
Lemma reject_copy_drop b ys i restore re w :
  restore <= i ->
  reject_copy b (Some <$> ys) i restore re w = w' ← drop_each b ys w; Some (b, w').
Proof.
  revert i w. induction ys as [|y ys IH]; intros i w Hi; [done|].
  cbn [fmap list_fmap reject_copy drop_each]. rewrite (proj2 (Z.ltb_ge _ _)) by done.
  destruct (metricDropped b (Some y) w) as [w1|]; [|done]. cbn [mbind option_bind].
  apply IH. lia.
Qed.

(** The restore loop fills the gap the rotation left, newest first, and drops
    the part of the batch that has no room. *)
Lemma reject_copy_spec xs ys b f X T i :
  shaped b -> 0 <= f < cap b -> 0 <= size b <= cap b ->
  view f b = X ++ replicate (length xs) None ++ T ->
  exists l, length l = length (buf b) /\
    rotate (Z.to_nat f) l = X ++ (Some <$> reverse xs) ++ T /\
    forall w, reject_copy b (Some <$> xs ++ ys) i (i + Z.of_nat (length xs))
        (slot f (Z.of_nat (length X + length xs)) (cap b)) w =
      w' ← drop_each b ys w;
      Some (set_size (min (size b + Z.of_nat (length xs)) (cap b)) (set_buf l b), w').
Proof.
  revert b T i. induction xs as [|x xs IH]; intros b T i Hsh Hf Hs Hv; pose proof Hsh as [Hc Hlen].
  { exists (buf b). split_and!; [done|done|]. intros w. rewrite reject_copy_drop by (simpl; lia).
    unfold min. simpl. rewrite Z.add_0_r, (proj2 (Z.ltb_ge _ _)) by lia. by destruct b. }
  pose proof (f_equal length Hv) as Hll. rewrite length_view in Hll.
  rewrite !length_app, length_replicate in Hll. cbn [length] in *.
  destruct (wr_slot b f (Z.of_nat (length X + length xs)) (Some x)) as (l1 & Hw & Hl1 & Hr1);
    [done|done|lia|].
  set (b1 := set_size (min (size b + 1) (cap b)) (set_buf l1 b)).
  destruct (IH b1 (Some x :: T) (i + 1)) as (l & Hl & Hrot & Hrun); [split; simpl; lia|done| | |].
  { unfold b1, min. simpl. destruct (Z.ltb_spec (cap b) (size b + 1)); lia. }
  { change (view f b1) with (rotate (Z.to_nat f) l1). rewrite Hr1, Hv, Nat2Z.id.
    cbn [replicate]. rewrite replicate_cons_app, <- !app_assoc, app_assoc. cbn [app].
    rewrite insert_middle by (rewrite length_app, length_replicate; lia). by rewrite <- app_assoc. }
  exists l. split_and!; [simpl in Hl; lia| |].
  { rewrite Hrot, reverse_cons, fmap_app, <- app_assoc. done. }
  intros w. cbn [fmap list_fmap app reject_copy].
  rewrite (proj2 (Z.ltb_lt _ _)) by lia. rewrite prev_slot by done.
  replace (Z.of_nat (length X + S (length xs)) - 1) with (Z.of_nat (length X + length xs)) by lia.
  rewrite Hw. cbn [mbind option_bind].
  replace (i + Z.of_nat (S (length xs))) with (i + 1 + Z.of_nat (length xs)) by lia.
  etransitivity; [exact (Hrun w)|]. rewrite (drop_each_ext b1 b) by done.
  destruct (drop_each b ys w); [|done]. simpl. unfold b1, set_size, set_buf. simpl. do 3 f_equal.
  unfold min. zcases; lia.
Qed.

(** [marked b old new n]: a batch of [n] metrics was taken between [old] and
    [new], and the batch mark still points there. *)
Definition marked b (old new : list A) (n : nat) : Prop :=
  rep b (old ++ new) /\
  batchFirst b = slot (first b) (Z.of_nat (length old)) (cap b) /\
  Z.of_nat (length old + n) <= cap b.

(** How many metrics of the batch [Reject] restores, and how many older ones it
    drops for them. *)
Definition restored b (new : list A) (n : nat) : nat :=
  Nat.min n (Z.to_nat (cap b) - length new).
Definition displaced b (old new : list A) (n : nat) : nat :=
  length old + length new + restored b new n - Z.to_nat (cap b).

Lemma reject_bounds b old new n :
  marked b old new n ->
  (displaced b old new n <= length old)%nat /\ (displaced b old new n <= length new)%nat /\
  (restored b new n = 0 \/ Z.of_nat (restored b new n) = cap b -> displaced b old new n = 0)%nat.
Proof.
  intros ([Hsh Hf Hsz Hle Hl Hv] & Hb & Hn). rewrite length_app in *.
  unfold displaced, restored. destruct Hsh. lia.
Qed.

(** The view from the oldest metric that stays. *)
Lemma displaced_view b old new n :
  marked b old new n ->
  let D := displaced b old new n in
  view (slot (first b) (Z.of_nat D) (cap b)) b =
    (Some <$> drop D old) ++ (Some <$> new) ++
    (replicate (restored b new n - D) None ++ (Some <$> take D old)) ++
    replicate (Z.to_nat (cap b) - (length old + length new + (restored b new n - D))) None.
Proof.
  intros Hm D. pose proof (reject_bounds _ _ _ _ Hm) as (HD1 & HD2 & HD3).
  fold D in HD1, HD2, HD3. destruct Hm as ([[Hc Hlen] Hf Hsz Hle Hl Hv] & Hb & Hn).
  rewrite length_app in *.
  unfold view. rewrite (rotate_slot _ _ _ (cap b)) by lia.
  change (rotate (Z.to_nat (first b)) (buf b)) with (view (first b) b).
  assert (D = displaced b old new n) as Hdef by done. clearbody D.
  unfold displaced, restored in *.
  rewrite Hv, Nat2Z.id. destruct (decide (D = 0)%nat) as [->|HD].
  { rewrite rotate_drop_take by
      (rewrite !length_app, length_fmap, length_replicate, length_app; lia).
    rewrite !drop_0, !take_0, !app_nil_r, fmap_app, <- app_assoc. cbn [fmap list_fmap].
    rewrite ?app_nil_r, <- replicate_add. do 3 f_equal. lia. }
  rewrite rotate_drop_take by
    (rewrite !length_app, length_fmap, length_replicate, length_app; lia).
  rewrite drop_app_le, take_app_le by (rewrite length_fmap, length_app; lia).
  rewrite <- fmap_drop, <- fmap_take, drop_app_le, take_app_le by lia.
  rewrite fmap_app, <- !app_assoc. do 2 f_equal.
  assert (Nat.min n (Z.to_nat (cap b) - length new) - D =
    Z.to_nat (cap b) - (length old + length new))%nat as -> by lia.
  f_equal. replace (Z.to_nat (cap b) - _)%nat with 0%nat by lia. by rewrite app_nil_r.
Qed.

(** The rotation of [Reject], the early exits included: it opens a gap of
    [restored] slots between the older and the newer metrics. *)
Lemma reject_rotation b old new n :
  marked b old new n -> (0 < n)%nat ->
  let D := displaced b old new n in let r := restored b new n in
  let f := slot (first b) (Z.of_nat D) (cap b) in
  exists l T, length l = length (buf b) /\
    rotate (Z.to_nat f) l = (Some <$> drop D old) ++ replicate r None ++ (Some <$> new) ++ T /\
    T = replicate (Z.to_nat (cap b) - (length old - D + r + length new)) None /\
    forall w, reject_rotate (Z.to_nat (cap b)) (set_last (nextby b (last b) (Z.of_nat r)) b)
        (batchFirst b) (last b) (nextby b (last b) (Z.of_nat r)) w =
      w' ← drop_each b (reverse (take D old)) w;
      Some (slot f (Z.of_nat (length old - D + r)) (cap b),
        set_first f (set_buf l (set_last (nextby b (last b) (Z.of_nat r)) b)), w').
Proof.
  intros Hm Hn0 D r f. pose proof (displaced_view _ _ _ _ Hm) as Hview.
  cbn zeta in Hview. fold D r f in Hview.
  pose proof (reject_bounds _ _ _ _ Hm) as (HD1 & HD2 & HD3). fold D r in HD1, HD2, HD3.
  assert (D = length old + length new + r - Z.to_nat (cap b))%nat as HDdef by done.
  assert (r = Nat.min n (Z.to_nat (cap b) - length new))%nat as Hrdef by done.
  destruct Hm as (Hrep & Hb & Hn). destruct Hrep as [Hsh Hf Hsz Hle Hl Hv].
  pose proof Hsh as [Hc Hlen]. rewrite length_app in *. clearbody D r.
  assert (0 <= f < cap b) as Hf' by (by apply slot_range).
  assert (forall k, slot (first b) (Z.of_nat D + k) (cap b) = slot f k (cap b)) as Hslot
    by (intros; symmetry; by apply slot_slot).
  assert (f = slot (first b) (Z.of_nat D) (cap b)) as Hfd by done. clearbody f.
  rewrite Hl, nextby_slot, Hb by lia. rewrite <- Nat2Z.inj_add.
  destruct (decide (r = 0 \/ Z.of_nat r = cap b)%nat) as [Hex|Hin].
  - rewrite (HD3 Hex) in *. exists (buf b), (replicate (Z.to_nat (cap b) - (length old + r + length new)) None).
    split_and!; [done| |f_equal; lia|].
    + etransitivity; [exact Hview|]. rewrite drop_0, take_0, app_nil_r. f_equal.
      destruct Hex as [->|Hex]; [simpl; do 2 f_equal; lia|].
      destruct new; [|simpl in *; lia]. simpl. f_equal; f_equal; lia.
    + intros w. cbn [take reverse rev_append drop_each]. binds.
      assert (slot (first b) (Z.of_nat (length old + length new + r)) (cap b) =
        slot (first b) (Z.of_nat (length old + length new)) (cap b)) as E.
      { destruct Hex as [->|Hex]; [by rewrite Nat.add_0_r|].
        by rewrite Nat2Z.inj_add, Hex, slot_lap. }
      rewrite E, <- Hslot, Z.add_0_l, Nat.sub_0_r, Hfd, slot_0 by done.
      assert (slot (first b) (Z.of_nat (length old + r)) (cap b) =
        slot (first b) (Z.of_nat (length old + length new)) (cap b)) as ->.
      { destruct Hex as [Hr0|Hex].
        2: { replace (Z.of_nat (length old + r)) with (0 + cap b) by lia.
             rewrite slot_lap by done. f_equal. lia. }
        replace (Z.of_nat (length old + length new)) with (0 + cap b) by lia.
        rewrite slot_lap by done. f_equal. lia. }
      destruct (Z.to_nat (cap b)); cbn [reject_rotate]; rewrite Z.eqb_refl, orb_true_r; simpl;
        by destruct b.
  - set (b1 := set_last _ b).
    destruct (reject_rotate_spec new (Z.to_nat (cap b)) b1 f (Some <$> drop D old) (r - D)
      (take D old) (replicate (Z.to_nat (cap b) - (length old + length new + (r - D))) None))
      as (l & Hll & Hrot & Hrun); try done; rewrite ?length_take; try (simpl; lia).
    rewrite length_take, length_fmap, length_drop in *.
    replace (r - D + Nat.min D (length old))%nat with r in * by lia.
    exists l. eexists. split_and!; [done|exact Hrot|f_equal; lia|].
    intros w. rewrite (drop_each_ext b b1) by done.
    assert (forall k, slot (first b) (Z.of_nat (D + k)) (cap b) = slot f (Z.of_nat k) (cap b)) as Hs
      by (intros; rewrite Nat2Z.inj_add; apply Hslot).
    specialize (Hrun w). change (cap b1) with (cap b) in Hrun. rewrite <- !Hs in Hrun.
    replace (D + (length old - D))%nat with (length old) in Hrun by lia.
    replace (D + (length old - D + length new))%nat with (length old + length new)%nat in Hrun by lia.
    replace (D + (length old - D + length new + r))%nat with (length old + length new + r)%nat in Hrun by lia.
    rewrite Hrun. destruct (drop_each b1 (reverse (take D old)) w) as [w1|]; [|done]. simpl.
    rewrite <- Hs. do 4 f_equal. rewrite Hfd. do 2 f_equal. lia.
Qed.
(** What [Reject] leaves in the queue and what it drops, in order. *)
Definition reject_queue b (old new batch : list A) : list A :=
  drop (displaced b old new (length batch)) old ++
  reverse (take (restored b new (length batch)) batch) ++ new.
Definition reject_drops b (old new batch : list A) : list A :=
  reverse (take (displaced b old new (length batch)) old) ++
  drop (restored b new (length batch)) batch.

Lemma Reject_spec b old new batch :
  marked b old new (length batch) -> batch <> [] ->
  exists b', rep b' (reject_queue b old new batch) /\
    cap b' = cap b /\ bstats b' = bstats b /\ batchFirst b' = 0 /\ batchSize b' = 0 /\
    forall w, Reject b (Some <$> batch) w =
      w' ← drop_each b (reject_drops b old new batch) w;
      Some (b', setBufferSize b' w').
Proof.
  intros Hm Hne. assert (0 < length batch)%nat as Hn0 by (destruct batch; [done|simpl; lia]).
  pose proof (reject_bounds _ _ _ _ Hm) as (HD1 & HD2 & HD3).
  destruct (reject_rotation _ _ _ _ Hm Hn0) as (l & T & Hll & Hrot & HT & Hrun).
  destruct Hm as ([Hsh Hf Hsz Hle Hl Hv] & Hb & Hn). pose proof Hsh as [Hc Hlen].
  unfold reject_queue, reject_drops in *. rewrite length_app in *.
  set (D := displaced b old new (length batch)) in *.
  set (r := restored b new (length batch)) in *.
  set (f := slot (first b) (Z.of_nat D) (cap b)) in *.
  assert (D = length old + length new + r - Z.to_nat (cap b))%nat as HDdef by done.
  assert (r = Nat.min (length batch) (Z.to_nat (cap b) - length new))%nat as Hrdef by done.
  assert (min (Z.of_nat (length batch)) (cap b - size b + dist b (first b) (batchFirst b)) =
    Z.of_nat r) as Hres.
  { assert (dist b (first b) (batchFirst b) = Z.of_nat (length old)) as ->.
    { rewrite Hb. unfold dist, slot. rewrite mod_one_lap by lia. case_decide; zcases; lia. }
    unfold min. zcases; lia. }
  set (re0 := nextby b (last b) (Z.of_nat r)) in *.
  set (b1 := set_first f (set_buf l (set_last re0 b))) in *.
  assert (length (take r batch) = r) as Htk by (rewrite length_take; lia).
  destruct (reject_copy_spec (take r batch) (drop r batch) b1 f (Some <$> drop D old)
    ((Some <$> new) ++ T) 0) as (l' & Hl' & Hrot' & Hrun').
  { split; simpl; lia. }
  { by apply slot_range. }
  { simpl. lia. }
  { rewrite Htk. exact Hrot. }
  rewrite take_drop, Htk, length_fmap, length_drop in Hrun'. simpl in Hl'.
  set (b2 := set_size _ _) in Hrun'.
  exists (resetBatch b2). split; [|split_and!; try done].
  - assert (length (drop D old ++ reverse (take r batch) ++ new) =
      length old - D + r + length new)%nat as Hlq
      by (rewrite !length_app, length_drop, length_reverse, Htk; lia).
    constructor; rewrite ?Hlq; cbn [first last size cap buf resetBatch set_batch b2 set_size set_buf b1 set_first set_last].
    + split; simpl; lia.
    + by apply slot_range.
    + unfold min. rewrite Hsz. zcases; lia.
    + lia.
    + unfold re0, f. rewrite Hl, nextby_slot, slot_slot by lia. f_equal.
      lia.
    + etransitivity; [exact Hrot'|]. rewrite !fmap_app, <- !app_assoc, HT. done.
  - intros w. destruct batch as [|m batch]; [done|]. set (bt := m :: batch) in *.
    change (Reject b (Some <$> bt) w) with
      (let restore := min (Z.of_nat (length (Some <$> bt)))
         (cap b - size b + dist b (first b) (batchFirst b)) in
       let re := nextby b (last b) restore in
       '(re, b, w) ← reject_rotate (Z.to_nat (cap b)) (set_last re b) (batchFirst b) (last b) re w;
       '(b, w) ← reject_copy b (Some <$> bt) 0 restore re w;
       Some (resetBatch b, setBufferSize (resetBatch b) w)).
    cbn zeta. rewrite length_fmap, Hres. fold re0. rewrite Hrun, drop_each_app.
    destruct (drop_each b (reverse (take D old)) w) as [w1|]; [|done]. binds.
    fold b1. change (cap b) with (cap b1). setoid_rewrite Hrun'. rewrite (drop_each_ext b b1) by done.
    destruct (drop_each b1 (drop r bt) w1) as [w2|]; done.
Qed.

End Specs.

Section Refinement.
Context `{MapRange} {A W : Type} `{StatEnv W} `{MetricEnv A W}.
Implicit Types (b : Buffer A) (w : W).

(** ** Refinement: a bounded queue with an outstanding batch

    The contract of the buffer: a queue of at most [c] metrics from which a batch
    has been lent out of the middle. [q_left] counts the slots of the lent batch
    that newer metrics have not reused; the buffer follows its mark only down to
    zero, so that the contract ends ([None]) when one more metric arrives. *)

Inductive BEvent :=
| EvAdded
| EvWritten (m : A)
| EvDropped (m : A)
| EvSize (n : Z).

Definition run_event b (e : BEvent) w : option W :=
  match e with
  | EvAdded => Some (metricAdded b w)
  | EvWritten m => metricWritten b (Some m) w
  | EvDropped m => metricDropped b (Some m) w
  | EvSize n => Some (stat_Set (BufferSize (bstats b)) n w)
  end.
Fixpoint run_events b (es : list BEvent) w : option W :=
  match es with
  | [] => Some w
  | e :: es' => w ← run_event b e w; run_events b es' w
  end.

Record Q := mkQ {
  q_old : list A;
  q_batch : list A;
  q_new : list A;
  q_left : nat;
}.

Definition q_len (q : Q) : nat := length (q_old q) + length (q_new q).
Definition q_size (c : nat) (q : Q) : BEvent := EvSize (Z.of_nat (Nat.min (q_len q + q_left q) c)).

(** The newest [c] elements. *)
Definition newest (c : nat) (l : list A) : list A := drop (length l - c) l.

Definition q_add (c : nat) (q : Q) (m : A) : option (Q * list BEvent) :=
  if decide (q_len q = c) then
    match q_old q, q_new q with
    | x :: old', new => Some (mkQ old' (q_batch q) (new ++ [m]) (q_left q), [EvDropped x; EvAdded])
    | [], x :: new' =>
      if decide (q_batch q <> [] /\ q_left q = 0%nat) then None
      else Some (mkQ [] (q_batch q) (new' ++ [m]) (q_left q - 1), [EvDropped x; EvAdded])
    | [], [] => None
    end
  else Some (mkQ (q_old q) (q_batch q) (q_new q ++ [m]) (q_left q), [EvAdded]).

Fixpoint q_adds (c : nat) (q : Q) (ms : list A) : option (Q * list BEvent) :=
  match ms with
  | [] => Some (q, [])
  | m :: ms' =>
    '(q, es) ← q_add c q m;
    '(q, es') ← q_adds c q ms';
    Some (q, es ++ es')
  end.

(** The operations of the output that owns the buffer. *)
Inductive BOp :=
| OAdd (ms : list A)
| OBatch (n : nat)
| OAccept
| OReject.

Definition q_step (c : nat) (o : BOp) (q : Q) : option (Q * list BEvent) :=
  match o with
  | OAdd ms => '(q, es) ← q_adds c q ms; Some (q, es ++ [q_size c q])
  | OBatch n =>
    match q_batch q with
    | [] =>
      let all := q_old q ++ q_new q in
      let o := Nat.min (length all) n in
      let k := (length all - o)%nat in
      Some (mkQ (take k all) (reverse (drop k all)) [] o, [])
    | _ => None
    end
  | OAccept =>
    let q' := mkQ (q_old q) [] (q_new q) 0 in
    Some (q', (EvWritten <$> q_batch q) ++ [q_size c q'])
  | OReject =>
    match q_batch q with
    | [] => Some (q, [])
    | batch =>
      let r := Nat.min (length batch) (c - length (q_new q)) in
      let d := (q_len q + r - c)%nat in
      let q' := mkQ (newest c (q_old q ++ reverse batch ++ q_new q)) [] [] 0 in
      Some (q', (EvDropped <$> reverse (take d (q_old q)) ++ drop r batch) ++ [q_size c q'])
    end
  end.

Fixpoint q_run (c : nat) (os : list BOp) (q : Q) : option (Q * list BEvent) :=
  match os with
  | [] => Some (q, [])
  | o :: os' =>
    '(q, es) ← q_step c o q;
    '(q, es') ← q_run c os' q;
    Some (q, es ++ es')
  end.

(** The same operations on the buffer; the output holds the batch. *)
Definition b_step (o : BOp) (s : Buffer A * list (option A)) w :
    option (Buffer A * list (option A) * W) :=
  let '(b, held) := s in
  match o with
  | OAdd ms => '(_, b, w) ← Add b ms w; Some (b, held, w)
  | OBatch n => '(out, b) ← Batch b (Z.of_nat n); Some (b, out, w)
  | OAccept => '(b, w) ← Accept b held w; Some (b, [], w)
  | OReject => '(b, w) ← Reject b held w; Some (b, [], w)
  end.
Fixpoint b_run (os : list BOp) (s : Buffer A * list (option A)) w :
    option (Buffer A * list (option A) * W) :=
  match os with
  | [] => Some (s, w)
  | o :: os' => '(s, w) ← b_step o s w; b_run os' s w
  end.

(** The abstraction relation. *)
Record refines b (held : list (option A)) (q : Q) : Prop := {
  ref_rep : rep b (q_old q ++ q_new q);
  ref_held : held = Some <$> q_batch q;
  ref_left : batchSize b = Z.of_nat (q_left q);
  ref_none : q_batch q = [] -> q_left q = 0%nat;
  ref_mark : q_batch q <> [] -> marked b (q_old q) (q_new q) (length (q_batch q));
}.

Lemma run_events_app b es es' w :
  run_events b (es ++ es') w = w' ← run_events b es w; run_events b es' w'.
Proof.
  revert w. induction es as [|e es IH]; intros w; [done|]. cbn [run_events app].
  destruct (run_event b e w); binds; [apply IH|done].
Qed.

Lemma run_events_ext b b' es w : bstats b = bstats b' -> run_events b es w = run_events b' es w.
Proof.
  intros E. revert w. induction es as [|e es IH]; intros w; [done|]. cbn [run_events].
  assert (run_event b e w = run_event b' e w) as ->.
  { destruct e; unfold run_event, metricAdded, metricWritten, metricDropped; by rewrite E. }
  destruct (run_event b' e w); binds; [apply IH|done].
Qed.

Lemma drop_each_events b xs w : drop_each b xs w = run_events b (EvDropped <$> xs) w.
Proof.
  revert w. induction xs as [|x xs IH]; intros w; [done|]. cbn [drop_each fmap list_fmap run_events].
  unfold run_event at 1. destruct (metricDropped b (Some x) w); binds; [apply IH|done].
Qed.

Lemma written_events b xs w : written_loop b (Some <$> xs) w = run_events b (EvWritten <$> xs) w.
Proof.
  revert w. induction xs as [|x xs IH]; intros w; [done|]. cbn [written_loop fmap list_fmap run_events].
  unfold run_event at 1. destruct (metricWritten b (Some x) w); binds; [apply IH|done].
Qed.

Lemma Len_refines b held q :
  refines b held q -> Len b = Z.of_nat (Nat.min (q_len q + q_left q) (Z.to_nat (cap b))).
Proof.
  intros [[[Hc _] _ Hsz _ _ _] _ Hlf _ _]. unfold Len, min, q_len. rewrite length_app in Hsz.
  zcases; lia.
Qed.

(** The mark stays on the boundary between the older and the newer metrics. *)
Lemma add_mark_refines b b' held q q' es m :
  refines b held q -> q_add (Z.to_nat (cap b)) q m = Some (q', es) ->
  cap b' = cap b -> (batchFirst b', batchSize b') = add_mark b ->
  first b' = (if size b =? cap b then next b (first b) else first b) ->
  rep b' (q_old q' ++ q_new q') ->
  refines b' held q'.
Proof.
  intros [Hrep -> Hlf Hnone Hmk] Hadd Hcap Hmark Hfirst Hrep'.
  pose proof Hrep as [[Hc Hlen] Hf Hsz Hle Hl Hv]. rewrite length_app in *.
  assert (next b (first b) = slot (first b) 1 (cap b)) as Hn1
    by (rewrite <- (slot_0 (first b) (cap b)) at 1 by done; by apply next_slot).
  unfold q_add, q_len in Hadd. unfold add_mark in Hmark.
  destruct q as [old batch new left]. simpl in *.
  destruct (Z.eqb_spec (size b) (cap b)) as [Hfull|Hfull].
  2: { rewrite decide_False in Hadd by lia. injection Hadd as <- <-. simpl in *.
       injection Hmark as Hbf Hbs. constructor; simpl; try done; try congruence.
       intros Hb. destruct (Hmk Hb) as (_ & Hm & Hn). split_and!; [done|congruence|lia]. }
  rewrite decide_True in Hadd by lia.
  assert (last b = first b) as Hlast.
  { rewrite Hl. replace (Z.of_nat (length old + length new)) with (0 + cap b) by lia.
    rewrite slot_lap by done. by apply slot_0. }
  rewrite Hlast in Hmark. destruct old as [|x old].
  - destruct new as [|x new]; [done|]. case_decide as Hd; [done|]. injection Hadd as <- <-.
    simpl in *. destruct (decide (batch = [])) as [->|Hb].
    + rewrite (Hnone eq_refl) in *. rewrite Hlf, andb_false_r in Hmark. injection Hmark as Hbf Hbs.
      constructor; simpl; try done; lia.
    + destruct (Hmk Hb) as (_ & Hm & Hn). rewrite slot_0 in Hm by done.
      assert (left <> 0%nat) as Hl0 by naive_solver.
      rewrite <- Hm, Z.eqb_refl, (proj2 (Z.ltb_lt _ _)) in Hmark by lia.
      injection Hmark as Hbf Hbs. constructor; simpl; try done; [lia|].
      intros _. split_and!; [done| |simpl in *; lia]. rewrite Hbf, Hfirst, Hm, Hn1, Hcap. simpl.
      rewrite slot_0; [done|by apply slot_range].
  - injection Hadd as <- <-. simpl in *. destruct (decide (batch = [])) as [->|Hb].
    + rewrite (Hnone eq_refl) in *. rewrite Hlf, andb_false_r in Hmark. injection Hmark as Hbf Hbs.
      constructor; simpl; try done; lia.
    + destruct (Hmk Hb) as (_ & Hm & Hn). assert (0 < length batch)%nat by (destruct batch; [done|simpl; lia]).
      assert (first b =? batchFirst b = false) as Hneq.
      { pose proof (slot_ne (first b) 0 (Z.of_nat (length (x :: old))) (cap b)) as E.
        rewrite slot_0, Z.add_0_l, <- Hm in E by done. apply Z.eqb_neq, E. simpl in *. lia. }
      rewrite Hneq in Hmark. injection Hmark as Hbf Hbs.
      constructor; simpl; try done; [lia|]. intros _. split_and!; [done| |simpl in *; lia].
      rewrite Hbf, Hm, Hfirst, Hn1, Hcap, slot_slot by done. f_equal. simpl. lia.
Qed.

Lemma add_refines b held q q' es m :
  refines b held q -> q_add (Z.to_nat (cap b)) q m = Some (q', es) ->
  exists b' d, refines b' held q' /\ cap b' = cap b /\ bstats b' = bstats b /\
    forall w, add b m w = w' ← run_events b es w; Some (d, b', w').
Proof.
  intros Href Hadd. pose proof (ref_rep _ _ _ Href) as Hrep.
  destruct (add_spec b _ m Hrep) as (b' & Hrep' & Hcap & Hst & Hmark & Hfirst & Hrun).
  pose proof (rep_shaped _ _ Hrep) as [Hc _].
  assert (add_queue (cap b) (q_old q ++ q_new q) m = q_old q' ++ q_new q' /\
    (EvDropped <$> add_drops (cap b) (q_old q ++ q_new q)) ++ [EvAdded] = es) as [Hq Hes].
  { unfold add_queue, add_drops. unfold q_add, q_len in Hadd. rewrite length_app.
    destruct q as [old batch new left]. simpl in *. case_decide as Hd.
    - rewrite (proj2 (Z.eqb_eq _ _)) by lia. destruct old as [|x old]; simpl in *.
      + destruct new as [|x new]; [done|]. case_decide; [done|]. injection Hadd as <- <-.
        simpl. by rewrite !drop_0.
      + injection Hadd as <- <-. simpl. by rewrite drop_0, <- app_assoc.
    - rewrite (proj2 (Z.eqb_neq _ _)) by lia. injection Hadd as <- <-. by rewrite <- app_assoc. }
  rewrite Hq in Hrep'. exists b'. eexists. split_and!; [by eapply add_mark_refines|done|done|].
  intros w. rewrite Hrun, <- Hes, run_events_app, drop_each_events.
  by destruct (run_events b _ w).
Qed.

Lemma adds_refines ms b held q q' es d0 :
  refines b held q -> q_adds (Z.to_nat (cap b)) q ms = Some (q', es) ->
  exists b' d, refines b' held q' /\ cap b' = cap b /\ bstats b' = bstats b /\
    forall w, add_loop b ms d0 w = w' ← run_events b es w; Some (d, b', w').
Proof.
  revert b q es d0. induction ms as [|m ms IH]; intros b q es d0 Href Hq; cbn [q_adds] in Hq.
  { injection Hq as <- <-. exists b, d0. split_and!; done. }
  apply bind_Some in Hq as ([q1 es1] & Hq1 & Hq). apply bind_Some in Hq as ([q2 es2] & Hq2 & Hq).
  injection Hq as -> <-.
  destruct (add_refines _ _ _ _ _ _ Href Hq1) as (b1 & d1 & Href1 & Hc1 & Hs1 & Hr1).
  rewrite <- Hc1 in Hq2.
  destruct (IH _ _ _ (if d1 =? 0 then d0 else d0 + d1) Href1 Hq2) as (b2 & d2 & Href2 & Hc2 & Hs2 & Hr2).
  exists b2, d2. split_and!; [done|congruence|congruence|]. intros w. cbn [add_loop].
  rewrite Hr1, run_events_app. destruct (run_events b es1 w) as [w1|]; [|done]. binds.
  rewrite Hr2. by rewrite (run_events_ext b1 b).
Qed.

Lemma reject_queue_newest b old new batch :
  marked b old new (length batch) ->
  reject_queue b old new batch = newest (Z.to_nat (cap b)) (old ++ reverse batch ++ new).
Proof.
  intros ([[Hc _] _ _ Hle _ _] & _ & Hn). unfold reject_queue, newest, displaced, restored.
  rewrite !length_app, length_reverse in *. set (c := Z.to_nat (cap b)).
  destruct (decide (length batch <= c - length new)%nat) as [Hr|Hr].
  - rewrite Nat.min_l, take_ge by lia. rewrite drop_app_le by lia. f_equal. f_equal. lia.
  - rewrite Nat.min_r by lia.
    rewrite (drop_ge old), drop_app_ge by lia. rewrite drop_app_le by (rewrite length_reverse; lia).
    rewrite reverse_take. simpl. f_equal. f_equal. lia.
Qed.

Lemma step_batch_refines n b held q q' es :
  refines b held q -> q_step (Z.to_nat (cap b)) (OBatch n) q = Some (q', es) ->
  exists b' held', refines b' held' q' /\ cap b' = cap b /\ bstats b' = bstats b /\
    forall w, b_step (OBatch n) (b, held) w = w' ← run_events b es w; Some (b', held', w').
Proof.
  intros Href Hq. cbn [q_step] in Hq.
  pose proof Href as [Hrep -> Hlf Hnone _].
  destruct (q_batch q) as [|x bt] eqn:Hbt; [|done]. injection Hq as <- <-.
  destruct (Batch_spec b _ (Z.of_nat n) Hrep) as (b' & Hb & Hrep' & Hc & Hs & Hfi & H0' & H1'); [lia|].
  assert (out_len (q_old q ++ q_new q) (Z.of_nat n) = Nat.min (length (q_old q ++ q_new q)) n) as Ho
    by (unfold out_len, min; zcases; lia).
  rewrite Ho in *. set (all := q_old q ++ q_new q) in *. set (o := Nat.min (length all) n) in *.
  exists b'. eexists. split_and!; [|done|done|intros w; cbn [b_step run_events]; by rewrite Hb].
  assert (length (reverse (drop (length all - o) all)) = o) as Hlo
    by (rewrite length_reverse, length_drop; lia).
  constructor; cbn [q_old q_new q_batch q_left]; rewrite ?app_nil_r; try done.
  - destruct (decide (o = 0)%nat) as [E|E]; [|apply H1'; lia].
    rewrite (H0' E), Hlf, Hnone by done. lia.
  - intros E. by rewrite <- Hlo, E.
  - intros E. assert (0 < o)%nat as Ho0
      by (rewrite <- Hlo; destruct (reverse _); [done|simpl; lia]).
    split; [by rewrite app_nil_r|]. rewrite Hlo, length_take, Hfi, Hc.
    destruct (H1' Ho0) as [-> _]. pose proof (rep_le _ _ Hrep).
    split; [f_equal; lia|]. fold all in H2. lia.
Qed.

Lemma step_reject_refines b held q q' es :
  refines b held q -> q_step (Z.to_nat (cap b)) OReject q = Some (q', es) ->
  exists b' held', refines b' held' q' /\ cap b' = cap b /\ bstats b' = bstats b /\
    forall w, b_step OReject (b, held) w = w' ← run_events b es w; Some (b', held', w').
Proof.
  intros Href Hq. cbn [q_step] in Hq.
  pose proof Href as [Hrep -> Hlf Hnone Hmk].
  destruct (q_batch q) as [|x bt] eqn:Hbt.
  { injection Hq as <- <-. exists b, []. split_and!; done. }
  assert (marked b (q_old q) (q_new q) (length (x :: bt))) as Hm by (by apply Hmk).
  destruct (Reject_spec b _ _ (x :: bt) Hm) as (b' & Hrep' & Hc & Hs & Hbf & Hbs & Hr); [done|].
  rewrite reject_queue_newest in Hrep' by done. injection Hq as <- <-.
  set (bt' := x :: bt) in *. set (nq := newest _ _) in *.
  assert (refines b' [] (mkQ nq [] [] 0)) as Href'.
  { constructor; simpl; try done. by rewrite app_nil_r. }
  exists b', []. split_and!; [done..|]. intros w. cbn [b_step]. rewrite Hr, run_events_app.
  assert (reject_drops b (q_old q) (q_new q) bt' =
    reverse (take (q_len q + Nat.min (length bt') (Z.to_nat (cap b) - length (q_new q)) - Z.to_nat (cap b))
      (q_old q)) ++ drop (Nat.min (length bt') (Z.to_nat (cap b) - length (q_new q))) bt') as -> by done.
  rewrite drop_each_events.
  destruct (run_events b (EvDropped <$> _) w) as [w1|]; [|done]. binds.
  unfold setBufferSize. rewrite (Len_refines _ _ _ Href'), Hc. cbn. by rewrite Hs.
Qed.

Lemma step_refines o b held q q' es :
  refines b held q -> q_step (Z.to_nat (cap b)) o q = Some (q', es) ->
  exists b' held', refines b' held' q' /\ cap b' = cap b /\ bstats b' = bstats b /\
    forall w, b_step o (b, held) w = w' ← run_events b es w; Some (b', held', w').
Proof.
  intros Href Hq. destruct o as [ms|n| |]; cbn [q_step] in Hq.
  - apply bind_Some in Hq as ([q1 es1] & Hq1 & Hq). injection Hq as -> <-.
    destruct (adds_refines ms b held q q' es1 0 Href Hq1) as (b' & d & Href' & Hc & Hs & Hr).
    exists b', held. split_and!; [done..|]. intros w. cbn [b_step]. unfold Add.
    rewrite Hr, run_events_app. destruct (run_events b es1 w) as [w1|]; [|done]. binds.
    unfold setBufferSize. rewrite (Len_refines _ _ _ Href'), Hc. cbn. by rewrite Hs.
  - by apply step_batch_refines with q.
  - injection Hq as <- <-. pose proof Href as [Hrep -> Hlf Hnone _].
    exists (resetBatch b), []. assert (refines (resetBatch b) [] (mkQ (q_old q) [] (q_new q) 0)) as Href'.
    { constructor; try done. by destruct Hrep. }
    split_and!; try done. intros w. cbn [b_step]. unfold Accept.
    rewrite written_events, run_events_app.
    destruct (run_events b (EvWritten <$> q_batch q) w) as [w1|]; [|done]. binds.
    unfold setBufferSize. by rewrite (Len_refines _ _ _ Href').
  - by apply step_reject_refines with q.
Qed.

Lemma run_refines os b held q q' es :
  refines b held q -> q_run (Z.to_nat (cap b)) os q = Some (q', es) ->
  exists b' held', refines b' held' q' /\ cap b' = cap b /\ bstats b' = bstats b /\
    forall w, b_run os (b, held) w = w' ← run_events b es w; Some (b', held', w').
Proof.
  revert b held q es. induction os as [|o os IH]; intros b held q es Href Hq; cbn [q_run] in Hq.
  { injection Hq as <- <-. by exists b, held. }
  apply bind_Some in Hq as ([q1 es1] & Hq1 & Hq). apply bind_Some in Hq as ([q2 es2] & Hq2 & Hq).
  injection Hq as -> <-.
  destruct (step_refines _ _ _ _ _ _ Href Hq1) as (b1 & h1 & Href1 & Hc1 & Hs1 & Hr1).
  rewrite <- Hc1 in Hq2.
  destruct (IH _ _ _ _ Href1 Hq2) as (b2 & h2 & Href2 & Hc2 & Hs2 & Hr2).
  exists b2, h2. split_and!; [done|congruence|congruence|]. intros w. cbn [b_run].
  rewrite Hr1, run_events_app. destruct (run_events b es1 w) as [w1|]; [|done]. binds.
  rewrite Hr2. by rewrite (run_events_ext b1 b).
Qed.

(** *** Properties of the contract *)

Definition q_empty : Q := mkQ [] [] [] 0.
Definition q_all (q : Q) : list A := q_old q ++ q_batch q ++ q_new q.
Definition written_of (es : list BEvent) : list A :=
  omap (fun e => match e with EvWritten m => Some m | _ => None end) es.
Definition dropped_of (es : list BEvent) : list A :=
  omap (fun e => match e with EvDropped m => Some m | _ => None end) es.
Definition added_of (os : list BOp) : list A :=
  os ≫= fun o => match o with OAdd ms => ms | _ => [] end.

(** The metrics that left through events. *)
Definition gone (es : list BEvent) : list A := written_of es ++ dropped_of es.

Lemma gone_app es es' : gone (es ++ es') ≡ₚ gone es ++ gone es'.
Proof. unfold gone, written_of, dropped_of. rewrite !omap_app. solve_Permutation. Qed.

Lemma gone_written xs z : gone ((EvWritten <$> xs) ++ [EvSize z]) ≡ₚ xs.
Proof.
  unfold gone, written_of, dropped_of. rewrite !omap_app. simpl. rewrite !app_nil_r.
  assert (omap (fun e => match e with EvDropped m => Some m | _ => None end) (EvWritten <$> xs) = @nil A) as ->
    by (induction xs; simpl; done).
  rewrite app_nil_r. induction xs as [|x xs IH]; [done|]. simpl. by constructor.
Qed.

Lemma gone_dropped xs z : gone ((EvDropped <$> xs) ++ [EvSize z]) ≡ₚ xs.
Proof.
  unfold gone, written_of, dropped_of. rewrite !omap_app. simpl. rewrite !app_nil_r.
  assert (omap (fun e => match e with EvWritten m => Some m | _ => None end) (EvDropped <$> xs) = @nil A) as ->
    by (induction xs; simpl; done).
  induction xs as [|x xs IH]; [done|]. simpl. by constructor.
Qed.

(** The queue and the batch fit. *)
Definition q_ok (c : nat) (q : Q) : Prop :=
  (q_len q <= c)%nat /\ (q_batch q <> [] -> length (q_old q) + length (q_batch q) <= c)%nat.

Lemma q_add_ok c q q' m es :
  q_ok c q -> q_add c q m = Some (q', es) ->
  q_ok c q' /\ q_batch q' = q_batch q /\ q_all q' ++ gone es ≡ₚ q_all q ++ [m].
Proof.
  intros [Hl Hb] Hadd. unfold q_add, q_ok, q_len, q_all, gone in *. destruct q as [old bt new lf]; simpl in *.
  case_decide.
  - destruct old as [|x old]; [destruct new as [|x new]; [done|case_decide; [done|]]|];
      injection Hadd as <- <-; simpl in *; rewrite ?length_app; simpl;
      (split; [split; [lia|intros Hne; specialize (Hb Hne); lia]|split; [done|]]).
    + rewrite <- app_assoc. solve_Permutation.
    + solve_Permutation.
  - injection Hadd as <- <-. simpl. rewrite length_app. simpl.
    split; [split; [lia|done]|split; [done|]]. rewrite app_nil_r. solve_Permutation.
Qed.

Lemma q_adds_ok c ms q q' es :
  q_ok c q -> q_adds c q ms = Some (q', es) ->
  q_ok c q' /\ q_all q' ++ gone es ≡ₚ q_all q ++ ms.
Proof.
  revert q es. induction ms as [|m ms IH]; intros q es Hok Hq; cbn [q_adds] in Hq.
  { by injection Hq as <- <-. }
  apply bind_Some in Hq as ([q1 es1] & Hq1 & Hq). apply bind_Some in Hq as ([q2 es2] & Hq2 & Hq).
  injection Hq as -> <-. destruct (q_add_ok _ _ _ _ _ Hok Hq1) as (Hok1 & _ & P1).
  destruct (IH _ _ Hok1 Hq2) as (Hok2 & P2). split; [done|].
  rewrite gone_app, (Permutation_app_comm (gone es1)), app_assoc, P2, <- app_assoc.
  rewrite (Permutation_app_comm ms), app_assoc, P1. by rewrite <- app_assoc.
Qed.

(** What [Reject] drops is what the newest [c] leave out. *)
Lemma reject_split c old new bt :
  (length old + length new <= c)%nat -> (length old + length bt <= c)%nat ->
  let r := Nat.min (length bt) (c - length new) in
  let d := (length old + length new + r - c)%nat in
  newest c (old ++ reverse bt ++ new) ++ reverse (take d old) ++ drop r bt ≡ₚ old ++ bt ++ new.
Proof.
  intros H1' H2' r d.
  assert (newest c (old ++ reverse bt ++ new) = drop d old ++ reverse (take r bt) ++ new) as ->.
  { unfold newest. rewrite !length_app, length_reverse.
    destruct (decide (length bt <= c - length new)%nat) as [Hr|Hr].
    - unfold r. rewrite Nat.min_l, take_ge by lia. rewrite drop_app_le by lia. f_equal. f_equal.
      unfold d, r. lia.
    - rewrite (drop_ge old d) by (unfold d, r; lia). rewrite drop_app_ge by lia.
      rewrite drop_app_le by (rewrite length_reverse; lia).
      rewrite reverse_take. simpl. f_equal. f_equal. unfold r. lia. }
  rewrite !reverse_Permutation. rewrite <- (take_drop d old) at 3. rewrite <- (take_drop r bt) at 3.
  solve_Permutation.
Qed.

Lemma q_step_ok c o q q' es :
  q_ok c q -> q_step c o q = Some (q', es) ->
  q_ok c q' /\ q_all q' ++ gone es ≡ₚ q_all q ++ added_of [o].
Proof.
  intros Hok Hq. destruct o as [ms|n| |]; cbn [q_step] in Hq.
  - apply bind_Some in Hq as ([q1 es1] & Hq1 & Hq). injection Hq as -> <-.
    destruct (q_adds_ok _ _ _ _ _ Hok Hq1) as (Hok1 & P1). split; [done|].
    rewrite gone_app. unfold added_of. simpl. rewrite !app_nil_r. done.
  - destruct Hok as [Hl Hb]. destruct (q_batch q) eqn:E; [|done]. injection Hq as <- <-.
    unfold q_ok, q_len, q_all in *. rewrite E in *. simpl in *.
    rewrite <- length_app in Hl. set (all := q_old q ++ q_new q) in *.
    rewrite length_take, length_reverse, length_drop. split; [split; [lia|intros; lia]|].
    rewrite !app_nil_r, reverse_Permutation, take_drop. done.
  - destruct Hok as [Hl Hb]. injection Hq as <- <-. split; [split; [done|intros []; done]|].
    unfold q_size. rewrite gone_written. unfold q_all, added_of. simpl. rewrite app_nil_r. solve_Permutation.
  - destruct Hok as [Hl Hb]. destruct (q_batch q) as [|x bt] eqn:E.
    { injection Hq as <- <-. unfold added_of. simpl. rewrite !app_nil_r. split; [|done].
      split; [done|by rewrite E]. }
    specialize (Hb ltac:(done)). set (bt' := x :: bt) in *. injection Hq as <- <-.
    unfold q_len in *. split.
    { split; [|done]. unfold q_len, newest. cbn [q_old q_new length]. rewrite length_drop, !length_app, length_reverse. lia. }
    unfold q_size. rewrite gone_dropped. unfold q_all, added_of. simpl. rewrite E. fold bt'.
    rewrite !app_nil_r. by apply reject_split.
Qed.

Lemma q_run_ok c os q q' es :
  q_ok c q -> q_run c os q = Some (q', es) ->
  q_ok c q' /\ q_all q' ++ gone es ≡ₚ q_all q ++ added_of os.
Proof.
  revert q es. induction os as [|o os IH]; intros q es Hok Hq; cbn [q_run] in Hq.
  { by injection Hq as <- <-. }
  apply bind_Some in Hq as ([q1 es1] & Hq1 & Hq). apply bind_Some in Hq as ([q2 es2] & Hq2 & Hq).
  injection Hq as -> <-. destruct (q_step_ok _ _ _ _ _ Hok Hq1) as (Hok1 & P1).
  destruct (IH _ _ Hok1 Hq2) as (Hok2 & P2). split; [done|].
  rewrite gone_app, (Permutation_app_comm (gone es1)), app_assoc, P2, <- app_assoc.
  rewrite (Permutation_app_comm (added_of os)), app_assoc, P1. rewrite <- app_assoc.
  unfold added_of. simpl. by rewrite app_nil_r.
Qed.

(** *** When the contract holds

    [room]: [None] when no batch is lent, else the number of metrics that may
    still arrive before it is accepted or rejected. *)
Fixpoint timely (c : nat) (room : option nat) (os : list BOp) : bool :=
  match os with
  | [] => true
  | OAdd ms :: os' =>
    match room with
    | None => timely c None os'
    | Some k => (length ms <=? k)%nat && timely c (Some (k - length ms)%nat) os'
    end
  | OBatch _ :: os' => match room with None => timely c (Some c) os' | Some _ => false end
  | OAccept :: os' | OReject :: os' => timely c None os'
  end.

Definition has_room (c : nat) (room : option nat) (q : Q) : Prop :=
  match room with
  | None => q_batch q = []
  | Some k => q_batch q = [] \/ (k <= c - length (q_new q) + q_left q)%nat
  end.

Lemma q_adds_total c ms q room :
  (0 < c)%nat -> q_ok c q -> has_room c room q ->
  (forall k, room = Some k -> (length ms <= k)%nat) ->
  exists q' es, q_adds c q ms = Some (q', es) /\
    has_room c (match room with None => None | Some k => Some (k - length ms)%nat end) q'.
Proof.
  intros Hc. revert q room. induction ms as [|m ms IH]; intros q room Hok Hr Hk.
  { exists q, []. split; [done|]. destruct room; simpl in *; [|done]. by rewrite Nat.sub_0_r. }
  assert (exists q1 es1, q_add c q m = Some (q1, es1) /\
    has_room c (match room with None => None | Some k => Some (k - 1)%nat end) q1) as (q1 & es1 & E1 & Hr1).
  { unfold q_add, q_len. destruct q as [old bt new lf]. destruct Hok as [Hl _]. unfold q_len in Hl.
    simpl in *. case_decide as Hd.
    - destruct old as [|x old].
      + destruct new as [|x new]; [simpl in *; lia|]. rewrite decide_False.
        * do 2 eexists. split; [done|]. destruct room as [k|]; [|done]. simpl in *.
          destruct Hr as [?|Hr]; [by left|right]. rewrite length_app. simpl. lia.
        * intros [Hb ->]. destruct room as [k|]; [|done]. specialize (Hk k eq_refl). simpl in *.
          destruct Hr as [?|Hr]; [done|]. simpl in Hd. lia.
      + do 2 eexists. split; [done|]. destruct room as [k|]; [|done]. simpl in *.
        destruct Hr as [?|Hr]; [by left|right]. rewrite length_app. simpl. lia.
    - do 2 eexists. split; [done|]. destruct room as [k|]; [|done]. simpl in *.
      destruct Hr as [?|Hr]; [by left|right]. rewrite length_app. simpl. lia. }
  destruct (q_add_ok _ _ _ _ _ Hok E1) as (Hok1 & _ & _).
  destruct (IH _ _ Hok1 Hr1) as (q2 & es2 & E2 & Hr2).
  { intros k Ek. destruct room as [k'|]; [|done]. injection Ek as <-.
    specialize (Hk k' eq_refl). simpl in Hk. lia. }
  exists q2, (es1 ++ es2). cbn [q_adds]. rewrite E1. binds. rewrite E2. split; [done|].
  destruct room as [k|]; [|done]. replace (k - length (m :: ms))%nat with (k - 1 - length ms)%nat by (simpl; lia).
  done.
Qed.

Lemma q_run_total c os q room :
  (0 < c)%nat -> q_ok c q -> has_room c room q -> timely c room os = true ->
  exists q' es, q_run c os q = Some (q', es).
Proof.
  intros Hc. revert q room. induction os as [|o os IH]; intros q room Hok Hr Ht; [by eexists _, _|].
  cbn [q_run]. enough (exists q1 es1 room', q_step c o q = Some (q1, es1) /\
    has_room c room' q1 /\ timely c room' os = true) as (q1 & es1 & room' & E1 & Hr1 & Ht1).
  { destruct (IH q1 room') as (q2 & es2 & E2); [|done|done|].
    - by eapply q_step_ok.
    - rewrite E1. binds. rewrite E2. by eexists _, _. }
  destruct o as [ms|n| |]; cbn [timely q_step] in *.
  - destruct (q_adds_total c ms q room) as (q' & es & E & Hr'); try done.
    { intros k ->. apply andb_true_iff in Ht as [Ht _]. by apply Nat.leb_le. }
    rewrite E. binds. do 3 eexists. split; [done|]. split; [exact Hr'|].
    destruct room; [by apply andb_true_iff in Ht as [_ Ht]|done].
  - destruct room; [done|]. simpl in Hr. rewrite Hr. do 3 eexists. split; [done|].
    split; [|exact Ht]. simpl. right. lia.
  - do 3 eexists. split; [done|]. split; [|exact Ht]. done.
  - destruct (q_batch q) eqn:E; do 3 eexists; (split; [done|]); (split; [|exact Ht]); done.
Qed.

Lemma NewBuffer_refines nm alias c r b r' :
  0 < c -> NewBuffer (A:=A) nm alias c r = Some (b, r') ->
  refines b [] q_empty /\ cap b = c.
Proof.
  intros Hc. unfold NewBuffer. rewrite (proj2 (Z.ltb_ge _ _)) by lia.
  repeat match goal with |- context [Register ?a ?b ?c ?d] => destruct (Register a b c d) end.
  intros [= <- <-]. split; [|done]. constructor; try done. simpl.
  constructor; simpl; try lia; try done.
  - split; simpl; rewrite ?length_replicate; lia.
  - unfold view. simpl. unfold rotate. rewrite Nat.Div0.mod_0_l. simpl.
    rewrite take_0, drop_0, app_nil_r, Nat.sub_0_r. done.
Qed.
End Refinement.
Arguments Q : clear implicits.
Arguments BOp : clear implicits.
Arguments BEvent : clear implicits.

#[local] Existing Instances log_stats log_metrics.

Section Claims.
Context `{MapRange} {A W : Type} `{StatEnv W} `{MetricEnv A W}.

(** C1: a buffer made by [NewBuffer] implements its contract: every run of [Add],
    [Batch], [Accept] and [Reject] that the bounded queue with a lent batch
    accepts runs on the buffer without a panic of its own, holds the same
    metrics in the same order, lends the same batch (newest first), and makes
    exactly the statistics updates and [Accept]/[Reject] calls of the contract,
    in its order. *)
Theorem Buffer_refines_queue nm alias c r b0 r' os q es :
  0 < c -> NewBuffer (A:=A) nm alias c r = Some (b0, r') ->
  q_run (Z.to_nat c) os q_empty = Some (q, es) ->
  exists b held, rep b (q_old q ++ q_new q) /\ held = Some <$> q_batch q /\
    Len b = Z.of_nat (Nat.min (q_len q + q_left q) (Z.to_nat c)) /\
    forall w : W, b_run os (b0, []) w = w' ← run_events b0 es w; Some (b, held, w').
Proof.
  intros Hc Hn Hq. destruct (NewBuffer_refines _ _ _ _ _ _ Hc Hn) as [Href Hcap]. subst c.
  destruct (run_refines os _ _ _ _ _ Href Hq) as (b & held & Href' & Hcap' & _ & Hrun).
  exists b, held. pose proof (Len_refines _ _ _ Href') as Hlen. destruct Href'.
  split_and!; try done. by rewrite Hlen, Hcap'.
Qed.

(** C2: no metric is lost or duplicated by the buffer. After any run, the
    metrics that were added are, each exactly once, those accepted, those
    rejected because they were dropped, those still queued and those of the
    batch that is lent; and the queue never exceeds the capacity. *)
Theorem Buffer_conserves_metrics nm alias c r b0 r' os q es :
  0 < c -> NewBuffer (A:=A) nm alias c r = Some (b0, r') ->
  q_run (Z.to_nat c) os q_empty = Some (q, es) ->
  exists b held queue batch, rep b queue /\ held = Some <$> batch /\
    Z.of_nat (length queue) <= c /\
    written_of es ++ dropped_of es ++ queue ++ batch ≡ₚ added_of os /\
    forall w : W, b_run os (b0, []) w = w' ← run_events b0 es w; Some (b, held, w').
Proof.
  intros Hc Hn Hq. destruct (NewBuffer_refines _ _ _ _ _ _ Hc Hn) as [Href Hcap]. subst c.
  destruct (run_refines os _ _ _ _ _ Href Hq) as (b & held & [] & Hcap' & _ & Hrun).
  apply q_run_ok in Hq as [[Hl _] P]; [|split; simpl; [unfold q_len; simpl; lia|done]].
  exists b, held, (q_old q ++ q_new q), (q_batch q). split_and!; try done.
  - rewrite length_app. unfold q_len in Hl. lia.
  - simpl in P. rewrite <- P. unfold gone, q_all. solve_Permutation.
Qed.

(** C6: the contract is met, so that the two theorems above apply, whenever at
    most [c] metrics arrive between a [Batch] and its [Accept] or [Reject], and
    no second batch is taken in between. *)
Theorem Buffer_contract_met nm alias c r b0 r' os :
  0 < c -> NewBuffer (A:=A) nm alias c r = Some (b0, r') ->
  timely (Z.to_nat c) None os = true ->
  exists q es b held, q_run (Z.to_nat c) os q_empty = Some (q, es) /\ refines b held q /\
    forall w : W, b_run os (b0, []) w = w' ← run_events b0 es w; Some (b, held, w').
Proof.
  intros Hc Hn Ht. destruct (NewBuffer_refines _ _ _ _ _ _ Hc Hn) as [Href Hcap]. subst c.
  destruct (q_run_total (Z.to_nat (cap b0)) os q_empty None) as (q & es & Hq); try done; [lia| |].
  { split; [unfold q_len; simpl; lia|done]. }
  destruct (run_refines os _ _ _ _ _ Href Hq) as (b & held & Href' & _ & _ & Hrun).
  by exists q, es, b, held.
Qed.
End Claims.

(** *** Witnesses *)

Lemma NewBuffer_some `{MapRange} {A} nm alias c r :
  0 <= c -> exists b r', NewBuffer (A:=A) nm alias c r = Some (b, r').
Proof.
  intros Hc. unfold NewBuffer. rewrite (proj2 (Z.ltb_ge _ _)) by lia.
  repeat match goal with |- context [Register ?a ?b ?c ?d] => destruct (Register a b c d) end.
  by eexists _, _.
Qed.

#[local] Existing Instance map_range_default.
Definition ex_ops : list (BOp nat) :=
  [OAdd [1; 2; 3]%nat; OBatch 2; OAdd [4; 5; 6]%nat; OReject; OBatch 3; OAdd [7]%nat; OAccept].

Lemma Buffer_refines_queue_witness :
  exists b0 b held, rep b ([3; 7]%nat) /\ held = [] /\
    b_run ex_ops (b0, []) [] =
    Some (b, held, [CReject 1; CReject 2; CAccept 6; CAccept 5; CAccept 4]%nat).
Proof.
  destruct (@NewBuffer_some map_range_default nat "file" EmptyString 4 ∅) as (b0 & r' & E); [lia|].
  destruct (Buffer_refines_queue (W:=list (Call nat)) "file" EmptyString 4 ∅ b0 r' ex_ops
    (mkQ [3]%nat [] [7]%nat 0) _ eq_refl E ltac:(vm_compute; reflexivity))
    as (b & held & Hrep & Hheld & _ & Hrun).
  exists b0, b, held. split; [exact Hrep|]. split; [exact Hheld|]. rewrite Hrun. reflexivity.
Defined.

Lemma Buffer_conserves_metrics_witness :
  exists b held queue batch, rep b queue /\ held = Some <$> batch /\ Z.of_nat (length queue) <= 4 /\
    [6; 5; 4]%nat ++ [1; 2]%nat ++ queue ++ batch ≡ₚ added_of ex_ops.
Proof.
  destruct (@NewBuffer_some map_range_default nat "file" EmptyString 4 ∅) as (b0 & r' & E); [lia|].
  destruct (Buffer_conserves_metrics (W:=list (Call nat)) "file" EmptyString 4 ∅ b0 r' ex_ops
    (mkQ [3]%nat [] [7]%nat 0) _ eq_refl E ltac:(vm_compute; reflexivity))
    as (b & held & queue & batch & Hrep & Hheld & Hle & Hp & _).
  exists b, held, queue, batch. split; [exact Hrep|]. split; [exact Hheld|]. split; [exact Hle|exact Hp].
Defined.

Lemma Buffer_contract_met_witness :
  timely 4 None ex_ops = true /\
  exists q es, q_run 4 ex_ops q_empty = Some (q, es).
Proof.
  split; [reflexivity|].
  destruct (@NewBuffer_some map_range_default nat "file" EmptyString 4 ∅) as (b0 & r' & E); [lia|].
  destruct (Buffer_contract_met (W:=list (Call nat)) "file" EmptyString 4 ∅ b0 r' ex_ops
    eq_refl E eq_refl) as (q & es & _ & _ & Hq & _).
  exists q, es. exact Hq.
Defined.

(** Once more than capacity plus batch size metrics arrive while a batch is
    lent, the mark of the batch is lost and [Reject] puts the old batch in the
    middle of newer metrics: with five slots, a batch of metric 0 and seven later
    arrivals, 0 comes back between 6 and 7 and metric 3 is rejected for it, although
    the queue was already full of newer metrics. *)
Theorem Reject_misplaces_overrun_batch `{MapRange} :
  (fun r => (fun '(b, held, log) => (view (first b) b, held, log)) <$> r) <$>
    ((fun '(b0, _) => b_run [OAdd [0]; OBatch 1; OAdd [1; 2; 3; 4; 5; 6; 7]; OReject]%nat (b0, []) []) <$>
       NewBuffer "file" EmptyString 5 ∅) =
  Some (Some ([Some 4; Some 5; Some 6; Some 0; Some 7]%nat, [],
    [CReject 1; CReject 2; CReject 3]%nat)).
Proof.
  unfold NewBuffer. simpl.
  repeat match goal with |- context [Register ?a ?b ?c ?d] => destruct (Register a b c d) end.
  reflexivity.
Qed.
End Buf.
