(* ===== verification/Filter.v ===== *)
(** * Filters

    [filter/filter.go] compiles a list of patterns to a matcher, and
    [internal/models/filter.go] applies the pass/drop rules of a plugin's
    configuration to metrics. Glob matching is a third-party package: the class
    [Glob] is its interface, and [GlobLaws] the documented behaviour the
    multi-pattern form relies on (a pattern without special characters matches
    itself, and [{p1,...,pn}] matches what one of the alternatives matches). *)

From Stdlib Require Import Ascii.
From S2P Require Import Prelude Strings Float64 Metric.

Notation err := string (only parsing).

(** [glob.Compile] and [glob.Glob.Match]. *)
Class Glob := {
  glob_t : Type;
  glob_compile : string -> glob_t + err;
  glob_match : glob_t -> string -> bool;
}.

(** Does a string contain one of the characters of a set? *)
Definition IndexAny (set : string) (s : string) : bool :=
  existsb (fun c => existsb (Ascii.eqb c) (String.list_ascii_of_string set)) (String.list_ascii_of_string s).

Definition hasMeta (s : string) : bool := IndexAny "*?[" s.

Section Filter.
Context `{Glob}.

(** The implementations of the interface [filter.Filter]. *)
Inductive Matcher :=
| M_filter (m : gset string)
| M_filtersingle (s : string)
| M_glob (g : glob_t)
| M_incexc (include exclude : option Matcher).

Fixpoint Match (f : Matcher) (s : string) : bool :=
  match f with
  | M_filter m => bool_decide (s ∈ m)
  | M_filtersingle s' => bool_decide (s' = s)
  | M_glob g => glob_match g s
  | M_incexc include exclude =>
    match include with
    | Some f => if Match f s then
        match exclude with Some f => negb (Match f s) | None => true end else false
    | None => match exclude with Some f => negb (Match f s) | None => true end
    end
  end.

Definition compileFilterNoGlob (filters : list string) : Matcher :=
  match filters with
  | [s] => M_filtersingle s
  | _ => M_filter (foldl (fun m f => {[f]} ∪ m) ∅ filters)
  end.

(** [Compile]; the nil filter of an empty list is [None]. *)
Definition Compile (filters : list string) : option Matcher + err :=
  match filters with
  | [] => inl None
  | _ =>
    if negb (existsb hasMeta filters) then inl (Some (compileFilterNoGlob filters))
    else
      let p := match filters with
        | [p] => p
        | _ => "{" +:+ Join filters "," +:+ "}"
        end in
      match glob_compile p with
      | inl g => inl (Some (M_glob g))
      | inr e => inr e
      end
  end.

Definition NewIncludeExcludeFilter (include exclude : list string) : Matcher + err :=
  match Compile include with
  | inr e => inr e
  | inl i =>
    match Compile exclude with
    | inr e => inr e
    | inl x => inl (M_incexc i x)
    end
  end.

(** ** Metric filters *)

Record TagFilter := mkTagFilter {
  tf_Name : string;
  tf_Filter : list string;
  tf_filter : option Matcher;
}.

(** A nil slice of tag filters is [None]. *)
Record Filter := mkFilter {
  NameDrop : list string;
  nameDrop : option Matcher;
  NamePass : list string;
  namePass : option Matcher;
  FieldDrop : list string;
  fieldDrop : option Matcher;
  FieldPass : list string;
  fieldPass : option Matcher;
  TagDrop : option (list TagFilter);
  TagPass : option (list TagFilter);
  TagExclude : list string;
  tagExclude : option Matcher;
  TagInclude : list string;
  tagInclude : option Matcher;
  isActive : bool;
}.

(** The loops of [Filter.Compile] over the tag filters. *)
Fixpoint compile_tags (what : string) (l : list TagFilter) : list TagFilter + err :=
  match l with
  | [] => inl []
  | t :: l' =>
    match Compile (tf_Filter t) with
    | inr e => inr ("Error compiling '" +:+ what +:+ "', " +:+ e)
    | inl f =>
      match compile_tags what l' with
      | inr e => inr e
      | inl l'' => inl (mkTagFilter (tf_Name t) (tf_Filter t) f :: l'')
      end
    end
  end.

Definition compile_list (what : string) (l : list string) : option Matcher + err :=
  match Compile l with
  | inr e => inr ("Error compiling '" +:+ what +:+ "', " +:+ e)
  | inl f => inl f
  end.

Definition bindE {X Y} (x : X + err) (k : X -> Y + err) : Y + err :=
  match x with inl v => k v | inr e => inr e end.

Definition is_nil {X} (l : list X) : bool := match l with [] => true | _ => false end.

(** [Filter.Compile]: the compiled filter, or the error at which it stops. *)
Definition Filter_Compile (f : Filter) : Filter + err :=
  if is_nil (NameDrop f) && is_nil (NamePass f) && is_nil (FieldDrop f) && is_nil (FieldPass f) &&
     is_nil (TagInclude f) && is_nil (TagExclude f) &&
     is_nil (default [] (TagPass f)) && is_nil (default [] (TagDrop f))
  then inl f
  else
    bindE (compile_list "namedrop" (NameDrop f)) (fun nd =>
    bindE (compile_list "namepass" (NamePass f)) (fun np =>
    bindE (compile_list "fielddrop" (FieldDrop f)) (fun fd =>
    bindE (compile_list "fieldpass" (FieldPass f)) (fun fp =>
    bindE (compile_list "tagexclude" (TagExclude f)) (fun te =>
    bindE (compile_list "taginclude" (TagInclude f)) (fun ti =>
    bindE (compile_tags "tagdrop" (default [] (TagDrop f))) (fun tdr =>
    bindE (compile_tags "tagpass" (default [] (TagPass f))) (fun tps =>
    inl (mkFilter (NameDrop f) nd (NamePass f) np (FieldDrop f) fd (FieldPass f) fp
      ((fun _ => tdr) <$> TagDrop f) ((fun _ => tps) <$> TagPass f)
      (TagExclude f) te (TagInclude f) ti true))))))))).

Definition shouldNamePass (f : Filter) (key : string) : bool :=
  match namePass f, nameDrop f with
  | Some p, Some d => Match p key && negb (Match d key)
  | Some p, None => Match p key
  | None, Some d => negb (Match d key)
  | None, None => true
  end.

Definition shouldFieldPass (f : Filter) (key : string) : bool :=
  match fieldPass f, fieldDrop f with
  | Some p, Some d => Match p key && negb (Match d key)
  | Some p, None => Match p key
  | None, Some d => negb (Match d key)
  | None, None => true
  end.

(** The nested loops of [shouldTagsPass]: is some tag matched by some pattern? *)
Fixpoint tags_match (pats : list TagFilter) (ts : list Tag) : bool :=
  match pats with
  | [] => false
  | pat :: pats' =>
    match tf_filter pat with
    | None => tags_match pats' ts
    | Some fl =>
      if existsb (fun t => if decide (Key t = tf_Name pat) then Match fl (Value t) else false) ts
      then true else tags_match pats' ts
    end
  end.

Definition shouldTagsPass (f : Filter) (ts : list Tag) : bool :=
  match TagPass f, TagDrop f with
  | Some p, Some d => tags_match p ts && negb (tags_match d ts)
  | Some p, None => tags_match p ts
  | None, Some d => negb (tags_match d ts)
  | None, None => true
  end.

Definition Select (f : Filter) (m : metric) : bool :=
  if negb (isActive f) then true
  else if negb (shouldNamePass f (name m)) then false
  else if negb (shouldTagsPass f (tags m)) then false
  else true.

Definition filterFields (f : Filter) (m : metric) : metric :=
  let filterKeys := omap (fun fd => if shouldFieldPass f (FKey fd) then None else Some (FKey fd)) (fields m) in
  foldl (fun m k => RemoveField k m) m filterKeys.

Definition filterTags (f : Filter) (m : metric) : metric :=
  let filterKeys := match tagInclude f with
    | Some i => omap (fun t => if Match i (Key t) then None else Some (Key t)) (tags m)
    | None => []
    end in
  let m := foldl (fun m k => RemoveTag k m) m filterKeys in
  let filterKeys := match tagExclude f with
    | Some x => filterKeys ++ omap (fun t => if Match x (Key t) then Some (Key t) else None) (tags m)
    | None => filterKeys
    end in
  foldl (fun m k => RemoveTag k m) m filterKeys.

Definition Modify (f : Filter) (m : metric) : metric :=
  if negb (isActive f) then m else filterTags f (filterFields f m).

Definition IsActive (f : Filter) : bool := isActive f.
End Filter.

(** ** Properties *)

Section FilterProps.
Context `{Glob}.

Lemma Match_noglob filters s :
  filters <> [] -> Match (compileFilterNoGlob filters) s = bool_decide (s ∈ filters).
Proof.
  intros Hne. destruct filters as [|p [|p' filters]]; [done| |].
  - simpl. apply bool_decide_ext. rewrite list_elem_of_singleton. naive_solver.
  - unfold compileFilterNoGlob. simpl Match. apply bool_decide_ext.
    assert (forall l (m : gset string), s ∈ foldl (fun m f => {[f]} ∪ m) m l <-> s ∈ l \/ s ∈ m) as Hf.
    { induction l as [|x l IH]; intros m; cbn [foldl]; [set_solver|]. rewrite IH. set_solver. }
    rewrite Hf. set_solver.
Qed.

(** *** Removal loops as list filters *)

Lemma RemoveField_all ks m :
  foldl (fun m k => RemoveField k m) m ks =
  set_fields (foldl (fun l k => key_remove FKey k l) (fields m) ks) m.
Proof. revert m. induction ks as [|k ks IH]; intros m; simpl; [by destruct m|]. by rewrite IH. Qed.

Lemma RemoveTag_all ks m :
  foldl (fun m k => RemoveTag k m) m ks =
  set_tags (foldl (fun l k => key_remove Key k l) (tags m) ks) m.
Proof. revert m. induction ks as [|k ks IH]; intros m; simpl; [by destruct m|]. by rewrite IH. Qed.

Lemma rejected_keys {X} (key : X -> string) (P : string -> bool) (l : list X) k :
  k ∈ omap (fun x => if P (key x) then None else Some (key x)) l <->
  exists x, x ∈ l /\ key x = k /\ P k = false.
Proof.
  rewrite list_elem_of_omap. split.
  - intros (x & Hx & E). destruct (P (key x)) eqn:EP; [done|]. injection E as <-. by exists x.
  - intros (x & Hx & <- & EP). exists x. by rewrite EP.
Qed.

(** Removing the keys a predicate rejects keeps the elements it accepts. *)
Lemma key_remove_rejected {X} (key : X -> string) (P : string -> bool) l :
  NoDup (key <$> l) ->
  foldl (fun l k => key_remove key k l) l (omap (fun x => if P (key x) then None else Some (key x)) l) =
  filter (fun x => P (key x) = true) l.
Proof.
  intros Hnd. rewrite key_remove_all by done. apply filter_ext_in. intros x Hx.
  rewrite rejected_keys. split.
  - intros Hn. destruct (P (key x)) eqn:E; [done|]. destruct Hn. by exists x.
  - intros E (y & Hy & Hk & HP). congruence.
Qed.

(** The declarative rules. *)
Definition tag_kept (f : Filter) (k : string) : bool :=
  match tagInclude f with Some i => Match i k | None => true end &&
  match tagExclude f with Some x => negb (Match x k) | None => true end.

Lemma filterFields_spec f m :
  wf m -> filterFields f m = set_fields (filter (fun fd => shouldFieldPass f (FKey fd) = true) (fields m)) m.
Proof.
  intros [_ Hnd]. unfold filterFields. rewrite RemoveField_all.
  by rewrite (key_remove_rejected FKey (shouldFieldPass f)).
Qed.

Lemma filterTags_spec f m :
  wf m -> filterTags f m = set_tags (filter (fun t => tag_kept f (Key t) = true) (tags m)) m.
Proof.
  intros Hwf. pose proof (tags_wf_NoDup _ (wf_tags _ Hwf)) as Hnd. unfold filterTags.
  set (inc := fun k => match tagInclude f with Some i => Match i k | None => true end).
  set (ks := match tagInclude f with Some i => _ | None => [] end).
  assert (ks = omap (fun t => if inc (Key t) then None else Some (Key t)) (tags m)) as Hks.
  { unfold ks, inc. destruct (tagInclude f); [done|]. symmetry. clear. induction (tags m); done. }
  rewrite (RemoveTag_all ks), Hks, (key_remove_rejected Key inc) by done. simpl tags.
  set (t1 := filter (fun t => inc (Key t) = true) (tags m)).
  assert (NoDup (Key <$> t1)) as Hnd1.
  { eapply sublist_NoDup; [exact Hnd|]. apply fmap_sublist, sublist_filter. }
  set (exc := fun k => match tagExclude f with Some x => negb (Match x k) | None => true end).
  set (ks2 := match tagExclude f with Some x => _ | None => _ end).
  assert (ks2 = ks ++ omap (fun t => if exc (Key t) then None else Some (Key t)) t1) as Hks2.
  { unfold ks2, exc. rewrite <- Hks. destruct (tagExclude f) as [x|].
    - f_equal. generalize t1. clear. intros l.
      induction l as [|t l IH]; [done|]. simpl. destruct (Match x (Key t)); simpl; [by f_equal|done].
    - replace (omap _ t1) with (@nil string); [by rewrite app_nil_r|].
      generalize t1. clear. intros l. by induction l. }
  rewrite RemoveTag_all, key_remove_all by done. cbn [tags set_tags].
  unfold set_tags. simpl. f_equal. rewrite Hks2, Hks.
  transitivity (filter (fun t => exc (Key t) = true) t1).
  - apply filter_ext_in. intros t Ht. rewrite not_elem_of_app, !rejected_keys.
    assert (inc (Key t) = true) as Hi by (by apply list_elem_of_filter in Ht as [Hi _]). split.
    + intros [_ Hn]. destruct (exc (Key t)) eqn:E; [done|]. destruct Hn. by exists t.
    + intros He. split; intros (t' & _ & E & Hb); congruence.
  - unfold t1. rewrite list_filter_filter. apply list_filter_iff. intros t.
    change (tag_kept f (Key t)) with (inc (Key t) && exc (Key t)). rewrite andb_true_iff. tauto.
Qed.

Lemma set_fields_wf m fs : wf m -> NoDup (FKey <$> fs) -> wf (set_fields fs m).
Proof. intros [] ?. by constructor. Qed.

Lemma filterFields_wf f m : wf m -> wf (filterFields f m).
Proof.
  intros Hwf. rewrite filterFields_spec by done. apply set_fields_wf; [done|].
  eapply sublist_NoDup; [apply (wf_fields _ Hwf)|]. apply fmap_sublist, sublist_filter.
Qed.

Lemma filterTags_wf f m : wf m -> wf (filterTags f m).
Proof.
  intros Hwf. rewrite filterTags_spec by done. destruct Hwf as [Ht Hf]. constructor; [|done]. simpl.
  eapply key_sorted_sublist; [|exact Ht]. apply sublist_filter.
Qed.

Lemma Modify_wf f m : wf m -> wf (Modify f m).
Proof.
  intros Hwf. unfold Modify. destruct (negb _); [done|]. by apply filterTags_wf, filterFields_wf.
Qed.

(** What a compiled filter keeps, the inactive one included. *)
Definition field_ok (f : Filter) (k : string) : bool := negb (isActive f) || shouldFieldPass f k.
Definition tag_ok (f : Filter) (k : string) : bool := negb (isActive f) || tag_kept f k.

Lemma Modify_spec f m :
  wf m -> Modify f m = mkMetric (name m) (filter (fun t => tag_ok f (Key t) = true) (tags m))
    (filter (fun x => field_ok f (FKey x) = true) (fields m)) (tm m) (tp m) (aggregate m).
Proof.
  intros Hwf. unfold Modify, tag_ok, field_ok. destruct (isActive f); simpl.
  - rewrite filterTags_spec by (by apply filterFields_wf). by rewrite filterFields_spec.
  - rewrite !filter_keeps_all by done. by destruct m.
Qed.

Lemma tags_match_spec pats ts :
  tags_match pats ts = true <->
  exists pat fl t, pat ∈ pats /\ tf_filter pat = Some fl /\ t ∈ ts /\
    Key t = tf_Name pat /\ Match fl (Value t) = true.
Proof.
  induction pats as [|pat pats IH]; simpl; [split; [done|set_solver]|].
  assert (forall fl, existsb (fun t => if decide (Key t = tf_Name pat) then Match fl (Value t) else false) ts = true
    <-> exists t, t ∈ ts /\ Key t = tf_Name pat /\ Match fl (Value t) = true) as Hex.
  { intros fl. rewrite existsb_exists. split.
    - intros (t & Ht & Hm). exists t. rewrite list_elem_of_In. case_decide; naive_solver.
    - intros (t & Ht & Hk & Hm). exists t. rewrite <- list_elem_of_In. by rewrite decide_True. }
  destruct (tf_filter pat) as [fl|] eqn:Efl.
  - destruct (existsb _ ts) eqn:E.
    + apply Hex in E as (t & Ht & Hk & Hm). split; [|done]. intros _. exists pat, fl, t. set_solver.
    + rewrite IH. split.
      * intros (p & fl' & t & Hp & ?). exists p, fl', t. set_solver.
      * intros (p & fl' & t & Hp & Hf & Ht & Hk & Hm). apply elem_of_cons in Hp as [->|Hp].
        -- rewrite Efl in Hf. injection Hf as <-. assert (existsb (fun t => if decide (Key t = tf_Name pat) then Match fl (Value t) else false) ts = true) by (apply Hex; eauto). congruence.
        -- exists p, fl', t. done.
  - rewrite IH. split.
    + intros (p & fl' & t & Hp & ?). exists p, fl', t. set_solver.
    + intros (p & fl' & t & Hp & Hf & ?). apply elem_of_cons in Hp as [->|Hp]; [congruence|].
      exists p, fl', t. done.
Qed.

(** The patterns of a list, as the configuration documents them. *)
Definition plain (p : string) : bool := negb (IndexAny "{},\" p).
Definition pattern_match (p s : string) : bool :=
  if hasMeta p then match glob_compile p with inl g => glob_match g s | inr _ => false end
  else bool_decide (s = p).
Definition any_match (ps : list string) (s : string) : bool := existsb (fun p => pattern_match p s) ps.
End FilterProps.

(** The documented behaviour of the glob package that multi-pattern filters use. *)
Class GlobLaws `{Glob} := {
  glob_literal p : hasMeta p = false -> plain p = true ->
    exists g, glob_compile p = inl g /\ forall s, glob_match g s = bool_decide (s = p);
  glob_alternatives ps gs : (2 <= length ps)%nat -> Forall (fun p => plain p = true) ps ->
    Forall2 (fun p g => glob_compile p = inl g) ps gs ->
    exists g, glob_compile ("{" +:+ Join ps "," +:+ "}") = inl g /\
      forall s, glob_match g s = existsb (fun g => glob_match g s) gs;
}.

(** The patterns of a list compile one by one. *)
Definition patterns_ok `{Glob} (ps : list string) : Prop :=
  Forall (fun p => plain p = true /\ (hasMeta p = true -> exists g, glob_compile p = inl g)) ps.

Section FilterClaims.
Context `{GlobLaws}.

Lemma patterns_compile ps :
  patterns_ok ps -> exists gs, Forall2 (fun p g => glob_compile p = inl g) ps gs /\
    forall s, existsb (fun g => glob_match g s) gs = any_match ps s.
Proof.
  induction ps as [|p ps IH]; intros Hok; [by exists []|].
  apply Forall_cons in Hok as [[Hp Hm] Hok]. destruct (IH Hok) as (gs & Hgs & Hex).
  assert (exists g, glob_compile p = inl g /\ forall s, glob_match g s = pattern_match p s) as (g & Hg & Hs).
  { unfold pattern_match. destruct (hasMeta p) eqn:E.
    - destruct Hm as [g Hg]; [done|]. exists g. by rewrite Hg.
    - by apply glob_literal. }
  exists (g :: gs). split; [by constructor|]. intros s. simpl. by rewrite Hs, Hex.
Qed.

Lemma Compile_spec ps :
  patterns_ok ps -> exists fo, Compile ps = inl fo /\ (fo = None <-> ps = []) /\
    forall f s, fo = Some f -> Match f s = any_match ps s.
Proof.
  intros Hok. destruct (decide (ps = [])) as [->|Hne]; [by exists None|].
  destruct (patterns_compile ps Hok) as (gs & Hgs & Hex).
  unfold Compile. destruct ps as [|p ps]; [done|]. set (l := p :: ps) in *.
  destruct (negb (existsb hasMeta l)) eqn:Em.
  { exists (Some (compileFilterNoGlob l)). split_and!; [done|done|].
    intros f s Hf. assert (f = compileFilterNoGlob l) as -> by congruence.
    rewrite Match_noglob by done. apply negb_true_iff in Em. unfold any_match.
    apply eq_true_iff_eq. rewrite bool_decide_eq_true, existsb_exists. split.
    - intros Hs. exists s. rewrite <- list_elem_of_In. split; [done|]. unfold pattern_match.
      destruct (hasMeta s) eqn:Es; [|by apply bool_decide_eq_true].
      assert (existsb hasMeta l = true); [|congruence]. apply existsb_exists. exists s.
      by rewrite <- list_elem_of_In.
    - intros (q & Hq & Hm). unfold pattern_match in Hm.
      destruct (hasMeta q) eqn:Eq.
      + assert (existsb hasMeta l = true); [|congruence]. apply existsb_exists. by exists q.
      + apply bool_decide_eq_true in Hm. subst. by rewrite list_elem_of_In. }
  unfold l. destruct ps as [|p' ps].
  - inversion Hgs as [|? g ? ? Hg Hnil]; subst. inversion Hnil; subst. rewrite Hg.
    exists (Some (M_glob g)). split_and!; [done|done|]. intros f s [= <-]. simpl.
    specialize (Hex s). simpl in Hex. rewrite orb_false_r in Hex. exact Hex.
  - destruct (glob_alternatives l gs) as (g & Hg & Hm); [simpl; lia| |done|].
    { eapply Forall_impl; [exact Hok|]. naive_solver. }
    fold l. change (match l with [p] => p | _ => _ end) with ("{" +:+ Join l "," +:+ "}").
    rewrite Hg. exists (Some (M_glob g)). split_and!; [done|done|]. intros f s [= <-]. simpl.
    by rewrite Hm.
Qed.

Lemma compile_list_spec what ps :
  patterns_ok ps -> exists fo, compile_list what ps = inl fo /\ (fo = None <-> ps = []) /\
    forall f s, fo = Some f -> Match f s = any_match ps s.
Proof.
  intros Hok. destruct (Compile_spec ps Hok) as (fo & E & Hr). exists fo.
  unfold compile_list. by rewrite E.
Qed.

(** The rules on the patterns as configured. *)
Definition rule_pass (pass drop : list string) (k : string) : bool :=
  (is_nil pass || any_match pass k) && negb (any_match drop k).
Definition rule_tag (pats : list TagFilter) (ts : list Tag) : bool :=
  existsb (fun pat => existsb (fun t =>
    bool_decide (Key t = tf_Name pat) && any_match (tf_Filter pat) (Value t)) ts) pats.
Definition rules_select (f : Filter) (m : metric) : bool :=
  rule_pass (NamePass f) (NameDrop f) (name m) &&
  match TagPass f with Some ps => rule_tag ps (tags m) | None => true end &&
  negb (match TagDrop f with Some ps => rule_tag ps (tags m) | None => false end).
Definition has_rules (f : Filter) : bool :=
  negb (is_nil (NameDrop f) && is_nil (NamePass f) && is_nil (FieldDrop f) && is_nil (FieldPass f) &&
     is_nil (TagInclude f) && is_nil (TagExclude f) &&
     is_nil (default [] (TagPass f)) && is_nil (default [] (TagDrop f))).

Lemma pass_drop_rule pass drop po dr k :
  (po = None <-> pass = []) -> (forall f s, po = Some f -> Match f s = any_match pass s) ->
  (dr = None <-> drop = []) -> (forall f s, dr = Some f -> Match f s = any_match drop s) ->
  match po, dr with
  | Some p, Some d => Match p k && negb (Match d k)
  | Some p, None => Match p k
  | None, Some d => negb (Match d k)
  | None, None => true
  end = rule_pass pass drop k.
Proof.
  intros Hp1 Hp2 Hd1 Hd2. unfold rule_pass.
  destruct po as [p|], dr as [d|]; rewrite ?(Hp2 _ _ eq_refl), ?(Hd2 _ _ eq_refl).
  all: try (rewrite (proj1 Hp1 eq_refl)); try (rewrite (proj1 Hd1 eq_refl)); simpl; try done.
  all: destruct pass; [by discriminate (proj2 Hp1 eq_refl)|]; simpl; by rewrite ?andb_true_r.
Qed.

Lemma compile_tags_spec what pats :
  Forall (fun t => patterns_ok (tf_Filter t)) pats ->
  exists pats', compile_tags what pats = inl pats' /\
    forall ts, tags_match pats' ts = rule_tag pats ts.
Proof.
  induction pats as [|p pats IH]; intros Hok; [by exists []|].
  apply Forall_cons in Hok as [Hp Hok]. destruct (IH Hok) as (pats' & E & Hm).
  destruct (Compile_spec _ Hp) as (fo & E1 & Hn & Hs). cbn [compile_tags]. rewrite E1, E.
  eexists. split; [done|]. intros ts. cbn [tags_match tf_filter tf_Name].
  unfold rule_tag. cbn [existsb]. fold (rule_tag pats ts).
  assert (forall g : string -> bool, existsb (fun t => if decide (Key t = tf_Name p) then g (Value t) else false) ts =
    existsb (fun t => bool_decide (Key t = tf_Name p) && g (Value t)) ts) as Hd.
  { intros g. induction ts as [|t ts IHt]; [done|]. simpl. rewrite IHt. f_equal.
    case_decide as Hk; [by rewrite bool_decide_eq_true_2|by rewrite bool_decide_eq_false_2]. }
  destruct fo as [fl|].
  - rewrite Hd, Hm. clear Hd.
    assert (existsb (fun t => bool_decide (Key t = tf_Name p) && Match fl (Value t)) ts =
      existsb (fun t => bool_decide (Key t = tf_Name p) && any_match (tf_Filter p) (Value t)) ts) as ->.
    { induction ts as [|t ts IHt]; [done|]. simpl. by rewrite IHt, (Hs fl). }
    by destruct (existsb _ ts).
  - rewrite Hm. replace (existsb _ ts) with false; [done|]. rewrite (proj1 Hn eq_refl). symmetry.
    clear. induction ts as [|t ts IHt]; [done|]. simpl. rewrite andb_false_r. exact IHt.
Qed.

(** All the pattern lists of a filter compile. *)
Definition filter_ok (f : Filter) : Prop :=
  patterns_ok (NameDrop f) /\ patterns_ok (NamePass f) /\ patterns_ok (FieldDrop f) /\
  patterns_ok (FieldPass f) /\ patterns_ok (TagExclude f) /\ patterns_ok (TagInclude f) /\
  Forall (fun t => patterns_ok (tf_Filter t)) (default [] (TagDrop f)) /\
  Forall (fun t => patterns_ok (tf_Filter t)) (default [] (TagPass f)) /\
  isActive f = false /\ nameDrop f = None /\ namePass f = None.

(** [Filter.Compile] succeeds, and the compiled rules are the configured ones. *)
Lemma Filter_Compile_rules f :
  filter_ok f -> exists f', Filter_Compile f = inl f' /\ isActive f' = has_rules f /\
    (has_rules f = true ->
      (forall k, shouldNamePass f' k = rule_pass (NamePass f) (NameDrop f) k) /\
      (forall k, shouldFieldPass f' k = rule_pass (FieldPass f) (FieldDrop f) k) /\
      (forall k, tag_kept f' k = rule_pass (TagInclude f) (TagExclude f) k) /\
      (forall ts, shouldTagsPass f' ts =
        match TagPass f with Some ps => rule_tag ps ts | None => true end &&
        negb (match TagDrop f with Some ps => rule_tag ps ts | None => false end))).
Proof.
  intros (H1 & H2 & H3 & H4 & H5 & H6 & H7 & H8 & Ha & _ & _).
  unfold Filter_Compile, has_rules. destruct (is_nil (NameDrop f) && _ && _ && _ && _ && _ && _ && _).
  { exists f. by rewrite Ha. }
  destruct (compile_list_spec "namedrop" _ H1) as (nd & -> & N1 & N2).
  destruct (compile_list_spec "namepass" _ H2) as (np & -> & P1 & P2).
  destruct (compile_list_spec "fielddrop" _ H3) as (fd & -> & D1 & D2).
  destruct (compile_list_spec "fieldpass" _ H4) as (fp & -> & F1 & F2).
  destruct (compile_list_spec "tagexclude" _ H5) as (te & -> & E1 & E2).
  destruct (compile_list_spec "taginclude" _ H6) as (ti & -> & I1 & I2).
  destruct (compile_tags_spec "tagdrop" _ H7) as (tdr & -> & TD).
  destruct (compile_tags_spec "tagpass" _ H8) as (tps & -> & TP).
  eexists. split; [reflexivity|]. split; [done|]. intros _. split_and!.
  - intros k. rewrite <- (pass_drop_rule _ _ np nd k) by done. by destruct np, nd.
  - intros k. rewrite <- (pass_drop_rule _ _ fp fd k) by done. by destruct fp, fd.
  - intros k. rewrite <- (pass_drop_rule _ _ ti te k) by done. unfold tag_kept. simpl.
    destruct ti, te; by rewrite ?andb_true_r.
  - intros ts. unfold shouldTagsPass. simpl.
    destruct (TagPass f), (TagDrop f); simpl in *; by rewrite ?TD, ?TP, ?andb_true_r.
Qed.

Lemma no_rules_keep f k :
  has_rules f = false ->
  rule_pass (FieldPass f) (FieldDrop f) k = true /\ rule_pass (TagInclude f) (TagExclude f) k = true.
Proof.
  unfold has_rules. rewrite negb_false_iff, !andb_true_iff. intros H'. destruct_and? H'.
  destruct (FieldPass f), (FieldDrop f), (TagInclude f), (TagExclude f); done.
Qed.

(** What a compiled filter does, by the rules it was compiled from. *)
Definition acts_as (f f' : Filter) : Prop := forall m, wf m ->
  Select f' m = (if has_rules f then rules_select f m else true) /\
  Modify f' m = mkMetric (name m)
    (filter (fun t => rule_pass (TagInclude f) (TagExclude f) (Key t) = true) (tags m))
    (filter (fun x => rule_pass (FieldPass f) (FieldDrop f) (FKey x) = true) (fields m))
    (tm m) (tp m) (aggregate m) /\
  wf (Modify f' m).

Lemma Filter_Compile_acts f : filter_ok f -> exists f', Filter_Compile f = inl f' /\ acts_as f f'.
Proof.
  intros Hok. destruct (Filter_Compile_rules f Hok) as (f' & E & Ha & Hr).
  exists f'. split; [done|]. intros m Hwf. split; [|split; [|by apply Modify_wf]].
  - unfold Select, rules_select. rewrite Ha. destruct (has_rules f); [|done].
    destruct (Hr eq_refl) as (Hn & _ & _ & Ht). simpl. rewrite Hn, Ht.
    destruct (rule_pass _ _ _); [|done]. simpl. by destruct (_ && _).
  - unfold Modify. rewrite Ha. destruct (has_rules f) eqn:Eh; simpl.
    + destruct (Hr eq_refl) as (_ & Hf & Ht & _).
      rewrite filterTags_spec by (by apply filterFields_wf). rewrite filterFields_spec by done.
      unfold set_tags, set_fields. simpl. f_equal; apply list_filter_iff; intros; by rewrite ?Hf, ?Ht.
    + rewrite !filter_keeps_all by (intros; by apply no_rules_keep). by destruct m.
Qed.

End FilterClaims.

(** *** A concrete glob for the witnesses

    Literal patterns and alternatives only. *)

Fixpoint split_commas (s acc : string) : list string :=
  match s with
  | EmptyString => [acc]
  | String c s' => if Ascii.eqb c ","%char then acc :: split_commas s' EmptyString
                   else split_commas s' (acc +:+ String c EmptyString)
  end.
Fixpoint strip_last (s : string) : option string :=
  match s with
  | EmptyString => None
  | String c EmptyString => if Ascii.eqb c "}"%char then Some EmptyString else None
  | String c s' => String c <$> strip_last s'
  end.
Definition alt_compile (p : string) : list string + err :=
  match p with
  | String c p' =>
    if Ascii.eqb c "{"%char then match strip_last p' with Some q => inl (split_commas q EmptyString) | None => inr "missing }" end
    else inl [p]
  | EmptyString => inl [p]
  end.
#[local] Instance alt_glob : Glob :=
  {| glob_t := list string; glob_compile := alt_compile;
     glob_match := fun g s => existsb (fun p => bool_decide (s = p)) g |}.

Lemma plain_head c p : plain (String c p) = true ->
  Ascii.eqb c "{"%char = false /\ Ascii.eqb c ","%char = false /\ plain p = true.
Proof.
  unfold plain, IndexAny. simpl. rewrite !negb_true_iff, !orb_false_iff. tauto.
Qed.

Lemma alt_compile_plain p : plain p = true -> alt_compile p = inl [p].
Proof. destruct p as [|c p]; [done|]. intros (E & _ & _)%plain_head. unfold alt_compile. by rewrite E. Qed.

Lemma split_commas_plain p q acc :
  plain p = true -> split_commas (p +:+ q) acc = split_commas q (acc +:+ p).
Proof.
  revert acc. induction p as [|c p IH]; intros acc Hp; simpl.
  { by rewrite str_app_nil_r. }
  apply plain_head in Hp as (_ & E & Hp). rewrite E, IH by done. f_equal.
  by rewrite str_app_assoc.
Qed.

Lemma split_join ps : ps <> [] -> Forall (fun p => plain p = true) ps -> split_commas (Join ps ",") EmptyString = ps.
Proof.
  induction ps as [|p [|p' ps] IH]; intros Hne Hps; [done| |]; apply Forall_cons in Hps as [Hp Hps].
  - cbn [Join]. rewrite <- (str_app_nil_r p) at 1.
    rewrite split_commas_plain by done. done.
  - change (Join (p :: p' :: ps) ",") with (p +:+ "," +:+ Join (p' :: ps) ",").
    rewrite split_commas_plain by done. simpl. f_equal. by apply IH.
Qed.

Lemma strip_last_app s : strip_last (s +:+ "}") = Some s.
Proof.
  induction s as [|c s IH]; [done|]. destruct s as [|c' s]; [done|].
  change (String c <$> strip_last (String c' s +:+ "}") = Some (String c (String c' s))).
  by rewrite IH.
Qed.

#[local] Instance alt_glob_laws : GlobLaws.
Proof.
  constructor.
  - intros p _ Hp. exists [p]. split; [by apply alt_compile_plain|]. intros s. simpl. by rewrite orb_false_r.
  - intros ps gs Hlen Hps Hgs. exists ps. split.
    + change (match strip_last (Join ps "," +:+ "}") with
        | Some q => inl (split_commas q EmptyString) | None => inr "missing }" end = (inl ps : list string + err)).
      rewrite strip_last_app, split_join; [done| |done]. intros ->. simpl in Hlen. lia.
    + intros s. cbn [glob_match alt_glob].
      assert (gs = (fun p => [p]) <$> ps) as ->.
      { clear Hlen. induction Hgs as [|p g ps gs Hp Hgs IH]; [done|].
        apply Forall_cons in Hps as [Hpp Hps]. rewrite IH by done. simpl. f_equal.
        change (alt_compile p = inl g) in Hp. rewrite alt_compile_plain in Hp by done. by injection Hp. }
      clear. induction ps as [|p ps IH]; [done|]. simpl. rewrite orb_false_r. f_equal. exact IH.
Qed.

Definition ex_filter : Filter :=
  mkFilter ["mem"; "cpu*"] None ["cpu"; "disk"] None [] None ["a*"; "b"] None None
    (Some [mkTagFilter "host" ["h1"; "h2"] None]) ["dc"] None [] None false.
Definition ex_in : metric :=
  mkMetric "cpu" [mkTag "dc" "x"; mkTag "host" "h2"]
    [mkField "a" (VInt 1); mkField "b" (VInt 2)] 0 Untyped false.

Lemma ex_filter_ok : filter_ok ex_filter.
Proof.
  repeat split; repeat (apply Forall_cons; split; [|]); try apply Forall_nil; try (split; [reflexivity|]);
    try (intros _; eexists; reflexivity); try (intros Hb; vm_compute in Hb; discriminate).
  all: try reflexivity. all: repeat constructor; try reflexivity; try (intros Hb; vm_compute in Hb; discriminate).
Qed.

