(* ===== verification/Running.v ===== *)
(** * Running plugins

    [internal/models]: the wrappers the agent runs plugins in. They apply the
    plugin's filter and naming rules, keep the statistics, and call the plugin:
    [makemetric.go], [log.go], [running_input.go], [running_processor.go] and
    [running_aggregator.go]. A metric is passed by pointer and changed in place;
    the wrappers are its only holders while they run, so an update is a new value
    that replaces the old one. Times and durations are nanoseconds; what the
    wrappers read from the clock is an argument. Debug and warning output is not
    modelled. *)

From S2P Require Import Prelude Float64 Metric Tracking Selfstat Interfaces Filter.

(** ** Loggers: [log.go]

    A callback registered with [OnErr] increments statistics. *)

Record Logger := mkLogger { OnErrs : list (list Stat); LogName_ : string }.

Definition logName (pluginType nm alias : string) : string :=
  if decide (alias = EmptyString) then pluginType +:+ "." +:+ nm
  else pluginType +:+ "." +:+ nm +:+ "::" +:+ alias.

Definition NewLogger (pluginType nm alias : string) : Logger :=
  mkLogger [] (logName pluginType nm alias).

Definition OnErr (f : list Stat) (l : Logger) : Logger := mkLogger (OnErrs l ++ [f]) (LogName_ l).

(** [Errorf] and [Error]. *)
Definition Errorf `{StatEnv W} (l : Logger) (w : W) : W :=
  foldl (fun w f => foldl (fun w s => stat_Incr s 1 w) w f) w (OnErrs l).

(** ** Naming rules: [makemetric.go] *)

(** [for k, v := range tags { if !HasTag { AddTag } }]. *)
Definition add_missing (l : list (string * string)) (m : metric) : metric :=
  foldl (fun m kv => match GetTag kv.1 m with Some _ => m | None => AddTag kv.1 kv.2 m end) m l.

Definition makemetric `{MapRange} (nameOverride namePrefix nameSuffix : string)
    (ptags globalTags : gmap string string) (m : metric) : metric :=
  let m := if (String.length nameOverride =? 0)%nat then m else SetName nameOverride m in
  let m := if (String.length namePrefix =? 0)%nat then m else AddPrefix namePrefix m in
  let m := if (String.length nameSuffix =? 0)%nat then m else AddSuffix nameSuffix m in
  let m := add_missing (range_map ptags) m in
  add_missing (range_map globalTags) m.

(** The tags of a plugin's statistics. *)
Definition stat_tags (kind nm alias : string) : gmap string string :=
  let t : gmap string string := {[kind := nm]} in
  if decide (alias = EmptyString) then t else <["alias" := alias]> t.

Definition with_base (b : metric) (m : tmetric) : tmetric := mkTM b (td m).

(** ** Inputs: [running_input.go] *)

Definition GlobalMetricsGathered `{MapRange} : Stat :=
  mkStat (key "internal_agent" ∅) "metrics_gathered".
Definition GlobalGatherErrors `{MapRange} : Stat :=
  mkStat (key "internal_agent" ∅) "gather_errors".

Module RunningInput.
Section RunningInput.
Context `{Glob} `{MapRange} {W : Type} `{StatEnv W} `{MetricEnv tmetric W}.

Record InputConfig := mkConfig {
  Name : string;
  Alias : string;
  Interval : Z;
  NameOverride : string;
  MeasurementPrefix : string;
  MeasurementSuffix : string;
  CTags : gmap string string;
  CFilter : Filter;
}.

Record RunningInput := mkRI {
  Config : InputConfig;
  log : Logger;
  defaultTags : gmap string string;
  MetricsGathered : Stat;
  GatherTime : Stat;
}.

Definition NewRunningInput (config : InputConfig) (r : Registry) : RunningInput * Registry :=
  let tgs := stat_tags "input" (Name config) (Alias config) in
  let '(inputErrorsRegister, r) := Register "gather" "errors" tgs r in
  let logger := NewLogger "inputs" (Name config) (Alias config) in
  let logger := OnErr [inputErrorsRegister; GlobalGatherErrors] logger in
  let '(s1, r) := Register "gather" "metrics_gathered" tgs r in
  let '(s2, r) := RegisterTiming "gather" "gather_time_ns" tgs r in
  (mkRI config logger ∅ s1 s2, r).

Definition metricFiltered (m : tmetric) (w : W) : option W := m_Drop m w.

Definition MakeMetric (r : RunningInput) (m : tmetric) (w : W) : option (option tmetric * W) :=
  if negb (Select (CFilter (Config r)) (base m)) then
    w ← metricFiltered m w; Some (None, w)
  else
    let m := with_base (makemetric (NameOverride (Config r)) (MeasurementPrefix (Config r))
      (MeasurementSuffix (Config r)) (CTags (Config r)) (defaultTags r) (base m)) m in
    let m := with_base (Modify (CFilter (Config r)) (base m)) m in
    if (length (fields (base m)) =? 0)%nat then
      w ← metricFiltered m w; Some (None, w)
    else
      let w := stat_Incr (MetricsGathered r) 1 w in
      let w := stat_Incr GlobalMetricsGathered 1 w in
      Some (Some m, w).

(** [Gather]: [gather] is the plugin's method, [start] and [stop] the clock
    before and after it. *)
Definition Gather (r : RunningInput) (gather : W -> option err * W) (start stop : Z) (w : W) :
    option err * W :=
  let '(e, w) := gather w in (e, stat_Incr (GatherTime r) (stop - start) w).

Definition SetDefaultTags (tgs : gmap string string) (r : RunningInput) : RunningInput :=
  mkRI (Config r) (log r) tgs (MetricsGathered r) (GatherTime r).
End RunningInput.
End RunningInput.

(** ** Processors: [running_processor.go] *)

Module RunningProcessor.
Section RunningProcessor.
Context `{Glob} `{MapRange} {P W : Type} `{StatEnv W} `{MetricEnv tmetric W} `{Processor P W}.

Record ProcessorConfig := mkConfig {
  Name : string;
  Alias : string;
  Order : Z;
  CFilter : Filter;
}.

Record RunningProcessor := mkRP {
  log : Logger;
  plugin : P;
  Config : ProcessorConfig;
}.

(** [RunningProcessors.Less]. *)
Definition Less (a b : RunningProcessor) : bool := Order (Config a) <? Order (Config b).

Definition NewRunningProcessor (processor : P) (config : ProcessorConfig) (r : Registry) :
    RunningProcessor * Registry :=
  let tgs := stat_tags "processor" (Name config) (Alias config) in
  let '(processErrorsRegister, r) := Register "process" "errors" tgs r in
  let logger := OnErr [processErrorsRegister] (NewLogger "processors" (Name config) (Alias config)) in
  (mkRP logger processor config, r).

Definition metricFiltered (m : tmetric) (w : W) : option W := m_Drop m w.

(** The loop of [Apply]. *)
Fixpoint apply_loop (ins ret : list tmetric) (f : Filter) (p : P) (w : W) :
    option (list tmetric * P * W) :=
  match ins with
  | [] => Some (ret, p, w)
  | m :: ins' =>
    if negb (Select f (base m)) then apply_loop ins' (ret ++ [m]) f p w
    else
      let m := with_base (Modify f (base m)) m in
      if (length (fields (base m)) =? 0)%nat then
        w ← metricFiltered m w; apply_loop ins' ret f p w
      else
        '(out, p, w) ← processor_Apply [m] p w;
        apply_loop ins' (ret ++ out) f p w
  end.

Definition Apply (ins : list tmetric) (rp : RunningProcessor) (w : W) :
    option (list tmetric * RunningProcessor * W) :=
  '(ret, p, w) ← apply_loop ins [] (CFilter (Config rp)) (plugin rp) w;
  Some (ret, mkRP (log rp) p (Config rp), w).

(** [applyProcessors] of [agent/agent.go]: the chain of processors. *)
Fixpoint applyProcessors (rps : list RunningProcessor) (ms : list tmetric) (w : W) :
    option (list tmetric * list RunningProcessor * W) :=
  match rps with
  | [] => Some (ms, [], w)
  | rp :: rps' =>
    '(ms, rp, w) ← Apply ms rp w;
    '(ms, rps', w) ← applyProcessors rps' ms w;
    Some (ms, rp :: rps', w)
  end.
End RunningProcessor.
End RunningProcessor.

(** ** Aggregators: [running_aggregator.go] *)

Module RunningAggregator.
Section RunningAggregator.
Context `{Glob} `{MapRange} {G W : Type} `{StatEnv W} `{Aggregator G}.

Record AggregatorConfig := mkConfig {
  Name : string;
  Alias : string;
  DropOriginal : bool;
  CPeriod : Z;
  Delay : Z;
  Grace : Z;
  NameOverride : string;
  MeasurementPrefix : string;
  MeasurementSuffix : string;
  CTags : gmap string string;
  CFilter : Filter;
}.

Record RunningAggregator := mkRA {
  agg : G;
  Config : AggregatorConfig;
  periodStart : Z;
  periodEnd : Z;
  log : Logger;
  MetricsPushed : Stat;
  MetricsFiltered : Stat;
  MetricsDropped : Stat;
  PushTime : Stat;
}.

Definition zero_time : Z := - 62135596800 * 1000000000.

Definition NewRunningAggregator (aggregator : G) (config : AggregatorConfig) (r : Registry) :
    RunningAggregator * Registry :=
  let tgs := stat_tags "aggregator" (Name config) (Alias config) in
  let '(aggErrorsRegister, r) := Register "aggregate" "errors" tgs r in
  let logger := OnErr [aggErrorsRegister] (NewLogger "aggregators" (Name config) (Alias config)) in
  let '(s1, r) := Register "aggregate" "metrics_pushed" tgs r in
  let '(s2, r) := Register "aggregate" "metrics_filtered" tgs r in
  let '(s3, r) := Register "aggregate" "metrics_dropped" tgs r in
  let '(s4, r) := Register "aggregate" "push_time_ns" tgs r in
  (mkRA aggregator config zero_time zero_time logger s1 s2 s3 s4, r).

Definition Period (r : RunningAggregator) : Z := CPeriod (Config r).
Definition EndPeriod (r : RunningAggregator) : Z := periodEnd r.

Definition UpdateWindow (start until : Z) (r : RunningAggregator) : RunningAggregator :=
  mkRA (agg r) (Config r) start until (log r) (MetricsPushed r) (MetricsFiltered r)
    (MetricsDropped r) (PushTime r).
Definition set_agg (g : G) (r : RunningAggregator) : RunningAggregator :=
  mkRA g (Config r) (periodStart r) (periodEnd r) (log r) (MetricsPushed r) (MetricsFiltered r)
    (MetricsDropped r) (PushTime r).

Definition MakeMetric (r : RunningAggregator) (m : tmetric) (w : W) : tmetric * W :=
  let m := with_base (makemetric (NameOverride (Config r)) (MeasurementPrefix (Config r))
    (MeasurementSuffix (Config r)) (CTags (Config r)) ∅ (base m)) m in
  let m := with_base (SetAggregate true (base m)) m in
  (m, stat_Incr (MetricsPushed r) 1 w).

(** [Add]: whether the original should be dropped. *)
Definition Add (m : tmetric) (r : RunningAggregator) (w : W) : option (bool * RunningAggregator * W) :=
  if negb (Select (CFilter (Config r)) (base m)) then Some (false, r, w)
  else
    let m := FromMetric (base m) in
    let m := Modify (CFilter (Config r)) m in
    if (length (fields m) =? 0)%nat then
      Some (DropOriginal (Config r), r, stat_Incr (MetricsFiltered r) 1 w)
    else if (tm m <? periodStart r + - Grace (Config r)) || (periodEnd r + Delay (Config r) <? tm m) then
      Some (DropOriginal (Config r), r, stat_Incr (MetricsDropped r) 1 w)
    else
      g ← agg_Add m (agg r);
      Some (DropOriginal (Config r), set_agg g r, w).

(** [push]: the calls of the plugin, and the time they took. *)
Definition push (start stop : Z) (r : RunningAggregator) (w : W) :
    option (list AccCall * RunningAggregator * W) :=
  '(calls, g) ← agg_Push start (agg r);
  Some (calls, set_agg g r, stat_Incr (PushTime r) (stop - start) w).

Definition Push (start stop : Z) (r : RunningAggregator) (w : W) :
    option (list AccCall * RunningAggregator * W) :=
  let since := periodEnd r in
  let until := periodEnd r + CPeriod (Config r) in
  let r := UpdateWindow since until r in
  '(calls, r, w) ← push start stop r w;
  Some (calls, set_agg (agg_Reset (agg r)) r, w).
End RunningAggregator.
End RunningAggregator.

(** ** Properties *)

Lemma add_missing_spec l m :
  wf m -> NoDup l.*1 ->
  wf (add_missing l m) /\ Tags (add_missing l m) = Tags m ∪ list_to_map l /\
  name (add_missing l m) = name m /\ fields (add_missing l m) = fields m /\
  tm (add_missing l m) = tm m /\ tp (add_missing l m) = tp m /\
  aggregate (add_missing l m) = aggregate m.
Proof.
  unfold add_missing. revert m. induction l as [|[k v] l IH]; intros m Hwf Hnd.
  { split_and!; try done. simpl. by rewrite (right_id_L ∅ (∪)). }
  rewrite fmap_cons in Hnd. apply NoDup_cons in Hnd as [Hk Hnd]. cbn [foldl fst snd].
  rewrite GetTag_Tags by done. destruct (Tags m !! k) as [v'|] eqn:E.
  - destruct (IH m Hwf Hnd) as (Hwf' & HT & Hrest). split; [done|]. split; [|done]. rewrite HT.
    apply map_eq. intros k'. rewrite list_to_map_cons, !lookup_union.
    destruct (decide (k' = k)) as [->|Hne]; [|by rewrite lookup_insert_ne].
    rewrite E, lookup_insert_eq. simpl. by destruct (list_to_map l !! k).
  - destruct (IH (AddTag k v m) (AddTag_wf _ _ _ Hwf) Hnd) as (Hwf' & HT & Hrest).
    split; [done|]. split; [|done]. rewrite HT, Tags_AddTag by done.
    apply map_eq. intros k'. rewrite list_to_map_cons, !lookup_union.
    destruct (decide (k' = k)) as [->|Hne]; [|by rewrite !lookup_insert_ne].
    rewrite E, !lookup_insert_eq, (not_elem_of_list_to_map_1 l k) by done. done.
Qed.

(** The name after the naming rules. *)
Definition made_name (over prefix suffix nm : string) : string :=
  prefix +:+ (if decide (over = EmptyString) then nm else over) +:+ suffix.

Lemma strlen_0 (s : string) : (String.length s =? 0)%nat = bool_decide (s = EmptyString).
Proof. by destruct s. Qed.

Lemma makemetric_spec `{MapRange} over prefix suffix ptags gtags m :
  wf m ->
  let m' := makemetric over prefix suffix ptags gtags m in
  wf m' /\ name m' = made_name over prefix suffix (name m) /\
  Tags m' = Tags m ∪ ptags ∪ gtags /\ fields m' = fields m /\
  tm m' = tm m /\ tp m' = tp m /\ aggregate m' = aggregate m.
Proof.
  intros Hwf. unfold makemetric. rewrite !strlen_0.
  set (m3 := if bool_decide (suffix = EmptyString) then _ else _).
  assert (wf m3 /\ name m3 = made_name over prefix suffix (name m) /\ tags m3 = tags m /\
    fields m3 = fields m /\ tm m3 = tm m /\ tp m3 = tp m /\ aggregate m3 = aggregate m) as
    (Hwf3 & Hn3 & Ht3 & Hf3 & Htm & Htp & Hag).
  { unfold m3, made_name. destruct Hwf as [Hw1 Hw2].
    do 3 case_bool_decide; subst; rewrite ?str_app_nil_r; case_decide; subst; try done;
      simpl; rewrite ?str_app_nil_r, ?str_app_assoc; split_and!; try done; by constructor. }
  assert (Tags m3 = Tags m) as HT3 by (unfold Tags; by rewrite Ht3).
  destruct (add_missing_spec (range_map ptags) m3) as (W4 & T4 & N4 & F4 & A4 & B4 & C4);
    [done|apply range_map_NoDup|].
  destruct (add_missing_spec (range_map gtags) (add_missing (range_map ptags) m3))
    as (W5 & T5 & N5 & F5 & A5 & B5 & C5); [done|apply range_map_NoDup|].
  split_and!; try done; try congruence.
  rewrite T5, T4, HT3. f_equal; [f_equal|]; apply list_to_map_range.
Qed.

Section RunningClaims.
Context `{Glob} `{MapRange} {W : Type} `{StatEnv W} `{MetricEnv tmetric W}.

(** C12: [RunningInput.MakeMetric] either hands the metric on or drops it,
    exactly once. What it hands on has the configured name, keeps its own tags
    and gets the plugin's and then the agent's tags where it has none, loses
    exactly the tags and fields the filter removes, has at least one field, keeps
    its tracking, and is counted twice, per plugin and globally; a metric that is
    not selected or has no field left is dropped. *)
Theorem MakeMetric_input (r : RunningInput.RunningInput) (m : tmetric) :
  wf (base m) ->
  let c := RunningInput.Config r in
  let f := RunningInput.CFilter c in
  exists b', wf b' /\
    name b' = made_name (RunningInput.NameOverride c) (RunningInput.MeasurementPrefix c)
      (RunningInput.MeasurementSuffix c) (name (base m)) /\
    (forall k, Tags b' !! k = if tag_ok f k
      then (Tags (base m) ∪ RunningInput.CTags c ∪ RunningInput.defaultTags r) !! k else None) /\
    fields b' = filter (fun x => field_ok f (FKey x) = true) (fields (base m)) /\
    tm b' = tm (base m) /\ tp b' = tp (base m) /\
    forall w, RunningInput.MakeMetric r m w =
      if Select f (base m) then
        if is_nil (fields b') then w' ← m_Drop (mkTM b' (td m)) w; Some (None, w')
        else Some (Some (mkTM b' (td m)),
          stat_Incr GlobalMetricsGathered 1 (stat_Incr (RunningInput.MetricsGathered r) 1 w))
      else w' ← m_Drop m w; Some (None, w').
Proof.
  intros Hwf c f.
  destruct (makemetric_spec (RunningInput.NameOverride c) (RunningInput.MeasurementPrefix c)
    (RunningInput.MeasurementSuffix c) (RunningInput.CTags c) (RunningInput.defaultTags r) (base m) Hwf)
    as (Hwf1 & Hn & HT & Hf & Htm & Htp & _).
  set (m1 := makemetric _ _ _ _ _ (base m)) in *.
  exists (Modify f m1). pose proof (Modify_spec f m1 Hwf1) as HM.
  split; [by apply Modify_wf|]. rewrite HM. simpl.
  split_and!; [done| |by rewrite Hf|done|done|].
  - intros k. rewrite <- HT, <- !GetTag_Tags by
      (done || (rewrite <- HM; by apply Modify_wf)).
    unfold GetTag. simpl. rewrite key_find_filter. by destruct (tag_ok f k).
  - intros w. unfold RunningInput.MakeMetric, RunningInput.metricFiltered. fold c f.
    destruct (Select f (base m)); simpl; [|done]. fold m1. rewrite HM. simpl.
    by destruct (filter _ (fields m1)).
Qed.
End RunningClaims.

#[local] Existing Instances map_range_default alt_glob log_stats log_metrics.

(** A filter without rules, and an input with it. *)
Definition no_filter : Filter :=
  mkFilter [] None [] None [] None [] None None None [] None [] None false.
Definition ex_input : RunningInput.RunningInput :=
  RunningInput.SetDefaultTags {["host" := "h9"; "dc" := "eu"]}
    (RunningInput.NewRunningInput
      (RunningInput.mkConfig "cpu" EmptyString 10 EmptyString "pre_" EmptyString {["rack" := "r1"]} no_filter) ∅).1.

Lemma MakeMetric_input_witness :
  exists b', name b' = "pre_cpu" /\ Tags b' !! "dc" = Some "x" /\ Tags b' !! "rack" = Some "r1" /\
    RunningInput.MakeMetric ex_input (mkTM ex_in None) [] = Some (Some (mkTM b' None), []).
Proof.
  assert (wf ex_in) as Hwf by (constructor; apply (bool_decide_unpack _); vm_compute; exact I).
  destruct (MakeMetric_input ex_input (mkTM ex_in None) Hwf) as (b' & _ & Hn & HT & Hf & _ & _ & Hm).
  exists b'. split; [rewrite Hn; reflexivity|].
  split; [rewrite HT; vm_compute; reflexivity|]. split; [rewrite HT; vm_compute; reflexivity|].
  rewrite Hm, Hf. reflexivity.
Defined.

Section ProcessorClaims.
Context `{Glob} `{MapRange} {P W : Type} `{StatEnv W} `{MetricEnv tmetric W} `{Processor P W}.
Import RunningProcessor.

Lemma apply_loop_app a b ret f (p : P) (w : W) :
  apply_loop (a ++ b) ret f p w =
  '(ret, p, w) ← apply_loop a ret f p w; apply_loop b ret f p w.
Proof.
  revert ret p w. induction a as [|m a IH]; intros ret p w; [done|]. cbn [app apply_loop].
  destruct (negb (Select f (base m))); [apply IH|].
  destruct (_ =? 0)%nat.
  - destruct (metricFiltered _ w); binds; [apply IH|done].
  - destruct (processor_Apply _ p w) as [[[out p1] w1]|]; binds; [apply IH|done].
Qed.

Lemma apply_loop_ret a ret f (p : P) (w : W) :
  apply_loop a ret f p w = '(r, p, w) ← apply_loop a [] f p w; Some (ret ++ r, p, w).
Proof.
  revert ret p w. induction a as [|m a IH]; intros ret p w; [simpl; by rewrite app_nil_r|].
  cbn [apply_loop]. destruct (negb (Select f (base m))).
  { rewrite IH, (IH ([] ++ _)). destruct (apply_loop a [] f p w) as [[[r p1] w1]|]; [|done].
    binds. by rewrite <- app_assoc. }
  destruct (_ =? 0)%nat.
  - destruct (metricFiltered _ w); binds; [apply IH|done].
  - destruct (processor_Apply _ p w) as [[[out p1] w1]|]; binds; [|done].
    rewrite IH, (IH ([] ++ _)). destruct (apply_loop a [] f p1 w1) as [[[r p2] w2]|]; [|done].
    binds. by rewrite <- app_assoc.
Qed.

(** [RunningProcessor.Apply] handles the metrics one at a time and keeps
    their order: applying it to two slices in turn is applying it to their
    concatenation. A metric the filter does not select passes unchanged and
    never reaches the plugin; a selected one reaches it alone, with exactly the
    fields and tags the filter keeps, or is dropped once when no field is left. *)
Theorem Apply_processor (rp : RunningProcessor (P:=P)) :
  (forall a b (w : W), Apply (a ++ b) rp w =
    '(r1, rp, w) ← Apply a rp w; '(r2, rp, w) ← Apply b rp w; Some (r1 ++ r2, rp, w)) /\
  (forall m (w : W), wf (base m) ->
    let f := CFilter (Config rp) in
    exists b', wf b' /\ name b' = name (base m) /\
      tags b' = filter (fun t => tag_ok f (Key t) = true) (tags (base m)) /\
      fields b' = filter (fun x => field_ok f (FKey x) = true) (fields (base m)) /\
      Apply [m] rp w =
        if Select f (base m) then
          if is_nil (fields b') then w' ← m_Drop (mkTM b' (td m)) w; Some ([], rp, w')
          else '(out, p, w') ← processor_Apply [mkTM b' (td m)] (plugin rp) w;
            Some (out, mkRP (log rp) p (Config rp), w')
        else Some ([m], rp, w)).
Proof.
  split.
  - intros a b w. unfold Apply. rewrite apply_loop_app.
    destruct (apply_loop a [] _ _ w) as [[[r1 p1] w1]|]; [|done]. binds. cbn [Config plugin log].
    rewrite apply_loop_ret. by destruct (apply_loop b [] _ _ w1) as [[[r2 p2] w2]|].
  - intros m w Hwf f. exists (Modify f (base m)). pose proof (Modify_spec f (base m) Hwf) as HM.
    split; [by apply Modify_wf|]. rewrite HM. split_and!; try done. unfold Apply. cbn [apply_loop].
    fold f. destruct (Select f (base m)); simpl; [|by destruct rp].
    rewrite HM. simpl. unfold metricFiltered, with_base.
    destruct (filter _ (fields (base m))); simpl.
    + destruct (m_Drop _ w); simpl; [by destruct rp|done].
    + by destruct (processor_Apply _ _ w) as [[[out p1] w1]|].
Qed.
End ProcessorClaims.

(** A plugin that duplicates what it gets. *)
Definition dup_processor W : Processor unit W := fun ms p w => Some (ms ++ ms, p, w).
#[local] Existing Instance dup_processor.

Lemma Apply_processor_witness :
  exists b', fields b' = fields ex_in /\
    RunningProcessor.Apply [mkTM ex_in None]
      (RunningProcessor.mkRP (NewLogger "processors" "dup" EmptyString) tt
        (RunningProcessor.mkConfig "dup" EmptyString 0 no_filter)) ([] : list (Call tmetric)) =
    Some ([mkTM b' None; mkTM b' None],
      RunningProcessor.mkRP (NewLogger "processors" "dup" EmptyString) tt
        (RunningProcessor.mkConfig "dup" EmptyString 0 no_filter), []).
Proof.
  assert (wf ex_in) as Hwf by (constructor; apply (bool_decide_unpack _); vm_compute; exact I).
  destruct (proj2 (Apply_processor (RunningProcessor.mkRP (NewLogger "processors" "dup" EmptyString) tt
    (RunningProcessor.mkConfig "dup" EmptyString 0 no_filter)))
    (mkTM ex_in None) ([] : list (Call tmetric)) Hwf) as (b' & _ & _ & _ & Hf & Hm).
  exists b'. split; [rewrite Hf; reflexivity|]. rewrite Hm, Hf. reflexivity.
Defined.

Section AggregatorClaims.
Context `{Glob} `{MapRange} {G W : Type} `{StatEnv W} `{Aggregator G}.
Import RunningAggregator.

(** The metric the plugin sees for [m] in the window [[s, e]], if any. *)
Definition admitted (c : AggregatorConfig) (s e : Z) (m : tmetric) : option metric :=
  let m' := Modify (CFilter c) (FromMetric (base m)) in
  if Select (CFilter c) (base m) && negb (is_nil (fields m')) &&
     (s - Grace c <=? tm m') && (tm m' <=? e + Delay c)
  then Some m' else None.

Fixpoint agg_adds (ms : list metric) (g : G) : option G :=
  match ms with [] => Some g | m :: ms' => g ← agg_Add m g; agg_adds ms' g end.

(** The metrics of a window, with whether each original is dropped. *)
Fixpoint adds (ms : list tmetric) (r : RunningAggregator) (w : W) :
    option (list bool * RunningAggregator * W) :=
  match ms with
  | [] => Some ([], r, w)
  | m :: ms' =>
    '(d, r, w) ← Add m r w;
    '(ds, r, w) ← adds ms' r w;
    Some (d :: ds, r, w)
  end.

(** Windows one after the other, each closed by a [Push] at its time. *)
Fixpoint rounds (rs : list (list tmetric * Z)) (r : RunningAggregator) (w : W) :
    option (list (list bool * list AccCall) * RunningAggregator * W) :=
  match rs with
  | [] => Some ([], r, w)
  | (ms, now) :: rs' =>
    '(ds, r, w) ← adds ms r w;
    '(calls, r, w) ← Push now now r w;
    '(outs, r, w) ← rounds rs' r w;
    Some ((ds, calls) :: outs, r, w)
  end.

(** The same, computed from the metrics each window admits. *)
Fixpoint window_outputs (rs : list (list tmetric * Z)) (c : AggregatorConfig) (s e : Z) (g : G) :
    option (list (list bool * list AccCall)) :=
  match rs with
  | [] => Some []
  | (ms, now) :: rs' =>
    g ← agg_adds (omap (admitted c s e) ms) g;
    '(calls, g) ← agg_Push now g;
    outs ← window_outputs rs' c e (e + CPeriod c) (agg_Reset g);
    Some (((fun m => Select (CFilter c) (base m) && DropOriginal c) <$> ms, calls) :: outs)
  end.

Lemma Add_admitted m r w :
  (fun x => (x.1.1, x.1.2)) <$> Add m r w =
  g ← agg_adds (option_list (admitted (Config r) (periodStart r) (periodEnd r) m)) (agg r);
  Some (Select (CFilter (Config r)) (base m) && DropOriginal (Config r), set_agg g r).
Proof.
  unfold Add, admitted. destruct (Select _ (base m)); simpl; [|by destruct r].
  set (m' := Modify _ _). destruct (fields m') as [|x xs]; simpl; [by destruct r|].
  change (periodStart r + - Grace (Config r)) with (periodStart r - Grace (Config r)).
  destruct (Z.ltb_spec (tm m') (periodStart r - Grace (Config r))).
  { rewrite (proj2 (Z.leb_gt _ _)) by done. simpl. by destruct r. }
  rewrite (proj2 (Z.leb_le _ _)) by done.
  destruct (Z.ltb_spec (periodEnd r + Delay (Config r)) (tm m')); simpl.
  { rewrite (proj2 (Z.leb_gt _ _)) by done. simpl. by destruct r. }
  rewrite (proj2 (Z.leb_le _ _)) by done. simpl. by destruct (agg_Add m' (agg r)).
Qed.

Lemma agg_adds_app a b g : agg_adds (a ++ b) g = g ← agg_adds a g; agg_adds b g.
Proof.
  revert g. induction a as [|m a IH]; intros g; [done|]. cbn [app agg_adds].
  destruct (agg_Add m g); binds; [apply IH|done].
Qed.

Lemma adds_admitted ms r w :
  (fun x => (x.1.1, x.1.2)) <$> adds ms r w =
  g ← agg_adds (omap (admitted (Config r) (periodStart r) (periodEnd r)) ms) (agg r);
  Some ((fun m => Select (CFilter (Config r)) (base m) && DropOriginal (Config r)) <$> ms, set_agg g r).
Proof.
  revert r w. induction ms as [|m ms IH]; intros r w; [by destruct r|].
  cbn [adds]. pose proof (Add_admitted m r w) as Ha.
  assert (omap (admitted (Config r) (periodStart r) (periodEnd r)) (m :: ms) =
    option_list (admitted (Config r) (periodStart r) (periodEnd r) m) ++
    omap (admitted (Config r) (periodStart r) (periodEnd r)) ms) as ->
    by (simpl; by destruct (admitted _ _ _ m)).
  rewrite agg_adds_app.
  destruct (agg_adds (option_list _) (agg r)) as [g|]; destruct (Add m r w) as [[[d r1] w1]|]; try done.
  simpl in Ha. injection Ha as -> ->. binds. specialize (IH (set_agg g r) w1). simpl in IH |- *.
  destruct (adds ms (set_agg g r) w1) as [[[ds r2] w2]|]; simpl in *;
    destruct (agg_adds _ g) as [g'|]; simpl in *; try done.
  by injection IH as -> ->.
Qed.

(** C38: a running aggregator computes, for each window in turn, the aggregate of
    exactly the selected metrics with a field left whose time is between the
    window's start less the grace period and its end plus the delay; windows
    follow one another without gap, each one period long, the plugin starts each
    from its reset state, and the original of a metric is dropped iff it is
    selected and the configuration says so. *)
Theorem Aggregator_windows (rs : list (list tmetric * Z)) (r : RunningAggregator) (w : W) :
  (fun x => x.1.1) <$> rounds rs r w =
  window_outputs rs (Config r) (periodStart r) (periodEnd r) (agg r).
Proof.
  revert r w. induction rs as [|[ms now] rs IH]; intros r w; [done|]. cbn [rounds window_outputs].
  pose proof (adds_admitted ms r w) as Ha.
  destruct (adds ms r w) as [[[ds r1] w1]|]; simpl in Ha;
    destruct (agg_adds _ (agg r)) as [g|]; simpl in Ha; try done.
  injection Ha as -> ->. binds. unfold Push, push. simpl.
  destruct (agg_Push now g) as [[calls g']|]; [|done]. simpl.
  set (r2 := set_agg _ _). set (w2 := stat_Incr _ _ w1). specialize (IH r2 w2). simpl in IH.
  destruct (rounds rs r2 w2) as [[[outs r3] w3]|]; simpl in IH |- *; rewrite <- IH; done.
Qed.
End AggregatorClaims.
