(* ===== verification/Output.v ===== *)
(** * Running outputs

    [internal/models/running_output.go]: the wrapper around an output plugin. It
    filters and renames metrics into the buffer, signals a full batch, and writes
    the buffer to the plugin batch by batch. The plugin is the class [Output];
    an output that aggregates ([telegraf.AggregatingOutput]) has the optional
    operations. Calls of [AddMetric] by other goroutines interleave with a write
    at the buffer's operations: [Buffer] has the theorems on such runs; the
    functions here are the sequential ones. *)

From S2P Require Import Prelude Float64 Metric Tracking Selfstat Interfaces Buffer Filter Running.
Import Buf.

Record AggregatingOutput (O : Type) := mkAO {
  ao_Add : tmetric -> O -> O;
  ao_Push : O -> list tmetric * O;
  ao_Reset : O -> O;
}.
Arguments ao_Add {O}.
Arguments ao_Push {O}.
Arguments ao_Reset {O}.

Class Output (O W : Type) := {
  output_Write : list (option tmetric) -> O -> W -> option err * O * W;
  output_Close : O -> W -> option err * O * W;
  output_agg : option (AggregatingOutput O);
}.

Definition DEFAULT_METRIC_BATCH_SIZE : Z := 1000.
Definition DEFAULT_METRIC_BUFFER_LIMIT : Z := 10000.

Module RunningOutput.
Section RunningOutput.
Context `{Glob} `{MapRange} {OP W : Type} `{StatEnv W} `{MetricEnv tmetric W} `{Output OP W}.

Record OutputConfig := mkConfig {
  Name : string;
  Alias : string;
  CFilter : Filter;
  FlushInterval : Z;
  FlushJitter : option Z;
  CMetricBufferLimit : Z;
  CMetricBatchSize : Z;
  NameOverride : string;
  NamePrefix : string;
  NameSuffix : string;
}.

Record RunningOutput := mkRO {
  newMetricsCount : Z;
  droppedMetrics : Z;
  plugin : OP;
  Config : OutputConfig;
  MetricBufferLimit : Z;
  MetricBatchSize : Z;
  MetricsFiltered : Stat;
  WriteTime : Stat;
  BatchReady : option Z;
  buffer : Buffer tmetric;
  log : Logger;
}.

Definition set_counts (n d : Z) (ready : option Z) (ro : RunningOutput) : RunningOutput :=
  mkRO n d (plugin ro) (Config ro) (MetricBufferLimit ro) (MetricBatchSize ro)
    (MetricsFiltered ro) (WriteTime ro) ready (buffer ro) (log ro).
Definition set_plugin (o : OP) (ro : RunningOutput) : RunningOutput :=
  mkRO (newMetricsCount ro) (droppedMetrics ro) o (Config ro) (MetricBufferLimit ro)
    (MetricBatchSize ro) (MetricsFiltered ro) (WriteTime ro) (BatchReady ro) (buffer ro) (log ro).
Definition set_buffer (b : Buffer tmetric) (ro : RunningOutput) : RunningOutput :=
  mkRO (newMetricsCount ro) (droppedMetrics ro) (plugin ro) (Config ro) (MetricBufferLimit ro)
    (MetricBatchSize ro) (MetricsFiltered ro) (WriteTime ro) (BatchReady ro) b (log ro).

Definition NewRunningOutput (output : OP) (config : OutputConfig) (batchSize bufferLimit : Z)
    (r : Registry) : option (RunningOutput * Registry) :=
  let tgs := stat_tags "output" (Name config) (Alias config) in
  let '(writeErrorsRegister, r) := Register "write" "errors" tgs r in
  let logger := OnErr [writeErrorsRegister] (NewLogger "outputs" (Name config) (Alias config)) in
  let bufferLimit := if 0 <? CMetricBufferLimit config then CMetricBufferLimit config else bufferLimit in
  let bufferLimit := if bufferLimit =? 0 then DEFAULT_METRIC_BUFFER_LIMIT else bufferLimit in
  let batchSize := if 0 <? CMetricBatchSize config then CMetricBatchSize config else batchSize in
  let batchSize := if batchSize =? 0 then DEFAULT_METRIC_BATCH_SIZE else batchSize in
  '(b, r) ← NewBuffer (Name config) (Alias config) bufferLimit r;
  let '(s1, r) := Register "write" "metrics_filtered" tgs r in
  let '(s2, r) := RegisterTiming "write" "write_time_ns" tgs r in
  Some (mkRO 0 0 output config bufferLimit batchSize s1 s2 None b logger, r).

Definition metricFiltered (ro : RunningOutput) (m : tmetric) (w : W) : option W :=
  m_Drop m (stat_Incr (MetricsFiltered ro) 1 w).

(** [AddMetric]; [now] is the clock. *)
Definition AddMetric (m : tmetric) (now : Z) (ro : RunningOutput) (w : W) : option (RunningOutput * W) :=
  let c := Config ro in
  if negb (Select (CFilter c) (base m)) then
    w ← metricFiltered ro m w; Some (ro, w)
  else
    let m := with_base (Modify (CFilter c) (base m)) m in
    if (length (fields (base m)) =? 0)%nat then
      w ← metricFiltered ro m w; Some (ro, w)
    else match output_agg with
    | Some ao => Some (set_plugin (ao_Add ao m (plugin ro)) ro, w)
    | None =>
      let m := if (0 <? String.length (NameOverride c))%nat then with_base (SetName (NameOverride c) (base m)) m else m in
      let m := if (0 <? String.length (NamePrefix c))%nat then with_base (AddPrefix (NamePrefix c) (base m)) m else m in
      let m := if (0 <? String.length (NameSuffix c))%nat then with_base (AddSuffix (NameSuffix c) (base m)) m else m in
      '(dropped, b, w) ← Add (buffer ro) [m] w;
      let ro := set_buffer b ro in
      let ro := set_counts (newMetricsCount ro) (int64 (droppedMetrics ro + int64 dropped)) (BatchReady ro) ro in
      let count := int64 (newMetricsCount ro + 1) in
      let ro := set_counts count (droppedMetrics ro) (BatchReady ro) ro in
      if count =? int64 (MetricBatchSize ro) then
        let ready := match BatchReady ro with None => Some now | Some t => Some t end in
        Some (set_counts 0 (droppedMetrics ro) ready ro, w)
      else Some (ro, w)
    end.

(** [write]: one call of the plugin that takes [elapsed] nanoseconds. *)
Definition write (ms : list (option tmetric)) (elapsed : Z) (ro : RunningOutput) (w : W) :
    option err * RunningOutput * W :=
  let ro := if 0 <? droppedMetrics ro then set_counts (newMetricsCount ro) 0 (BatchReady ro) ro else ro in
  let '(e, o, w) := output_Write ms (plugin ro) w in
  (e, set_plugin o ro, stat_Incr (WriteTime ro) elapsed w).

(** The loop of [Write]; [n] is the number of rounds left, [elapsed i] the
    duration of the [i]-th call of the plugin. *)
Fixpoint write_loop (n : nat) (i : nat) (elapsed : nat -> Z) (ro : RunningOutput) (w : W) :
    option (option err * RunningOutput * W) :=
  match n with
  | O => Some (None, ro, w)
  | S n' =>
    '(batch, b) ← Batch (buffer ro) (MetricBatchSize ro);
    let ro := set_buffer b ro in
    match batch with
    | [] => Some (None, ro, w)
    | _ =>
      let '(e, ro, w) := write batch (elapsed i) ro w in
      match e with
      | Some e =>
        '(b, w) ← Reject (buffer ro) batch w;
        Some (Some e, set_buffer b ro, w)
      | None =>
        '(b, w) ← Accept (buffer ro) batch w;
        write_loop n' (S i) elapsed (set_buffer b ro) w
      end
    end
  end.

Definition Write (elapsed : nat -> Z) (ro : RunningOutput) (w : W) :
    option (option err * RunningOutput * W) :=
  '(ro, w) ← match output_agg with
    | Some ao =>
      let '(ms, o) := ao_Push ao (plugin ro) in
      '(_, b, w) ← Add (buffer ro) ms w;
      Some (set_buffer b (set_plugin (ao_Reset ao o) ro), w)
    | None => Some (ro, w)
    end;
  let ro := set_counts 0 (droppedMetrics ro) (BatchReady ro) ro in
  let nBuffer := Len (buffer ro) in
  if MetricBatchSize ro =? 0 then None else
  let nBatches := Z.quot nBuffer (MetricBatchSize ro) + 1 in
  write_loop (Z.to_nat nBatches) 0 elapsed ro w.

Definition WriteBatch (elapsed : Z) (ro : RunningOutput) (w : W) :
    option (option err * RunningOutput * W) :=
  '(batch, b) ← Batch (buffer ro) (MetricBatchSize ro);
  let ro := set_buffer b ro in
  match batch with
  | [] => Some (None, ro, w)
  | _ =>
    let '(e, ro, w) := write batch elapsed ro w in
    match e with
    | Some e =>
      '(b, w) ← Reject (buffer ro) batch w;
      Some (Some e, set_buffer b ro, w)
    | None =>
      '(b, w) ← Accept (buffer ro) batch w;
      Some (None, set_buffer b ro, w)
    end
  end.

Definition Close (ro : RunningOutput) (w : W) : RunningOutput * W :=
  let '(e, o, w) := output_Close (plugin ro) w in
  (set_plugin o ro, match e with Some _ => Errorf (log ro) w | None => w end).
End RunningOutput.
End RunningOutput.

(** ** Properties *)

Section OutputClaims.
Context `{Glob} `{MapRange} {OP W : Type} `{StatEnv W} `{MetricEnv tmetric W} `{Output OP W}.
Import RunningOutput.

(** A buffer at rest: no batch is lent. *)
Definition holds (b : Buffer tmetric) (q : list tmetric) : Prop := refines b [] (mkQ q [] [] 0).

(** One round on a buffer at rest: what [Batch] takes, and what [Accept] or
    [Reject] leaves when nothing arrives in between. *)
Lemma round_spec b q s (w0 : W) :
  holds b q -> (0 < s)%nat -> q <> [] ->
  let k := (length q - Nat.min (length q) s)%nat in
  let batch := reverse (drop k q) in
  exists b1 b2 b3, Batch b (Z.of_nat s) = Some (Some <$> batch, b1) /\ batch <> [] /\
    holds b2 (take k q) /\ holds b3 q /\
    cap b2 = cap b /\ cap b3 = cap b /\ bstats b1 = bstats b /\ bstats b2 = bstats b /\ bstats b3 = bstats b /\
    (forall w, Accept b1 (Some <$> batch) w =
      w' ← run_events b ((EvWritten <$> batch) ++ [EvSize (Z.of_nat k)]) w; Some (b2, w')) /\
    (forall w, Reject b1 (Some <$> batch) w =
      w' ← run_events b [EvSize (Z.of_nat (length q))] w; Some (b3, w')).
Proof.
  intros Hb Hs Hq k batch.
  pose proof (rep_le _ _ (ref_rep _ _ _ Hb)) as Hle. cbn [q_old q_new] in Hle. rewrite app_nil_r in Hle.
  assert (length batch = Nat.min (length q) s) as Hlb
    by (unfold batch, k; rewrite length_reverse, length_drop; lia).
  assert (0 < length q)%nat as Hq0 by (destruct q; [done|simpl; lia]).
  assert (batch <> []) as Hne by (intros E; rewrite E in Hlb; simpl in Hlb; lia).
  assert (batch = reverse (drop k q)) as Hbd by done.
  destruct (step_refines (OBatch s) b [] (mkQ q [] [] 0) (mkQ (take k q) batch [] (Nat.min (length q) s)) [] Hb)
    as (b1 & h1 & Href1 & Hc1 & Hs1 & Hr1).
  { cbn [q_step q_batch q_old q_new]. by rewrite app_nil_r. }
  assert (h1 = Some <$> batch) as -> by apply Href1.
  destruct (step_refines OAccept b1 _ _ (mkQ (take k q) [] [] 0) ((EvWritten <$> batch) ++ [EvSize (Z.of_nat k)]) Href1)
    as (b2 & h2 & Href2 & Hc2 & Hs2 & Hr2).
  { cbn [q_step q_batch q_old q_new]. unfold q_size, q_len. cbn [q_old q_new q_left length].
    rewrite length_take, Hc1. do 5 f_equal. lia. }
  destruct (step_refines OReject b1 _ _ (mkQ q [] [] 0) [EvSize (Z.of_nat (length q))] Href1)
    as (b3 & h3 & Href3 & Hc3 & Hs3 & Hr3).
  { assert (newest (Z.to_nat (cap b1)) (take k q ++ reverse batch ++ []) = q) as Hnew.
    { unfold newest. rewrite app_nil_r, Hbd, reverse_involutive, take_drop.
      replace (length q - _)%nat with 0%nat by lia. apply drop_0. }
    assert (forall bt c l, bt <> [] -> q_step c OReject (mkQ (take k q) bt [] l) =
      let q' := mkQ (newest c (take k q ++ reverse bt ++ [])) [] [] 0 in
      let r := Nat.min (length bt) (c - 0) in
      Some (q', (EvDropped <$> reverse (take (length (take k q) + 0 + r - c) (take k q)) ++ drop r bt) ++ [q_size c q']))
      as Hst by (by intros [|]).
    rewrite Hst, Hnew by done. cbn zeta. rewrite Nat.min_l, drop_all by lia.
    replace (length (take k q) + 0 + length batch - _)%nat with 0%nat by (rewrite length_take; lia).
    rewrite take_0. unfold q_size, q_len. simpl.
    replace ((length q + 0 + 0) `min` _)%nat with (length q) by lia. done. }
  assert (h2 = []) as -> by apply Href2. assert (h3 = []) as -> by apply Href3.
  exists b1, b2, b3. split_and!; try done; try congruence.
  - specialize (Hr1 w0). cbn [b_step run_events] in Hr1. destruct (Batch b _) as [[out b']|]; [|done].
    binds. cbn in Hr1. injection Hr1 as -> ->. done.
  - intros w. specialize (Hr2 w). cbn [b_step] in Hr2. rewrite (run_events_ext b1 b) in Hr2 by congruence.
    destruct (Accept b1 _ w) as [[b' w']|]; destruct (run_events b _ w); simpl in Hr2; naive_solver.
  - intros w. specialize (Hr3 w). cbn [b_step] in Hr3. rewrite (run_events_ext b1 b) in Hr3 by congruence.
    destruct (Reject b1 _ w) as [[b' w']|]; destruct (run_events b _ w); simpl in Hr3; naive_solver.
Qed.
(** [Write] on the queue: up to [n] batches of the [s] newest metrics, each
    handed to the plugin newest first; what is left, what was written in order,
    and the first error. [b0] carries the buffer's statistics, [wt] the write
    timer. *)
Fixpoint flush (b0 : Buffer tmetric) (wt : Stat) (s n i : nat) (elapsed : nat -> Z)
    (q : list tmetric) (o : OP) (w : W) : option (option err * list tmetric * list tmetric * OP * W) :=
  match n, q with
  | O, _ | _, [] => Some (None, q, [], o, w)
  | S n', _ =>
    let k := (length q - Nat.min (length q) s)%nat in
    let batch := reverse (drop k q) in
    let '(e, o, w) := output_Write (Some <$> batch) o w in
    let w := stat_Incr wt (elapsed i) w in
    match e with
    | Some e => w ← run_events b0 [EvSize (Z.of_nat (length q))] w; Some (Some e, q, [], o, w)
    | None =>
      w ← run_events b0 ((EvWritten <$> batch) ++ [EvSize (Z.of_nat k)]) w;
      '(e, q', written, o, w) ← flush b0 wt s n' (S i) elapsed (take k q) o w;
      Some (e, q', batch ++ written, o, w)
    end
  end.

Lemma flush_ext b b' wt s n i elapsed q o w :
  bstats b = bstats b' -> flush b wt s n i elapsed q o w = flush b' wt s n i elapsed q o w.
Proof.
  intros E. revert i q o w. induction n as [|n IH]; intros i q o w; [done|]. cbn [flush].
  destruct q as [|x q]; [done|]. destruct (output_Write _ o w) as [[[e|] o1] w1].
  - by rewrite (run_events_ext b b').
  - rewrite (run_events_ext b b') by done. destruct (run_events b' _ _); [|done]. binds. by rewrite IH.
Qed.

(** Every metric stays or is written, in order; without an error nothing stays
    once the rounds cover the queue. *)
Lemma flush_spec b0 wt s n i elapsed q o w e q' written o' w' :
  (0 < s)%nat -> (length q <= n * s)%nat ->
  flush b0 wt s n i elapsed q o w = Some (e, q', written, o', w') ->
  q = q' ++ reverse written /\ (e = None <-> q' = []).
Proof.
  intros Hs. revert i q o w written. induction n as [|n IH]; intros i q o w written Hn.
  { destruct q; [|simpl in Hn; lia]. by intros [= <- <- <- <- <-]. }
  cbn [flush]. destruct q as [|x q]; [by intros [= <- <- <- <- <-]|].
  set (q0 := x :: q) in *. set (k := (length q0 - Nat.min (length q0) s)%nat).
  destruct (output_Write _ o w) as [[[e1|] o1] w1].
  - destruct (run_events b0 _ _); [|done]. intros [= <- <- <- <- <-]. by rewrite app_nil_r.
  - destruct (run_events b0 _ _) as [w2|]; [|done]. binds.
    destruct (flush b0 wt s n (S i) elapsed (take k q0) o1 w2) as [[[[[e2 q2] wr2] o2] w3]|] eqn:E; [|done].
    intros [= <- <- <- <- <-]. apply IH in E as [Hq He]; [|rewrite length_take; lia].
    split; [|done]. rewrite reverse_app, reverse_involutive, app_assoc, <- Hq. by rewrite take_drop.
Qed.

Lemma write_loop_flush n i elapsed ro q s w :
  holds (buffer ro) q -> MetricBatchSize ro = Z.of_nat s -> (0 < s)%nat ->
  match flush (buffer ro) (WriteTime ro) s n i elapsed q (plugin ro) w with
  | None => write_loop n i elapsed ro w = None
  | Some (e, q', written, o', w') =>
    exists ro', write_loop n i elapsed ro w = Some (e, ro', w') /\
      holds (buffer ro') q' /\ plugin ro' = o' /\ cap (buffer ro') = cap (buffer ro)
  end.
Proof.
  intros Hb Hsz Hs. revert i ro q w Hb Hsz. induction n as [|n IH]; intros i ro q w Hb Hsz.
  { exists ro. by destruct q. }
  cbn [flush write_loop]. rewrite Hsz. destruct q as [|x q].
  { destruct (Batch_spec (buffer ro) [] (Z.of_nat s)) as (b' & -> & _ & _ & _ & _ & Hb' & _);
      [exact (ref_rep _ _ _ Hb)|lia|]. rewrite Hb' by (unfold out_len, min; simpl; zcases; lia).
    simpl. exists (set_buffer (buffer ro) ro). by destruct ro. }
  set (q0 := x :: q) in *.
  destruct (round_spec (buffer ro) q0 s w Hb Hs) as
    (b1 & b2 & b3 & -> & Hne & Hb2 & Hb3 & Hc2 & Hc3 & Hs1 & Hs2 & Hs3 & Hacc & Hrej); [done|].
  set (k := (length q0 - Nat.min (length q0) s)%nat) in *. set (batch := reverse (drop k q0)) in *.
  binds. destruct (Some <$> batch) as [|y ys] eqn:Ebt; [by destruct batch|]. rewrite <- Ebt in *.
  unfold write. set (ro1 := if 0 <? droppedMetrics _ then _ else _).
  assert (plugin ro1 = plugin ro /\ WriteTime ro1 = WriteTime ro /\ buffer ro1 = b1 /\
    MetricBatchSize ro1 = Z.of_nat s) as (-> & -> & Hbuf & Hsz1)
    by (unfold ro1; simpl; destruct (0 <? droppedMetrics ro); done).
  destruct (output_Write (Some <$> batch) (plugin ro) w) as [[[e|] o1] w1].
  - cbn [buffer set_plugin]. rewrite Hbuf, Hrej.
    destruct (run_events (buffer ro) _ _) as [w2|]; [|done]. binds. by eexists.
  - cbn [buffer set_plugin]. rewrite Hbuf, Hacc.
    destruct (run_events (buffer ro) _ _) as [w2|]; [|done]. binds.
    set (ro2 := set_buffer b2 (set_plugin o1 ro1)).
    specialize (IH (S i) ro2 (take k q0) w2 Hb2 Hsz1).
    rewrite (flush_ext (buffer ro2) (buffer ro)) in IH by done.
    change (WriteTime ro2) with (WriteTime ro1) in IH. change (plugin ro2) with o1 in IH.
    assert (WriteTime ro1 = WriteTime ro) as E by (unfold ro1; simpl; by destruct (0 <? droppedMetrics ro)).
    rewrite E in IH.
    destruct (flush _ _ s n (S i) elapsed (take k q0) o1 w2) as [[[[[e2 q2] wr2] o2] w3]|]; [|done].
    binds. destruct IH as (ro' & ? & ? & ? & ?). exists ro'. split_and!; try done. simpl in *. congruence.
Qed.

(** C10: [Write] hands the buffered metrics to the plugin in batches, newest
    first, until the buffer is empty or the plugin fails. Its bound on the number
    of batches is enough: without an error nothing stays in the buffer. After an
    error the failed batch and everything older are back in the buffer, in their
    order; what was written is exactly what left it. *)
Theorem Write_drains (ro : RunningOutput (OP:=OP)) (q : list tmetric) (elapsed : nat -> Z) (w : W) :
  holds (buffer ro) q -> 0 < MetricBatchSize ro -> output_agg = None ->
  let s := Z.to_nat (MetricBatchSize ro) in
  match flush (buffer ro) (WriteTime ro) s (length q / s + 1) 0 elapsed q (plugin ro) w with
  | None => Write elapsed ro w = None
  | Some (e, q', written, o', w') =>
    (exists ro', Write elapsed ro w = Some (e, ro', w') /\ holds (buffer ro') q' /\ plugin ro' = o') /\
    q = q' ++ reverse written /\ (e = None <-> q' = [])
  end.
Proof.
  intros Hb Hs Hagg s. assert (0 < s)%nat as Hs' by (unfold s; lia).
  assert (length q <= (length q / s + 1) * s)%nat as Hn.
  { pose proof (Nat.div_mod_eq (length q) s). pose proof (Nat.mod_upper_bound (length q) s). lia. }
  unfold Write. rewrite Hagg. binds.
  set (ro1 := set_counts 0 (droppedMetrics ro) (BatchReady ro) ro).
  change (buffer ro1) with (buffer ro). change (MetricBatchSize ro1) with (MetricBatchSize ro).
  rewrite (proj2 (Z.eqb_neq _ _)) by lia.
  assert (Len (buffer ro) = Z.of_nat (length q)) as ->.
  { rewrite (Len_refines _ _ _ Hb). pose proof (rep_le _ _ (ref_rep _ _ _ Hb)) as Hle.
    unfold q_len. simpl in *. rewrite app_nil_r in Hle. lia. }
  assert (Z.to_nat (Z.of_nat (length q) ÷ MetricBatchSize ro + 1) = length q / s + 1)%nat as ->.
  { rewrite Z.quot_div_nonneg by lia. replace (MetricBatchSize ro) with (Z.of_nat s) by (unfold s; lia).
    rewrite <- Nat2Z.inj_div. lia. }
  pose proof (write_loop_flush (length q / s + 1) 0 elapsed ro1 q s w Hb ltac:(simpl; unfold s; lia) Hs') as Hw.
  change (buffer ro1) with (buffer ro) in Hw. change (WriteTime ro1) with (WriteTime ro) in Hw.
  change (plugin ro1) with (plugin ro) in Hw.
  destruct (flush _ _ s _ 0 elapsed q (plugin ro) w) as [[[[[e q'] written] o'] w']|] eqn:E; [|done].
  destruct Hw as (ro' & Hr & Hh & Hp & _). split; [by exists ro'|].
  eapply flush_spec; done.
Qed.
End OutputClaims.

(** A plugin that counts its calls and fails at the second. *)
Definition fail_second {W} : Output nat W :=
  {| output_Write := fun ms n w => (if decide (n = 1)%nat then Some "timeout" else None, S n, w);
     output_Close := fun n w => (None, n, w);
     output_agg := None |}.
#[local] Existing Instances map_range_default alt_glob log_stats log_metrics fail_second.

Definition ex_m (n : string) : tmetric := mkTM (mkMetric n [] [mkField "v" (VInt 1)] 0 Untyped false) None.
Definition ex_st : Stat := mkStat 0 "x".
Definition ex_ro : RunningOutput.RunningOutput :=
  RunningOutput.mkRO 0 0 0%nat
    (RunningOutput.mkConfig "file" EmptyString no_filter 10 None 0 0 EmptyString EmptyString EmptyString)
    4 1 ex_st ex_st None
    (mkBuffer [Some (ex_m "a"); Some (ex_m "b"); Some (ex_m "c"); None] 0 3 3 4 0 0
      (mkBStats ex_st ex_st ex_st ex_st ex_st)) (NewLogger "outputs" "file" EmptyString).

Lemma ex_ro_holds : holds (RunningOutput.buffer ex_ro) [ex_m "a"; ex_m "b"; ex_m "c"].
Proof. by constructor. Qed.

Lemma Write_drains_witness :
  exists ro', RunningOutput.Write (fun _ => 5) ex_ro ([] : list (Call tmetric)) =
      Some (Some "timeout", ro', [CAccept (ex_m "c")]) /\
    holds (RunningOutput.buffer ro') [ex_m "a"; ex_m "b"].
Proof.
  assert (@output_agg nat (list (Call tmetric)) fail_second = None) as Ha by reflexivity.
  pose proof (Write_drains (OP:=nat) (W:=list (Call tmetric)) ex_ro [ex_m "a"; ex_m "b"; ex_m "c"]
    (fun _ => 5) [] ex_ro_holds eq_refl Ha) as Hd. cbv beta zeta in Hd.
  destruct (flush _ _ _ _ _ _ _ _ _) as [[[[[e q'] written] o'] w']|] eqn:E; vm_compute in E; [|discriminate E].
  injection E as <- <- <- <- <-. destruct Hd as ((ro' & Hw & Hh & _) & _).
  exists ro'. split; [exact Hw|exact Hh].
Defined.
