(* ===== verification/Accumulator.v ===== *)
(** * Accumulators

    [agent/accumulator.go]: what plugins add metrics through. An accumulator sets
    or rounds the time, lets the plugin's wrapper make the metric
    ([MetricMaker]) and sends the result to the pipeline; a tracking accumulator
    also puts metrics under delivery tracking and receives the reports on a
    channel. Sending to the pipeline channel returns the metric that is sent.

    [World] is the state of the process the pipeline acts on: the statistics
    registry, the tracking heap, and the channels of the tracking accumulators.
    Its instances are the interfaces of [Interfaces] and [Tracking] as the code
    implements them. *)

From S2P Require Import Prelude Float64 Metric Tracking Selfstat Interfaces Filter Running.

(** ** The process *)

(** A buffered channel of delivery reports: capacity and contents. *)
Record Chan := mkChan { ch_cap : Z; ch_buf : list deliveryInfo }.

(** [trackingAccumulator.onDelivery]: a non-blocking send; a full channel is a
    panic. *)
Definition onDelivery (info : deliveryInfo) (c : Chan) : option Chan :=
  if Z.of_nat (length (ch_buf c)) <? ch_cap c then Some (mkChan (ch_cap c) (ch_buf c ++ [info]))
  else None.

(** A notification function is the [onDelivery] of the channel with that index. *)
#[export] Instance notify_channels : Notify nat (list Chan) := fun i info cs =>
  c ← cs !! i; c ← onDelivery info c; Some (<[i := c]> cs).

Record World := mkWorld { registry : Registry; trk : TState nat (list Chan) }.
Definition chans (w : World) : list Chan := env (trk w).

#[export] Instance world_stats : StatEnv World :=
  {| stat_Incr := fun s v w => mkWorld (Selfstat.Incr s v (registry w)) (trk w);
     stat_Set := fun s v w => mkWorld (Selfstat.Set_ s v (registry w)) (trk w) |}.
#[export] Instance world_metrics : MetricEnv tmetric World :=
  {| m_Accept := fun m w => t ← Tracking.Accept m (trk w); Some (mkWorld (registry w) t);
     m_Reject := fun m w => t ← Tracking.Reject m (trk w); Some (mkWorld (registry w) t);
     m_Drop := fun m w => t ← Tracking.Drop m (trk w); Some (mkWorld (registry w) t) |}.
#[export] Instance world_copy : CopyEnv tmetric World := fun m w =>
  let '(m', t) := CopyT m (trk w) in (m', mkWorld (registry w) t).

(** ** Rounding

    [time.Time.Round]: to the nearest multiple of [d] since the zero time, up
    when halfway. *)
Definition epoch_offset : Z := 62135596800 * 1000000000.
Definition Round (t d : Z) : Z :=
  if d <=? 0 then t else
  let r := (t + epoch_offset) mod d in
  if r + r <? d then t - r else t + (d - r).

(** ** The accumulator *)

(** [MetricMaker]. *)
Class MetricMaker (M W : Type) := {
  maker_MakeMetric : M -> tmetric -> W -> option (option tmetric * W);
  maker_Log : M -> Logger;
}.

Record accumulator (M : Type) := mkAcc { maker : M; precision : Z }.
Arguments mkAcc {M}.
Arguments maker {M}.
Arguments precision {M}.

Section Accumulator.
Context `{MapRange} {M W : Type} `{StatEnv W} `{MetricMaker M W}.
Implicit Types (ac : accumulator M) (w : W).

Definition NewAccumulator (mk : M) : accumulator M := mkAcc mk 1.

Definition SetPrecision (p : Z) ac : accumulator M := mkAcc (maker ac) p.

Definition getTime ac (t : option Z) (now : Z) : Z :=
  Round (match t with Some t => t | None => now end) (precision ac).

Definition AddMetric ac (m : tmetric) w : option (option tmetric * W) :=
  let m := with_base (SetTime (Round (tm (base m)) (precision ac)) (base m)) m in
  maker_MakeMetric (maker ac) m w.

Definition addFields ac (measurement : string) (ts : gmap string string) (fs : gmap string GoVal)
    (vt : ValueType) (t : option Z) (now : Z) w : option (option tmetric * W) :=
  let m := Metric.New measurement ts fs (getTime ac t now) [vt] in
  maker_MakeMetric (maker ac) (mkTM m None) w.

Definition AddFields ac measurement fs ts t now w := addFields ac measurement ts fs Untyped t now w.
Definition AddGauge ac measurement fs ts t now w := addFields ac measurement ts fs Gauge t now w.
Definition AddCounter ac measurement fs ts t now w := addFields ac measurement ts fs Counter t now w.
Definition AddSummary ac measurement fs ts t now w := addFields ac measurement ts fs Summary t now w.
Definition AddHistogram ac measurement fs ts t now w := addFields ac measurement ts fs Histogram t now w.

Definition AddError ac (e : option err) w : W :=
  match e with None => w | Some _ => Errorf (maker_Log (maker ac)) w end.

(** The calls of an aggregator's [Push], in order, and what they send. *)
Fixpoint run_calls ac (cs : list AccCall) (now : Z) w : option (list tmetric * W) :=
  match cs with
  | [] => Some ([], w)
  | c :: cs' =>
    '(m, w) ← match c with
      | CallFields ms fs ts vt t => addFields ac ms ts fs vt t now w
      | CallMetric m => AddMetric ac (mkTM m None) w
      | CallPrecision _ => Some (None, w)
      end;
    let ac := match c with CallPrecision p => SetPrecision p ac | _ => ac end in
    '(out, w) ← run_calls ac cs' now w;
    Some (option_list m ++ out, w)
  end.
End Accumulator.

(** ** Tracking accumulators *)

Record trackingAccumulator (M : Type) := mkTA { t_acc : accumulator M; delivered : nat }.
Arguments mkTA {M}.
Arguments t_acc {M}.
Arguments delivered {M}.

Section TrackingAccumulator.
Context `{MapRange} {M : Type} `{MetricMaker M World}.

(** [WithTracking]: [make] panics on a negative capacity. *)
Definition WithTracking (maxTracked : Z) (ac : accumulator M) (w : World) :
    option (trackingAccumulator M * World) :=
  if maxTracked <? 0 then None else
  let t := trk w in
  Some (mkTA ac (length (env t)),
    mkWorld (registry w) (mkTS (lastID t) (heap t) (env t ++ [mkChan maxTracked []]))).

Definition AddTrackingMetric (a : trackingAccumulator M) (m : metric) (w : World) :
    option (Z * option tmetric * World) :=
  let '(dm, i, t) := newTrackingMetric m (delivered a) (trk w) in
  '(sent, w) ← AddMetric (t_acc a) dm (mkWorld (registry w) t);
  Some (i, sent, w).

Fixpoint add_all (ac : accumulator M) (ms : list tmetric) (w : World) : option (list tmetric * World) :=
  match ms with
  | [] => Some ([], w)
  | m :: ms' =>
    '(sent, w) ← AddMetric ac m w;
    '(out, w) ← add_all ac ms' w;
    Some (option_list sent ++ out, w)
  end.

Definition AddTrackingMetricGroup (a : trackingAccumulator M) (group : list metric) (w : World) :
    option (Z * list tmetric * World) :=
  '(db, i, t) ← newTrackingMetricGroup group (delivered a) (trk w);
  '(out, w) ← add_all (t_acc a) db (mkWorld (registry w) t);
  Some (i, out, w).

(** [Delivered]: receiving from the channel. *)
Definition receive (a : trackingAccumulator M) (w : World) : option (deliveryInfo * World) :=
  c ← chans w !! delivered a;
  match ch_buf c with
  | [] => None
  | info :: rest =>
    let t := trk w in
    Some (info, mkWorld (registry w)
      (mkTS (lastID t) (heap t) (<[delivered a := mkChan (ch_cap c) rest]> (env t))))
  end.
End TrackingAccumulator.

(** The makers the agent uses. *)
#[export] Instance input_maker `{Glob} `{MapRange} {W} `{StatEnv W} `{MetricEnv tmetric W} :
    MetricMaker RunningInput.RunningInput W :=
  {| maker_MakeMetric := RunningInput.MakeMetric; maker_Log := RunningInput.log |}.
#[export] Instance aggregator_maker `{Glob} `{MapRange} {G W} `{StatEnv W} :
    MetricMaker (RunningAggregator.RunningAggregator (G:=G)) W :=
  {| maker_MakeMetric := fun r m w => let '(m, w) := RunningAggregator.MakeMetric r m w in Some (Some m, w);
     maker_Log := RunningAggregator.log |}.

(** ** Properties *)

Lemma Round_multiple t d : 0 < d -> (d | Round t d + epoch_offset).
Proof.
  intros Hd. unfold Round. rewrite (proj2 (Z.leb_gt _ _)) by done.
  pose proof (Z.div_mod (t + epoch_offset) d ltac:(lia)) as Hdm.
  set (r := (t + epoch_offset) mod d) in *. set (k := (t + epoch_offset) / d) in *.
  zcases; [exists k|exists (k + 1)]; lia.
Qed.

Section AccClaims.
Context `{Glob} `{MapRange}.
Implicit Types (ac : accumulator RunningInput.RunningInput) (w : World).

(** What an accumulator of an input does with a metric, seen from tracking. *)
Lemma AddMetric_cases ac m w :
  (exists m' r', AddMetric ac m w = Some (Some m', mkWorld r' (trk w)) /\ td m' = td m) \/
  (exists m', AddMetric ac m w = (w' ← m_Drop m' w; Some (None, w')) /\ td m' = td m).
Proof.
  unfold AddMetric. cbn [maker_MakeMetric input_maker]. unfold RunningInput.MakeMetric.
  destruct (negb _); [right; eexists; by split|]. destruct (_ =? 0)%nat; [right|left].
  - eexists. by split.
  - eexists _, _. by split.
Qed.

(** The state of a group under tracking while its metrics are added: the record
    [p] counts [n] metrics and reports to channel [ch]. *)
Definition tracked (p : nat) (i n : Z) (ch : nat) w : Prop :=
  heap (trk w) !! p = Some (mkTD i n 0 0 ch).

Lemma drop_tracked p i n ch c m w :
  tracked p i n ch w -> td m = Some p -> 0 < n < 2 ^ 31 ->
  chans w !! ch = Some c -> Z.of_nat (length (ch_buf c)) < ch_cap c ->
  exists w', m_Drop m w = Some w' /\ tracked p i (n - 1) ch w' /\
    chans w' = (if n =? 1 then <[ch := mkChan (ch_cap c) (ch_buf c ++ [mkInfo i 0 0])]> (chans w) else chans w).
Proof.
  intros Ht Hm Hn Hc Hroom. unfold tracked in Ht.
  assert (p < length (heap (trk w)))%nat as Hlt by (by apply lookup_lt_Some in Ht).
  cbn [m_Drop world_metrics]. unfold Drop, decr. rewrite Hm, Ht. binds.
  unfold data_decr. cbn [rc td_id acceptCount rejectCount notifyFunc].
  rewrite int32_small by lia. rewrite (proj2 (Z.ltb_ge _ _)) by lia.
  destruct (Z.eqb_spec n 1) as [->|Hn1].
  - change (1 - 1 =? 0) with true. cbn match. unfold notify, notify_call, notify_channels.
    cbn [env set_heap notifyFunc td_id acceptCount rejectCount]. unfold chans in Hc. rewrite Hc. binds.
    unfold onDelivery. rewrite (proj2 (Z.ltb_lt _ _)) by done. binds.
    eexists. split; [done|]. split; [|done]. unfold tracked. simpl. by rewrite list_lookup_insert_eq.
  - rewrite (proj2 (Z.eqb_neq _ _)) by lia. eexists. split; [done|]. split; [|done].
    unfold tracked. simpl. by rewrite list_lookup_insert_eq.
Qed.

Lemma add_all_tracked ac ms p i s ch c w :
  tracked p i (Z.of_nat (length ms + s)) ch w -> Forall (fun m => td m = Some p) ms ->
  Z.of_nat (length ms + s) < 2 ^ 31 ->
  chans w !! ch = Some c -> Z.of_nat (length (ch_buf c)) < ch_cap c ->
  exists out w', add_all ac ms w = Some (out, w') /\ Forall (fun m => td m = Some p) out /\
    tracked p i (Z.of_nat (length out + s)) ch w' /\
    chans w' = (if (0 <? length ms)%nat && (length out + s =? 0)%nat
      then <[ch := mkChan (ch_cap c) (ch_buf c ++ [mkInfo i 0 0])]> (chans w) else chans w).
Proof.
  revert s w. induction ms as [|m ms IH]; intros s w Ht Hms Hb Hc Hroom.
  { exists [], w. split_and!; done. }
  apply Forall_cons in Hms as [Hm Hms]. cbn [add_all length] in *.
  destruct (AddMetric_cases ac m w) as [(m' & r' & -> & Hm')|(m' & -> & Hm')].
  - binds. destruct (IH (S s) (mkWorld r' (trk w))) as (out & w' & -> & Ho & Ht' & Hch); [|done|lia|done|done|].
    { unfold tracked in *. simpl. rewrite Ht. do 3 f_equal. lia. }
    binds. eexists _, _. split; [done|]. split_and!.
    + simpl. constructor; [congruence|done].
    + simpl. by replace (S (length out + s)) with (length out + S s)%nat by lia.
    + rewrite Hch. simpl. rewrite !Nat.add_succ_r. simpl. by rewrite andb_false_r.
  - destruct (drop_tracked p i (Z.of_nat (S (length ms) + s)) ch c m' w) as (w1 & -> & Ht1 & Hch1);
      [done|congruence|lia|done|done|]. binds.
    replace (Z.of_nat (S (length ms) + s) - 1) with (Z.of_nat (length ms + s)) in Ht1 by lia.
    destruct (decide (length ms + s = 0)%nat) as [E|E].
    + destruct ms; [|simpl in E; lia]. simpl in E. subst s. cbn [add_all]. binds.
      exists [], w1. split_and!; try done.
    + rewrite (proj2 (Z.eqb_neq _ _)) in Hch1 by lia.
      destruct (IH s w1) as (out & w' & -> & Ho & Ht' & Hch); [done|done|lia|by rewrite Hch1|done|].
      binds. exists out, w'. split_and!; try done. rewrite Hch, Hch1. simpl.
      destruct ms as [|m1 ms]; [|done]. simpl.
      destruct (Nat.eqb_spec (length out + s) 0); [simpl in *; lia|done].
Qed.

(** Adding a tracked group through an input's accumulator. The reference
    count equals the number of metrics that went on to the pipeline, each of
    them pointing to the group's record; the group is reported on the channel at
    once, delivered, exactly when no metric went on (an empty group included),
    so a filtered metric never holds up a delivery; and with room in the channel
    nothing panics. *)
Theorem AddTrackingMetricGroup_spec (a : trackingAccumulator RunningInput.RunningInput)
    (group : list metric) (c : Chan) (w : World) :
  Z.of_nat (length group) < 2 ^ 31 ->
  chans w !! delivered a = Some c -> Z.of_nat (length (ch_buf c)) < ch_cap c ->
  exists i out w', AddTrackingMetricGroup a group w = Some (i, out, w') /\
    let p := length (heap (trk w)) in
    Forall (fun m => td m = Some p) out /\
    heap (trk w') !! p = Some (mkTD i (Z.of_nat (length out)) 0 0 (delivered a)) /\
    chans w' = (if is_nil out
      then <[delivered a := mkChan (ch_cap c) (ch_buf c ++ [mkInfo i 0 0])]> (chans w) else chans w) /\
    Delivered (mkInfo i 0 0) = true.
Proof.
  intros Hb Hc Hroom. unfold AddTrackingMetricGroup, newTrackingMetricGroup, newTrackingID.
  cbn [lastID heap env]. set (p := length (heap (trk w))). set (i := uint64 (lastID (trk w) + 1)).
  erewrite (foldl_group p group [] _ (mkTD i 0 0 0 (delivered a)));
    [|simpl; by rewrite list_lookup_middle|simpl; lia|simpl; lia].
  cbn [td_id rc acceptCount rejectCount notifyFunc lastID env heap set_heap app].
  set (h := <[p := _]> _). assert (h !! p = Some (mkTD i (Z.of_nat (length group)) 0 0 (delivered a))) as Hh.
  { unfold h. rewrite list_lookup_insert_eq; [done|]. rewrite length_app. simpl. unfold p. lia. }
  destruct group as [|g group].
  - cbn [length Nat.eqb]. rewrite Hh. binds. unfold notify, notify_call, notify_channels.
    cbn [env notifyFunc td_id acceptCount rejectCount]. unfold chans in Hc. rewrite Hc. binds.
    unfold onDelivery. rewrite (proj2 (Z.ltb_lt _ _)) by done. binds. cbn [add_all fmap list_fmap]. binds.
    eexists i, [], _. split; [done|]. split_and!; try done. 
  - set (gr := g :: group) in *. rewrite (proj2 (Nat.eqb_neq _ 0)) by done. binds.
    set (w1 := mkWorld _ _).
    destruct (add_all_tracked (t_acc a) ((fun m => mkTM m (Some p)) <$> gr) p i 0 (delivered a) c w1)
      as (out & w' & -> & Ho & Ht & Hch).
    { unfold tracked. simpl. rewrite length_fmap. cbn [length] in Hh. rewrite Hh. do 3 f_equal. simpl. lia. }
    { rewrite Forall_fmap. by apply Forall_true. }
    { rewrite length_fmap. lia. }
    { done. }
    { done. }
    binds. exists i, out, w'. split; [done|]. unfold tracked in Ht. rewrite Nat.add_0_r in *.
    split_and!; try done. rewrite Hch, length_fmap. by destruct out.
Qed.
End AccClaims.

#[local] Existing Instances map_range_default alt_glob.

Definition ex_world : World := mkWorld ∅ (mkTS 0 [] [mkChan 2 []]).
Definition ex_tacc : trackingAccumulator RunningInput.RunningInput := mkTA (NewAccumulator ex_input) 0.

Lemma AddTrackingMetricGroup_spec_witness :
  exists i out w', AddTrackingMetricGroup ex_tacc [ex_metric; ex_in] ex_world = Some (i, out, w') /\
    heap (trk w') !! 0%nat = Some (mkTD i (Z.of_nat (length out)) 0 0 0%nat).
Proof.
  destruct (AddTrackingMetricGroup_spec ex_tacc [ex_metric; ex_in] (mkChan 2 []) ex_world)
    as (i & out & w' & Hr & _ & Hh & _); [done|done|done|].
  exists i, out, w'. split; [exact Hr|exact Hh].
Defined.
