(* ===== verification/Aggregators.v ===== *)
(** * Aggregator plugins

    [metric/series_grouper.go] and the aggregators [merge], [final],
    [valuecounter], [minmax] and [basicstats] of [plugins/aggregators]. Each is an
    instance of [Aggregator]: the wrapper of [Running] calls it for each window.
    Caches are maps by [HashID]; a loop over a map runs in the order [range_map]
    gives. *)

From S2P Require Import Prelude Float64 Strconv Metric Tracking Selfstat Interfaces Filter Running.

(** The conversions of [minmax] and [basicstats]. *)
Definition convert (v : Val) : option float64 :=
  match v with
  | VFloat f => Some f
  | VInt z => Some (f_of_Z z)
  | VUint z => Some (f_of_Z z)
  | _ => None
  end.

(** [fmt.Sprintf("%v", v)] on a field value. *)
Definition format_v (v : Val) : string :=
  match v with
  | VNil => "<nil>"
  | VFloat f => FormatFloat_g f
  | VInt z => FormatInt z
  | VUint z => FormatUint z
  | VString s => s
  | VBool b => FormatBool b
  end.

(** ** Series grouper

    The map and the slice hold the same metric pointers: the map's entries are
    positions in the slice. *)

Module Grouper.
Section Grouper.
Context `{MapRange}.

Record SeriesGrouper := mkSG { metrics : gmap Z nat; ordered : list metric }.

Definition NewSeriesGrouper : SeriesGrouper := mkSG ∅ [].

Definition groupID (measurement : string) (ts : gmap string string) (t : Z) : Z :=
  let h := fnv_write (fnv_write fnv_offset measurement) LF in
  let taglist := sort_by Key ((fun kv => mkTag kv.1 kv.2) <$> range_map ts) in
  let h := hash_tags h taglist in
  let h := fnv_write h LF in
  fnv_write h (FormatInt (int64 t)).

Definition Add (measurement : string) (ts : gmap string string) (t : Z) (field : string)
    (fieldValue : GoVal) (g : SeriesGrouper) : SeriesGrouper :=
  let i := groupID measurement ts t in
  match metrics g !! i with
  | None =>
    let m := Metric.New measurement ts {[field := fieldValue]} t [] in
    mkSG (<[i := length (ordered g)]> (metrics g)) (ordered g ++ [m])
  | Some p => mkSG (metrics g) (alter (AddField field fieldValue) p (ordered g))
  end.

Definition Metrics (g : SeriesGrouper) : list metric := ordered g.
End Grouper.
End Grouper.

(** ** merge *)

Module Merge.
Section Merge.
Context `{MapRange}.

Definition Add (m : metric) (g : Grouper.SeriesGrouper) : Grouper.SeriesGrouper :=
  let ts := Tags m in
  foldl (fun g f => Grouper.Add (name m) ts (tm m) (FKey f) (go_of_val (FValue f)) g) g (fields m).

Definition Push (g : Grouper.SeriesGrouper) : list AccCall :=
  CallPrecision 1 :: (CallMetric <$> Grouper.Metrics g).

Definition Reset : Grouper.SeriesGrouper := Grouper.NewSeriesGrouper.
End Merge.

#[export] Instance merge_agg `{MapRange} : Aggregator Grouper.SeriesGrouper :=
  {| agg_Add := fun m g => Some (Add m g);
     agg_Push := fun _ g => Some (Push g, g);
     agg_Reset := fun _ => Reset |}.
End Merge.

(** ** final *)

Module Final.
Section Final.
Context `{MapRange}.

Record Final := mkFinal { SeriesTimeout : Z; metricCache : gmap Z metric }.

Definition NewFinal : Final := mkFinal (5 * 60 * 1000000000) ∅.

Definition Add (m : metric) (f : Final) : Final :=
  mkFinal (SeriesTimeout f) (<[HashID m := m]> (metricCache f)).

(** The fields of the report: every key with the suffix [_final]. *)
Definition final_fields (fs : list Field) : gmap string GoVal :=
  foldl (fun fs f => <[FKey f +:+ "_final" := go_of_val (FValue f)]> fs) ∅ fs.

Definition push_loop (now timeout : Z) (l : list (Z * metric)) (cache : gmap Z metric) :
    list AccCall * gmap Z metric :=
  foldl (fun '(calls, cache) im =>
    if timeout <? now - tm im.2 then
      (calls ++ [CallFields (name im.2) (final_fields (fields im.2)) (Tags im.2) Untyped (Some (tm im.2))],
       delete im.1 cache)
    else (calls, cache)) ([], cache) l.

Definition Push (now : Z) (f : Final) : list AccCall * Final :=
  let '(calls, cache) := push_loop now (SeriesTimeout f) (range_map (metricCache f)) (metricCache f) in
  (CallPrecision 1 :: calls, mkFinal (SeriesTimeout f) cache).
End Final.

#[export] Instance final_agg `{MapRange} : Aggregator Final :=
  {| agg_Add := fun m f => Some (Add m f); agg_Push := fun now f => Some (Push now f);
     agg_Reset := fun f => f |}.
End Final.

(** ** valuecounter *)

Module ValueCounter.
Section ValueCounter.
Context `{MapRange}.

Record aggregate := mkAgg {
  aname : string;
  atags : gmap string string;
  fieldCount : gmap string Z;
}.
Record ValueCounter := mkVC { cache : gmap Z aggregate; Fields : list string }.

Definition Reset (vc : ValueCounter) : ValueCounter := mkVC ∅ (Fields vc).
Definition NewValueCounter (fs : list string) : ValueCounter := mkVC ∅ fs.

Definition count_field (fn : string) (a : aggregate) : aggregate :=
  mkAgg (aname a) (atags a) (<[fn := int64 (default 0 (fieldCount a !! fn) + 1)]> (fieldCount a)).

(** The inner loop over the configured fields, then the loop over the metric's. *)
Definition count_value (cfs : list string) (fk : string) (fv : Val) (a : aggregate) : aggregate :=
  foldl (fun a cf => if decide (fk = cf) then count_field (fk +:+ "_" +:+ format_v fv) a else a) a cfs.

Definition Add (m : metric) (vc : ValueCounter) : ValueCounter :=
  let i := HashID m in
  let a := match cache vc !! i with
    | Some a => a
    | None => mkAgg (name m) (Tags m) ∅
    end in
  let a := foldl (fun a kv => count_value (Fields vc) kv.1 kv.2 a) a (range_map (Metric.Fields m)) in
  mkVC (<[i := a]> (cache vc)) (Fields vc).

Definition Push (vc : ValueCounter) : list AccCall :=
  (fun ia => CallFields (aname ia.2)
    (foldl (fun fs fc => <[fc.1 := GoScalar (SInt fc.2)]> fs) ∅ (range_map (fieldCount ia.2)))
    (atags ia.2) Untyped None) <$> range_map (cache vc).
End ValueCounter.

#[export] Instance valuecounter_agg `{MapRange} : Aggregator ValueCounter :=
  {| agg_Add := fun m g => Some (Add m g); agg_Push := fun _ g => Some (Push g, g);
     agg_Reset := Reset |}.
End ValueCounter.

(** ** minmax *)

Module MinMax.
Section MinMax.
Context `{MapRange}.

Record minmax := mkMM { mm_min : float64; mm_max : float64 }.
Record aggregate := mkAgg { afields : gmap string minmax; aname : string; atags : gmap string string }.
Record MinMax := mkMinMax { cache : gmap Z aggregate }.

Definition Reset : MinMax := mkMinMax ∅.
Definition NewMinMax : MinMax := Reset.

(** The loop over the fields of a new metric. *)
Definition first_field (fs : gmap string minmax) (kv : string * Val) : gmap string minmax :=
  match convert kv.2 with
  | Some fv => <[kv.1 := mkMM fv fv]> fs
  | None => fs
  end.

(** The loop over the fields of a cached metric. *)
Definition next_field (fs : gmap string minmax) (kv : string * Val) : gmap string minmax :=
  match convert kv.2 with
  | Some fv =>
    match fs !! kv.1 with
    | None => <[kv.1 := mkMM fv fv]> fs
    | Some tmp =>
      if f_ltb fv (mm_min tmp) then <[kv.1 := mkMM fv (mm_max tmp)]> fs
      else if f_gtb fv (mm_max tmp) then <[kv.1 := mkMM (mm_min tmp) fv]> fs
      else fs
    end
  | None => fs
  end.

Definition Add (m : metric) (mm : MinMax) : MinMax :=
  let i := HashID m in
  match cache mm !! i with
  | None =>
    let a := mkAgg (foldl first_field ∅ (range_map (Metric.Fields m))) (name m) (Tags m) in
    mkMinMax (<[i := a]> (cache mm))
  | Some a =>
    let a := mkAgg (foldl next_field (afields a) (range_map (Metric.Fields m))) (aname a) (atags a) in
    mkMinMax (<[i := a]> (cache mm))
  end.

Definition push_fields (l : list (string * minmax)) : gmap string GoVal :=
  foldl (fun fs kv =>
    <[kv.1 +:+ "_max" := GoScalar (SFloat64 (mm_max kv.2))]>
    (<[kv.1 +:+ "_min" := GoScalar (SFloat64 (mm_min kv.2))]> fs)) ∅ l.

Definition Push (mm : MinMax) : list AccCall :=
  (fun ia => CallFields (aname ia.2) (push_fields (range_map (afields ia.2))) (atags ia.2) Untyped None)
    <$> range_map (cache mm).
End MinMax.

#[export] Instance minmax_agg `{MapRange} : Aggregator MinMax :=
  {| agg_Add := fun m g => Some (Add m g); agg_Push := fun _ g => Some (Push g, g);
     agg_Reset := fun _ => Reset |}.
End MinMax.

(** ** basicstats *)

Module BasicStats.
Section BasicStats.
Context `{MapRange}.

Record configuredStats := mkCS {
  cs_count : bool; cs_min : bool; cs_max : bool; cs_mean : bool; cs_variance : bool;
  cs_stdev : bool; cs_sum : bool; cs_diff : bool; cs_non_negative_diff : bool;
}.

Record basicstats := mkBS {
  bs_count : float64; bs_min : float64; bs_max : float64; bs_sum : float64;
  bs_mean : float64; bs_diff : float64; bs_M2 : float64; bs_LAST : float64;
}.

Record aggregate := mkAgg { afields : gmap string basicstats; aname : string; atags : gmap string string }.
Record BasicStats := mkBasic { cache : gmap Z aggregate; statsConfig : configuredStats }.

(** [parseStats]; an unknown name is only logged. *)
Definition parse_stat (p : configuredStats) (nm : string) : configuredStats :=
  let '(mkCS c mi ma me va sd su di nn) := p in
  if decide (nm = "count") then mkCS true mi ma me va sd su di nn
  else if decide (nm = "min") then mkCS c true ma me va sd su di nn
  else if decide (nm = "max") then mkCS c mi true me va sd su di nn
  else if decide (nm = "mean") then mkCS c mi ma true va sd su di nn
  else if decide (nm = "s2") then mkCS c mi ma me true sd su di nn
  else if decide (nm = "stdev") then mkCS c mi ma me va true su di nn
  else if decide (nm = "sum") then mkCS c mi ma me va sd true di nn
  else if decide (nm = "diff") then mkCS c mi ma me va sd su true nn
  else if decide (nm = "non_negative_diff") then mkCS c mi ma me va sd su di true
  else p.
Definition parseStats (names : list string) : configuredStats :=
  foldl parse_stat (mkCS false false false false false false false false false) names.

(** [getConfiguredStats]; [None] is the unset option. *)
Definition getConfiguredStats (names : option (list string)) : configuredStats :=
  match names with
  | None => mkCS true true true true true true false false false
  | Some l => parseStats l
  end.

(** [NewBasicStats] and [Init]. *)
Definition NewBasicStats (names : option (list string)) : BasicStats :=
  mkBasic ∅ (getConfiguredStats names).

Definition Reset (b : BasicStats) : BasicStats := mkBasic ∅ (statsConfig b).

Definition first_value (fv : float64) : basicstats := mkBS f_one fv fv fv fv f_zero f_zero fv.

(** The update of a field that is in the cache. *)
Definition next_value (fv : float64) (tmp : basicstats) : basicstats :=
  let x := fv in
  let n := f_add (bs_count tmp) f_one in
  let delta := f_sub x (bs_mean tmp) in
  let mean := f_add (bs_mean tmp) (f_div delta n) in
  let M2 := f_add (bs_M2 tmp) (f_mul delta (f_sub x mean)) in
  let mn := if f_ltb fv (bs_min tmp) then fv else bs_min tmp in
  let mx := if f_ltb fv (bs_min tmp) then bs_max tmp
            else if f_gtb fv (bs_max tmp) then fv else bs_max tmp in
  mkBS n mn mx (f_add (bs_sum tmp) fv) mean (f_sub fv (bs_LAST tmp)) M2 (bs_LAST tmp).

Definition first_field (fs : gmap string basicstats) (f : Field) : gmap string basicstats :=
  match convert (FValue f) with Some fv => <[FKey f := first_value fv]> fs | None => fs end.
Definition next_field (fs : gmap string basicstats) (f : Field) : gmap string basicstats :=
  match convert (FValue f) with
  | Some fv =>
    match fs !! FKey f with
    | None => <[FKey f := first_value fv]> fs
    | Some tmp => <[FKey f := next_value fv tmp]> fs
    end
  | None => fs
  end.

Definition Add (m : metric) (b : BasicStats) : BasicStats :=
  let i := HashID m in
  match cache b !! i with
  | None =>
    let a := mkAgg (foldl first_field ∅ (fields m)) (name m) (Tags m) in
    mkBasic (<[i := a]> (cache b)) (statsConfig b)
  | Some a =>
    let a := mkAgg (foldl next_field (afields a) (fields m)) (aname a) (atags a) in
    mkBasic (<[i := a]> (cache b)) (statsConfig b)
  end.

(** The fields reported for one field of an aggregate. *)
Definition put (b : bool) (k : string) (v : float64) (fs : gmap string GoVal) : gmap string GoVal :=
  if b then <[k := GoScalar (SFloat64 v)]> fs else fs.
Definition report (c : configuredStats) (fs : gmap string GoVal) (kv : string * basicstats) : gmap string GoVal :=
  let k := kv.1 in let v := kv.2 in
  let fs := put (cs_count c) (k +:+ "_count") (bs_count v) fs in
  let fs := put (cs_min c) (k +:+ "_min") (bs_min v) fs in
  let fs := put (cs_max c) (k +:+ "_max") (bs_max v) fs in
  let fs := put (cs_mean c) (k +:+ "_mean") (bs_mean v) fs in
  let fs := put (cs_sum c) (k +:+ "_sum") (bs_sum v) fs in
  if f_gtb (bs_count v) f_one then
    let variance := f_div (bs_M2 v) (f_sub (bs_count v) f_one) in
    let fs := put (cs_variance c) (k +:+ "_s2") variance fs in
    let fs := put (cs_stdev c) (k +:+ "_stdev") (f_sqrt variance) fs in
    let fs := put (cs_diff c) (k +:+ "_diff") (bs_diff v) fs in
    put (cs_non_negative_diff c && f_geb (bs_diff v) f_zero) (k +:+ "_non_negative_diff") (bs_diff v) fs
  else fs.

Definition push_one (c : configuredStats) (a : aggregate) : list AccCall :=
  let fs := foldl (report c) ∅ (range_map (afields a)) in
  if decide (fs = ∅) then [] else [CallFields (aname a) fs (atags a) Untyped None].

Definition Push (b : BasicStats) : list AccCall :=
  range_map (cache b) ≫= fun ia => push_one (statsConfig b) ia.2.
End BasicStats.

#[export] Instance basicstats_agg `{MapRange} : Aggregator BasicStats :=
  {| agg_Add := fun m g => Some (Add m g); agg_Push := fun _ g => Some (Push g, g);
     agg_Reset := Reset |}.
End BasicStats.

(** ** Properties *)

(** The values of field [k] in the series [i], in order. *)
Definition series_values (i : Z) (k : string) (ms : list metric) : list float64 :=
  omap (fun m => if decide (HashID m = i) then v ← Fields m !! k; convert v else None) ms.

Section AggProps.
Context `{MapRange}.

(** *** minmax *)

Definition mm_step (o : option MinMax.minmax) (fv : float64) : option MinMax.minmax :=
  Some match o with
  | None => MinMax.mkMM fv fv
  | Some t =>
    if f_ltb fv (MinMax.mm_min t) then MinMax.mkMM fv (MinMax.mm_max t)
    else if f_gtb fv (MinMax.mm_max t) then MinMax.mkMM (MinMax.mm_min t) fv
    else t
  end.

Definition mm_fields (mm : MinMax.MinMax) (i : Z) (k : string) : option MinMax.minmax :=
  a ← MinMax.cache mm !! i; MinMax.afields a !! k.

Lemma next_field_key fs kv k :
  MinMax.next_field fs kv !! k =
  if decide (k = kv.1) then match convert kv.2 with Some fv => mm_step (fs !! k) fv | None => fs !! k end
  else fs !! k.
Proof.
  unfold MinMax.next_field, mm_step. destruct (convert kv.2) as [fv|]; [|by case_decide].
  case_decide as Hk; [subst k|].
  - destruct (fs !! kv.1) as [t|] eqn:E; [|by rewrite lookup_insert_eq].
    do 2 (case_match; [by rewrite lookup_insert_eq|]). done.
  - destruct (fs !! kv.1) as [t|]; [|by rewrite lookup_insert_ne].
    do 2 (case_match; [by rewrite lookup_insert_ne|]). done.
Qed.

Lemma first_field_key fs kv k :
  MinMax.first_field fs kv !! k =
  if decide (k = kv.1) then match convert kv.2 with Some fv => Some (MinMax.mkMM fv fv) | None => fs !! k end
  else fs !! k.
Proof.
  unfold MinMax.first_field. destruct (convert kv.2) as [fv|]; [|by case_decide].
  case_decide as Hk; [subst k; by rewrite lookup_insert_eq|by rewrite lookup_insert_ne].
Qed.

Lemma MinMax_Add_fields m mm i k :
  mm_fields (MinMax.Add m mm) i k = foldl mm_step (mm_fields mm i k) (series_values i k [m]).
Proof.
  unfold mm_fields, series_values, MinMax.Add. cbn [omap list_omap].
  destruct (decide (HashID m = i)) as [<-|Hi].
  - destruct (MinMax.cache mm !! HashID m) as [a|] eqn:E; simpl; rewrite lookup_insert_eq; simpl.
    + rewrite (foldl_by_key fst snd _ (fun o v => match convert v with Some fv => mm_step o fv | None => o end))
        by (apply next_field_key || apply range_map_NoDup).
      rewrite key_find_range. destruct (Fields m !! k) as [v|]; [|done]. simpl. by destruct (convert v).
    + rewrite (foldl_by_key fst snd _ (fun o v => match convert v with Some fv => Some (MinMax.mkMM fv fv) | None => o end))
        by (apply first_field_key || apply range_map_NoDup).
      rewrite key_find_range, lookup_empty. destruct (Fields m !! k) as [v|]; [|done]. simpl. by destruct (convert v).
  - destruct (MinMax.cache mm !! HashID m) as [a|]; simpl; by rewrite lookup_insert_ne.
Qed.

Lemma series_values_cons i k m ms :
  series_values i k (m :: ms) = series_values i k [m] ++ series_values i k ms.
Proof.
  unfold series_values. simpl. by destruct (if decide (HashID m = i) then _ else _).
Qed.

Lemma MinMax_run_fields ms mm i k :
  mm_fields (foldl (fun mm m => MinMax.Add m mm) mm ms) i k =
  foldl mm_step (mm_fields mm i k) (series_values i k ms).
Proof.
  revert mm. induction ms as [|m ms IH]; intros mm; [done|].
  cbn [foldl]. rewrite IH, series_values_cons, foldl_app. by rewrite MinMax_Add_fields.
Qed.

(** The minimum and the maximum of numbers that are not NaN. *)
Definition mm_of (vs : list float64) (t : MinMax.minmax) : Prop :=
  MinMax.mm_min t ∈ vs /\ MinMax.mm_max t ∈ vs /\
  Forall (fun v => f_leb (MinMax.mm_min t) v = true /\ f_leb v (MinMax.mm_max t) = true) vs.

Lemma mm_step_of vs t v :
  mm_of vs t -> Forall (fun v => f_is_nan v = false) (vs ++ [v]) ->
  exists t', mm_step (Some t) v = Some t' /\ mm_of (vs ++ [v]) t'.
Proof.
  intros (Hmin & Hmax & Hall) Hnan. unfold mm_step. eexists. split; [done|].
  apply Forall_app in Hnan as [Hnan Hv]. apply Forall_cons in Hv as [Hv _].
  rewrite Forall_forall in Hnan. pose proof (Hnan _ Hmin) as Nmin. pose proof (Hnan _ Hmax) as Nmax.
  pose proof (proj1 (Forall_forall _ _) Hall) as Hall'.
  destruct (f_ltb v (MinMax.mm_min t)) eqn:E1; [|destruct (f_gtb v (MinMax.mm_max t)) eqn:E2].
  - apply f_ltb_leb in E1. split_and!; simpl; [set_solver|set_solver|].
    apply Forall_app. split.
    + apply Forall_forall. intros x Hx. destruct (Hall' x Hx). split; [by eapply f_leb_trans|done].
    + apply Forall_singleton. split; [by apply f_leb_refl|]. eapply f_leb_trans; [exact E1|]. by apply Hall'.
  - unfold f_gtb in E2. apply f_ltb_leb in E2. split_and!; simpl; [set_solver|set_solver|].
    apply Forall_app. split.
    + apply Forall_forall. intros x Hx. destruct (Hall' x Hx). split; [done|by eapply f_leb_trans].
    + apply Forall_singleton. split; [|by apply f_leb_refl].
      eapply f_leb_trans; [|exact E2]. by apply Hall'.
  - split_and!; [set_solver|set_solver|]. apply Forall_app. split; [done|]. apply Forall_singleton.
    split; apply f_ltb_false_leb; done.
Qed.

Lemma mm_fold_of vs t ws :
  mm_of vs t -> Forall (fun v => f_is_nan v = false) (vs ++ ws) ->
  exists t', foldl mm_step (Some t) ws = Some t' /\ mm_of (vs ++ ws) t'.
Proof.
  revert vs t. induction ws as [|v ws IH]; intros vs t Ht Hnan.
  { exists t. by rewrite app_nil_r. }
  destruct (mm_step_of vs t v) as (t1 & E1 & Ht1); [done| |].
  { apply Forall_app in Hnan as [H1 H2]. apply Forall_cons in H2 as [H2 _].
    apply Forall_app. split; [done|by apply Forall_singleton]. }
  cbn [foldl]. rewrite E1. destruct (IH (vs ++ [v]) t1) as (t' & E & Ht'); [done| |].
  { by rewrite <- app_assoc. }
  exists t'. rewrite <- app_assoc in Ht'. done.
Qed.

Lemma push_fields_lookup l k t :
  NoDup l.*1 -> (k, t) ∈ l ->
  MinMax.push_fields l !! (k +:+ "_min") = Some (GoScalar (SFloat64 (MinMax.mm_min t))) /\
  MinMax.push_fields l !! (k +:+ "_max") = Some (GoScalar (SFloat64 (MinMax.mm_max t))).
Proof.
  unfold MinMax.push_fields. induction l as [|[k' t'] l IH] using rev_ind; intros Hnd Hin; [set_solver|].
  rewrite foldl_app. cbn [foldl fst snd].
  rewrite fmap_app in Hnd. apply NoDup_app in Hnd as (Hnd & Hdis & _).
  assert (k' +:+ "_max" <> k +:+ "_min") as H1 by (intros E; by apply str_app_inj in E as [_ E]).
  assert (k' +:+ "_min" <> k +:+ "_max") as H2 by (intros E; by apply str_app_inj in E as [_ E]).
  apply elem_of_app in Hin as [Hin|Hin%list_elem_of_singleton].
  - assert (k' <> k) as Hk.
    { intros ->. apply (Hdis k); [by apply (list_elem_of_fmap_2 fst _ (k, t))|simpl; set_solver]. }
    assert (k' +:+ "_min" <> k +:+ "_min") as H3 by (intros E; by apply str_app_inj in E as [E _]).
    assert (k' +:+ "_max" <> k +:+ "_max") as H4 by (intros E; by apply str_app_inj in E as [E _]).
    rewrite !lookup_insert_ne by done. by apply IH.
  - injection Hin as -> ->. rewrite lookup_insert_ne, lookup_insert_eq by done.
    by rewrite lookup_insert_eq.
Qed.

(** The min/max aggregator reports true bounds. For every series and field
    with at least one numeric value (none of them NaN) in the window, whatever
    the interleaving with other series and fields, the push contains one report
    of the series whose [_min] and [_max] fields are values that occurred and
    bound all values of the field. *)
Theorem MinMax_bounds (ms : list metric) (i : Z) (k : string) :
  let vs := series_values i k ms in
  vs <> [] -> Forall (fun v => f_is_nan v = false) vs ->
  exists a fs mn mx,
    MinMax.cache (foldl (fun mm m => MinMax.Add m mm) MinMax.NewMinMax ms) !! i = Some a /\
    CallFields (MinMax.aname a) fs (MinMax.atags a) Untyped None ∈
      MinMax.Push (foldl (fun mm m => MinMax.Add m mm) MinMax.NewMinMax ms) /\
    fs !! (k +:+ "_min") = Some (GoScalar (SFloat64 mn)) /\
    fs !! (k +:+ "_max") = Some (GoScalar (SFloat64 mx)) /\
    mn ∈ vs /\ mx ∈ vs /\ Forall (fun v => f_leb mn v = true /\ f_leb v mx = true) vs.
Proof.
  intros vs Hne Hnan. pose proof (MinMax_run_fields ms MinMax.NewMinMax i k) as Hrun. fold vs in Hrun.
  set (mm := foldl _ MinMax.NewMinMax ms) in *.
  assert (mm_fields MinMax.NewMinMax i k = None) as E0 by (unfold mm_fields; simpl; by rewrite lookup_empty).
  rewrite E0 in Hrun. destruct vs as [|v ws]; [done|]. cbn [foldl] in Hrun.
  apply Forall_cons in Hnan as Hn'. destruct Hn' as [Hv _].
  destruct (mm_fold_of [v] (MinMax.mkMM v v) ws) as (t & Et & Hmin & Hmax & Hall); [|done|].
  { split_and!; simpl; [set_solver|set_solver|]. apply Forall_singleton. split; by apply f_leb_refl. }
  change (mm_step None v) with (Some (MinMax.mkMM v v)) in Hrun. rewrite Et in Hrun.
  unfold mm_fields in Hrun. apply bind_Some in Hrun as (a & Ha & Hf).
  destruct (push_fields_lookup (range_map (MinMax.afields a)) k t) as [P1 P2];
    [apply range_map_NoDup|by apply range_map_elem|].
  exists a, (MinMax.push_fields (range_map (MinMax.afields a))), (MinMax.mm_min t), (MinMax.mm_max t).
  split_and!; try done. unfold MinMax.Push.
  apply list_elem_of_fmap. exists (i, a). split; [done|by apply range_map_elem].
Qed.
(** *** basicstats *)

Definition bs_step (o : option BasicStats.basicstats) (fv : float64) : option BasicStats.basicstats :=
  Some match o with None => BasicStats.first_value fv | Some t => BasicStats.next_value fv t end.

Definition bs_fields (b : BasicStats.BasicStats) (i : Z) (k : string) : option BasicStats.basicstats :=
  a ← BasicStats.cache b !! i; BasicStats.afields a !! k.

Lemma bs_next_key fs f k :
  BasicStats.next_field fs f !! k =
  if decide (k = FKey f) then match convert (FValue f) with Some fv => bs_step (fs !! k) fv | None => fs !! k end
  else fs !! k.
Proof.
  unfold BasicStats.next_field, bs_step. destruct (convert (FValue f)) as [fv|]; [|by case_decide].
  case_decide as Hk; [subst k|].
  - destruct (fs !! FKey f); by rewrite lookup_insert_eq.
  - destruct (fs !! FKey f); by rewrite lookup_insert_ne.
Qed.

Lemma bs_first_key fs f k :
  BasicStats.first_field fs f !! k =
  if decide (k = FKey f) then match convert (FValue f) with Some fv => Some (BasicStats.first_value fv) | None => fs !! k end
  else fs !! k.
Proof.
  unfold BasicStats.first_field. destruct (convert (FValue f)) as [fv|]; [|by case_decide].
  case_decide as Hk; [subst k; by rewrite lookup_insert_eq|by rewrite lookup_insert_ne].
Qed.

Lemma BasicStats_Add_fields m b i k :
  wf m -> bs_fields (BasicStats.Add m b) i k = foldl bs_step (bs_fields b i k) (series_values i k [m]).
Proof.
  intros Hwf. unfold bs_fields, series_values, BasicStats.Add. cbn [omap list_omap].
  destruct (decide (HashID m = i)) as [<-|Hi].
  - rewrite <- GetField_Fields by done. unfold GetField. pose proof (wf_fields _ Hwf) as Hnd.
    destruct (BasicStats.cache b !! HashID m) as [a|] eqn:E; simpl; rewrite lookup_insert_eq; simpl.
    + rewrite (foldl_by_key FKey FValue _ (fun o v => match convert v with Some fv => bs_step o fv | None => o end))
        by (apply bs_next_key || done).
      destruct (FValue <$> key_find FKey k (fields m)) as [v|]; [|done]. simpl. by destruct (convert v).
    + rewrite (foldl_by_key FKey FValue _ (fun o v => match convert v with Some fv => Some (BasicStats.first_value fv) | None => o end))
        by (apply bs_first_key || done).
      rewrite lookup_empty.
      destruct (FValue <$> key_find FKey k (fields m)) as [v|]; [|done]. simpl. by destruct (convert v).
  - destruct (BasicStats.cache b !! HashID m) as [a|]; simpl; by rewrite lookup_insert_ne.
Qed.

Lemma BasicStats_run_fields ms b i k :
  Forall wf ms ->
  bs_fields (foldl (fun b m => BasicStats.Add m b) b ms) i k =
  foldl bs_step (bs_fields b i k) (series_values i k ms).
Proof.
  revert b. induction ms as [|m ms IH]; intros b Hwf; [done|]. apply Forall_cons in Hwf as [Hm Hwf].
  cbn [foldl]. rewrite IH, series_values_cons, foldl_app by done. by rewrite BasicStats_Add_fields.
Qed.

(** The loop of one field. *)
Definition bs_run (v : float64) (ws : list float64) : BasicStats.basicstats :=
  foldl (fun t x => BasicStats.next_value x t) (BasicStats.first_value v) ws.

Lemma bs_fold v ws : foldl bs_step None (v :: ws) = Some (bs_run v ws).
Proof.
  unfold bs_run. cbn [foldl]. change (bs_step None v) with (Some (BasicStats.first_value v)).
  generalize (BasicStats.first_value v). induction ws as [|x ws IH]; intros t; [done|]. cbn [foldl]. apply IH.
Qed.

Definition bs_mm (t : BasicStats.basicstats) : MinMax.minmax :=
  MinMax.mkMM (BasicStats.bs_min t) (BasicStats.bs_max t).

Lemma bs_run_mm v ws : foldl mm_step (Some (MinMax.mkMM v v)) ws = Some (bs_mm (bs_run v ws)).
Proof.
  unfold bs_run. change (MinMax.mkMM v v) with (bs_mm (BasicStats.first_value v)).
  generalize (BasicStats.first_value v). induction ws as [|x ws IH]; intros t; [done|]. cbn [foldl].
  rewrite <- IH. f_equal. unfold mm_step, bs_mm, BasicStats.next_value. simpl.
  destruct (f_ltb x (BasicStats.bs_min t)); [done|].
  by destruct (f_gtb x (BasicStats.bs_max t)).
Qed.

Lemma bs_run_snoc v ws x : bs_run v (ws ++ [x]) = BasicStats.next_value x (bs_run v ws).
Proof. unfold bs_run. by rewrite foldl_app. Qed.

Lemma bs_run_last v ws : BasicStats.bs_LAST (bs_run v ws) = v.
Proof. induction ws as [|x ws IH] using rev_ind; [done|]. by rewrite bs_run_snoc. Qed.

Lemma bs_run_sum v ws : BasicStats.bs_sum (bs_run v ws) = foldl f_add v ws.
Proof. induction ws as [|x ws IH] using rev_ind; [done|]. rewrite bs_run_snoc, foldl_app. simpl. by rewrite IH. Qed.

(** The basic-stats aggregator, for a series and field with the values
    [v :: ws] in order: the sum is their sum in order, the minimum and maximum are
    values that occurred and bound all of them (without NaN), and the reported
    difference is that of the last value and the FIRST one, because the value
    to compare with is never updated. *)
Theorem BasicStats_values (names : option (list string)) (ms : list metric) (i : Z) (k : string)
    (v : float64) (ws : list float64) :
  Forall wf ms -> series_values i k ms = v :: ws ->
  exists t, bs_fields (foldl (fun b m => BasicStats.Add m b) (BasicStats.NewBasicStats names) ms) i k = Some t /\
    BasicStats.bs_sum t = foldl f_add v ws /\
    (forall us x, ws = us ++ [x] -> BasicStats.bs_diff t = f_sub x v) /\
    (Forall (fun v => f_is_nan v = false) (v :: ws) -> mm_of (v :: ws) (bs_mm t)).
Proof.
  intros Hwf Hvs. exists (bs_run v ws). rewrite BasicStats_run_fields, Hvs by done.
  assert (bs_fields (BasicStats.NewBasicStats names) i k = None) as ->
    by (unfold bs_fields; simpl; by rewrite lookup_empty).
  split; [apply bs_fold|]. split; [apply bs_run_sum|]. split.
  - intros us x ->. rewrite bs_run_snoc. simpl. by rewrite bs_run_last.
  - intros Hnan. apply Forall_cons in Hnan as Hn'. destruct Hn' as [Hv _].
    destruct (mm_fold_of [v] (MinMax.mkMM v v) ws) as (t & Et & Ht); [|done|].
    { split_and!; simpl; [set_solver|set_solver|]. apply Forall_singleton. split; by apply f_leb_refl. }
    rewrite bs_run_mm in Et. injection Et as <-. exact Ht.
Qed.

(** *** final *)

Lemma push_loop_spec now timeout l cache calls :
  NoDup l.*1 ->
  foldl (fun '(calls, cache) im =>
    if timeout <? now - tm im.2 then
      (calls ++ [CallFields (name im.2) (Final.final_fields (fields im.2)) (Tags im.2) Untyped (Some (tm im.2))],
       delete im.1 cache)
    else (calls, cache)) (calls, cache) l =
  (calls ++ ((fun im : Z * metric => CallFields (name im.2) (Final.final_fields (fields im.2)) (Tags im.2) Untyped (Some (tm im.2)))
     <$> filter (fun im => timeout < now - tm im.2) l),
   filter (fun im => im.1 ∉ (filter (fun im => timeout < now - tm im.2) l).*1) (cache : gmap Z metric)).
Proof.
  revert calls cache. induction l as [|[i m] l IH]; intros calls cache Hnd.
  { simpl. rewrite app_nil_r. f_equal. symmetry. apply map_filter_id. intros. set_solver. }
  rewrite fmap_cons in Hnd. apply NoDup_cons in Hnd as [Hi Hnd]. cbn [foldl fst snd].
  rewrite filter_cons. cbn [fst snd]. destruct (Z.ltb_spec timeout (now - tm m)).
  - rewrite decide_True by done. rewrite IH by done. rewrite fmap_cons, <- app_assoc. f_equal.
    apply map_eq. intros j. rewrite !map_lookup_filter, lookup_delete. cbn [fst snd].
    destruct (decide (i = j)) as [->|Hij].
    + simpl. destruct (cache !! j) as [x|]; [|done]. simpl. rewrite option_guard_False; [done|]. simpl. set_solver.
    + destruct (cache !! j) as [x|]; [|done]. simpl. apply option_guard_iff. simpl. set_solver.
  - rewrite decide_False by lia. by apply IH.
Qed.

(** The final aggregator reports a series once it has been silent for longer
    than the timeout: a push makes one report for each cached metric that is
    older than the timeout, with its own time and the [_final] fields, and
    forgets exactly those; every other cached metric stays and is not
    reported. *)
Theorem Final_Push_spec (now : Z) (f : Final.Final) :
  let old im := Final.SeriesTimeout f < now - tm (im : Z * metric).2 in
  exists due, due ≡ₚ filter old (map_to_list (Final.metricCache f)) /\
    Final.Push now f =
    (CallPrecision 1 :: ((fun im => CallFields (name im.2) (Final.final_fields (fields im.2)) (Tags im.2)
        Untyped (Some (tm im.2))) <$> due),
     Final.mkFinal (Final.SeriesTimeout f)
       (filter (fun im => ~ old im) (Final.metricCache f))).
Proof.
  intros old. exists (filter old (range_map (Final.metricCache f))).
  split; [by rewrite range_map_perm|]. unfold Final.Push, Final.push_loop.
  rewrite push_loop_spec by apply range_map_NoDup. simpl. do 2 f_equal.
  apply map_filter_ext. intros i m Hm. split.
  - intros Hn Ho. apply Hn. simpl. apply list_elem_of_fmap. exists (i, m). split; [done|].
    apply list_elem_of_filter. split; [done|]. by apply range_map_elem.
  - intros Hn Hin. simpl in Hin. apply list_elem_of_fmap in Hin as ([j m'] & Hj & Hin). simpl in Hj. subst j.
    apply list_elem_of_filter in Hin as [Ho Hin]. apply range_map_elem in Hin. apply Hn. by simplify_eq.
Qed.
(** *** valuecounter *)

(** How often one field of a metric counts for the counter [fn]. *)
Definition hits_field (cfs : list string) (fn : string) (kv : string * Val) : nat :=
  if decide (kv.1 +:+ "_" +:+ format_v kv.2 = fn) then length (filter (fun cf => kv.1 = cf) cfs) else 0.
Definition hits (cfs : list string) (fn : string) (m : metric) : nat :=
  sum_list_with (hits_field cfs fn) (map_to_list (Fields m)).
Definition series_hits (cfs : list string) (fn : string) (i : Z) (ms : list metric) : nat :=
  sum_list_with (fun m => if decide (HashID m = i) then hits cfs fn m else 0%nat) ms.

Definition vc_count (vc : ValueCounter.ValueCounter) (i : Z) (fn : string) : Z :=
  default 0 (a ← ValueCounter.cache vc !! i; ValueCounter.fieldCount a !! fn).

Lemma count_value_hits cfs kv fn a :
  let c a := default 0 (ValueCounter.fieldCount a !! fn) in
  int64 (c a) = c a ->
  c (ValueCounter.count_value cfs kv.1 kv.2 a) = int64 (c a + Z.of_nat (hits_field cfs fn kv)).
Proof.
  intros c. unfold ValueCounter.count_value, hits_field.
  revert a. induction cfs as [|cf cfs IH]; intros a Ha.
  { simpl. case_decide; simpl; by rewrite Z.add_0_r. }
  cbn [foldl]. rewrite filter_cons. destruct (decide (kv.1 = cf)) as [Hk|Hk]; [|by apply IH].
  set (a1 := ValueCounter.count_field _ a).
  assert (c a1 = int64 (c a + (if decide (kv.1 +:+ "_" +:+ format_v kv.2 = fn) then 1 else 0))) as H1.
  { unfold a1, c, ValueCounter.count_field. simpl. case_decide as Hf.
    - rewrite <- Hf, lookup_insert_eq. done.
    - rewrite lookup_insert_ne by done. unfold c in Ha. by rewrite Z.add_0_r, Ha. }
  rewrite IH by (rewrite H1; apply int64_small, int64_range). rewrite H1, int64_add. f_equal.
  case_decide; simpl; lia.
Qed.

Lemma ValueCounter_Add_count m vc i fn :
  int64 (vc_count vc i fn) = vc_count vc i fn ->
  vc_count (ValueCounter.Add m vc) i fn =
  int64 (vc_count vc i fn +
    Z.of_nat (if decide (HashID m = i) then hits (ValueCounter.Fields vc) fn m else 0%nat)).
Proof.
  unfold vc_count, ValueCounter.Add. simpl. intros Hr.
  destruct (decide (HashID m = i)) as [<-|Hi].
  2: { rewrite lookup_insert_ne by done. by rewrite Z.add_0_r, Hr. }
  rewrite lookup_insert_eq. simpl.
  set (a0 := match ValueCounter.cache vc !! HashID m with Some a => a | None => _ end).
  assert (default 0 (ValueCounter.fieldCount a0 !! fn) =
    default 0 (a ← ValueCounter.cache vc !! HashID m; ValueCounter.fieldCount a !! fn)) as E0.
  { unfold a0. destruct (ValueCounter.cache vc !! HashID m); simpl; [done|]. by rewrite lookup_empty. }
  rewrite <- E0 in Hr |- *. clearbody a0. clear E0.
  unfold hits. rewrite <- range_map_perm. revert a0 Hr.
  induction (range_map (Fields m)) as [|kv l IH]; intros a0 Hr; simpl; [by rewrite Z.add_0_r, Hr|].
  pose proof (count_value_hits (ValueCounter.Fields vc) kv fn a0 Hr) as H1. cbn zeta in H1.
  rewrite IH by (rewrite H1; apply int64_small, int64_range). rewrite H1, int64_add. f_equal. lia.
Qed.

Lemma ValueCounter_Fields_Add m vc : ValueCounter.Fields (ValueCounter.Add m vc) = ValueCounter.Fields vc.
Proof. done. Qed.

(** The value counter counts. After any metrics, the counter [fn] of a
    series is the number of times a configured field with that name and value
    occurred in it, [fn] being the field's key and value joined by an underscore
    (64-bit wrap-around included). *)
Theorem ValueCounter_counts (cfs : list string) (ms : list metric) (i : Z) (fn : string) :
  vc_count (foldl (fun vc m => ValueCounter.Add m vc) (ValueCounter.NewValueCounter cfs) ms) i fn =
  int64 (Z.of_nat (series_hits cfs fn i ms)).
Proof.
  set (vc0 := ValueCounter.NewValueCounter cfs).
  assert (vc_count vc0 i fn = 0) as E0 by (unfold vc_count; simpl; by rewrite lookup_empty).
  enough (forall vc, ValueCounter.Fields vc = cfs -> int64 (vc_count vc i fn) = vc_count vc i fn ->
    vc_count (foldl (fun vc m => ValueCounter.Add m vc) vc ms) i fn =
    int64 (vc_count vc i fn + Z.of_nat (series_hits cfs fn i ms))) as Hgen.
  { rewrite Hgen, E0; [done|done|by rewrite E0]. }
  induction ms as [|m ms IH]; intros vc Hcf Hr; [simpl; by rewrite Z.add_0_r, Hr|].
  cbn [foldl]. pose proof (ValueCounter_Add_count m vc i fn Hr) as H1.
  rewrite IH by (done || (rewrite H1; apply int64_small, int64_range)).
  rewrite H1, int64_add, Hcf. f_equal. unfold series_hits. simpl. lia.
Qed.
(** *** merge *)

(** A series at a time, and the grouping of field values by it: an association
    list in order of first appearance. *)
Definition skey : Type := string * gmap string string * Z.
Definition sid (k : skey) : Z := Grouper.groupID k.1.1 k.1.2 k.2.
Definition group_key (m : metric) : skey := (name m, Tags m, tm m).
Definition group_abs (m : metric) : skey * gmap string Val := (group_key m, Fields m).

Fixpoint group_add (k : skey) (f : string) (v : Val) (l : list (skey * gmap string Val)) :
    list (skey * gmap string Val) :=
  match l with
  | [] => [(k, {[f := v]})]
  | (k', fs) :: l' => if decide (k' = k) then (k', <[f := v]> fs) :: l' else (k', fs) :: group_add k f v l'
  end.

Lemma group_add_new k f v l : k ∉ l.*1 -> group_add k f v l = l ++ [(k, {[f := v]})].
Proof.
  induction l as [|[k' fs] l IH]; intros Hk; [done|]. rewrite fmap_cons in Hk. simpl in *.
  rewrite decide_False by set_solver. rewrite IH by set_solver. done.
Qed.

Lemma group_add_old k f v l p fs :
  NoDup l.*1 -> l !! p = Some (k, fs) -> group_add k f v l = <[p := (k, <[f := v]> fs)]> l.
Proof.
  revert p. induction l as [|[k' fs'] l IH]; intros p Hnd Hp; [done|].
  rewrite fmap_cons in Hnd. apply NoDup_cons in Hnd as [Hk Hnd]. destruct p as [|p]; simpl in *.
  - injection Hp as -> ->. by rewrite decide_True.
  - rewrite decide_False. { f_equal. by apply IH. }
    intros ->. apply Hk. apply (list_elem_of_fmap_2 fst _ (k, fs)). by eapply list_elem_of_lookup_2.
Qed.

(** The grouper [g] holds the groups [l]. *)
Record grouped (g : Grouper.SeriesGrouper) (l : list (skey * gmap string Val)) : Prop := {
  gr_abs : group_abs <$> Grouper.ordered g = l;
  gr_wf : Forall wf (Grouper.ordered g);
  gr_nodup : NoDup l.*1;
  gr_map : forall i p, Grouper.metrics g !! i = Some p <-> exists k fs, l !! p = Some (k, fs) /\ sid k = i;
}.

Lemma grouper_add_new g l k f v :
  grouped g l -> Grouper.metrics g !! sid k = None -> convertField v <> VNil ->
  grouped (Grouper.Add k.1.1 k.1.2 k.2 f v g) (group_add k f (convertField v) l).
Proof.
  intros [Ha Hw Hn Hm] E Hv. unfold Grouper.Add. fold (sid k). rewrite E.
  assert (k ∉ l.*1) as Hk.
  { intros ([k' fs] & -> & [p Hp]%list_elem_of_lookup_1)%list_elem_of_fmap_1.
    assert (Grouper.metrics g !! sid k' = Some p) as E' by (apply Hm; by eexists _, _). simpl in *. congruence. }
  rewrite group_add_new by done.
  assert (length (Grouper.ordered g) = length l) as Hl by (rewrite <- Ha, length_fmap; done).
  constructor; simpl.
  - rewrite fmap_app, Ha. simpl. do 2 f_equal. unfold group_abs, group_key.
    pose proof (New_abs k.1.1 k.1.2 {[f := v]} k.2 []) as Habs. unfold abs in Habs.
    injection Habs as -> -> -> -> _ _. rewrite omap_singleton. unfold kept.
    destruct k as [[nm ts] t]. simpl. f_equal. by destruct (convertField v).
  - apply Forall_app. split; [done|]. apply Forall_singleton. apply New_wf.
  - rewrite fmap_app. apply NoDup_app. split_and!; [done| |simpl; apply NoDup_singleton].
    intros x Hx Hx2. simpl in Hx2. apply list_elem_of_singleton in Hx2. by subst.
  - intros i p. rewrite Hl. destruct (decide (sid k = i)) as [<-|Hi].
    + rewrite lookup_insert_eq. split.
      * intros [= <-]. exists k, {[f := convertField v]}. split; [|done]. by rewrite list_lookup_middle.
      * intros (k' & fs & Hp & Hs). apply lookup_app_Some in Hp as [Hp|[Hp1 Hp2]].
        -- assert (Grouper.metrics g !! sid k' = Some p) as E' by (apply Hm; by eexists _, _). congruence.
        -- destruct (p - length l)%nat eqn:Ep; [|done]. f_equal. lia.
    + rewrite lookup_insert_ne by done. rewrite Hm. split.
      * intros (k' & fs & Hp & Hs). exists k', fs. split; [|done]. by apply lookup_app_l_Some.
      * intros (k' & fs & Hp & Hs). exists k', fs. split; [|done].
        apply lookup_app_Some in Hp as [Hp|[Hp1 Hp2]]; [done|].
        destruct (p - length l)%nat; [|done]. simpl in Hp2. congruence.
Qed.

Lemma grouper_add_old g l k f v p :
  grouped g l -> Grouper.metrics g !! sid k = Some p -> (forall k', k' ∈ l.*1 -> sid k' = sid k -> k' = k) ->
  grouped (Grouper.Add k.1.1 k.1.2 k.2 f v g) (group_add k f (convertField v) l).
Proof.
  intros [Ha Hw Hn Hm] E Hinj. unfold Grouper.Add. fold (sid k). rewrite E.
  apply Hm in E as (k' & fs & Hp & Hs).
  assert (k' = k) as -> by (apply Hinj; [|done]; apply (list_elem_of_fmap_2 fst _ (k', fs)); by eapply list_elem_of_lookup_2).
  rewrite (group_add_old k f _ l p fs) by done.
  assert (exists m, Grouper.ordered g !! p = Some m /\ group_abs m = (k, fs)) as (m & Hgm & Hma).
  { rewrite <- Ha in Hp. apply list_lookup_fmap_Some in Hp as (m & ? & ?). by exists m. }
  assert (wf m) as Hwm by (by eapply Forall_lookup_1).
  assert (p < length l)%nat as Hlt by (by apply lookup_lt_Some in Hp).
  constructor; simpl.
  - rewrite (list_alter_insert _ _ _ m) by done. rewrite list_fmap_insert, Ha. f_equal.
    unfold group_abs, group_key in *. injection Hma as <- <-.
    rewrite Fields_AddField by apply Hwm. done.
  - rewrite (list_alter_insert _ _ _ m) by done. apply Forall_insert; [done|]. by apply AddField_wf.
  - rewrite list_fmap_insert. simpl. rewrite list_insert_id; [done|].
    rewrite list_lookup_fmap, Hp. done.
  - intros i q. rewrite Hm. destruct (decide (p = q)) as [<-|Hpq].
    + rewrite list_lookup_insert_eq by done. rewrite Hp. split; intros (? & ? & [= <- <-] & ?); by eexists _, _.
    + rewrite list_lookup_insert_ne by done. done.
Qed.

(** The field values a metric adds, and the values of a list of metrics. *)
Definition entries (m : metric) : list (skey * string * Val) :=
  (fun f => (group_key m, FKey f, FValue f)) <$> fields m.
Definition group_all (es : list (skey * string * Val)) : list (skey * gmap string Val) :=
  foldl (fun l e => group_add e.1.1 e.1.2 e.2 l) [] es.

Lemma group_add_keys k f v l k' : k' ∈ (group_add k f v l).*1 -> k' = k \/ k' ∈ l.*1.
Proof.
  induction l as [|[k1 fs] l IH]; simpl; [set_solver|]. case_decide; simpl; set_solver.
Qed.

Lemma group_all_snoc es e : group_all (es ++ [e]) = group_add e.1.1 e.1.2 e.2 (group_all es).
Proof. unfold group_all. by rewrite foldl_app. Qed.

Lemma group_all_keys es k : k ∈ (group_all es).*1 -> k ∈ (fst ∘ fst) <$> es.
Proof.
  induction es as [|e es IH] using rev_ind; [set_solver|]. rewrite group_all_snoc, fmap_app.
  intros [->|Hk]%group_add_keys; [apply elem_of_app; right; simpl; set_solver|].
  apply elem_of_app. left. by apply IH.
Qed.

Lemma grouper_run es :
  Forall (fun e => e.2 <> VNil) es ->
  (forall e1 e2, e1 ∈ es -> e2 ∈ es -> sid e1.1.1 = sid e2.1.1 -> e1.1.1 = e2.1.1) ->
  grouped (foldl (fun g e => Grouper.Add e.1.1.1.1 e.1.1.1.2 e.1.1.2 e.1.2 (go_of_val e.2) g)
    Grouper.NewSeriesGrouper es) (group_all es).
Proof.
  induction es as [|e es IH] using rev_ind; intros Hv Hinj.
  { constructor; simpl; try done; [constructor|]. intros i p. rewrite lookup_empty.
    split; [done|]. by intros (? & ? & ? & ?). }
  apply Forall_app in Hv as [Hv He]. apply Forall_cons in He as [He _].
  rewrite group_all_snoc, foldl_app. cbn [foldl].
  specialize (IH Hv ltac:(intros; apply Hinj; set_solver)).
  destruct e as [[k f] v]. cbn [fst snd] in *.
  set (g := foldl _ Grouper.NewSeriesGrouper es) in *.
  assert (v = convertField (go_of_val v)) as Ev by (by rewrite convertField_go_of_val).
  rewrite Ev at 2. destruct (Grouper.metrics g !! sid k) as [p|] eqn:E.
  - apply (grouper_add_old _ _ _ _ _ p); [done|done|]. intros k' Hk' Hs.
    apply group_all_keys in Hk'. apply list_elem_of_fmap in Hk' as ([[k1 f1] v1] & -> & Hin).
    apply (Hinj (k1, f1, v1) (k, f, v)); set_solver.
  - apply grouper_add_new; [done|done|]. by rewrite <- Ev.
Qed.

Lemma Merge_Add_entries m g :
  Merge.Add m g = foldl (fun g e => Grouper.Add e.1.1.1.1 e.1.1.1.2 e.1.1.2 e.1.2 (go_of_val e.2) g) g (entries m).
Proof.
  unfold Merge.Add, entries, group_key. generalize (fields m). intros fs. revert g.
  induction fs as [|f fs IH]; intros g; [done|]. cbn [foldl fmap list_fmap fst snd]. apply IH.
Qed.

(** The merge aggregator groups fields by series and time. When the hashes
    of the series and times in the window are distinct, the metrics it pushes are
    one per series and time in order of first appearance, each with the fields of
    all metrics of that series and time, the last value of a field winning. *)
Theorem Merge_groups (ms : list metric) :
  let es := ms ≫= entries in
  Forall (fun e => e.2 <> VNil) es ->
  (forall e1 e2, e1 ∈ es -> e2 ∈ es -> sid e1.1.1 = sid e2.1.1 -> e1.1.1 = e2.1.1) ->
  let g := foldl (fun g m => Merge.Add m g) Merge.Reset ms in
  exists out, Merge.Push g = CallPrecision 1 :: (CallMetric <$> out) /\
    group_abs <$> out = group_all es /\ Forall wf out.
Proof.
  intros es Hv Hinj g. exists (Grouper.ordered g). split; [done|].
  destruct (grouper_run es Hv Hinj) as [Ha Hw _ _].
  assert (g = foldl (fun g e => Grouper.Add e.1.1.1.1 e.1.1.1.2 e.1.1.2 e.1.2 (go_of_val e.2) g)
    Grouper.NewSeriesGrouper es) as ->; [|done].
  unfold g, es, Merge.Reset. generalize Grouper.NewSeriesGrouper. clear.
  induction ms as [|m ms IH]; intros g; [done|]. cbn [foldl].
  rewrite bind_cons, foldl_app, IH. by rewrite Merge_Add_entries.
Qed.
End AggProps.

(** *** Witnesses *)

#[local] Existing Instance map_range_default.

Definition ex_series (v1 v2 : Z) : metric :=
  mkMetric "cpu" [mkTag "host" "a"] [mkField "x" (VInt v1); mkField "y" (VInt v2)] 7 Untyped false.
Definition ex_sid : Z := HashID (ex_series 0 0).
Definition ex_ms : list metric := [ex_series 5 1; ex_series 2 9; ex_series 8 4].

Lemma ex_series_wf a b : wf (ex_series a b).
Proof. constructor; apply (bool_decide_unpack _); vm_compute; exact I. Qed.

Lemma ex_series_values : series_values ex_sid "x" ex_ms = [f_of_Z 5; f_of_Z 2; f_of_Z 8].
Proof. vm_compute. reflexivity. Qed.

Lemma MinMax_bounds_witness :
  exists (fs : gmap string GoVal) mn mx, fs !! ("x" +:+ "_min") = Some (GoScalar (SFloat64 mn)) /\
    fs !! ("x" +:+ "_max") = Some (GoScalar (SFloat64 mx)) /\
    mn ∈ [f_of_Z 5; f_of_Z 2; f_of_Z 8] /\ mx ∈ [f_of_Z 5; f_of_Z 2; f_of_Z 8].
Proof.
  destruct (MinMax_bounds ex_ms ex_sid "x") as (a & fs & mn & mx & _ & _ & H1 & H2 & H3 & H4 & _);
    rewrite ?ex_series_values; [discriminate|repeat constructor|].
  rewrite ex_series_values in H3, H4. exists fs, mn, mx. exact (conj H1 (conj H2 (conj H3 H4))).
Defined.

Lemma BasicStats_values_witness :
  exists t, bs_fields (foldl (fun b m => BasicStats.Add m b) (BasicStats.NewBasicStats None) ex_ms) ex_sid "x" = Some t /\
    BasicStats.bs_diff t = f_of_Z 3.
Proof.
  destruct (BasicStats_values None ex_ms ex_sid "x" (f_of_Z 5) [f_of_Z 2; f_of_Z 8])
    as (t & Ht & _ & Hd & _);
    [repeat (constructor; [apply ex_series_wf|]); constructor|apply ex_series_values|].
  exists t. split; [exact Ht|]. rewrite (Hd [f_of_Z 2] (f_of_Z 8) eq_refl). vm_compute. reflexivity.
Defined.

Lemma Merge_groups_witness :
  exists out, group_abs <$> out = group_all (([ex_series 5 1; ex_series 2 9] : list metric) ≫= entries) /\ Forall wf out.
Proof.
  destruct (Merge_groups [ex_series 5 1; ex_series 2 9]) as (out & _ & H1 & H2).
  - repeat (constructor; [discriminate|]). constructor.
  - intros e1 e2 He1 He2 _. cbn in He1, He2.
    repeat (apply elem_of_cons in He1 as [->|He1]); repeat (apply elem_of_cons in He2 as [->|He2]);
      try reflexivity; try (apply elem_of_nil in He1; contradiction); try (apply elem_of_nil in He2; contradiction).
  - exists out. exact (conj H1 H2).
Defined.
