(* ===== verification/Histogram.v ===== *)
(** * The histogram aggregator

    [plugins/aggregators/histogram/histogram.go]. A nil slice of borders is
    [None]. [sortBuckets] sorts the configured slice in place; sorting a sorted
    slice changes nothing, so the sorted value is computed where it is used.
    Indexing out of range is a panic ([None]): it needs two series with the same
    hash, or counts from other borders. *)

From S2P Require Import Prelude Float64 Strconv Metric Tracking Selfstat Interfaces Filter Running Aggregators.

Module Histogram.

Definition bucketRightTag : string := "le".
Definition bucketPosInf : string := "+Inf".
Definition bucketLeftTag : string := "gt".
Definition bucketNegInf : string := "-Inf".

Notation buckets := (list float64).
Notation counts := (list Z).

Record config := mkConfig {
  CMetric : string;
  CFields : list string;
  Buckets : option buckets;
}.

Record metricHistogramCollection := mkMHC {
  histogramCollection : gmap string counts;
  hname : string;
  htags : gmap string string;
}.

Record HistogramAggregator := mkHA {
  Configs : list config;
  ResetBuckets : bool;
  Cumulative : bool;
  bucketsByMetrics : gmap string (gmap string (option buckets));
  cache : gmap Z metricHistogramCollection;
}.

Record groupedByCountFields := mkGrouped {
  gname : string;
  gtags : gmap string string;
  fieldsWithCount : gmap string Z;
}.

Definition NewHistogramAggregator (cs : list config) (reset cumulative : bool) : HistogramAggregator :=
  mkHA cs reset cumulative ∅ ∅.

Definition set_buckets (b : gmap string (gmap string (option buckets))) (h : HistogramAggregator) : HistogramAggregator :=
  mkHA (Configs h) (ResetBuckets h) (Cumulative h) b (cache h).
Definition set_cache (c : gmap Z metricHistogramCollection) (h : HistogramAggregator) : HistogramAggregator :=
  mkHA (Configs h) (ResetBuckets h) (Cumulative h) (bucketsByMetrics h) c.

(** The conversions of this aggregator; unsigned integers are not converted. *)
Definition convert (v : Val) : option float64 :=
  match v with
  | VFloat f => Some f
  | VInt z => Some (f_of_Z z)
  | _ => None
  end.

Definition isBucketExists (field : string) (cfg : config) : bool :=
  match CFields cfg with
  | [] => true
  | fls => existsb (fun fl => bool_decide (fl = field)) fls
  end.

(** The order of [sort.Float64s]: NaN first. *)
Definition float_less (a b : float64) : bool := f_ltb a b || (f_is_nan a && negb (f_is_nan b)).
Fixpoint insert_sorted (x : float64) (l : list float64) : list float64 :=
  match l with
  | [] => [x]
  | y :: l' => if float_less y x then y :: insert_sorted x l' else x :: l
  end.
Definition Float64s (l : list float64) : list float64 := foldr insert_sorted [] l.

Fixpoint out_of_order (l : list float64) : bool :=
  match l with
  | x :: ((y :: _) as l') => f_geb x y || out_of_order l'
  | _ => false
  end.
Definition sortBuckets (b : option buckets) : option buckets :=
  match b with
  | Some l => Some (if out_of_order l then Float64s l else l)
  | None => None
  end.

(** The loop of [getBuckets] over the configurations. *)
Definition get_loop (metric field : string) (h : HistogramAggregator) : HistogramAggregator :=
  foldl (fun h cfg =>
    if decide (CMetric cfg = metric) then
      if isBucketExists field cfg then
        let m := default ∅ (bucketsByMetrics h !! metric) in
        set_buckets (<[metric := <[field := sortBuckets (Buckets cfg)]> m]> (bucketsByMetrics h)) h
      else h
    else h) h (Configs h).

Definition lookup_buckets (metric field : string) (h : HistogramAggregator) : option (option buckets) :=
  m ← bucketsByMetrics h !! metric; m !! field.

Definition getBuckets (metric field : string) (h : HistogramAggregator) : option buckets * HistogramAggregator :=
  match lookup_buckets metric field h with
  | Some b => (b, h)
  | None =>
    let h := get_loop metric field h in
    (default None (lookup_buckets metric field h), h)
  end.

(** [sort.SearchFloat64s]. *)
Definition SearchFloat64s (a : list float64) (x : float64) : nat :=
  search_loop (S (length a)) 0 (length a) (fun i => match a !! i with Some y => f_geb y x | None => false end).

Section Ops.
Context `{MapRange}.

(** The first loop of [Add]: the borders of each field that has some. *)
Definition collect_buckets (nm : string) (fs : list (string * Val)) (h : HistogramAggregator) :
    gmap string buckets * HistogramAggregator :=
  foldl (fun '(bf, h) kv =>
    let '(b, h) := getBuckets nm kv.1 h in
    (match b with Some b => <[kv.1 := b]> bf | None => bf end, h)) (∅, h) fs.

(** One field of the second loop. *)
Definition count_field (bf : gmap string buckets) (hc : gmap string counts) (kv : string * Val) :
    option (gmap string counts) :=
  match bf !! kv.1 with
  | None => Some hc
  | Some bs =>
    let cs := match hc !! kv.1 with Some cs => cs | None => replicate (S (length bs)) 0 end in
    match convert kv.2 with
    | Some x =>
      let index := SearchFloat64s bs x in
      c ← cs !! index;
      Some (<[kv.1 := <[index := int64 (c + 1)]> cs]> hc)
    | None => Some (<[kv.1 := cs]> hc)
    end
  end.
Fixpoint count_fields (bf : gmap string buckets) (fs : list (string * Val)) (hc : gmap string counts) :
    option (gmap string counts) :=
  match fs with
  | [] => Some hc
  | kv :: fs' => hc ← count_field bf hc kv; count_fields bf fs' hc
  end.

Definition Add (m : metric) (h : HistogramAggregator) : option HistogramAggregator :=
  let '(bf, h) := collect_buckets (name m) (range_map (Fields m)) h in
  if decide (bf = ∅) then Some h
  else
    let i := HashID m in
    let agr := match cache h !! i with
      | Some agr => agr
      | None => mkMHC ∅ (name m) (Tags m)
      end in
    hc ← count_fields bf (range_map (Fields m)) (histogramCollection agr);
    Some (set_cache (<[i := mkMHC hc (hname agr) (htags agr)]> (cache h)) h).

Definition isTagsIdentical (originalTags checkedTags : gmap string string) : bool :=
  bool_decide (size originalTags = size checkedTags) &&
  forallb (fun kv => bool_decide (kv.2 = default EmptyString (checkedTags !! kv.1))) (range_map originalTags).

Fixpoint groupField (nm field : string) (count : Z) (ts : gmap string string)
    (l : list groupedByCountFields) : list groupedByCountFields :=
  match l with
  | [] => [mkGrouped nm ts {[field := count]}]
  | g :: l' =>
    if bool_decide (nm = gname g) && isTagsIdentical ts (gtags g)
    then mkGrouped (gname g) (gtags g) (<[field := count]> (fieldsWithCount g)) :: l'
    else g :: groupField nm field count ts l'
  end.

(** The loop of [groupFieldsByBuckets] from position [index]. *)
Fixpoint group_loop (cumulative : bool) (bs : buckets) (nm field : string) (index : nat)
    (cs : counts) (sum : Z) (ts : gmap string string) (l : list groupedByCountFields) :
    option (list groupedByCountFields) :=
  match cs with
  | [] => Some l
  | count :: cs' =>
    let sum := if cumulative then sum else 0 in
    ts ← (if cumulative then Some ts else
      match index with
      | O => Some (<[bucketLeftTag := bucketNegInf]> ts)
      | S p => b ← bs !! p; Some (<[bucketLeftTag := FormatFloat_f b]> ts)
      end);
    let ts := match bs !! index with
      | Some b => <[bucketRightTag := FormatFloat_f b]> ts
      | None => <[bucketRightTag := bucketPosInf]> ts
      end in
    let sum := int64 (sum + count) in
    group_loop cumulative bs nm field (S index) cs' sum ts (groupField nm field sum ts l)
  end.

Definition groupFieldsByBuckets (nm field : string) (ts : gmap string string) (cs : counts)
    (l : list groupedByCountFields) (h : HistogramAggregator) :
    option (list groupedByCountFields * HistogramAggregator) :=
  let '(bs, h) := getBuckets nm field h in
  l ← group_loop (Cumulative h) (default [] bs) nm field 0 cs 0 ts l;
  Some (l, h).

Definition makeFieldsWithCount (fs : gmap string Z) : gmap string GoVal :=
  foldl (fun out kv => <[kv.1 +:+ "_bucket" := GoScalar (SInt64 kv.2)]> out) ∅ (range_map fs).

(** The nested loops of [Push]. *)
Fixpoint push_fields (nm : string) (ts : gmap string string) (fs : list (string * counts))
    (l : list groupedByCountFields) (h : HistogramAggregator) :
    option (list groupedByCountFields * HistogramAggregator) :=
  match fs with
  | [] => Some (l, h)
  | kc :: fs' =>
    '(l, h) ← groupFieldsByBuckets nm kc.1 ts kc.2 l h;
    push_fields nm ts fs' l h
  end.
Fixpoint push_series (aggs : list (Z * metricHistogramCollection)) (l : list groupedByCountFields)
    (h : HistogramAggregator) : option (list groupedByCountFields * HistogramAggregator) :=
  match aggs with
  | [] => Some (l, h)
  | ia :: aggs' =>
    '(l, h) ← push_fields (hname ia.2) (htags ia.2) (range_map (histogramCollection ia.2)) l h;
    push_series aggs' l h
  end.

Definition Push (h : HistogramAggregator) : option (list AccCall * HistogramAggregator) :=
  '(l, h) ← push_series (range_map (cache h)) [] h;
  let calls : list AccCall := (fun g => CallFields (gname g)
    (makeFieldsWithCount (fieldsWithCount g)) (gtags g) Untyped None) <$> (l : list groupedByCountFields) in
  Some (calls, h).
End Ops.

Definition Reset (h : HistogramAggregator) : HistogramAggregator :=
  if ResetBuckets h then set_buckets ∅ (set_cache ∅ h) else h.

#[export] Instance histogram_agg `{MapRange} : Aggregator HistogramAggregator :=
  {| agg_Add := Add; agg_Push := fun _ h => Push h; agg_Reset := Reset |}.
End Histogram.

(** ** Properties *)


Section HistProps.
Context `{MapRange}.
Import Histogram.

Lemma SearchFloat64s_le a x : (SearchFloat64s a x <= length a)%nat.
Proof. apply search_loop_bounds. lia. Qed.

(** In sorted borders the index found is the number of borders below the value. *)
Lemma SearchFloat64s_spec a x j b :
  StronglySorted (fun u v => f_leb u v = true) a -> a !! j = Some b ->
  ((SearchFloat64s a x <= j)%nat <-> f_leb x b = true).
Proof.
  intros Hs Hj. assert (j < length a)%nat as Hlt by (by apply lookup_lt_Some in Hj).
  set (f := fun i => match a !! i with Some y => f_geb y x | None => false end).
  destruct (search_loop_spec (S (length a)) 0 (length a) f) as [H1 H2]; [|lia|lia|].
  { intros p q [Hpq Hq] Hfp. unfold f in *. destruct (decide (p = q)) as [->|Hne]; [done|].
    destruct (a !! p) as [u|] eqn:Ep; [|done]. destruct (lookup_lt_is_Some_2 a q Hq) as [v Ev]. rewrite Ev.
    unfold f_geb in *. apply (f_leb_trans x u v); [done|].
    by apply (sorted_lookup (fun u v => f_leb u v = true) a p q u v); [|lia|..]. }
  change (search_loop (S (length a)) 0 (length a) f) with (SearchFloat64s a x) in *. split.
  - intros Hle. specialize (H2 j ltac:(lia)). unfold f in H2. by rewrite Hj in H2.
  - intros Hb. destruct (decide (SearchFloat64s a x <= j)%nat) as [?|Hn]; [done|].
    specialize (H1 j ltac:(lia)). unfold f in H1. rewrite Hj in H1. unfold f_geb, f_leb in *. congruence.
Qed.
(** *** Sorting the borders *)

Lemma insert_border_perm x l : insert_sorted x l ≡ₚ x :: l.
Proof.
  induction l as [|y l IH]; simpl; [done|]. case_match; [|done]. rewrite IH. apply Permutation_swap.
Qed.

Lemma insert_sorted_sorted x l :
  Forall (fun v => f_is_nan v = false) (x :: l) ->
  StronglySorted (fun u v => f_leb u v = true) l ->
  StronglySorted (fun u v => f_leb u v = true) (insert_sorted x l).
Proof.
  intros Hn. induction 1 as [|y l Hs IH Hy]; simpl; [repeat constructor|].
  apply Forall_cons in Hn as [Hx Hn]. apply Forall_cons in Hn as [Hny Hn].
  unfold float_less. rewrite Hny. simpl. rewrite orb_false_r. destruct (f_ltb y x) eqn:E.
  - constructor; [apply IH; by constructor|]. rewrite insert_border_perm. constructor; [by apply f_ltb_leb|done].
  - assert (f_leb x y = true) as Hxy by (by apply f_ltb_false_leb). constructor; [by constructor|].
    constructor; [done|]. eapply Forall_impl; [exact Hy|]. intros z Hz. by eapply f_leb_trans.
Qed.

Lemma Float64s_spec l :
  Forall (fun v => f_is_nan v = false) l ->
  StronglySorted (fun u v => f_leb u v = true) (Float64s l) /\ Float64s l ≡ₚ l.
Proof.
  induction l as [|x l IH]; intros Hn; [split; [constructor|done]|].
  apply Forall_cons in Hn as Hn'. destruct Hn' as [Hx Hl]. destruct (IH Hl) as [Hs Hp]. simpl. split.
  - apply insert_sorted_sorted; [|done]. constructor; [done|]. by rewrite Hp.
  - by rewrite insert_border_perm, Hp.
Qed.

Lemma in_order_sorted l :
  Forall (fun v => f_is_nan v = false) l -> out_of_order l = false ->
  StronglySorted (fun u v => f_leb u v = true) l.
Proof.
  induction l as [|x l IH]; intros Hn Ho; [constructor|]. apply Forall_cons in Hn as [Hx Hn].
  destruct l as [|y l]; [repeat constructor|]. simpl in Ho. apply orb_false_iff in Ho as [Hxy Ho].
  specialize (IH Hn Ho). constructor; [done|]. apply Forall_cons in Hn as [Hy _].
  assert (f_leb x y = true) as Hle.
  { apply f_ltb_false_leb; [done|done|]. change (f_leb y x = false) in Hxy. destruct (f_ltb y x) eqn:E; [|done].
    by rewrite (f_ltb_leb _ _ E) in Hxy. }
  apply StronglySorted_cons in IH as [Hy' _]. constructor; [done|].
  eapply Forall_impl; [exact Hy'|]. intros z Hz. by eapply f_leb_trans.
Qed.

Lemma sortBuckets_spec l :
  Forall (fun v => f_is_nan v = false) l ->
  exists l', sortBuckets (Some l) = Some l' /\ StronglySorted (fun u v => f_leb u v = true) l' /\ l' ≡ₚ l.
Proof.
  intros Hn. unfold sortBuckets. destruct (out_of_order l) eqn:E; eexists; (split; [done|]).
  - by apply Float64s_spec.
  - split; [by apply in_order_sorted|done].
Qed.

(** *** The borders of a field *)

(** The last configuration that applies. *)
Definition spec_buckets (cs : list config) (metric field : string) : option (option buckets) :=
  foldl (fun acc cfg =>
    if decide (CMetric cfg = metric) then
      if isBucketExists field cfg then Some (sortBuckets (Buckets cfg)) else acc
    else acc) None cs.

(** What is cached is what the configurations say. *)
Definition cached_ok (h : HistogramAggregator) : Prop :=
  forall m f b, lookup_buckets m f h = Some b -> spec_buckets (Configs h) m f = Some b.

Lemma get_loop_spec m f cs h acc :
  lookup_buckets m f h = acc ->
  let h' := foldl (fun h cfg =>
    if decide (CMetric cfg = m) then
      if isBucketExists f cfg then
        set_buckets (<[m := <[f := sortBuckets (Buckets cfg)]> (default ∅ (bucketsByMetrics h !! m))]> (bucketsByMetrics h)) h
      else h
    else h) h cs in
  lookup_buckets m f h' = foldl (fun acc cfg =>
    if decide (CMetric cfg = m) then
      if isBucketExists f cfg then Some (sortBuckets (Buckets cfg)) else acc
    else acc) acc cs /\
  (forall m' f', (m', f') <> (m, f) -> lookup_buckets m' f' h' = lookup_buckets m' f' h) /\
  Configs h' = Configs h /\ cache h' = cache h.
Proof.
  revert h acc. induction cs as [|cfg cs IH]; intros h acc Ha; [by split_and!|]. cbn [foldl].
  destruct (decide (CMetric cfg = m)); [|by apply IH]. destruct (isBucketExists f cfg); [|by apply IH].
  set (h1 := set_buckets _ h).
  destruct (IH h1 (Some (sortBuckets (Buckets cfg)))) as (H1 & H2 & H3 & H4).
  { unfold lookup_buckets, h1. simpl. rewrite lookup_insert_eq. simpl. by rewrite lookup_insert_eq. }
  split_and!; try done. intros m' f' Hne. rewrite H2 by done. unfold lookup_buckets, h1. simpl.
  destruct (decide (m = m')) as [->|Hm]; [|by rewrite lookup_insert_ne].
  rewrite lookup_insert_eq. simpl. rewrite lookup_insert_ne by congruence.
  destruct (bucketsByMetrics h !! m'); simpl; [done|]. by rewrite lookup_empty.
Qed.

Lemma getBuckets_spec m f h :
  cached_ok h ->
  exists h', getBuckets m f h = (default None (spec_buckets (Configs h) m f), h') /\
    cached_ok h' /\ Configs h' = Configs h /\ cache h' = cache h.
Proof.
  intros Hok. unfold getBuckets. destruct (lookup_buckets m f h) as [b|] eqn:E.
  - exists h. by rewrite (Hok _ _ _ E).
  - destruct (get_loop_spec m f (Configs h) h None E) as (H1 & H2 & H3 & H4).
    fold (get_loop m f h) in H1, H2, H3, H4. exists (get_loop m f h).
    assert (lookup_buckets m f (get_loop m f h) = spec_buckets (Configs h) m f) as HL by exact H1.
    rewrite HL. split_and!; try done. intros m' f' b Hb. rewrite H3.
    destruct (decide ((m', f') = (m, f))) as [[= -> ->]|Hne]; [by rewrite <- HL|].
    rewrite H2 in Hb by done. by apply Hok.
Qed.

Lemma collect_buckets_spec nm fs h :
  cached_ok h -> NoDup fs.*1 ->
  exists bf h', collect_buckets nm fs h = (bf, h') /\ cached_ok h' /\ Configs h' = Configs h /\ cache h' = cache h /\
    forall k, bf !! k = if decide (k ∈ fs.*1) then default None (spec_buckets (Configs h) nm k) else None.
Proof.
  unfold collect_buckets. intros Hok. induction fs as [|kv fs IH] using rev_ind; intros Hnd.
  { exists ∅, h. split_and!; done. }
  rewrite fmap_app in Hnd. apply NoDup_app in Hnd as (Hnd & Hdis & _).
  destruct (IH Hnd) as (bf & h1 & E & Hok1 & Hc1 & Hca1 & Hbf). rewrite foldl_app, E. cbn [foldl].
  destruct (getBuckets_spec nm kv.1 h1 Hok1) as (h2 & -> & Hok2 & Hc2 & Hca2).
  eexists _, h2. split; [done|]. split_and!; try done; try congruence.
  intros k. rewrite Hc1, fmap_app. destruct (decide (k = kv.1)) as [->|Hk].
  - rewrite decide_True by (apply elem_of_app; right; simpl; by apply list_elem_of_singleton).
    destruct (default None (spec_buckets (Configs h) nm kv.1)); [by rewrite lookup_insert_eq|].
    rewrite Hbf. case_decide as Hin; [|done].
    destruct (Hdis _ Hin). simpl. by apply list_elem_of_singleton.
  - assert (k ∈ fs.*1 ++ [kv].*1 <-> k ∈ fs.*1) as Hiff.
    { rewrite elem_of_app. simpl. rewrite list_elem_of_singleton. tauto. }
    rewrite (decide_ext _ _ _ _ Hiff).
    destruct (default None (spec_buckets (Configs h) nm kv.1)); [rewrite lookup_insert_ne by done|]; apply Hbf.
Qed.
(** *** Counting *)

(** Counting one value. *)
Definition bump (bs : buckets) (cs : counts) (o : option float64) : counts :=
  match o with Some x => alter (fun c => int64 (c + 1)) (SearchFloat64s bs x) cs | None => cs end.
Definition zero_counts (bs : buckets) : counts := replicate (S (length bs)) 0.

Lemma length_bump bs cs o : length (bump bs cs o) = length cs.
Proof. destruct o; [apply length_alter|done]. Qed.

Lemma count_field_spec bf hc kv :
  (forall bs cs, bf !! kv.1 = Some bs -> hc !! kv.1 = Some cs -> length cs = S (length bs)) ->
  count_field bf hc kv = Some match bf !! kv.1 with
    | Some bs => <[kv.1 := bump bs (default (zero_counts bs) (hc !! kv.1)) (convert kv.2)]> hc
    | None => hc
    end.
Proof.
  intros Hl. unfold count_field. destruct (bf !! kv.1) as [bs|] eqn:E; [|done].
  set (cs := match hc !! kv.1 with Some cs => cs | None => _ end).
  assert (cs = default (zero_counts bs) (hc !! kv.1)) as <- by (unfold cs; by destruct (hc !! kv.1)).
  assert (length cs = S (length bs)) as Hlc.
  { unfold cs. destruct (hc !! kv.1) as [cs'|] eqn:Ec; [by apply (Hl bs)|]. apply length_replicate. }
  destruct (convert kv.2) as [x|]; [|done]. unfold bump.
  pose proof (SearchFloat64s_le bs x) as Hle.
  destruct (lookup_lt_is_Some_2 cs (SearchFloat64s bs x)) as [c Ec]; [lia|]. rewrite Ec. binds.
  by rewrite (list_alter_insert _ _ _ c).
Qed.

Lemma count_fields_spec bf fs hc :
  NoDup fs.*1 ->
  (forall k bs cs, bf !! k = Some bs -> hc !! k = Some cs -> length cs = S (length bs)) ->
  exists hc', count_fields bf fs hc = Some hc' /\
    forall k, hc' !! k = match bf !! k, snd <$> key_find fst k fs with
      | Some bs, Some v => Some (bump bs (default (zero_counts bs) (hc !! k)) (convert v))
      | _, _ => hc !! k
      end.
Proof.
  revert hc. induction fs as [|kv fs IH]; intros hc Hnd Hl.
  { exists hc. split; [done|]. intros k. simpl. by destruct (bf !! k). }
  rewrite fmap_cons in Hnd. apply NoDup_cons in Hnd as [Hk Hnd].
  cbn [count_fields]. rewrite count_field_spec by (intros; by eapply Hl). binds.
  set (hc1 := match bf !! kv.1 with Some bs => _ | None => hc end).
  destruct (IH hc1 Hnd) as (hc' & E & Hhc').
  { intros k bs cs Hb Hc. destruct (decide (k = kv.1)) as [->|Hne].
    - unfold hc1 in Hc. rewrite Hb, lookup_insert_eq in Hc. injection Hc as <-. rewrite length_bump.
      destruct (hc !! kv.1) as [cs'|] eqn:Ec; simpl; [by apply (Hl kv.1)|]. by rewrite length_replicate.
    - apply (Hl k); [done|]. unfold hc1 in Hc. destruct (bf !! kv.1); [by rewrite lookup_insert_ne in Hc|done]. }
  exists hc'. split; [done|]. intros k. rewrite Hhc'. cbn [key_find].
  destruct (decide (kv.1 = k)) as [<-|Hne].
  - assert (key_find fst kv.1 fs = None) as -> by (by apply key_find_None). simpl. unfold hc1.
    destruct (bf !! kv.1); [by rewrite lookup_insert_eq|done].
  - assert (hc1 !! k = hc !! k) as -> by (unfold hc1; destruct (bf !! kv.1); [by rewrite lookup_insert_ne|done]).
    done.
Qed.

Definition hist (h : HistogramAggregator) (i : Z) (k : string) : option counts :=
  a ← cache h !! i; histogramCollection a !! k.

(** The counts in the cache fit the borders of their fields. *)
Definition good (h : HistogramAggregator) : Prop :=
  cached_ok h /\
  forall i a k cs, cache h !! i = Some a -> histogramCollection a !! k = Some cs ->
    exists bs, spec_buckets (Configs h) (hname a) k = Some (Some bs) /\ length cs = S (length bs).

(** The values of a field of a series that has borders: [Some None] is a field
    with a value that is not counted. *)
Definition hist_step (ob : option buckets) (acc : option counts) (v : option Val) : option counts :=
  match ob, v with
  | Some bs, Some v => Some (bump bs (default (zero_counts bs) acc) (convert v))
  | _, _ => acc
  end.

Lemma Add_spec m h :
  good h -> (forall a, cache h !! HashID m = Some a -> hname a = name m) ->
  exists h', Add m h = Some h' /\ good h' /\ Configs h' = Configs h /\
    (forall i a, cache h' !! i = Some a -> cache h !! i = Some a \/ (i = HashID m /\ hname a = name m) \/
      (exists a0, cache h !! i = Some a0 /\ hname a0 = hname a)) /\
    forall i k, hist h' i k = if decide (HashID m = i)
      then hist_step (default None (spec_buckets (Configs h) (name m) k)) (hist h i k) (Fields m !! k)
      else hist h i k.
Proof.
  intros [Hok Hlen] Hnm. unfold Add.
  destruct (collect_buckets_spec (name m) (range_map (Fields m)) h Hok (range_map_NoDup _))
    as (bf & h1 & -> & Hok1 & Hc1 & Hca1 & Hbf).
  assert (forall k, bf !! k = match Fields m !! k with Some _ => default None (spec_buckets (Configs h) (name m) k) | None => None end) as Hbf'.
  { intros k. rewrite Hbf. destruct (Fields m !! k) as [v|] eqn:Ef.
    - rewrite decide_True; [done|]. apply (list_elem_of_fmap_2 fst _ (k, v)). by apply range_map_elem.
    - rewrite decide_False; [done|]. intros ([k' v] & -> & Hin)%list_elem_of_fmap_1.
      apply range_map_elem in Hin. simpl in Ef. congruence. }
  destruct (decide (bf = ∅)) as [Hemp|Hne].
  - exists h1. split; [done|]. split; [split; [done|]; intros i a k cs; rewrite Hca1, Hc1; apply Hlen|].
    split_and!; [done|intros i a; rewrite Hca1; by left|].
    intros i k. unfold hist. rewrite Hca1. case_decide; [|done].
    specialize (Hbf' k). rewrite Hemp, lookup_empty in Hbf'. unfold hist_step.
    destruct (Fields m !! k); [by rewrite <- Hbf'|]. by destruct (default None _).
  - rewrite Hca1. set (a := match cache h !! HashID m with Some a => a | None => _ end).
    assert (hname a = name m) as Ha by (unfold a; destruct (cache h !! HashID m) eqn:E; [by apply Hnm|done]).
    assert (forall k, histogramCollection a !! k = hist h (HashID m) k) as Hha.
    { intros k. unfold a, hist. destruct (cache h !! HashID m); [done|]. simpl. apply lookup_empty. }
    assert (forall k cs, histogramCollection a !! k = Some cs ->
      exists bs, spec_buckets (Configs h) (name m) k = Some (Some bs) /\ length cs = S (length bs)) as Hla.
    { intros k cs Hk. rewrite <- Ha. unfold a in *. destruct (cache h !! HashID m) eqn:E; [by eapply Hlen|].
      simpl in Hk. by rewrite lookup_empty in Hk. }
    destruct (count_fields_spec bf (range_map (Fields m)) (histogramCollection a)) as (hc & -> & Hhc);
      [apply range_map_NoDup| |].
    { intros k bs cs Hb Hk. destruct (Hla k cs Hk) as (bs' & Hs & Hl). rewrite Hbf', Hs in Hb.
      destruct (Fields m !! k); [|done]. simpl in Hb. by simplify_eq. }
    binds. eexists. split; [done|].
    assert (forall k, hc !! k = hist_step (default None (spec_buckets (Configs h) (name m) k)) (hist h (HashID m) k) (Fields m !! k)) as Hhc'.
    { intros k. rewrite Hhc, key_find_range, Hbf', Hha. unfold hist_step.
      destruct (Fields m !! k), (default None _); done. }
    split; [split; [done|]|split_and!; [done| |]].
    + simpl. rewrite ?Hca1, ?Hc1. intros i a' k cs Hi Hk. destruct (decide (HashID m = i)) as [<-|Hi'].
      * rewrite lookup_insert_eq in Hi. injection Hi as <-. simpl in *. rewrite Ha.
        rewrite Hhc' in Hk. unfold hist_step in Hk.
        assert (hist h (HashID m) k = Some cs -> exists bs, spec_buckets (Configs h) (name m) k = Some (Some bs) /\ length cs = S (length bs)) as Hold
          by (rewrite <- Hha; apply Hla).
        destruct (spec_buckets (Configs h) (name m) k) as [[bs|]|] eqn:Es; simpl in Hk; try by apply Hold.
        destruct (Fields m !! k); [|by apply Hold]. injection Hk as <-. exists bs. split; [done|].
        rewrite length_bump. destruct (hist h (HashID m) k) as [cs|] eqn:Ec; simpl; [|by rewrite length_replicate].
        rewrite <- Hha in Ec. destruct (Hla k cs Ec) as (bs' & Hs & Hl). rewrite Es in Hs. by simplify_eq.
      * rewrite lookup_insert_ne in Hi by done. by eapply Hlen.
    + simpl. rewrite ?Hca1. intros i a' Hi. destruct (decide (HashID m = i)) as [<-|Hi'].
      * rewrite lookup_insert_eq in Hi. injection Hi as <-. right. left. done.
      * rewrite lookup_insert_ne in Hi by done. by left.
    + intros i k. unfold hist at 1. simpl. rewrite ?Hca1. destruct (decide (HashID m = i)) as [<-|Hi'].
      * rewrite lookup_insert_eq. simpl. apply Hhc'.
      * by rewrite lookup_insert_ne.
Qed.
(** *** Runs *)

Fixpoint add_metrics (ms : list metric) (h : HistogramAggregator) : option HistogramAggregator :=
  match ms with [] => Some h | m :: ms' => h ← Add m h; add_metrics ms' h end.

(** The values of field [k] in the series [i]. *)
Definition occurrences (i : Z) (k : string) (ms : list metric) : list Val :=
  omap (fun m => if decide (HashID m = i) then Fields m !! k else None) ms.

Lemma add_metrics_spec ms h :
  good h ->
  (forall m1 m2, m1 ∈ ms -> m2 ∈ ms -> HashID m1 = HashID m2 -> name m1 = name m2) ->
  (forall m a, m ∈ ms -> cache h !! HashID m = Some a -> hname a = name m) ->
  exists h', add_metrics ms h = Some h' /\ Configs h' = Configs h /\
    forall i k nm bs, spec_buckets (Configs h) nm k = Some (Some bs) ->
      (forall m, m ∈ ms -> HashID m = i -> name m = nm) ->
      hist h' i k = foldl (fun acc v => Some (bump bs (default (zero_counts bs) acc) (convert v)))
        (hist h i k) (occurrences i k ms).
Proof.
  revert h. induction ms as [|m ms IH]; intros h Hg Hnames Hca; [by exists h|].
  destruct (Add_spec m h Hg) as (h1 & E1 & Hg1 & Hc1 & Hcache & Hh1).
  { intros a Ha. apply Hca; [by left|done]. }
  destruct (IH h1 Hg1) as (h2 & E2 & Hc2 & Hh2).
  { intros. apply Hnames; [by right|by right|done]. }
  { intros m' a Hm' Ha. destruct (Hcache _ _ Ha) as [Ho|[[Heq Ho]|(a0 & Ha0 & Ho)]].
    - apply (Hca m' a); [by right|done].
    - rewrite Ho. apply Hnames; [by left|by right|congruence].
    - rewrite <- Ho. apply (Hca m' a0); [by right|done]. }
  exists h2. cbn [add_metrics]. rewrite E1. split_and!; [done|congruence|].
  intros i k nm bs Hs Hnm. rewrite (Hh2 i k nm bs) by (congruence || (intros; apply Hnm; [by right|done])).
  unfold occurrences. cbn [omap list_omap]. rewrite Hh1. destruct (decide (HashID m = i)) as [Hi|Hi]; [|done].
  rewrite (Hnm m) by (by left || done). rewrite Hs. simpl. unfold hist_step. by destruct (Fields m !! k).
Qed.

Definition zsum (l : list Z) : Z := foldr Z.add 0 l.
Lemma zsum_app a b : zsum (a ++ b) = zsum a + zsum b.
Proof. unfold zsum. induction a as [|x a IH]; simpl; [lia|]. rewrite IH. lia. Qed.

Lemma int64_add_r a b : int64 (a + int64 b) = int64 (a + b).
Proof. rewrite Z.add_comm, int64_add. f_equal. lia. Qed.

Lemma bump_sum bs cs x n :
  (SearchFloat64s bs x < length cs)%nat ->
  int64 (zsum (take n (bump bs cs (Some x)))) =
  int64 (zsum (take n cs) + (if decide (SearchFloat64s bs x < n)%nat then 1 else 0)).
Proof.
  intros Hlt. unfold bump. set (p := SearchFloat64s bs x) in *.
  destruct (lookup_lt_is_Some_2 cs p Hlt) as [c Ec]. rewrite (list_alter_insert _ _ _ c) by done.
  rewrite <- (take_drop_middle cs p c Ec) at 1 2.
  assert (length (take p cs) = p) as Hlp by (rewrite length_take; lia).
  rewrite insert_app_r_alt, Hlp, Nat.sub_diag by lia. cbn [list_insert insert].
  case_decide as Hn.
  - rewrite !take_app_ge, Hlp by lia. destruct (n - p)%nat as [|q] eqn:Eq; [lia|]. cbn [firstn take].
    rewrite !zsum_app. cbn [zsum foldr]. fold (zsum (take q (drop (S p) cs))).
    rewrite Z.add_assoc, (Z.add_comm (zsum (take p cs)) (int64 _)), <- Z.add_assoc, int64_add. f_equal. lia.
  - rewrite !take_app_le, Z.add_0_r by lia. done.
Qed.

(** The values counted in the first [n] slots. *)
Definition below (bs : buckets) (n : nat) (xs : list float64) : Z :=
  Z.of_nat (length (filter (fun x => (SearchFloat64s bs x < n)%nat) xs)).

Lemma counts_sum bs vs acc cs n :
  cs = default (zero_counts bs) acc -> length cs = S (length bs) -> vs <> [] ->
  exists cs', foldl (fun acc v => Some (bump bs (default (zero_counts bs) acc) (convert v))) acc vs = Some cs' /\
    length cs' = S (length bs) /\
    int64 (zsum (take n cs')) = int64 (zsum (take n cs) + below bs n (omap convert vs)).
Proof.
  revert acc cs. induction vs as [|v vs IH]; intros acc cs Hcs Hl Hne; [done|]. cbn [foldl]. rewrite <- Hcs.
  set (cs1 := bump bs cs (convert v)).
  assert (int64 (zsum (take n cs1)) = int64 (zsum (take n cs) + below bs n (omap convert [v]))) as H1.
  { unfold cs1, below. cbn [omap list_omap]. destruct (convert v) as [x|]; [|simpl; by rewrite Z.add_0_r].
    rewrite bump_sum by (pose proof (SearchFloat64s_le bs x); lia). f_equal. f_equal.
    rewrite filter_cons. case_decide; done. }
  assert (below bs n (omap convert (v :: vs)) = below bs n (omap convert [v]) + below bs n (omap convert vs)) as Hb.
  { unfold below. cbn [omap list_omap]. destruct (convert v); [|simpl; lia].
    rewrite !filter_cons. case_decide; simpl; lia. }
  destruct vs as [|v' vs].
  - exists cs1. split; [done|]. unfold cs1. rewrite length_bump. split; [done|]. fold cs1. rewrite H1. done.
  - destruct (IH (Some cs1) cs1) as (cs' & E & Hl' & Hs); [done|unfold cs1; by rewrite length_bump|done|].
    exists cs'. split_and!; try done. rewrite Hs, <- int64_add, H1, int64_add, Hb. f_equal. lia.
Qed.

Lemma spec_buckets_from cs m f b :
  spec_buckets cs m f = Some b -> exists cfg, cfg ∈ cs /\ sortBuckets (Buckets cfg) = b.
Proof.
  unfold spec_buckets. induction cs as [|cfg cs IH] using rev_ind; [done|]. rewrite foldl_app. cbn [foldl].
  destruct (decide (CMetric cfg = m)), (isBucketExists f cfg); intros E;
    try (apply IH in E as (c & Hc & ?); exists c; split; [apply elem_of_app; by left|done]).
  injection E as <-. exists cfg. split; [apply elem_of_app; right; by apply list_elem_of_singleton|done].
Qed.

Lemma zsum_zeros n m : zsum (take n (replicate m 0)) = 0.
Proof. rewrite take_replicate. induction (Nat.min n m); [done|]. simpl. done. Qed.

Lemma new_good cs reset cum : good (NewHistogramAggregator cs reset cum).
Proof.
  split.
  - intros m f b. unfold lookup_buckets. simpl. by rewrite lookup_empty.
  - intros i a k c. simpl. by rewrite lookup_empty.
Qed.

(** The histogram counts. For a series and a field with configured borders
    (none of them NaN) that occurs in the window, whatever the other series and
    fields, and when series with the same hash have the same name, adding the
    metrics does not panic and leaves one slot per border and one more, such that
    the slots up to the one of border [b] sum to the number of numeric values of
    the field that are at most [b], and all slots to the number of numeric
    values (in 64-bit arithmetic). *)
Theorem Histogram_counts cfgs reset cum (ms : list metric) (i : Z) (nm k : string) (bs : buckets) :
  (forall m1 m2, m1 ∈ ms -> m2 ∈ ms -> HashID m1 = HashID m2 -> name m1 = name m2) ->
  (forall m, m ∈ ms -> HashID m = i -> name m = nm) ->
  spec_buckets cfgs nm k = Some (Some bs) -> Forall (fun v => f_is_nan v = false) bs ->
  occurrences i k ms <> [] ->
  let xs := omap convert (occurrences i k ms) in
  exists h cs, add_metrics ms (NewHistogramAggregator cfgs reset cum) = Some h /\
    hist h i k = Some cs /\ length cs = S (length bs) /\
    (forall j b, bs !! j = Some b ->
      int64 (zsum (take (S j) cs)) = int64 (Z.of_nat (length (filter (fun x => f_leb x b = true) xs)))) /\
    int64 (zsum cs) = int64 (Z.of_nat (length xs)).
Proof.
  intros Hnames Hnm Hs Hnan Hocc xs.
  destruct (add_metrics_spec ms (NewHistogramAggregator cfgs reset cum)) as (h & Eh & _ & Hh);
    [apply new_good|done|intros m a _; simpl; by rewrite lookup_empty|].
  specialize (Hh i k nm bs Hs Hnm).
  assert (hist (NewHistogramAggregator cfgs reset cum) i k = None) as E0
    by (unfold hist; simpl; by rewrite lookup_empty).
  rewrite E0 in Hh.
  assert (forall n, exists cs, hist h i k = Some cs /\ length cs = S (length bs) /\
    int64 (zsum (take n cs)) = int64 (below bs n xs)) as Hn.
  { intros n. destruct (counts_sum bs (occurrences i k ms) None (zero_counts bs) n) as (cs & E & Hl & Hsum);
      [done|apply length_replicate|done|].
    exists cs. rewrite Hh. split_and!; try done. rewrite Hsum. unfold zero_counts. by rewrite zsum_zeros. }
  destruct (Hn 0%nat) as (cs & Ec & Hl & _). exists h, cs. split_and!; try done.
  - intros j b Hj. destruct (Hn (S j)) as (cs' & Ec' & _ & Hsum). rewrite Ec in Ec'. injection Ec' as <-.
    rewrite Hsum. unfold below. do 3 f_equal. apply list_filter_iff. intros x.
    destruct (spec_buckets_from _ _ _ _ Hs) as (cfg & _ & Hcfg).
    assert (StronglySorted (fun u v => f_leb u v = true) bs) as Hsort.
    { destruct (Buckets cfg) as [l|] eqn:El; [|done].
      assert (l ≡ₚ bs) as Hp.
      { simpl in Hcfg. injection Hcfg as <-. destruct (out_of_order l); [|done].
        clear. induction l as [|y l IH]; [done|]. simpl. by rewrite insert_border_perm, <- IH. }
      destruct (sortBuckets_spec l) as (l' & E' & Hs' & _); [by rewrite Hp|]. rewrite E' in Hcfg. by injection Hcfg as <-. }
    rewrite <- (SearchFloat64s_spec bs x j b Hsort Hj). lia.
  - destruct (Hn (S (length bs))) as (cs' & Ec' & _ & Hsum). rewrite Ec in Ec'. injection Ec' as <-.
    rewrite take_ge in Hsum by lia. rewrite Hsum. unfold below. do 2 f_equal.
    rewrite filter_keeps_all; [done|]. intros x _. pose proof (SearchFloat64s_le bs x). lia.
Qed.

(** *** Pushing *)

(** The right border of slot [j]. *)
Definition label (bs : buckets) (j : nat) : string :=
  match bs !! j with Some b => FormatFloat_f b | None => bucketPosInf end.
(** The reports of one field, from slot [j] on with the sum [s] so far. *)
Fixpoint reports (bs : buckets) (j : nat) (cs : counts) (s : Z) (ts : gmap string string) :
    list (Z * gmap string string) :=
  match cs with
  | [] => []
  | c :: cs' => (int64 (s + c), <[bucketRightTag := label bs j]> ts) :: reports bs (S j) cs' (s + c) ts
  end.

Lemma group_loop_reports bs nm f cs j s ts ts' l :
  ts' = ts \/ (exists x, ts' = <[bucketRightTag := x]> ts) ->
  group_loop true bs nm f j cs (int64 s) ts' l =
  Some (foldl (fun l r => groupField nm f r.1 r.2 l) l (reports bs j cs s ts)).
Proof.
  revert j s ts' l. induction cs as [|c cs IH]; intros j s ts' l Hts; [done|]. cbn [group_loop]. binds.
  assert (forall x, <[bucketRightTag := x]> ts' = <[bucketRightTag := x]> ts) as Hins.
  { intros x. destruct Hts as [->|[y ->]]; [done|apply insert_insert_eq]. }
  assert (match bs !! j with
    | Some b => <[bucketRightTag := FormatFloat_f b]> ts'
    | None => <[bucketRightTag := bucketPosInf]> ts'
    end = <[bucketRightTag := label bs j]> ts) as ->
    by (unfold label; destruct (bs !! j); apply Hins).
  rewrite int64_add. rewrite IH by (right; by eexists). done.
Qed.

Lemma reports_lookup bs cs j j0 s ts :
  (j < length cs)%nat ->
  reports bs j0 cs s ts !! j = Some (int64 (s + zsum (take (S j) cs)), <[bucketRightTag := label bs (j0 + j)%nat]> ts).
Proof.
  revert j j0 s. induction cs as [|c cs IH]; intros j j0 s Hj; [simpl in Hj; lia|].
  destruct j as [|j]; cbn [reports lookup list_lookup].
  - rewrite Nat.add_0_r. change (zsum (take 1 (c :: cs))) with (c + 0). by rewrite Z.add_0_r.
  - rewrite IH by (simpl in Hj; lia). rewrite Nat.add_succ_r.
    change (zsum (take (S (S j)) (c :: cs))) with (c + zsum (take (S j) cs)). by rewrite Z.add_assoc.
Qed.

Lemma getBuckets_cumulative m f h : Cumulative (getBuckets m f h).2 = Cumulative h.
Proof.
  unfold getBuckets. case_match; [done|]. simpl. unfold get_loop.
  match goal with |- Cumulative (foldl ?F h ?l) = _ => enough (forall l' h', Cumulative (foldl F h' l') = Cumulative h') as Hg by apply Hg end.
  induction l' as [|cfg cs IH]; intros h'; [done|]. cbn [foldl]. rewrite IH. by repeat case_match.
Qed.

(** A cumulative histogram reports, for each slot of a field in turn, the
    sum of the slots up to it under the tag [le] with the slot's right border
    ([+Inf] for the last), the other tags being those of the series. *)
Theorem Histogram_reports (h : HistogramAggregator) nm f ts (cs : counts) l bs :
  cached_ok h -> Cumulative h = true -> spec_buckets (Configs h) nm f = Some (Some bs) ->
  exists h' rs, groupFieldsByBuckets nm f ts cs l h =
      Some (foldl (fun l r => groupField nm f r.1 r.2 l) l rs, h') /\
    length rs = length cs /\
    forall j, (j < length cs)%nat ->
      rs !! j = Some (int64 (zsum (take (S j) cs)), <[bucketRightTag := label bs j]> ts).
Proof.
  intros Hok Hcum Hs. unfold groupFieldsByBuckets.
  destruct (getBuckets_spec nm f h Hok) as (h' & Eg & _). pose proof (getBuckets_cumulative nm f h) as Hc.
  rewrite Eg in *. simpl in Hc. rewrite Hc, Hcum, Hs. cbn [default].
  change (group_loop true _ nm f 0 cs 0 ts l) with (group_loop true bs nm f 0 cs (int64 0) ts l).
  rewrite (group_loop_reports bs nm f cs 0 0 ts ts l) by (by left). binds.
  exists h', (reports bs 0 cs 0 ts). split; [done|]. split.
  - generalize 0 at 1. generalize 0%nat. induction cs as [|c cs IH]; intros j s; [done|]. simpl. by rewrite IH.
  - intros j Hj. rewrite reports_lookup by done. done.
Qed.
End HistProps.

(** *** Witnesses *)

#[local] Existing Instance map_range_default.
Definition ex_cfgs : list Histogram.config :=
  [Histogram.mkConfig "cpu" [] (Some [f_of_Z 10; f_of_Z 5; f_of_Z 2])].
Definition ex_bs : list float64 := [f_of_Z 2; f_of_Z 5; f_of_Z 10].

Lemma ex_names m : m ∈ ex_ms -> name m = "cpu".
Proof. unfold ex_ms. intros Hm. repeat (apply elem_of_cons in Hm as [->|Hm]; [reflexivity|]). by apply elem_of_nil in Hm. Qed.

Lemma Histogram_counts_witness :
  exists h cs, add_metrics ex_ms (Histogram.NewHistogramAggregator ex_cfgs false true) = Some h /\
    hist h ex_sid "x" = Some cs /\ int64 (zsum (take 2 cs)) = 2 /\ int64 (zsum cs) = 3.
Proof.
  destruct (Histogram_counts ex_cfgs false true ex_ms ex_sid "cpu" "x" ex_bs)
    as (h & cs & H1 & H2 & _ & H3 & H4).
  - intros m1 m2 Hm1 Hm2 _. rewrite (ex_names m1 Hm1), (ex_names m2 Hm2). reflexivity.
  - intros m Hm _. exact (ex_names m Hm).
  - vm_compute. reflexivity.
  - repeat constructor.
  - vm_compute. discriminate.
  - exists h, cs. split; [exact H1|]. split; [exact H2|].
    split; [rewrite (H3 1%nat (f_of_Z 5) eq_refl); vm_compute; reflexivity|rewrite H4; vm_compute; reflexivity].
Defined.

Lemma Histogram_reports_witness :
  exists h' rs, Histogram.groupFieldsByBuckets "cpu" "x" {["host" := "a"]} [1; 1; 1; 0] []
      (Histogram.NewHistogramAggregator ex_cfgs false true) =
      Some (foldl (fun l r => Histogram.groupField "cpu" "x" r.1 r.2 l) [] rs, h') /\
    rs !! 1%nat = Some (2, <[Histogram.bucketRightTag := "5"]> {["host" := "a"]}).
Proof.
  destruct (Histogram_reports (Histogram.NewHistogramAggregator ex_cfgs false true) "cpu" "x" {["host" := "a"]}
    [1; 1; 1; 0] [] ex_bs) as (h' & rs & H1 & _ & H2).
  - intros m f b. unfold Histogram.lookup_buckets. simpl. rewrite lookup_empty. discriminate.
  - reflexivity.
  - vm_compute. reflexivity.
  - exists h', rs. split; [exact H1|]. rewrite (H2 1%nat ltac:(simpl; lia)). vm_compute. reflexivity.
Defined.
