(* ===== verification/Processors.v ===== *)
(** * Processor plugins

    [plugins/processors]: override, clone, rename, pivot, unpivot, tag_limit,
    enum and dedup, one [Module] each, and their instances of [Processor]. A
    metric is changed in place and stays in the slice, so a plugin that only
    edits metrics maps over the slice. Calls on the metrics themselves
    ([Copy], [Accept]) go through [Interfaces].

    [Ledger] states what a processor owes delivery tracking: the reference count of a group
    changes by the metrics it returns less the metrics it takes. *)

From S2P Require Import Prelude Float64 Strconv Metric Tracking Selfstat Interfaces Filter Running Accumulator Aggregators.

(** A loop over the metrics of the slice that edits each in place. *)
Definition each (f : metric -> metric) (ins : list tmetric) : list tmetric :=
  (fun m => with_base (f (base m)) m) <$> ins.

Definition nonempty (s : string) : bool := (0 <? String.length s)%nat.

(** The loop [for key, value := range tags { metric.AddTag(key, value) }]. *)
Definition add_tags `{MapRange} (ts : gmap string string) (m : metric) : metric :=
  foldl (fun m kv => AddTag kv.1 kv.2 m) m (range_map ts).

(** ** [override.go] *)

Module Override.
Record Override := mkOverride {
  NameOverride : string;
  NamePrefix : string;
  NameSuffix : string;
  OTags : gmap string string;
}.

Definition edit `{MapRange} (p : Override) (m : metric) : metric :=
  let m := if nonempty (NameOverride p) then SetName (NameOverride p) m else m in
  let m := if nonempty (NamePrefix p) then AddPrefix (NamePrefix p) m else m in
  let m := if nonempty (NameSuffix p) then AddSuffix (NameSuffix p) m else m in
  add_tags (OTags p) m.

Definition Apply `{MapRange} {W} (ins : list tmetric) (p : Override) (w : W) :
    option (list tmetric * Override * W) :=
  Some (each (edit p) ins, p, w).
End Override.

(** ** [clone.go] *)

Module Clone.
Record Clone := mkClone {
  NameOverride : string;
  NamePrefix : string;
  NameSuffix : string;
  CTags : gmap string string;
}.

Section Clone.
Context `{MapRange} {W : Type} `{CopyEnv tmetric W}.

Definition edit (c : Clone) (m : metric) : metric :=
  let m := if nonempty (NameOverride c) then SetName (NameOverride c) m else m in
  let m := if nonempty (NamePrefix c) then AddPrefix (NamePrefix c) m else m in
  let m := if nonempty (NameSuffix c) then AddSuffix (NameSuffix c) m else m in
  add_tags (CTags c) m.

(** The loop: copy the metric, then edit it. *)
Fixpoint clone_loop (c : Clone) (ins ins' cloned : list tmetric) (w : W) :
    list tmetric * list tmetric * W :=
  match ins with
  | [] => (ins', cloned, w)
  | m :: rest =>
    let '(m', w) := m_Copy m w in
    clone_loop c rest (ins' ++ [with_base (edit c (base m)) m]) (cloned ++ [m']) w
  end.

Definition Apply (ins : list tmetric) (c : Clone) (w : W) : option (list tmetric * Clone * W) :=
  let '(ins, cloned, w) := clone_loop c ins [] [] w in Some (ins ++ cloned, c, w).
End Clone.
End Clone.

(** ** [rename.go] *)

Module Rename.
Record Replace := mkReplace {
  Measurement : string;
  RTag : string;
  RField : string;
  Dest : string;
}.

Definition Rename : Type := list Replace.

(** The body of the inner loop. *)
Definition replace_one (point : metric) (r : Replace) : metric :=
  if decide (Dest r = EmptyString) then point
  else if decide (Measurement r <> EmptyString) then
    if decide (name point = Measurement r) then SetName (Dest r) point else point
  else if decide (RTag r <> EmptyString) then
    match GetTag (RTag r) point with
    | Some value => AddTag (Dest r) value (RemoveTag (RTag r) point)
    | None => point
    end
  else if decide (RField r <> EmptyString) then
    match GetField (RField r) point with
    | Some value => AddField (Dest r) (go_of_val value) (RemoveField (RField r) point)
    | None => point
    end
  else point.

Definition edit (r : Rename) (point : metric) : metric := foldl replace_one point r.

Definition Apply {W} (ins : list tmetric) (r : Rename) (w : W) : option (list tmetric * Rename * W) :=
  Some (each (edit r) ins, r, w).
End Rename.

(** ** [pivot.go] *)

Module Pivot.
Record Pivot := mkPivot { TagKey : string; ValueKey : string }.

Definition edit (p : Pivot) (m : metric) : metric :=
  match GetTag (TagKey p) m with
  | None => m
  | Some key =>
    match GetField (ValueKey p) m with
    | None => m
    | Some value =>
      AddField key (go_of_val value) (RemoveField (ValueKey p) (RemoveTag (TagKey p) m))
    end
  end.

Definition Apply {W} (ins : list tmetric) (p : Pivot) (w : W) : option (list tmetric * Pivot * W) :=
  Some (each (edit p) ins, p, w).
End Pivot.

(** ** [unpivot.go] *)

Module Unpivot.
Record Unpivot := mkUnpivot { TagKey : string; ValueKey : string }.

Section Unpivot.
Context {W : Type} `{CopyEnv tmetric W} `{MetricEnv tmetric W}.

Definition copyWithoutFields (m : tmetric) (w : W) : tmetric * W :=
  let '(m, w) := m_Copy m w in
  let fieldKeys := FKey <$> fields (base m) in
  (with_base (foldl (fun b fk => RemoveField fk b) (base m) fieldKeys) m, w).

(** The loop over the fields of one metric. *)
Fixpoint field_loop (p : Unpivot) (b : tmetric) (fs : list Field) (results : list tmetric) (w : W) :
    list tmetric * W :=
  match fs with
  | [] => (results, w)
  | f :: fs' =>
    let '(newMetric, w) := m_Copy b w in
    let newMetric := with_base
      (AddTag (TagKey p) (FKey f) (AddField (ValueKey p) (go_of_val (FValue f)) (base newMetric))) newMetric in
    field_loop p b fs' (results ++ [newMetric]) w
  end.

Fixpoint unpivot_loop (p : Unpivot) (ms results : list tmetric) (w : W) : option (list tmetric * W) :=
  match ms with
  | [] => Some (results, w)
  | m :: ms' =>
    let '(b, w) := copyWithoutFields m w in
    let '(results, w) := field_loop p b (fields (base m)) results w in
    w ← m_Accept m w;
    unpivot_loop p ms' results w
  end.

Definition Apply (ms : list tmetric) (p : Unpivot) (w : W) : option (list tmetric * Unpivot * W) :=
  '(results, w) ← unpivot_loop p ms [] w; Some (results, p, w).
End Unpivot.
End Unpivot.

(** ** [tag_limit.go] *)

Module TagLimit.
Record TagLimit := mkTagLimit {
  Limit : Z;
  Keep : list string;
  init : bool;
  keepTags : gset string;
}.

Definition initOnce (d : TagLimit) : bool * TagLimit :=
  if init d then (true, d)
  else if Limit d <? Z.of_nat (length (Keep d)) then (false, d)
  else (true, mkTagLimit (Limit d) (Keep d) true
    (foldl (fun kt k => {[ k ]} ∪ kt) ∅ (Keep d))).

(** The loop that fills [tagsToRemove]; [None] is an index out of range. *)
Fixpoint select_loop (d : TagLimit) (ts : list Tag) (tagsToRemove : list string) (removeIdx : nat)
    (lenPointTags : Z) : option (list string) :=
  match ts with
  | [] => Some tagsToRemove
  | t :: ts' =>
    '(rm, i, n) ← (if decide (Key t ∈ keepTags d) then Some (tagsToRemove, removeIdx, lenPointTags)
      else if (removeIdx <? length tagsToRemove)%nat
      then Some (<[removeIdx := Key t]> tagsToRemove, S removeIdx, lenPointTags - 1)
      else None);
    if n <=? Limit d then Some rm else select_loop d ts' rm i n
  end.

Definition edit (d : TagLimit) (point : metric) : option metric :=
  let lenPointTags := Z.of_nat (length (tags point)) in
  if lenPointTags <=? Limit d then Some point
  else
    rm ← select_loop d (tags point) (replicate (Z.to_nat (lenPointTags - Limit d)) EmptyString)
      0 lenPointTags;
    Some (foldl (fun b t => RemoveTag t b) point rm).

Definition Apply {W} (ins : list tmetric) (d : TagLimit) (w : W) : option (list tmetric * TagLimit * W) :=
  let '(ok, d) := initOnce d in
  if negb ok then Some (ins, d, w)
  else
    out ← mapM (fun m => b ← edit d (base m); Some (with_base b m)) ins;
    Some (out, d, w).
End TagLimit.

(** ** [enum.go]

    The values of a mapping are the scalars a configuration file holds. *)

Module Enum.
Record Mapping := mkMapping {
  ETag : string;
  EField : string;
  EDest : string;
  Default : option Val;
  ValueMappings : gmap string Val;
}.

Definition adjustBoolValue (v : Val) : Val :=
  match v with VBool b => VString (FormatBool b) | _ => v end.

Definition mapValue (mp : Mapping) (original : string) : option Val :=
  match ValueMappings mp !! original with Some v => Some v | None => Default mp end.

Definition getDestination (mp : Mapping) : string :=
  if decide (EDest mp <> EmptyString) then EDest mp else EField mp.
Definition getDestinationTag (mp : Mapping) : string :=
  if decide (EDest mp <> EmptyString) then EDest mp else ETag mp.

Definition writeField (nm : string) (v : Val) (m : metric) : metric :=
  AddField nm (go_of_val v) (RemoveField nm m).
Definition writeTag (nm v : string) (m : metric) : metric := AddTag nm v (RemoveTag nm m).

Definition map_field (mp : Mapping) (m : metric) : metric :=
  if decide (EField mp <> EmptyString) then
    match adjustBoolValue <$> GetField (EField mp) m with
    | Some (VString s) =>
      match mapValue mp s with Some v => writeField (getDestination mp) v m | None => m end
    | _ => m
    end
  else m.

Definition map_tag (mp : Mapping) (m : metric) : metric :=
  if decide (ETag mp <> EmptyString) then
    match GetTag (ETag mp) m with
    | Some s =>
      match mapValue mp s with
      | Some (VString v) => writeTag (getDestinationTag mp) v m
      | Some v => writeTag (getDestinationTag mp) (format_v v) m
      | None => m
      end
    | None => m
    end
  else m.

Definition applyMappings (mps : list Mapping) (m : metric) : metric :=
  foldl (fun m mp => map_tag mp (map_field mp m)) m mps.

Definition Apply {W} (ins : list tmetric) (mps : list Mapping) (w : W) :
    option (list tmetric * list Mapping * W) :=
  Some (each (applyMappings mps) ins, mps, w).
End Enum.

(** ** [dedup.go] *)

(** The clock: [time.Now]. *)
Class ClockEnv (W : Type) := read_clock : W -> Z * W.

(** [time.Time.Sub] saturates at the bounds of a duration. *)
Definition time_Sub (t u : Z) : Z := MinInt64 `max` (t - u) `min` MaxInt64.

Module Dedup.
Record Dedup := mkDedup {
  DedupInterval : Z;
  FlushTime : Z;
  Cache : gmap Z tmetric;
}.

(** Go's [==] on two field values. *)
Definition val_eqb (a b : Val) : bool :=
  match a, b with
  | VFloat x, VFloat y => f_eqb x y
  | _, _ => bool_decide (a = b)
  end.

Section Dedup.
Context {W : Type} `{CopyEnv tmetric W} `{MetricEnv tmetric W} `{ClockEnv W}.

Definition Since (t : Z) (w : W) : Z * W :=
  let '(now, w) := read_clock w in (time_Sub now t, w).

(** [remove]: swap with the last element and cut; [slice] has length [n] in
    the array [arr]; [None] is an index out of range. *)
Definition remove (arr : list tmetric) (n i : nat) : option (list tmetric * nat) :=
  if (i <? n)%nat then
    x ← arr !! i; y ← arr !! (n - 1)%nat;
    Some (<[i := y]> (<[(n - 1)%nat := x]> arr), (n - 1)%nat)
  else None.

(** The loop of [cleanup] over the cache. *)
Fixpoint keep_loop (d : Dedup) (l : list (Z * tmetric)) (keep : gmap Z tmetric) (w : W) :
    gmap Z tmetric * W :=
  match l with
  | [] => (keep, w)
  | (id, m) :: l' =>
    let '(age, w) := Since (tm (base m)) w in
    keep_loop d l' (if age <? DedupInterval d then <[id := m]> keep else keep) w
  end.

Definition cleanup `{MapRange} (d : Dedup) (w : W) : Dedup * W :=
  let '(age, w) := Since (FlushTime d) w in
  if age <? DedupInterval d then (d, w)
  else
    let '(now, w) := read_clock w in
    let '(keep, w) := keep_loop d (range_map (Cache d)) ∅ w in
    (mkDedup (DedupInterval d) now keep, w).

Definition save (m : tmetric) (id : Z) (d : Dedup) (w : W) : option (Dedup * W) :=
  let '(m', w) := m_Copy m w in
  w ← m_Accept m' w;
  Some (mkDedup (DedupInterval d) (FlushTime d) (<[id := m']> (Cache d)), w).

(** Whether a field differs from the cached one. *)
Definition changed (cached m : metric) : bool :=
  existsb (fun f => match GetField (FKey f) cached with
                    | Some v => negb (val_eqb v (FValue f)) | None => false end) (fields m).

(** The loop of [Apply]: it ranges over the array as it is when each element
    is reached; [n] is the current length of the slice. *)
Fixpoint dedup_loop (todo idx n : nat) (arr : list tmetric) (d : Dedup) (w : W) :
    option (list tmetric * Dedup * W) :=
  match todo with
  | O => Some (take n arr, d, w)
  | S todo' =>
    m ← arr !! idx;
    let id := HashID (base m) in
    match Cache d !! id with
    | None => '(d, w) ← save m id d w; dedup_loop todo' (S idx) n arr d w
    | Some c =>
      let '(age, w) := Since (tm (base c)) w in
      if DedupInterval d <=? age then '(d, w) ← save m id d w; dedup_loop todo' (S idx) n arr d w
      else if changed (base c) (base m) then
        '(d, w) ← save m id d w; dedup_loop todo' (S idx) n arr d w
      else '(arr, n) ← remove arr n idx; dedup_loop todo' (S idx) n arr d w
    end
  end.

Definition Apply `{MapRange} (ms : list tmetric) (d : Dedup) (w : W) :
    option (list tmetric * Dedup * W) :=
  '(out, d, w) ← dedup_loop (length ms) 0 (length ms) ms d w;
  let '(d, w) := cleanup d w in Some (out, d, w).
End Dedup.
End Dedup.

(** ** The plugins as processors of the pipeline *)

#[export] Instance override_processor `{MapRange} W : Processor Override.Override W := Override.Apply.
#[export] Instance clone_processor `{MapRange} `{CopyEnv tmetric W} : Processor Clone.Clone W := Clone.Apply.
#[export] Instance rename_processor W : Processor Rename.Rename W := Rename.Apply.
#[export] Instance pivot_processor W : Processor Pivot.Pivot W := Pivot.Apply.
#[export] Instance unpivot_processor `{CopyEnv tmetric W} `{MetricEnv tmetric W} :
  Processor Unpivot.Unpivot W := Unpivot.Apply.
#[export] Instance tag_limit_processor W : Processor TagLimit.TagLimit W := TagLimit.Apply.
#[export] Instance enum_processor W : Processor (list Enum.Mapping) W := Enum.Apply.
#[export] Instance dedup_processor `{MapRange} `{CopyEnv tmetric W} `{MetricEnv tmetric W} `{ClockEnv W} :
  Processor Dedup.Dedup W := Dedup.Apply.

(** ** Tags added in any order *)

Lemma add_tags_rest `{MapRange} ts m :
  name (add_tags ts m) = name m /\ fields (add_tags ts m) = fields m /\ tm (add_tags ts m) = tm m /\
  tp (add_tags ts m) = tp m /\ aggregate (add_tags ts m) = aggregate m.
Proof.
  unfold add_tags. generalize (range_map ts). intros l. revert m.
  induction l as [|kv l IH]; intros m; [done|]. cbn [foldl].
  destruct (IH (AddTag kv.1 kv.2 m)) as (-> & -> & -> & -> & ->). done.
Qed.

Lemma add_tags_spec `{MapRange} ts m :
  wf m -> wf (add_tags ts m) /\ Tags (add_tags ts m) = ts ∪ Tags m.
Proof.
  intros Hwf. unfold add_tags. rewrite <- (list_to_map_range ts) at 3.
  pose proof (range_map_NoDup ts) as Hnd. revert m Hwf Hnd. generalize (range_map ts). intros l.
  induction l as [|[k v] l IH]; intros m Hwf Hnd; simpl.
  { split; [done|]. by rewrite (left_id_L ∅ (∪)). }
  rewrite fmap_cons, NoDup_cons in Hnd. destruct Hnd as [Hk Hnd]. simpl in Hk.
  destruct (IH (AddTag k v m) ltac:(by apply AddTag_wf) Hnd) as [H1 H2]. split; [done|].
  rewrite H2, Tags_AddTag by done. rewrite <- insert_union_l. symmetry.
  apply insert_union_r. by apply not_elem_of_list_to_map.
Qed.

Lemma metric_ext m1 m2 :
  name m1 = name m2 -> tags m1 = tags m2 -> fields m1 = fields m2 -> tm m1 = tm m2 ->
  tp m1 = tp m2 -> aggregate m1 = aggregate m2 -> m1 = m2.
Proof. destruct m1, m2. simpl. by intros -> -> -> -> -> ->. Qed.

Lemma add_tags_order (R1 R2 : MapRange) ts m :
  wf m -> @add_tags R1 ts m = @add_tags R2 ts m.
Proof.
  intros Hwf. destruct (@add_tags_spec R1 ts m Hwf) as [W1 T1].
  destruct (@add_tags_spec R2 ts m Hwf) as [W2 T2].
  destruct (@add_tags_rest R1 ts m) as (N1 & F1 & M1 & P1 & A1).
  destruct (@add_tags_rest R2 ts m) as (N2 & F2 & M2 & P2 & A2).
  apply metric_ext; try congruence. apply wf_tags_canonical; congruence.
Qed.

(** The name the naming options give. *)
Definition renamed (override prefix suffix nm : string) : string :=
  prefix +:+ (if decide (override = EmptyString) then nm else override) +:+ suffix.

Lemma nonempty_spec s : nonempty s = negb (bool_decide (s = EmptyString)).
Proof. by destruct s. Qed.

Lemma rename_steps o p s m :
  let m1 := if nonempty o then SetName o m else m in
  let m2 := if nonempty p then AddPrefix p m1 else m1 in
  let m3 := if nonempty s then AddSuffix s m2 else m2 in
  m3 = set_name (renamed o p s (name m)) m.
Proof.
  destruct m as [n ts fs t ty ag]. unfold renamed, SetName, AddPrefix, AddSuffix, set_name.
  rewrite !nonempty_spec.
  destruct (decide (o = EmptyString)) as [->|Ho], (decide (p = EmptyString)) as [->|Hp],
    (decide (s = EmptyString)) as [->|Hs];
  repeat first [rewrite (bool_decide_true (EmptyString = EmptyString)) by done
               | rewrite bool_decide_false by done]; simpl;
  f_equal; rewrite ?str_app_nil_r, ?str_app_assoc; done.
Qed.

Lemma set_name_wf n m : wf m -> wf (set_name n m).
Proof. apply (run_op_wf (OpSetName n)). Qed.
#[export] Hint Resolve set_name_wf : drone.

(** ** The ledger of delivery tracking *)

Module Ledger.
(** The metrics of a list that belong to the group [p]. *)
Definition refs (p : nat) (ms : list tmetric) : Z :=
  Z.of_nat (length (filter (fun m => td m = Some p) ms)).

(** The reference counts moved by the metrics given out less the ones taken. *)
Definition moved (ins out : list tmetric) (w w' : World) : Prop :=
  forall p d, heap (trk w) !! p = Some d -> - 2 ^ 31 <= rc d < 2 ^ 31 ->
  exists d', heap (trk w') !! p = Some d' /\ rc d' = int32 (rc d + refs p out - refs p ins).

(** A plugin that settles its account on the inputs it is meant for. *)
Definition balanced {P} (ok : list tmetric -> P -> Prop)
    (apply : list tmetric -> P -> World -> option (list tmetric * P * World)) : Prop :=
  forall ins p w, ok ins p -> exists out p' w', apply ins p w = Some (out, p', w') /\
    chans w' = chans w /\ moved ins out w w'.

Lemma refs_app p a b : refs p (a ++ b) = refs p a + refs p b.
Proof. unfold refs. rewrite filter_app, length_app. lia. Qed.

Lemma refs_td p a b : td <$> a = td <$> b -> refs p a = refs p b.
Proof.
  revert b. induction a as [|x a IH]; intros [|y b]; try done. rewrite !fmap_cons. intros [= Hx Hab].
  change (x :: a) with ([x] ++ a). change (y :: b) with ([y] ++ b). rewrite !refs_app, (IH b Hab).
  unfold refs. rewrite !filter_cons, Hx. by case_decide.
Qed.

Lemma moved_same ins out w : td <$> ins = td <$> out -> moved ins out w w.
Proof.
  intros E p d Hd Hr. exists d. split; [done|]. rewrite (refs_td p ins out E).
  rewrite int32_small by lia. lia.
Qed.

Lemma each_td f ins : td <$> each f ins = td <$> ins.
Proof. unfold each. rewrite <- list_fmap_compose. by apply list_fmap_ext. Qed.
End Ledger.
Import Ledger.

Lemma int32_add a b : int32 (int32 a + b) = int32 (a + b).
Proof. apply wrap_s_add. lia. Qed.

(** A copy in the process: one more reference of its group. *)
Lemma world_copy_heap (m : tmetric) (w : World) :
  let '(m', w') := m_Copy m w in
  m' = mkTM (Metric.Copy (base m)) (td m) /\ chans w' = chans w /\ registry w' = registry w /\
  lastID (trk w') = lastID (trk w) /\
  heap (trk w') = match td m with
    | Some p => alter (fun d => mkTD (td_id d) (int32 (rc d + 1)) (acceptCount d) (rejectCount d) (notifyFunc d)) p (heap (trk w))
    | None => heap (trk w) end.
Proof. unfold m_Copy, world_copy, CopyT. by destruct (td m). Qed.

Lemma moved_copy m w w' : (m_Copy m w).2 = w' -> moved [] [m] w w'.
Proof.
  pose proof (world_copy_heap m w) as Hc. destruct (m_Copy m w) as [m' w1]. intros <-. simpl.
  destruct Hc as (_ & _ & _ & _ & Hh). intros p d Hd Hr. rewrite Hh. unfold refs.
  rewrite filter_cons, filter_nil. destruct (td m) as [q|]; cbn [length].
  - destruct (decide (q = p)) as [->|Hq].
    + rewrite list_lookup_alter_eq, Hd. eexists. split; [done|]. rewrite decide_True by done. simpl. f_equal. lia.
    + rewrite list_lookup_alter_ne, Hd by done. eexists. split; [done|].
      rewrite decide_False by congruence. simpl. rewrite int32_small; lia.
  - rewrite Hd. eexists. split; [done|]. rewrite decide_False by done. simpl. rewrite int32_small; lia.
Qed.

Lemma moved_trans a b c e w w1 w2 : moved a b w w1 -> moved c e w1 w2 -> moved (a ++ c) (b ++ e) w w2.
Proof.
  intros H1 H2 p d Hd Hr. destruct (H1 p d Hd Hr) as (d1 & Hd1 & E1).
  destruct (H2 p d1 Hd1) as (d2 & Hd2 & E2).
  { rewrite E1. pose proof (wrap_s_range 32 (rc d + refs p b - refs p a) ltac:(lia)). unfold int32. lia. }
  exists d2. split; [done|]. rewrite E2, E1, !refs_app.
  replace (int32 (rc d + refs p b - refs p a) + refs p e - refs p c)
    with (int32 (rc d + refs p b - refs p a) + (refs p e - refs p c)) by lia.
  rewrite int32_add. f_equal. lia.
Qed.

Lemma clone_loop_world `{MapRange} c ins ins' cloned (w : World) :
  exists w', Clone.clone_loop c ins ins' cloned w =
    (ins' ++ each (Clone.edit c) ins, cloned ++ ((fun m => mkTM (Metric.Copy (base m)) (td m)) <$> ins), w') /\
    chans w' = chans w /\ moved [] ins w w'.
Proof.
  revert ins' cloned w. induction ins as [|m ins IH]; intros ins' cloned w; cbn [Clone.clone_loop].
  { exists w. rewrite !app_nil_r. split_and!; try done. by apply moved_same. }
  pose proof (world_copy_heap m w) as Hc. pose proof (moved_copy m w _ eq_refl) as Hm.
  destruct (m_Copy m w) as [m' w1]. destruct Hc as (-> & Hch & _). simpl in Hm.
  destruct (IH (ins' ++ [with_base (Clone.edit c (base m)) m])
    (cloned ++ [mkTM (Metric.Copy (base m)) (td m)]) w1) as (w2 & -> & Hch2 & Hm2).
  exists w2. split; [|split; [congruence|]].
  - unfold each. rewrite !fmap_cons, <- !(assoc_L (++)). done.
  - exact (moved_trans [] [m] [] ins _ _ _ Hm Hm2).
Qed.

Lemma TagLimit_map_td (d : TagLimit.TagLimit) ins out :
  mapM (fun m => b ← TagLimit.edit d (base m); Some (with_base b m)) ins = Some out ->
  td <$> ins = td <$> out.
Proof.
  intros Hm%mapM_Some. induction Hm as [|m m' ins out Hmm _ IH]; [done|].
  rewrite !fmap_cons, IH. f_equal. by apply bind_Some in Hmm as (b & _ & [= <-]).
Qed.

(** What override does to a metric. *)
Lemma Override_edit `{MapRange} p m :
  Override.edit p m = add_tags (Override.OTags p)
    (set_name (renamed (Override.NameOverride p) (Override.NamePrefix p) (Override.NameSuffix p) (name m)) m).
Proof. unfold Override.edit. by rewrite <- rename_steps. Qed.

(** ** The values of unpivot *)

Lemma remove_all_fields (m : metric) :
  foldl (fun b fk => RemoveField fk b) m (FKey <$> fields m) = set_fields [] m.
Proof.
  remember (fields m) as fs eqn:E. revert m E. induction fs as [|f fs IH]; intros m E.
  { destruct m. simpl in *. by subst. }
  rewrite fmap_cons. cbn [foldl]. rewrite IH; [done|]. simpl. rewrite <- E. simpl.
  by rewrite decide_True by done.
Qed.

(** The metric made of one field. *)
Definition unpivoted (p : Unpivot.Unpivot) (m : metric) (f : Field) : metric :=
  AddTag (Unpivot.TagKey p) (FKey f) (set_fields [mkField (Unpivot.ValueKey p) (FValue f)] m).

Lemma copy_base (m : metric) : Metric.Copy m = m.
Proof.
  destruct m as [n ts fs t ty ag]. unfold Metric.Copy. simpl. f_equal.
  - rewrite <- (list_fmap_id ts) at 2. apply list_fmap_ext. by intros ? [].
  - rewrite <- (list_fmap_id fs) at 2. apply list_fmap_ext. by intros ? [].
Qed.

(** ** The tags that go at the limit *)

(** A configuration, or the state its first use makes of it. *)
Definition limit_ready (d : TagLimit.TagLimit) : Prop :=
  TagLimit.init d = true ->
  TagLimit.keepTags d = list_to_set (TagLimit.Keep d) /\
  Z.of_nat (length (TagLimit.Keep d)) <= TagLimit.Limit d.

(** The list without the first [n] tags that are not to be kept. *)
Fixpoint limit_tags (keep : list string) (n : nat) (ts : list Tag) : list Tag :=
  match ts with
  | [] => []
  | t :: ts' =>
    if decide (Key t ∈ keep) then t :: limit_tags keep n ts'
    else match n with O => t :: ts' | S n' => limit_tags keep n' ts' end
  end.

Definition not_kept (keep : list string) (ts : list Tag) : list Tag :=
  filter (fun t => Key t ∉ keep) ts.

Lemma insert_next (taken : list string) r (k : string) :
  <[length taken := k]> (taken ++ replicate (S r) EmptyString) = (taken ++ [k]) ++ replicate r EmptyString.
Proof. rewrite <- (Nat.add_0_r (length taken)), insert_app_r. simpl. by rewrite <- (assoc_L (++)). Qed.

Lemma select_loop_spec d ts taken r :
  TagLimit.keepTags d = list_to_set (TagLimit.Keep d) ->
  (S r <= length (not_kept (TagLimit.Keep d) ts))%nat ->
  TagLimit.select_loop d ts (taken ++ replicate (S r) EmptyString) (length taken) (TagLimit.Limit d + Z.of_nat (S r)) =
  Some (taken ++ (Key <$> take (S r) (not_kept (TagLimit.Keep d) ts))).
Proof.
  intros Hk. revert taken r. induction ts as [|t ts IH]; intros taken r Hlen; [simpl in Hlen; lia|].
  cbn [TagLimit.select_loop]. unfold not_kept in *. rewrite filter_cons in *. rewrite Hk.
  destruct (decide (Key t ∈ TagLimit.Keep d)) as [Hin|Hin].
  - rewrite (decide_True (P := Key t ∈ list_to_set (TagLimit.Keep d))) by set_solver.
    rewrite (decide_False (P := Key t ∉ _)) in * by naive_solver. binds.
    rewrite (proj2 (Z.leb_gt _ _)) by lia. by apply IH.
  - rewrite (decide_False (P := Key t ∈ list_to_set (TagLimit.Keep d))) by set_solver.
    rewrite (decide_True (P := Key t ∉ _)) in * by done.
    rewrite length_app, length_replicate, (proj2 (Nat.ltb_lt _ _)) by lia. binds.
    rewrite insert_next, firstn_cons, fmap_cons. simpl in Hlen.
    destruct r as [|r].
    + rewrite (proj2 (Z.leb_le _ _)) by lia. rewrite app_nil_r. done.
    + rewrite (proj2 (Z.leb_gt _ _)) by lia.
      replace (TagLimit.Limit d + Z.of_nat (S (S r)) - 1) with (TagLimit.Limit d + Z.of_nat (S r)) by lia.
      replace (S (length taken)) with (length (taken ++ [Key t])) by (rewrite length_app; simpl; lia).
      rewrite IH by lia. by rewrite <- (assoc_L (++)).
Qed.

Lemma kept_bound keep (ts : list Tag) :
  NoDup (Key <$> ts) -> (length ts <= length keep + length (not_kept keep ts))%nat.
Proof.
  intros Hnd. assert (length (filter (fun t => Key t ∈ keep) ts) <= length keep)%nat as Hle.
  { rewrite <- (length_fmap Key). apply submseteq_length, NoDup_submseteq.
    - eapply sublist_NoDup; [done|]. apply fmap_sublist, sublist_filter.
    - intros k (t & -> & [Ht _]%list_elem_of_filter)%list_elem_of_fmap_1. done. }
  enough (length ts = length (filter (fun t => Key t ∈ keep) ts) + length (not_kept keep ts))%nat by lia.
  clear. unfold not_kept. induction ts as [|t ts IH]; [done|]. rewrite !filter_cons.
  destruct (decide (Key t ∈ keep)); [rewrite decide_False by naive_solver|rewrite decide_True by done];
    simpl; lia.
Qed.

Lemma limit_tags_0 keep ts : limit_tags keep 0 ts = ts.
Proof. induction ts as [|t ts IH]; [done|]. simpl. rewrite IH. by case_decide. Qed.

Lemma limit_tags_length keep n ts :
  (n <= length (not_kept keep ts))%nat -> (length (limit_tags keep n ts) + n = length ts)%nat.
Proof.
  unfold not_kept. revert n. induction ts as [|t ts IH]; intros n; simpl; [lia|]. rewrite filter_cons.
  destruct (decide (Key t ∈ keep)).
  - rewrite decide_False by naive_solver. intros Hn. simpl. rewrite <- (IH n Hn). lia.
  - rewrite decide_True by done. destruct n as [|n]; simpl; [lia|]. intros Hn.
    rewrite <- (IH n) by lia. lia.
Qed.

Lemma limit_tags_sublist keep n ts : limit_tags keep n ts `sublist_of` ts.
Proof.
  revert n. induction ts as [|t ts IH]; intros n; simpl; [done|].
  destruct (decide (Key t ∈ keep)); [by apply sublist_skip|].
  destruct n; [done|]. by apply sublist_cons.
Qed.

Lemma limit_tags_keeps keep n ts t : t ∈ ts -> Key t ∈ keep -> t ∈ limit_tags keep n ts.
Proof.
  revert n. induction ts as [|t' ts IH]; intros n Ht Hk; simpl; [done|].
  apply elem_of_cons in Ht as [<-|Ht].
  - rewrite decide_True by done. by left.
  - destruct (decide (Key t' ∈ keep)); [right; auto|]. destruct n; [by right|auto].
Qed.

Lemma limit_tags_filter keep n ts :
  NoDup (Key <$> ts) ->
  filter (fun t => Key t ∉ (Key <$> take n (not_kept keep ts))) ts = limit_tags keep n ts.
Proof.
  unfold not_kept. revert n. induction ts as [|t ts IH]; intros n Hnd; [done|].
  rewrite fmap_cons, NoDup_cons in Hnd. destruct Hnd as [Ht Hnd]. cbn [limit_tags].
  rewrite !(filter_cons _ t). destruct (decide (Key t ∈ keep)) as [Hin|Hin].
  - rewrite (decide_False (P := Key t ∉ keep)) by naive_solver.
    rewrite decide_True; [by rewrite IH|].
    intros (x & Hx & Hx')%list_elem_of_fmap_1. apply Ht. rewrite Hx. apply list_elem_of_fmap_2.
    eapply list_elem_of_filter, (elem_of_subseteq), Hx'. apply subseteq_take.
  - rewrite (decide_True (P := Key t ∉ keep)) by done. destruct n as [|n]; cbn [firstn]; rewrite ?fmap_cons.
    + rewrite decide_True by set_solver. f_equal. apply filter_keeps_all. set_solver.
    + rewrite decide_False by set_solver. rewrite <- IH by done. apply filter_ext_in.
      intros x Hx. rewrite not_elem_of_cons. split; [naive_solver|]. intros Hn. split; [|done].
      intros E. apply Ht. rewrite <- E. by apply list_elem_of_fmap_2.
Qed.

Lemma remove_tags m ks :
  foldl (fun b t => RemoveTag t b) m ks = set_tags (foldl (fun l k => key_remove Key k l) (tags m) ks) m.
Proof.
  revert m. induction ks as [|k ks IH]; intros m; [by destruct m|]. cbn [foldl]. by rewrite IH.
Qed.

Lemma TagLimit_edit d m :
  limit_ready d -> TagLimit.init d = true -> wf m ->
  TagLimit.edit d m =
  Some (set_tags (limit_tags (TagLimit.Keep d) (Z.to_nat (Z.of_nat (length (tags m)) - TagLimit.Limit d)) (tags m)) m).
Proof.
  intros Hr Hi Hwf. destruct (Hr Hi) as [Hk Hl]. destruct Hwf as [Ht _].
  pose proof (tags_wf_NoDup _ Ht) as Hnd. unfold TagLimit.edit.
  destruct (Z.leb_spec (Z.of_nat (length (tags m))) (TagLimit.Limit d)).
  { replace (Z.to_nat _) with O by lia. rewrite limit_tags_0. by destruct m. }
  set (n := Z.to_nat _). destruct n as [|r] eqn:En; [lia|].
  pose proof (kept_bound (TagLimit.Keep d) _ Hnd) as Hb.
  pose proof (select_loop_spec d (tags m) [] r Hk ltac:(lia)) as Hs.
  rewrite !app_nil_l in Hs. change (length (@nil string)) with 0%nat in Hs.
  replace (TagLimit.Limit d + Z.of_nat (S r)) with (Z.of_nat (length (tags m))) in Hs by lia.
  rewrite Hs. binds. by rewrite remove_tags, key_remove_all, limit_tags_filter.
Qed.

Lemma initOnce_ready d :
  limit_ready d ->
  match TagLimit.initOnce d with
  | (true, d') => TagLimit.init d' = true /\ limit_ready d' /\ TagLimit.Limit d' = TagLimit.Limit d /\
      TagLimit.Keep d' = TagLimit.Keep d
  | (false, d') => d' = d /\ TagLimit.Limit d < Z.of_nat (length (TagLimit.Keep d))
  end.
Proof.
  intros Hr. unfold TagLimit.initOnce. destruct (TagLimit.init d) eqn:Hi; [done|].
  destruct (Z.ltb_spec (TagLimit.Limit d) (Z.of_nat (length (TagLimit.Keep d)))); [done|].
  split_and!; try done. intros _. split; [|done]. simpl. clear.
  assert (forall (s : gset string), foldl (fun kt k => {[ k ]} ∪ kt) s (TagLimit.Keep d) =
    list_to_set (TagLimit.Keep d) ∪ s) as Hf.
  { induction (TagLimit.Keep d) as [|k ks IH]; intros s; simpl; [set_solver|]. rewrite IH. set_solver. }
  rewrite Hf. set_solver.
Qed.

Definition limited (d : TagLimit.TagLimit) (m : metric) : metric :=
  set_tags (limit_tags (TagLimit.Keep d) (Z.to_nat (Z.of_nat (length (tags m)) - TagLimit.Limit d)) (tags m)) m.

Lemma TagLimit_Apply {W} d ins (w : W) :
  limit_ready d -> Forall (fun m => wf (base m)) ins ->
  exists d', limit_ready d' /\ TagLimit.Apply ins d w =
    if TagLimit.Limit d <? Z.of_nat (length (TagLimit.Keep d)) then Some (ins, d', w)
    else Some (each (limited d) ins, d', w).
Proof.
  intros Hr Hwf. pose proof (initOnce_ready d Hr) as Hi. unfold TagLimit.Apply.
  destruct (TagLimit.initOnce d) as [[] d'] eqn:E; exists d'; cbn [negb].
  - destruct Hi as (Hi & Hr' & Hl & Hk). split; [done|].
    destruct (Hr' Hi) as [_ Hle]. rewrite Hl, Hk in Hle. rewrite (proj2 (Z.ltb_ge _ _)) by lia.
    assert (mapM (fun m => b ← TagLimit.edit d' (base m); Some (with_base b m)) ins =
      Some (each (limited d) ins)) as ->; [|done].
    apply mapM_Some_2. unfold each. induction Hwf as [|m ins Hm _ IH]; constructor; [|done].
    rewrite TagLimit_edit by done. unfold limited. by rewrite Hl, Hk.
  - destruct Hi as [-> Hi]. split; [done|]. by rewrite (proj2 (Z.ltb_lt _ _)) by lia.
Qed.

(** A tag limit is a bound: with a configuration whose preserved tags fit in
    the limit, [TagLimit.Apply] never fails, returns the same metrics with at
    most [Limit] tags each - exactly the limit for a metric that was over it - all
    preserved tags among them, dropping only the first tags in order that need not be
    preserved, and changes nothing else; a configuration whose preserved tags do
    not fit passes metrics on unchanged. *)
Theorem TagLimit_bound {W} (d : TagLimit.TagLimit) (ins : list tmetric) (w : W)
    (Hready : limit_ready d) (Hwf : Forall (fun m => wf (base m)) ins) :
  exists out d', TagLimit.Apply ins d w = Some (out, d', w) /\ limit_ready d' /\
    if decide (Z.of_nat (length (TagLimit.Keep d)) <= TagLimit.Limit d) then
      Forall2 (fun m m' => td m' = td m /\ base m' = set_tags (tags (base m')) (base m) /\
        tags (base m') = limit_tags (TagLimit.Keep d)
          (Z.to_nat (Z.of_nat (length (tags (base m))) - TagLimit.Limit d)) (tags (base m)) /\
        Z.of_nat (length (tags (base m'))) = Z.of_nat (length (tags (base m))) `min` TagLimit.Limit d /\
        (forall t, t ∈ tags (base m) -> Key t ∈ TagLimit.Keep d -> t ∈ tags (base m')) /\
        wf (base m')) ins out
    else out = ins.
Proof.
  destruct (TagLimit_Apply d ins w Hready Hwf) as (d' & Hr & Ha). rewrite Ha.
  destruct (Z.ltb_spec (TagLimit.Limit d) (Z.of_nat (length (TagLimit.Keep d)))) as [Hlt|Hge].
  { exists ins, d'. rewrite decide_False by lia. done. }
  exists (each (limited d) ins), d'. split_and!; try done. rewrite decide_True by lia.
  unfold each. apply Forall2_fmap_r. apply Forall_Forall2_diag. eapply Forall_impl; [exact Hwf|].
  intros m Hm. simpl. destruct Hm as [Ht Hf]. split_and!; try done.
  - pose proof (kept_bound (TagLimit.Keep d) _ (tags_wf_NoDup _ Ht)).
    pose proof (limit_tags_length (TagLimit.Keep d)
      (Z.to_nat (Z.of_nat (length (tags (base m))) - TagLimit.Limit d)) (tags (base m))). lia.
  - intros t. apply limit_tags_keeps.
  - constructor; [|done]. eapply key_sorted_sublist; [apply limit_tags_sublist|done].
Qed.

Definition ex_tags : metric :=
  AddTag "b" "2" (AddTag "a" "1" (AddTag "c" "3" (AddTag "d" "4" (mkMetric "m" [] [mkField "x" (VInt 1)] 0 Untyped false)))).

Lemma ex_tags_wf : wf ex_tags.
Proof. constructor; apply (bool_decide_unpack _); vm_compute; exact I. Qed.

Lemma TagLimit_bound_witness :
  exists out d', TagLimit.Apply [mkTM ex_tags None] (TagLimit.mkTagLimit 2 ["b"; "d"] false ∅) tt = Some (out, d', tt) /\
    (Key <$> (out ≫= fun m => tags (base m))) = ["b"; "d"].
Proof.
  destruct (TagLimit_bound (TagLimit.mkTagLimit 2 ["b"; "d"] false ∅) [mkTM ex_tags None] tt
    ltac:(intros [=]) ltac:(constructor; [apply ex_tags_wf|constructor])) as (out & d' & Ha & _ & Hp).
  exists out, d'. split; [exact Ha|]. rewrite decide_True in Hp by (simpl; lia).
  apply Forall2_cons_inv_l in Hp as (m' & l & (_ & _ & Ht & _) & Hl & ->).
  apply Forall2_nil_inv_l in Hl as ->. cbn [mbind list_bind]. rewrite app_nil_r, Ht. reflexivity.
Defined.

(** ** Editing plugins *)

(** [Override.Apply] renames a metric to prefix, name or override, and
    suffix, adds the configured tags over the metric's own, and changes nothing
    else; the result does not depend on the order the tag map is ranged in. *)
Theorem Override_spec {W} (R1 R2 : MapRange) (p : Override.Override) (ins : list tmetric) (w : W)
    (Hwf : Forall (fun m => wf (base m)) ins) :
  @Override.Apply R1 W ins p w = @Override.Apply R2 W ins p w /\
  exists out, @Override.Apply R1 W ins p w = Some (out, p, w) /\
    Forall2 (fun m m' => td m' = td m /\ wf (base m') /\
      name (base m') = renamed (Override.NameOverride p) (Override.NamePrefix p) (Override.NameSuffix p) (name (base m)) /\
      Tags (base m') = Override.OTags p ∪ Tags (base m) /\
      fields (base m') = fields (base m) /\ tm (base m') = tm (base m) /\ tp (base m') = tp (base m)) ins out.
Proof.
  split.
  - unfold Override.Apply. do 3 f_equal. unfold each. apply Forall_fmap_ext_1.
    eapply Forall_impl; [exact Hwf|]. intros m Hm. f_equal. rewrite !Override_edit.
    apply add_tags_order. by apply set_name_wf.
  - eexists. split; [done|]. unfold each. apply Forall2_fmap_r, Forall_Forall2_diag.
    eapply Forall_impl; [exact Hwf|]. intros m Hm. simpl. rewrite Override_edit.
    destruct (@add_tags_rest R1 (Override.OTags p) (set_name (renamed (Override.NameOverride p)
      (Override.NamePrefix p) (Override.NameSuffix p) (name (base m))) (base m))) as (-> & -> & -> & -> & _).
    edestruct (@add_tags_spec R1) as [Hw Ht]; [|rewrite Ht; split_and!; try done; exact Hw].
    by apply set_name_wf.
Qed.

Lemma Override_spec_witness :
  exists out, Override.Apply (H := map_range_default) [mkTM ex_tags None]
      (Override.mkOverride EmptyString "p_" "_s" {["a" := "9"]}) tt = Some (out, Override.mkOverride EmptyString "p_" "_s" {["a" := "9"]}, tt) /\
    (name ∘ base) <$> out = ["p_m_s"].
Proof.
  destruct (Override_spec map_range_default map_range_default
    (Override.mkOverride EmptyString "p_" "_s" {["a" := "9"]}) [mkTM ex_tags None] tt
    ltac:(constructor; [apply ex_tags_wf|constructor])) as (_ & out & Ha & Hp).
  exists out. split; [exact Ha|]. apply Forall2_cons_inv_l in Hp as (m' & l & (_ & _ & Hn & _) & Hl & ->).
  apply Forall2_nil_inv_l in Hl as ->. simpl. rewrite Hn. reflexivity.
Defined.

(** C9: the plugins that edit metrics in place, and clone, settle their account with delivery
    tracking: they always return, report nothing themselves, and leave the
    reference count of every tracked group changed by exactly the metrics they
    return less the metrics they took - so a group is reported when, and only
    when, the last of them is resolved downstream. *)
Theorem processors_balanced `{MapRange} :
  balanced (fun _ _ => True) Override.Apply /\ balanced (fun _ _ => True) Clone.Apply /\
  balanced (fun _ _ => True) Rename.Apply /\ balanced (fun _ _ => True) Pivot.Apply /\
  balanced (fun _ _ => True) Enum.Apply /\
  balanced (fun ins d => limit_ready d /\ Forall (fun m => wf (base m)) ins) TagLimit.Apply.
Proof.
  assert (forall f ins w, moved ins (each f ins) w w) as He
    by (intros; apply moved_same; by rewrite each_td).
  split_and!; intros ins p w Hok.
  - do 3 eexists. split; [done|]. split; [done|]. apply He.
  - unfold Clone.Apply. destruct (clone_loop_world p ins [] [] w) as (w' & -> & Hc & Hm).
    do 3 eexists. split; [done|]. split; [done|]. simpl.
    assert (moved ins (each (Clone.edit p) ins) w w) as H0 by apply He.
    pose proof (moved_trans _ _ _ _ _ _ _ H0 Hm) as Ht. intros q d Hd Hr.
    destruct (Ht q d Hd Hr) as (d' & Hd' & Hrc). exists d'. split; [done|]. rewrite Hrc. f_equal.
    rewrite !refs_app. rewrite (refs_td q (_ <$> ins) ins); [unfold refs; simpl; lia|].
    rewrite <- list_fmap_compose. by apply list_fmap_ext.
  - do 3 eexists. split; [done|]. split; [done|]. apply He.
  - do 3 eexists. split; [done|]. split; [done|]. apply He.
  - do 3 eexists. split; [done|]. split; [done|]. apply He.
  - destruct Hok as [Hr Hwf]. destruct (TagLimit_Apply p ins w Hr Hwf) as (d' & _ & ->).
    destruct (_ <? _); do 3 eexists; (split; [done|]); (split; [done|]); [by apply moved_same|apply He].
Qed.

(** ** Unpivot *)

Lemma copyWithoutFields_world m (w : World) :
  exists w', Unpivot.copyWithoutFields m w = (mkTM (set_fields [] (base m)) (td m), w') /\
    chans w' = chans w /\ moved [] [m] w w' /\ (td m = None -> w' = w).
Proof.
  unfold Unpivot.copyWithoutFields. pose proof (world_copy_heap m w) as Hc.
  pose proof (moved_copy m w _ eq_refl) as Hm. assert (td m = None -> (m_Copy m w).2 = w) as Hn.
  { intros E. unfold m_Copy, world_copy, CopyT. rewrite E. by destruct w. }
  destruct (m_Copy m w) as [m' w1]. destruct Hc as (-> & Hch & _). exists w1. cbn [base td snd] in *.
  rewrite copy_base. split; [|done]. f_equal. unfold with_base. cbn [base td]. by rewrite remove_all_fields.
Qed.

Lemma field_loop_world u b td0 fs res (w : World) :
  exists w', Unpivot.field_loop u (mkTM (set_fields [] b) td0) fs res w =
    (res ++ ((fun f => mkTM (unpivoted u b f) td0) <$> fs), w') /\
    chans w' = chans w /\ moved [] ((fun f => mkTM (unpivoted u b f) td0) <$> fs) w w' /\
    (td0 = None -> w' = w).
Proof.
  revert res w. induction fs as [|f fs IH]; intros res w; cbn [Unpivot.field_loop].
  { exists w. rewrite app_nil_r. split_and!; try done. by apply moved_same. }
  set (b0 := mkTM (set_fields [] b) td0). fold b0 in IH.
  destruct (m_Copy b0 w) as [m' w1] eqn:Ec. pose proof (world_copy_heap b0 w) as Hc.
  pose proof (moved_copy b0 w _ eq_refl) as Hm. rewrite Ec in Hc, Hm. destruct Hc as (-> & Hch & _).
  simpl snd in Hm. set (x := with_base _ _).
  assert (x = mkTM (unpivoted u b f) td0) as ->.
  { unfold x, b0, with_base. simpl base. rewrite copy_base. simpl td. f_equal.
    unfold unpivoted, AddTag, AddField. simpl. by rewrite convertField_go_of_val. }
  destruct (IH (res ++ [mkTM (unpivoted u b f) td0]) w1) as (w2 & -> & Hch2 & Hm2 & Hn2).
  exists w2. split; [|split; [congruence|split]].
  - by rewrite fmap_cons, <- (assoc_L (++)).
  - assert (moved [] [mkTM (unpivoted u b f) td0] w w1) as Hm1.
    { intros p d Hd Hr. by rewrite <- (refs_td p [b0]) by done; apply Hm. }
    rewrite fmap_cons. exact (moved_trans [] [_] [] _ _ _ _ Hm1 Hm2).
  - intros ->. rewrite Hn2 by done. unfold m_Copy, world_copy, CopyT in Ec. simpl in Ec.
    injection Ec as <-. by destruct w.
Qed.

(** The metrics [Apply] returns for one metric. *)
Definition unpivot_out (u : Unpivot.Unpivot) (m : tmetric) : list tmetric :=
  (fun f => mkTM (unpivoted u (base m) f) (td m)) <$> fields (base m).

Lemma unpivot_step u m ms res (w : World) :
  exists w', Unpivot.unpivot_loop u (m :: ms) res w =
      (w'' ← m_Accept m w'; Unpivot.unpivot_loop u ms (res ++ unpivot_out u m) w'') /\
    chans w' = chans w /\ moved [] (m :: unpivot_out u m) w w' /\ (td m = None -> w' = w).
Proof.
  cbn [Unpivot.unpivot_loop]. destruct (copyWithoutFields_world m w) as (w1 & -> & Hc1 & Hm1 & Hn1).
  destruct (field_loop_world u (base m) (td m) (fields (base m)) res w1) as (w2 & -> & Hc2 & Hm2 & Hn2).
  exists w2. split_and!; [done|congruence| |].
  - exact (moved_trans [] [m] [] _ _ _ _ Hm1 Hm2).
  - intros E. by rewrite Hn2, Hn1.
Qed.

Lemma accept_world m p (w : World) d :
  td m = Some p -> heap (trk w) !! p = Some d -> 2 <= rc d < 2 ^ 31 ->
  exists w' d', m_Accept m w = Some w' /\ chans w' = chans w /\
    heap (trk w') !! p = Some d' /\ rc d' = rc d - 1.
Proof.
  intros Ht Hd Hr. simpl. unfold Tracking.Accept. rewrite Ht. unfold decr, accept. simpl.
  rewrite list_lookup_alter_eq, Hd. simpl. rewrite int32_small by lia.
  rewrite (proj2 (Z.ltb_ge _ _)), (proj2 (Z.eqb_neq _ _)) by lia. simpl.
  do 2 eexists. split; [done|]. split; [done|]. simpl. rewrite list_lookup_insert_eq.
  - split; [done|]. simpl. rewrite int32_small; lia.
  - rewrite length_alter. by eapply lookup_lt_Some.
Qed.

(** The outputs resolve every metric. *)
Fixpoint accept_all (ms : list tmetric) (w : World) : option World :=
  match ms with [] => Some w | m :: ms' => w ← m_Accept m w; accept_all ms' w end.

Lemma accept_all_world ms p (w : World) d :
  Forall (fun m => td m = Some p) ms -> heap (trk w) !! p = Some d ->
  Z.of_nat (length ms) < rc d < 2 ^ 31 ->
  exists w' d', accept_all ms w = Some w' /\ chans w' = chans w /\
    heap (trk w') !! p = Some d' /\ rc d' = rc d - Z.of_nat (length ms).
Proof.
  intros Hf. revert w d. induction Hf as [|m ms Hm _ IH]; intros w d Hd Hr; cbn [accept_all].
  { exists w, d. split_and!; try done. simpl. lia. }
  simpl length in Hr. destruct (accept_world m p w d Hm Hd ltac:(lia)) as (w1 & d1 & -> & Hc1 & Hd1 & Hr1).
  destruct (IH w1 d1 Hd1 ltac:(lia)) as (w2 & d2 & Ha & Hc2 & Hd2 & Hr2). binds.
  exists w2, d2. split_and!; [done|congruence|done|simpl length; lia].
Qed.

Lemma Unpivot_untracked u ms res (w : World) :
  Forall (fun m => td m = None) ms ->
  Unpivot.unpivot_loop u ms res w = Some (res ++ (ms ≫= unpivot_out u), w).
Proof.
  intros Hf. revert res. induction Hf as [|m ms Hm _ IH]; intros res.
  { simpl. by rewrite app_nil_r. }
  destruct (unpivot_step u m ms res w) as (w1 & -> & _ & _ & Hn). rewrite Hn by done.
  assert (m_Accept m w = Some w) as ->.
  { simpl. unfold Tracking.Accept. rewrite Hm. by destruct w. }
  binds. rewrite IH. simpl. by rewrite (assoc_L (++)).
Qed.

Lemma pivot_unpivoted u m f :
  wf m -> GetTag (Unpivot.TagKey u) m = None ->
  Pivot.edit (Pivot.mkPivot (Unpivot.TagKey u) (Unpivot.ValueKey u)) (unpivoted u m f) = set_fields [f] m.
Proof.
  intros Hwf Hn. set (k := Unpivot.TagKey u). set (m1 := set_fields [mkField (Unpivot.ValueKey u) (FValue f)] m).
  assert (wf m1) as Hw1 by (destruct Hwf; constructor; [done|apply NoDup_singleton]).
  assert (wf (AddTag k (FKey f) m1)) as Hw2 by (by apply AddTag_wf).
  assert (Tags m !! k = None) as Hk by (by rewrite <- GetTag_Tags).
  unfold Pivot.edit, unpivoted. fold k m1. cbn [Pivot.TagKey Pivot.ValueKey].
  rewrite GetTag_Tags, Tags_AddTag, lookup_insert_eq by done.
  assert (GetField (Unpivot.ValueKey u) (AddTag k (FKey f) m1) = Some (FValue f)) as ->.
  { unfold GetField. simpl. by rewrite decide_True. }
  assert (tags (RemoveTag k (AddTag k (FKey f) m1)) = tags m) as Ht.
  { apply wf_tags_canonical; [by apply RemoveTag_wf|done|].
    rewrite Tags_RemoveTag, Tags_AddTag by done. change (Tags m1) with (Tags m).
    rewrite delete_insert_eq. by apply delete_id. }
  apply metric_ext; try done. simpl. rewrite decide_True by done. simpl.
  rewrite convertField_go_of_val. by destruct f.
Qed.

(** Unpivot and pivot are inverse: [Unpivot.Apply] returns, metric by metric and in
    the order of the fields, one metric per field with the metric's name, tags
    and time, the field's value under [ValueKey] and its key in the tag
    [TagKey]; [Pivot.Apply] with the same keys gives back the metric cut down to that
    field. *)
Theorem Unpivot_pivot_roundtrip (u : Unpivot.Unpivot) (ms : list tmetric) (w : World)
    (Hwf : Forall (fun m => wf (base m) /\ td m = None /\ GetTag (Unpivot.TagKey u) (base m) = None) ms) :
  exists out, Unpivot.Apply ms u w = Some (out, u, w) /\
    base <$> out = (ms ≫= fun m => unpivoted u (base m) <$> fields (base m)) /\
    let pv := Pivot.mkPivot (Unpivot.TagKey u) (Unpivot.ValueKey u) in
    exists out', Pivot.Apply out pv w = Some (out', pv, w) /\
      base <$> out' = (ms ≫= fun m => (fun f => set_fields [f] (base m)) <$> fields (base m)).
Proof.
  exists (ms ≫= unpivot_out u). split; [|split].
  - unfold Unpivot.Apply. rewrite Unpivot_untracked; [done|]. eapply Forall_impl; [exact Hwf|]. naive_solver.
  - clear Hwf. induction ms as [|m ms IH]; [done|]. cbn [mbind list_bind]. rewrite fmap_app, IH. f_equal.
    unfold unpivot_out. rewrite <- list_fmap_compose. by apply list_fmap_ext.
  - intros pv. eexists. split; [done|]. unfold each. rewrite <- list_fmap_compose.
    induction Hwf as [|m ms (Hm & _ & Hn) _ IH]; [done|]. cbn [mbind list_bind].
    rewrite fmap_app, IH. f_equal. unfold unpivot_out. rewrite <- list_fmap_compose.
    apply list_fmap_ext. intros i f _. by apply (pivot_unpivoted u (base m) f).
Qed.

Definition ex_two : metric := mkMetric "cpu" [mkTag "h" "a"] [mkField "x" (VInt 1); mkField "y" (VInt 2)] 5 Gauge false.

Lemma ex_two_wf : wf ex_two.
Proof. constructor; apply (bool_decide_unpack _); vm_compute; exact I. Qed.

Lemma Unpivot_pivot_roundtrip_witness :
  exists out, Unpivot.Apply [mkTM ex_two None] (Unpivot.mkUnpivot "name" "value") ex_world =
      Some (out, Unpivot.mkUnpivot "name" "value", ex_world) /\
    base <$> out = [unpivoted (Unpivot.mkUnpivot "name" "value") ex_two (mkField "x" (VInt 1));
                    unpivoted (Unpivot.mkUnpivot "name" "value") ex_two (mkField "y" (VInt 2))].
Proof.
  destruct (Unpivot_pivot_roundtrip (Unpivot.mkUnpivot "name" "value") [mkTM ex_two None] ex_world
    ltac:(constructor; [split; [apply ex_two_wf|split; reflexivity]|constructor])) as (out & Ha & Hb & _).
  exists out. split; [exact Ha|]. rewrite Hb. reflexivity.
Defined.

(** Unpivot never gives back the copy it makes its metrics from: for a tracked metric the
    reference count ends one higher than the metrics it returns account for, so
    its group keeps a reference, and is not reported, after every returned
    metric has been accepted. *)
Theorem Unpivot_leaks_reference (u : Unpivot.Unpivot) (m : tmetric) (w : World) (p : nat)
    (d : trackingData nat) (Htd : td m = Some p) (Hd : heap (trk w) !! p = Some d)
    (Hrc : 1 <= rc d) (Hroom : rc d + Z.of_nat (length (fields (base m))) + 1 < 2 ^ 31) :
  exists out w' w'' d', Unpivot.Apply [m] u w = Some (out, u, w') /\
    length out = length (fields (base m)) /\ Forall (fun o => td o = Some p) out /\
    accept_all out w' = Some w'' /\ heap (trk w'') !! p = Some d' /\ rc d' = rc d /\
    chans w'' = chans w.
Proof.
  set (out := unpivot_out u m).
  assert (Forall (fun o => td o = Some p) out) as Hout by (apply Forall_fmap, Forall_true; done).
  assert (length out = length (fields (base m))) as Hlen by (by unfold out, unpivot_out; rewrite length_fmap).
  assert (refs p (m :: out) = Z.of_nat (length out) + 1) as Hrefs.
  { unfold refs. rewrite filter_keeps_all; [simpl; lia|]. intros x [->|Hx]%elem_of_cons; [done|].
    by eapply Forall_forall in Hx; [|exact Hout]. }
  unfold Unpivot.Apply. destruct (unpivot_step u m [] [] w) as (w1 & -> & Hc1 & Hm1 & _). fold out in Hm1 |- *.
  destruct (Hm1 p d Hd ltac:(lia)) as (d1 & Hd1 & Hr1). rewrite Hrefs in Hr1. unfold refs in Hr1 at 1.
  rewrite filter_nil in Hr1. cbn [length] in Hr1. rewrite int32_small in Hr1 by lia.
  destruct (accept_world m p w1 d1 Htd Hd1 ltac:(lia)) as (w2 & d2 & -> & Hc2 & Hd2 & Hr2).
  destruct (accept_all_world out p w2 d2 Hout Hd2 ltac:(lia)) as (w3 & d3 & Ha & Hc3 & Hd3 & Hr3).
  exists out, w2, w3, d3. split_and!; try done; [lia|congruence].
Qed.

Lemma Unpivot_leaks_reference_witness :
  exists out w' w'' d', Unpivot.Apply [mkTM ex_two (Some 0%nat)] (Unpivot.mkUnpivot "name" "value")
      (mkWorld ∅ (mkTS 1 [mkTD 1 1 0 0 0%nat] [mkChan 1 []])) = Some (out, Unpivot.mkUnpivot "name" "value", w') /\
    length out = 2%nat /\ accept_all out w' = Some w'' /\ heap (trk w'') !! 0%nat = Some d' /\ rc d' = 1.
Proof.
  destruct (Unpivot_leaks_reference (Unpivot.mkUnpivot "name" "value") (mkTM ex_two (Some 0%nat))
    (mkWorld ∅ (mkTS 1 [mkTD 1 1 0 0 0%nat] [mkChan 1 []])) 0%nat (mkTD 1 1 0 0 0%nat)
    eq_refl eq_refl ltac:(simpl; lia) ltac:(simpl; lia)) as (out & w' & w'' & d' & H1 & H2 & _ & H3 & H4 & H5 & _).
  exists out, w', w'', d'. split_and!; assumption.
Defined.

(** ** Rename and enum on the maps of a metric *)

Definition abs_with_name (n : string) (a : AbsMetric) : AbsMetric :=
  mkAbs n (a_tags a) (a_fields a) (a_time a) (a_type a) (a_aggregate a).
Definition abs_with_tags (ts : gmap string string) (a : AbsMetric) : AbsMetric :=
  mkAbs (a_name a) ts (a_fields a) (a_time a) (a_type a) (a_aggregate a).
Definition abs_with_fields (fs : gmap string Val) (a : AbsMetric) : AbsMetric :=
  mkAbs (a_name a) (a_tags a) fs (a_time a) (a_type a) (a_aggregate a).

(** The entry of [k] moved to [dest]. *)
Definition move_key {V} (k dest : string) (m : gmap string V) : gmap string V :=
  match m !! k with Some v => <[dest := v]> (delete k m) | None => m end.

Definition abs_replace (a : AbsMetric) (r : Rename.Replace) : AbsMetric :=
  if decide (Rename.Dest r = EmptyString) then a
  else if decide (Rename.Measurement r <> EmptyString) then
    if decide (a_name a = Rename.Measurement r) then abs_with_name (Rename.Dest r) a else a
  else if decide (Rename.RTag r <> EmptyString) then
    abs_with_tags (move_key (Rename.RTag r) (Rename.Dest r) (a_tags a)) a
  else if decide (Rename.RField r <> EmptyString) then
    abs_with_fields (move_key (Rename.RField r) (Rename.Dest r) (a_fields a)) a
  else a.

Lemma abs_AddTag k v m : wf m -> abs (AddTag k v m) = abs_with_tags (<[k := v]> (Tags m)) (abs m).
Proof. intros Hw. apply (run_op_abs (OpAddTag k v) m Hw). Qed.
Lemma abs_AddField k v m : wf m -> abs (AddField k v m) = abs_with_fields (<[k := convertField v]> (Fields m)) (abs m).
Proof. intros Hw. apply (run_op_abs (OpAddField k v) m Hw). Qed.
Lemma abs_move_tag k dest v m :
  wf m -> abs (AddTag dest v (RemoveTag k m)) = abs_with_tags (<[dest := v]> (delete k (Tags m))) (abs m).
Proof. intros Hw. rewrite abs_AddTag, Tags_RemoveTag by auto with drone. done. Qed.
Lemma abs_move_field k dest v m :
  wf m -> abs (AddField dest v (RemoveField k m)) =
  abs_with_fields (<[dest := convertField v]> (delete k (Fields m))) (abs m).
Proof. intros Hw. rewrite abs_AddField, Fields_RemoveField by auto with drone. done. Qed.

Lemma abs_same_tags m : abs_with_tags (Tags m) (abs m) = abs m.
Proof. done. Qed.
Lemma abs_same_fields m : abs_with_fields (Fields m) (abs m) = abs m.
Proof. done. Qed.

Lemma replace_one_abs m r :
  wf m -> wf (Rename.replace_one m r) /\ abs (Rename.replace_one m r) = abs_replace (abs m) r.
Proof.
  intros Hw. unfold Rename.replace_one, abs_replace, move_key.
  destruct (decide (Rename.Dest r = EmptyString)); [done|].
  destruct (decide (Rename.Measurement r <> EmptyString)).
  { change (a_name (abs m)) with (name m). case_decide; [|done]. split; [by apply set_name_wf|done]. }
  destruct (decide (Rename.RTag r <> EmptyString)).
  { rewrite GetTag_Tags by done. change (a_tags (abs m)) with (Tags m).
    destruct (Tags m !! Rename.RTag r); [|done]. rewrite abs_move_tag by done. auto with drone. }
  destruct (decide (Rename.RField r <> EmptyString)); [|done].
  rewrite GetField_Fields by done. change (a_fields (abs m)) with (Fields m).
  destruct (Fields m !! Rename.RField r); [|done].
  rewrite abs_move_field, convertField_go_of_val by done. auto with drone.
Qed.

Lemma rename_edit_abs (rs : Rename.Rename) m :
  wf m -> wf (Rename.edit rs m) /\ abs (Rename.edit rs m) = foldl abs_replace (abs m) rs.
Proof.
  unfold Rename.edit. revert m. induction rs as [|r rs IH]; intros m Hw; [done|]. cbn [foldl].
  destruct (replace_one_abs m r Hw) as [Hw' <-]. by apply IH.
Qed.

Lemma move_key_back {V} k dest (m : gmap string V) :
  m !! dest = None -> move_key dest k (move_key k dest m) = m.
Proof.
  intros Hd. unfold move_key. destruct (m !! k) as [v|] eqn:Hk.
  - rewrite lookup_insert_eq, delete_insert_id by (rewrite lookup_delete_ne; congruence).
    by apply insert_delete_id.
  - by rewrite Hd.
Qed.

(** [Rename.Apply] performs its replacements in order on the name and on the
    tag and field maps - a rename moves an entry to its new key and replaces what
    is there, a missing entry changes nothing - and moving a tag or a field to a key
    the metric does not have is undone by the opposite rename. *)
Theorem Rename_spec {W} (rs : Rename.Rename) (ins : list tmetric) (w : W)
    (Hwf : Forall (fun m => wf (base m)) ins) :
  (exists out, Rename.Apply ins rs w = Some (out, rs, w) /\
    Forall2 (fun m m' => td m' = td m /\ wf (base m') /\
      abs (base m') = foldl abs_replace (abs (base m)) rs) ins out) /\
  (forall a b m, a <> EmptyString -> b <> EmptyString -> m ∈ ins ->
    (Tags (base m) !! b = None ->
     abs (Rename.edit [Rename.mkReplace EmptyString a EmptyString b; Rename.mkReplace EmptyString b EmptyString a] (base m)) = abs (base m)) /\
    (Fields (base m) !! b = None ->
     abs (Rename.edit [Rename.mkReplace EmptyString EmptyString a b; Rename.mkReplace EmptyString EmptyString b a] (base m)) = abs (base m))).
Proof.
  split.
  - eexists. split; [done|]. apply Forall2_fmap_r, Forall_Forall2_diag. eapply Forall_impl; [exact Hwf|].
    intros m Hm. simpl. split; [done|]. by apply rename_edit_abs.
  - intros a b m Ha Hb Hm. rewrite Forall_forall in Hwf. specialize (Hwf m Hm).
    split; intros Hn; rewrite (proj2 (rename_edit_abs _ _ Hwf)); cbn [foldl]; unfold abs_replace; simpl;
      rewrite !(decide_False (P := _ = EmptyString)), !(decide_True (P := _ <> EmptyString)) by done;
      simpl; rewrite move_key_back by done; done.
Qed.

Lemma Rename_spec_witness :
  abs (Rename.edit [Rename.mkReplace EmptyString "h" EmptyString "host"; Rename.mkReplace EmptyString "host" EmptyString "h"] ex_two) = abs ex_two.
Proof.
  apply (proj2 (Rename_spec [] [mkTM ex_two None] tt ltac:(constructor; [apply ex_two_wf|constructor]))
    "h" "host" (mkTM ex_two None)); [discriminate|discriminate|by left|reflexivity].
Defined.

(** The text a mapping looks up for a field or a tag of the metric. *)
Definition enum_text (v : Val) : option string :=
  match v with VBool b => Some (FormatBool b) | VString s => Some s | _ => None end.

(** The value of a table entry, or the default. *)
Definition enum_value (mp : Enum.Mapping) (s : string) : option Val :=
  from_option Some (Enum.Default mp) (Enum.ValueMappings mp !! s).

Definition enum_dest (mp : Enum.Mapping) (k : string) : string :=
  if decide (Enum.EDest mp = EmptyString) then k else Enum.EDest mp.

Definition abs_enum (a : AbsMetric) (mp : Enum.Mapping) : AbsMetric :=
  let fs := match v ← a_fields a !! Enum.EField mp; s ← enum_text v; enum_value mp s with
    | Some v => if decide (Enum.EField mp = EmptyString) then a_fields a
                else <[enum_dest mp (Enum.EField mp) := v]> (a_fields a)
    | None => a_fields a end in
  let ts := match s ← a_tags a !! Enum.ETag mp; enum_value mp s with
    | Some v => if decide (Enum.ETag mp = EmptyString) then a_tags a
                else <[enum_dest mp (Enum.ETag mp) := format_v v]> (a_tags a)
    | None => a_tags a end in
  abs_with_fields fs (abs_with_tags ts a).

Lemma writeField_abs nm v m :
  wf m -> wf (Enum.writeField nm v m) /\ abs (Enum.writeField nm v m) = abs_with_fields (<[nm := v]> (Fields m)) (abs m).
Proof.
  intros Hw. unfold Enum.writeField. rewrite abs_move_field, convertField_go_of_val, insert_delete_eq by done.
  auto with drone.
Qed.

Lemma writeTag_abs nm v m :
  wf m -> wf (Enum.writeTag nm v m) /\ abs (Enum.writeTag nm v m) = abs_with_tags (<[nm := v]> (Tags m)) (abs m).
Proof.
  intros Hw. unfold Enum.writeTag. rewrite abs_move_tag, insert_delete_eq by done. auto with drone.
Qed.

Lemma map_field_abs mp m :
  wf m -> wf (Enum.map_field mp m) /\
  abs (Enum.map_field mp m) = abs_with_fields (a_fields (abs_enum (abs m) mp)) (abs m).
Proof.
  intros Hw. unfold Enum.map_field, abs_enum, enum_dest. simpl.
  destruct (decide (Enum.EField mp = EmptyString)) as [E|E].
  { rewrite decide_False by naive_solver. split; [done|]. by repeat case_match. }
  rewrite decide_True by done. rewrite GetField_Fields by done.
  destruct (Fields m !! Enum.EField mp) as [v|] eqn:Hv; [|done]. simpl.
  assert ((exists s, Enum.adjustBoolValue v = VString s /\ enum_text v = Some s) \/
    (enum_text v = None /\ forall s, Enum.adjustBoolValue v <> VString s)) as [(s & -> & ->)|[-> Hn]]
    by (destruct v; simpl; eauto).
  - simpl. unfold Enum.mapValue, enum_value. destruct (Enum.ValueMappings mp !! s) as [x|]; simpl;
      [|destruct (Enum.Default mp) as [x|]; [|done]];
      (replace (Enum.getDestination mp) with (if decide (Enum.EDest mp = EmptyString) then Enum.EField mp else Enum.EDest mp)
         by (unfold Enum.getDestination; repeat case_decide; naive_solver)); by apply writeField_abs.
  - simpl. destruct (Enum.adjustBoolValue v); try done. naive_solver.
Qed.

Lemma map_tag_abs mp m :
  wf m -> wf (Enum.map_tag mp m) /\
  abs (Enum.map_tag mp m) = abs_with_tags (a_tags (abs_enum (abs m) mp)) (abs m).
Proof.
  intros Hw. unfold Enum.map_tag, abs_enum, enum_dest. simpl.
  destruct (decide (Enum.ETag mp = EmptyString)) as [E|E].
  { rewrite decide_False by naive_solver. split; [done|]. by repeat case_match. }
  rewrite decide_True by done. rewrite GetTag_Tags by done.
  destruct (Tags m !! Enum.ETag mp) as [s|] eqn:Hv; [|done]. simpl.
  unfold Enum.mapValue, enum_value. destruct (Enum.ValueMappings mp !! s) as [x|]; simpl;
    [|destruct (Enum.Default mp) as [x|]; [|done]];
    (replace (Enum.getDestinationTag mp) with (if decide (Enum.EDest mp = EmptyString) then Enum.ETag mp else Enum.EDest mp)
       by (unfold Enum.getDestinationTag; repeat case_decide; naive_solver));
    destruct x; by apply writeTag_abs.
Qed.

(** [EnumMapper.Apply] applies its mappings in order: a mapping replaces (or
    stores under its destination) the field and the tag it names by the table's value for
    their text - booleans read as true or false - or by the default when the text
    is not in the table, as text in a tag; a value without a table entry and a
    default, or of another type, changes nothing. *)
Theorem Enum_spec {W} (mps : list Enum.Mapping) (ins : list tmetric) (w : W)
    (Hwf : Forall (fun m => wf (base m)) ins) :
  exists out, Enum.Apply ins mps w = Some (out, mps, w) /\
    Forall2 (fun m m' => td m' = td m /\ wf (base m') /\
      abs (base m') = foldl abs_enum (abs (base m)) mps) ins out.
Proof.
  eexists. split; [done|]. apply Forall2_fmap_r, Forall_Forall2_diag. eapply Forall_impl; [exact Hwf|].
  intros m Hm. simpl. split; [done|]. unfold with_base, Enum.applyMappings. cbn [base]. change (wf (base m)) in Hm. revert Hm. generalize (base m). clear m Hwf.
  induction mps as [|mp mps IH]; intros m Hm; [done|]. cbn [foldl].
  destruct (map_field_abs mp m Hm) as [Hw1 Ha1]. destruct (map_tag_abs mp _ Hw1) as [Hw2 Ha2].
  destruct (IH _ Hw2) as [Hw3 Ha3]. split; [done|]. rewrite Ha3, Ha2. f_equal.
  unfold abs_enum at 1. rewrite Ha1. done.
Qed.

Lemma Enum_spec_witness :
  exists out, Enum.Apply [mkTM ex_two None]
      [Enum.mkMapping "h" EmptyString "code" None {["a" := VInt 7]}] tt =
      Some (out, [Enum.mkMapping "h" EmptyString "code" None {["a" := VInt 7]}], tt) /\
    (fun m => Tags (base m) !! "code") <$> out = [Some "7"].
Proof.
  destruct (Enum_spec [Enum.mkMapping "h" EmptyString "code" None {["a" := VInt 7]}] [mkTM ex_two None] tt
    ltac:(constructor; [apply ex_two_wf|constructor])) as (out & Ha & Hp).
  exists out. split; [exact Ha|]. apply Forall2_cons_inv_l in Hp as (m' & l & (_ & _ & Hm) & Hl & ->).
  apply Forall2_nil_inv_l in Hl as ->. simpl.
  change (Tags (base m')) with (a_tags (abs (base m'))). rewrite Hm. reflexivity.
Defined.

(** ** Dedup

    The environment of the plugin: a clock that does not run backwards, copies
    that are copies and can be accepted. *)

Class Timed (W : Type) `{CopyEnv tmetric W} `{MetricEnv tmetric W} `{ClockEnv W} := {
  time_of : W -> Z;
  clock_law : forall w : W, time_of w <= (read_clock w).1 <= time_of (read_clock w).2;
  copy_law : forall m (w : W), (m_Copy m w).1 = mkTM (Metric.Copy (base m)) (td m) /\
    time_of w <= time_of (m_Copy m w).2;
  accept_law : forall m (w : W), exists w', m_Accept m w = Some w' /\ time_of w <= time_of w';
}.

Section DedupProofs.
Context {W : Type} `{TW : Timed W} `{MapRange}.
Import Dedup.
Implicit Types (d : Dedup) (w : W).

(** When a metric has to be passed on: its series has no metric that was passed on,
    or an old one, or one with another value of a field. *)
Definition due (interval t : Z) (last : option metric) (m : metric) : bool :=
  match last with
  | None => true
  | Some c => (interval <=? time_Sub t (tm c)) || changed c m
  end.

(** The cache holds the last metrics passed on, up to expired ones. *)
Definition cache_ok (last : gmap Z metric) d w : Prop := forall id,
  match Cache d !! id with
  | Some c => last !! id = Some (base c)
  | None => match last !! id with
            | Some c => DedupInterval d <= time_Sub (time_of w) (tm c) | None => True end
  end.

Lemma time_Sub_mono t t' u : t <= t' -> time_Sub t u <= time_Sub t' u.
Proof. unfold time_Sub. lia. Qed.

Lemma cache_ok_later last d w w' : time_of w <= time_of w' -> cache_ok last d w -> cache_ok last d w'.
Proof.
  intros Hle Hc id. specialize (Hc id). destruct (Cache d !! id); [done|].
  destruct (last !! id) as [c|]; [|done]. pose proof (time_Sub_mono _ _ (tm c) Hle). lia.
Qed.

Lemma Since_spec t w :
  exists now w', Since t w = (time_Sub now t, w') /\ time_of w <= now <= time_of w'.
Proof.
  unfold Since. pose proof (clock_law w). destruct (read_clock w) as [now w']. by exists now, w'.
Qed.

Lemma save_spec m id d w :
  exists w', save m id d w =
      Some (mkDedup (DedupInterval d) (FlushTime d) (<[id := mkTM (base m) (td m)]> (Cache d)), w') /\
    time_of w <= time_of w'.
Proof.
  unfold save. destruct (copy_law m w) as [Hm Hw]. destruct (m_Copy m w) as [m' w1]. simpl in *. subst m'.
  destruct (accept_law (mkTM (Metric.Copy (base m)) (td m)) w1) as (w2 & -> & Hw2). binds.
  exists w2. split; [by rewrite copy_base|lia].
Qed.

Lemma keep_loop_spec d l keep w :
  exists keep' w', keep_loop d l keep w = (keep', w') /\ time_of w <= time_of w' /\
    (forall id c, keep' !! id = Some c -> keep !! id = Some c \/ (id, c) ∈ l) /\
    (forall id c, (id, c) ∈ l -> keep' !! id = None ->
      DedupInterval d <= time_Sub (time_of w') (tm (base c))) /\
    (forall id, is_Some (keep !! id) -> is_Some (keep' !! id)).
Proof.
  revert keep w. induction l as [|[id m] l IH]; intros keep w; cbn [keep_loop].
  { exists keep, w. split_and!; [done|lia|auto|set_solver|done]. }
  destruct (Since_spec (tm (base m)) w) as (now & w1 & -> & Hnow).
  destruct (IH (if time_Sub now (tm (base m)) <? DedupInterval d then <[id:=m]> keep else keep) w1)
    as (keep' & w' & -> & Hw & Hin & Hex & Hmono).
  exists keep', w'. split_and!; [done|lia| | |].
  - intros i c [Hi|Hi]%Hin; [|right; by right].
    destruct (_ <? _); [|by left]. apply lookup_insert_Some in Hi as [[<- <-]|[_ Hi]]; [right; by left|by left].
  - intros i c [[= -> ->]|Hi]%elem_of_cons Hn; [|by eapply Hex].
    destruct (Z.ltb_spec (time_Sub now (tm (base m))) (DedupInterval d)).
    + destruct (Hmono id) as [x Hx]; [rewrite lookup_insert_eq; by eexists|congruence].
    + etrans; [done|]. apply time_Sub_mono. lia.
  - intros i Hi. apply Hmono. destruct (_ <? _); [|done].
    destruct (decide (id = i)) as [->|Hne]; [rewrite lookup_insert_eq; by eexists|by rewrite lookup_insert_ne].
Qed.

Lemma cleanup_spec last d w :
  cache_ok last d w ->
  exists d' w', cleanup d w = (d', w') /\ time_of w <= time_of w' /\
    DedupInterval d' = DedupInterval d /\ cache_ok last d' w'.
Proof.
  intros Hc. unfold cleanup. destruct (Since_spec (FlushTime d) w) as (now & w1 & -> & Hnow).
  destruct (_ <? _).
  { exists d, w1. split_and!; [done|lia|done|]. eapply cache_ok_later; [|done]. lia. }
  pose proof (clock_law w1). destruct (read_clock w1) as [now2 w2]. simpl in *.
  destruct (keep_loop_spec d (range_map (Cache d)) ∅ w2) as (keep & w3 & -> & Hw & Hin & Hex & _).
  eexists _, w3. split_and!; [done|lia|done|]. intros id. specialize (Hc id). simpl.
  destruct (keep !! id) as [c|] eqn:E.
  - apply Hin in E as [E|E]; [by rewrite lookup_empty in E|]. apply range_map_elem in E. by rewrite E in Hc.
  - destruct (Cache d !! id) as [c|] eqn:Ec.
    + rewrite Hc. apply (Hex id); [|done]. by apply range_map_elem.
    + destruct (last !! id) as [c|]; [|done].
      etrans; [done|]. apply time_Sub_mono. lia.
Qed.

Lemma cache_ok_save last d w w' m f :
  time_of w <= time_of w' -> cache_ok last d w ->
  cache_ok (<[HashID (base m) := base m]> last)
    (mkDedup (DedupInterval d) f (<[HashID (base m) := mkTM (base m) (td m)]> (Cache d))) w'.
Proof.
  intros Hle Hc id. apply (cache_ok_later _ _ _ _ Hle) in Hc. specialize (Hc id). simpl.
  destruct (decide (HashID (base m) = id)) as [<-|Hne].
  - by rewrite !lookup_insert_eq.
  - by rewrite !lookup_insert_ne.
Qed.

(** One metric at a time, the way the pipeline calls the plugin. *)
Lemma Apply_one last d w m :
  cache_ok last d w ->
  exists t b d' w', Apply [m] d w = Some (if b : bool then [m] else [], d', w') /\
    time_of w <= t <= time_of w' /\ DedupInterval d' = DedupInterval d /\
    b = due (DedupInterval d) t (last !! HashID (base m)) (base m) /\
    cache_ok (if b then <[HashID (base m) := base m]> last else last) d' w'.
Proof.
  intros Hc. unfold Apply. cbn [length dedup_loop]. change ([m] !! 0%nat) with (Some m).
  binds. set (id := HashID (base m)).
  assert (forall w1 t, time_of w <= t <= time_of w1 -> due (DedupInterval d) t (last !! id) (base m) = true ->
    exists t b d' w', ('(out, d, w) ← ('(d, w) ← save m id d w1; Some (take 1 [m], d, w));
        let '(d, w) := cleanup d w in Some (out, d, w)) = Some (if b : bool then [m] else [], d', w') /\
      time_of w <= t <= time_of w' /\ DedupInterval d' = DedupInterval d /\
      b = due (DedupInterval d) t (last !! id) (base m) /\
      cache_ok (if b then <[id := base m]> last else last) d' w') as Hsave.
  { intros w1 t Ht Hdue. destruct (save_spec m id d w1) as (w2 & -> & Hw2). binds.
    destruct (cleanup_spec (<[id := base m]> last) (mkDedup (DedupInterval d) (FlushTime d)
      (<[id := mkTM (base m) (td m)]> (Cache d))) w2) as (d' & w3 & -> & Hw3 & Hi & Hc').
    { apply (cache_ok_save last d w w2 m (FlushTime d)); [lia|done]. }
    exists t, true, d', w3. split_and!; try done; lia. }
  pose proof (Hc id) as Hid. destruct (Cache d !! id) as [c|] eqn:Ec.
  - rewrite Hid in Hsave |- *. cbn [due] in *.
    destruct (Since_spec (tm (base c)) w) as (now & w1 & -> & Hnow).
    destruct (Z.leb_spec (DedupInterval d) (time_Sub now (tm (base c)))) as [Hle|Hlt].
    { apply (Hsave w1 now Hnow). by rewrite (proj2 (Z.leb_le _ _)). }
    destruct (changed (base c) (base m)) eqn:Hch.
    { apply (Hsave w1 now Hnow). by rewrite orb_true_r. }
    unfold remove. simpl. destruct (cleanup_spec last d w1) as (d' & w2 & -> & Hw2 & Hi & Hc').
    { eapply cache_ok_later; [|done]. lia. }
    exists now, false, d', w2. split_and!; try done; [lia|lia|]. by rewrite (proj2 (Z.leb_gt _ _)).
  - apply (Hsave w (time_of w)); [lia|]. unfold due. destruct (last !! id) as [c|]; [|done].
    by rewrite (proj2 (Z.leb_le _ _)).
Qed.

(** Calls one after the other, each some time after the one before, with
    whether the metric was passed on. *)
Inductive dedup_run : Dedup -> W -> list (tmetric * bool) -> Prop :=
| dedup_done d w : dedup_run d w []
| dedup_call d w w0 m out d1 w1 tr :
    time_of w <= time_of w0 -> Apply [m] d w0 = Some (out, d1, w1) -> dedup_run d1 w1 tr ->
    dedup_run d w ((m, negb (is_nil out)) :: tr).

(** The same without a cache: the last metric passed on for each series, kept for ever. *)
Fixpoint dedup_spec (interval now : Z) (last : gmap Z metric) (times : list Z)
    (tr : list (tmetric * bool)) : Prop :=
  match tr, times with
  | [], [] => True
  | (m, b) :: tr', t :: times' =>
    now <= t /\ b = due interval t (last !! HashID (base m)) (base m) /\
    dedup_spec interval t (if b then <[HashID (base m) := base m]> last else last) times' tr'
  | _, _ => False
  end.

Lemma dedup_spec_earlier interval now now' last times tr :
  now' <= now -> dedup_spec interval now last times tr -> dedup_spec interval now' last times tr.
Proof. intros Hle. destruct tr as [|[m b] tr], times as [|t times]; simpl; try done. intuition lia. Qed.

Lemma dedup_run_spec d w tr :
  dedup_run d w tr -> forall last, cache_ok last d w ->
  exists times, dedup_spec (DedupInterval d) (time_of w) last times tr.
Proof.
  induction 1 as [d w|d w w0 m out d1 w1 tr Hle Ha _ IH]; intros last Hc; [by exists []|].
  apply (cache_ok_later _ _ _ _ Hle) in Hc. destruct (Apply_one last d w0 m Hc)
    as (t & b & d' & w' & Ha' & Ht & Hi & Hb & Hc'). rewrite Ha in Ha'. injection Ha' as -> -> ->.
  destruct (IH _ Hc') as [times Hs]. exists (t :: times). rewrite <- Hi in *.
  replace (negb (is_nil (if b then [m] else []))) with b by (by destruct b).
  split; [lia|]. split; [done|]. eapply dedup_spec_earlier; [|exact Hs]. lia.
Qed.
End DedupProofs.

(** C39: [Dedup], called with one metric at a time as the processor chain does, always
    returns the metric or nothing, and over any run its decisions are those of a
    dedup that remembers for ever: a metric is passed on iff its series has no
    metric passed on before, or the last one is at least the interval old, or a
    field of both differs. The periodic clean-up of the cache is invisible. *)
Theorem Dedup_refines `{TW : Timed W} `{MapRange} (interval flush : Z) (w : W) :
  (forall d m w, exists b d' w', Dedup.Apply [m] d w = Some (if b : bool then [m] else [], d', w')) /\
  (forall tr, dedup_run (Dedup.mkDedup interval flush ∅) w tr ->
    exists times, dedup_spec interval (time_of w) ∅ times tr).
Proof.
  split.
  - intros d m w0. destruct (Apply_one (base <$> Dedup.Cache d) d w0 m) as (t & b & d' & w' & Ha & _).
    + intros id. rewrite lookup_fmap. by destruct (Dedup.Cache d !! id).
    + by exists b, d', w'.
  - intros tr Hr. apply (dedup_run_spec _ _ _ Hr ∅). intros id. simpl. by rewrite !lookup_empty.
Qed.

(** An environment whose state is the time; metrics are not tracked. *)
#[export] Instance clock_copy : CopyEnv tmetric Z := fun m w => (mkTM (Metric.Copy (base m)) (td m), w).
#[export] Instance clock_metrics : MetricEnv tmetric Z :=
  {| m_Accept := fun _ w => Some w; m_Reject := fun _ w => Some w; m_Drop := fun _ w => Some w |}.
#[export] Instance clock_clock : ClockEnv Z := fun w => (w, w).
#[export, refine] Instance clock_timed : Timed Z := {| time_of := fun w => w |}.
Proof.
  - simpl. lia.
  - simpl. split; [done|lia].
  - intros m w. exists w. simpl. split; [done|lia].
Defined.

(** In a slice of two or more metrics, [Dedup.Apply] removes by swapping with the last
    element of the shortened slice while it ranges over the whole one: two repetitions of a
    cached metric in one call make it index out of range. *)
Theorem Dedup_batch_fails `{MapRange} (d : Dedup.Dedup) (c m1 m2 : tmetric) (now : Z)
    (Hc : Dedup.Cache d !! HashID (base m1) = Some c)
    (H12 : HashID (base m2) = HashID (base m1))
    (Hfresh : time_Sub now (tm (base c)) < Dedup.DedupInterval d)
    (Hm1 : Dedup.changed (base c) (base m1) = false) :
  Dedup.Apply [m1; m2] d now = None.
Proof.
  unfold Dedup.Apply. cbn [length Dedup.dedup_loop].
  change ([m1; m2] !! 0%nat) with (Some m1). binds. rewrite Hc. cbn [Dedup.Since read_clock clock_clock].
  rewrite (proj2 (Z.leb_gt _ _)), Hm1 by done.
  change (Dedup.remove [m1; m2] 2 0) with (Some ([m2; m1], 1%nat)). binds.
  change ([m2; m1] !! 1%nat) with (Some m1). binds. rewrite Hc. cbn [Dedup.Since read_clock clock_clock].
  rewrite (proj2 (Z.leb_gt _ _)), Hm1 by done. done.
Qed.

Lemma Dedup_batch_fails_witness :
  let d := Dedup.mkDedup 600 0 {[HashID ex_two := mkTM ex_two None]} in
  Dedup.Apply (H2 := map_range_default) [mkTM ex_two None; mkTM ex_two None] d 10 = None.
Proof.
  intros d. apply (Dedup_batch_fails (H := map_range_default) d (mkTM ex_two None)); vm_compute; reflexivity.
Defined.

(** A metric that repeats the cached values and brings a field the cached metric
    does not have is suppressed, new value included: only fields both metrics have
    are compared. *)
Theorem Dedup_drops_new_field `{MapRange} (d : Dedup.Dedup) (c : tmetric) (k : string) (v : Val) (now : Z)
    (Hwf : wf (base c)) (Hnew : GetField k (base c) = None)
    (Hc : Dedup.Cache d !! HashID (base c) = Some c)
    (Hfresh : time_Sub now (tm (base c)) < Dedup.DedupInterval d)
    (Hrep : Dedup.changed (base c) (base c) = false) :
  let m := mkTM (AddField k (go_of_val v) (base c)) None in
  Fields (base m) !! k = Some v /\ exists d' now', Dedup.Apply [m] d now = Some ([], d', now').
Proof.
  intros m. split.
  { destruct Hwf as [_ Hf]. unfold m. simpl. rewrite Fields_AddField by done.
    by rewrite lookup_insert_eq, convertField_go_of_val. }
  unfold Dedup.Apply. cbn [length Dedup.dedup_loop]. change ([m] !! 0%nat) with (Some m). binds.
  change (HashID (base m)) with (HashID (base c)). rewrite Hc. cbn [Dedup.Since read_clock clock_clock].
  rewrite (proj2 (Z.leb_gt _ _)) by done.
  assert (Dedup.changed (base c) (base m) = false) as ->.
  { unfold Dedup.changed in *. unfold GetField in Hnew.
    assert (fields (base m) = fields (base c) ++ [mkField k v]) as ->.
    { unfold m. simpl. rewrite convertField_go_of_val. revert Hnew. clear. generalize (fields (base c)).
      induction l as [|f l IH]; simpl; [done|]. destruct (decide (FKey f = k)) as [->|Hk]; [done|].
      rewrite decide_False by congruence. intros Hn. by rewrite IH. }
    rewrite existsb_app, Hrep. simpl. unfold GetField. by rewrite Hnew. }
  change (Dedup.remove [m] 1 0) with (Some ([m], 0%nat)). binds.
  destruct (Dedup.cleanup d now) as [d' now']. by exists d', now'.
Qed.

Lemma Dedup_drops_new_field_witness :
  let d := Dedup.mkDedup 600 0 {[HashID ex_two := mkTM ex_two None]} in
  exists d' now', Dedup.Apply (H2 := map_range_default) [mkTM (AddField "z" (go_of_val (VInt 3)) ex_two) None] d 10 = Some ([], d', now').
Proof.
  intros d. apply (Dedup_drops_new_field (H := map_range_default) d (mkTM ex_two None) "z" (VInt 3) 10 ex_two_wf);
    vm_compute; reflexivity.
Defined.
