(* ===== verification/Parse.v ===== *)
(** * Parsing numbers

    The parsing half of Go's [strconv] that the plugins use: [ParseBool],
    [ParseUint] and [ParseInt] in base 0 at 64 bits, with prefixes and
    underscores, and [ParseFloat] at 64 bits. A parse error carries whether it
    is a range error; decimal floats are rounded exactly. The round trips with
    the formatting half are at the end. *)

From Stdlib Require Import Ascii.
From S2P Require Import Prelude Float64 Strconv Strings.

Inductive ParseErr := ErrSyntax | ErrRange.

Definition code (c : ascii) : Z := byte_of c.
(** [lower]: [c | ('x' - 'X')]. *)
Definition lower (c : ascii) : Z := Z.lor (code c) 32.
Definition between (a b z : Z) : bool := (a <=? z) && (z <=? b).
Definition is_digit (c : ascii) : bool := between 48 57 (code c).
Definition is_hex_letter (c : ascii) : bool := between 97 102 (lower c).

Definition ParseBool (s : string) : option bool :=
  if decide (s ∈ ["1"; "t"; "T"; "true"; "TRUE"; "True"]) then Some true
  else if decide (s ∈ ["0"; "f"; "F"; "false"; "FALSE"; "False"]) then Some false
  else None.

(** ** Underscores as digit separators: [underscoreOK] *)

Inductive Seen := SeenStart | SeenDigit | SeenUnderscore | SeenOther.

Fixpoint underscore_loop (hex : bool) (i : Seen) (s : string) : bool :=
  match s with
  | EmptyString => match i with SeenUnderscore => false | _ => true end
  | String c s' =>
    if is_digit c || (hex && is_hex_letter c) then underscore_loop hex SeenDigit s'
    else if code c =? 95 then
      match i with SeenDigit => underscore_loop hex SeenUnderscore s' | _ => false end
    else match i with SeenUnderscore => false | _ => underscore_loop hex SeenOther s' end
  end.

Definition strip_sign (s : string) : string :=
  match s with
  | String c s' => if (code c =? 45) || (code c =? 43) then s' else s
  | EmptyString => s
  end.

Definition underscoreOK (s : string) : bool :=
  let s := strip_sign s in
  match s with
  | String z (String b s') =>
    if (code z =? 48) && ((lower b =? 98) || (lower b =? 111) || (lower b =? 120))
    then underscore_loop (lower b =? 120) SeenDigit s'
    else underscore_loop false SeenStart s
  | _ => underscore_loop false SeenStart s
  end.

(** ** Integers *)

(** The value of a digit, or a syntax error. *)
Definition digit_val (c : ascii) : option Z :=
  if is_digit c then Some (code c - 48)
  else if between 97 122 (lower c) then Some (lower c - 97 + 10)
  else None.

(** The loop of [ParseUint] in base 0: the value and whether underscores were seen. *)
Fixpoint uint_loop (base : Z) (s : string) (n : Z) (underscores : bool) : Z * bool + ParseErr :=
  match s with
  | EmptyString => inl (n, underscores)
  | String c s' =>
    if code c =? 95 then uint_loop base s' n true
    else match digit_val c with
    | None => inr ErrSyntax
    | Some d =>
      if base <=? d then inr ErrSyntax
      else if MaxUint64 / base + 1 <=? n then inr ErrRange
      else
        let n := uint64 (n * base) in
        let n1 := uint64 (n + d) in
        if (n1 <? n) || (MaxUint64 <? n1) then inr ErrRange else uint_loop base s' n1 underscores
    end
  end.

(** The base of a literal and its digits. *)
Definition base_prefix (s : string) : Z * string :=
  match s with
  | String z s1 =>
    if code z =? 48 then
      match s1 with
      | String b (String _ _ as s2) =>
        if lower b =? 98 then (2, s2) else if lower b =? 111 then (8, s2)
        else if lower b =? 120 then (16, s2) else (8, s1)
      | _ => (8, s1)
      end
    else (10, s)
  | EmptyString => (10, s)
  end.

(** [ParseUint(s, 0, 64)]. *)
Definition ParseUint (s : string) : Z + ParseErr :=
  if decide (s = EmptyString) then inr ErrSyntax
  else
    let '(base, ds) := base_prefix s in
    match uint_loop base ds 0 false with
    | inr e => inr e
    | inl (n, underscores) =>
      if underscores && negb (underscoreOK s) then inr ErrSyntax else inl n
    end.

(** The end of [ParseInt]: the sign, and the range of an int64. *)
Definition signed_int (neg : bool) (un : Z) : Z + ParseErr :=
  if negb neg && (2 ^ 63 <=? un) then inr ErrRange
  else if neg && (2 ^ 63 <? un) then inr ErrRange
  else inl (if neg then int64 (- int64 un) else int64 un).

(** [ParseInt(s, 0, 64)]. *)
Definition ParseInt (s : string) : Z + ParseErr :=
  match s with
  | EmptyString => inr ErrSyntax
  | String c s' =>
    let neg := code c =? 45 in
    let s := if neg || (code c =? 43) then s' else s in
    match ParseUint s with
    | inr ErrSyntax => inr ErrSyntax
    | inr ErrRange => signed_int neg MaxUint64
    | inl un => signed_int neg un
    end
  end.

(** [ParseInt(s, 10, 64)]: no prefixes and no underscores. *)
Fixpoint uint10_loop (s : string) (n : Z) : Z + ParseErr :=
  match s with
  | EmptyString => inl n
  | String c s' =>
    match digit_val c with
    | None => inr ErrSyntax
    | Some d =>
      if 10 <=? d then inr ErrSyntax
      else if MaxUint64 / 10 + 1 <=? n then inr ErrRange
      else
        let n := uint64 (n * 10) in
        let n1 := uint64 (n + d) in
        if (n1 <? n) || (MaxUint64 <? n1) then inr ErrRange else uint10_loop s' n1
    end
  end.
Definition ParseInt10 (s : string) : Z + ParseErr :=
  match s with
  | EmptyString => inr ErrSyntax
  | String c s' =>
    let neg := code c =? 45 in
    let s := if neg || (code c =? 43) then s' else s in
    if decide (s = EmptyString) then inr ErrSyntax else
    match uint10_loop s 0 with
    | inr ErrSyntax => inr ErrSyntax
    | inr ErrRange => signed_int neg MaxUint64
    | inl un => signed_int neg un
    end
  end.

(** ** Floats *)

Fixpoint fold_eq (s t : string) : bool :=
  match s, t with
  | EmptyString, EmptyString => true
  | String a s', String b t' =>
    let up c := if between 65 90 (code c) then code c + 32 else code c in
    (up a =? up b) && fold_eq s' t'
  | _, _ => false
  end.

(** [special]: infinities and NaN. *)
Definition special (s : string) : option float64 :=
  if fold_eq s "+inf" || fold_eq s "+infinity" || fold_eq s "inf" || fold_eq s "infinity"
  then Some (S754_infinity false)
  else if fold_eq s "-inf" || fold_eq s "-infinity" then Some (S754_infinity true)
  else if fold_eq s "nan" then Some S754_nan
  else None.

(** The mantissa: digits with at most one point. The result has the digits as
    an integer, the number of digits after the point, and the rest of the text. *)
Fixpoint mantissa_loop (base : Z) (s : string) (sawdot sawdigits underscores : bool) (mant frac : Z) :
    Z * Z * bool * bool * string :=
  match s with
  | EmptyString => (mant, frac, sawdigits, underscores, s)
  | String c s' =>
    if code c =? 95 then mantissa_loop base s' sawdot sawdigits true mant frac
    else if (code c =? 46) && negb sawdot then mantissa_loop base s' true sawdigits underscores mant frac
    else if is_digit c then
      mantissa_loop base s' sawdot true underscores (mant * base + (code c - 48)) (if sawdot then frac + 1 else frac)
    else if (base =? 16) && is_hex_letter c then
      mantissa_loop base s' sawdot true underscores (mant * base + (lower c - 97 + 10)) (if sawdot then frac + 1 else frac)
    else (mant, frac, sawdigits, underscores, s)
  end.

(** The digits of an exponent, which stops growing at 10000. *)
Fixpoint exp_loop (s : string) (e : Z) (underscores : bool) : Z * bool * string :=
  match s with
  | EmptyString => (e, underscores, s)
  | String c s' =>
    if code c =? 95 then exp_loop s' e true
    else if is_digit c then exp_loop s' (if e <? 10000 then e * 10 + (code c - 48) else e) underscores
    else (e, underscores, s)
  end.

(** The exponent part: [None] is a syntax error. *)
Definition read_exp (hex : bool) (s : string) : option (Z * bool * string) :=
  match s with
  | EmptyString => if hex then None else Some (0, false, s)
  | String c s' =>
    if lower c =? (if hex then 112 else 101) then
      let esign := match s' with String d _ => if code d =? 45 then -1 else 1 | _ => 1 end in
      let s'' := strip_sign s' in
      match s'' with
      | String d _ => if is_digit d then let '(e, u, rest) := exp_loop s'' 0 false in Some (e * esign, u, rest) else None
      | EmptyString => None
      end
    else if hex then None else Some (0, false, s)
  end.

(** The float nearest to [m * 2^e], [m > 0]. *)
Definition of_binary (m e : Z) : float64 := binary_normalize f64_prec f64_emax m e false.

Definition with_sign (neg : bool) (x : float64) : float64 := if neg then SFopp x else x.

(** [ParseFloat(s, 64)]: [None] is an error; a result that overflows is a range
    error. *)
Definition ParseFloat (s : string) : option float64 :=
  match special s with
  | Some x => Some x
  | None =>
    let neg := match s with String c _ => code c =? 45 | _ => false end in
    let s1 := strip_sign s in
    let '(hex, s2) := match s1 with
      | String z (String b (String _ _ as s2)) =>
        if (code z =? 48) && (lower b =? 120) then (true, s2) else (false, s1)
      | _ => (false, s1) end in
    let '(mant, frac, sawdigits, u1, s3) :=
      mantissa_loop (if hex then 16 else 10) s2 false false false 0 0 in
    if negb sawdigits then None
    else match read_exp hex s3 with
    | None => None
    | Some (e, u2, s4) =>
      if negb (bool_decide (s4 = EmptyString)) then None
      else if (u1 || u2) && negb (underscoreOK s) then None
      else
        let x := if mant =? 0 then S754_zero false
                 else if hex then of_binary mant (e - 4 * frac) else of_decimal mant (e - frac) in
        if f_is_inf x then None else Some (with_sign neg x)
    end
  end.

Lemma Parse_examples :
  ParseUint "0x_1F" = inl 31 /\ ParseUint "0b101" = inl 5 /\ ParseUint "017" = inl 15 /\ ParseUint "0" = inl 0 /\
  ParseUint "1__0" = inr ErrSyntax /\ ParseUint "18446744073709551615" = inl MaxUint64 /\
  ParseUint "18446744073709551616" = inr ErrRange /\ ParseUint "12a" = inr ErrSyntax /\
  ParseInt "-9223372036854775808" = inl MinInt64 /\ ParseInt "9223372036854775808" = inr ErrRange /\
  ParseInt "+5" = inl 5 /\ ParseInt "-" = inr ErrSyntax /\
  ParseFloat "0.1" = Some (f_frac 1 10) /\ ParseFloat "-1.5e3" = Some (f_of_Z (-1500)) /\
  ParseFloat "0x1p-2" = Some (f_frac 1 4) /\ ParseFloat "1e400" = None /\ ParseFloat "." = None /\
  ParseFloat "-Inf" = Some (S754_infinity true) /\ ParseFloat "1_0.5" = Some (f_frac 21 2) /\ ParseFloat "1e" = None.
Proof. vm_compute. split_and!; reflexivity. Qed.

(** ** Round trips *)

Lemma code_digit d : 0 <= d <= 9 -> code (digit_char d) = 48 + d.
Proof. intros Hd. unfold code, byte_of, digit_char. rewrite N_ascii_embedding; lia. Qed.

Lemma read_digits_le s acc v : 0 <= acc -> read_digits s acc = Some v -> acc <= v.
Proof.
  revert acc. induction s as [|c s IH]; intros acc Ha; simpl; [intros [= ->]; lia|].
  destruct (Z.leb_spec 0 (Z.of_N (N_of_ascii c) - 48)); [|done].
  destruct (_ <=? 9); [|done]. simpl. intros E. apply IH in E; lia.
Qed.

(** Decimal digits that denote a 64-bit value are read as it. *)
Lemma uint_loop_digits s acc v u :
  0 <= acc -> v <= MaxUint64 -> read_digits s acc = Some v -> uint_loop 10 s acc u = inl (v, u).
Proof.
  revert acc. induction s as [|c s IH]; intros acc Ha Hv; simpl; [by intros [= ->]|].
  unfold digit_val, is_digit, between. change (Z.of_N (N_of_ascii c)) with (code c).
  destruct (Z.leb_spec 0 (code c - 48)); [|done]. destruct (Z.leb_spec (code c - 48) 9); [|done].
  simpl. intros E. rewrite (proj2 (Z.eqb_neq _ _)) by lia.
  rewrite (proj2 (Z.leb_le 48 _)), (proj2 (Z.leb_le _ 57)) by lia. simpl.
  assert (acc * 10 + (code c - 48) <= v) as Hle by (eapply read_digits_le; [|exact E]; lia).
  unfold MaxUint64 in *.
  rewrite (proj2 (Z.leb_gt 10 _)) by lia.
  change ((2 ^ 64 - 1) / 10 + 1) with 1844674407370955162.
  rewrite (proj2 (Z.leb_gt 1844674407370955162 _)) by lia.
  rewrite (uint64_small (acc * 10)), uint64_small by (unfold MaxUint64; lia).
  rewrite (proj2 (Z.ltb_ge (acc * 10 + _) _)), (proj2 (Z.ltb_ge (2 ^ 64 - 1) _)) by lia. simpl.
  apply IH; [lia|done|done].
Qed.

Lemma digits_loop_first fuel n acc :
  0 < n < 10 ^ Z.of_nat fuel ->
  exists d s, 1 <= d <= 9 /\ digits_loop fuel n acc = String (digit_char d) s.
Proof.
  revert n acc. induction fuel as [|fuel IH]; intros n acc Hn; [simpl in Hn; lia|]. cbn [digits_loop].
  pose proof (Z.mod_pos_bound n 10 ltac:(lia)). pose proof (Z.div_mod n 10 ltac:(lia)).
  destruct (Z.eqb_spec (n / 10) 0) as [E|E].
  - exists (n mod 10), acc. split; [lia|done].
  - apply IH. rewrite Nat2Z.inj_succ, Z.pow_succ_r in Hn by lia. lia.
Qed.

Lemma dec_fuel_enough n : 0 < n -> n < 10 ^ Z.of_nat (dec_fuel n).
Proof.
  intros Hn. pose proof (Z.log2_spec n Hn) as [_ Hl]. unfold dec_fuel.
  assert (Z.of_nat (S (Z.to_nat (Z.log2 n))) = Z.succ (Z.log2 n)) as -> by (pose proof (Z.log2_nonneg n); lia).
  eapply Z.lt_le_trans; [exact Hl|]. apply Z.pow_le_mono_l. lia.
Qed.

Lemma FormatUint_first n : 0 < n -> exists d s, 1 <= d <= 9 /\ FormatUint n = String (digit_char d) s.
Proof. intros Hn. apply digits_loop_first. split; [done|by apply dec_fuel_enough]. Qed.

Lemma ParseUint_FormatUint n : 0 <= n <= MaxUint64 -> ParseUint (FormatUint n) = inl n.
Proof.
  intros Hn. destruct (decide (n = 0)) as [->|Hz]; [reflexivity|].
  pose proof (FormatUint_read n ltac:(lia)) as Hr.
  destruct (FormatUint_first n ltac:(lia)) as (d & s & Hd & E). rewrite E in *.
  unfold ParseUint, base_prefix. rewrite decide_False by done.
  rewrite code_digit, (proj2 (Z.eqb_neq _ _)) by lia.
  rewrite (uint_loop_digits _ 0 n false ltac:(lia) ltac:(lia) Hr). done.
Qed.

Lemma signed_int_abs z : MinInt64 <= z <= MaxInt64 -> signed_int (z <? 0) (Z.abs z) = inl z.
Proof.
  intros Hz. unfold signed_int, MinInt64, MaxInt64 in *. destruct (Z.ltb_spec z 0); cbn [negb andb].
  - rewrite (proj2 (Z.ltb_ge _ _)) by lia. f_equal. destruct (decide (z = MinInt64)) as [->|Hne]; [reflexivity|].
    unfold MinInt64 in Hne. rewrite (int64_small (Z.abs z)), int64_small; unfold MinInt64, MaxInt64; lia.
  - rewrite Z.abs_eq, (proj2 (Z.leb_gt _ _)) by lia. by rewrite int64_small by (unfold MinInt64, MaxInt64; lia).
Qed.

Lemma ParseInt_FormatInt z : MinInt64 <= z <= MaxInt64 -> ParseInt (FormatInt z) = inl z.
Proof.
  intros Hz. pose proof (signed_int_abs z Hz) as Hs. unfold MinInt64, MaxInt64 in Hz. unfold FormatInt.
  destruct (Z.ltb_spec z 0).
  - unfold ParseInt. change (code "-"%char =? 45) with true. cbn [orb].
    rewrite ParseUint_FormatUint by (unfold MaxUint64; lia). by rewrite Z.abs_neq in Hs by lia.
  - destruct (decide (z = 0)) as [->|Hne]; [reflexivity|]. rewrite Z.abs_eq in Hs by lia.
    pose proof (ParseUint_FormatUint z ltac:(unfold MaxUint64; lia)) as Hp.
    destruct (FormatUint_first z ltac:(lia)) as (d & s & Hd & E). rewrite E in *.
    unfold ParseInt. rewrite code_digit by lia.
    rewrite (proj2 (Z.eqb_neq (48 + d) 45)), (proj2 (Z.eqb_neq (48 + d) 43)) by lia. cbn [orb]. by rewrite Hp.
Qed.

Lemma uint10_loop_digits s acc v :
  0 <= acc -> v <= MaxUint64 -> read_digits s acc = Some v -> uint10_loop s acc = inl v.
Proof.
  intros Ha Hv E. pose proof (uint_loop_digits s acc v false Ha Hv E) as H. revert acc Ha E H.
  induction s as [|c s IH]; intros acc Ha; simpl; [intros _; congruence|].
  destruct (Z.leb_spec 0 (Z.of_N (N_of_ascii c) - 48)); [|done]. destruct (Z.leb_spec (Z.of_N (N_of_ascii c) - 48) 9); [|done].
  change (Z.of_N (N_of_ascii c)) with (code c) in *. rewrite (proj2 (Z.eqb_neq (code c) 95)) by lia.
  simpl. intros E. destruct (digit_val c) as [d|] eqn:Ed; [|done].
  assert (d = code c - 48) as ->.
  { revert Ed. unfold digit_val, is_digit, between. rewrite (proj2 (Z.leb_le 48 _)), (proj2 (Z.leb_le _ 57)) by lia. by intros [= <-]. }
  destruct (10 <=? _); [done|]. destruct (_ <=? acc); [done|].
  assert (acc * 10 + (code c - 48) <= v) as Hle by (eapply read_digits_le; [|exact E]; lia).
  unfold MaxUint64 in *. rewrite (uint64_small (acc * 10)), uint64_small by (unfold MaxUint64; lia).
  destruct (_ || _); [done|]. apply IH; [lia|done].
Qed.

Lemma FormatUint_nonempty n : 0 <= n -> FormatUint n <> EmptyString.
Proof.
  intros Hn. destruct (decide (n = 0)) as [->|Hz]; [done|]. by destruct (FormatUint_first n ltac:(lia)) as (d & s & _ & ->).
Qed.

Lemma ParseInt10_FormatInt z : MinInt64 <= z <= MaxInt64 -> ParseInt10 (FormatInt z) = inl z.
Proof.
  intros Hz. pose proof (signed_int_abs z Hz) as Hs. unfold MinInt64, MaxInt64 in Hz. unfold FormatInt.
  assert (uint10_loop (FormatUint (Z.abs z)) 0 = inl (Z.abs z)) as Hu
    by (apply uint10_loop_digits; [lia|unfold MaxUint64; lia|by apply FormatUint_read; lia]).
  pose proof (FormatUint_nonempty (Z.abs z) ltac:(lia)) as Hne. destruct (Z.ltb_spec z 0) as [Hneg|Hpos].
  - rewrite Z.abs_neq in * by lia. unfold ParseInt10. change (code "-"%char =? 45) with true. cbn [orb].
    by rewrite decide_False, Hu.
  - destruct (decide (z = 0)) as [->|Hz0]; [reflexivity|]. rewrite Z.abs_eq in * by lia.
    destruct (FormatUint_first z ltac:(lia)) as (d & s & Hd & E). rewrite E in *.
    unfold ParseInt10. rewrite code_digit by lia.
    rewrite (proj2 (Z.eqb_neq (48 + d) 45)), (proj2 (Z.eqb_neq (48 + d) 43)) by lia. cbn [orb].
    by rewrite decide_False, Hu.
Qed.

(** What the formatting of an integer is made of. *)
Lemma read_digits_chars s acc v :
  read_digits s acc = Some v -> printable s = true /\ forall c, is_digit c = false -> free_of c s = true.
Proof.
  revert acc. induction s as [|d s IH]; intros acc; simpl; [done|].
  destruct (Z.leb_spec 0 (Z.of_N (N_of_ascii d) - 48)); [|done]. destruct (Z.leb_spec (Z.of_N (N_of_ascii d) - 48) 9); [|done].
  cbn. intros E. destruct (IH _ E) as [Hp Hf]. change (Z.of_N (N_of_ascii d)) with (byte_of d) in *. split.
  - unfold Strings.between. rewrite (proj2 (Z.leb_le 33 _)), (proj2 (Z.leb_le _ 126)) by lia. done.
  - intros c Hc. rewrite Hf by done. rewrite andb_true_r. apply negb_true_iff, bool_decide_eq_false. intros ->.
    unfold is_digit, between, code in Hc. rewrite (proj2 (Z.leb_le 48 _)), (proj2 (Z.leb_le _ 57)) in Hc by lia. done.
Qed.

Lemma FormatInt_chars z :
  printable (FormatInt z) = true /\ FormatInt z <> EmptyString /\
  forall c, is_digit c = false -> code c <> 45 -> free_of c (FormatInt z) = true.
Proof.
  unfold FormatInt. destruct (z <? 0) eqn:E.
  - apply Z.ltb_lt in E. destruct (read_digits_chars _ _ _ (FormatUint_read (- z) ltac:(lia))) as [Hp Hf].
    split; [done|]. split; [done|]. intros c Hc Hm. cbn [free_of]. rewrite Hf by done.
    rewrite bool_decide_false; [done|]. by intros <-.
  - apply Z.ltb_ge in E. destruct (read_digits_chars _ _ _ (FormatUint_read z ltac:(lia))) as [Hp Hf].
    split; [done|]. split; [by apply FormatUint_nonempty|]. auto.
Qed.

Lemma ParseBool_FormatBool b : ParseBool (FormatBool b) = Some b.
Proof. by destruct b. Qed.
