(* ===== verification/Converter.v ===== *)
(** * The converter processor

    [plugins/processors/converter/converter.go]: tags and fields selected by
    key patterns are converted to another type, to a field or a tag, or to the
    measurement name; what cannot be converted is dropped with a logged error.
    The loops range over a copy of the tag or field map, in any order.

    Converting a float that does not fit an integer type is
    implementation-dependent in Go: [FloatConv] stands for what the compiler does. *)

From S2P Require Import Prelude Float64 Strconv Parse Metric Tracking Selfstat Interfaces Filter Running Accumulator Processors.

(** ** Conversions of values *)

Class FloatConv := {
  int64_out : float64 -> Z;
  uint64_out : float64 -> Z;
  int64_out_range : forall x, MinInt64 <= int64_out x <= MaxInt64;
  uint64_out_range : forall x, 0 <= uint64_out x <= MaxUint64;
}.

(** [math.Round] of a finite number, as an integer: half away from zero. *)
Definition round_Z (s : bool) (m : positive) (e : Z) : Z :=
  let a := if 0 <=? e then Zpos m * 2 ^ e
           else let d := 2 ^ (- e) in (2 * Zpos m + d) / (2 * d) in
  if s then - a else a.

(** Go's [==] on two interface values of these types. *)
Definition iface_eqb (a b : Scalar) : bool :=
  match a, b with
  | SFloat64 x, SFloat64 y => f_eqb x y
  | SInt64 x, SInt64 y => x =? y
  | SInt x, SInt y => x =? y
  | SUint64 x, SUint64 y => x =? y
  | SString x, SString y => bool_decide (x = y)
  | SBool x, SBool y => Bool.eqb x y
  | _, _ => false
  end.

(** A case of several types keeps the interface, and the constant 0 is an [int]. *)
Definition toBool (v : Val) : option bool :=
  match v with
  | VInt z => if negb (iface_eqb (SInt64 z) (SInt 0)) then Some true else None
  | VUint z => if negb (iface_eqb (SUint64 z) (SInt 0)) then Some true else None
  | VFloat f => if negb (iface_eqb (SFloat64 f) (SInt 0)) then Some true else None
  | VBool b => Some b
  | VString s => ParseBool s
  | VNil => None
  end.

Section Values.
Context `{FloatConv}.

(** [int64(math.Round(x))] and [uint64(math.Round(x))]. *)
Definition int64_of_round (x : float64) : Z :=
  match x with
  | S754_zero _ => 0
  | S754_finite s m e =>
    let z := round_Z s m e in if (MinInt64 <=? z) && (z <=? MaxInt64) then z else int64_out x
  | _ => int64_out x
  end.
Definition uint64_of_round (x : float64) : Z :=
  match x with
  | S754_zero _ => 0
  | S754_finite s m e =>
    let z := round_Z s m e in if (0 <=? z) && (z <=? MaxUint64) then z else uint64_out x
  | _ => uint64_out x
  end.

Definition float_toInteger (x : float64) : Z :=
  if f_ltb x (f_of_Z MinInt64) then MinInt64
  else if f_gtb x (f_of_Z MaxInt64) then MaxInt64
  else int64_of_round x.

Definition toInteger (v : Val) : option Z :=
  match v with
  | VInt z => Some z
  | VUint z => if z <=? MaxInt64 then Some (int64 z) else Some MaxInt64
  | VFloat x => Some (float_toInteger x)
  | VBool b => Some (if b then 1 else 0)
  | VString s =>
    match ParseInt s with
    | inl z => Some z
    | inr _ => x ← ParseFloat s; Some (float_toInteger x)
    end
  | VNil => None
  end.

Definition float_toUnsigned (x : float64) : Z :=
  if f_ltb x f_zero then 0
  else if f_gtb x (f_of_Z MaxUint64) then MaxUint64
  else uint64_of_round x.

Definition toUnsigned (v : Val) : option Z :=
  match v with
  | VUint z => Some z
  | VInt z => if z <? 0 then Some 0 else Some (uint64 z)
  | VFloat x => Some (float_toUnsigned x)
  | VBool b => Some (if b then 1 else 0)
  | VString s =>
    match ParseUint s with
    | inl z => Some z
    | inr _ => x ← ParseFloat s; Some (float_toUnsigned x)
    end
  | VNil => None
  end.
End Values.

Definition toFloat (v : Val) : option float64 :=
  match v with
  | VInt z => Some (f_of_Z z)
  | VUint z => Some (f_of_Z z)
  | VFloat x => Some x
  | VBool b => Some (if b then f_one else f_zero)
  | VString s => ParseFloat s
  | VNil => None
  end.

Definition toString (v : Val) : option string :=
  match v with
  | VInt z => Some (FormatInt z)
  | VUint z => Some (FormatUint z)
  | VFloat x => Some (FormatFloat_f x)
  | VBool b => Some (FormatBool b)
  | VString s => Some s
  | VNil => None
  end.

(** ** The plugin *)

Record Conversion := mkConversion {
  CMeasurement : list string;
  CTag : list string;
  CString : list string;
  CInteger : list string;
  CUnsigned : list string;
  CBoolean : list string;
  CFloat : list string;
}.

Section Converter.
Context `{Glob}.

Record ConversionFilter := mkCF {
  cfMeasurement : option Matcher;
  cfTag : option Matcher;
  cfString : option Matcher;
  cfInteger : option Matcher;
  cfUnsigned : option Matcher;
  cfBoolean : option Matcher;
  cfFloat : option Matcher;
}.

Record Converter := mkConverter {
  conv_Tags : option Conversion;
  conv_Fields : option Conversion;
  conv_Log : Logger;
  tagConversions : option ConversionFilter;
  fieldConversions : option ConversionFilter;
}.

Definition sbind {A B : Type} (x : A + err) (k : A -> B + err) : B + err :=
  match x with inl a => k a | inr e => inr e end.

Definition compileFilter (conv : option Conversion) : option ConversionFilter + err :=
  match conv with
  | None => inl None
  | Some conv =>
    sbind (Compile (CMeasurement conv)) (fun cm =>
    sbind (Compile (CTag conv)) (fun ct =>
    sbind (Compile (CString conv)) (fun cs =>
    sbind (Compile (CInteger conv)) (fun ci =>
    sbind (Compile (CUnsigned conv)) (fun cu =>
    sbind (Compile (CBoolean conv)) (fun cb =>
    sbind (Compile (CFloat conv)) (fun cf =>
    inl (Some (mkCF cm ct cs ci cu cb cf)))))))))
  end.

(** [compile]; the error of a configuration without conversions. *)
Definition conv_compile (no_filters : err) (p : Converter) : Converter + err :=
  sbind (compileFilter (conv_Tags p)) (fun tf =>
  sbind (compileFilter (conv_Fields p)) (fun ff =>
  match tf, ff with
  | None, None => inr no_filters
  | _, _ => inl (mkConverter (conv_Tags p) (conv_Fields p) (conv_Log p) tf ff)
  end)).

Definition matches (f : option Matcher) (k : string) : bool :=
  match f with Some f => Match f k | None => false end.

Context `{FloatConv} {W : Type} `{StatEnv W}.

(** The body of the loop of [convertTags]: the integer case goes on to the
    cases after it. *)
Definition convert_tag (log : Logger) (cf : ConversionFilter) (st : metric * W) (kv : string * string) :
    metric * W :=
  let '(m, w) := st in
  let '(key, value) := kv in
  let v := VString value in
  let fail m w := (RemoveTag key m, Errorf log w) in
  let put x m := AddField key x (RemoveTag key m) in
  if matches (cfMeasurement cf) key then (SetName value (RemoveTag key m), w)
  else if matches (cfString cf) key then (put (GoScalar (SString value)) m, w)
  else
    let after m :=
      if matches (cfUnsigned cf) key then
        match toUnsigned v with None => fail m w | Some x => (put (GoScalar (SUint64 x)) m, w) end
      else if matches (cfBoolean cf) key then
        match toBool v with None => fail m w | Some x => (put (GoScalar (SBool x)) m, w) end
      else if matches (cfFloat cf) key then
        match toFloat v with None => fail m w | Some x => (put (GoScalar (SFloat64 x)) m, w) end
      else (m, w) in
    if matches (cfInteger cf) key then
      match toInteger v with None => fail m w | Some x => after (put (GoScalar (SInt64 x)) m) end
    else after m.

Definition convertTags `{MapRange} (p : Converter) (m : metric) (w : W) : metric * W :=
  match tagConversions p with
  | None => (m, w)
  | Some cf => foldl (convert_tag (conv_Log p) cf) (m, w) (range_map (Tags m))
  end.

(** The body of the loop of [convertFields]. *)
Definition convert_field (log : Logger) (cf : ConversionFilter) (st : metric * W) (kv : string * Val) :
    metric * W :=
  let '(m, w) := st in
  let '(key, v) := kv in
  let fail := (RemoveField key m, Errorf log w) in
  let put x := (AddField key (GoScalar x) (RemoveField key m), w) in
  if matches (cfMeasurement cf) key then
    match toString v with None => fail | Some s => (SetName s (RemoveField key m), w) end
  else if matches (cfTag cf) key then
    match toString v with None => fail | Some s => (AddTag key s (RemoveField key m), w) end
  else if matches (cfFloat cf) key then
    match toFloat v with None => fail | Some x => put (SFloat64 x) end
  else if matches (cfInteger cf) key then
    match toInteger v with None => fail | Some x => put (SInt64 x) end
  else if matches (cfUnsigned cf) key then
    match toUnsigned v with None => fail | Some x => put (SUint64 x) end
  else if matches (cfBoolean cf) key then
    match toBool v with None => fail | Some x => put (SBool x) end
  else if matches (cfString cf) key then
    match toString v with None => fail | Some s => put (SString s) end
  else (m, w).

Definition convertFields `{MapRange} (p : Converter) (m : metric) (w : W) : metric * W :=
  match fieldConversions p with
  | None => (m, w)
  | Some cf => foldl (convert_field (conv_Log p) cf) (m, w) (range_map (Fields m))
  end.

Fixpoint conv_loop `{MapRange} (p : Converter) (ms : list tmetric) (w : W) : list tmetric * W :=
  match ms with
  | [] => ([], w)
  | m :: ms' =>
    let '(b, w) := convertTags p (base m) w in
    let '(b, w) := convertFields p b w in
    let '(out, w) := conv_loop p ms' w in
    (with_base b m :: out, w)
  end.

Definition conv_Apply `{MapRange} (ms : list tmetric) (p : Converter) (w : W) :
    option (list tmetric * Converter * W) :=
  let '(out, w) := conv_loop p ms w in Some (out, p, w).
End Converter.

#[export] Instance converter_processor `{Glob} `{FloatConv} `{StatEnv W} `{MapRange} : Processor Converter W := conv_Apply.

(** ** Loops that treat each key by itself *)

Section KeyLoop.
Context {V W : Type} (step : metric * W -> string * V -> metric * W).
Context (ft : string -> V -> option string -> option string).
Context (ff : string -> V -> option Val -> option Val).
Context (fn : string -> V -> option string).

(** A round sets the entries of its key in both maps, and perhaps the name. *)
Definition by_key : Prop := forall m w k v, wf m ->
  let m' := (step (m, w) (k, v)).1 in
  wf m' /\
  (forall k', Tags m' !! k' = if decide (k' = k) then ft k v (Tags m !! k') else Tags m !! k') /\
  (forall k', Fields m' !! k' = if decide (k' = k) then ff k v (Fields m !! k') else Fields m !! k') /\
  name m' = default (name m) (fn k v) /\ tm m' = tm m /\ tp m' = tp m.

Lemma key_loop l m w :
  by_key -> wf m -> NoDup l.*1 ->
  let m' := (foldl step (m, w) l).1 in
  wf m' /\
  (forall k, Tags m' !! k = match snd <$> key_find fst k l with
                            | Some v => ft k v (Tags m !! k) | None => Tags m !! k end) /\
  (forall k, Fields m' !! k = match snd <$> key_find fst k l with
                              | Some v => ff k v (Fields m !! k) | None => Fields m !! k end) /\
  tm m' = tm m /\ tp m' = tp m /\
  (name m' = name m /\ (forall k v, (k, v) ∈ l -> fn k v = None) \/
   exists k v, (k, v) ∈ l /\ fn k v = Some (name m')).
Proof.
  intros Hs. revert m w. induction l as [|[k v] l IH]; intros m w Hwf Hnd; cbn [foldl].
  { split_and!; try done. left. split; [done|]. set_solver. }
  rewrite fmap_cons, NoDup_cons in Hnd. destruct Hnd as [Hk Hnd].
  specialize (Hs m w k v Hwf) as H1. destruct (step (m, w) (k, v)) as [m1 w1]. simpl in H1.
  destruct H1 as (Hw1 & Ht1 & Hf1 & Hn1 & Hm1 & Hp1).
  destruct (IH m1 w1 Hw1 Hnd) as (Hw' & Ht' & Hf' & Hm' & Hp' & Hn'). cbn [key_find].
  assert (forall k', k' = k -> key_find fst k' l = None) as Hnone
    by (intros ? ->; by apply key_find_None).
  split_and!; [done| | |congruence|congruence|].
  - intros k'. rewrite Ht', Ht1. simpl. destruct (decide (k' = k)) as [E|E].
    + rewrite Hnone, decide_True by done. by rewrite E.
    + by rewrite (decide_False (P := k = k')) by congruence.
  - intros k'. rewrite Hf', Hf1. simpl. destruct (decide (k' = k)) as [E|E].
    + rewrite Hnone, decide_True by done. by rewrite E.
    + by rewrite (decide_False (P := k = k')) by congruence.
  - destruct Hn' as [[Hn' Hall]|(k' & v' & Hin & Hn')].
    + destruct (fn k v) as [s|] eqn:Efn; simpl in Hn1.
      * right. exists k, v. split; [by left|]. congruence.
      * left. split; [congruence|]. intros k' v' [[= -> ->]|Hin]%elem_of_cons; [done|by apply Hall].
    + right. exists k', v'. split; [by right|done].
Qed.
End KeyLoop.

(** ** What happens to one entry *)

Inductive Outcome :=
| Keep | Gone | ToName (s : string) | ToTag (s : string) | ToField (v : Val).

Definition out_field (o : Outcome) (cur : option Val) : option Val :=
  match o with Keep => cur | ToField v => Some v | _ => None end.
Definition out_tag (o : Outcome) (cur : option string) : option string :=
  match o with ToTag s => Some s | _ => cur end.
Definition out_name (o : Outcome) : option string :=
  match o with ToName s => Some s | _ => None end.

Section Spec.
Context `{Glob} `{FloatConv} {W : Type} `{StatEnv W}.

(** The first target type whose patterns match decides; no value of that type
    drops the field. *)
Definition field_outcome (cf : ConversionFilter) (k : string) (v : Val) : Outcome :=
  let to {A} (mk : A -> Outcome) (x : option A) : Outcome := from_option mk Gone x in
  if matches (cfMeasurement cf) k then to ToName (toString v)
  else if matches (cfTag cf) k then to ToTag (toString v)
  else if matches (cfFloat cf) k then to (fun x => ToField (VFloat x)) (toFloat v)
  else if matches (cfInteger cf) k then to (fun x => ToField (VInt x)) (toInteger v)
  else if matches (cfUnsigned cf) k then to (fun x => ToField (VUint x)) (toUnsigned v)
  else if matches (cfBoolean cf) k then to (fun x => ToField (VBool x)) (toBool v)
  else if matches (cfString cf) k then to (fun x => ToField (VString x)) (toString v)
  else Keep.

Lemma convert_field_outcome log cf m (w : W) k v :
  exists w', convert_field log cf (m, w) (k, v) =
  (match field_outcome cf k v with
   | Keep => m
   | Gone => RemoveField k m
   | ToName s => SetName s (RemoveField k m)
   | ToTag s => AddTag k s (RemoveField k m)
   | ToField x => AddField k (go_of_val x) (RemoveField k m)
   end, w').
Proof.
  unfold convert_field, field_outcome.
  destruct (matches (cfMeasurement cf) k); [destruct (toString v); simpl; eauto|].
  destruct (matches (cfTag cf) k); [destruct (toString v); simpl; eauto|].
  destruct (matches (cfFloat cf) k); [destruct (toFloat v); simpl; eauto|].
  destruct (matches (cfInteger cf) k); [destruct (toInteger v); simpl; eauto|].
  destruct (matches (cfUnsigned cf) k); [destruct (toUnsigned v); simpl; eauto|].
  destruct (matches (cfBoolean cf) k); [destruct (toBool v); simpl; eauto|].
  destruct (matches (cfString cf) k); [destruct (toString v); simpl; eauto|]. simpl; eauto.
Qed.

Lemma lookup_delete_if {X} (fs : gmap string X) k k' :
  delete k fs !! k' = if decide (k' = k) then None else fs !! k'.
Proof. case_decide as E; [subst; apply lookup_delete_eq|by apply lookup_delete_ne]. Qed.

Lemma lookup_insert_if {X} (fs : gmap string X) k x k' :
  <[k := x]> fs !! k' = if decide (k' = k) then Some x else fs !! k'.
Proof. case_decide as E; [subst; apply lookup_insert_eq|by apply lookup_insert_ne]. Qed.

Lemma convert_field_by_key log cf :
  by_key (convert_field (W := W) log cf) (fun k v => out_tag (field_outcome cf k v))
    (fun k v => out_field (field_outcome cf k v)) (fun k v => out_name (field_outcome cf k v)).
Proof.
  intros m w k v Hwf. destruct (convert_field_outcome log cf m w k v) as [w' ->]. simpl.
  pose proof (RemoveField_wf k m Hwf) as Hw1. pose proof (Fields_RemoveField k m Hwf) as Hf1.
  destruct (field_outcome cf k v) as [| |s|s|x]; simpl out_tag; simpl out_field; simpl out_name.
  - split_and!; try done; intros k'; by case_decide.
  - split_and!; try done; intros k'; [by case_decide|]. by rewrite Hf1, lookup_delete_if.
  - split_and!; try done; [by apply set_name_wf| |]; intros k'; [by case_decide|].
    change (Fields (SetName s (RemoveField k m))) with (Fields (RemoveField k m)).
    by rewrite Hf1, lookup_delete_if.
  - split_and!; try done; [by apply AddTag_wf| |]; intros k'.
    + rewrite Tags_AddTag by done. by rewrite lookup_insert_if.
    + change (Fields (AddTag k s (RemoveField k m))) with (Fields (RemoveField k m)).
      by rewrite Hf1, lookup_delete_if.
  - split_and!; try done; [by apply AddField_wf| |]; intros k'; [by case_decide|].
    rewrite Fields_AddField by apply Hw1.
    rewrite convertField_go_of_val, Hf1, lookup_insert_if, lookup_delete_if. by case_decide.
Qed.

(** For a tag, an integer conversion is replaced by a later one that matches too. *)
Definition tag_outcome (cf : ConversionFilter) (k s : string) : Outcome :=
  let v := VString s in
  let last {A} (mk : A -> Val) (x : option A) (cur : Outcome) : Outcome :=
    from_option (fun x => ToField (mk x)) (match cur with Keep => Gone | _ => cur end) x in
  let after cur :=
    if matches (cfUnsigned cf) k then last VUint (toUnsigned v) cur
    else if matches (cfBoolean cf) k then last VBool (toBool v) cur
    else if matches (cfFloat cf) k then last VFloat (toFloat v) cur
    else cur in
  if matches (cfMeasurement cf) k then ToName s
  else if matches (cfString cf) k then ToField v
  else if matches (cfInteger cf) k then from_option (fun x => after (ToField (VInt x))) Gone (toInteger v)
  else after Keep.

Definition tag_left (o : Outcome) (cur : option string) : option string :=
  match o with Keep => cur | _ => None end.
Definition field_made (o : Outcome) (cur : option Val) : option Val :=
  match o with ToField v => Some v | _ => cur end.

(** A metric in which the conversion of the tag [k] has had the outcome [o]. *)
Definition tag_done (k : string) (o : Outcome) (m m' : metric) : Prop :=
  wf m' /\
  (forall k', Tags m' !! k' = if decide (k' = k) then tag_left o (Tags m !! k') else Tags m !! k') /\
  (forall k', Fields m' !! k' = if decide (k' = k) then field_made o (Fields m !! k') else Fields m !! k') /\
  name m' = default (name m) (out_name o) /\ tm m' = tm m /\ tp m' = tp m.

Lemma tag_done_keep k m : wf m -> tag_done k Keep m m.
Proof. intros Hwf. split_and!; try done; intros k'; by case_decide. Qed.

(** Storing a converted value: over an outcome that left the name alone. *)
Lemma tag_done_put k o x m m1 :
  (forall s, o <> ToName s) -> tag_done k o m m1 ->
  tag_done k (ToField (convertScalar x)) m (AddField k (GoScalar x) (RemoveTag k m1)).
Proof.
  intros Ho (Hw & Ht & Hf & Hn & Hm & Hp). pose proof (RemoveTag_wf k m1 Hw) as Hw1.
  split_and!; try done; [by apply AddField_wf| | |].
  - intros k'. change (Tags (AddField k (GoScalar x) (RemoveTag k m1))) with (Tags (RemoveTag k m1)).
    rewrite Tags_RemoveTag, lookup_delete_if, Ht by done. by case_decide.
  - intros k'. rewrite Fields_AddField by apply Hw1. rewrite lookup_insert_if.
    change (Fields (RemoveTag k m1)) with (Fields m1). rewrite Hf. by case_decide.
  - simpl. rewrite Hn. destruct o; simpl; try done. by destruct (Ho s).
Qed.

Lemma tag_done_fail k o m m1 :
  (forall s, o <> ToName s) -> tag_done k o m m1 ->
  tag_done k (match o with Keep => Gone | _ => o end) m (RemoveTag k m1).
Proof.
  intros Ho (Hw & Ht & Hf & Hn & Hm & Hp).
  split_and!; try done; [by apply RemoveTag_wf| | |].
  - intros k'. rewrite Tags_RemoveTag, lookup_delete_if, Ht by done.
    case_decide; [|done]. by destruct o.
  - intros k'. change (Fields (RemoveTag k m1)) with (Fields m1). rewrite Hf.
    case_decide; [|done]. by destruct o.
  - simpl. rewrite Hn. by destruct o.
Qed.

Lemma convert_tag_by_key log cf :
  by_key (convert_tag (W := W) log cf) (fun k s => tag_left (tag_outcome cf k s))
    (fun k s => field_made (tag_outcome cf k s)) (fun k s => out_name (tag_outcome cf k s)).
Proof.
  intros m w k s Hwf. change (tag_done k (tag_outcome cf k s) m (convert_tag log cf (m, w) (k, s)).1).
  pose proof (tag_done_keep k m Hwf) as Hk0. unfold convert_tag, tag_outcome.
  destruct (matches (cfMeasurement cf) k).
  { cbn [fst]. split_and!; try done; [by apply set_name_wf, RemoveTag_wf| |]; intros k'; [|by case_decide].
    change (Tags (SetName s (RemoveTag k m))) with (Tags (RemoveTag k m)).
    by rewrite Tags_RemoveTag, lookup_delete_if. }
  destruct (matches (cfString cf) k).
  { by apply (tag_done_put k Keep (SString s)). }
  assert (forall o m1, (forall s, o <> ToName s) -> tag_done k o m m1 ->
    forall A (mk : A -> Val) (sc : A -> Scalar) (x : option A), (forall y, mk y = convertScalar (sc y)) ->
    tag_done k (from_option (fun x => ToField (mk x)) (match o with Keep => Gone | _ => o end) x) m
      (match x with
       | None => (RemoveTag k m1, Errorf log w)
       | Some x => (AddField k (GoScalar (sc x)) (RemoveTag k m1), w) end).1) as Hlast.
  { intros o m1 Ho Hd A mk sc [x|] Hmk; simpl.
    - rewrite Hmk. by eapply tag_done_put.
    - by apply tag_done_fail. }
  destruct (matches (cfInteger cf) k); [destruct (toInteger (VString s)) as [z|]; simpl from_option|];
    [|by apply (tag_done_fail k Keep)|];
    [pose proof (tag_done_put k Keep (SInt64 z) m m (fun _ => ltac:(discriminate)) Hk0) as Hk1|pose proof Hk0 as Hk1];
    (destruct (matches (cfUnsigned cf) k); [by apply (fun Ho => Hlast _ _ Ho Hk1 Z VUint SUint64 _ (fun _ => eq_refl))|]);
    (destruct (matches (cfBoolean cf) k); [by apply (fun Ho => Hlast _ _ Ho Hk1 bool VBool SBool _ (fun _ => eq_refl))|]);
    (destruct (matches (cfFloat cf) k); [by apply (fun Ho => Hlast _ _ Ho Hk1 float64 VFloat SFloat64 _ (fun _ => eq_refl))|]); done.
Qed.
End Spec.

(** ** What a conversion does to a metric *)

Section Claims.
Context `{Glob} `{FloatConv} {W : Type} `{StatEnv W} `{MapRange}.

(** The name is the old one, or one that an entry was converted to. *)
Definition named {V} (outcome : string -> V -> Outcome) (l : gmap string V) (old new : string) : Prop :=
  new = old /\ (forall k v, l !! k = Some v -> out_name (outcome k v) = None) \/
  exists k v, l !! k = Some v /\ outcome k v = ToName new.

Definition tags_converted (cf : ConversionFilter) (m m' : metric) : Prop :=
  (forall k, Tags m' !! k = s ← Tags m !! k; tag_left (tag_outcome cf k s) (Some s)) /\
  (forall k, Fields m' !! k = field_made (from_option (tag_outcome cf k) Keep (Tags m !! k)) (Fields m !! k)) /\
  named (tag_outcome cf) (Tags m) (name m) (name m').

Definition fields_converted (cf : ConversionFilter) (m m' : metric) : Prop :=
  (forall k, Fields m' !! k = v ← Fields m !! k; out_field (field_outcome cf k v) (Some v)) /\
  (forall k, Tags m' !! k = out_tag (from_option (field_outcome cf k) Keep (Fields m !! k)) (Tags m !! k)) /\
  named (field_outcome cf) (Fields m) (name m) (name m').

(** Without a configuration, nothing changes. *)
Definition converted_by (f : ConversionFilter -> metric -> metric -> Prop) (cf : option ConversionFilter)
    (m m' : metric) : Prop :=
  wf m' /\ tm m' = tm m /\ tp m' = tp m /\ from_option (fun cf => f cf m m') (m' = m) cf.

Lemma named_of {V} (outcome : string -> V -> Outcome) (l : gmap string V) (old new : string) :
  new = old /\ (forall k v, (k, v) ∈ range_map l -> out_name (outcome k v) = None) \/
  (exists k v, (k, v) ∈ range_map l /\ out_name (outcome k v) = Some new) ->
  named outcome l old new.
Proof.
  intros [[-> Hall]|(k & v & Hin & Ho)].
  - left. split; [done|]. intros k v Hk. apply Hall. by apply range_map_elem.
  - right. exists k, v. apply range_map_elem in Hin. split; [done|].
    destruct (outcome k v); simpl in Ho; congruence.
Qed.

Lemma convertTags_spec p m (w : W) :
  wf m -> converted_by tags_converted (tagConversions p) m (convertTags p m w).1.
Proof.
  intros Hwf. unfold convertTags, converted_by. destruct (tagConversions p) as [cf|]; [|done]. simpl.
  destruct (key_loop _ _ _ _ (range_map (Tags m)) m w (convert_tag_by_key (conv_Log p) cf) Hwf
    (range_map_NoDup _)) as (Hw & Ht & Hf & Hm & Hp & Hn).
  split_and!; try done. split; [|split].
  - intros k. rewrite Ht, key_find_range. by destruct (Tags m !! k) as [s|] eqn:E.
  - intros k. rewrite Hf, key_find_range. by destruct (Tags m !! k) as [s|] eqn:E.
  - by apply named_of.
Qed.

Lemma convertFields_spec p m (w : W) :
  wf m -> converted_by fields_converted (fieldConversions p) m (convertFields p m w).1.
Proof.
  intros Hwf. unfold convertFields, converted_by. destruct (fieldConversions p) as [cf|]; [|done]. simpl.
  destruct (key_loop _ _ _ _ (range_map (Fields m)) m w (convert_field_by_key (conv_Log p) cf) Hwf
    (range_map_NoDup _)) as (Hw & Ht & Hf & Hm & Hp & Hn).
  split_and!; try done. split; [|split].
  - intros k. rewrite Hf, key_find_range. by destruct (Fields m !! k) as [s|] eqn:E.
  - intros k. rewrite Ht, key_find_range. by destruct (Fields m !! k) as [s|] eqn:E.
  - by apply named_of.
Qed.

(** [Converter.Apply] returns every metric with its tags, then its fields,
    converted entry by entry, whatever the order of the maps: the first target type
    whose patterns match the key decides; an entry becomes a field, a tag or the
    name, or is dropped when it has no value of the type; entries no
    pattern matches, times and types stay. *)
Theorem Converter_spec (p : Converter) (ms : list tmetric) (w : W)
    (Hwf : Forall (fun m => wf (base m)) ms) :
  exists out w', conv_Apply ms p w = Some (out, p, w') /\
    Forall2 (fun m m' => td m' = td m /\ exists m1,
      converted_by tags_converted (tagConversions p) (base m) m1 /\
      converted_by fields_converted (fieldConversions p) m1 (base m')) ms out.
Proof.
  unfold conv_Apply. revert w. induction Hwf as [|m ms Hm _ IH]; intros w; cbn [conv_loop].
  { by exists [], w. }
  pose proof (convertTags_spec p (base m) w Hm) as Ht.
  destruct (convertTags p (base m) w) as [m1 w1]. simpl in Ht.
  pose proof (convertFields_spec p m1 w1 (proj1 Ht)) as Hf.
  destruct (convertFields p m1 w1) as [m2 w2]. simpl in Hf.
  destruct (IH w2) as (out & w' & E & Hout). destruct (conv_loop p ms w2) as [out2 w3].
  injection E as -> ->. exists (with_base m2 m :: out), w'. split; [done|]. constructor; [|done].
  split; [done|]. by exists m1.
Qed.
End Claims.

#[local] Instance ex_conv : FloatConv.
Proof.
  refine {| int64_out := fun _ => MinInt64; uint64_out := fun _ => 0 |};
    unfold MinInt64, MaxInt64, MaxUint64; intros; lia.
Defined.

Definition ex_converter : @Converter alt_glob :=
  mkConverter None None (NewLogger "processors" "converter" EmptyString) None
    (Some (mkCF None (Some (M_filtersingle "x")) None None (Some (M_filtersingle "y")) None None)).

Lemma Converter_spec_witness :
  exists out w', conv_Apply (H := alt_glob) (H1 := log_stats tmetric) (H2 := map_range_default)
      [mkTM ex_two None] ex_converter [] = Some (out, ex_converter, w') /\
    (fun m => (Tags (base m) !! "x", Fields (base m) !! "y")) <$> out = [(Some "1", Some (VUint 2))].
Proof.
  destruct (Converter_spec (H := alt_glob) (H1 := log_stats tmetric) (H2 := map_range_default)
    ex_converter [mkTM ex_two None] [] ltac:(constructor; [apply ex_two_wf|constructor])) as (out & w' & Ha & Hp).
  exists out, w'. split; [exact Ha|].
  apply Forall2_cons_inv_l in Hp as (m' & l & (_ & m1 & (_ & _ & _ & ->) & (_ & _ & _ & Hf & Ht & _)) & Hl & ->).
  apply Forall2_nil_inv_l in Hl as ->. simpl. rewrite (Hf "y"), (Ht "x"). reflexivity.
Defined.

(** ** Values *)

(** Field values as the language types them. *)
Definition val_ok (v : Val) : Prop :=
  match v with
  | VInt z => MinInt64 <= z <= MaxInt64
  | VUint z => 0 <= z <= MaxUint64
  | VFloat x => valid_binary f64_prec f64_emax x = true
  | _ => True
  end.

(** The exact value of a finite float, [m * 2^e] with its sign, against an integer. *)
Definition exact_cmp (s : bool) (m : positive) (e z : Z) : comparison :=
  (if s then Zneg m else Zpos m) * 2 ^ (e `max` 0) ?= z * 2 ^ ((- e) `max` 0).

(** What a conversion to the integers from [lo] to [hi - 1] should give: numbers below and above go to the ends, the others to the
    nearest integer, half away from zero; at NaN and at [hi] itself the compiler decides. *)
Definition saturated (lo hi : Z) (out : float64 -> Z) (x : float64) : Z :=
  match x with
  | S754_zero _ => 0
  | S754_infinity s => if s then lo else hi - 1
  | S754_nan => out x
  | S754_finite s m e =>
    match exact_cmp s m e lo, exact_cmp s m e hi with
    | Lt, _ => lo
    | _, Gt => hi - 1
    | _, Eq => out x
    | _, Lt => round_Z s m e
    end
  end.

Lemma digits2_bounds m : 2 ^ (Zpos (digits2_pos m) - 1) <= Zpos m < 2 ^ Zpos (digits2_pos m).
Proof.
  induction m as [m IH|m IH|]; cbn [digits2_pos]; [| |done];
    rewrite Pos2Z.inj_succ; replace (Z.succ (Zpos (digits2_pos m)) - 1) with (Z.succ (Zpos (digits2_pos m) - 1)) by lia; rewrite !Z.pow_succ_r by lia; lia.
Qed.

(** A double is normal, or below all normal numbers. *)
Lemma bounded_cases m e : bounded f64_prec f64_emax m e = true -> Zpos m < 2 ^ 53 /\ (e = -1074 \/ -1074 < e /\ 2 ^ 52 <= Zpos m).
Proof.
  unfold bounded, canonical_mantissa, fexp, emin, f64_prec, f64_emax. rewrite andb_true_iff, Z.eqb_eq, Z.leb_le. intros [E _].
  pose proof (digits2_bounds m) as [Hl Hu]. set (d := Zpos (digits2_pos m)) in *.
  assert (d <= 53) as Hd by lia. split; [eapply Z.lt_le_trans; [exact Hu|apply Z.pow_le_mono_r; lia]|].
  destruct (decide (e = -1074)); [by left|]. right. split; [lia|]. by replace 52 with (d - 1) by lia.
Qed.

(** Against a power of two the exponent decides, and then the mantissa. *)
Lemma exact_cmp_pow m e k : bounded f64_prec f64_emax m e = true -> 53 <= k ->
  exact_cmp false m e (2 ^ k) = match e ?= k - 52 with Eq => Zpos m ?= 2 ^ 52 | c => c end.
Proof.
  intros [Hm He]%bounded_cases Hk. unfold exact_cmp. destruct (Z.compare_spec e (k - 52)) as [->|Hlt|Hgt].
  - rewrite (Z.max_l (k - 52)), (Z.max_r (- (k - 52))), Z.mul_1_r by lia. replace k with (52 + (k - 52)) at 2 by lia. rewrite Z.pow_add_r by lia.
    symmetry. apply Zmult_compare_compat_r, Z.lt_gt, Z.pow_pos_nonneg; lia.
  - apply Z.compare_lt_iff. destruct (Z.le_gt_cases 0 e) as [H0|H0].
    + rewrite (Z.max_l e), (Z.max_r (- e)), Z.mul_1_r by lia. apply Z.lt_le_trans with (2 ^ 53 * 2 ^ e); [apply Z.mul_lt_mono_pos_r; [apply Z.pow_pos_nonneg; lia|done]|].
      rewrite <- Z.pow_add_r by lia. apply Z.pow_le_mono_r; lia.
    + rewrite (Z.max_r e), (Z.max_l (- e)), Z.mul_1_r by lia. apply Z.lt_le_trans with (2 ^ 53); [done|]. rewrite <- Z.pow_add_r by lia. apply Z.pow_le_mono_r; lia.
  - apply Z.compare_gt_iff. destruct He as [|[_ He]]; [lia|]. rewrite (Z.max_l e), (Z.max_r (- e)), Z.mul_1_r by lia.
    apply Z.lt_le_trans with (2 ^ 52 * 2 ^ e); [rewrite <- Z.pow_add_r by lia; apply Z.pow_lt_mono_r; lia|]. apply Z.mul_le_mono_nonneg_r; [apply Z.pow_nonneg; lia|done].
Qed.

Lemma exact_cmp_neg m e z : exact_cmp true m e (- z) = CompOpp (exact_cmp false m e z).
Proof. unfold exact_cmp. change (Zneg m) with (- Zpos m). by rewrite !Z.mul_opp_l, <- Z.compare_antisym, Z.compare_opp. Qed.

(** Numbers of different signs. *)
Lemma exact_cmp_signs m e z : 0 <= z -> exact_cmp true m e z = Lt /\ exact_cmp false m e (- z) = Gt.
Proof.
  intros Hz. unfold exact_cmp. assert (0 < 2 ^ (e `max` 0)) by (apply Z.pow_pos_nonneg; lia). assert (0 < 2 ^ ((- e) `max` 0)) by (apply Z.pow_pos_nonneg; lia).
  split; [apply Z.compare_lt_iff|apply Z.compare_gt_iff]; nia.
Qed.

Lemma uint_loop_range b s n u r u' :
  0 <= n <= MaxUint64 -> uint_loop b s n u = inl (r, u') -> 0 <= r <= MaxUint64.
Proof.
  revert n u. induction s as [|c s IH]; intros n u Hn; simpl; [intros [= -> ->]; done|].
  destruct (_ =? 95); [by apply IH|]. destruct (digit_val c) as [d|]; [|done].
  destruct (b <=? d); [done|]. destruct (_ <=? n); [done|]. destruct (_ || _); [done|].
  apply IH, uint64_range.
Qed.

Lemma ParseUint_range s z : ParseUint s = inl z -> 0 <= z <= MaxUint64.
Proof.
  unfold ParseUint. case_decide; [done|]. destruct (base_prefix s) as [b ds].
  destruct (uint_loop b ds 0 false) as [[n u]|] eqn:E; [|done].
  destruct (_ && _); [done|]. intros [= <-]. eapply uint_loop_range; [|exact E]. unfold MaxUint64. lia.
Qed.

Lemma signed_int_range neg un z : signed_int neg un = inl z -> MinInt64 <= z <= MaxInt64.
Proof.
  unfold signed_int. destruct (_ && _); [done|]. destruct (_ && _); [done|]. intros [= <-]. destruct neg; apply int64_range.
Qed.

Lemma ParseInt_range s z : ParseInt s = inl z -> MinInt64 <= z <= MaxInt64.
Proof.
  unfold ParseInt. destruct s as [|c s]; [done|].
  destruct (ParseUint _) as [un|[]]; [|done|]; apply signed_int_range.
Qed.

Section ValueProofs.
Context `{FloatConv}.

Lemma float_toInteger_range x : MinInt64 <= float_toInteger x <= MaxInt64.
Proof.
  unfold float_toInteger, int64_of_round. destruct (f_ltb _ _); [unfold MinInt64, MaxInt64; lia|].
  destruct (f_gtb _ _); [unfold MinInt64, MaxInt64; lia|]. destruct x; try apply int64_out_range.
  - unfold MinInt64, MaxInt64; lia.
  - cbn zeta. destruct (Z.leb_spec MinInt64 (round_Z s m e)), (Z.leb_spec (round_Z s m e) MaxInt64);
      simpl; try apply int64_out_range; lia.
Qed.

Lemma float_toUnsigned_range x : 0 <= float_toUnsigned x <= MaxUint64.
Proof.
  unfold float_toUnsigned, uint64_of_round. destruct (f_ltb _ _); [unfold MaxUint64; lia|].
  destruct (f_gtb _ _); [unfold MaxUint64; lia|]. destruct x; try apply uint64_out_range.
  - unfold MaxUint64; lia.
  - cbn zeta. destruct (Z.leb_spec 0 (round_Z s m e)), (Z.leb_spec (round_Z s m e) MaxUint64);
      simpl; try apply uint64_out_range; lia.
Qed.

(** [round_Z] is a nearest integer: within half of [2^-e] ths. *)
Lemma round_Z_nearest s m e :
  e < 0 -> 2 * Z.abs (round_Z s m e * 2 ^ (- e) - (if s then Zneg m else Zpos m)) <= 2 ^ (- e).
Proof.
  intros He. unfold round_Z. rewrite (proj2 (Z.leb_gt _ _)) by done.
  assert (0 < 2 ^ (- e)) as Hd by (apply Z.pow_pos_nonneg; lia).
  generalize dependent (2 ^ (- e)). intros d Hd.
  pose proof (Z.div_mod (2 * Zpos m + d) (2 * d) ltac:(lia)).
  pose proof (Z.mod_pos_bound (2 * Zpos m + d) (2 * d) ltac:(lia)).
  change (Zneg m) with (- Zpos m). generalize dependent (Zpos m). intros z.
  generalize ((2 * z + d) / (2 * d)). intros q. destruct s; nia.
Qed.

Lemma round_Z_range m e k : bounded f64_prec f64_emax m e = true -> 53 <= k ->
  match exact_cmp false m e (2 ^ k) with
  | Lt => 0 <= round_Z false m e < 2 ^ k
  | Eq => round_Z false m e = 2 ^ k
  | Gt => True
  end.
Proof.
  intros Hb Hk. pose proof (bounded_cases m e Hb) as [Hm _]. unfold round_Z. destruct (Z.leb_spec 0 e) as [H0|H0].
  - unfold exact_cmp. rewrite (Z.max_l e), (Z.max_r (- e)), Z.mul_1_r by lia. pose proof (Z.pow_pos_nonneg 2 e ltac:(lia) H0). destruct (Z.compare_spec (Zpos m * 2 ^ e) (2 ^ k)); [done|nia|done].
  - rewrite exact_cmp_pow by done. rewrite (proj2 (Z.compare_lt_iff e (k - 52))) by lia.
    assert (2 ^ 53 <= 2 ^ k) by (apply Z.pow_le_mono_r; lia). assert (2 ^ 1 <= 2 ^ (- e)) as Hd by (apply Z.pow_le_mono_r; lia).
    set (d := 2 ^ (- e)) in *. split; [apply Z.div_pos; lia|]. apply Z.le_lt_trans with (Zpos m); [|lia].
    apply Z.div_le_upper_bound; nia.
Qed.

(** The tests of the code and the exact comparison. *)
Lemma f_over_pow s m e n k : bounded f64_prec f64_emax m e = true -> 53 <= k -> n = k - 52 ->
  f_gtb (S754_finite s m e) (S754_finite false 4503599627370496 n) = match exact_cmp s m e (2 ^ k) with Gt => true | _ => false end /\
  f_ltb (S754_finite s m e) (S754_finite true 4503599627370496 n) = match exact_cmp s m e (- 2 ^ k) with Lt => true | _ => false end.
Proof.
  intros Hb Hk ->. pose proof (exact_cmp_pow m e k Hb Hk) as E. change (2 ^ 52) with (Zpos 4503599627370496) in E. destruct (exact_cmp_signs m e (2 ^ k)) as [E1 E2]; [apply Z.pow_nonneg; lia|].
  unfold f_gtb, f_ltb, SFltb. clear Hb Hk. revert E. generalize 4503599627370496%positive. intros P E. destruct s; rewrite ?E1, ?E2, ?exact_cmp_neg, ?E; cbn [SFcompare].
  - split; [done|]. change (Pos.compare_cont Eq m P) with (Zpos m ?= Zpos P). destruct (e ?= k - 52); [|done..]. by destruct (Zpos m ?= Zpos P).
  - split; [|done]. change (Pos.compare_cont Eq P m) with (Zpos P ?= Zpos m). rewrite (Z.compare_antisym e), (Z.compare_antisym (Zpos m)). destruct (e ?= k - 52); cbn [CompOpp]; [|done..]. by destruct (Zpos m ?= Zpos P).
Qed.

Lemma float_toInteger_saturates x : valid_binary f64_prec f64_emax x = true -> float_toInteger x = saturated (- 2 ^ 63) (2 ^ 63) int64_out x.
Proof.
  intros Hv. unfold float_toInteger. change (f_of_Z MinInt64) with (S754_finite true 4503599627370496 11). change (f_of_Z MaxInt64) with (S754_finite false 4503599627370496 11).
  destruct x as [s|s| |s m e]; [done|by destruct s|done|]. cbn [valid_binary] in Hv. destruct (f_over_pow s m e 11 63 Hv ltac:(lia) eq_refl) as [-> ->]. cbn [saturated int64_of_round].
  pose proof (round_Z_range m e 63 Hv ltac:(lia)) as Hr. destruct (exact_cmp_signs m e (2 ^ 63) ltac:(done)) as [E1 E2].
  change MinInt64 with (- 2 ^ 63). change MaxInt64 with (2 ^ 63 - 1). destruct s; rewrite ?exact_cmp_neg, ?E1, ?E2.
  - change (round_Z true m e) with (- round_Z false m e). destruct (exact_cmp false m e (2 ^ 63)); cbn [CompOpp]; [..|done]; by rewrite !(proj2 (Z.leb_le _ _)) by lia.
  - destruct (exact_cmp false m e (2 ^ 63)); [|by rewrite !(proj2 (Z.leb_le _ _)) by lia|done]. rewrite Hr. done.
Qed.

Lemma float_toUnsigned_saturates x : valid_binary f64_prec f64_emax x = true -> float_toUnsigned x = saturated 0 (2 ^ 64) uint64_out x.
Proof.
  intros Hv. unfold float_toUnsigned. change (f_of_Z MaxUint64) with (S754_finite false 4503599627370496 12).
  destruct x as [s|s| |s m e]; [done|by destruct s|done|]. cbn [valid_binary] in Hv. destruct (f_over_pow s m e 12 64 Hv ltac:(lia) eq_refl) as [-> _]. cbn [saturated uint64_of_round].
  pose proof (round_Z_range m e 64 Hv ltac:(lia)) as Hr. destruct (exact_cmp_signs m e 0 ltac:(done)) as [E1 E2].
  change MaxUint64 with (2 ^ 64 - 1). destruct s; rewrite ?E1, ?E2; [done|]. change (f_ltb (S754_finite false m e) f_zero) with false. change (- 0) with 0 in E2. rewrite E2.
  destruct (exact_cmp false m e (2 ^ 64)); [|by rewrite !(proj2 (Z.leb_le _ _)) by lia|done]. rewrite Hr. done.
Qed.

(** C40: integer conversions stay in the machine types and saturate. For every value of its type, with floats that are IEEE 754 doubles,
    the results of [toInteger] and [toUnsigned] are 64-bit values. An
    unsigned value over the signed maximum becomes the maximum, a negative one
    becomes zero as unsigned, others are kept. A float, by its exact value, becomes the least value of the type if it is below, the greatest if it is above
    [2^63] or [2^64], and a nearest integer otherwise, half away from zero; infinities saturate. Not decided by the code, but
    by the compiler, are NaN and exactly [2^63] or [2^64], which the guard of the code lets through. *)
Theorem Converter_bounds (v : Val) (Hv : val_ok v) :
  (forall z, toInteger v = Some z -> MinInt64 <= z <= MaxInt64) /\
  (forall z, toUnsigned v = Some z -> 0 <= z <= MaxUint64) /\
  (forall z, v = VUint z -> toInteger v = Some (z `min` MaxInt64)) /\
  (forall z, v = VInt z -> toUnsigned v = Some (z `max` 0)) /\
  (forall x, v = VFloat x -> toInteger v = Some (saturated (- 2 ^ 63) (2 ^ 63) int64_out x) /\ toUnsigned v = Some (saturated 0 (2 ^ 64) uint64_out x)) /\
  (forall s m e, v = VFloat (S754_finite s m e) ->
    match e with
    | Zneg d => 2 * Z.abs (round_Z s m e * 2 ^ Zpos d - (if s then Zneg m else Zpos m)) <= 2 ^ Zpos d
    | _ => round_Z s m e = (if s then Zneg m else Zpos m) * 2 ^ e
    end).
Proof.
  split_and!.
  - intros z. destruct v as [|x|i|i|s|b]; simpl in *; try done.
    + intros [= <-]. apply float_toInteger_range.
    + by intros [= <-].
    + destruct (Z.leb_spec i MaxInt64); intros [= <-]; [apply int64_range|unfold MinInt64, MaxInt64; lia].
    + destruct (ParseInt s) eqn:E; [intros [= <-]; by eapply ParseInt_range|].
      destruct (ParseFloat s); simpl; [|done]. intros [= <-]. apply float_toInteger_range.
    + intros [= <-]. unfold MinInt64, MaxInt64. destruct b; lia.
  - intros z. destruct v as [|x|i|i|s|b]; simpl in *; try done.
    + intros [= <-]. apply float_toUnsigned_range.
    + destruct (Z.ltb_spec i 0); intros [= <-]; [unfold MaxUint64; lia|apply uint64_range].
    + by intros [= <-].
    + destruct (ParseUint s) eqn:E; [intros [= <-]; by eapply ParseUint_range|].
      destruct (ParseFloat s); simpl; [|done]. intros [= <-]. apply float_toUnsigned_range.
    + intros [= <-]. unfold MaxUint64. destruct b; lia.
  - intros z ->. simpl in *. destruct (Z.leb_spec z MaxInt64); f_equal; [|lia].
    rewrite int64_small; unfold MinInt64, MaxInt64 in *; lia.
  - intros z ->. simpl in *. destruct (Z.ltb_spec z 0); f_equal; [lia|].
    rewrite uint64_small; unfold MinInt64, MaxInt64, MaxUint64 in *; lia.
  - intros x ->. cbn [toInteger toUnsigned]. by rewrite float_toInteger_saturates, float_toUnsigned_saturates.
  - intros s m e _. destruct e as [|d|d]; [by destruct s| |apply (round_Z_nearest s m (Zneg d)); lia]. unfold round_Z. cbn [Z.leb Z.compare]. destruct s; lia.
Qed.

(** The text of a value converts back to the value: integers, unsigned integers and
    booleans survive [toString] followed by the conversion to their type, as when a field
    is made a tag by one converter and a field again by the next. *)
Theorem Converter_text_roundtrip (v : Val) (Hv : val_ok v) :
  match v with
  | VInt z => (toString v ≫= fun s => toInteger (VString s)) = Some z
  | VUint z => (toString v ≫= fun s => toUnsigned (VString s)) = Some z
  | VBool b => (toString v ≫= fun s => toBool (VString s)) = Some b
  | VString s => toString v = Some s
  | _ => True
  end.
Proof.
  destruct v as [|x|z|z|s|b]; simpl in *; try done.
  - by rewrite ParseInt_FormatInt.
  - by rewrite ParseUint_FormatUint.
  - by rewrite ParseBool_FormatBool.
Qed.
End ValueProofs.

Lemma Converter_bounds_witness :
  toInteger (VUint MaxUint64) = Some MaxInt64 /\ toInteger (VFloat (f_frac 5 2)) = Some 3 /\ toUnsigned (VFloat (f_frac 5 2)) = Some 3.
Proof.
  split.
  - apply (proj1 (proj2 (proj2 (Converter_bounds (VUint MaxUint64) ltac:(vm_compute; split; discriminate)))) MaxUint64 eq_refl).
  - apply (proj1 (proj2 (proj2 (proj2 (proj2 (Converter_bounds (VFloat (f_frac 5 2)) ltac:(vm_compute; reflexivity)))))) (f_frac 5 2) eq_refl).
Defined.

(** The guard against [float64(math.MaxInt64)], which is [2^63], lets this number itself through. *)
Lemma float_two63_not_saturated `{FloatConv} : toInteger (VFloat (f_of_Z MaxInt64)) = Some (int64_out (f_of_Z (2 ^ 63))) /\
  toUnsigned (VFloat (f_of_Z MaxUint64)) = Some (uint64_out (f_of_Z (2 ^ 64))).
Proof. split; vm_compute; reflexivity. Qed.

Lemma Converter_text_roundtrip_witness :
  (toString (VInt (-5)) ≫= fun s => toInteger (VString s)) = Some (-5).
Proof. apply (Converter_text_roundtrip (VInt (-5)) ltac:(vm_compute; split; discriminate)). Defined.

(** [toBool] never gives false for a number: the case compares the interface value with
    an [int] constant, which has another type, so zero converts to true. *)
Theorem toBool_numbers_true (z : Z) (x : float64) :
  toBool (VInt z) = Some true /\ toBool (VUint z) = Some true /\ toBool (VFloat x) = Some true.
Proof. done. Qed.
