(* ===== verification/Agent.v ===== *)
(** * The agent

    [agent/agent.go] and the time functions of [internal/internal.go] it uses:
    aligning times to an interval, the aggregation window, the rounding
    precision, and the stages of the pipeline a metric goes through, as
    sequential functions: processors, aggregators, outputs. The goroutines and
    channels between them are the subject of [Pipeline].

    A [time.Time] is its wall clock, in nanoseconds since the Unix epoch, and the
    reading of the monotonic clock that [time.Now] adds; [==] compares both. *)

From S2P Require Import Prelude Float64 Metric Tracking Selfstat Interfaces Filter Buffer Running Output Accumulator.

(** ** Times: [internal.go] *)

Record Time := mkTime { wall : Z; mono : option Z }.

#[export] Instance Time_eq_dec : EqDecision Time.
Proof. solve_decision. Defined.

(** [time.Time.Truncate]: down to a multiple of [d] since the zero time, without the
    monotonic reading. *)
Definition Truncate (t : Time) (d : Z) : Time :=
  mkTime (if d <=? 0 then wall t else wall t - (wall t + epoch_offset) mod d) None.

Definition time_Add (t : Time) (d : Z) : Time := mkTime (wall t + d) ((fun m => m + d) <$> mono t).

(** [time.Time.Sub]: the monotonic readings if both have one; durations saturate. *)
Definition time_Diff (t u : Time) : Z :=
  let d := match mono t, mono u with Some a, Some b => a - b | _, _ => wall t - wall u end in
  MinInt64 `max` (d `min` MaxInt64).

Definition AlignTime (t : Time) (interval : Z) : Time :=
  let truncated := Truncate t interval in
  if decide (truncated = t) then t else time_Add truncated interval.

Definition AlignDuration (t : Time) (interval : Z) : Z := time_Diff (AlignTime t interval) t.

Definition updateWindow (start : Time) (roundInterval : bool) (period : Z) : Time * Time :=
  let until :=
    if roundInterval then
      let until := AlignTime start period in
      if decide (until = start) then AlignTime (time_Add start 1) period else until
    else time_Add start period in
  (time_Add until (- period), until).

(** [Agent.Precision]. *)
Definition Second : Z := 1000000000.
Definition Millisecond : Z := 1000000.
Definition Microsecond : Z := 1000.
Definition Precision (precision interval : Z) : Z :=
  if 0 <? precision then precision
  else if Second <=? interval then Second
  else if Millisecond <=? interval then Millisecond
  else if Microsecond <=? interval then Microsecond
  else 1.

(** ** The stages of the pipeline *)

Section Stages.
Context `{Glob} `{MapRange} {G W : Type} `{StatEnv W} `{MetricEnv tmetric W} `{Aggregator G}.
Import RunningAggregator.

#[local] Notation running := (RunningAggregator (G := G)).

(** [runAggregators]: the windows before the first metric. *)
Definition init_windows (startTime : Time) (roundInterval : bool) (aggs : list running) :
    list running :=
  (fun a => let '(since, until) := updateWindow startTime roundInterval (Period a) in
            UpdateWindow (wall since) (wall until) a) <$> aggs.

(** The loop over the aggregators for one metric. *)
Fixpoint add_all (m : tmetric) (aggs : list running) (dropOriginal : bool) (w : W) :
    option (bool * list running * W) :=
  match aggs with
  | [] => Some (dropOriginal, [], w)
  | a :: aggs' =>
    '(ok, a, w) ← Add m a w;
    '(d, aggs', w) ← add_all m aggs' (if ok : bool then true else dropOriginal) w;
    Some (d, a :: aggs', w)
  end.

(** One metric of [src]: passed on to [dst] or dropped. *)
Definition aggregate_one (m : tmetric) (aggs : list running) (w : W) :
    option (list tmetric * list running * W) :=
  '(dropOriginal, aggs, w) ← add_all m aggs false w;
  if negb dropOriginal then Some ([m], aggs, w)
  else w ← m_Drop m w; Some ([], aggs, w).
End Stages.

(** [runOutputs]: a metric goes to every output, as a copy except for the last. *)
Section Outputs.
Context {O W : Type} `{CopyEnv tmetric W} (addMetric : tmetric -> O -> W -> option (O * W)).

Fixpoint distribute (m : tmetric) (outs : list O) (w : W) : option (list O * W) :=
  match outs with
  | [] => Some ([], w)
  | [o] => '(o, w) ← addMetric m o w; Some ([o], w)
  | o :: outs' =>
    let '(m', w) := m_Copy m w in
    '(o, w) ← addMetric m' o w;
    '(outs', w) ← distribute m outs' w;
    Some (o :: outs', w)
  end.
End Outputs.

(** ** Alignment *)

Definition aligned (d t : Z) : Prop := (t + epoch_offset) mod d = 0.

Lemma AlignTime_cases t d :
  0 < d ->
  let r := (wall t + epoch_offset) mod d in
  0 <= r < d /\
  AlignTime t d = if decide (r = 0 /\ mono t = None) then t else mkTime (wall t - r + d) None.
Proof.
  intros Hd r. pose proof (Z.mod_pos_bound (wall t + epoch_offset) d Hd) as Hr. fold r in Hr. split; [done|].
  unfold AlignTime, Truncate. rewrite (proj2 (Z.leb_gt _ _)) by done. fold r.
  destruct (decide (mkTime (wall t - r) None = t)) as [E|E].
  - pose proof (f_equal wall E) as E1. pose proof (f_equal mono E) as E2. simpl in E1, E2.
    rewrite decide_True; [done|]. split; [lia|done].
  - rewrite decide_False; [done|]. intros [E1 E2]. apply E. destruct t as [tw tmo]. simpl in *. subst. f_equal. lia.
Qed.

Lemma aligned_up t d k : 0 < d -> aligned d (t - (t + epoch_offset) mod d + k * d).
Proof.
  intros Hd. unfold aligned.
  replace (t - (t + epoch_offset) mod d + k * d + epoch_offset)
    with ((t + epoch_offset) - (t + epoch_offset) mod d + k * d) by lia.
  rewrite Z.mod_add, Zminus_mod_idemp_r, Z.sub_diag by lia. by apply Z.mod_0_l; lia.
Qed.

(** [AlignTime] gives an aligned time less than one interval ahead: the time itself when it
    is aligned and carries no monotonic reading, else the next aligned time after
    it - also for an aligned time that comes from the clock, which the
    documentation says is returned as it is - and [AlignDuration] is the wait until then. *)
Theorem AlignTime_next (t : Time) (d : Z) (Hd : 0 < d <= MaxInt64) :
  let t' := AlignTime t d in
  aligned d (wall t') /\
  AlignDuration t d = wall t' - wall t /\
  (mono t = None -> wall t <= wall t' < wall t + d) /\
  (mono t <> None -> wall t < wall t' <= wall t + d) /\
  (mono t <> None -> aligned d (wall t) -> AlignDuration t d = d).
Proof.
  intros t'. destruct (AlignTime_cases t d ltac:(lia)) as [Hr E].
  assert (AlignDuration t d = wall t' - wall t) as Hdur.
  { unfold AlignDuration, time_Diff. fold t'. unfold t'. rewrite E. unfold MinInt64, MaxInt64 in *.
    case_decide as Hc; simpl.
    - rewrite (proj2 Hc). lia.
    - lia. }
  rewrite Hdur. unfold t'. rewrite E. case_decide as Hc; simpl.
  - destruct Hc as [Hc Hm]. unfold aligned. rewrite Hm. split_and!; try done; lia.
  - split_and!; try done.
    + pose proof (aligned_up (wall t) d 1 ltac:(lia)) as Hu. by rewrite Z.mul_1_l in Hu.
    + intros Hm. assert ((wall t + epoch_offset) mod d <> 0) by naive_solver. lia.
    + lia.
    + unfold aligned. lia.
Qed.

(** The first aggregation window contains the start time and lasts one period; with
    rounding on, it ends at a multiple of the period, strictly after the start. *)
Theorem updateWindow_covers (start : Time) (round : bool) (period : Z) (Hp : 0 < period) :
  let '(since, until) := updateWindow start round period in
  wall until = wall since + period /\ wall since <= wall start < wall until /\
  (round = true -> aligned period (wall until)).
Proof.
  unfold updateWindow. destruct round; simpl; [|split_and!; try done; lia].
  destruct (AlignTime_cases start period Hp) as [Hr E]. rewrite E. clear E.
  destruct (decide (_ /\ _)) as [[Hr0 Hm]|Hn].
  - rewrite decide_True by done.
    destruct (AlignTime_cases (time_Add start 1) period Hp) as [Hr1 E1]. rewrite E1. clear E1. simpl in *.
    rewrite Hm in *. simpl.
    destruct (decide (period = 1)) as [->|Hne].
    + rewrite decide_True by (by rewrite Z.mod_1_r). simpl. split_and!; try lia.
      intros _. unfold aligned. apply Z.mod_1_r.
    + assert ((wall start + 1 + epoch_offset) mod period = 1) as E1.
      { replace (wall start + 1 + epoch_offset) with (wall start + epoch_offset + 1) by lia.
        rewrite <- Z.add_mod_idemp_l, Hr0 by lia. apply Z.mod_small. lia. }
      rewrite E1, decide_False by lia. simpl. split_and!; try lia. intros _.
      pose proof (aligned_up (wall start + 1) period 1 ltac:(lia)) as Hu.
      rewrite E1, Z.mul_1_l in Hu. done.
  - rewrite decide_False.
    + simpl. split_and!; try lia. intros _. pose proof (aligned_up (wall start) period 1 ltac:(lia)) as Hu.
      by rewrite Z.mul_1_l in Hu.
    + intros E. destruct start as [tw tmo]. simpl in *. injection E as E1 E2. subst tmo.
      destruct Hn. split; [lia|done].
Qed.

Lemma AlignTime_next_witness :
  AlignDuration (mkTime (- epoch_offset + 25) None) 10 = 5 /\
  AlignDuration (mkTime (- epoch_offset + 20) (Some 7)) 10 = 10.
Proof.
  split.
  - pose proof (proj1 (proj2 (AlignTime_next (mkTime (- epoch_offset + 25) None) 10 ltac:(unfold MaxInt64; lia)))) as E.
    rewrite E. reflexivity.
  - apply (proj2 (proj2 (proj2 (proj2 (AlignTime_next (mkTime (- epoch_offset + 20) (Some 7)) 10 ltac:(unfold MaxInt64; lia))))));
      [discriminate|reflexivity].
Defined.

Lemma updateWindow_covers_witness :
  exists since until, updateWindow (mkTime (- epoch_offset + 20) None) true 10 = (since, until) /\
    wall until = wall since + 10 /\ wall since <= - epoch_offset + 20 < wall until.
Proof.
  pose proof (updateWindow_covers (mkTime (- epoch_offset + 20) None) true 10 ltac:(lia)) as Hw.
  destruct (updateWindow _ true 10) as [since until]. exists since, until.
  split; [reflexivity|]. split; [exact (proj1 Hw)|exact (proj1 (proj2 Hw))].
Defined.

(** ** Routing *)

Section RoutingProofs.
Context `{Glob} `{MapRange} {G W : Type} `{StatEnv W} `{MetricEnv tmetric W} `{Aggregator G}.
Import RunningAggregator.
#[local] Notation running := (RunningAggregator (G := G)).

(** Whether an aggregator claims the original. *)
Definition claims (m : tmetric) (a : running) : bool :=
  Select (CFilter (Config a)) (base m) && DropOriginal (Config a).

(** An aggregator after the metric, which it counts if it admits it. *)
Definition has_seen (m : tmetric) (a a' : running) : Prop :=
  exists g, agg_adds (option_list (admitted (Config a) (periodStart a) (periodEnd a) m)) (agg a) = Some g /\
    a' = set_agg g a.

Lemma Add_total (Htot : forall m (g : G), is_Some (agg_Add m g)) m (a : running) (w : W) :
  exists a' w', Add m a w = Some (claims m a, a', w') /\ has_seen m a a'.
Proof.
  pose proof (Add_admitted m a w) as Ha.
  assert (exists g, agg_adds (option_list (admitted (Config a) (periodStart a) (periodEnd a) m)) (agg a) = Some g)
    as [g Hg].
  { destruct (admitted _ _ _ m) as [b|]; simpl; [|by eexists].
    destruct (Htot b (agg a)) as [g ->]. by exists g. }
  rewrite Hg in Ha. simpl in Ha. destruct (Add m a w) as [[[ok a'] w']|]; [|done]. simpl in Ha.
  injection Ha as -> ->. exists (set_agg g a), w'. split; [done|]. by exists g.
Qed.

Lemma add_all_total (Htot : forall m (g : G), is_Some (agg_Add m g)) m (aggs : list running) d (w : W) :
  exists aggs' w', add_all m aggs d w = Some (d || existsb (claims m) aggs, aggs', w') /\
    Forall2 (has_seen m) aggs aggs'.
Proof.
  revert d w. induction aggs as [|a aggs IH]; intros d w; cbn [add_all existsb].
  { exists [], w. by rewrite orb_false_r. }
  destruct (Add_total Htot m a w) as (a' & w1 & -> & Hs). binds.
  destruct (IH (if claims m a then true else d) w1) as (aggs' & w2 & -> & Hf). binds.
  exists (a' :: aggs'), w2. split; [|by constructor].
  destruct (claims m a), d; done.
Qed.

(** Between the processors and the outputs a metric goes to every aggregator, each of
    which counts it as its own filter and window say, and then on to the outputs, unless
    an aggregator that selects it is set to drop the original: then it is
    dropped, once. *)
Theorem aggregate_routes (m : tmetric) (aggs : list running) (w : W)
    (Htot : forall m (g : G), is_Some (agg_Add m g)) :
  exists aggs' w', Forall2 (has_seen m) aggs aggs' /\
    aggregate_one m aggs w =
      if existsb (claims m) aggs then w'' ← m_Drop m w'; Some ([], aggs', w'')
      else Some ([m], aggs', w').
Proof.
  destruct (add_all_total Htot m aggs false w) as (aggs' & w' & E & Hf).
  exists aggs', w'. split; [done|]. unfold aggregate_one. rewrite E. binds. simpl.
  by destruct (existsb (claims m) aggs).
Qed.
End RoutingProofs.

(** ** Distribution and tracking *)

(** An output keeps the metric it is given, or drops it at once. *)
Definition keep_or_drop (m : tmetric) (keep : bool) (w : World) : option (bool * World) :=
  if keep then Some (keep, w) else w ← m_Drop m w; Some (keep, w).

Definition kept_count (outs : list bool) : Z := Z.of_nat (length (filter (fun b => b = true) outs)).

Lemma kept_count_cons b outs : kept_count (b :: outs) = (if b then 1 else 0) + kept_count outs.
Proof. unfold kept_count. rewrite filter_cons. destruct b; simpl; lia. Qed.

Lemma copy_world m p (w : World) d :
  td m = Some p -> heap (trk w) !! p = Some d -> - 2 ^ 31 <= rc d < 2 ^ 31 - 1 ->
  exists w' d', m_Copy m w = (mkTM (Metric.Copy (base m)) (Some p), w') /\ chans w' = chans w /\
    heap (trk w') !! p = Some d' /\ rc d' = rc d + 1 /\
    (1 <= rc d -> m_Drop (mkTM (Metric.Copy (base m)) (Some p)) w' = Some w).
Proof.
  intros Ht Hd Hr. unfold m_Copy, world_copy, CopyT. rewrite Ht.
  eexists _, _. split; [done|]. split; [done|]. cbn [trk incr set_heap heap].
  rewrite list_lookup_alter_eq, Hd. split; [done|]. simpl.
  split; [rewrite int32_small; lia|]. intros H1. unfold Tracking.Drop. simpl. unfold decr. simpl.
  rewrite list_lookup_alter_eq, Hd. simpl. rewrite (int32_small (rc d + 1)) by lia.
  replace (rc d + 1 - 1) with (rc d) by lia. rewrite int32_small by lia.
  rewrite (proj2 (Z.ltb_ge _ _)), (proj2 (Z.eqb_neq _ _)) by lia. simpl. unfold set_heap. simpl.
  rewrite (list_alter_insert _ _ _ d) by done. rewrite list_insert_insert_eq. unfold data_decr. simpl.
  replace (rc d + 1 - 1) with (rc d) by lia. rewrite int32_small by lia. replace (mkTD _ _ _ _ _) with d by (by destruct d).
  rewrite list_insert_id by done. by destruct w as [r [l h e]].
Qed.

Lemma drop_world m p (w : World) d :
  td m = Some p -> heap (trk w) !! p = Some d -> 2 <= rc d < 2 ^ 31 ->
  exists w' d', m_Drop m w = Some w' /\ chans w' = chans w /\
    heap (trk w') !! p = Some d' /\ rc d' = rc d - 1.
Proof.
  intros Ht Hd Hr. simpl. unfold Tracking.Drop. rewrite Ht. unfold decr.
  rewrite Hd. simpl. rewrite int32_small by lia.
  rewrite (proj2 (Z.ltb_ge _ _)), (proj2 (Z.eqb_neq _ _)) by lia. simpl.
  do 2 eexists. split; [done|]. split; [done|]. simpl. rewrite list_lookup_insert_eq.
  - split; [done|]. simpl. rewrite int32_small; lia.
  - by eapply lookup_lt_Some.
Qed.

Lemma distribute_next m (o o' : bool) outs (w : World) :
  distribute keep_or_drop m (o :: o' :: outs) w =
  let '(m', w) := m_Copy m w in
  '(o, w) ← keep_or_drop m' o w;
  '(outs', w) ← distribute keep_or_drop m (o' :: outs) w;
  Some (o :: outs', w).
Proof. done. Qed.

(** C8: a tracked metric is handed to every output without being reported too early: while
    the agent copies it to the outputs, and some of them drop their copy at once, its
    group is never reported before the last output has had the metric; afterwards
    the group counts one reference per output that kept it in place of the agent's
    own, and if no output keeps it and it was the last, distributing is the same as
    dropping it once. *)
Theorem distribute_tracked (m : tmetric) (outs : list bool) (w : World) (p : nat) (d : trackingData nat)
    (Hne : outs <> []) (Htd : td m = Some p) (Hd : heap (trk w) !! p = Some d)
    (Hrc : 1 <= rc d) (Hroom : rc d + Z.of_nat (length outs) < 2 ^ 31) :
  (1 < rc d + kept_count outs ->
    exists w' d', distribute keep_or_drop m outs w = Some (outs, w') /\ chans w' = chans w /\
      heap (trk w') !! p = Some d' /\ rc d' = rc d - 1 + kept_count outs) /\
  (rc d + kept_count outs = 1 ->
    distribute keep_or_drop m outs w = w' ← m_Drop m w; Some (outs, w')).
Proof.
  revert w d Hd Hrc Hroom. induction outs as [|b outs IH]; intros w d Hd Hrc Hroom; [done|].
  rewrite kept_count_cons. destruct outs as [|b' outs].
  { cbn [distribute]. unfold keep_or_drop. change (kept_count []) with 0. destruct b; split; intros Hk.
    - exists w, d. split_and!; try done. lia.
    - lia.
    - destruct (drop_world m p w d Htd Hd ltac:(lia)) as (w' & d' & -> & Hc & Hd' & Hr).
      exists w', d'. split_and!; try done. lia.
    - by destruct (m_Drop m w). }
  specialize (IH ltac:(done)). rewrite !distribute_next. simpl length in Hroom.
  destruct (copy_world m p w d Htd Hd ltac:(lia)) as (w1 & d1 & -> & Hc1 & Hd1 & Hr1 & Hback).
  set (c := mkTM (Metric.Copy (base m)) (Some p)) in *. destruct b.
  - change (keep_or_drop c true w1) with (Some (true, w1)). binds. destruct (IH w1 d1 Hd1 ltac:(lia) ltac:(simpl length; lia)) as [IH1 _]. split; intros Hk.
    + assert (0 <= kept_count (b' :: outs)) by (unfold kept_count; lia).
      destruct IH1 as (w' & d' & E & Hc & Hd' & Hr); [lia|]. rewrite E. binds.
      exists w', d'. split_and!; try done; [congruence|lia].
    + unfold kept_count in Hk. lia.
  - change (keep_or_drop c false w1) with (w' ← m_Drop c w1; Some (false, w')).
    rewrite Hback by lia. binds. destruct (IH w d Hd ltac:(lia) ltac:(simpl length; lia)) as [IH1 IH2]. split; intros Hk.
    + destruct IH1 as (w' & d' & E & Hc & Hd' & Hr); [lia|]. rewrite E. binds.
      exists w', d'. split_and!; first [done|lia].
    + rewrite IH2 by lia. by destruct (m_Drop m w).
Qed.

Lemma distribute_tracked_witness :
  let w := mkWorld ∅ (mkTS 1 [mkTD 1 1 0 0 0%nat] [mkChan 1 []]) in
  let m := mkTM (mkMetric "m" [] [mkField "x" (VInt 1)] 0 Untyped false) (Some 0%nat) in
  exists w' d', distribute keep_or_drop m [false; true; true] w = Some ([false; true; true], w') /\
    heap (trk w') !! 0%nat = Some d' /\ rc d' = 2.
Proof.
  intros w m. destruct (proj1 (distribute_tracked m [false; true; true] w 0%nat (mkTD 1 1 0 0 0%nat)
    ltac:(discriminate) eq_refl eq_refl ltac:(simpl; lia) ltac:(simpl; lia)) ltac:(vm_compute; reflexivity))
    as (w' & d' & E & _ & Hd & Hr).
  exists w', d'. split; [exact E|]. split; [exact Hd|]. rewrite Hr. reflexivity.
Defined.

(** A counter as an aggregator. *)
Definition ex_count : Aggregator nat :=
  {| agg_Add := fun _ n => Some (S n); agg_Push := fun _ n => Some ([], n); agg_Reset := fun _ => 0%nat |}.

Definition ex_running (drop : bool) : RunningAggregator.RunningAggregator (G := nat) (H := alt_glob) :=
  RunningAggregator.UpdateWindow 0 10 (RunningAggregator.NewRunningAggregator (H0 := map_range_default) 0%nat
    (RunningAggregator.mkConfig "count" EmptyString drop 10 0 0 EmptyString EmptyString EmptyString ∅ no_filter) ∅).1.

Lemma aggregate_routes_witness :
  let m := mkTM (mkMetric "m" [] [mkField "x" (VInt 1)] 5 Untyped false) None in
  exists aggs' w', aggregate_one (H := alt_glob) (H1 := log_stats tmetric) (H2 := log_metrics tmetric) (H3 := ex_count)
      m [ex_running false; ex_running true] [] = Some ([], aggs', w' ++ [CDrop m]).
Proof.
  intros m. destruct (aggregate_routes (H := alt_glob) (H1 := log_stats tmetric) (H2 := log_metrics tmetric)
    (H3 := ex_count) m [ex_running false; ex_running true] [] ltac:(intros ? g; exists (S g); reflexivity))
    as (aggs' & w' & _ & E).
  exists aggs', w'. rewrite E. reflexivity.
Defined.
