(* ===== verification/Influx.v ===== *)
(** * Influx line protocol

    [plugins/serializers/influx]: [escape.go], [influx.go] and [reader.go], and
    the unescaping functions of [plugins/parsers/influx/escape.go]. Text is a
    string of bytes. The writer is a [bytes.Buffer], as in [Serialize],
    [SerializeBatch] and the reader: writing appends and does not fail. Debug
    output for discarded fields is not modelled. *)

From Stdlib Require Import Ascii.
From S2P Require Import Prelude Float64 Strconv Metric Filter Strings.

(** ** Characters *)

Definition chr (n : N) : ascii := ascii_of_N n.
Definition TAB : ascii := chr 9.
Definition NL : ascii := chr 10.
Definition FF : ascii := chr 12.
Definition CR : ascii := chr 13.
Definition SPACE : ascii := chr 32.
Definition QUOTE : ascii := chr 34.
Definition COMMA : ascii := chr 44.
Definition EQUAL : ascii := chr 61.
Definition BSLASH : ascii := chr 92.

(** A string of one character. *)
Definition one (c : ascii) : string := String c EmptyString.

Definition is_in (c : ascii) (l : list ascii) : bool := bool_decide (c ∈ l).

(** [strings.ContainsAny] for a set of single-byte characters. *)
Fixpoint ContainsAny (s : string) (l : list ascii) : bool :=
  match s with
  | EmptyString => false
  | String c s' => is_in c l || ContainsAny s' l
  end.

(** [strings.Replacer.Replace] when every old string is one byte. *)
Fixpoint replace_bytes (f : ascii -> option string) (s : string) : string :=
  match s with
  | EmptyString => EmptyString
  | String c s' => default (one c) (f c) +:+ replace_bytes f s'
  end.

(** [strings.Replacer.Replace] when every old string is a backslash and one byte,
    with that byte as its replacement. *)
Fixpoint replace_pairs (l : list ascii) (s : string) : string :=
  match s with
  | String c s' =>
    match s' with
    | String d s'' =>
      if (bool_decide (c = BSLASH) && is_in d l) then String d (replace_pairs l s'')
      else String c (replace_pairs l s')
    | EmptyString => s
    end
  | EmptyString => s
  end.

(** ** [escape.go] of the serializer *)

Definition escapes : list ascii := [TAB; NL; FF; CR; SPACE; COMMA; EQUAL].
Definition nameEscapes : list ascii := [TAB; NL; FF; CR; SPACE; COMMA].
Definition stringFieldEscapes : list ascii := [TAB; NL; FF; CR; BSLASH; QUOTE].

Definition control (c : ascii) : option string :=
  if decide (c = TAB) then Some (String BSLASH "t")
  else if decide (c = NL) then Some (String BSLASH "n")
  else if decide (c = FF) then Some (String BSLASH "f")
  else if decide (c = CR) then Some (String BSLASH "r")
  else None.

Definition nameEscaper (c : ascii) : option string :=
  if is_in c [COMMA; SPACE] then Some (String BSLASH (one c)) else control c.
Definition escaper (c : ascii) : option string :=
  if is_in c [COMMA; SPACE; EQUAL] then Some (String BSLASH (one c)) else control c.
Definition stringFieldEscaper (c : ascii) : option string :=
  if is_in c [QUOTE; BSLASH] then Some (String BSLASH (one c)) else None.

Definition escape (s : string) : string :=
  if ContainsAny s escapes then replace_bytes escaper s else s.
Definition nameEscape (s : string) : string :=
  if ContainsAny s nameEscapes then replace_bytes nameEscaper s else s.
Definition stringFieldEscape (s : string) : string :=
  if ContainsAny s stringFieldEscapes then replace_bytes stringFieldEscaper s else s.

(** ** [escape.go] of the parser *)

Definition unescape (s : string) : string :=
  if ContainsAny s [SPACE; COMMA; EQUAL] then replace_pairs [COMMA; QUOTE; SPACE; EQUAL] s else s.
Definition nameUnescape (s : string) : string :=
  if ContainsAny s [SPACE; COMMA] then replace_pairs [COMMA; SPACE] s else s.
Definition stringFieldUnescape (s : string) : string :=
  if ContainsAny s [BSLASH; QUOTE] then replace_pairs [QUOTE; BSLASH] s else s.

(** ** [influx.go] *)

Inductive FieldSortOrder := NoSortFields | SortFields.
Definition UintSupport : Z := 1.

Definition NeedMoreSpace : string := "need more space".
Definition InvalidName : string := "invalid name".
Definition NoFields : string := "no serializable fields".

Record MetricError := mkMetricError { series : string; reason : string }.

Record Serializer := mkSerializer {
  maxLineBytes : Z;
  bytesWritten : Z;
  fieldSortOrder : FieldSortOrder;
  fieldTypeSupport : Z;
  header : string;
  footer : string;
  pair : string;
}.

Definition NewSerializer : Serializer :=
  mkSerializer 0 0 NoSortFields 0 EmptyString EmptyString EmptyString.
Definition SetMaxLineBytes (n : Z) (s : Serializer) : Serializer :=
  mkSerializer n (bytesWritten s) (fieldSortOrder s) (fieldTypeSupport s) (header s) (footer s) (pair s).
Definition SetFieldSortOrder (o : FieldSortOrder) (s : Serializer) : Serializer :=
  mkSerializer (maxLineBytes s) (bytesWritten s) o (fieldTypeSupport s) (header s) (footer s) (pair s).
Definition SetFieldTypeSupport (t : Z) (s : Serializer) : Serializer :=
  mkSerializer (maxLineBytes s) (bytesWritten s) (fieldSortOrder s) t (header s) (footer s) (pair s).

Definition set_written (n : Z) (s : Serializer) : Serializer :=
  mkSerializer (maxLineBytes s) n (fieldSortOrder s) (fieldTypeSupport s) (header s) (footer s) (pair s).
Definition set_header (h : string) (s : Serializer) : Serializer :=
  mkSerializer (maxLineBytes s) (bytesWritten s) (fieldSortOrder s) (fieldTypeSupport s) h (footer s) (pair s).
Definition set_footer (f : string) (s : Serializer) : Serializer :=
  mkSerializer (maxLineBytes s) (bytesWritten s) (fieldSortOrder s) (fieldTypeSupport s) (header s) f (pair s).
Definition set_pair (p : string) (s : Serializer) : Serializer :=
  mkSerializer (maxLineBytes s) (bytesWritten s) (fieldSortOrder s) (fieldTypeSupport s) (header s) (footer s) p.

Definition len (s : string) : Z := Z.of_nat (String.length s).

(** [write] and [writeString] on a buffer that holds [w]. *)
Definition write (w b : string) (s : Serializer) : string * Serializer :=
  (w +:+ b, set_written (int64 (bytesWritten s + len b)) s).

(** [bytes.TrimRight(b, " ")]. *)
Fixpoint trim_right (s : string) : string :=
  match s with
  | EmptyString => EmptyString
  | String c s' =>
    match trim_right s' with
    | EmptyString => if decide (c = SPACE) then EmptyString else one c
    | t => String c t
    end
  end.

Definition newMetricError (r : string) (s : Serializer) : MetricError :=
  if decide (header s <> EmptyString) then mkMetricError (trim_right (header s)) r
  else mkMetricError EmptyString r.

(** The tags of the header. *)
Definition header_tag (h : string) (t : Tag) : string :=
  let key := escape (Key t) in
  let value := escape (Value t) in
  if decide (key = EmptyString \/ value = EmptyString) then h
  else h +:+ one COMMA +:+ key +:+ one EQUAL +:+ value.

Definition buildHeader (m : metric) (s : Serializer) : option MetricError * Serializer :=
  let s := set_header EmptyString s in
  let name := nameEscape (name m) in
  if decide (name = EmptyString) then (Some (newMetricError InvalidName s), s)
  else (None, set_header (foldl header_tag name (tags m) +:+ one SPACE) s).

Definition buildFooter (m : metric) (s : Serializer) : Serializer :=
  set_footer (one SPACE +:+ FormatInt (tm m) +:+ one NL) s.

Definition appendUintField (buf : string) (z : Z) : string := buf +:+ FormatUint z +:+ "u".
Definition appendIntField (buf : string) (z : Z) : string := buf +:+ FormatInt z +:+ "i".
Definition appendFloatField (buf : string) (x : float64) : string := buf +:+ FormatFloat_f x.
Definition appendBoolField (buf : string) (b : bool) : string := buf +:+ FormatBool b.
Definition appendStringField (buf v : string) : string :=
  buf +:+ one QUOTE +:+ stringFieldEscape v +:+ one QUOTE.

(** [None] is a field error. *)
Definition appendFieldValue (s : Serializer) (buf : string) (v : Val) : option string :=
  match v with
  | VUint z =>
    if negb (Z.land (fieldTypeSupport s) UintSupport =? 0) then Some (appendUintField buf z)
    else if z <=? MaxInt64 then Some (appendIntField buf (int64 z))
    else Some (appendIntField buf MaxInt64)
  | VInt z => Some (appendIntField buf z)
  | VFloat x =>
    if f_is_nan x then None
    else if f_is_inf x then None
    else Some (appendFloatField buf x)
  | VString t => Some (appendStringField buf t)
  | VBool b => Some (appendBoolField buf b)
  | VNil => None
  end.

(** Whether the pair could be built, and the new state. *)
Definition buildFieldPair (key : string) (v : Val) (s : Serializer) : bool * Serializer :=
  let s := set_pair EmptyString s in
  let key := escape key in
  if decide (key = EmptyString) then (false, s)
  else
    let s := set_pair (key +:+ one EQUAL) s in
    match appendFieldValue s (pair s) v with
    | None => (false, s)
    | Some p => (true, set_pair p s)
    end.

(** The loop of [writeMetric] over the fields: an error, or whether the first
    field of a line is still to come. *)
Fixpoint fields_loop (fs : list Field) (pairsLen : Z) (firstField : bool) (w : string) (s : Serializer) :
    (MetricError + bool) * string * Serializer :=
  match fs with
  | [] => (inr firstField, w, s)
  | f :: fs' =>
    let '(ok, s) := buildFieldPair (FKey f) (FValue f) s in
    if negb ok then fields_loop fs' pairsLen firstField w s
    else
      let bytesNeeded := len (header s) + pairsLen + len (pair s) + len (footer s) in
      let bytesNeeded := if negb firstField then bytesNeeded + 1 else bytesNeeded in
      let emit pairsLen firstField w s :=
        let '(w, s) := if firstField : bool then write w (header s) s else write w "," s in
        let '(w, s) := write w (pair s) s in
        fields_loop fs' (pairsLen + len (pair s)) false w s in
      if (0 <? maxLineBytes s) && (maxLineBytes s <? bytesNeeded) then
        if firstField then (inl (newMetricError NeedMoreSpace s), w, s)
        else
          let '(w, s) := write w (footer s) s in
          let bytesNeeded := len (header s) + len (pair s) + len (footer s) in
          if maxLineBytes s <? bytesNeeded then (inl (newMetricError NeedMoreSpace s), w, s)
          else emit 0 true w s
      else emit pairsLen firstField w s
  end.

(** [writeMetric] to a buffer that holds [w]; sorting the fields sorts the metric's. *)
Definition writeMetric (w : string) (m : metric) (s : Serializer) :
    option MetricError * string * metric * Serializer :=
  match buildHeader m s with
  | (Some e, s) => (Some e, w, m, s)
  | (None, s) =>
    let s := buildFooter m s in
    let m := match fieldSortOrder s with
      | SortFields => set_fields (sort_by FKey (fields m)) m
      | NoSortFields => m end in
    match fields_loop (fields m) 0 true w s with
    | (inl e, w, s) => (Some e, w, m, s)
    | (inr true, w, s) => (Some (newMetricError NoFields s), w, m, s)
    | (inr false, w, s) => let '(w, s) := write w (footer s) s in (None, w, m, s)
    end
  end.

Definition Serialize (m : metric) (s : Serializer) : (string + MetricError) * metric * Serializer :=
  match writeMetric EmptyString m s with
  | (Some e, _, m, s) => (inr e, m, s)
  | (None, w, m, s) => (inl w, m, s)
  end.

(** [Write]: the count is that of all writes so far. *)
Definition Write (w : string) (m : metric) (s : Serializer) :
    Z * option MetricError * string * metric * Serializer :=
  let '(e, w, m, s) := writeMetric w m s in (bytesWritten s, e, w, m, s).

(** [SerializeBatch]: every error is a [MetricError], and is skipped. *)
Fixpoint batch_loop (ms : list metric) (w : string) (s : Serializer) : string * list metric * Serializer :=
  match ms with
  | [] => (w, [], s)
  | m :: ms' =>
    let '(_, _, w, m, s) := Write w m s in
    let '(w, ms', s) := batch_loop ms' w s in
    (w, m :: ms', s)
  end.
Definition SerializeBatch (ms : list metric) (s : Serializer) : string * list metric * Serializer :=
  batch_loop ms EmptyString s.

(** ** [reader.go] *)

Record reader := mkReader {
  r_metrics : list metric;
  serializer : Serializer;
  offset : nat;
  buf : string;
}.

(** [NewReader]: making a buffer with a negative capacity panics; that there is memory for any other is taken for granted. *)
Definition NewReader (ms : list metric) (s : Serializer) : option reader := if maxLineBytes s <? 0 then None else Some (mkReader ms s 0 EmptyString).
Definition SetMetrics (ms : list metric) (r : reader) : reader := mkReader ms (serializer r) 0 EmptyString.

(** [bytes.Buffer.Read] of at most [n] bytes: the bytes and whether it is the end. *)
Definition buffer_Read (n : nat) (b : string) : string * bool * string :=
  if decide (b = EmptyString) then (EmptyString, negb (n =? 0)%nat, b)
  else (str_take n b, false, str_drop n b).

(** The loop of [Read] over the metrics from the offset. *)
Fixpoint read_loop (todo : nat) (r : reader) : reader :=
  match todo with
  | O => r
  | S todo' =>
    match r_metrics r !! offset r with
    | None => r
    | Some m =>
      let '(_, e, b, m', s) := Write (buf r) m (serializer r) in
      let r := mkReader (<[offset r := m']> (r_metrics r)) s (S (offset r)) b in
      match e with
      | Some _ => read_loop todo' (mkReader (r_metrics r) (serializer r) (offset r) EmptyString)
      | None => r
      end
    end
  end.

(** [Read(p)] with [len(p) = n]. *)
Definition Read (n : nat) (r : reader) : string * bool * reader :=
  if decide (buf r <> EmptyString) then
    let '(out, eof, b) := buffer_Read n (buf r) in
    (out, eof, mkReader (r_metrics r) (serializer r) (offset r) b)
  else if (length (r_metrics r) <=? offset r)%nat then (EmptyString, true, r)
  else
    let r := read_loop (length (r_metrics r) - offset r) r in
    let '(out, eof, b) := buffer_Read n (buf r) in
    (out, eof, mkReader (r_metrics r) (serializer r) (offset r) b).

(** ** Escaping *)

Fixpoint all_chars (P : ascii -> bool) (s : string) : bool :=
  match s with EmptyString => true | String c s' => P c && all_chars P s' end.

Lemma all_chars_impl (P Q : ascii -> bool) s :
  (forall c, P c = true -> Q c = true) -> all_chars P s = true -> all_chars Q s = true.
Proof.
  intros HPQ. induction s as [|c s IH]; [done|]. simpl. rewrite !andb_true_iff. naive_solver.
Qed.

Lemma ContainsAny_all s l : ContainsAny s l = negb (all_chars (fun c => negb (is_in c l)) s).
Proof. induction s as [|c s IH]; [done|]. simpl. rewrite IH. by destruct (is_in c l). Qed.

(** Without characters to replace, nothing is replaced. *)
Lemma replace_bytes_id f s : all_chars (fun c => negb (bool_decide (is_Some (f c)))) s = true -> replace_bytes f s = s.
Proof.
  induction s as [|c s IH]; [done|]. simpl. rewrite andb_true_iff. intros [Hc Hs]. rewrite IH by done.
  case_bool_decide as Hf; [done|]. destruct (f c); [destruct Hf; by eexists|done].
Qed.

(** A test in front of the replacer that covers its characters changes nothing. *)
Lemma guarded f l s :
  (forall c, is_in c l = false -> f c = None) ->
  (if ContainsAny s l then replace_bytes f s else s) = replace_bytes f s.
Proof.
  intros Hf. rewrite ContainsAny_all. destruct (all_chars _ s) eqn:E; [|done]. simpl.
  symmetry. apply replace_bytes_id. eapply all_chars_impl; [|exact E]. intros c Hc.
  apply negb_true_iff in Hc. rewrite (Hf c Hc), bool_decide_false; [done|]. by intros [? ?].
Qed.

Ltac each_char := let c := fresh in intros c; destruct c as [[] [] [] [] [] [] [] []]; vm_compute; try done; naive_solver.

Lemma escape_replaces s : escape s = replace_bytes escaper s.
Proof. apply guarded. each_char. Qed.
Lemma nameEscape_replaces s : nameEscape s = replace_bytes nameEscaper s.
Proof. apply guarded. each_char. Qed.
Lemma stringFieldEscape_replaces s : stringFieldEscape s = replace_bytes stringFieldEscaper s.
Proof. apply guarded. each_char. Qed.

Lemma replace_pairs_other l c s : c <> BSLASH -> replace_pairs l (String c s) = String c (replace_pairs l s).
Proof. intros Hc. destruct s as [|d s]; [done|]. cbn [replace_pairs]. by rewrite bool_decide_false. Qed.

Lemma replace_pairs_escaped l c s :
  is_in c l = true -> replace_pairs l (String BSLASH (String c s)) = String c (replace_pairs l s).
Proof. intros Hc. cbn [replace_pairs]. by rewrite bool_decide_true, Hc. Qed.

(** Escapes that put a backslash in front are undone. *)
Lemma replace_roundtrip f l s :
  all_chars (fun c => match f c with
    | Some t => bool_decide (t = String BSLASH (one c)) && is_in c l
    | None => negb (bool_decide (c = BSLASH)) end) s = true ->
  replace_pairs l (replace_bytes f s) = s.
Proof.
  induction s as [|c s IH]; [done|]. cbn [all_chars replace_bytes]. rewrite andb_true_iff. intros [Hc Hs].
  destruct (f c) as [t|].
  - apply andb_true_iff in Hc as [Ht Hl]. apply bool_decide_eq_true in Ht as ->. simpl default.
    change (String BSLASH (one c) +:+ replace_bytes f s) with (String BSLASH (String c (replace_bytes f s))).
    rewrite replace_pairs_escaped by done. by rewrite IH.
  - simpl default. change (one c +:+ replace_bytes f s) with (String c (replace_bytes f s)).
    rewrite replace_pairs_other, IH by (try done; by case_bool_decide). done.
Qed.

(** Text without control characters and backslashes. *)
Definition plain_char (c : ascii) : bool := negb (is_in c [TAB; NL; FF; CR; BSLASH]).
Definition plain (s : string) : bool := all_chars plain_char s.

(** Characters that are replaced stay, behind a backslash. *)
Lemma all_chars_app P s t : all_chars P (s +:+ t) = all_chars P s && all_chars P t.
Proof.
  induction s as [|c s IH]; [done|].
  change (String c s +:+ t) with (String c (s +:+ t)). simpl. rewrite IH. by rewrite andb_assoc.
Qed.

(** The parser's test before unescaping lets every escaped text through. *)
Lemma unescape_guard f l l' s :
  all_chars (fun c => match f c with
    | Some t => bool_decide (t = String BSLASH (one c)) && is_in c l
    | None => negb (bool_decide (c = BSLASH)) end) s = true ->
  (forall c, f c = Some (String BSLASH (one c)) -> is_in c l' = true) ->
  (if ContainsAny (replace_bytes f s) l' then replace_pairs l (replace_bytes f s) else replace_bytes f s) = s.
Proof.
  intros Hs Hl. rewrite (replace_roundtrip f l s Hs).
  destruct (ContainsAny (replace_bytes f s) l') eqn:E; [done|].
  apply replace_bytes_id. rewrite ContainsAny_all in E. apply negb_false_iff in E.
  induction s as [|c s IH]; [done|]. cbn [replace_bytes all_chars] in *.
  rewrite all_chars_app in E. apply andb_true_iff in E as [Ec Es]. apply andb_true_iff in Hs as [Hc Hs].
  rewrite IH by done. rewrite andb_true_r. destruct (f c) as [t|] eqn:Hf; [|by rewrite bool_decide_false by (by intros [? ?])].
  apply andb_true_iff in Hc as [Ht _]. apply bool_decide_eq_true in Ht as ->.
  rewrite <- Hf in Ec. rewrite Hf in Ec. simpl in Ec. rewrite (Hl c Hf) in Ec.
  by rewrite andb_false_r in Ec.
Qed.

(** What the serializer escapes the parser unescapes: string field values come back
    whatever they hold, names, tags and field keys when they hold no control characters and no
    backslash, which the format cannot express. *)
Theorem Influx_escape_roundtrip (s : string) :
  stringFieldUnescape (stringFieldEscape s) = s /\
  (plain s = true -> nameUnescape (nameEscape s) = s /\ unescape (escape s) = s).
Proof.
  split.
  - rewrite stringFieldEscape_replaces. unfold stringFieldUnescape. apply unescape_guard; [|each_char].
    apply (all_chars_impl (fun _ => true)); [|by induction s]. each_char.
  - intros Hp. rewrite nameEscape_replaces, escape_replaces. unfold nameUnescape, unescape.
    split; (apply unescape_guard; [|each_char]); (eapply all_chars_impl; [|exact Hp]); each_char.
Qed.

Lemma Influx_escape_examples :
  escape "a b,c=d" = "a\ b\,c\=d" /\ nameEscape "a=b c" = "a=b\ c" /\
  unescape "a\ b\,c\=d" = "a b,c=d" /\ escape (one NL) = escape "\n".
Proof. done. Qed.

(** ** Reading a series back

    The grammar of the parser's state machine for names and tags: a token runs to the
    first of its delimiters that no backslash precedes. *)

Fixpoint token (stop : list ascii) (s : string) : string * string :=
  match s with
  | EmptyString => (EmptyString, EmptyString)
  | String c s' =>
    if decide (c = BSLASH) then
      match s' with
      | String d s'' => let '(a, b) := token stop s'' in (String c (String d a), b)
      | EmptyString => (s, EmptyString)
      end
    else if is_in c stop then (EmptyString, s)
    else let '(a, b) := token stop s' in (String c a, b)
  end.

(** The tags from the comma in front of the first one to the space. *)
Fixpoint read_tags (fuel : nat) (s : string) : option (list Tag * string) :=
  match fuel, s with
  | S fuel', String c s' =>
    if decide (c = SPACE) then Some ([], s')
    else if decide (c = COMMA) then
      match token [SPACE; COMMA; EQUAL] s' with
      | (k, String e s1) =>
        if decide (e = EQUAL /\ k <> EmptyString) then
          let '(v, s2) := token [SPACE; COMMA; EQUAL] s1 in
          if decide (v = EmptyString) then None
          else '(ts, rest) ← read_tags fuel' s2; Some (mkTag (unescape k) (unescape v) :: ts, rest)
        else None
      | _ => None
      end
    else None
  | _, _ => None
  end.

(** The name, the tags and what follows the series. A name does not start with [#]. *)
Definition read_series (s : string) : option (string * list Tag * string) :=
  let '(n, s') := token [SPACE; COMMA] s in
  match n with
  | EmptyString => None
  | String c _ =>
    if decide (c = chr 35) then None
    else '(ts, rest) ← read_tags (S (String.length s')) s'; Some (nameUnescape n, ts, rest)
  end.

(** The replacer puts a backslash in front of the delimiters and touches nothing else of
    plain text. *)
Definition delimits (f : ascii -> option string) (stop : list ascii) : Prop :=
  forall c, plain_char c = true ->
    if is_in c stop then f c = Some (String BSLASH (one c)) else f c = None.

Lemma escaper_delimits : delimits escaper [SPACE; COMMA; EQUAL].
Proof. unfold delimits. each_char. Qed.
Lemma nameEscaper_delimits : delimits nameEscaper [SPACE; COMMA].
Proof. unfold delimits. each_char. Qed.

Lemma plain_not_bslash c : plain_char c = true -> c <> BSLASH.
Proof. by intros H ->. Qed.

Lemma token_escaped f stop s d rest :
  delimits f stop -> plain s = true -> is_in d stop = true -> d <> BSLASH ->
  token stop (replace_bytes f s +:+ String d rest) = (replace_bytes f s, String d rest).
Proof.
  intros Hf Hs Hd Hb. induction s as [|c s IH].
  { change (replace_bytes f EmptyString +:+ String d rest) with (String d rest).
    cbn [token]. by rewrite decide_False, Hd. }
  cbn [plain all_chars] in Hs. apply andb_true_iff in Hs as [Hc Hs].
  pose proof (Hf c Hc) as Hfc. cbn [replace_bytes]. destruct (is_in c stop) eqn:Ec; rewrite Hfc; simpl default.
  - change ((String BSLASH (one c) +:+ replace_bytes f s) +:+ String d rest)
      with (String BSLASH (String c (replace_bytes f s +:+ String d rest))).
    cbn [token]. rewrite decide_True by done. by rewrite IH.
  - change ((one c +:+ replace_bytes f s) +:+ String d rest) with (String c (replace_bytes f s +:+ String d rest)).
    cbn [token]. rewrite decide_False by (by apply plain_not_bslash). rewrite Ec. by rewrite IH.
Qed.

Lemma replace_bytes_empty f stop s :
  delimits f stop -> plain s = true -> replace_bytes f s = EmptyString <-> s = EmptyString.
Proof.
  intros Hf Hp. split; [|by intros ->]. destruct s as [|c s]; [done|]. cbn [plain all_chars] in Hp.
  apply andb_true_iff in Hp as [Hc _]. specialize (Hf c Hc). cbn [replace_bytes].
  destruct (is_in c stop); rewrite Hf; done.
Qed.

(** The tags the format can express: the ones with a key and a value. *)
Definition expressible (ts : list Tag) : list Tag :=
  filter (fun t => Key t <> EmptyString /\ Value t <> EmptyString) ts.

Definition plain_tag (t : Tag) : bool := plain (Key t) && plain (Value t).

(** The text of the tags. *)
Fixpoint tags_text (ts : list Tag) : string :=
  match ts with
  | [] => EmptyString
  | t :: ts' => one COMMA +:+ escape (Key t) +:+ one EQUAL +:+ escape (Value t) +:+ tags_text ts'
  end.

Lemma header_tags h ts :
  Forall (fun t => plain_tag t = true) ts -> foldl header_tag h ts = h +:+ tags_text (expressible ts).
Proof.
  intros Hp. revert h. induction Hp as [|t ts Ht _ IH]; intros h; [by rewrite str_app_nil_r|].
  cbn [foldl]. rewrite IH. unfold expressible, header_tag. rewrite filter_cons.
  apply andb_true_iff in Ht as [Hk Hv]. rewrite !escape_replaces.
  pose proof (replace_bytes_empty _ _ _ escaper_delimits Hk) as Ek.
  pose proof (replace_bytes_empty _ _ _ escaper_delimits Hv) as Ev.
  destruct (decide (Key t <> EmptyString /\ Value t <> EmptyString)) as [[Nk Nv]|Hn].
  - rewrite decide_False by (intros [E|E]; [apply Nk, Ek|apply Nv, Ev]; done). cbn [tags_text]. rewrite !escape_replaces, !str_app_assoc. done.
  - rewrite decide_True; [done|]. destruct (decide (Key t = EmptyString)) as [E|E]; [left; by apply Ek|].
    right. apply Ev. destruct (decide (Value t = EmptyString)); [done|]. by destruct Hn.
Qed.

Lemma unescape_escape s : plain s = true -> unescape (replace_bytes escaper s) = s.
Proof.
  intros Hp. unfold unescape. apply unescape_guard; [|each_char].
  eapply all_chars_impl; [|exact Hp]. each_char.
Qed.

Lemma read_tags_text ts fuel rest :
  Forall (fun t => plain_tag t = true /\ Key t <> EmptyString /\ Value t <> EmptyString) ts ->
  (length ts < fuel)%nat ->
  read_tags fuel (tags_text ts +:+ String SPACE rest) = Some (ts, rest).
Proof.
  intros Hp. revert fuel. induction Hp as [|t ts (Ht & Nk & Nv) _ IH]; intros fuel Hf;
    (destruct fuel as [|fuel]; [simpl in Hf; lia|]).
  { done. }
  apply andb_true_iff in Ht as [Hk Hv]. cbn [tags_text]. rewrite !escape_replaces.
  pose proof (replace_bytes_empty _ _ _ escaper_delimits Hk) as Ek.
  pose proof (replace_bytes_empty _ _ _ escaper_delimits Hv) as Ev.
  set (k := replace_bytes escaper (Key t)) in *. set (v := replace_bytes escaper (Value t)) in *.
  set (tail := tags_text ts +:+ String SPACE rest) in *.
  replace ((one COMMA +:+ k +:+ one EQUAL +:+ v +:+ tags_text ts) +:+ String SPACE rest)
    with (String COMMA (k +:+ String EQUAL (v +:+ tail))).
  2:{ unfold tail. rewrite !str_app_assoc. done. }
  cbn [read_tags]. rewrite decide_False by done. rewrite decide_True by done.
  unfold k at 1. rewrite (token_escaped escaper) by (try done; apply escaper_delimits). fold k.
  rewrite decide_True by (split; [done|]; intros E; by apply Nk, Ek).
  assert (token [SPACE; COMMA; EQUAL] (v +:+ tail) = (v, tail)) as ->.
  { unfold tail. destruct ts as [|t' ts].
    - change (tags_text [] +:+ String SPACE rest) with (String SPACE rest).
      apply (token_escaped escaper); [apply escaper_delimits|done|done|done].
    - change (tags_text (t' :: ts) +:+ String SPACE rest) with
        (String COMMA ((escape (Key t') +:+ one EQUAL +:+ escape (Value t') +:+ tags_text ts) +:+ String SPACE rest)).
      apply (token_escaped escaper); [apply escaper_delimits|done|done|done]. }
  rewrite decide_False by (intros E; by apply Nv, Ev). unfold tail. rewrite IH by (simpl in Hf; lia). binds.
  unfold k, v. rewrite !unescape_escape by done. by destruct t.
Qed.

Lemma tags_text_length ts : (length ts <= String.length (tags_text ts))%nat.
Proof.
  induction ts as [|t ts IH]; [done|]. cbn [tags_text length]. rewrite !str_length_app. simpl. lia.
Qed.

(** A metric whose series the format can express. *)
Definition series_ok (m : metric) : Prop :=
  plain (name m) = true /\ (exists c n, name m = String c n /\ c <> chr 35) /\
  Forall (fun t => plain_tag t = true) (tags m).

Lemma buildHeader_ok m s :
  series_ok m -> buildHeader m s =
    (None, set_header (nameEscape (name m) +:+ tags_text (expressible (tags m)) +:+ one SPACE) s).
Proof.
  intros (Hp & (c & n & E & _) & Ht). unfold buildHeader. rewrite header_tags by done.
  rewrite nameEscape_replaces. rewrite decide_False.
  - by rewrite str_app_assoc.
  - intros H0. apply (replace_bytes_empty _ _ _ nameEscaper_delimits Hp) in H0. congruence.
Qed.

Lemma nameUnescape_escape s : plain s = true -> nameUnescape (replace_bytes nameEscaper s) = s.
Proof.
  intros Hp. unfold nameUnescape. apply unescape_guard; [|each_char].
  eapply all_chars_impl; [|exact Hp]. each_char.
Qed.

Lemma nameEscape_head c n :
  plain (String c n) = true -> c <> chr 35 -> exists d t, replace_bytes nameEscaper (String c n) = String d t /\ d <> chr 35.
Proof.
  intros Hp Hc. apply andb_true_iff in Hp as [Hp _]. pose proof (nameEscaper_delimits c Hp) as Hd.
  cbn [replace_bytes]. destruct (is_in c [SPACE; COMMA]); rewrite Hd; simpl default;
    eexists _, _; (split; [reflexivity|done]).
Qed.

(** The header of a line reads back as the series it was built from: the grammar of
    the line protocol, applied to the header and any text after it, gives the
    name, the tags that have a key and a value, in their order, and the text
    after the header, when name and tags hold no backslash and no control character. *)
Theorem Influx_series_roundtrip (m : metric) (s : Serializer) (rest : string) (Hm : series_ok m) :
  exists s', buildHeader m s = (None, s') /\
    read_series (header s' +:+ rest) = Some (name m, expressible (tags m), rest).
Proof.
  rewrite (buildHeader_ok m s Hm). destruct Hm as (Hp & (c & n & E & Hc) & Ht).
  eexists. split; [done|]. cbn [header set_header]. rewrite nameEscape_replaces.
  set (ts := expressible (tags m)). set (tail := tags_text ts +:+ String SPACE rest).
  replace ((replace_bytes nameEscaper (name m) +:+ tags_text ts +:+ one SPACE) +:+ rest)
    with (replace_bytes nameEscaper (name m) +:+ tail) by (unfold tail; by rewrite !str_app_assoc).
  assert (exists d r, tail = String d r /\ is_in d [SPACE; COMMA] = true /\ d <> BSLASH) as (d & r & Et & Hd & Hb).
  { unfold tail. destruct ts as [|t ts'].
    - by exists SPACE, rest.
    - eexists COMMA, _. split; [reflexivity|done]. }
  unfold read_series. rewrite Et, (token_escaped nameEscaper) by (try done; apply nameEscaper_delimits).
  pose proof (nameEscape_head c n ltac:(by rewrite <- E) Hc) as (d' & t' & Eh & Hd').
  rewrite E, Eh, decide_False by done. rewrite <- Eh, <- E, <- Et. unfold tail. rewrite read_tags_text.
  - binds. by rewrite nameUnescape_escape.
  - apply Forall_forall. intros t [[Nk Nv] Hin]%list_elem_of_filter.
    split; [|done]. by eapply Forall_forall in Ht; [|exact Hin].
  - rewrite str_length_app. simpl. pose proof (tags_text_length ts). lia.
Qed.

Definition ex_line : metric :=
  mkMetric "disk io" [mkTag "a,b" "x=1"; mkTag "host" EmptyString; mkTag "z" "y z"]
    [mkField "free" (VInt 7); mkField "label" (VString (one QUOTE)); mkField "ok" (VBool true)] 42 Gauge false.

Lemma Influx_series_roundtrip_witness :
  exists s', buildHeader ex_line NewSerializer = (None, s') /\
    read_series (header s' +:+ "x=1i") = Some ("disk io", [mkTag "a,b" "x=1"; mkTag "z" "y z"], "x=1i").
Proof.
  apply (Influx_series_roundtrip ex_line NewSerializer "x=1i"). split; [reflexivity|]. split.
  - exists "d"%char, "isk io". split; [reflexivity|discriminate].
  - repeat constructor.
Defined.

(** A name that ends in a backslash swallows the comma after it: two different metrics have
    the same header. *)
Lemma Influx_trailing_backslash s :
  let m1 := mkMetric (String "m" (one BSLASH)) [mkTag "k" "v"] [] 0 Untyped false in
  let m2 := mkMetric "m,k=v" [] [] 0 Untyped false in
  header (buildHeader m1 s).2 = header (buildHeader m2 s).2.
Proof. reflexivity. Qed.

(** ** The lines of a metric *)

(** The text of a field, if it has one. *)
Definition pair_text (support : Z) (f : Field) : option string :=
  if decide (escape (FKey f) = EmptyString) then None
  else appendFieldValue (SetFieldTypeSupport support NewSerializer) (escape (FKey f) +:+ one EQUAL) (FValue f).

(** The parts of the state that the loop over the fields only reads. *)
Definition same_line (s s' : Serializer) : Prop :=
  maxLineBytes s' = maxLineBytes s /\ fieldTypeSupport s' = fieldTypeSupport s /\
  fieldSortOrder s' = fieldSortOrder s /\ header s' = header s /\ footer s' = footer s.

#[local] Instance same_line_refl : Reflexive same_line.
Proof. by intros s. Qed.
#[local] Instance same_line_trans : Transitive same_line.
Proof. unfold same_line. intros a b c. intuition congruence. Qed.

Lemma buildFieldPair_text f s :
  exists s', same_line s s' /\ buildFieldPair (FKey f) (FValue f) s =
    (bool_decide (is_Some (pair_text (fieldTypeSupport s) f)), s') /\
    (forall p, pair_text (fieldTypeSupport s) f = Some p -> pair s' = p).
Proof.
  unfold buildFieldPair, pair_text. destruct (decide (escape (FKey f) = EmptyString)) as [E|E].
  { eexists. split; [|split; [rewrite bool_decide_false; [done|by intros [? ?]]|done]]. done. }
  cbn zeta. set (s1 := set_pair (escape (FKey f) +:+ one EQUAL) _).
  change (pair s1) with (escape (FKey f) +:+ one EQUAL).
  assert (appendFieldValue s1 (escape (FKey f) +:+ one EQUAL) (FValue f) =
    appendFieldValue (SetFieldTypeSupport (fieldTypeSupport s) NewSerializer)
      (escape (FKey f) +:+ one EQUAL) (FValue f)) as -> by done.
  destruct (appendFieldValue _ _ _) as [p|].
  - exists (set_pair p s1). rewrite bool_decide_true by (by eexists). split_and!; [done..|]. by intros q [= ->].
  - exists s1. rewrite bool_decide_false by (by intros [? ?]). done.
Qed.

Fixpoint commas (ps : list string) : string :=
  match ps with
  | [] => EmptyString
  | p :: ps' => match ps' with [] => p | _ => p +:+ one COMMA +:+ commas ps' end
  end.

Lemma commas_snoc ps p : ps <> [] -> commas (ps ++ [p]) = commas ps +:+ one COMMA +:+ p.
Proof.
  induction ps as [|q ps IH]; [done|]. intros _. destruct ps as [|q' ps]; [done|].
  change ((q :: q' :: ps) ++ [p]) with (q :: (q' :: ps) ++ [p]).
  change (commas (q :: (q' :: ps) ++ [p])) with (q +:+ one COMMA +:+ commas ((q' :: ps) ++ [p])).
  rewrite IH by done. change (commas (q :: q' :: ps)) with (q +:+ one COMMA +:+ commas (q' :: ps)).
  by rewrite !str_app_assoc.
Qed.

Definition lens (ps : list string) : Z := foldr (fun p n => len p + n) 0 ps.

Lemma len_app s t : len (s +:+ t) = len s + len t.
Proof. unfold len. rewrite str_length_app. lia. Qed.
Lemma len_nonneg s : 0 <= len s.
Proof. unfold len. lia. Qed.
Lemma lens_snoc ps p : lens (ps ++ [p]) = lens ps + len p.
Proof. unfold lens. induction ps as [|q ps IH]; simpl in *; lia. Qed.
Lemma commas_len ps : ps <> [] -> len (commas ps) = lens ps + Z.of_nat (length ps) - 1.
Proof.
  induction ps as [|p ps IH]; [done|]. intros _. destruct ps as [|q ps]; [simpl; lia|].
  change (commas (p :: q :: ps)) with (p +:+ one COMMA +:+ commas (q :: ps)).
  rewrite !len_app, IH by done. change (len (one COMMA)) with 1. simpl. lia.
Qed.

Section Lines.
Context (h f : string) (mx : Z).

(** A complete line, and a line whose footer is still to come. *)
Definition line_of (ps : list string) : string := h +:+ commas ps +:+ f.
Definition open_of (ps : list string) : string := match ps with [] => EmptyString | _ => h +:+ commas ps end.

Fixpoint lines_of (gs : list (list string)) : string :=
  match gs with [] => EmptyString | g :: gs' => line_of g +:+ lines_of gs' end.

(** What the length check of the loop has established for the pairs of a line: it
    counts the header, the pairs, the footer and one separator. *)
Definition checked (ps : list string) : Prop :=
  ps <> [] -> 0 < mx -> len h + lens ps + len f + (if (1 <? length ps)%nat then 1 else 0) <= mx.

(** A pair that does not fit on a line of its own. *)
Definition too_long (p : string) : Prop := 0 < mx /\ mx < len h + len p + len f.

Lemma lines_of_app g1 g2 : lines_of (g1 ++ g2) = lines_of g1 +:+ lines_of g2.
Proof. induction g1 as [|g gs IH]; [done|]. simpl. by rewrite IH, str_app_assoc. Qed.

Lemma open_line cur : cur <> [] -> open_of cur +:+ f = line_of cur.
Proof. destruct cur; [done|]. intros _. unfold open_of, line_of. by rewrite str_app_assoc. Qed.
End Lines.


(** What the loop leaves when it starts with the open line [cur] after [w0]: the
    pairs of [cur] and [ps] are cut into checked lines. *)
Definition cut (h f : string) (mx : Z) (s : Serializer) (w0 : string) (cur ps : list string)
    (r : (MetricError + bool) * string * Serializer) : Prop :=
  let '(res, w', s') := r in
  same_line s s' /\ exists gs,
  Forall (fun g => g <> [] /\ checked h f mx g) gs /\
  match res with
  | inr first => exists cur', first = is_nil cur' /\ checked h f mx cur' /\
      w' = w0 +:+ lines_of h f gs +:+ open_of h cur' /\ cur ++ ps = concat gs ++ cur' /\
      (mx <= 0 -> gs = []) /\ (cur' = [] -> cur ++ ps = [])
  | inl e => e = newMetricError NeedMoreSpace s' /\ w' = w0 +:+ lines_of h f gs /\
      exists p rest, cur ++ ps = concat gs ++ p :: rest /\ too_long h f mx p
  end.

Lemma cut_weaken h f mx s s1 w0 cur ps r : same_line s s1 -> cut h f mx s1 w0 cur ps r -> cut h f mx s w0 cur ps r.
Proof. destruct r as [[res w'] s']. intros Hs [Hs' Hr]. split; [by etrans|done]. Qed.

Lemma cut_line h f mx s w0 cur ps r :
  0 < mx -> cur <> [] -> ps <> [] -> checked h f mx cur ->
  cut h f mx s (w0 +:+ line_of h f cur) [] ps r -> cut h f mx s w0 cur ps r.
Proof.
  destruct r as [[res w'] s']. intros Hmx Hne Hps0 Hc [Hs (gs & Hgs & Hr)]. split; [done|].
  exists (cur :: gs). split; [by constructor|]. destruct res as [e|first].
  - destruct Hr as (-> & -> & p & rest & Hps & Ht). split; [done|].
    split; [simpl; by rewrite str_app_assoc|]. exists p, rest. split; [|done].
    simpl in *. by rewrite Hps, (assoc_L (++)).
  - destruct Hr as (cur' & -> & Hc' & -> & Hps & Hmx' & Hlast). exists cur'. split_and!; [done|done| | | |].
    + simpl. by rewrite !str_app_assoc.
    + simpl in *. by rewrite Hps, (assoc_L (++)).
    + lia.
    + intros E. by destruct (Hps0 (Hlast E)).
Qed.

Lemma cut_shift h f mx s w0 cur p ps r :
  cut h f mx s w0 (cur ++ [p]) ps r -> cut h f mx s w0 cur (p :: ps) r.
Proof. unfold cut. by rewrite <- (assoc_L (++)). Qed.

Lemma open_of_snoc h cur p :
  open_of h (cur ++ [p]) = open_of h cur +:+ (if is_nil cur then h else one COMMA) +:+ p.
Proof.
  destruct cur as [|q cur]; [done|].
  change (open_of h ((q :: cur) ++ [p])) with (h +:+ commas ((q :: cur) ++ [p])).
  rewrite commas_snoc by done. unfold open_of. simpl is_nil. by rewrite str_app_assoc.
Qed.

Lemma checked_one h f mx p : len h + len p + len f <= mx -> checked h f mx [p].
Proof. unfold checked. simpl. lia. Qed.

Lemma fields_loop_lines fs cur w0 s :
  checked (header s) (footer s) (maxLineBytes s) cur ->
  cut (header s) (footer s) (maxLineBytes s) s w0 cur (omap (pair_text (fieldTypeSupport s)) fs)
    (fields_loop fs (lens cur) (is_nil cur) (w0 +:+ open_of (header s) cur) s).
Proof.
  revert cur w0 s. induction fs as [|x fs IH]; intros cur w0 s Hc.
  { simpl. split; [done|]. exists []. split; [constructor|]. exists cur. simpl. rewrite app_nil_r. done. }
  cbn [fields_loop omap list_omap].
  destruct (buildFieldPair_text x s) as (s1 & Hs1 & -> & Hp).
  pose proof Hs1 as (E1 & E2 & E3 & E4 & E5).
  assert (forall cur w0 s2, same_line s1 s2 -> checked (header s) (footer s) (maxLineBytes s) cur ->
    cut (header s) (footer s) (maxLineBytes s) s w0 cur (omap (pair_text (fieldTypeSupport s)) fs)
      (fields_loop fs (lens cur) (is_nil cur) (w0 +:+ open_of (header s) cur) s2)) as IH'.
  { intros cur' w' s2 Hs2 Hc'. pose proof Hs2 as (F1 & F2 & F3 & F4 & F5).
    eapply cut_weaken; [by etrans|]. rewrite <- E1, <- E2, <- E4, <- E5, <- F1, <- F2, <- F4, <- F5.
    apply IH. by rewrite F1, F4, F5, E1, E4, E5. }
  clear IH. destruct (pair_text (fieldTypeSupport s) x) as [p|] eqn:Ep.
  2:{ rewrite bool_decide_false by (by intros [? ?]). by apply IH'. }
  rewrite bool_decide_true by (by eexists). cbn [negb]. rewrite E1, E4, E5, (Hp p eq_refl).
  set (h := header s) in *. set (f := footer s) in *. set (mx := maxLineBytes s) in *.
  assert (forall w0 cur s2, same_line s1 s2 -> pair s2 = p -> checked h f mx (cur ++ [p]) ->
    cut h f mx s w0 cur (p :: omap (pair_text (fieldTypeSupport s)) fs)
      (let '(w, s0) := if is_nil cur then write (w0 +:+ open_of h cur) (header s2) s2
                       else write (w0 +:+ open_of h cur) "," s2 in
       let '(w, s0) := write w (pair s0) s0 in
       fields_loop fs (lens cur + len (pair s0)) false w s0)) as Hemit.
  { intros w0' cur' s2 Hs2 Hp2 Hc'. pose proof Hs2 as (F1 & F2 & F3 & F4 & F5). apply cut_shift.
    replace (header s2) with h by (by rewrite F4, E4).
    replace (if is_nil cur' then write (w0' +:+ open_of h cur') h s2 else write (w0' +:+ open_of h cur') "," s2)
      with (write (w0' +:+ open_of h cur') (if is_nil cur' then h else one COMMA) s2) by (by destruct (is_nil cur')).
    unfold write. cbn zeta. cbn [pair set_written]. rewrite Hp2, <- lens_snoc.
    replace false with (is_nil (cur' ++ [p])) by (by destruct cur').
    rewrite !str_app_assoc, <- open_of_snoc. apply IH'; [|done]. etrans; [exact Hs2|]. done. }
  destruct ((0 <? mx) && _) eqn:Eover.
  - apply andb_true_iff in Eover as [Hmx Hover]. apply Z.ltb_lt in Hmx, Hover.
    destruct cur as [|q cur]; simpl is_nil in *; cbn [negb] in Hover.
    + split; [done|]. exists []. split; [constructor|]. split; [done|].
      split; [done|]. eexists p, _. split; [done|]. split; [done|]. simpl in Hover. lia.
    + unfold write at 1. set (s2 := set_written _ s1). set (c := q :: cur) in *.
      assert (same_line s1 s2) as Hs2 by done. change (pair s2) with (pair s1). change (footer s2) with (footer s1).
      change (header s2) with (header s1). change (maxLineBytes s2) with (maxLineBytes s1).
      rewrite E1, E4, E5, (Hp p eq_refl).
      rewrite str_app_assoc, open_line by done. apply cut_line; [done|done|done|done|].
      destruct (Z.ltb_spec mx (len h + len p + len f)) as [Hlong|Hfit].
      * split; [by etrans|]. exists []. split; [constructor|]. split; [done|].
        split; [by rewrite str_app_nil_r|]. eexists p, _. split; [done|]. split; [done|]. fold h f in Hlong. lia.
      * pose proof (Hemit (w0 +:+ line_of h f c) [] s2 Hs2 (Hp p eq_refl) (checked_one h f mx p ltac:(lia))) as He.
        simpl is_nil in He. change (open_of h []) with EmptyString in He. rewrite str_app_nil_r in He.
        change (lens []) with 0 in He. change (header s2) with (header s1) in He. by rewrite E4 in He.
  - enough (checked h f mx (cur ++ [p])) as Hc2.
    { pose proof (Hemit w0 cur s1 (reflexivity _) (Hp p eq_refl) Hc2) as He. by rewrite E4 in He. }
    intros _ Hmx. rewrite (proj2 (Z.ltb_lt 0 mx) Hmx) in Eover. cbn [andb] in Eover. apply Z.ltb_ge in Eover.
    rewrite lens_snoc, length_app. destruct cur as [|q cur]; [simpl in *; lia|].
    rewrite (proj2 (Nat.ltb_lt _ _)) by (simpl; lia). simpl is_nil in Eover. cbn [negb] in Eover. lia.
Qed.

Definition header_text (m : metric) : string := foldl header_tag (nameEscape (name m)) (tags m) +:+ one SPACE.
Definition footer_text (m : metric) : string := one SPACE +:+ FormatInt (tm m) +:+ one NL.

(** The fields in the order they are written. *)
Definition written_fields (s : Serializer) (m : metric) : list Field :=
  match fieldSortOrder s with SortFields => sort_by FKey (fields m) | NoSortFields => fields m end.
Definition written_pairs (s : Serializer) (m : metric) : list string :=
  omap (pair_text (fieldTypeSupport s)) (written_fields s m).

Lemma lens_elem p ps : p ∈ ps -> len p <= lens ps.
Proof.
  assert (forall l, 0 <= lens l) as Hl by (induction l as [|q l IH]; simpl; [lia|pose proof (len_nonneg q); lia]).
  induction 1 as [p ps|p q ps _ IH]; simpl; [pose proof (Hl ps); lia|pose proof (len_nonneg q); lia].
Qed.

Lemma checked_fits h f mx gs p :
  Forall (fun g => g <> [] /\ checked h f mx g) gs -> p ∈ concat gs -> ~ too_long h f mx p.
Proof.
  intros Hgs Hp [Hmx Hlong]. apply list_elem_of_In, in_concat in Hp as (g & Hg%list_elem_of_In & Hp%list_elem_of_In).
  eapply Forall_forall in Hgs as [Hne Hc]; [|exact Hg]. specialize (Hc Hne Hmx). apply lens_elem in Hp.
  destruct (_ <? _)%nat; lia.
Qed.

(** What [writeMetric] does after the header and the footer are built. *)
Lemma writeMetric_named w m s :
  nameEscape (name m) <> EmptyString ->
  exists s1, same_line (set_footer (footer_text m) (set_header (header_text m) s)) s1 /\
    header s1 = header_text m /\ footer s1 = footer_text m /\
    writeMetric w m s =
      match fields_loop (written_fields s m) 0 true w s1 with
      | (inl e, w, s) => (Some e, w, set_fields (written_fields s1 m) m, s)
      | (inr true, w, s) => (Some (newMetricError NoFields s), w, set_fields (written_fields s1 m) m, s)
      | (inr false, w, s) => let '(w, s) := write w (footer s) s in (None, w, set_fields (written_fields s1 m) m, s)
      end.
Proof.
  intros Hn. exists (set_footer (footer_text m) (set_header (header_text m) (set_header EmptyString s))).
  split; [done|]. split; [done|]. split; [done|].
  unfold writeMetric, buildHeader. rewrite decide_False by done. cbn [fst snd].
  unfold written_fields. cbn [fieldSortOrder set_footer set_header buildFooter].
  destruct (fieldSortOrder s); [|done]. by destruct m.
Qed.

Lemma writeMetric_lines (w : string) (m : metric) (s : Serializer) (Hn : nameEscape (name m) <> EmptyString) :
  let h := header_text m in let f := footer_text m in let mx := maxLineBytes s in let ps := written_pairs s m in
  exists e gs m' s', writeMetric w m s = (e, w +:+ lines_of h f gs, m', s') /\
    Forall (fun g => g <> [] /\
      (0 < mx -> len (line_of h f g) <= mx + (Z.of_nat (length g) - 2) `max` 0)) gs /\
    match e with
    | None => concat gs = ps /\ ps <> [] /\ Forall (fun p => ~ too_long h f mx p) ps /\
              (mx <= 0 -> length gs = 1%nat)
    | Some _ => ps = [] /\ gs = [] \/
                exists p rest, ps = concat gs ++ p :: rest /\ too_long h f mx p
    end.
Proof.
  cbn zeta. destruct (writeMetric_named w m s Hn) as (s1 & Hs1 & Eh & Ef & ->).
  destruct Hs1 as (E1 & E2 & _). cbn [maxLineBytes fieldTypeSupport set_footer set_header] in E1, E2.
  pose proof (fields_loop_lines (written_fields s m) [] w s1) as Hl.
  rewrite Eh, Ef, E1, E2 in Hl. fold (written_pairs s m) in Hl.
  change (lens []) with 0 in Hl. change (is_nil (@nil string)) with true in Hl.
  change (open_of _ []) with EmptyString in Hl. rewrite str_app_nil_r in Hl.
  set (h := header_text m) in *. set (f := footer_text m) in *. set (mx := maxLineBytes s) in *.
  assert (forall gs, Forall (fun g => g <> [] /\ checked h f mx g) gs ->
    Forall (fun g => g <> [] /\ (0 < mx -> len (line_of h f g) <= mx + (Z.of_nat (length g) - 2) `max` 0)) gs) as Hbound.
  { intros gs Hgs. eapply Forall_impl; [exact Hgs|]. intros g [Hg Hc]. split; [done|]. intros Hmx.
    specialize (Hc Hg Hmx). unfold line_of. rewrite !len_app, commas_len by done.
    destruct g as [|p [|q g]]; [done|simpl in *; lia|].
    rewrite (proj2 (Nat.ltb_lt _ _)) in Hc by (simpl; lia). simpl length in *. lia. }
  destruct (fields_loop _ 0 true w s1) as [[[e|first] w'] s'];
    destruct (Hl ltac:(by intros [])) as [(_ & _ & _ & _ & Ef') (gs & Hgs & Hr)]; clear Hl.
  - destruct Hr as (-> & -> & p & rest & Hps & Ht). eexists (Some _), gs, _, _.
    split; [done|]. split; [by apply Hbound|]. right. by exists p, rest.
  - destruct Hr as (cur & -> & Hc & -> & Hps & Hmx & Hlast). simpl in Hps, Hlast.
    destruct cur as [|q cur]; simpl is_nil.
    + specialize (Hlast eq_refl). rewrite Hlast in Hps. destruct gs as [|g gs].
      2:{ apply Forall_cons in Hgs as [[Hg _] _]. by destruct g. }
      simpl. rewrite str_app_nil_r. eexists (Some _), [], _, _. split; [by rewrite str_app_nil_r|].
      split; [constructor|]. by left.
    + unfold write. set (cur' := q :: cur) in *. rewrite Ef', Ef.
      assert (Forall (fun g => g <> [] /\ checked h f mx g) (gs ++ [cur'])) as Hall
        by (apply Forall_app; split; [done|]; by constructor).
      assert (concat (gs ++ [cur']) = written_pairs s m) as Hcat
        by (by rewrite concat_app, Hps; simpl; rewrite app_nil_r).
      eexists None, (gs ++ [cur']), _, _. split_and!; [|by apply Hbound|done| | |].
      * rewrite lines_of_app, !str_app_assoc. cbn [lines_of]. rewrite str_app_nil_r.
        by rewrite open_line.
      * rewrite Hps. by destruct (concat gs).
      * apply Forall_forall. intros p Hp. rewrite <- Hcat in Hp. by eapply checked_fits.
      * intros Hmx0. by rewrite (Hmx Hmx0).
Qed.

(** C22: [writeMetric] writes complete lines, whatever happens: after the text that was there
    come lines of header, comma-separated pairs and footer; together they hold the
    serializable fields in order, all of them when it succeeds, the ones before a
    field that cannot fit on any line otherwise - it fails iff there is no
    serializable field or one that does not fit alone. Without a limit there
    is one line. With a limit, a line of [n] fields has at most [n - 2] bytes too
    many, since the length check counts only one of the separators. *)
Theorem Influx_lines (w : string) (m : metric) (s : Serializer) (Hn : nameEscape (name m) <> EmptyString) :
  let h := header_text m in let f := footer_text m in let mx := maxLineBytes s in let ps := written_pairs s m in
  exists e gs m' s', writeMetric w m s = (e, w +:+ lines_of h f gs, m', s') /\
    Forall (fun g => g <> [] /\
      (0 < mx -> len (line_of h f g) <= mx + (Z.of_nat (length g) - 2) `max` 0)) gs /\
    match e with
    | None => concat gs = ps /\ ps <> [] /\ Forall (fun p => ~ too_long h f mx p) ps /\
              (mx <= 0 -> length gs = 1%nat)
    | Some _ => ps = [] /\ gs = [] \/
                exists p rest, ps = concat gs ++ p :: rest /\ too_long h f mx p
    end.
Proof. by apply writeMetric_lines. Qed.

Definition ex_serializer (mx : Z) : Serializer := SetMaxLineBytes mx NewSerializer.

Lemma Influx_lines_witness :
  exists e gs m' s', writeMetric EmptyString ex_line (ex_serializer 40) =
      (e, EmptyString +:+ lines_of (header_text ex_line) (footer_text ex_line) gs, m', s') /\
    match e with None => concat gs = written_pairs (ex_serializer 40) ex_line | Some _ => False end.
Proof.
  destruct (Influx_lines EmptyString ex_line (ex_serializer 40) ltac:(discriminate))
    as (e & gs & m' & s' & E & _ & H). exists e, gs, m', s'. split; [exact E|].
  vm_compute in E. injection E as <- _ _ _. exact (proj1 H).
Defined.

(** The length check misses separators: a line of four fields two bytes over the limit. *)
Lemma Influx_line_overrun :
  let m := mkMetric "m" [] [mkField "a" (VInt 1); mkField "b" (VInt 2); mkField "c" (VInt 3); mkField "d" (VInt 4)] 0 Untyped false in
  exists m' s', writeMetric EmptyString m (ex_serializer 22) = (None, "m a=1i,b=2i,c=3i,d=4i 0" +:+ one NL, m', s') /\
    len ("m a=1i,b=2i,c=3i,d=4i 0" +:+ one NL) = 24.
Proof. eexists _, _. split; vm_compute; reflexivity. Qed.

(** ** The reader *)

(** The configuration that the text of a metric depends on. *)
Definition same_conf (s s' : Serializer) : Prop :=
  maxLineBytes s' = maxLineBytes s /\ fieldTypeSupport s' = fieldTypeSupport s /\ fieldSortOrder s' = fieldSortOrder s.

Lemma same_line_conf s s' : same_line s s' -> same_conf s s'.
Proof. unfold same_line, same_conf. naive_solver. Qed.

#[local] Instance same_conf_equiv : Equivalence same_conf.
Proof. unfold same_conf. split; red; intuition congruence. Qed.

(** Two runs of the loop agree up to what was in the buffer before. *)
Definition same_run (w0 : string) (r1 r2 : (MetricError + bool) * string * Serializer) : Prop :=
  match r1, r2 with
  | (inl _, w1, s1), (inl _, w2, s2) => w1 = w0 +:+ w2 /\ same_line s1 s2
  | (inr b1, w1, s1), (inr b2, w2, s2) => b1 = b2 /\ w1 = w0 +:+ w2 /\ same_line s1 s2
  | _, _ => False
  end.

Lemma fields_loop_frame fs n b w0 w s1 s2 :
  same_line s1 s2 -> same_run w0 (fields_loop fs n b (w0 +:+ w) s1) (fields_loop fs n b w s2).
Proof.
  revert n b w s1 s2. induction fs as [|x fs IH]; intros n b w s1 s2 Hs; [done|]. cbn [fields_loop].
  destruct (buildFieldPair_text x s1) as (t1 & Ht1 & -> & Hp1).
  destruct (buildFieldPair_text x s2) as (t2 & Ht2 & -> & Hp2).
  assert (same_line t1 t2) as Ht by (unfold same_line in *; intuition congruence).
  rewrite (proj1 (proj2 Hs)) in *. pose proof Ht as (E1 & E2 & E3 & E4 & E5).
  destruct (pair_text (fieldTypeSupport s1) x) as [p|]; [|rewrite !bool_decide_false by (by intros [? ?]); by apply IH].
  rewrite !bool_decide_true by (by eexists). cbn [negb]. rewrite E1, E4, E5, (Hp1 p eq_refl), (Hp2 p eq_refl).
  assert (forall n b w u1 u2, same_line u1 u2 -> pair u1 = p -> pair u2 = p ->
    same_run w0
      (let '(w', s') := if b : bool then write (w0 +:+ w) (header u1) u1 else write (w0 +:+ w) "," u1 in
       let '(w', s') := write w' (pair s') s' in fields_loop fs (n + len (pair s')) false w' s')
      (let '(w', s') := if b then write w (header u2) u2 else write w "," u2 in
       let '(w', s') := write w' (pair s') s' in fields_loop fs (n + len (pair s')) false w' s')) as Hemit.
  { intros n' b' w' u1 u2 Hu H1 H2. pose proof Hu as (F1 & F2 & F3 & F4 & F5). rewrite F4.
    destruct b'; unfold write; cbn zeta; cbn [pair set_written]; rewrite H1, H2, !str_app_assoc; by apply IH. }
  unfold write in Hemit |- *.
  pose proof (Hemit n b w t1 t2 Ht (Hp1 p eq_refl) (Hp2 p eq_refl)) as He. rewrite E4 in He.
  destruct (_ && _); [|exact He]. destruct b; [done|]. clear He.
  cbn [pair header footer maxLineBytes set_written]. rewrite E1, E4, E5, (Hp1 p eq_refl), (Hp2 p eq_refl), str_app_assoc.
  destruct (_ <? _); [by split|].
  pose proof (Hemit 0 true (w +:+ footer t1) (set_written (int64 (bytesWritten t1 + len (footer t1))) t1)
    (set_written (int64 (bytesWritten t2 + len (footer t1))) t2) Ht (Hp1 p eq_refl) (Hp2 p eq_refl)) as He2.
  cbn [header pair bytesWritten set_written] in He2 |- *. by rewrite E4, (Hp1 p eq_refl), (Hp2 p eq_refl) in He2.
Qed.

(** The text of a metric, if it can be serialized. *)
Definition out_text (s : Serializer) (m : metric) : option string :=
  match writeMetric EmptyString m s with (None, w, _, _) => Some w | _ => None end.

Lemma writeMetric_text w m s1 s2 :
  same_conf s1 s2 ->
  match writeMetric w m s1 with
  | (Some _, _, _, s') => out_text s2 m = None /\ same_conf s1 s'
  | (None, w', _, s') => exists t, out_text s2 m = Some t /\ w' = w +:+ t /\ same_conf s1 s'
  end.
Proof.
  intros Hc. unfold out_text. destruct (decide (nameEscape (name m) = EmptyString)) as [E|E].
  { unfold writeMetric, buildHeader. rewrite !decide_True by done. done. }
  destruct (writeMetric_named w m s1 E) as (t1 & Ht1 & Eh1 & Ef1 & ->).
  destruct (writeMetric_named EmptyString m s2 E) as (t2 & Ht2 & Eh2 & Ef2 & ->).
  assert (same_line t1 t2) as Ht.
  { destruct Hc as (C1 & C2 & C3), Ht1 as (A1 & A2 & A3 & _), Ht2 as (B1 & B2 & B3 & _).
    cbn [maxLineBytes fieldTypeSupport fieldSortOrder set_footer set_header] in *. unfold same_line. intuition congruence. }
  assert (same_conf s1 t1) as Hc1.
  { destruct Ht1 as (A1 & A2 & A3 & _). unfold same_conf. done. }
  assert (written_fields s2 m = written_fields s1 m) as ->.
  { unfold written_fields. by rewrite (proj2 (proj2 Hc)). }
  pose proof (fields_loop_frame (written_fields s1 m) 0 true w EmptyString t1 t2 Ht) as Hr.
  rewrite str_app_nil_r in Hr.
  assert (same_line t1 (fields_loop (written_fields s1 m) 0 true w t1).2) as Hs.
  { pose proof (fields_loop_lines (written_fields s1 m) [] w t1 ltac:(by intros [])) as Hl.
    change (open_of (header t1) []) with EmptyString in Hl. rewrite str_app_nil_r in Hl.
    change (lens []) with 0 in Hl. change (is_nil (@nil string)) with true in Hl.
    destruct (fields_loop _ 0 true w t1) as [[? ?] ?]. apply Hl. }
  assert (same_conf s1 (fields_loop (written_fields s1 m) 0 true w t1).2) as Hc2
    by (etrans; [exact Hc1|by apply same_line_conf]).
  destruct (fields_loop (written_fields s1 m) 0 true w t1) as [[r1 w1] u1].
  destruct (fields_loop (written_fields s1 m) 0 true EmptyString t2) as [[r2 w2] u2].
  destruct r1 as [e1|[|]], r2 as [e2|b2]; simpl in Hr; try done.
  - by destruct Hr as [<- _].
  - destruct Hr as (<- & -> & Hu). unfold write. eexists. split; [done|].
    rewrite <- str_app_assoc, (proj2 (proj2 (proj2 (proj2 Hu)))). split; [done|]. exact Hc2.
Qed.

Lemma out_text_conf s1 s2 m : same_conf s1 s2 -> out_text s2 m = out_text s1 m.
Proof.
  intros Hc. pose proof (writeMetric_text EmptyString m s1 s2 Hc) as Hw. unfold out_text at 2.
  destruct (writeMetric EmptyString m s1) as [[[[e|] w'] m'] s']; [by destruct Hw|].
  destruct Hw as (t & -> & -> & _). done.
Qed.

Lemma out_text_nonempty s m t : out_text s m = Some t -> t <> EmptyString.
Proof.
  unfold out_text. destruct (decide (nameEscape (name m) = EmptyString)) as [E|E].
  { unfold writeMetric, buildHeader. by rewrite !decide_True. }
  destruct (writeMetric_named EmptyString m s E) as (t1 & Ht1 & Eh1 & Ef1 & ->).
  pose proof (fields_loop_lines (written_fields s m) [] EmptyString t1 ltac:(by intros [])) as Hl.
  change (EmptyString +:+ open_of (header t1) []) with EmptyString in Hl.
  change (lens []) with 0 in Hl. change (is_nil (@nil string)) with true in Hl.
  destruct (fields_loop _ 0 true EmptyString t1) as [[[e|[|]] w1] u1]; [done|done|].
  destruct Hl as [(_ & _ & _ & _ & Ef) _]. unfold write. intros [= <-] E0.
  apply (f_equal String.length) in E0. rewrite Ef, Ef1 in E0. unfold footer_text in E0.
  rewrite !str_length_app in E0. simpl in E0. lia.
Qed.

(** ** The reader *)

(** The texts of the metrics that can be serialized, one after the other. *)
Definition batch_text (s : Serializer) (ms : list metric) : string := concat_strings (omap (out_text s) ms).

(** What a reader still has to give. *)
Definition pending (r : reader) : string := buf r +:+ batch_text (serializer r) (drop (offset r) (r_metrics r)).

Lemma batch_text_cons s m ms : batch_text s (m :: ms) = default EmptyString (out_text s m) +:+ batch_text s ms.
Proof. unfold batch_text. simpl. by destruct (out_text s m). Qed.

Lemma batch_text_conf s1 s2 ms : same_conf s1 s2 -> batch_text s2 ms = batch_text s1 ms.
Proof.
  intros Hc. induction ms as [|m ms IH]; [done|]. rewrite !batch_text_cons, IH. by rewrite (out_text_conf s1 s2).
Qed.

(** The loop serializes metrics until one has a text: nothing of what is pending is
    lost, and the buffer stays empty only at the end. *)
Lemma read_loop_pending todo r :
  buf r = EmptyString -> (length (r_metrics r) - offset r <= todo)%nat ->
  pending (read_loop todo r) = pending r /\ same_conf (serializer r) (serializer (read_loop todo r)) /\
  (buf (read_loop todo r) = EmptyString -> pending r = EmptyString).
Proof.
  revert r. induction todo as [|todo IH]; intros r Hb Ht; cbn [read_loop].
  { split_and!; [done|done|]. intros _. unfold pending. rewrite Hb, drop_ge by lia. done. }
  destruct (r_metrics r !! offset r) as [m|] eqn:Em.
  2:{ split_and!; [done|done|]. intros _. apply lookup_ge_None in Em. unfold pending. by rewrite Hb, drop_ge. }
  assert (pending r = default EmptyString (out_text (serializer r) m) +:+
    batch_text (serializer r) (drop (S (offset r)) (r_metrics r))) as Ep.
  { unfold pending. rewrite Hb. rewrite <- batch_text_cons. by erewrite drop_S. }
  unfold Write. pose proof (writeMetric_text (buf r) m (serializer r) (serializer r) ltac:(done)) as Hw.
  destruct (writeMetric (buf r) m (serializer r)) as [[[[e|] w] m'] s']; cbn [r_metrics serializer offset].
  - destruct Hw as [E Hc]. rewrite E in Ep. set (r1 := mkReader _ _ _ _).
    assert (pending r1 = pending r) as E1.
    { rewrite Ep. unfold pending, r1. cbn [buf serializer offset r_metrics].
      by rewrite drop_insert_lt, (batch_text_conf (serializer r) s') by (try lia; done). }
    destruct (IH r1) as (I1 & I2 & I3); [done| |].
    { unfold r1. cbn [r_metrics offset]. rewrite length_insert. lia. }
    split_and!; [congruence| |by rewrite <- E1]. etrans; [exact Hc|exact I2].
  - destruct Hw as (t & E & -> & Hc). rewrite E in Ep. split_and!; [|exact Hc|].
    + rewrite Ep, Hb. unfold pending. cbn [buf serializer offset r_metrics].
      by rewrite drop_insert_lt, (batch_text_conf (serializer r) s') by (try lia; done).
    + cbn [buf]. rewrite Hb. intros E0. by apply out_text_nonempty in E.
Qed.

(** One call with a non-empty argument: either the end, with nothing pending, or some
    bytes, which are the first ones pending. *)
Lemma Read_step n r :
  (0 < n)%nat ->
  match Read n r with
  | (out, true, _) => out = EmptyString /\ pending r = EmptyString
  | (out, false, r') => out <> EmptyString /\ pending r = out +:+ pending r'
  end.
Proof.
  intros Hn.
  assert (forall b, b <> EmptyString -> str_take n b <> EmptyString) as Htake.
  { intros [|c b] H; [done|]. unfold str_take. destruct n; [lia|done]. }
  unfold Read, buffer_Read. destruct (decide (buf r <> EmptyString)) as [Hb|Hb].
  { rewrite decide_False by done. split; [by apply Htake|]. unfold pending. cbn [buf serializer offset r_metrics].
    by rewrite <- str_app_assoc, str_take_drop. }
  apply dec_stable in Hb. destruct (length (r_metrics r) <=? offset r)%nat eqn:El.
  { apply Nat.leb_le in El. split; [done|]. unfold pending. by rewrite Hb, drop_ge. }
  apply Nat.leb_gt in El. cbn zeta.
  destruct (read_loop_pending (length (r_metrics r) - offset r) r Hb ltac:(lia)) as (E & _ & E0).
  set (r1 := read_loop _ _) in *. destruct (decide (buf r1 = EmptyString)) as [Hb1|Hb1].
  - destruct n as [|n]; [lia|]. cbn. split; [done|by apply E0].
  - split; [by apply Htake|]. rewrite <- E. unfold pending. cbn [buf serializer offset r_metrics].
    by rewrite <- str_app_assoc, str_take_drop.
Qed.

(** Reading until the end with buffers of the sizes [ns]: the bytes, and whether the end was seen. *)
Fixpoint read_all (ns : list nat) (r : reader) : string * bool :=
  match ns with
  | [] => (EmptyString, false)
  | n :: ns' =>
    match Read n r with
    | (out, true, _) => (out, true)
    | (out, false, r') => let '(rest, eof) := read_all ns' r' in (out +:+ rest, eof)
    end
  end.

Lemma read_all_pending ns r :
  Forall (fun n => (0 < n)%nat) ns -> (String.length (pending r) < length ns)%nat ->
  read_all ns r = (pending r, true).
Proof.
  intros Hns. revert r. induction Hns as [|n ns Hn _ IH]; intros r Hl; [simpl in Hl; lia|].
  cbn [read_all]. pose proof (Read_step n r Hn) as Hs.
  destruct (Read n r) as [[out [|]] r'].
  - destruct Hs as [-> ->]. done.
  - destruct Hs as [Ho E]. rewrite E, str_length_app in Hl. rewrite IH; [by rewrite E|].
    destruct out; [done|]. simpl in Hl. lia.
Qed.

(** C26: with a line length that is not negative, for which alone [NewReader] does not panic, reading ends: a reader asked for a positive number of bytes at
    a time reports the end after at most one call per byte and one more, whatever the sizes of
    the buffers. The bytes it gave are the texts of the metrics that can be serialized, in order; a metric that cannot be is
    left out without an error, where the comment of [Read] has one returned. They are what [SerializeBatch] gives for a batch that serializes. *)
Theorem Influx_reader_complete (ns : list nat) (ms : list metric) (s : Serializer)
    (Hns : Forall (fun n => (0 < n)%nat) ns)
    (Hl : (String.length (batch_text s ms) < length ns)%nat) :
  (read_all ns <$> NewReader ms s) = (if maxLineBytes s <? 0 then None else Some (batch_text s ms, true)) /\
  (Forall (fun m => is_Some (out_text s m)) ms -> (SerializeBatch ms s).1.1 = batch_text s ms).
Proof.
  split; [unfold NewReader; destruct (_ <? _); [done|]; cbn; f_equal; by apply read_all_pending|]. clear Hns Hl. intros Hm.
  assert (forall w s', same_conf s s' -> (batch_loop ms w s').1.1 = w +:+ batch_text s ms) as Hb.
  2:{ unfold SerializeBatch. by rewrite Hb. }
  induction Hm as [|m ms [t Et] _ IH]; intros w s' Hc; [simpl; by rewrite str_app_nil_r|].
  cbn [batch_loop]. unfold Write. pose proof (writeMetric_text w m s' s ltac:(by symmetry)) as Hw.
  destruct (writeMetric w m s') as [[[[e|] w'] m'] s'']; [destruct Hw; congruence|].
  destruct Hw as (t' & Et' & -> & Hc'). rewrite batch_text_cons, Et'. specialize (IH (w +:+ t') s'').
  destruct (batch_loop ms (w +:+ t') s'') as [[w2 ms2] s2]. cbn [fst snd] in IH |- *.
  rewrite IH by (by etrans). by rewrite str_app_assoc.
Qed.

Lemma Influx_reader_complete_witness :
  let out := batch_text NewSerializer [ex_line; ex_line] in
  (read_all (repeat 7%nat 200) <$> NewReader [ex_line; ex_line] NewSerializer) = Some (out, true) /\
  (SerializeBatch [ex_line; ex_line] NewSerializer).1.1 = out.
Proof.
  cbn zeta. destruct (Influx_reader_complete (repeat 7%nat 200) [ex_line; ex_line] NewSerializer) as [H1 H2].
  - apply Forall_forall. intros n Hn. apply list_elem_of_In, repeat_spec in Hn. subst n. lia.
  - vm_compute. lia.
  - split; [exact H1|]. apply H2. repeat constructor; vm_compute; eauto.
Defined.
