(* ===== verification/Lotus.v ===== *)
(** * The Filecoin node

    [plugins/inputs/lotus]: the head buffer and the walk of the chain that turn the
    node's notifications into a sequence of tipsets ([rpc/head_buffer.go],
    [rpc/rpc.go]), the points the input records ([lotus.go]), and the processor that
    tags metrics with the node's identity ([plugins/processors/lotus_peer_id]).

    Tipsets, headers and the remote procedure calls are code of the lotus packages: they
    are parameters, and a call may answer differently each time it is made. A send on
    the channel of tipsets is recorded in the list [sent]; the goroutine around
    the loop is a sequence of batches of notifications. *)

From Stdlib Require Import Ascii.
From S2P Require Import Prelude Float64 Metric Tracking Selfstat Interfaces Filter Running Accumulator Processors.

(** What the input uses of a tipset and of a block header. *)
Class TipSets := {
  TipSet : Type;
  TipSetKey : Type;
  Height : TipSet -> Z;
  Parents : TipSet -> TipSetKey;
  Key_String : TipSet -> string;
  MinTimestamp : TipSet -> Z;
  Cids : TipSet -> list string;
}.

Record BlockHeader := mkHeader {
  h_Height : Z;
  h_Timestamp : Z;
  h_Parents : list string;
  h_Cid : string;
  h_Miner : string;
  h_ParentStateRoot : string;
  h_ParentWeight : string;
}.

Inductive HeadChangeType := HCRevert | HCApply | HCCurrent | HCUnknown.

Section Tips.
Context `{TipSets}.

Record HeadChange := mkHC { hc_Type : HeadChangeType; hc_Val : TipSet }.

(** ** [head_buffer.go] *)

Record headBuffer := mkHB { hb_buffer : list HeadChange; hb_size : Z }.

Definition NewHeadBuffer (size : Z) : headBuffer := mkHB [] size.

(** [Push]: the front element of an empty list is nil, and reading its value panics. *)
Definition Push (hc : HeadChange) (h : headBuffer) : option (option HeadChange * headBuffer) :=
  if Z.of_nat (length (hb_buffer h)) =? hb_size h then
    match hb_buffer h with
    | [] => None
    | el :: rest => Some (Some el, mkHB (rest ++ [hc]) (hb_size h))
    end
  else Some (None, mkHB (hb_buffer h ++ [hc]) (hb_size h)).

Definition Pop (h : headBuffer) : headBuffer := mkHB (take (pred (length (hb_buffer h))) (hb_buffer h)) (hb_size h).

(** ** [rpc.go] *)

(** The answer to the n-th call of [ChainGetTipSet]; [None] is an error. *)
Context (ChainGetTipSet : nat -> TipSetKey -> option TipSet).

(** The walk back of [loadTipsets] before the reversal: the tipsets newest first, whether a
    call failed, and the number of the next call; [None] when the fuel does not suffice. *)
Fixpoint walk_back (fuel : nat) (curr : TipSet) (lowestHeight : Z) (tipsets : list TipSet) (call : nat) :
    option (list TipSet * bool * nat) :=
  match fuel with
  | O => None
  | S fuel' =>
    if Height curr =? 0 then Some (tipsets, true, call)
    else if Height curr <=? lowestHeight then Some (tipsets, true, call)
    else
      let tipsets := tipsets ++ [curr] in
      match ChainGetTipSet call (Parents curr) with
      | None => Some (tipsets, false, S call)
      | Some prev => walk_back fuel' prev lowestHeight tipsets (S call)
      end
  end.

(** The swap loop: the elements at [i] and [j] for [i] up and [j] down. *)
Fixpoint swap_loop (fuel : nat) (i j : nat) (l : list TipSet) : list TipSet :=
  match fuel with
  | O => l
  | S fuel' =>
    if (i <? j)%nat then
      match l !! i, l !! j with
      | Some x, Some y => swap_loop fuel' (S i) (j - 1) (<[j := x]> (<[i := y]> l))
      | _, _ => l
      end
    else l
  end.

Definition loadTipsets (curr : TipSet) (lowestHeight : Z) (call : nat) :
    option (list TipSet * bool * nat) :=
  '(tipsets, ok, call) ← walk_back (S (Z.to_nat (Height curr))) curr lowestHeight [] call;
  if ok : bool then Some (swap_loop (length tipsets) 0 (length tipsets - 1) tipsets, true, call)
  else Some (tipsets, false, call).

(** The state of the loop of [GetTips]: head buffer, number of calls made, tipsets sent. *)
Record tips := mkTips { hb : headBuffer; calls : nat; sent : list TipSet }.

(** What handling a notification comes to: the loop goes on, it returns and closes
    the channel, it panics, or the walk back has not ended. *)
Inductive outcome :=
| Goes (st : tips)
| Returns (st : tips)
| Panics
| Walks.

Definition on_change (lastHeight : Z) (change : HeadChange) (st : tips) : outcome :=
  match hc_Type change with
  | HCCurrent =>
    match loadTipsets (hc_Val change) lastHeight (calls st) with
    | None => Walks
    | Some (_, false, call) => Returns (mkTips (hb st) call (sent st))
    | Some (tipsets, true, call) => Goes (mkTips (hb st) call (sent st ++ tipsets))
    end
  | HCApply =>
    match Push change (hb st) with
    | None => Panics
    | Some (Some out, h) => Goes (mkTips h (calls st) (sent st ++ [hc_Val out]))
    | Some (None, h) => Goes (mkTips h (calls st) (sent st))
    end
  | HCRevert => Goes (mkTips (Pop (hb st)) (calls st) (sent st))
  | HCUnknown => Goes st
  end.

(** One receive from the notification channel. *)
Fixpoint on_changes (lastHeight : Z) (changes : list HeadChange) (st : tips) : outcome :=
  match changes with
  | [] => Goes st
  | change :: rest =>
    match on_change lastHeight change st with
    | Goes st => on_changes lastHeight rest st
    | o => o
    end
  end.

(** The loop, over the batches received before the context ends. *)
Fixpoint on_batches (lastHeight : Z) (batches : list (list HeadChange)) (st : tips) : outcome :=
  match batches with
  | [] => Goes st
  | changes :: rest =>
    match on_changes lastHeight changes st with
    | Goes st => on_batches lastHeight rest st
    | o => o
    end
  end.

Definition GetTips (lastHeight headlag : Z) (batches : list (list HeadChange)) : outcome :=
  on_batches lastHeight batches (mkTips (NewHeadBuffer headlag) 0 []).
End Tips.
Arguments Goes {_}.
Arguments Returns {_}.
Arguments Panics {_}.
Arguments Walks {_}.

(** ** [lotus.go] *)

Section Points.
Context `{TipSets} `{MapRange} {M W : Type} `{StatEnv W} `{MetricMaker M W}.
Implicit Types (ac : accumulator M) (w : W).

(** [time.Unix(sec, 0)] in nanoseconds. *)
Definition unix_sec (sec : Z) : Z := sec * 1000000000.

(** The fields and tags of a header's point: the height has the named type
    [abi.ChainEpoch]; converting the timestamp to a time and back is the identity. *)
Definition header_fields (h : BlockHeader) : gmap string GoVal :=
  {["tipset_height" := GoOther; "header_timestamp" := GoScalar (SInt64 (int64 (h_Timestamp h)))]}.
Definition parent_blocks (h : BlockHeader) : string :=
  foldl (fun parents cid => parents +:+ cid +:+ ",") EmptyString (h_Parents h).
Definition header_tags (h : BlockHeader) : gmap string string :=
  {["header_cid" := h_Cid h; "miner_id" := h_Miner h; "parent_state_root" := h_ParentStateRoot h;
    "parent_weight" := h_ParentWeight h; "parents" := parent_blocks h]}.

Definition recordBlockHeaderPoints ac (h : BlockHeader) (receivedAt now : Z) w : option (option tmetric * W) :=
  AddFields ac "observed_headers" (header_fields h) (header_tags h) (Some receivedAt) now w.

Definition tipset_fields (t : TipSet) (receivedAt : Z) : gmap string GoVal :=
  {["tipset_height" := GoScalar (SInt (Height t)); "block_count" := GoScalar (SInt (Z.of_nat (length (Cids t))));
    "recorded_at" := GoScalar (SInt64 (int64 receivedAt))]}.

(** [inr] is the error of a tipset without blocks. *)
Definition recordTipsetMessagesPoints ac (t : TipSet) (receivedAt now : Z) w :
    option ((option tmetric + err) * W) :=
  let ts := unix_sec (int64 (MinTimestamp t)) in
  if (length (Cids t) =? 0)%nat then Some (inr "no cids in tipset", w) else
  '(m, w) ← AddFields ac "observed_tipsets" (tipset_fields t receivedAt)
    {["tipset_key" := Key_String t]} (Some ts) now w;
  Some (inl m, w).

(** [processTipset], [processHeader]: what is sent on; an error is added to the accumulator. *)
Definition processTipset ac (t : TipSet) (receivedAt now : Z) w : option (option tmetric * W) :=
  '(r, w) ← recordTipsetMessagesPoints ac t receivedAt now w;
  match r with
  | inr e => Some (None, AddError ac (Some e) w)
  | inl m => Some (m, w)
  end.
Definition processHeader ac (h : BlockHeader) (receivedAt now : Z) w : option (option tmetric * W) :=
  recordBlockHeaderPoints ac h receivedAt now w.

(** [strings.SplitN(s, "+", 2)]: the parts. *)
Fixpoint split_plus (s : string) : string * option string :=
  match s with
  | EmptyString => (EmptyString, None)
  | String c s' =>
    if decide (c = "+"%char) then (EmptyString, Some s')
    else let '(a, b) := split_plus s' in (String c a, b)
  end.

(** The answers of the node: identity, version and its two parts, network name; [None] is an error. *)
Record NodeInfo := mkInfoOf {
  node_ID : option string;
  node_Version : option (string * string);
  node_Network : option string;
}.

(** [recordLotusInfoPoints]: [None] is a panic, [inr] the error of a call. *)
Definition recordLotusInfoPoints ac (n : NodeInfo) (now : Z) w : option ((option tmetric + err) * W) :=
  match node_ID n with
  | None => Some (inr "ID", w)
  | Some peer =>
    match node_Version n with
    | None => Some (inr "Version", w)
    | Some (v, api) =>
      match split_plus v with
      | (_, None) => None
      | (version, Some commit) =>
        match node_Network n with
        | None => Some (inr "StateNetworkName", w)
        | Some network =>
          '(m, w) ← AddFields ac "observed_info" {["nothing" := GoScalar (SInt 0)]}
            {["api_version" := api; "commit" := commit; "network" := network;
              "peer_id" := peer; "version" := version]} None now w;
          Some (inl m, w)
        end
      end
    end
  end.
End Points.

(** ** [lotus_peer_id/peerid.go] *)

Module PeerID.
Record LotusPeerIDTagger := mkTagger {
  Config_DataPath : string;
  Config_APIListenAddr : string;
  Config_APIToken : string;
  Config_Excluded : list string;
  apiBackOffThrottle : Z;
  curAPIBackOff : Z;
  initializedDefaults : bool;
  excludeMap : gset string;
  peerID : string;
}.

(** Asking the node for its identity, over a connection made from address and token or from
    the data path, is a call of the environment; [None] is an error. [ID_String] is
    the text form of an identity. *)
Class NodeEnv (W : Type) := {
  node_by_credentials : string -> string -> W -> option string * W;
  node_by_path : string -> W -> option string * W;
  ID_String : string -> string;
}.

Definition PeerIDTagName : string := "peer_id".

Definition setAPIConfigDefaults (l : LotusPeerIDTagger) : LotusPeerIDTagger :=
  mkTagger
    (if (String.length (Config_DataPath l) =? 0)%nat then "${HOME}/.lotus" else Config_DataPath l)
    (if (String.length (Config_APIListenAddr l) =? 0)%nat then "/ip4/0.0.0.0/tcp/1234" else Config_APIListenAddr l)
    (Config_APIToken l) (Config_Excluded l) (10 * 1000000000) 0
    (initializedDefaults l) (excludeMap l) (peerID l).

Definition setExcludeMap (l : LotusPeerIDTagger) : LotusPeerIDTagger :=
  mkTagger (Config_DataPath l) (Config_APIListenAddr l) (Config_APIToken l) (Config_Excluded l)
    (apiBackOffThrottle l) (curAPIBackOff l) (initializedDefaults l)
    (foldl (fun ex e => {[e]} ∪ ex) ∅ (Config_Excluded l)) (peerID l).

Definition set_initialized (l : LotusPeerIDTagger) : LotusPeerIDTagger :=
  mkTagger (Config_DataPath l) (Config_APIListenAddr l) (Config_APIToken l) (Config_Excluded l)
    (apiBackOffThrottle l) (curAPIBackOff l) true (excludeMap l) (peerID l).
Definition set_backoff (t : Z) (l : LotusPeerIDTagger) : LotusPeerIDTagger :=
  mkTagger (Config_DataPath l) (Config_APIListenAddr l) (Config_APIToken l) (Config_Excluded l)
    (apiBackOffThrottle l) t (initializedDefaults l) (excludeMap l) (peerID l).
Definition set_peer (p : string) (l : LotusPeerIDTagger) : LotusPeerIDTagger :=
  mkTagger (Config_DataPath l) (Config_APIListenAddr l) (Config_APIToken l) (Config_Excluded l)
    (apiBackOffThrottle l) (curAPIBackOff l) (initializedDefaults l) (excludeMap l) p.

Section Tagger.
Context {W : Type} `{NodeEnv W} `{ClockEnv W}.

(** [setPeerID], with [getAPIUsingLotusConfig]: whether it succeeded. *)
Definition setPeerID (l : LotusPeerIDTagger) (w : W) : bool * LotusPeerIDTagger * W :=
  let '(pid, w) :=
    if (0 <? String.length (Config_APIListenAddr l))%nat && (0 <? String.length (Config_APIToken l))%nat
    then node_by_credentials (Config_APIListenAddr l) (Config_APIToken l) w
    else node_by_path (Config_DataPath l) w in
  match pid with
  | None => (false, l, w)
  | Some pid => (true, set_peer pid l, w)
  end.

Definition tag_point (l : LotusPeerIDTagger) (m : metric) : metric :=
  if decide (name m ∈ excludeMap l) then m else AddTag PeerIDTagName (ID_String (peerID l)) m.

Definition Apply (ins : list tmetric) (l : LotusPeerIDTagger) (w : W) :
    option (list tmetric * LotusPeerIDTagger * W) :=
  let l := if initializedDefaults l then l else set_initialized (setExcludeMap (setAPIConfigDefaults l)) in
  let '(now, w) := read_clock w in
  if time_Sub now (curAPIBackOff l) <? apiBackOffThrottle l then Some (ins, l, w) else
  if (String.length (peerID l) =? 0)%nat then
    match setPeerID l w with
    | (false, l, w) => let '(now, w) := read_clock w in Some (ins, set_backoff now l, w)
    | (true, l, w) => Some (each (tag_point l) ins, l, w)
    end
  else Some (each (tag_point l) ins, l, w).
End Tagger.
End PeerID.

#[export] Instance peer_id_processor {W} `{PeerID.NodeEnv W} `{ClockEnv W} :
  Processor PeerID.LotusPeerIDTagger W := PeerID.Apply.

(** ** The order of tipsets *)

Section TipsProofs.
Context `{TipSets} (ChainGetTipSet : nat -> TipSetKey -> option TipSet).
Implicit Types (l cs : list HeadChange) (st : tips) (t p : TipSet).

Lemma swap_loop_lookup fuel i j (l : list TipSet) k :
  (i + j + 1 = length l)%nat -> (j - i <= fuel)%nat ->
  swap_loop fuel i j l !! k = if decide (i <= k <= j)%nat then l !! (i + j - k)%nat else l !! k.
Proof.
  revert i j l. induction fuel as [|fuel IH]; intros i j l Hl Hf; cbn [swap_loop].
  { case_decide; [f_equal; lia|done]. }
  destruct (Nat.ltb_spec i j) as [Hij|Hij]; [|case_decide; [f_equal; lia|done]].
  destruct (lookup_lt_is_Some_2 l i ltac:(lia)) as [x Hx], (lookup_lt_is_Some_2 l j ltac:(lia)) as [y Hy].
  rewrite Hx, Hy, IH by (rewrite ?length_insert; lia).
  destruct (decide (k = i)) as [->|Hki]; [|destruct (decide (k = j)) as [->|Hkj]].
  - rewrite decide_False, decide_True by lia. rewrite list_lookup_insert_ne by lia.
    rewrite list_lookup_insert_eq by lia. by replace (i + j - i)%nat with j by lia.
  - rewrite decide_False, decide_True by lia. rewrite list_lookup_insert_eq by (rewrite length_insert; lia).
    by replace (i + j - j)%nat with i by lia.
  - assert (forall n, n <> i -> n <> j -> <[j:=x]> (<[i:=y]> l) !! n = l !! n) as Hn.
    { intros n H1 H2. by rewrite !list_lookup_insert_ne by lia. }
    destruct (decide (i <= k <= j)%nat); [rewrite decide_True by lia|rewrite decide_False by lia].
    + rewrite Hn by lia. f_equal. lia.
    + by apply Hn.
Qed.

Lemma swap_loop_reverse (l : list TipSet) : swap_loop (length l) 0 (length l - 1) l = reverse l.
Proof.
  destruct (decide (length l = 0)%nat) as [E|E]; [by destruct l|].
  apply list_eq. intros k. rewrite swap_loop_lookup by lia. case_decide.
  - rewrite reverse_lookup by lia. f_equal. lia.
  - rewrite lookup_ge_None_2 by lia. symmetry. apply lookup_ge_None_2. rewrite length_reverse. lia.
Qed.

(** The tipsets from [t] back to, and without, the first one that is not above
    [lowest] or is the genesis, newest first, each the node's answer for the parents of the one before. *)
Inductive ancestors (lowest : Z) : TipSet -> list TipSet -> Prop :=
| ancestors_stop t : Height t = 0 \/ Height t <= lowest -> ancestors lowest t []
| ancestors_step t p n path :
    Height t <> 0 -> lowest < Height t -> ChainGetTipSet n (Parents t) = Some p ->
    ancestors lowest p path -> ancestors lowest t (t :: path).

(** Heights fall along the chain. *)
Definition heights_fall : Prop :=
  forall n t p, ChainGetTipSet n (Parents t) = Some p -> 0 <= Height p < Height t.

Lemma walk_back_spec fuel t lowest acc call :
  heights_fall -> 0 <= Height t -> (Z.to_nat (Height t) < fuel)%nat ->
  exists path ok call', walk_back ChainGetTipSet fuel t lowest acc call = Some (acc ++ path, ok, call') /\
    (if ok : bool then ancestors lowest t path
     else exists n u, lowest < Height u /\ ChainGetTipSet n (Parents u) = None).
Proof.
  intros Hfall. revert t acc call. induction fuel as [|fuel IH]; intros t acc call Ht Hf; [lia|].
  cbn [walk_back]. destruct (Z.eqb_spec (Height t) 0) as [E|E].
  { exists [], true, call. rewrite app_nil_r. split; [done|]. constructor. by left. }
  destruct (Z.leb_spec (Height t) lowest) as [Hl|Hl].
  { exists [], true, call. rewrite app_nil_r. split; [done|]. constructor. by right. }
  destruct (ChainGetTipSet call (Parents t)) as [p|] eqn:Ep.
  - pose proof (Hfall _ _ _ Ep) as Hp.
    destruct (IH p (acc ++ [t]) (S call) ltac:(lia) ltac:(lia)) as (path & ok & call' & -> & Hok).
    exists (t :: path), ok, call'. rewrite <- app_assoc. split; [done|].
    destruct ok; [by eapply ancestors_step|done].
  - exists [t], false, (S call). split; [done|]. by exists call, t.
Qed.

Lemma loadTipsets_spec t lowest call :
  heights_fall -> 0 <= Height t ->
  (exists path call', loadTipsets ChainGetTipSet t lowest call = Some (reverse path, true, call') /\
     ancestors lowest t path) \/
  (exists part call' n u, loadTipsets ChainGetTipSet t lowest call = Some (part, false, call') /\
     lowest < Height u /\ ChainGetTipSet n (Parents u) = None).
Proof.
  intros Hfall Ht. unfold loadTipsets.
  destruct (walk_back_spec (S (Z.to_nat (Height t))) t lowest [] call Hfall Ht ltac:(lia)) as (path & ok & call' & -> & Hok).
  binds. destruct ok.
  - left. exists path, call'. simpl. by rewrite swap_loop_reverse.
  - right. destruct Hok as (n & u & Hu & Hn). by exists path, call', n, u.
Qed.

(** ** The canonical chain

    The chain above the first head that notifications describe: an applied tipset goes on
    top, a revert takes the top off. *)
Definition chain_step (chain : list TipSet) (c : HeadChange) : list TipSet :=
  match hc_Type c with
  | HCApply => chain ++ [hc_Val c]
  | HCRevert => take (pred (length chain)) chain
  | _ => chain
  end.
Definition chain_after cs (chain : list TipSet) : list TipSet := foldl chain_step chain cs.

(** The greatest length the chain has had. *)
Fixpoint top_after cs (chain : list TipSet) (top : nat) : nat :=
  match cs with
  | [] => top
  | c :: cs' => top_after cs' (chain_step chain c) (top `max` length (chain_step chain c))
  end.

(** Every revert takes off a tipset that was applied after the first head, which is never reverted itself; the chain never gets shorter than its greatest
    length by more than [lag]; and no other head is announced. *)
Fixpoint within (lag : nat) cs (chain : list TipSet) (top : nat) : Prop :=
  match cs with
  | [] => True
  | c :: cs' =>
    match hc_Type c with
    | HCCurrent => False
    | HCRevert => chain <> [] /\ (top < length chain + lag)%nat
    | _ => True
    end /\ within lag cs' (chain_step chain c) (top `max` length (chain_step chain c))
  end.

(** What was sent since the start and what is in the buffer make up the chain. *)
Definition follows (lag : nat) (sent0 chain : list TipSet) (top : nat) st : Prop :=
  exists out, sent st = sent0 ++ out /\ chain = out ++ (hc_Val <$> hb_buffer (hb st)) /\
    length out = (top - lag)%nat /\ (length chain <= top)%nat /\ hb_size (hb st) = Z.of_nat lag.

Lemma on_change_follows lastHeight lag c sent0 chain top st :
  (0 < lag)%nat -> follows lag sent0 chain top st -> within lag [c] chain top ->
  exists st', on_change ChainGetTipSet lastHeight c st = Goes st' /\
    follows lag sent0 (chain_step chain c) (top `max` length (chain_step chain c)) st'.
Proof.
  intros Hlag (out & Es & Ec & Ho & Ht & Hz) [Hw _]. unfold on_change, chain_step.
  assert (length chain = length out + length (hb_buffer (hb st)))%nat as El.
  { rewrite Ec at 1. by rewrite length_app, length_fmap. }
  destruct (hc_Type c) eqn:Eh; [| |done|].
  - destruct Hw as [Hne Hd]. eexists. split; [done|]. exists out. cbn [sent hb]. unfold Pop. cbn [hb_buffer hb_size].
    destruct chain as [|x chain] using rev_ind; [done|clear IHchain]. rewrite length_app in *. simpl in El, Ht, Hd.
    destruct (hb_buffer (hb st)) as [|h bs _] using rev_ind; [simpl in *; lia|].
    rewrite !length_app, !fmap_app in *. simpl in El, Ec |- *.
    rewrite app_assoc in Ec. apply app_inj_tail in Ec as [Ec _].
    replace (pred (length chain + 1)) with (length chain) by lia.
    replace (pred (length bs + 1)) with (length bs) by lia.
    rewrite !take_app_length. split_and!; [done|done|lia|lia|done].
  - unfold Push. rewrite Hz. destruct (Z.eqb_spec (Z.of_nat (length (hb_buffer (hb st)))) (Z.of_nat lag)) as [E|E].
    + destruct (hb_buffer (hb st)) as [|el rest] eqn:Eb; [simpl in *; lia|].
      eexists. split; [done|]. exists (out ++ [hc_Val el]). cbn [sent hb hb_buffer hb_size].
      rewrite Es, <- app_assoc. split; [done|].
      rewrite !length_app, fmap_app. simpl in *. split_and!; [|lia|lia|done].
      rewrite Ec. simpl. by rewrite <- !app_assoc.
    + eexists. split; [done|]. exists out. cbn [sent hb hb_buffer hb_size]. split; [done|].
      rewrite !length_app, fmap_app. simpl in *. split_and!; [|lia|lia|done].
      rewrite Ec. by rewrite <- !app_assoc.
  - eexists. split; [done|]. exists out. split_and!; try done; lia.
Qed.

Lemma on_changes_follows lastHeight lag cs sent0 chain top st :
  (0 < lag)%nat -> follows lag sent0 chain top st -> within lag cs chain top ->
  exists st', on_changes ChainGetTipSet lastHeight cs st = Goes st' /\
    follows lag sent0 (chain_after cs chain) (top_after cs chain top) st'.
Proof.
  intros Hlag. revert chain top st. induction cs as [|c cs IH]; intros chain top st Hf Hw; [by exists st|].
  destruct Hw as [Hc Hw]. destruct (on_change_follows lastHeight lag c sent0 chain top st) as (st1 & E & Hf1);
    [done|done|by split|].
  cbn [on_changes]. rewrite E. by apply IH.
Qed.

Lemma on_changes_app lastHeight cs1 cs2 st :
  on_changes ChainGetTipSet lastHeight (cs1 ++ cs2) st =
  match on_changes ChainGetTipSet lastHeight cs1 st with
  | Goes st => on_changes ChainGetTipSet lastHeight cs2 st
  | o => o
  end.
Proof.
  revert st. induction cs1 as [|c cs1 IH]; intros st; [done|]. cbn [app on_changes].
  by destruct (on_change ChainGetTipSet lastHeight c st).
Qed.

Lemma on_batches_concat lastHeight batches st :
  on_batches ChainGetTipSet lastHeight batches st = on_changes ChainGetTipSet lastHeight (concat batches) st.
Proof.
  revert st. induction batches as [|b bs IH]; intros st; [done|]. cbn [on_batches concat].
  rewrite on_changes_app. by destruct (on_changes ChainGetTipSet lastHeight b st).
Qed.
End TipsProofs.

(** C13: the tipsets sent are the canonical chain, under these conditions: the node first tells its head and then
    applied and reverted tipsets, in any batches; the heights of parents are lower; the lag is positive; the first head and its ancestors are never
    reverted (they are sent without the lag, and stay sent if they are: [first_head_reverted]), and of the tipsets applied after it no
    more than the lag are off the chain at a time. Then the loop does not panic and its walk
    back ends; unless a call of the walk fails, which ends it with nothing sent, the
    tipsets sent followed by those in the head buffer are the ancestors of the first
    head above the last height, oldest first, and then the canonical chain; all but the last
    [lag] tipsets of its greatest extent have been sent. As this holds
    after every notification, no tipset is then sent twice, left out, or reverted once it is sent. *)
Theorem GetTips_follows_chain `{TipSets} (ChainGetTipSet : nat -> TipSetKey -> option TipSet)
    (lastHeight : Z) (lag : nat) (head : TipSet) (cs : list HeadChange) (batches : list (list HeadChange))
    (Hlag : (0 < lag)%nat) (Hfall : heights_fall ChainGetTipSet) (Hhead : 0 <= Height head)
    (Hb : concat batches = mkHC HCCurrent head :: cs) (Hw : within lag cs [] 0) :
  match GetTips ChainGetTipSet lastHeight (Z.of_nat lag) batches with
  | Goes st => exists path, ancestors ChainGetTipSet lastHeight head path /\
      sent st ++ (hc_Val <$> hb_buffer (hb st)) = reverse path ++ chain_after cs [] /\
      length (sent st) = (length path + (top_after cs [] 0 - lag))%nat
  | Returns st => sent st = [] /\ exists n t, lastHeight < Height t /\ ChainGetTipSet n (Parents t) = None
  | Panics | Walks => False
  end.
Proof.
  unfold GetTips. rewrite on_batches_concat, Hb. cbn [on_changes]. unfold on_change at 1. cbn [hc_Type hc_Val calls].
  destruct (loadTipsets_spec ChainGetTipSet head lastHeight 0 Hfall Hhead)
    as [(path & call' & -> & Hpath)|(part & call' & n & t & -> & Ht & Hn)]; cbn [hb sent app].
  - set (st0 := mkTips _ _ _).
    destruct (on_changes_follows ChainGetTipSet lastHeight lag cs (reverse path) [] 0 st0)
      as (st & -> & out & Es & Ec & Ho & _); [done| |done|].
    { exists []. unfold st0. cbn [sent hb]. rewrite app_nil_r. split_and!; done. }
    exists path. split; [done|]. rewrite Es, Ec, <- app_assoc. split; [done|].
    rewrite length_app, length_reverse, Ho. done.
  - split; [done|]. by exists n, t.
Qed.

(** A chain of numbered tipsets whose parents are the numbers below. *)
#[local] Instance ex_tipsets : TipSets := {|
  TipSet := Z * string; TipSetKey := Z; Height := fst; Parents := fun t => t.1 - 1;
  Key_String := snd; MinTimestamp := fun t => 30 * t.1; Cids := fun t => [t.2] |}.
Definition ex_get (n : nat) (h : Z) : option (Z * string) := if h <? 0 then None else Some (h, "main").

Lemma GetTips_follows_chain_witness :
  exists st path, GetTips (H := ex_tipsets) ex_get 4 2
      [[mkHC HCCurrent (6, "main")]; [mkHC HCApply (7, "a"); mkHC HCApply (8, "a")];
       [mkHC HCRevert (8, "a"); mkHC HCApply (8, "b"); mkHC HCApply (9, "b")]] = Goes st /\
    sent st ++ (hc_Val <$> hb_buffer (hb st)) =
      reverse path ++ [(7, "a"); (8, "b"); (9, "b")] /\ sent st = [(5, "main"); (6, "main"); (7, "a")].
Proof.
  pose proof (GetTips_follows_chain (H := ex_tipsets) ex_get 4 2 (6, "main")
    [mkHC HCApply (7, "a"); mkHC HCApply (8, "a"); mkHC HCRevert (8, "a"); mkHC HCApply (8, "b"); mkHC HCApply (9, "b")]
    [[mkHC HCCurrent (6, "main")]; [mkHC HCApply (7, "a"); mkHC HCApply (8, "a")];
     [mkHC HCRevert (8, "a"); mkHC HCApply (8, "b"); mkHC HCApply (9, "b")]]) as Ht.
  destruct Ht as (path & _ & Hs & _).
  - lia.
  - intros n t p. unfold ex_get. cbn. destruct (Z.ltb_spec (t.1 - 1) 0); [done|]. intros [= <-]. simpl. lia.
  - simpl. lia.
  - done.
  - repeat split; simpl; try lia; done.
  - eexists _, path. split; [reflexivity|]. split; [exact Hs|reflexivity].
Defined.

(** Outside of the conditions: a first head that is reverted and replaced stays among the tipsets sent, although the lag is two. *)
Lemma first_head_reverted :
  match GetTips (H := ex_tipsets) ex_get 5 2 [[mkHC HCCurrent (6, "main")]; [mkHC HCRevert (6, "main"); mkHC HCApply (6, "b")]] with
  | Goes st => sent st = [(6, "main")] /\ hc_Val <$> hb_buffer (hb st) = [(6, "b")]
  | _ => False
  end.
Proof. vm_compute. done. Qed.

(** ** The points *)

(** What the input records. A header gives one metric "observed_headers" with its five
    tags and its timestamp, at the time of receipt, and without the height, whose named type is
    not one that fields are converted from. A tipset with blocks gives one metric
    "observed_tipsets" at its own time, with height, number of blocks and time of
    receipt; a tipset without blocks gives none, and counts as an error. *)
Theorem Lotus_points `{TipSets} `{MapRange} {M W : Type} `{StatEnv W} `{MetricMaker M W}
    (ac : accumulator M) (h : BlockHeader) (t : TipSet) (receivedAt now : Z) (w : W) :
  (exists m, processHeader ac h receivedAt now w = maker_MakeMetric (maker ac) (mkTM m None) w /\
     wf m /\ abs m = mkAbs "observed_headers" (header_tags h)
       {["header_timestamp" := VInt (int64 (h_Timestamp h))]} (Round receivedAt (precision ac)) Untyped false) /\
  (exists m, processTipset ac t receivedAt now w =
       (if is_nil (Cids t) then Some (None, AddError ac (Some "no cids in tipset") w)
        else maker_MakeMetric (maker ac) (mkTM m None) w) /\
     wf m /\ abs m = mkAbs "observed_tipsets" {["tipset_key" := Key_String t]}
       {["tipset_height" := VInt (Height t); "block_count" := VInt (Z.of_nat (length (Cids t)));
         "recorded_at" := VInt (int64 receivedAt)]}
       (Round (unix_sec (int64 (MinTimestamp t))) (precision ac)) Untyped false).
Proof.
  split.
  - eexists. split; [reflexivity|]. split; [apply New_wf|]. rewrite New_abs. unfold getTime. f_equal.
  - unfold processTipset, recordTipsetMessagesPoints.
    exists (Metric.New "observed_tipsets" {["tipset_key" := Key_String t]} (tipset_fields t receivedAt)
      (getTime ac (Some (unix_sec (int64 (MinTimestamp t)))) now) [Untyped]).
    split; [|split; [apply New_wf|]].
    + unfold AddFields, addFields. destruct (Cids t) as [|c cs]; [done|]. cbn [length Nat.eqb is_nil].
      destruct (maker_MakeMetric _ _ w) as [[m w']|]; done.
    + rewrite New_abs. unfold getTime. by f_equal.
Qed.

(** ** Asking the node for its identity *)

Section PeerProofs.
Import PeerID.

(** An environment whose clock does not run backwards and which notes when the node
    is asked; a node that answers has an identity. *)
Class NodeLaws (W : Type) `{NodeEnv W} `{ClockEnv W} := {
  moment : W -> Z;
  asked : W -> list Z;
  clock_moves : forall w : W, moment w <= (read_clock w).1 <= moment (read_clock w).2 /\
    asked (read_clock w).2 = asked w;
  credentials_noted : forall a t (w : W), exists q, moment w <= q <= moment (node_by_credentials a t w).2 /\
    asked (node_by_credentials a t w).2 = asked w ++ [q] /\ (node_by_credentials a t w).1 <> Some EmptyString;
  path_noted : forall p (w : W), exists q, moment w <= q <= moment (node_by_path p w).2 /\
    asked (node_by_path p w).2 = asked w ++ [q] /\ (node_by_path p w).1 <> Some EmptyString;
}.

Context {W : Type} `{NodeLaws W}.
Implicit Types (l : LotusPeerIDTagger) (w : W).

Definition backoff : Z := 10 * 1000000000.

(** Later questions are at least the back-off apart. *)
Definition spaced (qs : list Z) : Prop := forall i q1 q2, qs !! i = Some q1 -> qs !! S i = Some q2 -> q1 + backoff <= q2.

(** A tagger in use: either it knows the identity, or its last question is not after
    the start of its back-off. *)
Definition ready l w : Prop :=
  initializedDefaults l = true /\ apiBackOffThrottle l = backoff /\ curAPIBackOff l <= moment w /\
  excludeMap l = list_to_set (Config_Excluded l) /\ spaced (asked w) /\
  (peerID l = EmptyString -> forall q, last (asked w) = Some q -> q <= curAPIBackOff l).

Lemma exclude_set (es : list string) (s : gset string) : foldl (fun ex e => {[e]} ∪ ex) s es = list_to_set es ∪ s.
Proof. revert s. induction es as [|e es IH]; intros s; simpl; [set_solver|]. rewrite IH. set_solver. Qed.

Lemma time_Sub_ge t u d : 0 <= d -> d <= time_Sub t u -> u + d <= t.
Proof. unfold time_Sub, MinInt64, MaxInt64. lia. Qed.

Lemma spaced_snoc qs q : spaced qs -> (forall p, last qs = Some p -> p + backoff <= q) -> spaced (qs ++ [q]).
Proof.
  intros Hs Hl i q1 q2 E1 E2. destruct (decide (S i < length qs)%nat).
  - rewrite lookup_app_l in E1, E2 by lia. by eapply Hs.
  - pose proof (lookup_lt_Some _ _ _ E2) as Hlt. rewrite length_app in Hlt. simpl in Hlt.
    assert (length qs = S i) as E by lia.
    rewrite lookup_app_r, E, Nat.sub_diag in E2 by lia. injection E2 as <-.
    rewrite lookup_app_l in E1 by lia. apply Hl. rewrite last_lookup, E. done.
Qed.

(** The question and its answer. *)
Lemma setPeerID_noted l w :
  exists q w', moment w <= q <= moment w' /\ asked w' = asked w ++ [q] /\
    ((setPeerID l w = (false, l, w')) \/
     (exists p, p <> EmptyString /\ setPeerID l w = (true, set_peer p l, w'))).
Proof.
  unfold setPeerID. destruct (_ && _).
  - destruct (credentials_noted (Config_APIListenAddr l) (Config_APIToken l) w) as (q & Hq & Ha & Hn).
    destruct (node_by_credentials _ _ w) as [[p|] w']; exists q, w'; simpl in *; (split_and!; [lia..|done|]).
    + right. exists p. split; [congruence|done].
    + by left.
  - destruct (path_noted (Config_DataPath l) w) as (q & Hq & Ha & Hn).
    destruct (node_by_path _ w) as [[p|] w']; exists q, w'; simpl in *; (split_and!; [lia..|done|]).
    + right. exists p. split; [congruence|done].
    + by left.
Qed.

(** What one call does from a tagger in use, or a fresh one. *)
Definition tagged (l : LotusPeerIDTagger) (ins : list tmetric) : list tmetric :=
  each (fun m => if decide (name m ∈ Config_Excluded l) then m else AddTag PeerIDTagName (ID_String (peerID l)) m) ins.

Lemma tag_point_config l ins : excludeMap l = list_to_set (Config_Excluded l) -> each (tag_point l) ins = tagged l ins.
Proof.
  intros E. apply list_fmap_ext. intros i m _. unfold tag_point. rewrite E. f_equal.
  destruct (decide (name (base m) ∈ Config_Excluded l)) as [Hi|Hi];
    [rewrite decide_True|rewrite decide_False]; [done| |done|]; by rewrite elem_of_list_to_set.
Qed.

Lemma Apply_ready ins l w :
  ready l w -> exists out l' w', Apply ins l w = Some (out, l', w') /\ ready l' w' /\
    Config_Excluded l' = Config_Excluded l /\ moment w <= moment w' /\
    (peerID l <> EmptyString -> peerID l' = peerID l /\ asked w' = asked w) /\
    (out = ins \/ (peerID l' <> EmptyString /\ out = tagged l' ins)).
Proof.
  intros (Hi & Ht & Hb & He & Hs & Hp). unfold Apply. rewrite Hi.
  destruct (clock_moves w) as [Hc Ha]. destruct (read_clock w) as [now w1]. cbn [fst snd] in *.
  destruct (Z.ltb_spec (time_Sub now (curAPIBackOff l)) (apiBackOffThrottle l)) as [Hlt|Hge].
  { exists ins, l, w1. split_and!; [done| |done|lia|done|by left]. split_and!; [done..|lia|done|by rewrite Ha|by rewrite Ha]. }
  rewrite Ht in Hge. apply time_Sub_ge in Hge; [|unfold backoff; lia].
  destruct (Nat.eqb_spec (String.length (peerID l)) 0) as [E|E].
  - assert (peerID l = EmptyString) as Ep by (by destruct (peerID l)).
    destruct (setPeerID_noted l w1) as (q & w2 & Hq & Ha2 & [->|(p & Hne & ->)]).
    + destruct (clock_moves w2) as [Hc2 Ha3]. destruct (read_clock w2) as [now2 w3]. cbn [fst snd] in *.
      exists ins, (set_backoff now2 l), w3. split_and!; [done| |done|lia|done|by left].
      split_and!; [done|done|simpl; lia|done| |].
      * rewrite Ha3, Ha2, Ha. apply spaced_snoc; [done|]. intros p Hl. specialize (Hp Ep p Hl). lia.
      * intros _ p. rewrite Ha3, Ha2, last_snoc. intros [= <-]. simpl. lia.
    + exists (tagged (set_peer p l) ins), (set_peer p l), w2. rewrite tag_point_config by done.
      split_and!; [done| |done|lia|done|by right].
      split_and!; [done|done|simpl; lia|done| |by intros [=]].
      rewrite Ha2, Ha. apply spaced_snoc; [done|]. intros p' Hl. specialize (Hp Ep p' Hl). lia.
  - assert (peerID l <> EmptyString) as Ep by (intros E'; by rewrite E' in E).
    exists (tagged l ins), l, w1. rewrite tag_point_config by done. split_and!; [done| |done|lia|done|by right].
    split_and!; [done..|lia|done|by rewrite Ha|done].
Qed.

(** A fresh tagger becomes ready at its first call. *)
Lemma Apply_fresh ins l w :
  initializedDefaults l = false -> Apply ins l w = Apply ins (set_initialized (setExcludeMap (setAPIConfigDefaults l))) w.
Proof. unfold Apply. by intros ->. Qed.

(** Successive calls, with their results. *)
Fixpoint run_tagger (calls : list (list tmetric)) l w : option (list (list tmetric) * LotusPeerIDTagger * W) :=
  match calls with
  | [] => Some ([], l, w)
  | ins :: calls' =>
    '(out, l, w) ← Apply ins l w;
    '(outs, l, w) ← run_tagger calls' l w;
    Some (out :: outs, l, w)
  end.

Lemma run_tagger_ready calls l w :
  ready l w -> exists outs l' w', run_tagger calls l w = Some (outs, l', w') /\ ready l' w' /\
    Config_Excluded l' = Config_Excluded l /\
    (peerID l <> EmptyString -> peerID l' = peerID l /\ asked w' = asked w) /\
    Forall2 (fun ins out => out = ins \/ (peerID l' <> EmptyString /\ out = tagged l' ins)) calls outs.
Proof.
  revert l w. induction calls as [|ins calls IH]; intros l w Hr; [exists [], l, w; by split_and!|].
  destruct (Apply_ready ins l w Hr) as (out & l1 & w1 & E & Hr1 & He1 & _ & Hk1 & Ho1).
  destruct (IH l1 w1 Hr1) as (outs & l2 & w2 & E2 & Hr2 & He2 & Hk2 & Ho2).
  cbn [run_tagger]. rewrite E. binds. rewrite E2. binds.
  eexists _, l2, w2. split_and!; [done|done|congruence| |constructor; [|done]].
  - intros Hp. destruct (Hk1 Hp) as [E1 A1]. destruct Hk2 as [E3 A2]; [congruence|]. split; congruence.
  - destruct Ho1 as [->|[Hne ->]]; [by left|right]. destruct (Hk2 Hne) as [Ep _].
    split; [congruence|]. unfold tagged. by rewrite He2, Ep.
Qed.
End PeerProofs.

(** The tagger of node identities, over any sequence of calls on a fresh one:
    every call returns all its metrics, either unchanged or each with the node's identity
    as its "peer_id" tag unless its name is excluded; all tagged calls use the same identity; questions
    to the node are at least ten seconds apart; and a tagger that knows
    the identity never asks again. *)
Theorem PeerID_asks {W : Type} `{NodeLaws W} (calls : list (list tmetric))
    (l : PeerID.LotusPeerIDTagger) (w : W)
    (Hfresh : PeerID.initializedDefaults l = false) (Hid : PeerID.peerID l = EmptyString)
    (Hw : 0 <= moment w) (Ha : asked w = []) :
  exists outs l' w', run_tagger calls l w = Some (outs, l', w') /\ spaced (asked w') /\
    Forall2 (fun ins out => out = ins \/ (PeerID.peerID l' <> EmptyString /\ out = tagged l' ins)) calls outs /\
    (PeerID.peerID l' <> EmptyString -> forall more, exists outs' l'' w'',
       run_tagger more l' w' = Some (outs', l'', w'') /\ PeerID.peerID l'' = PeerID.peerID l' /\ asked w'' = asked w').
Proof.
  assert (forall l, ready l w -> PeerID.peerID l = EmptyString ->
    exists outs l' w', run_tagger calls l w = Some (outs, l', w') /\ spaced (asked w') /\
    Forall2 (fun ins out => out = ins \/ (PeerID.peerID l' <> EmptyString /\ out = tagged l' ins)) calls outs /\
    (PeerID.peerID l' <> EmptyString -> forall more, exists outs' l'' w'',
       run_tagger more l' w' = Some (outs', l'', w'') /\ PeerID.peerID l'' = PeerID.peerID l' /\ asked w'' = asked w')) as Hmain.
  { clear l Hfresh Hid. intros l Hr Hid. destruct (run_tagger_ready calls l w Hr) as (outs & l' & w' & E & Hr' & _ & _ & Ho).
    exists outs, l', w'. split_and!; [done|apply Hr'|done|].
    intros Hp more. destruct (run_tagger_ready more l' w' Hr') as (outs' & l'' & w'' & E' & _ & _ & Hk & _).
    exists outs', l'', w''. split; [done|]. by apply Hk. }
  set (l0 := PeerID.set_initialized (PeerID.setExcludeMap (PeerID.setAPIConfigDefaults l))).
  assert (ready l0 w) as Hr.
  { split_and!; [done|done|done| |by rewrite Ha|by rewrite Ha]. unfold l0. cbn. rewrite exclude_set. set_solver. }
  destruct calls as [|ins calls].
  - exists [], l, w. split_and!; [done|by rewrite Ha|done|]. by rewrite Hid.
  - cbn [run_tagger]. rewrite (Apply_fresh ins l w) by done. fold l0. apply (Hmain l0 Hr Hid).
Qed.

(** A world of a clock that moves four seconds at each reading and a node that answers from the
    time 30 s on; it notes the questions. *)
Record ex_node := mkExNode { en_now : Z; en_asked : list Z }.
#[local] Instance ex_node_clock : ClockEnv ex_node := fun w =>
  (en_now w, mkExNode (en_now w + 4000000000) (en_asked w)).
Definition ex_ask (w : ex_node) : option string * ex_node :=
  (if en_now w <? 30000000000 then None else Some "id", mkExNode (en_now w) (en_asked w ++ [en_now w])).
#[local] Instance ex_node_env : PeerID.NodeEnv ex_node :=
  {| PeerID.node_by_credentials := fun _ _ => ex_ask; PeerID.node_by_path := fun _ => ex_ask;
     PeerID.ID_String := fun p => "12D3" +:+ p |}.
#[local, refine] Instance ex_node_laws : NodeLaws ex_node := {| moment := en_now; asked := en_asked |}.
Proof.
  - intros w. simpl. split; [lia|done].
  - intros a t w. exists (en_now w). simpl. split_and!; [lia..|done|]. by destruct (_ <? _).
  - intros p w. exists (en_now w). simpl. split_and!; [lia..|done|]. by destruct (_ <? _).
Defined.

Definition ex_tagger : PeerID.LotusPeerIDTagger :=
  PeerID.mkTagger EmptyString EmptyString EmptyString ["skip"] 0 0 false ∅ EmptyString.

Lemma PeerID_asks_witness :
  exists outs l' w', run_tagger (repeat [mkTM ex_metric None] 8) ex_tagger (mkExNode 11000000000 []) = Some (outs, l', w') /\
    spaced (asked w') /\ length (asked w') = 2%nat /\ PeerID.peerID l' = "id".
Proof.
  destruct (PeerID_asks (repeat [mkTM ex_metric None] 8) ex_tagger (mkExNode 11000000000 []))
    as (outs & l' & w' & E & Hs & _); [done|done|simpl; lia|done|].
  exists outs, l', w'. split; [exact E|]. split; [exact Hs|]. vm_compute in E. injection E as _ <- <-. split; reflexivity.
Defined.
