(* ===== verification/Postgresql.v ===== *)
(** * The PostgreSQL output

    [plugins/outputs/postgresql]: the columns a batch of metrics needs ([columns/]), the
    rows made of metrics ([transformer.go]), the cache of tag sets
    ([tags_cache.go]), the tables ([tables/table_manager.go]), the helpers ([utils/]) and the
    writing of a batch ([postgresql.go]).

    The database driver is code of another package: its calls are the class [DbEnv]. Quoting of
    identifiers is the driver's, [Sanitize]; the LRU cache is a package's, the class
    [Lru]. The text that [json.Marshal] makes of a map is represented by the map. *)

From Stdlib Require Import Ascii.
From S2P Require Import Prelude Float64 Strconv Strings Metric Filter Tracking.

(** ** [utils/types.go], [utils/utils.go] *)

Inductive ColumnRole := TimeColType | TagsIDColType | TagColType | FieldColType.
#[export] Instance ColumnRole_eq_dec : EqDecision ColumnRole.
Proof. solve_decision. Defined.

Notation PgDataType := string (only parsing).

Record TargetColumns := mkTC {
  Names : list string;
  DataTypes : list PgDataType;
  Target : gmap string Z;
  Roles : list ColumnRole;
}.

(** [GroupMetricsByMeasurement]: the indices of the metrics of each name. *)
Definition GroupMetricsByMeasurement (ms : list tmetric) : gmap string (list nat) :=
  foldl (fun (r : gmap string (list nat)) im =>
    let n := name (base im.2) in
    let '(locations, r) := match r !! n with Some ls => (ls, r) | None => ([], <[n := []]> r) end in
    <[n := locations ++ [im.1]]> r) ∅ (zip (seq 0 (length ms)) ms).

Definition quote : ascii := ascii_of_N 39.
Definition quote_s : string := String quote EmptyString.
Definition QuoteLiteral (nm : string) : string :=
  quote_s +:+ ReplaceAll nm quote_s (quote_s +:+ quote_s) +:+ quote_s.

(** [FullTableName]: the parts of the identifier. *)
Definition FullTableName (schema nm : string) : list string :=
  if decide (schema <> EmptyString) then [schema; nm] else [nm].

Definition PgBool : PgDataType := "boolean".
Definition PgInt8 : PgDataType := "int8".
Definition PgInt4 : PgDataType := "int4".
Definition PgFloat8 : PgDataType := "float8".
Definition PgText : PgDataType := "text".
Definition PgTimestamptz : PgDataType := "timestamptz".
Definition PgTimestamp : PgDataType := "timestamp".
Definition PgSerial : PgDataType := "serial".
Definition PgJSONb : PgDataType := "jsonb".

(** [DerivePgDatatype], of the values a metric's fields can have. *)
Definition DerivePgDatatype (v : Val) : PgDataType :=
  match v with
  | VBool _ => PgBool
  | VUint _ | VInt _ => PgInt8
  | VFloat _ => PgFloat8
  | VString _ => PgText
  | VNil => PgText
  end.

Definition LongToShortPgType (longPgType : string) : PgDataType :=
  if decide (longPgType = "integer") then PgInt4
  else if decide (longPgType = "bigint") then PgInt8
  else if decide (longPgType = "double precision") then PgFloat8
  else if decide (longPgType = "timestamp with time zone") then PgTimestamptz
  else if decide (longPgType = "timestamp without time zone") then PgTimestamp
  else longPgType.

Definition PgTypeCanContain (canThis containThis : PgDataType) : bool :=
  if decide (canThis = containThis) then true
  else if decide (canThis = PgInt8) then bool_decide (containThis = PgInt4)
  else if decide (canThis = PgInt4) then bool_decide (containThis = PgSerial)
  else if decide (canThis = PgFloat8) then bool_decide (containThis = PgInt4)
  else if decide (canThis = PgTimestamptz) then bool_decide (containThis = PgTimestamp)
  else false.

(** A value sent to the database: NULL, a time, a text, a field value, a tag id, or the text
    that [json.Marshal] gives for a map. *)
Inductive cell :=
| CNull
| CTime (t : Z)
| CText (s : string)
| CVal (v : Val)
| CTagID (n : Z)
| CJsonTags (m : gmap string string)
| CJsonFields (m : gmap string Val).

(** [BuildJsonb]: a float that is not a number or infinite has no JSON text. *)
Definition json_val (v : Val) : bool :=
  match v with VFloat x => negb (f_is_nan x || f_is_inf x) | _ => true end.
Definition BuildJsonb_tags (m : gmap string string) : cell := CJsonTags m.
Definition BuildJsonb_fields (m : gmap string Val) : option cell :=
  if forallb (fun kv => json_val kv.2) (map_to_list m) then Some (CJsonFields m) else None.

(** ** [columns/] *)

Definition TimeColumnName : string := "time".
Definition TagIDColumnName : string := "tag_id".
Definition TagsJSONColumn : string := "tags".
Definition FieldsJSONColumn : string := "fields".

Definition tagsAsFKAndJSONAndFieldsAsJSONInit : TargetColumns * option TargetColumns :=
  (mkTC [TimeColumnName; TagIDColumnName; FieldsJSONColumn] [PgTimestamptz; PgInt4; PgJSONb]
     {[TimeColumnName := 0; TagIDColumnName := 1; FieldsJSONColumn := 2]} [TimeColType; TagsIDColType; FieldColType],
   Some (mkTC [TagIDColumnName; TagsJSONColumn] [PgSerial; PgJSONb]
     {[TagIDColumnName := 0; TagsJSONColumn := 1]} [TagsIDColType; TagColType])).
Definition tagsAsFKAndJSONInit : TargetColumns * option TargetColumns :=
  (mkTC [TimeColumnName; TagIDColumnName] [PgTimestamptz; PgInt4]
     {[TimeColumnName := 0; TagIDColumnName := 1]} [TimeColType; TagsIDColType],
   Some (mkTC [TagIDColumnName; TagsJSONColumn] [PgSerial; PgJSONb]
     {[TagIDColumnName := 0; TagsJSONColumn := 1]} [TagsIDColType; FieldColType])).
Definition tagsAsFKFieldsAsJSONInit : TargetColumns * option TargetColumns :=
  (mkTC [TimeColumnName; TagIDColumnName; FieldsJSONColumn] [PgTimestamptz; PgInt4; PgJSONb]
     {[TimeColumnName := 0; TagIDColumnName := 1; FieldsJSONColumn := 2]} [TimeColType; TagsIDColType; FieldColType],
   Some (mkTC [TagIDColumnName] [PgSerial] {[TagIDColumnName := 0]} [TagsIDColType])).
Definition tagsAsFKInit : TargetColumns * option TargetColumns :=
  (mkTC [TimeColumnName; TagIDColumnName] [PgTimestamptz; PgInt4]
     {[TimeColumnName := 0; TagIDColumnName := 1]} [TimeColType; TagsIDColType],
   Some (mkTC [TagIDColumnName] [PgSerial] {[TagIDColumnName := 0]} [TagsIDColType])).
Definition tagsAndFieldsAsJSONInit : TargetColumns * option TargetColumns :=
  (mkTC [TimeColumnName; TagsJSONColumn; FieldsJSONColumn] [PgTimestamptz; PgJSONb; PgJSONb]
     {[TimeColumnName := 0; TagsJSONColumn := 1; FieldsJSONColumn := 2]} [TimeColType; TagColType; FieldColType], None).
Definition tagsAsJSONInit : TargetColumns * option TargetColumns :=
  (mkTC [TimeColumnName; TagsJSONColumn] [PgTimestamptz; PgJSONb]
     {[TimeColumnName := 0; TagsJSONColumn := 1]} [TimeColType; TagColType], None).
Definition fieldsAsJSONInit : TargetColumns * option TargetColumns :=
  (mkTC [TimeColumnName; FieldsJSONColumn] [PgTimestamptz; PgJSONb]
     {[TimeColumnName := 0; FieldsJSONColumn := 1]} [TimeColType; FieldColType], None).
Definition vanillaColumns : TargetColumns * option TargetColumns :=
  (mkTC [TimeColumnName] [PgTimestamptz] {[TimeColumnName := 0]} [TimeColType], None).

(** [getInitialColumnsGenerator] with the table [standardColumns]. *)
Definition getInitialColumnsGenerator (tagsAsFK tagsAsJSON fieldsAsJSON : bool) :
    TargetColumns * option TargetColumns :=
  match tagsAsFK, tagsAsJSON, fieldsAsJSON with
  | true, true, true => tagsAsFKAndJSONAndFieldsAsJSONInit
  | true, true, false => tagsAsFKAndJSONInit
  | true, false, true => tagsAsFKFieldsAsJSONInit
  | true, false, false => tagsAsFKInit
  | false, true, true => tagsAndFieldsAsJSONInit
  | false, true, false => tagsAsJSONInit
  | false, false, true => fieldsAsJSONInit
  | false, false, false => vanillaColumns
  end.

(** One new column. *)
Definition map_key (k : string) (ty : PgDataType) (role : ColumnRole) (st : gset string * TargetColumns) :
    gset string * TargetColumns :=
  let '(alreadyMapped, c) := st in
  if decide (k ∈ alreadyMapped) then st else
  ({[k]} ∪ alreadyMapped,
   mkTC (Names c ++ [k]) (DataTypes c ++ [ty]) (<[k := Z.of_nat (length (Names c))]> (Target c)) (Roles c ++ [role])).

Definition mapTags (ts : list Tag) (st : gset string * TargetColumns) : gset string * TargetColumns :=
  foldl (fun st t => map_key (Key t) PgText TagColType st) st ts.
Definition mapFields (fs : list Field) (st : gset string * TargetColumns) : gset string * TargetColumns :=
  foldl (fun st f => map_key (FKey f) (DerivePgDatatype (FValue f)) FieldColType st) st fs.

Record Mapper := mkMapper { tagsAsFK : bool; tagsAsJSON : bool; fieldsAsJSON : bool }.
Definition NewMapper (fk tj fj : bool) : Mapper := mkMapper fk tj fj.

(** The loop of [Target] over the indexed metrics; [None] is a nil pointer or an index out of range. *)
Definition target_metric (d : Mapper) (m : metric) (st : gset string * TargetColumns * option TargetColumns) :
    option (gset string * TargetColumns * option TargetColumns) :=
  let '(mapped, c, tc) := st in
  '(mapped, c, tc) ←
    (if tagsAsJSON d then Some (mapped, c, tc)
     else if tagsAsFK d then
       tc' ← tc; let '(mapped, tc') := mapTags (tags m) (mapped, tc') in Some (mapped, c, Some tc')
     else let '(mapped, c) := mapTags (tags m) (mapped, c) in Some (mapped, c, tc));
  let '(mapped, c) := mapFields (fields m) (mapped, c) in
  Some (mapped, c, tc).

Fixpoint target_loop (d : Mapper) (indices : list nat) (ms : list tmetric)
    (st : gset string * TargetColumns * option TargetColumns) :
    option (gset string * TargetColumns * option TargetColumns) :=
  match indices with
  | [] => Some st
  | i :: rest => m ← ms !! i; st ← target_metric d (base m) st; target_loop d rest ms st
  end.

Definition columns_Target (d : Mapper) (indices : list nat) (ms : list tmetric) :
    option (TargetColumns * option TargetColumns) :=
  let '(c, tc) := getInitialColumnsGenerator (tagsAsFK d) (tagsAsJSON d) (fieldsAsJSON d) in
  if tagsAsJSON d && fieldsAsJSON d then Some (c, tc) else
  '(_, c, tc) ← target_loop d indices ms (∅, c, tc);
  Some (c, tc).

(** ** The database and the cache of a package *)

Class DbEnv (W : Type) := {
  db_New : string -> W -> bool * W;
  db_IsAlive : W -> bool * W;
  db_Exec : string -> list cell -> W -> (Z + err) * W;
  db_Query : string -> list cell -> W -> (list (string * string) + err) * W;
  db_QueryRow : string -> list cell -> W -> (Z + err) * W;
  db_DoCopy : list string -> list string -> list (list cell) -> W -> option err * W;
  Sanitize : list string -> string;
}.

Class Lru := {
  Cache : Type;
  lru_New : Z -> Cache;
  lru_Get : string -> Cache -> option Z * Cache;
  lru_Add : string -> Z -> Cache -> Cache;
}.

Section Plugin.
Context {W : Type} `{DbEnv W} `{Lru} `{MapRange}.
Implicit Types w : W.

Definition QuoteIdent (nm : string) : string := Sanitize [nm].

(** [GenerateInsert]. *)
Definition GenerateInsert (fullSanitizedTableName : string) (columns : list string) : string :=
  "INSERT INTO " +:+ fullSanitizedTableName +:+ "(" +:+ Join (QuoteIdent <$> columns) "," +:+ ") VALUES(" +:+
  Join (imap (fun i _ => "$" +:+ FormatInt (Z.of_nat i + 1)) columns) "," +:+ ")".

(** ** [tags_cache.go] *)

Record defTagsCache := mkTagsCache {
  tc_cache : gmap string Cache;
  tc_tagsAsJSONb : bool;
  tc_tagTableSuffix : string;
  tc_schema : string;
  tc_itemsToCache : Z;
}.

Definition newTagsCache (numItems : Z) (asJSONb : bool) (suffix schema : string) : defTagsCache :=
  mkTagsCache ∅ asJSONb suffix schema numItems.

Definition set_cache (m : gmap string Cache) (c : defTagsCache) : defTagsCache :=
  mkTagsCache m (tc_tagsAsJSONb c) (tc_tagTableSuffix c) (tc_schema c) (tc_itemsToCache c).

(** [constructCacheKey]: the tags in the order of their keys. *)
Definition constructCacheKey (ts : gmap string string) : string :=
  foldl (fun b k => b +:+ k +:+ " " +:+ default EmptyString (ts !! k) +:+ ";") EmptyString
    (sort_by id (fst <$> range_map ts)).

Definition tagsTableName (c : defTagsCache) (measureName : string) : string := measureName +:+ tc_tagTableSuffix c.

Definition checkTagCache (measure key : string) (c : defTagsCache) : option Z * defTagsCache :=
  match tc_cache c !! measure with
  | Some cm => let '(id, cm) := lru_Get key cm in (id, set_cache (<[measure := cm]> (tc_cache c)) c)
  | None => (None, set_cache (<[measure := lru_New (tc_itemsToCache c)]> (tc_cache c)) c)
  end.

(** [addToCache]: a method call on a missing cache is a nil pointer. *)
Definition addToCache (measure key : string) (id : Z) (c : defTagsCache) : option defTagsCache :=
  cm ← tc_cache c !! measure; Some (set_cache (<[measure := lru_Add key id cm]> (tc_cache c)) c).

(** The conditions and arguments of the query for a tag set. *)
Definition where_clause (c : defTagsCache) (names : list string) (ts : gmap string string) :
    list string * list cell :=
  if tc_tagsAsJSONb c then
    ([QuoteIdent TagsJSONColumn +:+ "= $1"],
     [if (size ts =? 0)%nat then CNull else BuildJsonb_tags ts])
  else
    (imap (fun i nm => match ts !! nm with
       | Some _ => QuoteIdent nm +:+ " = $" +:+ FormatInt (Z.of_nat i + 1)
       | None => nm +:+ " IS NULL" end) names,
     (fun nm => match ts !! nm with Some v => CText v | None => CNull end) <$> names).

(** [getTagID]: [None] is a panic. *)
Definition getTagID (target : TargetColumns) (m : metric) (c : defTagsCache) w :
    option ((Z + err) * defTagsCache * W) :=
  let measureName := name m in
  let ts := Tags m in
  let cacheKey := constructCacheKey ts in
  let '(cached, c) := checkTagCache measureName cacheKey c in
  match cached with
  | Some id => Some (inl id, c, w)
  | None =>
    match Names target with
    | [] => None
    | _ :: names =>
      let '(whereParts, whereValues) := where_clause c names ts in
      let full := Sanitize (FullTableName (tc_schema c) (tagsTableName c measureName)) in
      let query := "SELECT tag_id FROM " +:+ full +:+ " WHERE " +:+ Join whereParts " AND " in
      match db_QueryRow query whereValues w with
      | (inl id, w) => c ← addToCache measureName cacheKey id c; Some (inl id, c, w)
      | (inr _, w) =>
        let query := GenerateInsert full names +:+ " RETURNING " +:+ TagIDColumnName in
        match db_QueryRow query whereValues w with
        | (inl id, w) => c ← addToCache measureName cacheKey id c; Some (inl id, c, w)
        | (inr e, w) => Some (inr e, c, w)
        end
      end
    end
  end.

(** ** [transformer.go] *)

Record defTransformer := mkTransformer {
  dt_tagsAsFK : bool; dt_tagsAsJSONb : bool; dt_fieldsAsJSONb : bool;
}.

(** An assignment to an element of the row: the index is the value of the map, or zero. *)
Definition row_set (cols : TargetColumns) (k : string) (v : cell) (row : list cell) : option (list cell) :=
  let i := Z.to_nat (default 0 (Target cols !! k)) in
  if (i <? length row)%nat then Some (<[i := v]> row) else None.

Fixpoint row_set_all (cols : TargetColumns) (kvs : list (string * cell)) (row : list cell) : option (list cell) :=
  match kvs with
  | [] => Some row
  | (k, v) :: rest => row ← row_set cols k v row; row_set_all cols rest row
  end.

(** [createRowFromMetric]: [None] is a panic. *)
Definition createRowFromMetric (dt : defTransformer) (numColumns : nat) (m : metric)
    (targetColumns : TargetColumns) (targetTagColumns : option TargetColumns)
    (cache : option defTagsCache) w : option ((list cell + err) * option defTagsCache * W) :=
  let row := replicate numColumns CNull in
  row ← (if (0 <? length row)%nat then Some (<[0%nat := CTime (tm m)]> row) else None);
  '(r, cache, w) ←
    (if dt_tagsAsFK dt then
       c ← cache; tt ← targetTagColumns;
       '(r, c, w) ← getTagID tt m c w;
       match r with
       | inr e => Some (inr e, Some c, w)
       | inl id => if (1 <? length row)%nat then Some (inl (<[1%nat := CTagID id]> row), Some c, w) else None
       end
     else if dt_tagsAsJSONb dt then
       row ← row_set targetColumns TagsJSONColumn (BuildJsonb_tags (Tags m)) row; Some (inl row, cache, w)
     else
       row ← row_set_all targetColumns ((fun t => (Key t, CText (Value t))) <$> tags m) row;
       Some (inl row, cache, w));
  match r with
  | inr e => Some (inr e, cache, w)
  | inl row =>
    if dt_fieldsAsJSONb dt then
      match BuildJsonb_fields (Fields m) with
      | None => Some (inr "json: unsupported value", cache, w)
      | Some j => row ← row_set targetColumns FieldsJSONColumn j row; Some (inl row, cache, w)
      end
    else
      row ← row_set_all targetColumns ((fun f => (FKey f, CVal (FValue f))) <$> fields m) row;
      Some (inl row, cache, w)
  end.

(** ** [tables/table_manager.go] *)

Record defTableManager := mkTables { Tables : gset string; t_schema : string; tableTemplate : string }.

Definition NewManager (schema template : string) : defTableManager := mkTables ∅ schema template.
Definition SetConnection (t : defTableManager) : defTableManager := mkTables ∅ (t_schema t) (tableTemplate t).
Definition know (nm : string) (t : defTableManager) : defTableManager :=
  mkTables ({[nm]} ∪ Tables t) (t_schema t) (tableTemplate t).

Definition tableExistsTemplate : string :=
  "SELECT tablename FROM pg_tables WHERE tablename = $1 AND schemaname = $2;".
Definition findExistingColumnsTemplate : string :=
  "SELECT column_name, data_type FROM information_schema.columns WHERE table_schema = $1 and table_name = $2".

Definition Exists (tableName : string) (t : defTableManager) w : bool * defTableManager * W :=
  if decide (tableName ∈ Tables t) then (true, t, w) else
  match db_Exec tableExistsTemplate [CText tableName; CText (t_schema t)] w with
  | (inr _, w) => (false, t, w)
  | (inl rows, w) => if rows =? 1 then (true, know tableName t, w) else (false, t, w)
  end.

(** [generateCreateTableSQL]: [None] is an index out of range. *)
Fixpoint column_defs (names : list string) (types : list PgDataType) (roles : list ColumnRole) :
    option (list string * list string) :=
  match names with
  | [] => Some ([], [])
  | nm :: names' =>
    match types, roles with
    | ty :: types', r :: roles' =>
      '(defs, pk) ← column_defs names' types' roles';
      Some ((QuoteIdent nm +:+ " " +:+ ty) :: defs, if decide (r = FieldColType) then pk else nm :: pk)
    | _, _ => None
    end
  end.
Definition generateCreateTableSQL (tableName : string) (c : TargetColumns) (t : defTableManager) : option string :=
  '(colDefs, pk) ← column_defs (Names c) (DataTypes c) (Roles c);
  let full := Sanitize (FullTableName (t_schema t) tableName) in
  let query := ReplaceAll (tableTemplate t) "{TABLE}" full in
  let query := ReplaceAll query "{TABLELITERAL}" (QuoteLiteral full) in
  let query := ReplaceAll query "{COLUMNS}" (Join colDefs ",") in
  Some (ReplaceAll query "{KEY_COLUMNS}" (Join pk ",")).

Definition CreateTable (tableName : string) (c : TargetColumns) (t : defTableManager) w :
    option (option err * defTableManager * W) :=
  sql ← generateCreateTableSQL tableName c t;
  match db_Exec sql [] w with
  | (inr e, w) => Some (Some e, t, w)
  | (inl _, w) => Some (None, know tableName t, w)
  end.

(** [findExistingColumns]: later rows of one name overwrite earlier ones. *)
Definition findExistingColumns (table : string) (t : defTableManager) w : (gmap string PgDataType + err) * W :=
  match db_Query findExistingColumnsTemplate [CText (t_schema t); CText table] w with
  | (inr e, w) => (inr e, w)
  | (inl rows, w) =>
    (inl (foldl (fun cols nt => <[nt.1 := LongToShortPgType nt.2]> cols) ∅ rows), w)
  end.

(** [findColumnPresence]: the type of each column in the database, if it exists. *)
Definition findColumnPresence (table : string) (columns : list string) (t : defTableManager) w :
    (list (option PgDataType) + err) * W :=
  match findExistingColumns table t w with
  | (inr e, w) => (inr e, w)
  | (inl cols, w) =>
    if (size cols =? 0)%nat then
      (inr "Table exists, but no columns discovered, user doesn't have enough permissions", w)
    else (inl ((fun c => cols !! c) <$> columns), w)
  end.

(** The loop of [FindColumnMismatch] from index [i]; [None] is an index out of range. *)
Fixpoint mismatch_loop (i : nat) (present : list (option PgDataType)) (types : list PgDataType) :
    option (list nat + err) :=
  match present with
  | [] => Some (inl [])
  | None :: present' =>
    match mismatch_loop (S i) present' (tail types) with
    | Some (inl missing) => Some (inl (i :: missing))
    | r => r
    end
  | Some typeInDb :: present' =>
    match types with
    | [] => None
    | typeInMetric :: types' =>
      if PgTypeCanContain typeInDb typeInMetric then mismatch_loop (S i) present' types'
      else Some (inr "E! A column exists")
    end
  end.
Definition FindColumnMismatch (tableName : string) (c : TargetColumns) (t : defTableManager) w :
    option ((list nat + err) * W) :=
  match findColumnPresence tableName (Names c) t w with
  | (inr e, w) => Some (inr e, w)
  | (inl present, w) => r ← mismatch_loop 0 present (DataTypes c); Some (r, w)
  end.

Definition addColumnQuery (full nm : string) (ty : PgDataType) : string :=
  "ALTER TABLE " +:+ full +:+ " ADD COLUMN IF NOT EXISTS " +:+ QuoteIdent nm +:+ " " +:+ ty +:+ ";".

Fixpoint AddColumnsToTable (tableName : string) (indices : list nat) (c : TargetColumns) (t : defTableManager) w :
    option (option err * W) :=
  match indices with
  | [] => Some (None, w)
  | i :: rest =>
    nm ← Names c !! i; ty ← DataTypes c !! i;
    match db_Exec (addColumnQuery (Sanitize (FullTableName (t_schema t) tableName)) nm ty) [] w with
    | (inr e, w) => Some (Some e, w)
    | (inl _, w) => AddColumnsToTable tableName rest c t w
    end
  end.

(** ** [postgresql.go] *)

Record Postgresql := mkPg {
  Connection : string;
  Schema : string;
  DoSchemaUpdates : bool;
  TagsAsForeignkeys : bool;
  CachedTagsetsPerMeasurement : Z;
  TagsAsJsonb : bool;
  FieldsAsJsonb : bool;
  TableTemplate : string;
  TagTableSuffix : string;
  connected : bool;
  tables : option defTableManager;
  tagCache : option defTagsCache;
}.

Definition newPostgresql : Postgresql :=
  mkPg EmptyString "public" true false 1000 false false "CREATE TABLE IF NOT EXISTS {TABLE}({COLUMNS})" "_tag"
    false None None.

Definition set_state (conn : bool) (ts : option defTableManager) (tc : option defTagsCache) (p : Postgresql) :
    Postgresql :=
  mkPg (Connection p) (Schema p) (DoSchemaUpdates p) (TagsAsForeignkeys p) (CachedTagsetsPerMeasurement p)
    (TagsAsJsonb p) (FieldsAsJsonb p) (TableTemplate p) (TagTableSuffix p) conn ts tc.

Definition rows_of (p : Postgresql) : defTransformer :=
  mkTransformer (TagsAsForeignkeys p) (TagsAsJsonb p) (FieldsAsJsonb p).
Definition columns_of (p : Postgresql) : Mapper := NewMapper (TagsAsForeignkeys p) (TagsAsJsonb p) (FieldsAsJsonb p).

(** [Connect]: whether it succeeded. *)
Definition Connect (p : Postgresql) w : bool * Postgresql * W :=
  match db_New (Connection p) w with
  | (false, w) => (false, p, w)
  | (true, w) =>
    (true, set_state true (Some (NewManager (Schema p) (TableTemplate p)))
       (if TagsAsForeignkeys p
        then Some (newTagsCache (CachedTagsetsPerMeasurement p) (TagsAsJsonb p) (TagTableSuffix p) (Schema p))
        else tagCache p) p, w)
  end.

(** [checkConnection], [resetConnection]; [None] is a call on nil tables. *)
Definition checkConnection (p : Postgresql) w : bool * W :=
  if connected p then db_IsAlive w else (false, w).
Definition resetConnection (p : Postgresql) w : option (bool * Postgresql * W) :=
  let '(ok, w) := db_New (Connection p) w in
  ts ← tables p;
  Some (ok, set_state ok (Some (SetConnection ts)) (tagCache p) p, w).

(** [prepareTable]. *)
Definition prepareTable (tableName : string) (details : TargetColumns) (t : defTableManager) w :
    option (option err * defTableManager * W) :=
  match Exists tableName t w with
  | (false, t, w) => CreateTable tableName details t w
  | (true, t, w) =>
    '(r, w) ← FindColumnMismatch tableName details t w;
    match r with
    | inr e => Some (Some e, t, w)
    | inl [] => Some (None, t, w)
    | inl missing => '(e, w) ← AddColumnsToTable tableName missing details t w; Some (e, t, w)
    end
  end.

(** The preparation of the tables of one measurement. *)
Definition prepareTables (p : Postgresql) (measureName : string) (c : TargetColumns) (tc : option TargetColumns) w :
    option (option err * Postgresql * W) :=
  if DoSchemaUpdates p then
    t ← tables p;
    '(e, t, w) ← prepareTable measureName c t w;
    let p := set_state (connected p) (Some t) (tagCache p) p in
    match e with
    | Some e => Some (Some e, p, w)
    | None =>
      if TagsAsForeignkeys p then
        cache ← tagCache p; tc ← tc;
        '(e, t, w) ← prepareTable (tagsTableName cache measureName) tc t w;
        Some (e, set_state (connected p) (Some t) (tagCache p) p, w)
      else Some (None, p, w)
    end
  else Some (None, p, w).

(** The rows of the metrics with the given indices. *)
Fixpoint rows_loop (dt : defTransformer) (indices : list nat) (ms : list tmetric) (c : TargetColumns)
    (tc : option TargetColumns) (cache : option defTagsCache) w :
    option ((list (list cell) + err) * option defTagsCache * W) :=
  match indices with
  | [] => Some (inl [], cache, w)
  | i :: rest =>
    m ← ms !! i;
    '(r, cache, w) ← createRowFromMetric dt (length (Names c)) (base m) c tc cache w;
    match r with
    | inr e => Some (inr e, cache, w)
    | inl row =>
      '(r, cache, w) ← rows_loop dt rest ms c tc cache w;
      match r with
      | inr e => Some (inr e, cache, w)
      | inl rows => Some (inl (row :: rows), cache, w)
      end
    end
  end.

Definition writeMetricsFromMeasure (p : Postgresql) (measureName : string) (indices : list nat)
    (ms : list tmetric) w : option (option err * Postgresql * W) :=
  '(c, tc) ← columns_Target (columns_of p) indices ms;
  '(e, p, w) ← prepareTables p measureName c tc w;
  match e with
  | Some e => Some (Some e, p, w)
  | None =>
    '(r, cache, w) ← rows_loop (rows_of p) indices ms c tc (tagCache p) w;
    let p := set_state (connected p) (tables p) cache p in
    match r with
    | inr e => Some (Some e, p, w)
    | inl values =>
      let '(e, w) := db_DoCopy (FullTableName (Schema p) measureName) (Names c) values w in
      Some (e, p, w)
    end
  end.

Fixpoint write_groups (groups : list (string * list nat)) (ms : list tmetric) (p : Postgresql) w :
    option (option err * Postgresql * W) :=
  match groups with
  | [] => Some (None, p, w)
  | (measureName, indices) :: rest =>
    '(e, p, w) ← writeMetricsFromMeasure p measureName indices ms w;
    match e with
    | Some e => Some (Some e, p, w)
    | None => write_groups rest ms p w
    end
  end.

(** [Write]: [None] is a panic. *)
Definition Write (ms : list tmetric) (p : Postgresql) w : option (option err * Postgresql * W) :=
  let '(alive, w) := checkConnection p w in
  '(ok, p, w) ← (if alive then Some (true, p, w) else resetConnection p w);
  if ok : bool then write_groups (range_map (GroupMetricsByMeasurement ms)) ms p w
  else Some (Some "Could not reset connection", p, w).

(** [Close], without the closing of the connection itself. *)
Definition pg_Close (p : Postgresql) : Postgresql := set_state (connected p) None None p.
End Plugin.

(** ** The columns of a batch *)

(** Column details whose parts agree: no name twice, a type and a role for each name, and
    the index of each name. *)
Record good (c : TargetColumns) : Prop := {
  good_names : NoDup (Names c);
  good_types : length (DataTypes c) = length (Names c);
  good_roles : length (Roles c) = length (Names c);
  good_target : forall k i, Target c !! k = Some i <-> 0 <= i /\ Names c !! Z.to_nat i = Some k;
}.

(** The names of a table: the initial ones and, of the keys mapped so far, those of [P]. *)
Definition names_inv (P : string -> Prop) (init : list string) (mapped : gset string) (c : TargetColumns) : Prop :=
  good c /\ init `prefix_of` Names c /\ forall k, k ∈ Names c <-> k ∈ init \/ (k ∈ mapped /\ P k).

Lemma map_key_inv P init k ty role mapped c :
  P k -> k ∉ init -> names_inv P init mapped c ->
  exists c', map_key k ty role (mapped, c) = ({[k]} ∪ mapped, c') /\ names_inv P init ({[k]} ∪ mapped) c'.
Proof.
  intros HP Hk (Hg & Hp & Hn). unfold map_key. case_decide as E.
  { exists c. split; [f_equal; set_solver|]. split_and!; [done|done|]. intros k'. rewrite Hn. set_solver. }
  eexists. split; [done|]. assert (k ∉ Names c) as Hnew by (rewrite Hn; set_solver).
  split; [split|split]; cbn [Names DataTypes Roles Target].
  - apply NoDup_app. split_and!; [apply Hg|set_solver|apply NoDup_singleton].
  - rewrite !length_app. by rewrite (good_types _ Hg).
  - rewrite !length_app. by rewrite (good_roles _ Hg).
  - intros k' i. destruct (decide (k' = k)) as [->|Hne].
    + rewrite lookup_insert_eq. split.
      * intros [= <-]. split; [lia|]. rewrite Nat2Z.id, lookup_app_r, Nat.sub_diag by lia. done.
      * intros [Hi Hl]. apply lookup_app_Some in Hl as [Hl|[Hle Hl]].
        { by apply list_elem_of_lookup_2 in Hl. }
        destruct (Z.to_nat i - length (Names c))%nat eqn:Ei; [|done]. f_equal. lia.
    + rewrite lookup_insert_ne, (good_target _ Hg) by done. split; intros [Hi Hl]; (split; [done|]).
      * apply lookup_app_Some. by left.
      * apply lookup_app_Some in Hl as [Hl|[Hle Hl]]; [done|].
        destruct (Z.to_nat i - length (Names c))%nat; simplify_eq/=; done.
  - by apply prefix_app_r.
  - intros k'. rewrite elem_of_app, Hn, list_elem_of_singleton. set_solver.
Qed.

(** The loops of [mapTags] and [mapFields], by the keys they visit. *)
Lemma map_keys_inv {A} (key : A -> string) (ty : A -> PgDataType) role P init (l : list A) mapped c :
  Forall (fun x => P (key x) /\ key x ∉ init) l -> names_inv P init mapped c ->
  exists c', foldl (fun st x => map_key (key x) (ty x) role st) (mapped, c) l =
      (list_to_set (key <$> l) ∪ mapped, c') /\ names_inv P init (list_to_set (key <$> l) ∪ mapped) c'.
Proof.
  intros Hl. revert mapped c. induction Hl as [|x l [HP Hx] _ IH]; intros mapped c Hi.
  { exists c. cbn. rewrite union_empty_l_L. by split. }
  destruct (map_key_inv P init (key x) (ty x) role mapped c HP Hx Hi) as (c1 & E1 & Hi1).
  destruct (IH _ c1 Hi1) as (c2 & E2 & Hi2). cbn [foldl]. rewrite E1, E2. exists c2.
  cbn [fmap list_fmap list_to_set].
  assert (list_to_set (key <$> l) ∪ ({[key x]} ∪ mapped) = {[key x]} ∪ list_to_set (key <$> l) ∪ mapped) as E
    by set_solver.
  rewrite E in Hi2 |- *. by split.
Qed.

Lemma names_inv_frame P init mapped (ks : list string) c :
  Forall (fun k => ~ P k) ks -> names_inv P init mapped c -> names_inv P init (list_to_set ks ∪ mapped) c.
Proof.
  intros Hk (Hg & Hp & Hn). split_and!; [done|done|]. intros k. rewrite Hn, elem_of_union, elem_of_list_to_set.
  rewrite Forall_forall in Hk. naive_solver.
Qed.

Definition tag_keys (d : Mapper) (m : metric) : list string := if tagsAsJSON d then [] else Key <$> tags m.
Definition field_keys (m : metric) : list string := FKey <$> fields m.

Definition reserved : list string := [TimeColumnName; TagIDColumnName; TagsJSONColumn; FieldsJSONColumn].

Section Columns.
Context (d : Mapper) (T F : string -> Prop).

(** The keys of tags and fields, of which a foreign-key layout has no key twice. *)
Definition keys_ok (m : metric) : Prop :=
  Forall (fun k => T k /\ k ∉ reserved) (tag_keys d m) /\ Forall (fun k => F k /\ k ∉ reserved) (field_keys m).
Definition clash_free : Prop := tagsAsFK d = true -> forall k, T k -> F k -> False.

Definition main_keys (k : string) : Prop := F k \/ (tagsAsFK d = false /\ T k).

(** The state of the loop of [Target]: the two tables. *)
Definition tables_inv (init tinit : list string) (st : gset string * TargetColumns * option TargetColumns) : Prop :=
  let '(mapped, c, tc) := st in
  names_inv main_keys init mapped c /\
  match tc with Some tc => tagsAsFK d = true /\ names_inv T tinit mapped tc | None => tagsAsFK d = false end.

Lemma target_metric_inv init tinit m mapped c tc :
  init ⊆ reserved -> tinit ⊆ reserved -> clash_free -> keys_ok m -> tables_inv init tinit (mapped, c, tc) ->
  exists c' tc', target_metric d m (mapped, c, tc) =
      Some (list_to_set (field_keys m) ∪ (list_to_set (tag_keys d m) ∪ mapped), c', tc') /\
    tables_inv init tinit (list_to_set (field_keys m) ∪ (list_to_set (tag_keys d m) ∪ mapped), c', tc').
Proof.
  intros Hi Ht Hcf [HT HF] [Hc Htc]. unfold target_metric.
  assert (exists c1 tc1, (if tagsAsJSON d then Some (mapped, c, tc)
     else if tagsAsFK d then
       tc' ← tc; let '(mapped, tc') := mapTags (tags m) (mapped, tc') in Some (mapped, c, Some tc')
     else let '(mapped, c) := mapTags (tags m) (mapped, c) in Some (mapped, c, tc)) =
       Some (list_to_set (tag_keys d m) ∪ mapped, c1, tc1) /\
     tables_inv init tinit (list_to_set (tag_keys d m) ∪ mapped, c1, tc1)) as (c1 & tc1 & -> & Hc1 & Htc1).
  { unfold tag_keys in *. destruct (tagsAsJSON d) eqn:Ej.
    { exists c, tc. assert (list_to_set [] ∪ mapped = mapped) as -> by set_solver. done. }
    rewrite Forall_fmap in HT. unfold mapTags. destruct (tagsAsFK d) eqn:Ef.
    - destruct tc as [tc|]; [|done]. destruct Htc as [_ Htc]. binds.
      destruct (map_keys_inv Key (fun _ => PgText) TagColType T tinit (tags m) mapped tc) as (tc' & -> & Htc');
        [eapply Forall_impl; [exact HT|]; cbn; set_solver|done|].
      exists c, (Some tc'). split; [done|]. split; [|by split].
      apply names_inv_frame; [|done]. rewrite Forall_fmap. eapply Forall_impl; [exact HT|]. cbn.
      intros t [Hk _] [Hk'|[? _]]; [by eapply Hcf|congruence].
    - destruct tc as [tc|]; [by destruct Htc|].
      destruct (map_keys_inv Key (fun _ => PgText) TagColType main_keys init (tags m) mapped c) as (c' & -> & Hc');
        [|done|exists c', None; by split_and!].
      eapply Forall_impl; [exact HT|]. cbn. intros t [Hk Hr]. split; [by right|set_solver]. }
  binds. unfold mapFields, field_keys in *. rewrite Forall_fmap in HF.
  destruct (map_keys_inv FKey (fun f => DerivePgDatatype (FValue f)) FieldColType main_keys init (fields m)
    (list_to_set (tag_keys d m) ∪ mapped) c1) as (c2 & -> & Hc2); [|done|].
  { eapply Forall_impl; [exact HF|]. cbn. intros f [Hk Hr]. split; [by left|set_solver]. }
  exists c2, tc1. split; [done|]. split; [done|]. destruct tc1 as [tc1|]; [|done]. destruct Htc1 as [Ef Htc1].
  split; [done|]. apply names_inv_frame; [|done]. rewrite Forall_fmap. eapply Forall_impl; [exact HF|]. cbn.
  intros f [Hk _] Hk'. by eapply Hcf.
Qed.

Lemma target_loop_inv init tinit indices (ms : list tmetric) mapped c tc :
  init ⊆ reserved -> tinit ⊆ reserved -> clash_free ->
  Forall (fun i => exists m, ms !! i = Some m /\ keys_ok (base m)) indices ->
  tables_inv init tinit (mapped, c, tc) ->
  exists mapped' c' tc', target_loop d indices ms (mapped, c, tc) = Some (mapped', c', tc') /\
    tables_inv init tinit (mapped', c', tc') /\
    forall k, k ∈ mapped' <-> k ∈ mapped \/ exists i m, i ∈ indices /\ ms !! i = Some m /\
      (k ∈ tag_keys d (base m) \/ k ∈ field_keys (base m)).
Proof.
  intros Hi Ht Hcf Hin. revert mapped c tc. induction Hin as [|i indices (m & Hm & Hk) _ IH]; intros mapped c tc Hinv.
  { exists mapped, c, tc. split_and!; [done|done|]. intros k. split; [by left|]. intros [?|(i & m & Hi' & _)]; [done|set_solver]. }
  destruct (target_metric_inv init tinit (base m) mapped c tc Hi Ht Hcf Hk Hinv) as (c1 & tc1 & E1 & Hinv1).
  destruct (IH _ c1 tc1 Hinv1) as (mapped' & c' & tc' & E & Hinv' & Hmap).
  exists mapped', c', tc'. cbn [target_loop]. rewrite Hm. binds. rewrite E1. binds. split_and!; [done|done|].
  intros k. rewrite Hmap. rewrite !elem_of_union, !elem_of_list_to_set. split.
  - intros [[?|[?|?]]|(i' & m' & ? & ? & ?)].
    + right. exists i, m. split; [left|]. naive_solver.
    + right. exists i, m. split; [left|]. naive_solver.
    + by left.
    + right. exists i', m'. split; [by right|done].
  - intros [?|(i' & m' & Hi' & Hm' & Hk')]; [naive_solver|].
    apply elem_of_cons in Hi' as [->|Hi']; [simplify_eq; naive_solver|]. right. by exists i', m'.
Qed.
End Columns.

(** The keys of the metrics of a batch. *)
Definition visited (keys : metric -> list string) (indices : list nat) (ms : list tmetric) (k : string) : Prop :=
  exists i m, i ∈ indices /\ ms !! i = Some m /\ k ∈ keys (base m).

(** A batch whose keys the tables can hold: no reserved name and, with tags in a table of
    their own, no key that is both a tag and a field. *)
Definition batch_ok (d : Mapper) (indices : list nat) (ms : list tmetric) : Prop :=
  Forall (fun i => (i < length ms)%nat) indices /\
  (forall k, visited (tag_keys d) indices ms k \/ visited field_keys indices ms k -> k ∉ reserved) /\
  clash_free d (visited (tag_keys d) indices ms) (visited field_keys indices ms).

Lemma batch_keys_ok d indices ms :
  batch_ok d indices ms ->
  Forall (fun i => exists m, ms !! i = Some m /\
    keys_ok d (visited (tag_keys d) indices ms) (visited field_keys indices ms) (base m)) indices.
Proof.
  intros (Hl & Hr & _). apply Forall_forall. intros i Hi. rewrite Forall_forall in Hl.
  destruct (lookup_lt_is_Some_2 ms i (Hl i Hi)) as [m Hm]. exists m. split; [done|].
  split; apply Forall_forall; intros k Hk.
  - assert (visited (tag_keys d) indices ms k) as Hv by (by exists i, m). split; [done|]. apply Hr. by left.
  - assert (visited field_keys indices ms k) as Hv by (by exists i, m). split; [done|]. apply Hr. by right.
Qed.

(** The initial tables. *)
Definition init_main (d : Mapper) : TargetColumns := (getInitialColumnsGenerator (tagsAsFK d) (tagsAsJSON d) (fieldsAsJSON d)).1.
Definition init_tags (d : Mapper) : option TargetColumns :=
  (getInitialColumnsGenerator (tagsAsFK d) (tagsAsJSON d) (fieldsAsJSON d)).2.
Definition tag_init (d : Mapper) : list string := default [] (Names <$> init_tags d).

Lemma good_dec (c : TargetColumns) :
  NoDup (Names c) -> length (DataTypes c) = length (Names c) -> length (Roles c) = length (Names c) ->
  Target c = list_to_map (imap (fun i k => (k, Z.of_nat i)) (Names c)) -> good c.
Proof.
  intros Hn Hd Hr Ht. split; [done..|]. intros k i. rewrite Ht.
  assert (NoDup (imap (fun i k => (k, Z.of_nat i)) (Names c)).*1) as Hnd.
  { assert (forall f, (imap (fun i (k : string) => (k, f i : Z)) (Names c)).*1 = Names c) as ->; [|done].
    clear. induction (Names c) as [|x l IH]; intros f; [done|]. simpl. f_equal. apply (IH (fun n => f (S n))). }
  rewrite <- elem_of_list_to_map by done. rewrite elem_of_lookup_imap. split.
  - intros (n & x & [= -> ->] & Hx). split; [lia|]. by rewrite Nat2Z.id.
  - intros [Hi Hx]. exists (Z.to_nat i), k. by rewrite Z2Nat.id.
Qed.

Lemma init_good d :
  good (init_main d) /\ Names (init_main d) ⊆ reserved /\
  match init_tags d with Some t => tagsAsFK d = true /\ good t | None => tagsAsFK d = false end /\ tag_init d ⊆ reserved.
Proof.
  destruct d as [[] [] []]; cbn; repeat match goal with
    | |- _ /\ _ => split
    | |- good _ => apply good_dec; [by apply (bool_decide_unpack _); vm_compute|done..]
    | |- _ ⊆ _ => intros k; cbn; set_solver
    | |- _ = _ => done
    end.
Qed.

(** The columns computed for a batch. When no key has a reserved name and, with tags
    in their own table, no key is both a tag and a field, the computation succeeds
    and its details agree with each other: no name twice, a type and a role for each name, each name
    mapped to its position. The main table has exactly the initial names, the
    keys of all fields and, without a tag table, of all tags; the tag table has its
    initial names and the tag keys. Tags kept in a JSON column add no
    names; fields kept in one still add a name each, unless tags are kept so too. *)
Lemma columns_Target_names (d : Mapper) (indices : list nat) (ms : list tmetric) (Hb : batch_ok d indices ms) :
  exists c tc, columns_Target d indices ms = Some (c, tc) /\ good c /\ Names (init_main d) `prefix_of` Names c /\
    (forall k, k ∈ Names c <-> k ∈ Names (init_main d) \/
       (tagsAsJSON d && fieldsAsJSON d = false /\
        (visited field_keys indices ms k \/ (tagsAsFK d = false /\ visited (tag_keys d) indices ms k)))) /\
    match tc with
    | Some t => tagsAsFK d = true /\ good t /\ tag_init d `prefix_of` Names t /\
        forall k, k ∈ Names t <-> k ∈ tag_init d \/ visited (tag_keys d) indices ms k
    | None => tagsAsFK d = false
    end.
Proof.
  pose proof (init_good d) as (Hg & Hs & Ht & Hts). unfold columns_Target.
  destruct (getInitialColumnsGenerator _ _ _) as [c0 tc0] eqn:E0.
  assert (init_main d = c0) as Ec by (unfold init_main; by rewrite E0).
  assert (init_tags d = tc0) as Et by (unfold init_tags; by rewrite E0).
  assert (forall k, visited (tag_keys d) indices ms k -> tagsAsJSON d = false) as Hj.
  { intros k (i & m & _ & _ & Hk). unfold tag_keys in Hk. destruct (tagsAsJSON d); [set_solver|done]. }
  rewrite Et in Ht. destruct (tagsAsJSON d && fieldsAsJSON d) eqn:Ej.
  { exists c0, tc0. rewrite <- Ec. split_and!; [done|done|done|naive_solver|].
    destruct tc0 as [t0|]; [|done]. destruct Ht as [? ?]. split_and!; [done..|unfold tag_init; by rewrite Et|].
    intros k. unfold tag_init. rewrite Et. cbn. split; [by left|]. intros [?|Hv]; [done|].
    apply Hj in Hv. by rewrite Hv in Ej. }
  pose proof Hb as (_ & _ & Hcf).
  destruct (target_loop_inv d (visited (tag_keys d) indices ms) (visited field_keys indices ms)
    (Names c0) (tag_init d) indices ms ∅ c0 tc0) as (mapped & c & tc & -> & [(Hgc & Hpc & Hnc) Htc] & Hmap).
  - by rewrite <- Ec.
  - done.
  - done.
  - by apply batch_keys_ok.
  - split; [split_and!; [by rewrite <- Ec|done|set_solver]|]. destruct tc0 as [t0|]; [|done]. destruct Ht as [? ?].
    split; [done|]. unfold names_inv, tag_init. rewrite Et. split_and!; [done|done|]. set_solver.
  - assert (forall k, k ∈ mapped <-> visited (tag_keys d) indices ms k \/ visited field_keys indices ms k) as Hm.
    { intros k. rewrite Hmap. unfold visited. split.
      - intros [?|(i & m & Hi & Hl & [?|?])]; [set_solver|left; by exists i, m|right; by exists i, m].
      - intros [(i & m & ? & ? & ?)|(i & m & ? & ? & ?)]; right; exists i, m; (split_and!; [done..|]); [by left|by right]. }
    binds. exists c, tc. split_and!; [done|done|by rewrite Ec| |].
    + intros k. rewrite Hnc, Hm, Ec. unfold main_keys. split; [naive_solver|]. intros [?|(_ & [?|[? ?]])]; naive_solver.
    + destruct tc as [t|]; [|done]. destruct Htc as (? & ? & ? & Hnt). split_and!; [done..|].
      intros k. rewrite Hnt, Hm. naive_solver.
Qed.

(** ** The rows *)

Section Rows.
Context {W : Type} `{DbEnv W} `{Lru} `{MapRange}.
Implicit Types (w : W) (c : TargetColumns) (row : list cell).

Lemma good_lookup c k : good c -> k ∈ Names c -> exists n, Target c !! k = Some (Z.of_nat n) /\ Names c !! n = Some k.
Proof.
  intros Hg Hk. apply list_elem_of_lookup_1 in Hk as [n Hn]. exists n. split; [|done].
  apply (good_target _ Hg). split; [lia|]. by rewrite Nat2Z.id.
Qed.

(** A row whose cells are a function of the column names. *)
Definition reads c row (f : string -> cell) : Prop :=
  length row = length (Names c) /\ forall n k, Names c !! n = Some k -> row !! n = Some (f k).

(** An assignment changes the cell under its name. *)
Lemma insert_reads c k n v row f :
  good c -> Names c !! n = Some k -> reads c row f ->
  reads c (<[n := v]> row) (fun k' => if decide (k' = k) then v else f k').
Proof.
  intros Hg Hn [Hl Hf]. split; [by rewrite length_insert|]. intros n' k' Hn'.
  pose proof (lookup_lt_Some _ _ _ Hn) as Hlt. case_decide as E.
  - subst k'. assert (n' = n) as -> by (eapply NoDup_lookup; [apply (good_names _ Hg)|done|done]).
    apply list_lookup_insert_eq. lia.
  - rewrite list_lookup_insert_ne by (intros ->; congruence). by apply Hf.
Qed.

Lemma row_set_reads c k v row f :
  good c -> k ∈ Names c -> reads c row f ->
  exists row', row_set c k v row = Some row' /\ reads c row' (fun k' => if decide (k' = k) then v else f k').
Proof.
  intros Hg Hk Hr. destruct (good_lookup c k Hg Hk) as (n & Ht & Hn). unfold row_set. rewrite Ht.
  change (default 0 (Some (Z.of_nat n))) with (Z.of_nat n). rewrite Nat2Z.id.
  pose proof (lookup_lt_Some _ _ _ Hn) as Hlt. rewrite (proj2 (Nat.ltb_lt _ _)) by (destruct Hr; lia).
  eexists. split; [done|]. by apply insert_reads.
Qed.

Lemma reads_ext c row f g : (forall k, k ∈ Names c -> f k = g k) -> reads c row f -> reads c row g.
Proof. intros Hfg [Hl Hf]. split; [done|]. intros n k Hn. rewrite <- Hfg; [by apply Hf|by eapply list_elem_of_lookup_2]. Qed.

Lemma row_set_all_reads c (kvs : list (string * cell)) row f :
  good c -> reads c row f -> NoDup kvs.*1 -> Forall (fun k => k ∈ Names c) kvs.*1 ->
  exists row', row_set_all c kvs row = Some row' /\
    reads c row' (fun k => default (f k) ((list_to_map kvs : gmap string cell) !! k)).
Proof.
  intros Hg. revert row f. induction kvs as [|[k v] kvs IH]; intros row f Hr Hnd Hin; cbn [row_set_all].
  { exists row. split; [done|]. by eapply reads_ext; [|exact Hr]. }
  cbn in Hnd, Hin. apply NoDup_cons in Hnd as [Hk Hnd]. apply Forall_cons in Hin as [Hkn Hin].
  destruct (row_set_reads c k v row f Hg Hkn Hr) as (row1 & -> & Hr1). binds.
  destruct (IH row1 _ Hr1 Hnd Hin) as (row2 & -> & Hr2). exists row2. split; [done|].
  eapply reads_ext; [|exact Hr2]. intros k' _. cbn.
  destruct (decide (k' = k)) as [->|Hne].
  - rewrite not_elem_of_list_to_map_1 by done. by rewrite lookup_insert_eq.
  - by rewrite lookup_insert_ne by done.
Qed.

(** The cell a metric has under a column name, with the id of its tag set. *)
Definition expected (dt : defTransformer) (id : Z) (m : metric) (k : string) : cell :=
  if decide (k = TimeColumnName) then CTime (tm m)
  else if dt_tagsAsFK dt && bool_decide (k = TagIDColumnName) then CTagID id
  else if negb (dt_tagsAsFK dt) && dt_tagsAsJSONb dt && bool_decide (k = TagsJSONColumn) then CJsonTags (Tags m)
  else if dt_fieldsAsJSONb dt && bool_decide (k = FieldsJSONColumn) then CJsonFields (Fields m)
  else match (if dt_fieldsAsJSONb dt then None else Fields m !! k) with
  | Some v => CVal v
  | None => match (if dt_tagsAsFK dt || dt_tagsAsJSONb dt then None else Tags m !! k) with
    | Some v => CText v
    | None => CNull
    end
  end.

(** The main columns of a metric that is to be stored: the initial ones in front, and
    a column for each of its keys. *)
Definition stores (dt : defTransformer) (c : TargetColumns) (m : metric) : Prop :=
  good c /\
  Names (init_main (mkMapper (dt_tagsAsFK dt) (dt_tagsAsJSONb dt) (dt_fieldsAsJSONb dt))) `prefix_of` Names c /\
  (dt_fieldsAsJSONb dt = false -> Forall (fun k => k ∈ Names c /\ k ∉ reserved) (field_keys m)) /\
  (dt_tagsAsFK dt = false -> dt_tagsAsJSONb dt = false ->
   Forall (fun k => k ∈ Names c /\ k ∉ reserved) (Key <$> tags m)).

Lemma keyed_cells {A V} (key : A -> string) (val : A -> V) (f : V -> cell) (l : list A) k :
  NoDup (key <$> l) ->
  (list_to_map ((fun x => (key x, f (val x))) <$> l) : gmap string cell) !! k = f <$> keyed_map key val l !! k.
Proof.
  intros Hnd. rewrite keyed_map_list_to_map by done. rewrite <- lookup_fmap, <- list_to_map_fmap.
  by rewrite <- list_fmap_compose.
Qed.

Lemma addToCache_ready measure key (c : defTagsCache) :
  exists r (c' : defTagsCache), checkTagCache measure key c = (r, c') /\ forall id, is_Some (addToCache measure key id c').
Proof.
  unfold checkTagCache. destruct (tc_cache c !! measure) as [cm|].
  - destruct (lru_Get key cm) as [r cm']. eexists _, _. split; [done|]. intros id. unfold addToCache. cbn.
    rewrite lookup_insert_eq. binds. eauto.
  - eexists _, _. split; [done|]. intros id. unfold addToCache. cbn. rewrite lookup_insert_eq. binds. eauto.
Qed.

(** Asking for a tag id does not panic. *)
Lemma getTagID_total target m (c : defTagsCache) w : Names target <> [] -> is_Some (getTagID target m c w).
Proof.
  intros Hn. unfold getTagID. destruct (addToCache_ready (name m) (constructCacheKey (Tags m)) c) as (r & c' & -> & Ha).
  destruct r as [id|]; [eauto|]. destruct (Names target) as [|x names]; [done|].
  destruct (where_clause c' names (Tags m)) as [parts vals].
  destruct (db_QueryRow _ vals w) as [[id|e] w1]; [destruct (Ha id) as [c2 ->]; binds; eauto|].
  destruct (db_QueryRow _ vals w1) as [[id|e2] w2]; [destruct (Ha id) as [c2 ->]; binds; eauto|eauto].
Qed.

(** What the cells hold before the fields are put in. *)
Definition before_fields (dt : defTransformer) (id : Z) (m : metric) (k : string) : cell :=
  if decide (k = TimeColumnName) then CTime (tm m)
  else if dt_tagsAsFK dt && bool_decide (k = TagIDColumnName) then CTagID id
  else if negb (dt_tagsAsFK dt) && dt_tagsAsJSONb dt && bool_decide (k = TagsJSONColumn) then CJsonTags (Tags m)
  else match (if dt_tagsAsFK dt || dt_tagsAsJSONb dt then None else Tags m !! k) with
    | Some v => CText v
    | None => CNull
    end.

Lemma stores_init dt c m :
  stores dt c m -> Names c !! 0%nat = Some TimeColumnName /\
    (dt_tagsAsFK dt = true -> Names c !! 1%nat = Some TagIDColumnName) /\
    (dt_tagsAsFK dt = false -> dt_tagsAsJSONb dt = true -> TagsJSONColumn ∈ Names c) /\
    (dt_fieldsAsJSONb dt = true -> FieldsJSONColumn ∈ Names c).
Proof.
  intros (_ & [rest E] & _). rewrite E. destruct dt as [[] [] []]; cbn; split_and!; (done || set_solver).
Qed.

Definition fk_ready (dt : defTransformer) (tc : option TargetColumns) (cache : option defTagsCache) : Prop :=
  dt_tagsAsFK dt = true -> is_Some cache /\ exists t, tc = Some t /\ Names t <> [].

(** With tags in a table of their own, the id of the tag set was asked for. *)
Definition asked (dt : defTransformer) (tc : option TargetColumns) (cache : option defTagsCache) (m : metric) w (rid : Z + err) (cache' : option defTagsCache) w' : Prop :=
  dt_tagsAsFK dt = true -> exists cc t cc', cache = Some cc /\ tc = Some t /\ cache' = Some cc' /\ getTagID t m cc w = Some (rid, cc', w').

Lemma createRow_reads dt m c tc cache w :
  wf m -> stores dt c m -> fk_ready dt tc cache ->
  exists r cache' w', createRowFromMetric dt (length (Names c)) m c tc cache w = Some (r, cache', w') /\
    fk_ready dt tc cache' /\
    (exists rid, asked dt tc cache m w rid cache' w' /\ forall row, r = inl row -> exists id, rid = inl id /\ reads c row (expected dt id m)) /\
    (dt_tagsAsFK dt = false -> w' = w).
Proof.
  intros Hwf Hst Hfk. pose proof (stores_init dt c m Hst) as (H0' & H1' & Htj & Hfj). destruct Hst as (Hg & _ & Hsf & Hstg).
  pose proof (lookup_lt_Some _ _ _ H0') as Hlen. unfold createRowFromMetric. rewrite length_replicate, (proj2 (Nat.ltb_lt _ _)) by done.
  binds. set (row0 := <[0%nat := _]> _).
  assert (reads c row0 (fun k => if decide (k = TimeColumnName) then CTime (tm m) else CNull)) as Hr0.
  { apply insert_reads; [done|done|]. split; [apply length_replicate|]. intros n k Hn. apply lookup_lt_Some in Hn.
    by apply lookup_replicate_2. }
  set (mid := if dt_tagsAsFK dt then _ else _).
  assert (exists r cache' w', mid = Some (r, cache', w') /\ fk_ready dt tc cache' /\
    (exists rid, asked dt tc cache m w rid cache' w' /\ forall row, r = inl row -> exists id, rid = inl id /\ reads c row (before_fields dt id m)) /\
    (dt_tagsAsFK dt = false -> w' = w)) as (r & cache' & w' & -> & Hfk' & (rid & Hask & Hmid) & Hw).
  { unfold mid, before_fields, asked. clear mid. destruct (dt_tagsAsFK dt) eqn:Ef; [|destruct (dt_tagsAsJSONb dt) eqn:Ej]; cbn [negb andb orb].
    - destruct (Hfk Ef) as [[cc ->] (t & -> & Ht)]. binds. destruct (getTagID_total t m cc w Ht) as [[[r cc'] w'] Eg]. rewrite Eg. binds.
      destruct r as [id|e].
      + unfold row0. rewrite length_insert, length_replicate, (proj2 (Nat.ltb_lt _ _)) by (apply lookup_lt_Some in H1'; done).
        eexists _, _, _. split; [done|]. split_and!; [intros _; eauto| |done]. exists (inl id). split; [intros _; by exists cc, t, cc'|].
        intros row [= <-]. exists id. split; [done|]. eapply reads_ext; [|by apply insert_reads; [done|by apply H1'|exact Hr0]].
        intros k _. cbn beta. repeat (case_decide || case_bool_decide); by simplify_eq/=.
      + eexists _, _, _. split; [done|]. split_and!; [intros _; eauto| |done]. exists (inr e). split; [intros _; by exists cc, t, cc'|done].
    - destruct (row_set_reads c TagsJSONColumn (BuildJsonb_tags (Tags m)) row0 _ Hg (Htj eq_refl eq_refl) Hr0) as (row1 & -> & Hr1).
      binds. eexists _, _, _. split; [done|]. split_and!; [done| |done]. exists (inl 0). split; [done|]. intros row [= <-]. exists 0. split; [done|].
      eapply reads_ext; [|exact Hr1]. intros k _. cbn beta. repeat (case_decide || case_bool_decide); by simplify_eq/=.
    - specialize (Hstg eq_refl eq_refl).
      destruct (row_set_all_reads c ((fun t => (Key t, CText (Value t))) <$> tags m) row0 _ Hg Hr0) as (row1 & -> & Hr1).
      { rewrite <- list_fmap_compose. apply tags_wf_NoDup, (wf_tags _ Hwf). }
      { rewrite <- list_fmap_compose. eapply Forall_impl; [exact Hstg|]. by intros k [? _]. }
      binds. eexists _, _, _. split; [done|]. split_and!; [done| |done]. exists (inl 0). split; [done|]. intros row [= <-]. exists 0. split; [done|].
      eapply reads_ext; [|exact Hr1]. intros k _. cbn beta.
      rewrite keyed_cells by apply tags_wf_NoDup, (wf_tags _ Hwf). change (keyed_map Key Value (tags m)) with (Tags m).
      case_decide as E; [|by destruct (Tags m !! k)]. subst k. assert (Tags m !! TimeColumnName = None) as ->; [|done].
      unfold Tags. rewrite keyed_map_lookup by apply tags_wf_NoDup, (wf_tags _ Hwf). apply fmap_None, key_find_None.
      intros Hin. rewrite Forall_forall in Hstg. destruct (Hstg _ Hin) as [_ Hr]. apply Hr. left. }
  clear row0 Hr0. binds. destruct r as [row|e]; [|eexists _, _, _; split; [done|]; split_and!; [done|by exists rid|done]].
  destruct (Hmid row eq_refl) as (id & Eid & Hr1). unfold expected, before_fields in *. destruct (dt_fieldsAsJSONb dt) eqn:Ej.
  - unfold BuildJsonb_fields. destruct (forallb _ _); [|eexists _, _, _; split; [done|]; split_and!; [done|by exists rid|done]].
    destruct (row_set_reads c FieldsJSONColumn (CJsonFields (Fields m)) row _ Hg (Hfj eq_refl) Hr1) as (row2 & -> & Hr2).
    binds. eexists _, _, _. split; [done|]. split_and!; [done| |done]. exists rid. split; [done|]. intros ? [= <-]. exists id. split; [done|].
    eapply reads_ext; [|exact Hr2]. intros k _. cbn beta. cbn [andb].
    destruct (decide (k = FieldsJSONColumn)) as [->|Hne].
    + rewrite decide_False, !bool_decide_false, !andb_false_r by done. by rewrite bool_decide_true.
    + by rewrite (bool_decide_false (k = FieldsJSONColumn)) by done.
  - specialize (Hsf eq_refl).
    destruct (row_set_all_reads c ((fun f => (FKey f, CVal (FValue f))) <$> fields m) row _ Hg Hr1) as (row2 & -> & Hr2).
    { rewrite <- list_fmap_compose. apply (wf_fields _ Hwf). }
    { rewrite <- list_fmap_compose. eapply Forall_impl; [exact Hsf|]. by intros k [? _]. }
    binds. eexists _, _, _. split; [done|]. split_and!; [done| |done]. exists rid. split; [done|]. intros ? [= <-]. exists id. split; [done|].
    eapply reads_ext; [|exact Hr2]. intros k _. cbn beta. cbn [andb].
    rewrite keyed_cells by apply (wf_fields _ Hwf). change (keyed_map FKey FValue (fields m)) with (Fields m).
    destruct (Fields m !! k) as [v|] eqn:Ev; [|done]. cbn.
    assert (k ∉ reserved) as Hr.
    { unfold Fields in Ev. rewrite keyed_map_lookup in Ev by apply (wf_fields _ Hwf).
      apply fmap_Some in Ev as (f & Hf & _). apply key_find_Some in Hf as [Hf <-].
      rewrite Forall_forall in Hsf. by apply (Hsf (FKey f)), (list_elem_of_fmap_2 FKey). }
    rewrite decide_False by (intros ->; apply Hr; left).
    rewrite !bool_decide_false, !andb_false_r by (intros ->; apply Hr; set_solver). done.
Qed.
End Rows.

(** ** Groups *)

(** The indices, from [start] on, of the metrics of one name. *)
Definition indices_of (start : nat) (ms : list tmetric) (n : string) : list nat :=
  fst <$> filter (fun im => name (base im.2) = n) (zip (seq start (length ms)) ms).

Lemma group_lookup ms n :
  GroupMetricsByMeasurement ms !! n = match indices_of 0 ms n with [] => None | l => Some l end.
Proof.
  unfold GroupMetricsByMeasurement, indices_of. generalize (zip (seq 0 (length ms)) ms). intros l.
  set (step := fun (r : gmap string (list nat)) (im : nat * tmetric) => _).
  assert (forall r, foldl step r l !! n =
    match fst <$> filter (fun im => name (base im.2) = n) l with [] => r !! n | l' => Some (default [] (r !! n) ++ l') end) as Hr.
  2:{ rewrite Hr, lookup_empty. by destruct (fst <$> _). }
  induction l as [|[i m] l IH]; intros r; [done|]. cbn [foldl]. rewrite IH, filter_cons. unfold step. cbn [fst snd].
  case_decide as E.
  - cbn [fmap list_fmap]. rewrite E. destruct (r !! n) as [ls|] eqn:Er; rewrite lookup_insert_eq; cbn;
      (destruct (fst <$> _); [done|]; by rewrite <- ?app_assoc).
  - destruct (r !! name (base m)) as [ls|]; rewrite !lookup_insert_ne by done; done.
Qed.

Lemma indices_of_elem ms n i : i ∈ indices_of 0 ms n <-> exists m, ms !! i = Some m /\ name (base m) = n.
Proof.
  unfold indices_of. rewrite list_elem_of_fmap. split.
  - intros ([j m] & -> & [Hn Hin]%list_elem_of_filter). cbn in *. exists m. split; [|done].
    apply list_elem_of_lookup_1 in Hin as [x Hx]. apply lookup_zip_Some in Hx as [Hs Hm].
    apply lookup_seq in Hs as [-> _]. done.
  - intros (m & Hm & Hn). exists (i, m). split; [done|]. apply list_elem_of_filter. split; [done|].
    apply list_elem_of_lookup_2 with i. apply lookup_zip_Some. split; [|done].
    apply lookup_seq. apply lookup_lt_Some in Hm. done.
Qed.

(** ** The tag sets *)

(** What the package promises of its cache: it holds entries that were added, and may forget. *)
Class LruLaws `{Lru} := {
  entries : Cache -> gmap string Z;
  lru_New_law : forall n, entries (lru_New n) = ∅;
  lru_Get_law : forall k c, (lru_Get k c).1 = entries c !! k /\ entries (lru_Get k c).2 = entries c;
  lru_Add_law : forall k v c, entries (lru_Add k v c) ⊆ <[k := v]> (entries c);
}.

(** Tag sets whose cache keys tell them apart. *)
Definition key_safe (ts : gmap string string) : Prop :=
  map_Forall (fun k v => free_of (ascii_of_N 32) k = true /\ free_of (ascii_of_N 59) v = true) ts.

Fixpoint key_text (l : list (string * string)) : string :=
  match l with
  | [] => EmptyString
  | (k, v) :: l' => k +:+ String (ascii_of_N 32) (v +:+ String (ascii_of_N 59) (key_text l'))
  end.

Lemma key_text_inj l1 l2 :
  Forall (fun kv => free_of (ascii_of_N 32) kv.1 = true /\ free_of (ascii_of_N 59) kv.2 = true) l1 ->
  Forall (fun kv => free_of (ascii_of_N 32) kv.1 = true /\ free_of (ascii_of_N 59) kv.2 = true) l2 ->
  key_text l1 = key_text l2 -> l1 = l2.
Proof.
  assert (forall k v l, key_text ((k, v) :: l) <> EmptyString) as Hne by (by intros [|c k] v l).
  intros H1. revert l2. induction H1 as [|[k v] l1 [Hk Hv] _ IH]; intros l2 H2 E.
  { destruct l2 as [|[k v] l2]; [done|]. by destruct (Hne k v l2). }
  destruct H2 as [|[k' v'] l2 [Hk' Hv'] H2]; [by destruct (Hne k v l1)|]. cbn [key_text fst snd] in *.
  pose proof (f_equal (cut_at (String (ascii_of_N 32) EmptyString)) E) as Ec.
  rewrite !cut_at_free in Ec by done. injection Ec as <- Ev.
  pose proof (f_equal (cut_at (String (ascii_of_N 59) EmptyString)) Ev) as Ec.
  rewrite !cut_at_free in Ec by done. injection Ec as <- Ev'. f_equal. by apply IH.
Qed.

Section TagIDs.
Context {W : Type} `{DbEnv W} `{LruLaws} `{MapRange}.
Implicit Types (w : W) (c : defTagsCache).

Definition sorted_tags (ts : gmap string string) : list (string * string) :=
  (fun k => (k, default EmptyString (ts !! k))) <$> sort_by id (fst <$> range_map ts).

Lemma constructCacheKey_text ts : constructCacheKey ts = key_text (sorted_tags ts).
Proof.
  unfold constructCacheKey, sorted_tags. generalize (sort_by id (fst <$> range_map ts)). intros ks.
  assert (forall b, foldl (fun b k => b +:+ k +:+ " " +:+ default EmptyString (ts !! k) +:+ ";") b ks =
    b +:+ key_text ((fun k => (k, default EmptyString (ts !! k))) <$> ks)) as Hb; [|by rewrite Hb].
  induction ks as [|k ks IH]; intros b; [simpl; by rewrite str_app_nil_r|].
  cbn [foldl fmap list_fmap key_text]. rewrite IH, !str_app_assoc. done.
Qed.

Lemma sorted_tags_elem ts k v : (k, v) ∈ sorted_tags ts <-> ts !! k = Some v.
Proof.
  unfold sorted_tags. rewrite list_elem_of_fmap. split.
  - intros (k' & [= <- ->] & Hin). rewrite sort_by_perm in Hin. apply list_elem_of_fmap in Hin as ([k' v'] & -> & Hin).
    apply range_map_elem in Hin. cbn. by rewrite Hin.
  - intros Hk. exists k. split; [by rewrite Hk|]. rewrite sort_by_perm. apply list_elem_of_fmap.
    exists (k, v). split; [done|]. by apply range_map_elem.
Qed.

Lemma cache_key_inj ts1 ts2 :
  key_safe ts1 -> key_safe ts2 -> constructCacheKey ts1 = constructCacheKey ts2 -> ts1 = ts2.
Proof.
  intros H1' H2'. rewrite !constructCacheKey_text. intros E. apply key_text_inj in E.
  - apply map_eq. intros k. apply option_eq. intros v. by rewrite <- !sorted_tags_elem, E.
  - apply Forall_forall. intros [k v] Hin. apply sorted_tags_elem in Hin. by apply (H1' k v).
  - apply Forall_forall. intros [k v] Hin. apply sorted_tags_elem in Hin. by apply (H2' k v).
Qed.

(** Every cached id was given to a metric of [hist] with that name and cache key. *)
Definition cache_ok (hist : list (metric * Z)) c : Prop :=
  forall measure cm k id, tc_cache c !! measure = Some cm -> entries cm !! k = Some id ->
    exists m, (m, id) ∈ hist /\ name m = measure /\ constructCacheKey (Tags m) = k.

Lemma check_ok hist c measure key r c' :
  cache_ok hist c -> checkTagCache measure key c = (r, c') ->
  cache_ok hist c' /\ is_Some (tc_cache c' !! measure) /\
  forall id, r = Some id -> exists m, (m, id) ∈ hist /\ name m = measure /\ constructCacheKey (Tags m) = key.
Proof.
  intros Hc. unfold checkTagCache. destruct (tc_cache c !! measure) as [cm|] eqn:Ec.
  - destruct (lru_Get_law key cm) as [Hg He]. destruct (lru_Get key cm) as [id cm']. cbn [fst snd] in *.
    intros [= <- <-]. cbn [tc_cache set_cache]. split_and!.
    + intros measure' cm1 k i. cbn [tc_cache set_cache]. destruct (decide (measure' = measure)) as [->|Hne].
      * rewrite lookup_insert_eq. intros [= <-]. rewrite He. by apply Hc.
      * rewrite lookup_insert_ne by done. by apply Hc.
    + rewrite lookup_insert_eq. eauto.
    + intros i ->. by eapply Hc.
  - intros [= <- <-]. cbn [tc_cache set_cache]. split_and!; [|rewrite lookup_insert_eq; eauto|done].
    intros measure' cm1 k i. cbn [tc_cache set_cache]. destruct (decide (measure' = measure)) as [->|Hne].
    + rewrite lookup_insert_eq. intros [= <-]. by rewrite lru_New_law, lookup_empty.
    + rewrite lookup_insert_ne by done. by apply Hc.
Qed.

Lemma add_ok hist c m id c' :
  cache_ok hist c -> addToCache (name m) (constructCacheKey (Tags m)) id c = Some c' ->
  cache_ok (hist ++ [(m, id)]) c'.
Proof.
  intros Hc. unfold addToCache. intros (cm & Ecm & [= <-])%bind_Some measure' cm1 k i. cbn [tc_cache set_cache].
  destruct (decide (measure' = name m)) as [->|Hne].
  - rewrite lookup_insert_eq. intros [= <-] Hi. eapply lookup_weaken in Hi; [|apply lru_Add_law].
    destruct (decide (k = constructCacheKey (Tags m))) as [->|Hk].
    + rewrite lookup_insert_eq in Hi. injection Hi as <-. exists m. split_and!; [set_solver|done|done].
    + rewrite lookup_insert_ne in Hi by done. destruct (Hc _ _ _ _ Ecm Hi) as (m' & ? & ?). exists m'. split; [set_solver|done].
  - rewrite lookup_insert_ne by done. intros Hm Hi. destruct (Hc _ _ _ _ Hm Hi) as (m' & ? & ?).
    exists m'. split; [set_solver|done].
Qed.

(** The queries for the tag set of a metric: one that finds it, and one that inserts it, in the table of the tags of its measurement. *)
Definition tag_queries (c : defTagsCache) (names : list string) (m : metric) : list string :=
  let full := Sanitize (FullTableName (tc_schema c) (tagsTableName c (name m))) in
  ["SELECT tag_id FROM " +:+ full +:+ " WHERE " +:+ Join (where_clause c names (Tags m)).1 " AND ";
   GenerateInsert full names +:+ " RETURNING " +:+ TagIDColumnName].

(** The id is the database's answer to one of them, with the values of this tag set. *)
Definition answered (target : TargetColumns) (m : metric) c (id : Z) : Prop :=
  exists query w0 w1, query ∈ tag_queries c (tail (Names target)) m /\
    db_QueryRow query (where_clause c (tail (Names target)) (Tags m)).2 w0 = (inl id, w1).

(** The settings of a cache. *)
Definition tag_conf (c : defTagsCache) : bool * string * string := (tc_tagsAsJSONb c, tc_tagTableSuffix c, tc_schema c).

Lemma answered_conf target m m' c c' id : tag_conf c' = tag_conf c -> name m' = name m -> Tags m' = Tags m -> answered target m c id -> answered target m' c' id.
Proof.
  intros [= Ej Ex Es] En Et. unfold answered, tag_queries, where_clause, tagsTableName. by rewrite Ej, Ex, Es, En, Et.
Qed.

Lemma getTagID_ok hist target m c w r c' w' :
  cache_ok hist c -> getTagID target m c w = Some (r, c', w') ->
  match r with
  | inl id => cache_ok (hist ++ [(m, id)]) c' /\
      (answered target m c id \/ exists m', (m', id) ∈ hist /\ name m' = name m /\
         constructCacheKey (Tags m') = constructCacheKey (Tags m))
  | inr _ => cache_ok hist c'
  end /\ tag_conf c' = tag_conf c.
Proof.
  intros Hc. unfold getTagID. destruct (checkTagCache _ _ c) as [cached c1] eqn:Ech.
  assert (tag_conf c1 = tag_conf c) as Ej.
  { unfold checkTagCache in Ech. destruct (tc_cache c !! name m); [destruct (lru_Get _ _)|]; by injection Ech as _ <-. }
  assert (forall id c2, addToCache (name m) (constructCacheKey (Tags m)) id c1 = Some c2 ->
    tag_conf c2 = tag_conf c1) as Ej2.
  { unfold addToCache. by intros id c2 (cm & _ & [= <-])%bind_Some. }
  destruct (check_ok hist c _ _ _ _ Hc Ech) as (Hc1 & _ & Hhit).
  destruct cached as [id|].
  { intros [= <- <- <-]. destruct (Hhit id eq_refl) as (m' & Hin & Hn & Hk). split; [split|done].
    - intros measure cm k i Hm Hi. destruct (Hc1 _ _ _ _ Hm Hi) as (m2 & ? & ?). exists m2. split; [set_solver|done].
    - right. by exists m'. }
  assert (answered target m c1 = answered target m c) as <- by (injection Ej as Ej Ex Es; unfold answered, tag_queries, where_clause, tagsTableName; by rewrite Ej, Ex, Es).
  unfold answered, tag_queries. destruct (Names target) as [|x names]; [done|]. cbn [tail].
  destruct (where_clause c1 names (Tags m)) as [parts vals]. cbn [fst snd].
  match goal with |- context [db_QueryRow ?q vals w] => destruct (db_QueryRow q vals w) as [[id|e] w1] eqn:Eq end.
  { intros (c2 & Ea & [= <- <- <-])%bind_Some. split; [split; [by apply add_ok with c1|]|by rewrite (Ej2 _ _ Ea)].
    left. eexists _, _, _. split; [|exact Eq]. by left. }
  match goal with |- context [db_QueryRow ?q vals w1] => destruct (db_QueryRow q vals w1) as [[id|e2] w2] eqn:Eq2 end.
  - intros (c2 & Ea & [= <- <- <-])%bind_Some. split; [split; [by apply add_ok with c1|]|by rewrite (Ej2 _ _ Ea)].
    left. eexists _, _, _. split; [|exact Eq2]. by right; left.
  - intros [= <- <- <-]. done.
Qed.

(** The id is one the database gave for the tag set of this metric, asked with all its tags. *)
Definition given c (m : metric) (id : Z) : Prop :=
  exists target, (tc_tagsAsJSONb c = false -> forall k, is_Some (Tags m !! k) -> k ∈ tail (Names target)) /\ answered target m c id.

Lemma given_conf m m' c c' id : tag_conf c' = tag_conf c -> name m' = name m -> Tags m' = Tags m -> given c m id -> given c' m' id.
Proof.
  intros Ec En Et (target & Hcov & Ha). exists target. split; [|by eapply answered_conf]. rewrite Et. injection Ec as -> _ _. done.
Qed.

(** A cache all whose ids the database gave, for tag sets that the cache tells apart. *)
Definition sourced c : Prop := exists hist, cache_ok hist c /\ Forall (fun mi => key_safe (Tags mi.1) /\ given c mi.1 mi.2) hist.

Lemma newTagsCache_sourced n asJSON suffix schema : sourced (newTagsCache n asJSON suffix schema).
Proof. exists []. by split. Qed.

Lemma getTagID_given target m c w r c' w' :
  sourced c -> key_safe (Tags m) -> (tc_tagsAsJSONb c = false -> forall k, is_Some (Tags m !! k) -> k ∈ tail (Names target)) ->
  getTagID target m c w = Some (r, c', w') -> sourced c' /\ tag_conf c' = tag_conf c /\ forall id, r = inl id -> given c m id.
Proof.
  intros (hist & Hc & Hh) Hs Hcov E. destruct (getTagID_ok hist target m c w r c' w' Hc E) as [Hr Ec].
  assert (forall h, Forall (fun mi => key_safe (Tags mi.1) /\ given c mi.1 mi.2) h -> Forall (fun mi => key_safe (Tags mi.1) /\ given c' mi.1 mi.2) h) as Hconf.
  { intros h Hall. eapply Forall_impl; [exact Hall|]. intros mi [? ?]. split; [done|]. by apply (given_conf mi.1 mi.1 c c'). }
  destruct r as [id|e]; [|split; [exists hist; split; [done|by apply Hconf]|by split]].
  destruct Hr as [Hc' Hid]. assert (given c m id) as Hg.
  { destruct Hid as [Ha|(m' & Hin & Hn & Hk)]; [by exists target|]. rewrite Forall_forall in Hh. destruct (Hh _ Hin) as [Hs' Hg']. cbn [fst snd] in *.
    apply (given_conf m' m c c); [done|done|by apply cache_key_inj|done]. }
  split; [|split; [done|]; by intros ? [= <-]]. exists (hist ++ [(m, id)]). split; [done|]. apply Hconf, Forall_app. split; [done|]. by constructor.
Qed.

(** A sequence of lookups and their results. *)
Fixpoint run_ids (calls : list (TargetColumns * metric)) c w : option (list (Z + err)) :=
  match calls with
  | [] => Some []
  | (target, m) :: calls' =>
    '(r, c, w) ← getTagID target m c w;
    rs ← run_ids calls' c w;
    Some (r :: rs)
  end.

Definition id_ok c0 (calls : list (TargetColumns * metric)) (rs : list (Z + err)) (i : nat) : Prop :=
  forall target m id, calls !! i = Some (target, m) -> rs !! i = Some (inl id) ->
    answered target m c0 id \/
    exists j target' m', (j < i)%nat /\ calls !! j = Some (target', m') /\ rs !! j = Some (inl id) /\
      name m' = name m /\ Tags m' = Tags m.

Lemma run_ids_ok calls pre prers hist c w rs :
  cache_ok hist c -> length pre = length prers ->
  (forall m id, (m, id) ∈ hist -> exists j target, pre !! j = Some (target, m) /\ prers !! j = Some (inl id)) ->
  Forall (fun tm => key_safe (Tags tm.2)) (pre ++ calls) ->
  run_ids calls c w = Some rs ->
  forall c0 i, tag_conf c = tag_conf c0 -> (length pre <= i)%nat -> id_ok c0 (pre ++ calls) (prers ++ rs) i.
Proof.
  revert pre prers hist c w rs. induction calls as [|[target m] calls IH]; intros pre prers hist c w rs Hc Hl Hh Hs E c0 i Hc0 Hi.
  { intros target m id Hm _. rewrite app_nil_r in Hm. apply lookup_lt_Some in Hm. lia. }
  cbn [run_ids] in E. apply bind_Some in E as ([[r c'] w'] & Eg & E). apply bind_Some in E as (rs' & Er & [= <-]).
  destruct (getTagID_ok hist target m c w r c' w' Hc Eg) as [Hr Ej].
  destruct (decide (i = length pre)) as [->|Hne].
  - intros target0 m0 id Hm0 Hid. rewrite lookup_app_r, Nat.sub_diag in Hm0 by lia. injection Hm0 as <- <-.
    rewrite lookup_app_r, Hl, Nat.sub_diag in Hid by lia. injection Hid as ->.
    destruct Hr as [_ [Ha|(m' & Hin & Hn & Hk)]].
    + left. by apply (answered_conf target m m c c0 id).
    + right. destruct (Hh m' id Hin) as (j & target' & Hp & Hq). exists j, target', m'.
      pose proof (lookup_lt_Some _ _ _ Hp). pose proof (lookup_lt_Some _ _ _ Hq).
      split_and!; [lia|by rewrite lookup_app_l by lia|by rewrite lookup_app_l by lia|done|].
      rewrite Forall_forall in Hs. apply cache_key_inj; [| |done].
      * apply (Hs (target', m')), list_elem_of_lookup_2 with j. rewrite lookup_app_l by lia. done.
      * apply (Hs (target, m)), elem_of_app. right. left.
  - rewrite (cons_middle (target, m)), (cons_middle r), !app_assoc.
    eapply (IH (pre ++ [(target, m)]) (prers ++ [r])
      (hist ++ match r with inl id => [(m, id)] | inr _ => [] end) c' w' rs').
    + destruct r as [id|e]; [by destruct Hr|by rewrite app_nil_r].
    + by rewrite !length_app, Hl.
    + intros m0 id [Hin|Hin]%elem_of_app.
      * destruct (Hh m0 id Hin) as (j & tg & Hp & Hq). exists j, tg.
        pose proof (lookup_lt_Some _ _ _ Hp). pose proof (lookup_lt_Some _ _ _ Hq).
        by rewrite !lookup_app_l by lia.
      * destruct r as [id'|e]; [|set_solver]. apply list_elem_of_singleton in Hin as [= -> ->].
        exists (length pre), target. rewrite !lookup_app_r, Hl, !Nat.sub_diag by lia. done.
    + by rewrite <- app_assoc.
    + done.
    + congruence.
    + rewrite length_app. simpl. lia.
Qed.

Lemma run_ids_total calls c w :
  Forall (fun tm => Names tm.1 <> []) calls -> exists rs, run_ids calls c w = Some rs /\ length rs = length calls.
Proof.
  intros Hc. revert c w. induction Hc as [|[target m] calls Ht _ IH]; intros c w; [by exists []|].
  cbn [run_ids]. destruct (getTagID_total target m c w Ht) as [[[r c'] w'] ->]. binds.
  destruct (IH c' w') as (rs & -> & Hl). binds. eexists. split; [done|]. simpl. lia.
Qed.
End TagIDs.

(** ** Writing a batch *)

(** A database that notes the batches it has taken; a batch that fails leaves nothing. *)
Class DbLaws (W : Type) `{DbEnv W} := {
  copies : W -> list (list string * list string * list (list cell));
  New_law : forall s w, copies (db_New s w).2 = copies w;
  IsAlive_law : forall w, copies (db_IsAlive w).2 = copies w;
  Exec_law : forall q a w, copies (db_Exec q a w).2 = copies w;
  Query_law : forall q a w, copies (db_Query q a w).2 = copies w;
  QueryRow_law : forall q a w, copies (db_QueryRow q a w).2 = copies w;
  DoCopy_law : forall t ns rows w, copies (db_DoCopy t ns rows w).2 =
    match (db_DoCopy t ns rows w).1 with None => copies w ++ [(t, ns, rows)] | Some _ => copies w end;
}.

(** Replace a call of the database by its result and what the law says of it. *)
Ltac db_call law :=
  match type of law with
  | copies (snd ?c) = _ => let E := fresh "Ecp" in pose proof law as E; destruct c as [? ?]; cbn [fst snd] in E
  end.

Section Write.
Context {W : Type} `{DbLaws W} `{LruLaws} `{MapRange}.
Implicit Types (w : W) (c : TargetColumns) (t : defTableManager).

Lemma Exists_total nm t w : exists b t' w', Exists nm t w = (b, t', w') /\ copies w' = copies w.
Proof.
  unfold Exists. case_decide; [eauto|]. db_call (Exec_law tableExistsTemplate [CText nm; CText (t_schema t)] w).
  destruct s as [n|e]; [|eauto]. destruct (n =? 1); eauto.
Qed.

Lemma column_defs_total ns tys rs :
  length tys = length ns -> length rs = length ns -> is_Some (column_defs ns tys rs).
Proof.
  revert tys rs. induction ns as [|n ns IH]; intros [|ty tys] [|r rs] Ht Hr; try done. cbn [column_defs].
  destruct (IH tys rs) as [[defs pk] ->]; [simpl in *; lia..|]. binds. eauto.
Qed.

Lemma CreateTable_total nm c t w :
  good c -> exists e t' w', CreateTable nm c t w = Some (e, t', w') /\ copies w' = copies w.
Proof.
  intros Hg. unfold CreateTable, generateCreateTableSQL.
  destruct (column_defs_total (Names c) (DataTypes c) (Roles c)) as [[defs pk] ->]; [apply Hg..|]. binds.
  set (sql := ReplaceAll _ _ _). db_call (Exec_law sql [] w). destruct s as [n|e]; eauto.
Qed.

Lemma mismatch_loop_total i present tys :
  (length present <= length tys)%nat -> exists r, mismatch_loop i present tys = Some r /\
    forall missing, r = inl missing -> Forall (fun j => (i <= j < i + length present)%nat) missing.
Proof.
  revert i tys. induction present as [|[ty|] present IH]; intros i tys Hl.
  - eexists. split; [done|]. by intros ? [= <-].
  - destruct tys as [|ty' tys]; [simpl in Hl; lia|]. cbn [mismatch_loop].
    destruct (PgTypeCanContain ty ty'); [|eexists; by split].
    destruct (IH (S i) tys) as (r & -> & Hr); [simpl in Hl; lia|]. eexists. split; [done|].
    intros missing E. eapply Forall_impl; [by apply Hr|]. simpl. lia.
  - cbn [mismatch_loop]. destruct (IH (S i) (tail tys)) as (r & -> & Hr); [destruct tys; simpl in *; lia|].
    destruct r as [missing|e]; [|eexists; by split]. eexists. split; [done|]. intros ? [= <-].
    constructor; [simpl; lia|]. eapply Forall_impl; [by apply Hr|]. simpl. lia.
Qed.

Lemma FindColumnMismatch_total nm c t w :
  good c -> exists r w', FindColumnMismatch nm c t w = Some (r, w') /\ copies w' = copies w /\
    forall missing, r = inl missing -> Forall (fun j => (j < length (Names c))%nat) missing.
Proof.
  intros Hg. unfold FindColumnMismatch, findColumnPresence, findExistingColumns.
  db_call (Query_law findExistingColumnsTemplate [CText (t_schema t); CText nm] w).
  destruct s as [rows|e]; [|eexists _, _; by split_and!]. destruct (size _ =? 0)%nat; [eexists _, _; by split_and!|].
  set (present := _ <$> Names c). destruct (mismatch_loop_total 0 present (DataTypes c)) as (r & -> & Hr).
  { unfold present. rewrite length_fmap, (good_types _ Hg). lia. }
  binds. eexists _, _. split_and!; [done|done|]. intros missing E. eapply Forall_impl; [by apply Hr|].
  unfold present. rewrite length_fmap. simpl. lia.
Qed.

Lemma AddColumns_total nm indices c t w :
  good c -> Forall (fun j => (j < length (Names c))%nat) indices ->
  exists e w', AddColumnsToTable nm indices c t w = Some (e, w') /\ copies w' = copies w.
Proof.
  intros Hg Hi. revert w. induction Hi as [|i indices Hi _ IH]; intros w; [eexists _, _; by split|].
  cbn [AddColumnsToTable]. destruct (lookup_lt_is_Some_2 (Names c) i Hi) as [n ->].
  destruct (lookup_lt_is_Some_2 (DataTypes c) i) as [ty ->]; [by rewrite (good_types _ Hg)|]. binds.
  set (q := addColumnQuery _ n ty). db_call (Exec_law q [] w). destruct s as [k|e]; [|eexists _, _; by split].
  destruct (IH w0) as (e & w' & -> & Ec). eexists _, _. split; [done|congruence].
Qed.

Lemma prepareTable_total nm c t w :
  good c -> exists e t' w', prepareTable nm c t w = Some (e, t', w') /\ copies w' = copies w.
Proof.
  intros Hg. unfold prepareTable. destruct (Exists_total nm t w) as (b & t1 & w1 & -> & E1). destruct b.
  - destruct (FindColumnMismatch_total nm c t1 w1 Hg) as (r & w2 & -> & E2 & Hr). binds.
    destruct r as [[|i missing]|e]; [eexists _, _, _; split; [done|congruence]| |eexists _, _, _; split; [done|congruence]].
    destruct (AddColumns_total nm (i :: missing) c t1 w2 Hg (Hr _ eq_refl)) as (e & w3 & -> & E3). binds.
    eexists _, _, _. split; [done|congruence].
  - destruct (CreateTable_total nm c t1 w1 Hg) as (e & t2 & w2 & -> & E2). eexists _, _, _. split; [done|congruence].
Qed.

Lemma getTagID_copies target m (cc cc' : defTagsCache) w w' r :
  getTagID target m cc w = Some (r, cc', w') -> copies w' = copies w.
Proof.
  unfold getTagID. destruct (checkTagCache _ _ cc) as [[id|] c1]; [by intros [= <- <- <-]|].
  destruct (Names target) as [|x names]; [done|]. destruct (where_clause c1 names (Tags m)) as [parts vals].
  match goal with |- context [db_QueryRow ?q vals w] => db_call (QueryRow_law q vals w) end.
  destruct s as [id|e]; [destruct (addToCache _ _ id c1); binds; [|done]; by intros [= <- <- <-]|].
  match goal with |- context [db_QueryRow ?q vals w0] => db_call (QueryRow_law q vals w0) end.
  destruct s as [id|e2]; [destruct (addToCache _ _ id c1); binds; [|done]; intros [= <- <- <-]|intros [= <- <- <-]]; congruence.
Qed.

Lemma createRow_copies dt n m c tc cache cache' w w' r :
  createRowFromMetric dt n m c tc cache w = Some (r, cache', w') -> copies w' = copies w.
Proof.
  unfold createRowFromMetric. intros E. apply bind_Some in E as (row & _ & E). apply bind_Some in E as ([[r1 cache1] w1] & Emid & E).
  assert (w' = w1) as ->.
  { destruct r1 as [row1|e]; [|by injection E]. destruct (dt_fieldsAsJSONb dt).
    - destruct (BuildJsonb_fields (Fields m)); [|by injection E]. by apply bind_Some in E as (row2 & _ & [= <- <- <-]).
    - by apply bind_Some in E as (row2 & _ & [= <- <- <-]). }
  clear E. destruct (dt_tagsAsFK dt); [|destruct (dt_tagsAsJSONb dt); by apply bind_Some in Emid as (row2 & _ & [= <- <- <-])].
  apply bind_Some in Emid as (cc & _ & Emid). apply bind_Some in Emid as (tt & _ & Emid).
  apply bind_Some in Emid as ([[r2 cc2] w2] & Eg & Emid). apply getTagID_copies in Eg.
  destruct r2 as [id|e]; [destruct (_ <? _)%nat; [|done]|]; by injection Emid as <- <- <-.
Qed.

(** The cache of a writer with tags in a table of their own, with the settings of [c0]. *)
Definition cache_ready (dt : defTransformer) (c0 : defTagsCache) (cache : option defTagsCache) : Prop :=
  dt_tagsAsFK dt = true -> exists cc, cache = Some cc /\ sourced cc /\ tag_conf cc = tag_conf c0.
(** A metric whose tag set can be asked for. *)
Definition tags_ready (dt : defTransformer) (c0 : defTagsCache) (tc : option TargetColumns) (m : metric) : Prop :=
  dt_tagsAsFK dt = true -> key_safe (Tags m) /\
    forall tt, tc = Some tt -> tc_tagsAsJSONb c0 = false -> forall k, is_Some (Tags m !! k) -> k ∈ tail (Names tt).

Definition row_for (dt : defTransformer) (c0 : defTagsCache) (ms : list tmetric) c (i : nat) (row : list cell) : Prop :=
  exists m id, ms !! i = Some m /\ reads c row (expected dt id (base m)) /\ (dt_tagsAsFK dt = true -> given c0 (base m) id).

Lemma asked_given dt (c0 : defTagsCache) tc cache m w rid cache' w' : cache_ready dt c0 cache -> tags_ready dt c0 tc m -> asked dt tc cache m w rid cache' w' ->
  cache_ready dt c0 cache' /\ forall id, rid = inl id -> dt_tagsAsFK dt = true -> given c0 m id.
Proof.
  intros Hc Ht Ha. destruct (dt_tagsAsFK dt) eqn:Ef; [|split; [intros E; congruence|done]].
  destruct (Hc Ef) as (cc & -> & Hs & Ec), (Ht Ef) as [Hk Hcov], (Ha Ef) as (cc1 & t & cc' & [= <-] & -> & -> & Eg).
  destruct (getTagID_given t m cc w rid cc' w' Hs Hk) as (Hs' & Ec' & Hid); [|done|].
  { intros Ej. apply Hcov; [done|]. injection Ec as <- _ _. done. }
  split; [intros _; exists cc'; split_and!; [done|done|congruence]|]. intros id -> _. apply (given_conf m m cc c0); try done. by apply Hid.
Qed.

Lemma rows_loop_reads dt (c0 : defTagsCache) indices ms c tc cache w :
  Forall (fun i => exists m, ms !! i = Some m /\ wf (base m) /\ stores dt c (base m) /\ tags_ready dt c0 tc (base m)) indices ->
  fk_ready dt tc cache -> cache_ready dt c0 cache ->
  exists r cache' w', rows_loop dt indices ms c tc cache w = Some (r, cache', w') /\ cache_ready dt c0 cache' /\
    copies w' = copies w /\ forall rows, r = inl rows -> Forall2 (row_for dt c0 ms c) indices rows.
Proof.
  intros Hi. revert cache w. induction Hi as [|i indices (m & Hm & Hwf & Hst & Htr) _ IH]; intros cache w Hfk Hcr.
  { eexists _, _, _. split_and!; [done|done|done|]. intros rows [= <-]. constructor. }
  cbn [rows_loop]. rewrite Hm. binds.
  destruct (createRow_reads dt (base m) c tc cache w Hwf Hst Hfk) as (r & cache1 & w1 & E & Hfk1 & (rid & Hask & Hrow) & _).
  destruct (asked_given _ _ _ _ _ _ _ _ _ Hcr Htr Hask) as [Hcr1 Hgiven].
  pose proof (createRow_copies _ _ _ _ _ _ _ _ _ _ E) as Ec. rewrite E. binds.
  destruct r as [row|e]; [|eexists _, _, _; by split_and!].
  destruct (IH cache1 w1 Hfk1 Hcr1) as (r2 & cache2 & w2 & -> & Hfk2 & Ec2 & Hrows). binds.
  destruct r2 as [rows|e]; [|eexists _, _, _; split_and!; [done|done|congruence|done]].
  eexists _, _, _. split_and!; [done|done|congruence|]. intros ? [= <-]. constructor; [|by apply Hrows].
  destruct (Hrow row eq_refl) as (id & Eid & Hr). exists m, id. split_and!; [done|done|]. by apply Hgiven.
Qed.

(** The cache that a plugin starts with. *)
Definition tag_settings (p : Postgresql) : defTagsCache := newTagsCache (CachedTagsetsPerMeasurement p) (TagsAsJsonb p) (TagTableSuffix p) (Schema p).

(** The settings of a plugin that writing does not change, and what it needs. *)
Definition same_settings (p p' : Postgresql) : Prop :=
  Schema p' = Schema p /\ rows_of p' = rows_of p /\ columns_of p' = columns_of p /\ tag_settings p' = tag_settings p.
Definition pg_ready (p : Postgresql) : Prop := is_Some (tables p) /\ cache_ready (rows_of p) (tag_settings p) (tagCache p).

(** A plugin that has connected is ready. *)
Lemma Connect_ready p w : (Connect p w).1.1 = true -> pg_ready (Connect p w).1.2.
Proof.
  unfold Connect. destruct (db_New (Connection p) w) as [[|] w']; [|done]. intros _. split; [by eexists|]. intros Ef. cbn in Ef |- *. rewrite Ef.
  eexists. split; [done|]. split; [apply newTagsCache_sourced|done].
Qed.

Lemma same_settings_trans p1 p2 p3 : same_settings p1 p2 -> same_settings p2 p3 -> same_settings p1 p3.
Proof. unfold same_settings. intuition congruence. Qed.

Lemma prepareTables_total p nm c tc w :
  pg_ready p -> good c -> (TagsAsForeignkeys p = true -> exists tt, tc = Some tt /\ good tt) ->
  exists e p' w', prepareTables p nm c tc w = Some (e, p', w') /\ pg_ready p' /\ same_settings p p' /\
    tagCache p' = tagCache p /\ copies w' = copies w.
Proof.
  intros [[t Ht] Hc] Hg Htc. unfold prepareTables. destruct (DoSchemaUpdates p); [|eexists _, _, _; by split_and!].
  rewrite Ht. binds. destruct (prepareTable_total nm c t w Hg) as (e & t1 & w1 & -> & E1). binds.
  destruct e as [e|]; [eexists _, _, _; split_and!; done|]. cbn [TagsAsForeignkeys set_state].
  destruct (TagsAsForeignkeys p) eqn:Ef; [|eexists _, _, _; split_and!; [done|split; [eauto|exact Hc]|done..]].
  destruct (Hc Ef) as (cc & Ecc & _), (Htc eq_refl) as (tt & -> & Hgt). cbn [tagCache set_state]. rewrite Ecc. binds.
  destruct (prepareTable_total (tagsTableName cc nm) tt t1 w1 Hgt) as (e & t2 & w2 & -> & E2). binds.
  eexists _, _, _. split; [done|]. split; [split; [cbn; eauto|rewrite <- Ecc; exact Hc]|]. split_and!; [done..|cbn; congruence|congruence].
Qed.

Lemma batch_stores (p : Postgresql) indices ms c i m :
  batch_ok (columns_of p) indices ms -> good c -> Names (init_main (columns_of p)) `prefix_of` Names c ->
  (forall k, k ∈ Names c <-> k ∈ Names (init_main (columns_of p)) \/
     (tagsAsJSON (columns_of p) && fieldsAsJSON (columns_of p) = false /\
      (visited field_keys indices ms k \/
       (tagsAsFK (columns_of p) = false /\ visited (tag_keys (columns_of p)) indices ms k)))) ->
  i ∈ indices -> ms !! i = Some m -> stores (rows_of p) c (base m).
Proof.
  intros (_ & Hres & _) Hg Hp Hn Hi Hm. split_and!; [done|exact Hp| |]; cbn [dt_fieldsAsJSONb dt_tagsAsFK dt_tagsAsJSONb rows_of].
  - intros Ef. apply Forall_forall. intros k Hk. assert (visited field_keys indices ms k) as Hv by (by exists i, m).
    split; [|apply Hres; by right]. apply Hn. right. split; [cbn; by rewrite Ef, andb_false_r|by left].
  - intros Ef Ej. apply Forall_forall. intros k Hk. assert (visited (tag_keys (columns_of p)) indices ms k) as Hv.
    { exists i, m. split_and!; [done..|]. unfold tag_keys. cbn. by rewrite Ej. }
    split; [|apply Hres; by left]. apply Hn. right. split; [cbn; by rewrite Ej|by right].
Qed.

(** A batch of a copy: the rows of the indexed metrics, in order, under the columns' names. *)
Definition copy_for (p : Postgresql) (ms : list tmetric) (g : string * list nat)
    (e : list string * list string * list (list cell)) : Prop :=
  exists c, e.1.1 = FullTableName (Schema p) g.1 /\ e.1.2 = Names c /\ good c /\
    Forall2 (row_for (rows_of p) (tag_settings p) ms c) g.2 e.2.

Lemma batch_tags_ready (p : Postgresql) indices ms (tt : TargetColumns) i m :
  batch_ok (columns_of p) indices ms -> TagsAsForeignkeys p = true -> wf (base m) -> tag_init (columns_of p) `prefix_of` Names tt ->
  (forall k, k ∈ Names tt <-> k ∈ tag_init (columns_of p) \/ visited (tag_keys (columns_of p)) indices ms k) ->
  i ∈ indices -> ms !! i = Some m -> tc_tagsAsJSONb (tag_settings p) = false -> forall k, is_Some (Tags (base m) !! k) -> k ∈ tail (Names tt).
Proof.
  intros (_ & Hres & _) Ef Hwf [rest Ep] Hn Hi Hm Ej k [v Hk]. cbn in Ej.
  assert (visited (tag_keys (columns_of p)) indices ms k) as Hv.
  { exists i, m. split_and!; [done..|]. unfold tag_keys. cbn. rewrite Ej. unfold Tags in Hk. rewrite keyed_map_lookup in Hk by apply tags_wf_NoDup, (wf_tags _ Hwf).
    apply fmap_Some in Hk as (x & Hx & _). apply key_find_Some in Hx as [Hx <-]. by apply (list_elem_of_fmap_2 Key). }
  assert (k ∈ Names tt) as Hin by (apply Hn; by right). assert (k ∉ reserved) as Hr by (apply Hres; by left).
  assert (head (tag_init (columns_of p)) = Some TagIDColumnName) as Eh by (unfold tag_init, init_tags; cbn; rewrite Ef; by destruct (TagsAsJsonb p), (FieldsAsJsonb p)).
  rewrite Ep in Hin |- *. destruct (tag_init (columns_of p)) as [|x l]; [done|]. injection Eh as ->. cbn [app tail] in *.
  apply elem_of_cons in Hin as [->|Hin]; [|done]. destruct Hr. set_solver.
Qed.

Lemma writeMeasure_copies p nm indices ms w :
  pg_ready p -> batch_ok (columns_of p) indices ms -> Forall (fun m => wf (base m) /\ (TagsAsForeignkeys p = true -> key_safe (Tags (base m)))) ms ->
  exists e p' w', writeMetricsFromMeasure p nm indices ms w = Some (e, p', w') /\ pg_ready p' /\ same_settings p p' /\
    match e with
    | None => exists cp, copies w' = copies w ++ [cp] /\ copy_for p ms (nm, indices) cp
    | Some _ => copies w' = copies w
    end.
Proof.
  intros Hr Hb Hwf. unfold writeMetricsFromMeasure.
  destruct (columns_Target_names (columns_of p) indices ms Hb) as (c & tc & -> & Hg & Hp & Hn & Htc). binds.
  destruct (prepareTables_total p nm c tc w Hr Hg) as (e & p1 & w1 & -> & Hr1 & Hs1 & Hc1 & E1).
  { intros Ef. destruct tc as [t|]; [exists t; split; [done|apply Htc]|]. cbn in Htc. congruence. }
  binds. destruct e as [e|]; [eexists _, _, _; by split_and!|].
  pose proof Hs1 as (Es & Er & Ec & Eset). rewrite Er.
  assert (Forall (fun i => exists m, ms !! i = Some m /\ wf (base m) /\ stores (rows_of p) c (base m) /\ tags_ready (rows_of p) (tag_settings p) tc (base m)) indices) as Hrows.
  { apply Forall_forall. intros i Hi. destruct Hb as (Hl & Hb'). pose proof Hl as Hl'. rewrite Forall_forall in Hl'.
    destruct (lookup_lt_is_Some_2 ms i (Hl' i Hi)) as [m Hm]. exists m.
    rewrite Forall_forall in Hwf. destruct (Hwf m) as [Hwm Hsm]; [by eapply list_elem_of_lookup_2|]. split_and!; [done|done|by eapply batch_stores|].
    intros Ef. cbn in Ef. split; [by apply Hsm|]. intros tt ->. destruct Htc as (_ & _ & Hpt & Hnt). by eapply batch_tags_ready. }
  assert (cache_ready (rows_of p) (tag_settings p) (tagCache p1)) as Hcr by (rewrite Hc1; apply Hr).
  destruct (rows_loop_reads (rows_of p) (tag_settings p) indices ms c tc (tagCache p1) w1 Hrows) as (r & cache & w2 & -> & Hfk & E2 & Hrd); [|done|].
  { intros Ef. cbn in Ef. destruct (Hcr Ef) as (cc & -> & _). split; [by eexists|].
    destruct tc as [t|]; [|cbn in Htc; congruence]. exists t. split; [done|]. destruct Htc as (_ & _ & _ & Hnt).
    intros E0. assert (TagIDColumnName ∈ Names t) as Hin; [|rewrite E0 in Hin; set_solver].
    apply Hnt. left. unfold tag_init, init_tags. cbn. rewrite Ef.
    destruct (TagsAsJsonb p), (FieldsAsJsonb p); cbn; set_solver. }
  binds. set (p2 := set_state _ _ cache p1).
  assert (pg_ready p2 /\ same_settings p p2) as [Hr2 Hs2].
  { split; [split; [apply Hr1|]|exact Hs1]. change (rows_of p2) with (rows_of p1). change (tag_settings p2) with (tag_settings p1). by rewrite Er, Eset. }
  destruct r as [values|e]; [|eexists _, _, _; split_and!; [done..|congruence]].
  set (full := FullTableName _ nm). db_call (DoCopy_law full (Names c) values w2).
  eexists _, _, _. split_and!; [done..|]. destruct o as [e|]; [congruence|]. eexists. split; [rewrite <- E1, <- E2; exact Ecp|].
  exists c. cbn [fst snd]. split_and!; [|done|done|by apply Hrd]. unfold full. by rewrite (proj1 Hs2).
Qed.

Lemma write_groups_copies gs ms p w :
  pg_ready p -> Forall (fun g => batch_ok (columns_of p) g.2 ms) gs -> Forall (fun m => wf (base m) /\ (TagsAsForeignkeys p = true -> key_safe (Tags (base m)))) ms ->
  exists e p' w', write_groups gs ms p w = Some (e, p', w') /\ pg_ready p' /\ exists done cps,
    copies w' = copies w ++ cps /\ Forall2 (copy_for p ms) done cps /\ done `prefix_of` gs /\ (e = None -> done = gs).
Proof.
  intros Hr Hb Hwf. revert p w Hr Hb Hwf. induction gs as [|[nm indices] gs IH]; intros p w Hr Hb Hwf.
  { eexists _, _, _. split_and!; [done|done|]. exists [], []. rewrite app_nil_r. split_and!; done. }
  apply Forall_cons in Hb as [Hb1 Hb]. cbn [write_groups].
  destruct (writeMeasure_copies p nm indices ms w Hr Hb1 Hwf) as (e & p1 & w1 & -> & Hr1 & Hs1 & He). binds.
  destruct e as [e|].
  { eexists _, _, _. split_and!; [done|done|]. exists [], []. rewrite app_nil_r. split_and!; try done. apply prefix_nil. }
  destruct He as (cp & E1 & Hcp). pose proof Hs1 as (Es & Er & Ec & Et). assert (TagsAsForeignkeys p1 = TagsAsForeignkeys p) as Ef by (by injection Er).
  destruct (IH p1 w1 Hr1) as (e & p2 & w2 & -> & Hr2 & dn & cps & E2 & Hcps & Hpre & Hall); [by rewrite Ec|by rewrite Ef|].
  eexists _, _, _. split_and!; [done|done|]. exists ((nm, indices) :: dn), (cp :: cps). split_and!.
  - rewrite E2, E1, <- app_assoc. done.
  - constructor; [done|]. eapply Forall2_impl; [exact Hcps|]. intros g e' (c & H1' & H2' & H3' & H4').
    exists c. split_and!; [congruence|done|done|by rewrite <- Er, <- Et].
  - by apply prefix_cons.
  - intros E. by rewrite (Hall E).
Qed.
End Write.


(** ** The ids of tag sets *)

(** The ids of tag sets. In any sequence of lookups through the cache, none of which
    panics, an id that is returned is the database's answer to a query with the values of
    this tag set, or the id an earlier metric of the same measurement with the same tags
    got: the cache, whatever it forgets, never mixes up tag sets, if no tag key has
    a space and no tag value a semicolon. *)
Theorem Pg_tag_ids {W : Type} `{DbEnv W} `{LruLaws} `{MapRange} (calls : list (TargetColumns * metric))
    (size : Z) (asJSON : bool) (suffix schema : string) (w : W)
    (Hn : Forall (fun tm => Names tm.1 <> []) calls)
    (Hs : Forall (fun tm => key_safe (Tags tm.2)) calls) :
  exists rs, run_ids calls (newTagsCache size asJSON suffix schema) w = Some rs /\ length rs = length calls /\
    forall i, id_ok (newTagsCache size asJSON suffix schema) calls rs i.
Proof.
  destruct (run_ids_total calls (newTagsCache size asJSON suffix schema) w Hn) as (rs & E & Hl).
  exists rs. split_and!; [done|done|]. intros i.
  eapply (run_ids_ok calls [] [] [] (newTagsCache size asJSON suffix schema) w rs); try done.
  - intros m id Hin. set_solver.
  - simpl. lia.
Qed.

(** Keys and values that hold the separators collide. *)
Lemma cache_key_collision :
  constructCacheKey (H1 := map_range_default) {["a" := "1;b 2"]} =
  constructCacheKey (H1 := map_range_default) {["a" := "1"; "b" := "2"]}.
Proof. vm_compute. reflexivity. Qed.

(** With tags in a table of their own, a field that has the key of a tag of the batch gets no
    column, and its value replaces the time of the row. *)
Lemma field_named_as_tag {W : Type} `{DbEnv W} `{Lru} `{MapRange} id (w : W) (cache : defTagsCache) :
  let m := mkMetric "m" [mkTag "x" "t"] [mkField "x" (VInt 1)] 5 Gauge false in
  match columns_Target (NewMapper true false false) [0%nat] [mkTM m None] with
  | Some (c, Some tc) =>
    Names c = [TimeColumnName; TagIDColumnName] /\
    (forall cache' w', getTagID tc m cache w = Some (inl id, cache', w') ->
     createRowFromMetric (mkTransformer true false false) 2 m c (Some tc) (Some cache) w =
       Some (inl [CVal (VInt 1); CTagID id], Some cache', w'))
  | _ => False
  end.
Proof.
  vm_compute columns_Target. split; [done|]. intros cache' w' E. unfold createRowFromMetric.
  cbn [dt_tagsAsFK length replicate Nat.ltb Nat.leb]. binds. rewrite E. binds. done.
Qed.

(** Fields kept in a JSON column get columns of their own too, unless tags are kept so. *)
Lemma json_fields_get_columns :
  let m := mkMetric "m" [] [mkField "x" (VInt 1)] 5 Gauge false in
  Names <$> (fst <$> columns_Target (NewMapper false false true) [0%nat] [mkTM m None]) =
    Some [TimeColumnName; FieldsJSONColumn; "x"].
Proof. reflexivity. Qed.

(** The keys of single metrics decide whether all batches are in order. *)
Lemma batch_ok_indices d ms n :
  Forall (fun m => Forall (fun k => k ∉ reserved) (tag_keys d (base m) ++ field_keys (base m))) ms ->
  Forall (fun m => Forall (fun m' => Forall (fun k => k ∉ field_keys (base m')) (tag_keys d (base m))) ms) ms -> batch_ok d (indices_of 0 ms n) ms.
Proof.
  intros Hk Hc. split_and!.
  - apply Forall_forall. intros i Hi. apply indices_of_elem in Hi as (m & Hm & _). by apply lookup_lt_Some in Hm.
  - intros k. rewrite Forall_forall in Hk.
    intros [(i & m & _ & Hm & Hin)|(i & m & _ & Hm & Hin)]; apply list_elem_of_lookup_2, Hk in Hm;
      rewrite Forall_forall in Hm; apply Hm; set_solver.
  - intros _ k (i & m & _ & Hm & Hin) (i' & m' & _ & Hm' & Hin'). rewrite Forall_forall in Hc. apply list_elem_of_lookup_2, Hc in Hm.
    rewrite Forall_forall in Hm. apply list_elem_of_lookup_2, Hm in Hm'. rewrite Forall_forall in Hm'. by apply (Hm' k).
Qed.

#[local] Instance ex_lru : Lru :=
  {| Cache := gmap string Z; lru_New := fun _ => ∅; lru_Get := fun k c => (c !! k, c); lru_Add := fun k v c => <[k := v]> c |}.
#[local, refine] Instance ex_lru_laws : LruLaws := {| entries := fun c => c |}.
Proof. all: done. Defined.

(** A database that has no tables yet, numbers the rows it inserts and notes the copies. *)
Record ex_database := mkExDb { ex_copies : list (list string * list string * list (list cell)); ex_next : Z }.
#[local] Instance ex_db : DbEnv ex_database := {|
  db_New := fun _ w => (true, w); db_IsAlive := fun w => (true, w);
  db_Exec := fun _ _ w => (inl 0, w); db_Query := fun _ _ w => (inl [], w);
  db_QueryRow := fun q _ w =>
    if HasPrefix q "INSERT" then (inl (ex_next w), mkExDb (ex_copies w) (ex_next w + 1)) else (inr "no rows", w);
  db_DoCopy := fun t ns rows w => (None, mkExDb (ex_copies w ++ [(t, ns, rows)]) (ex_next w));
  Sanitize := fun parts => Join parts "." |}.
#[local, refine] Instance ex_db_laws : DbLaws ex_database := {| copies := ex_copies |}.
Proof. all: try done. intros q a w. cbn. by destruct (HasPrefix q "INSERT"). Defined.

#[local] Existing Instance map_range_default.

Definition ex_pg : Postgresql := (Connect newPostgresql (mkExDb [] 1)).1.2.
(** With tags in tables of their own. *)
Definition ex_pg_tags : Postgresql :=
  (Connect (mkPg EmptyString "public" true true 1000 false false "CREATE TABLE IF NOT EXISTS {TABLE}({COLUMNS})" "_tag" false None None) (mkExDb [] 1)).1.2.
Definition ex_batch : list tmetric :=
  [mkTM (mkMetric "cpu" [mkTag "host" "a"] [mkField "idle" (VInt 9)] 5 Gauge false) None;
   mkTM (mkMetric "mem" [] [mkField "free" (VInt 3)] 6 Gauge false) None;
   mkTM (mkMetric "cpu" [] [mkField "idle" (VInt 8); mkField "user" (VInt 2)] 7 Gauge false) None].

Lemma ex_written :
  (fun r => ex_copies r.2) <$> Write ex_batch ex_pg (mkExDb [] 1) = Some
    [(["public"; "cpu"], ["time"; "host"; "idle"; "user"],
      [[CTime 5; CText "a"; CVal (VInt 9); CNull]; [CTime 7; CNull; CVal (VInt 8); CVal (VInt 2)]]);
     (["public"; "mem"], ["time"; "free"], [[CTime 6; CVal (VInt 3)]])].
Proof. vm_compute. reflexivity. Qed.

Lemma ex_written_tags :
  (fun r => ex_copies r.2) <$> Write ex_batch ex_pg_tags (mkExDb [] 1) = Some
    [(["public"; "cpu"], ["time"; "tag_id"; "idle"; "user"],
      [[CTime 5; CTagID 1; CVal (VInt 9); CNull]; [CTime 7; CTagID 2; CVal (VInt 8); CVal (VInt 2)]]);
     (["public"; "mem"], ["time"; "tag_id"; "free"], [[CTime 6; CTagID 3; CVal (VInt 3)]])].
Proof. vm_compute. reflexivity. Qed.


Lemma Pg_tag_ids_witness :
  let m := mkMetric "cpu" [mkTag "host" "a"] [] 5 Gauge false in
  let tc := mkTC ["tag_id"; "host"] [] ∅ [] in
  exists rs, run_ids [(tc, m); (tc, mkMetric "mem" [] [] 5 Gauge false); (tc, m)] (newTagsCache 10 false "_tag" "public") (mkExDb [] 1) =
    Some rs /\ rs = [inl 1; inl 2; inl 1] /\ id_ok (newTagsCache 10 false "_tag" "public") [(tc, m); (tc, mkMetric "mem" [] [] 5 Gauge false); (tc, m)] rs 2.
Proof.
  cbn zeta. set (calls := [_; _; _]).
  destruct (Pg_tag_ids calls 10 false "_tag" "public" (mkExDb [] 1)) as (rs & E & _ & Hok).
  - repeat constructor; done.
  - unfold calls, key_safe. apply (bool_decide_unpack _). vm_compute. exact I.
  - exists rs. split; [exact E|]. split; [vm_compute in E; congruence|apply Hok].
Defined.
