(* ===== verification/Templating.v ===== *)
(** * Templates

    [internal/templating]: how a dotted name is matched against filters and taken apart by
    the template of the best one. A tree of filter parts ([node.go]) finds the template,
    a matcher adds the default ([matcher.go]), a template maps the parts of a name
    to measurement, tags and field ([template.go]), and the engine is built from
    template lines ([engine.go]). *)

From Stdlib Require Import Ascii.
From S2P Require Import Prelude Strconv Strings.

Notation terr := string (only parsing).

(** ** [template.go] *)

Record Template := mkTemplate {
  separator : string;
  parts : list string;
  defaultTags : gmap string string;
  greedyField : bool;
  greedyMeasurement : bool;
}.

Record templateSpec := mkSpec {
  ts_separator : string;
  ts_filter : string;
  ts_template : string;
  ts_tagstring : string;
}.

Definition DefaultSeparator : string := ".".

(** [NewTemplate]: [inr] is the error of a pattern without measurement. *)
Definition NewTemplate (sep pattern : string) (dtags : gmap string string) : Template + terr :=
  let ps := Split pattern sep in
  if existsb (fun p => HasPrefix p "measurement") ps then
    inl (mkTemplate sep ps dtags
      (existsb (fun p => bool_decide (p = "field*")) ps) (existsb (fun p => bool_decide (p = "measurement*")) ps))
  else inr "no measurement specified for template.".

Definition NewDefaultTemplateWithPattern (pattern : string) : Template + terr :=
  NewTemplate DefaultSeparator pattern ∅.

(** The first loop of [Apply]: the flags are set on the template. *)
Definition set_greedy (t : Template) : Template :=
  mkTemplate (separator t) (parts t) (defaultTags t)
    (greedyField t || existsb (fun p => bool_decide (p = "field*")) (parts t))
    (greedyMeasurement t || existsb (fun p => bool_decide (p = "measurement*")) (parts t)).

(** What the second loop collects. *)
Record collected := mkCollected {
  c_measurement : list string;
  c_tags : gmap string (list string);
  c_field : list string;
}.

(** One part of the template against the fields from its index on. *)
Definition apply_part (tag : string) (rest : list string) (c : collected) : collected :=
  match rest with
  | [] => c
  | f :: _ =>
    if decide (tag = EmptyString) then c
    else if decide (tag = "measurement") then mkCollected (c_measurement c ++ [f]) (c_tags c) (c_field c)
    else if decide (tag = "field") then mkCollected (c_measurement c) (c_tags c) (c_field c ++ [f])
    else if decide (tag = "field*") then mkCollected (c_measurement c) (c_tags c) (c_field c ++ rest)
    else if decide (tag = "measurement*") then mkCollected (c_measurement c ++ rest) (c_tags c) (c_field c)
    else mkCollected (c_measurement c) (<[tag := default [] (c_tags c !! tag) ++ [f]]> (c_tags c)) (c_field c)
  end.

Fixpoint apply_parts (tps fields : list string) (c : collected) : collected :=
  match tps with
  | [] => c
  | tag :: tps' => apply_parts tps' (tail fields) (apply_part tag fields c)
  end.

Definition Template_Apply (t : Template) (line joiner : string) :
    (string * gmap string string * string + terr) * Template :=
  let fields := Split line (separator t) in
  let tags := (fun v => [v]) <$> defaultTags t in
  let t := set_greedy t in
  if greedyField t && greedyMeasurement t then
    (inr "either 'field*' or 'measurement*' can be used in each template (but not both together)", t)
  else
    let c := apply_parts (parts t) fields (mkCollected [] tags []) in
    (inl (Join (c_measurement c) joiner, (fun vs => Join vs joiner) <$> c_tags c, Join (c_field c) joiner), t).

(** ** [node.go] *)

Inductive node := Node (n_separator n_value : string) (n_children : list node) (n_template : option Template).

Definition n_separator (n : node) : string := let '(Node s _ _ _) := n in s.
Definition n_value (n : node) : string := let '(Node _ v _ _) := n in v.
Definition n_children (n : node) : list node := let '(Node _ _ c _) := n in c.
Definition n_template (n : node) : option Template := let '(Node _ _ _ t) := n in t.

(** [nodes.Less]: the wildcard comes last. *)
Definition value_less (a b : string) : bool :=
  if decide (a = "*" /\ b <> "*") then false
  else if decide (a <> "*" /\ b = "*") then true
  else str_ltb a b.
Definition node_Less (a b : node) : bool := value_less (n_value a) (n_value b).

(** The loop over the children: the first one with that value. *)
Fixpoint update_child (v : string) (f : node -> node) (cs : list node) : option (list node) :=
  match cs with
  | [] => None
  | c :: cs' =>
    if decide (n_value c = v) then Some (f c :: cs')
    else cs'' ← update_child v f cs'; Some (c :: cs'')
  end.

Section Engine.
Context `{GoSort}.

(** [recursiveInsert]: a new child is added and sorted in before the rest is inserted
    into it, which does not change its place. *)
Fixpoint recursiveInsert (values : list string) (t : Template) (n : node) : node :=
  let '(Node s v cs tm) := n in
  match values with
  | [] => Node s v cs (Some t)
  | x :: values' =>
    match update_child x (recursiveInsert values' t) cs with
    | Some cs' => Node s v cs' tm
    | None => Node s v (go_sort node_Less (cs ++ [recursiveInsert values' t (Node EmptyString x [] None)])) tm
    end
  end.

Definition insert (filter : string) (t : Template) (n : node) : node :=
  let '(Node _ v cs tm) := n in
  recursiveInsert (Split filter (separator t)) t (Node (separator t) v cs tm).

(** [recursiveSearch]. *)
Fixpoint recursiveSearch (lineParts : list string) (n : node) : option Template :=
  match lineParts with
  | [] => n_template n
  | p :: rest =>
    match last (n_children n) with
    | None => n_template n
    | Some lst =>
      let hasWildcard := bool_decide (n_value lst = "*") in
      let length := if hasWildcard then pred (length (n_children n)) else length (n_children n) in
      let i := search_loop (S length) 0 length
        (fun i => match n_children n !! i with Some c => negb (str_ltb (n_value c) p) | None => false end) in
      let exact :=
        if (i <? length)%nat then
          match n_children n !! i with
          | Some c => if decide (n_value c = p) then recursiveSearch rest c else None
          | None => None
          end
        else None in
      match exact with
      | Some t => Some t
      | None => if hasWildcard then recursiveSearch rest lst else n_template n
      end
    end
  end.

Definition search (line : string) (n : node) : option Template :=
  recursiveSearch (Split line (n_separator n)) n.

(** ** [matcher.go] *)

Record matcher := mkMatcher { root : node; defaultTemplate : option Template }.

Definition newMatcher (d : option Template) : matcher := mkMatcher (Node EmptyString EmptyString [] None) d.

Definition add (filter : string) (t : Template) (m : matcher) : matcher :=
  if decide (filter = EmptyString) then
    let '(Node _ v cs tm) := root m in mkMatcher (Node (separator t) v cs tm) (Some t)
  else mkMatcher (insert filter t (root m)) (defaultTemplate m).

(** The tags of a template line; [None] is an index out of range. *)
Fixpoint spec_tags (kvs : list string) (tags : gmap string string) : option (gmap string string) :=
  match kvs with
  | [] => Some tags
  | kv :: kvs' =>
    match Split kv "=" with
    | k :: v :: _ => spec_tags kvs' (<[k := v]> tags)
    | _ => None
    end
  end.

Definition addSpec (s : templateSpec) (m : matcher) : option (matcher + terr) :=
  tags ← (if decide (ts_tagstring s <> EmptyString) then spec_tags (Split (ts_tagstring s) ",") ∅ else Some ∅);
  match NewTemplate (ts_separator s) (ts_template s) tags with
  | inr e => Some (inr e)
  | inl t => Some (inl (add (ts_filter s) t m))
  end.

Definition tmatch (line : string) (m : matcher) : option Template :=
  match search line (root m) with Some t => Some t | None => defaultTemplate m end.

(** ** [engine.go] *)

Record Engine := mkEngine { joiner : string; e_matcher : matcher }.

(** [Engine.Apply]: [None] is a nil template. *)
Definition Apply (line : string) (e : Engine) : option (string * gmap string string * string + terr) :=
  t ← tmatch line (e_matcher e); Some (Template_Apply t line (joiner e)).1.

(** One template line; [None] when it is ignored. *)
Definition parseTemplateSpec (pattern : string) : option templateSpec :=
  match Fields pattern with
  | [] => None
  | [_] => Some (mkSpec DefaultSeparator EmptyString pattern EmptyString)
  | [a; b; c; d] => Some (mkSpec a b c d)
  | ps =>
    let n := length ps in
    let lst := default EmptyString (ps !! (n - 1)%nat) in
    let prev := default EmptyString (ps !! (n - 2)%nat) in
    let first := default EmptyString (ps !! 0%nat) in
    let second := default EmptyString (ps !! 1%nat) in
    if Contains lst "=" then
      Some (mkSpec DefaultSeparator (if (n =? 3)%nat then first else EmptyString) prev lst)
    else if (n =? 2)%nat then Some (mkSpec DefaultSeparator first lst EmptyString)
    else Some (mkSpec first second lst EmptyString)
  end.

(** [templateSpecs.Less]: lines without a filter first, then by the number of separators. *)
Definition spec_Less (a b : templateSpec) : bool :=
  let ja := String.length (ts_filter a) in
  let jb := String.length (ts_filter b) in
  if (ja =? 0)%nat && negb (jb =? 0)%nat then true
  else if (jb =? 0)%nat && negb (ja =? 0)%nat then false
  else (Count (ts_template a) (ts_separator a) <? Count (ts_template b) (ts_separator b))%nat.

Definition parseTemplateSpecs (templates : list string) : list templateSpec :=
  go_sort spec_Less (omap parseTemplateSpec templates).

Fixpoint add_specs (ss : list templateSpec) (m : matcher) : option (matcher + terr) :=
  match ss with
  | [] => Some (inl m)
  | s :: ss' =>
    r ← addSpec s m;
    match r with
    | inr e => Some (inr e)
    | inl m => add_specs ss' m
    end
  end.

(** [NewEngine]: [None] is a panic. *)
Definition NewEngine (jn : string) (d : option Template) (templates : list string) : option (Engine + terr) :=
  r ← add_specs (parseTemplateSpecs templates) (newMatcher d);
  match r with inr e => Some (inr e) | inl m => Some (inl (mkEngine jn m)) end.
End Engine.

(** ** The order of children *)

Lemma value_less_cases a b :
  value_less a b = if decide (a = "*") then false else if decide (b = "*") then true else str_ltb a b.
Proof.
  unfold value_less. destruct (decide (a = "*")) as [->|Ha], (decide (b = "*")) as [->|Hb].
  - by rewrite !decide_False by tauto.
  - by rewrite decide_True.
  - by rewrite decide_False, decide_True by tauto.
  - by rewrite !decide_False by tauto.
Qed.

Lemma value_less_irrefl a : value_less a a = false.
Proof. rewrite value_less_cases. case_decide; [done|]. apply str_ltb_irrefl. Qed.

Lemma value_less_trans a b c : value_less a b = true -> value_less b c = true -> value_less a c = true.
Proof.
  rewrite !value_less_cases. destruct (decide (a = "*")), (decide (b = "*")), (decide (c = "*")); try done.
  apply str_ltb_trans.
Qed.

Lemma value_less_asym a b : value_less a b = true -> value_less b a = false.
Proof.
  intros H. destruct (value_less b a) eqn:E; [|done]. pose proof (value_less_trans _ _ _ H E) as Ht.
  by rewrite value_less_irrefl in Ht.
Qed.

Lemma value_less_total a b : a <> b -> value_less a b = false -> value_less b a = true.
Proof.
  rewrite !value_less_cases. intros Hne. destruct (decide (a = "*")) as [->|], (decide (b = "*")) as [->|]; try done.
  intros [?|?]%str_ltb_ge; done.
Qed.

Lemma value_less_negtrans a b c : value_less a b = false -> value_less b c = false -> value_less a c = false.
Proof.
  intros H1 H2. destruct (value_less a c) eqn:E; [|done]. exfalso.
  destruct (decide (b = c)) as [->|Hbc]; [congruence|]. apply value_less_total in H2; [|done].
  rewrite (value_less_trans a c b) in H1; done.
Qed.

(** A tree whose children are in strict order everywhere. *)
Definition sorted_children (cs : list node) : Prop :=
  StronglySorted (fun a b => value_less (n_value a) (n_value b) = true) cs.
Inductive ordered : node -> Prop :=
| ordered_node s v cs t : sorted_children cs -> Forall ordered cs -> ordered (Node s v cs t).

Lemma ordered_inv n : ordered n -> sorted_children (n_children n) /\ Forall ordered (n_children n).
Proof. by destruct 1. Qed.

(** The child of a value. *)
Definition child (v : string) (cs : list node) : option node := key_find n_value v cs.

Lemma sorted_children_NoDup cs : sorted_children cs -> NoDup (n_value <$> cs).
Proof.
  induction 1 as [|c cs _ IH Hc]; [constructor|]. cbn. constructor; [|done].
  intros (d & E & Hd)%list_elem_of_fmap. rewrite Forall_forall in Hc. specialize (Hc d Hd). rewrite E in Hc.
  by rewrite value_less_irrefl in Hc.
Qed.

Lemma child_elem v cs c : NoDup (n_value <$> cs) -> (child v cs = Some c <-> c ∈ cs /\ n_value c = v).
Proof.
  intros Hnd. split; [apply key_find_Some|]. intros [Hc <-].
  destruct (child (n_value c) cs) as [d|] eqn:E.
  - apply key_find_Some in E as [Hd Ev]. f_equal.
    apply list_elem_of_lookup_1 in Hc as [i Hi], Hd as [j Hj].
    assert (i = j) as <-; [|congruence]. eapply NoDup_lookup; [exact Hnd|..]; rewrite list_lookup_fmap.
    + by rewrite Hi.
    + rewrite Hj. cbn. by rewrite Ev.
  - apply key_find_None in E. destruct E. by apply (list_elem_of_fmap_2 n_value).
Qed.

Lemma update_child_None v f cs : update_child v f cs = None <-> child v cs = None.
Proof.
  unfold child. induction cs as [|c cs IH]; [done|]. cbn [update_child key_find]. case_decide; [done|].
  destruct (update_child v f cs); binds; rewrite <- IH; done.
Qed.

Lemma update_child_spec v f cs cs' :
  (forall c, n_value (f c) = n_value c) -> update_child v f cs = Some cs' ->
  n_value <$> cs' = n_value <$> cs /\
  (forall x, child x cs' = if decide (x = v) then f <$> child v cs else child x cs) /\
  (forall c, c ∈ cs' -> c ∈ cs \/ exists d, d ∈ cs /\ c = f d).
Proof.
  intros Hf. unfold child. revert cs'. induction cs as [|c cs IH]; intros cs'; [done|]. cbn [update_child key_find].
  destruct (decide (n_value c = v)) as [E|E].
  - intros [= <-]. cbn [fmap list_fmap key_find]. rewrite Hf. split_and!; [done| |].
    + intros x. destruct (decide (n_value c = x)) as [Ex|Ex].
      * rewrite decide_True by congruence. done.
      * rewrite decide_False by congruence. done.
    + intros d [->|Hd]%elem_of_cons; [right; exists c; set_solver|left; set_solver].
  - intros (cs1 & E1 & [= <-])%bind_Some. destruct (IH cs1 E1) as (Hv & Hc & He). cbn [fmap list_fmap key_find].
    split_and!; [by rewrite Hv| |].
    + intros x. destruct (decide (n_value c = x)) as [Ex|Ex].
      * rewrite decide_False by congruence. done.
      * apply Hc.
    + intros d [->|Hd]%elem_of_cons; [left; set_solver|].
      destruct (He d Hd) as [?|(d' & ? & ->)]; [left; set_solver|right; exists d'; set_solver].
Qed.

Lemma sorted_children_values cs cs' : n_value <$> cs' = n_value <$> cs -> sorted_children cs -> sorted_children cs'.
Proof.
  intros E Hs. revert cs' E. induction Hs as [|c cs _ IH Hc]; intros [|c' cs'] E; try done; [constructor|].
  assert (n_value c' = n_value c /\ n_value <$> cs' = n_value <$> cs) as [Ec E'] by (by injection E).
  constructor; [by apply IH|]. rewrite Ec.
  assert (Forall (fun v => value_less (n_value c) v = true) (n_value <$> cs)) as Hf by (by apply Forall_fmap).
  rewrite <- E' in Hf. by apply Forall_fmap in Hf.
Qed.

(** Filters by the paths they are split into, and additions to a matcher, in their order. *)
Notation filters := (list (list string * Template)) (only parsing).
Notation adds := (list (string * Template)) (only parsing).

Section Tree.
Context `{GoSort}.

(** Sorting a new child in keeps the order and adds its entry. *)
Lemma sort_child cs c :
  sorted_children cs -> child (n_value c) cs = None ->
  let cs' := go_sort node_Less (cs ++ [c]) in
  sorted_children cs' /\ (forall x, child x cs' = if decide (x = n_value c) then Some c else child x cs) /\
  (forall d, d ∈ cs' <-> d ∈ cs \/ d = c).
Proof.
  intros Hs Hn cs'. assert (forall d, d ∈ cs' <-> d ∈ cs \/ d = c) as He.
  { intros d. unfold cs'. rewrite go_sort_perm. set_solver. }
  assert (NoDup (n_value <$> (cs ++ [c]))) as Hnd.
  { rewrite fmap_app. apply NoDup_app. split_and!; [by apply sorted_children_NoDup| |apply NoDup_singleton].
    intros v Hv Hv'. apply list_elem_of_singleton in Hv' as ->. by apply key_find_None in Hn. }
  assert (NoDup (n_value <$> cs')) as Hnd' by (unfold cs'; by rewrite go_sort_perm).
  split_and!; [| |done].
  - pose proof (go_sort_sorted node_Less (cs ++ [c])
      (fun x y => value_less_asym _ _) (fun x y z => value_less_negtrans _ _ _)) as Hsort. fold cs' in Hsort.
    clear -Hsort Hnd'. induction Hsort as [|d ds Hds IH Hd]; [constructor|].
    cbn in Hnd'. apply NoDup_cons in Hnd' as [Hnew Hnd]. constructor; [by apply IH|].
    rewrite Forall_forall in *. intros e He. apply value_less_total; [|by apply Hd].
    intros E. apply Hnew. rewrite <- E. by apply (list_elem_of_fmap_2 n_value).
  - intros x. apply option_eq. intros d. rewrite child_elem, He by done. case_decide as E.
    + subst x. split.
      * intros [[Hd|Hd] Ev]; [|congruence]. exfalso. apply key_find_None in Hn. apply Hn. rewrite <- Ev.
        by apply (list_elem_of_fmap_2 n_value).
      * intros [= <-]. split; [by right|done].
    + rewrite child_elem by (by apply sorted_children_NoDup). split; [|naive_solver].
      intros [[Hd|Hd] Ev]; [done|]. congruence.
Qed.

(** The node at the end of a path. *)
Fixpoint get (path : list string) (n : node) : option node :=
  match path with
  | [] => Some n
  | v :: path' => c ← child v (n_children n); get path' c
  end.

Lemma recursiveInsert_value vs t n : n_value (recursiveInsert vs t n) = n_value n.
Proof. destruct vs as [|x vs], n as [sp v cs tm]; cbn [recursiveInsert]; [done|]. by destruct (update_child _ _ cs). Qed.

(** Insertion keeps the order; paths into the tree are the old ones and the prefixes of the
    new one, whose end has the template. *)
Lemma recursiveInsert_spec vs t n :
  ordered n -> ordered (recursiveInsert vs t n) /\
  (forall path, is_Some (get path (recursiveInsert vs t n)) <-> is_Some (get path n) \/ path `prefix_of` vs) /\
  (forall path, get path (recursiveInsert vs t n) ≫= n_template =
     if decide (path = vs) then Some t else get path n ≫= n_template).
Proof.
  revert n. induction vs as [|x vs IH]; intros n Hn; apply ordered_inv in Hn as [Hs Hc];
    destruct n as [s v cs tm]; cbn [n_children] in Hs, Hc.
  { cbn [recursiveInsert]. split_and!; [by constructor| |].
    - intros [|y path]; cbn [get n_children]; [split; intros _; eauto|].
      split; [by left|]. intros [?|Hp]; [done|]. by apply prefix_nil_inv in Hp.
    - intros [|y path]; cbn; [done|]. by rewrite decide_False. }
  cbn [recursiveInsert].
  set (f := recursiveInsert vs t). set (fresh := Node EmptyString x [] None).
  assert (exists cs', match update_child x f cs with
      | Some cs' => Node s v cs' tm
      | None => Node s v (go_sort node_Less (cs ++ [f fresh])) tm end = Node s v cs' tm /\
    sorted_children cs' /\ Forall ordered cs' /\
    (forall y, child y cs' = if decide (y = x) then Some (f (default fresh (child x cs))) else child y cs))
    as (cs' & -> & Hs' & Hc' & Hch).
  { assert (ordered fresh) as Hfresh by (repeat constructor).
    destruct (update_child x f cs) as [cs'|] eqn:E.
    - destruct (update_child_spec x f cs cs') as (Hv & Hch & He); [apply recursiveInsert_value|done|].
      exists cs'. split_and!; [done|by eapply sorted_children_values| |].
      + rewrite Forall_forall in *. intros c Hin. destruct (He c Hin) as [?|(d & ? & ->)]; [by apply Hc|].
        by apply IH, Hc.
      + intros y. rewrite Hch. case_decide; [|done].
        destruct (child x cs) eqn:Ec; [done|]. apply (update_child_None x f) in Ec. congruence.
    - apply update_child_None in E. assert (n_value (f fresh) = x) as Ev by apply recursiveInsert_value.
      destruct (sort_child cs (f fresh)) as (H1 & H2 & H3); [done|by rewrite Ev|].
      eexists. split_and!; [done|done| |].
      + rewrite Forall_forall in *. intros c [?| ->]%H3; [by apply Hc|]. by apply IH.
      + intros y. rewrite H2, Ev, E. done. }
  assert (ordered (default fresh (child x cs))) as Hx.
  { destruct (child x cs) as [c|] eqn:E; [|repeat constructor]. apply key_find_Some in E as [E _].
    rewrite Forall_forall in Hc. by apply Hc. }
  destruct (IH _ Hx) as (_ & Hget & Htm). fold f in Hget, Htm.
  assert (forall path, get path fresh = match path with [] => Some fresh | _ => None end) as Hgf by (by intros [|? ?]).
  split_and!; [by constructor| |].
  - intros [|y path]; cbn [get n_children]; [split; intros _; eauto|]. rewrite Hch. destruct (decide (y = x)) as [->|Hne].
    + binds. rewrite Hget. destruct (child x cs) as [c|]; cbn.
      * split; (intros [?|?]; [by left|right]); [by apply prefix_cons|by eapply prefix_cons_inv_2].
      * rewrite Hgf. split.
        -- intros [Hp|?]; [|right; by apply prefix_cons]. destruct path; [|by destruct Hp].
           right. apply prefix_cons, prefix_nil.
        -- intros [[? ?]|Hp]; [done|]. right. by eapply prefix_cons_inv_2.
    + split; [by left|]. intros [?|Hp]; [done|]. by apply prefix_cons_inv_1 in Hp.
  - intros [|y path]; cbn [get n_children]; [done|]. rewrite Hch. destruct (decide (y = x)) as [->|Hne].
    + binds. rewrite Htm. destruct (decide (path = vs)) as [->|Hp]; [by rewrite decide_True|].
      rewrite decide_False by congruence. destruct (child x cs) as [c|]; cbn; [done|]. rewrite Hgf. by destruct path.
    + rewrite decide_False by congruence. done.
Qed.

(** ** Searching

    In ordered children the wildcard can only be the last one. *)
Lemma wildcard_last cs c : sorted_children cs -> last cs = Some c ->
  child "*" cs = if decide (n_value c = "*") then Some c else None.
Proof.
  intros Hs Hl. pose proof (sorted_children_NoDup cs Hs) as Hnd.
  assert (c ∈ cs) as Hc by (rewrite last_lookup in Hl; by eapply list_elem_of_lookup_2).
  case_decide as E; [by apply child_elem|]. apply key_find_None.
  intros (d & Ed & Hd)%list_elem_of_fmap. apply list_elem_of_lookup_1 in Hd as [i Hi].
  rewrite last_lookup in Hl. pose proof (lookup_lt_Some _ _ _ Hi).
  destruct (decide (i = pred (length cs))) as [->|Hne]; [congruence|].
  pose proof (sorted_lookup _ cs i (pred (length cs)) d c Hs ltac:(lia) Hi Hl) as Hlt. cbn beta in Hlt.
  rewrite value_less_cases, decide_True in Hlt by done. done.
Qed.

(** Bisection among the children before the wildcard finds the child of a value. *)
Lemma search_exact cs c p :
  sorted_children cs -> last cs = Some c -> p <> "*" ->
  let len := if bool_decide (n_value c = "*") then pred (length cs) else length cs in
  let i := search_loop (S len) 0 len
    (fun i => match cs !! i with Some c => negb (str_ltb (n_value c) p) | None => false end) in
  (if (i <? len)%nat then match cs !! i with Some d => if decide (n_value d = p) then Some d else None | None => None end
   else None) = child p cs.
Proof.
  intros Hs Hl Hp len i. pose proof (sorted_children_NoDup cs Hs) as Hnd. rewrite last_lookup in Hl.
  pose proof (lookup_lt_Some _ _ _ Hl) as Hlen.
  assert (len <= length cs)%nat as Hle by (unfold len; case_bool_decide; lia).
  assert (forall j d, (j < len)%nat -> cs !! j = Some d -> n_value d <> "*") as Hns.
  { intros j d Hj Hd E. unfold len in Hj. case_bool_decide as Ew.
    - pose proof (sorted_lookup _ cs j (pred (length cs)) d c Hs ltac:(lia) Hd Hl) as Hlt. cbn beta in Hlt.
      rewrite value_less_cases, decide_True in Hlt by done. done.
    - destruct (decide (j = pred (length cs))) as [->|Hne]; [congruence|].
      pose proof (sorted_lookup _ cs j (pred (length cs)) d c Hs ltac:(lia) Hd Hl) as Hlt. cbn beta in Hlt.
      rewrite value_less_cases, decide_True in Hlt by done. done. }
  set (f := fun i => match cs !! i with Some c => negb (str_ltb (n_value c) p) | None => false end) in i.
  assert (forall a b, (a < b < len)%nat -> exists x y, cs !! a = Some x /\ cs !! b = Some y /\ str_ltb (n_value x) (n_value y) = true) as Hord.
  { intros a b Hab. destruct (lookup_lt_is_Some_2 cs a ltac:(lia)) as [x Hx], (lookup_lt_is_Some_2 cs b ltac:(lia)) as [y Hy].
    exists x, y. split_and!; [done..|]. pose proof (sorted_lookup _ cs a b x y Hs ltac:(lia) Hx Hy) as Hlt. cbn beta in Hlt.
    rewrite value_less_cases, !decide_False in Hlt; [done|by eapply Hns; [|exact Hy]; lia|by eapply Hns; [|exact Hx]; lia]. }
  destruct (search_loop_spec (S len) 0 len f) as [Hbefore Hafter]; [|lia|lia|].
  { intros a b Hab Ha. destruct (decide (a = b)) as [->|Hne]; [done|].
    destruct (Hord a b ltac:(lia)) as (x & y & Hx & Hy & Hxy). unfold f in *. rewrite Hx in Ha. rewrite Hy.
    apply negb_true_iff. apply negb_true_iff in Ha. destruct (str_ltb (n_value y) p) eqn:E; [|done].
    by rewrite (str_ltb_trans _ _ _ Hxy E) in Ha. }
  fold i in Hbefore, Hafter. symmetry. destruct (child p cs) as [d|] eqn:Ed.
  - apply child_elem in Ed as [Hd Ev]; [|done]. apply list_elem_of_lookup_1 in Hd as [j Hj].
    assert (j < len)%nat as Hjl.
    { pose proof (lookup_lt_Some _ _ _ Hj). unfold len. case_bool_decide as Ew; [|done].
      destruct (decide (j = pred (length cs))) as [->|Hne]; [congruence|lia]. }
    assert (i = j) as ->.
    { destruct (decide (i < j)%nat) as [Hij|Hij].
      - destruct (Hord i j ltac:(lia)) as (x & y & Hx & Hy & Hxy). specialize (Hafter i ltac:(lia)). unfold f in Hafter.
        rewrite Hx in Hafter. apply negb_true_iff in Hafter. rewrite Hj in Hy. injection Hy as <-. congruence.
      - destruct (decide (j < i)%nat) as [Hji|Hji]; [|lia]. specialize (Hbefore j ltac:(lia)). unfold f in Hbefore.
        rewrite Hj, Ev, str_ltb_irrefl in Hbefore. done. }
    rewrite (proj2 (Nat.ltb_lt _ _)) by done. rewrite Hj. by rewrite decide_True.
  - apply key_find_None in Ed. destruct (Nat.ltb_spec i len) as [Hi|Hi]; [|done].
    destruct (cs !! i) as [d|] eqn:Hd; [|done]. rewrite decide_False; [done|]. intros E. apply Ed. rewrite <- E.
    apply (list_elem_of_fmap_2 n_value). by eapply list_elem_of_lookup_2.
Qed.

(** ** A search without a tree

    The filters [filters] are in the order they were added, by the paths they are split into. *)

(** The last template added for a path; whether a path begins a filter; whether it
    begins a longer one. *)
Definition template_of (fs : filters) (path : list string) : option Template :=
  snd <$> last (filter (fun f => f.1 = path) fs).
Definition known (fs : filters) (path : list string) : bool :=
  bool_decide (path = []) || existsb (fun f => bool_decide (path `prefix_of` f.1)) fs.
Definition open (fs : filters) (path : list string) : bool :=
  existsb (fun f => bool_decide (path `prefix_of` f.1 /\ path <> f.1)) fs.

(** The parts of a line from a path on: the part itself first, if that finds a template, then
    the wildcard; a path that no filter goes on from ends the search. *)
Fixpoint best (fs : filters) (path parts : list string) : option Template :=
  match parts with
  | [] => template_of fs path
  | p :: rest =>
    if negb (open fs path) then template_of fs path else
    match (if known fs (path ++ [p]) && negb (bool_decide (p = "*")) then best fs (path ++ [p]) rest else None) with
    | Some t => Some t
    | None => if known fs (path ++ ["*"]) then best fs (path ++ ["*"]) rest else template_of fs path
    end
  end.

(** A node that holds the filters that go on from a path. *)
Definition holds (fs : filters) (path : list string) (n : node) : Prop :=
  ordered n /\ (forall q, is_Some (get q n) <-> known fs (path ++ q) = true) /\
  (forall q, get q n ≫= n_template = template_of fs (path ++ q)).

Lemma holds_child fs path n v c :
  holds fs path n -> child v (n_children n) = Some c -> holds fs (path ++ [v]) c.
Proof.
  intros (Ho & Hg & Ht) Hc. split_and!.
  - apply ordered_inv in Ho as [_ Ho]. apply key_find_Some in Hc as [Hc _]. rewrite Forall_forall in Ho. by apply Ho.
  - intros q. rewrite <- app_assoc, <- Hg. cbn. by rewrite Hc.
  - intros q. rewrite <- app_assoc. cbn [app]. rewrite <- Ht. cbn [get]. by rewrite Hc.
Qed.

Lemma holds_known fs path n v : holds fs path n -> known fs (path ++ [v]) = true <-> is_Some (child v (n_children n)).
Proof.
  intros (_ & Hg & _). rewrite <- Hg. cbn [get]. destruct (child v (n_children n)) as [c|]; binds; split; eauto.
Qed.

Lemma known_open fs path v : known fs (path ++ [v]) = true -> open fs path = true.
Proof.
  unfold known, open. rewrite bool_decide_false by (by destruct path). cbn [orb]. rewrite !existsb_exists.
  intros (f & Hf & Hp%bool_decide_eq_true). exists f. split; [done|]. apply bool_decide_eq_true. split.
  - etrans; [|exact Hp]. by apply prefix_app_r.
  - intros ->. apply prefix_length in Hp. rewrite length_app in Hp. simpl in Hp. lia.
Qed.

Lemma open_known fs path : open fs path = true -> exists v, known fs (path ++ [v]) = true.
Proof.
  unfold known, open. rewrite existsb_exists. intros (f & Hf & Hp%bool_decide_eq_true).
  destruct Hp as [[k E] Hne]. destruct k as [|v k]; [by rewrite app_nil_r in E|]. exists v.
  apply orb_true_iff. right. apply existsb_exists. exists f. split; [done|]. apply bool_decide_eq_true.
  exists k. by rewrite <- app_assoc.
Qed.

Lemma recursiveSearch_best fs ps path n : holds fs path n -> recursiveSearch ps n = best fs path ps.
Proof.
  revert path n. induction ps as [|p ps IH]; intros path n Hn; pose proof Hn as (Ho & Hg & Ht).
  { cbn [recursiveSearch best]. specialize (Ht []). by rewrite app_nil_r in Ht. }
  assert (n_template n = template_of fs path) as Etm by (specialize (Ht []); by rewrite app_nil_r in Ht).
  apply ordered_inv in Ho as [Hs _]. cbn [recursiveSearch best].
  destruct (last (n_children n)) as [c|] eqn:El.
  2:{ destruct (open fs path) eqn:Eo; [|done]. exfalso. apply open_known in Eo as [v Hv].
      apply (holds_known _ _ _ _ Hn) in Hv as [d Hd]. apply key_find_Some in Hd as [Hd _].
      apply last_None in El. rewrite El in Hd. set_solver. }
  assert (open fs path = true) as ->.
  { apply known_open with (n_value c). apply (holds_known _ _ _ _ Hn). exists c. apply child_elem; [by apply sorted_children_NoDup|].
    split; [|done]. rewrite last_lookup in El. by eapply list_elem_of_lookup_2. }
  cbn [negb]. set (len := if bool_decide (n_value c = "*") then _ else _). set (i := search_loop _ _ _ _).
  assert ((if (i <? len)%nat then match n_children n !! i with
      | Some d => if decide (n_value d = p) then recursiveSearch ps d else None | None => None end else None) =
    (if known fs (path ++ [p]) && negb (bool_decide (p = "*")) then best fs (path ++ [p]) ps else None)) as ->.
  { destruct (decide (p = "*")) as [->|Hp].
    - rewrite (bool_decide_true ("*" = "*")), andb_false_r by done. destruct (Nat.ltb_spec i len) as [Hi|Hi]; [|done].
      destruct (n_children n !! i) as [d|] eqn:Ed; [|done]. rewrite decide_False; [done|]. intros E.
      pose proof (wildcard_last _ _ Hs El) as Hw. rewrite last_lookup in El.
      assert (child "*" (n_children n) = Some d) as Hd.
      { apply child_elem; [by apply sorted_children_NoDup|]. split; [by eapply list_elem_of_lookup_2|done]. }
      rewrite Hd in Hw. case_decide as Ec; [|done]. injection Hw as ->. unfold len in Hi.
      rewrite bool_decide_true in Hi by done. pose proof (lookup_lt_Some _ _ _ Ed).
      pose proof (NoDup_lookup (n_value <$> n_children n) i (pred (length (n_children n))) "*" (sorted_children_NoDup _ Hs)) as Hnd.
      rewrite !list_lookup_fmap, Ed, El in Hnd. cbn [fmap option_fmap option_map] in Hnd. rewrite Ec in Hnd. specialize (Hnd eq_refl eq_refl). lia.
    - rewrite (bool_decide_false (p = "*")), andb_true_r by done.
      pose proof (search_exact (n_children n) c p Hs El Hp) as Hx. cbn zeta in Hx. fold len in Hx. fold i in Hx.
      destruct (known fs (path ++ [p])) eqn:Ek.
      + apply (holds_known _ _ _ _ Hn) in Ek as [d Hd]. rewrite Hd in Hx.
        destruct (i <? len)%nat; [|done]. destruct (n_children n !! i) as [e|]; [|done]. case_decide; [|done].
        injection Hx as ->. apply IH. by eapply holds_child.
      + assert (child p (n_children n) = None) as E.
        { destruct (child p (n_children n)) eqn:E; [|done]. assert (known fs (path ++ [p]) = true); [|congruence].
          apply (holds_known _ _ _ _ Hn). by rewrite E. }
        rewrite E in Hx. destruct (i <? len)%nat; [|done]. destruct (n_children n !! i) as [e|]; [|done]. by case_decide. }
  match goal with |- match ?x with _ => _ end = _ => destruct x; [done|] end.
  pose proof (wildcard_last _ _ Hs El) as Hw. case_bool_decide as Ec.
  - rewrite decide_True in Hw by done. rewrite (proj2 (holds_known _ _ _ "*" Hn)) by (by eexists).
    apply IH. by eapply holds_child.
  - rewrite decide_False in Hw by done. destruct (known fs (path ++ ["*"])) eqn:Ek; [|done].
    apply (holds_known _ _ _ _ Hn) in Ek as [d Hd]. congruence.
Qed.
End Tree.

Section Matcher.
Context `{GoSort}.

Lemma template_of_snoc fs vs t path :
  template_of (fs ++ [(vs, t)]) path = if decide (path = vs) then Some t else template_of fs path.
Proof.
  unfold template_of. rewrite filter_app, filter_cons. cbn [fst]. destruct (decide (path = vs)) as [->|Hne].
  - rewrite decide_True by done. cbn. by rewrite last_snoc.
  - rewrite decide_False by done. cbn. by rewrite app_nil_r.
Qed.

Lemma known_snoc fs vs t path : known (fs ++ [(vs, t)]) path = known fs path || bool_decide (path `prefix_of` vs).
Proof. unfold known. rewrite existsb_app. cbn. by rewrite orb_false_r, orb_assoc. Qed.

Lemma holds_insert fs vs t n : holds fs [] n -> holds (fs ++ [(vs, t)]) [] (recursiveInsert vs t n).
Proof.
  intros (Ho & Hg & Ht). destruct (recursiveInsert_spec vs t n Ho) as (Ho' & Hg' & Ht').
  split_and!; [done| |]; intros q; cbn [app].
  - rewrite Hg', Hg, known_snoc, orb_true_iff, bool_decide_eq_true. done.
  - rewrite Ht', Ht, template_of_snoc. done.
Qed.

(** The separator of a node plays no part in it. *)
Lemma holds_separator fs path s s' v cs t : holds fs path (Node s v cs t) -> holds fs path (Node s' v cs t).
Proof.
  intros (Ho & Hg & Ht). split_and!.
  - inversion Ho. by constructor.
  - intros [|x q]; [|apply (Hg (x :: q))]. rewrite <- (Hg []). cbn. split; eauto.
  - intros [|x q]; [apply (Ht [])|apply (Ht (x :: q))].
Qed.

Definition add_all (a : adds) (m : matcher) : matcher := foldl (fun m ft => add ft.1 ft.2 m) m a.

(** The filters of a sequence of additions, the separator and the default template left by it. *)
Definition filters_of (a : adds) : filters :=
  (fun ft => (Split ft.1 (separator ft.2), ft.2)) <$> filter (fun ft => ft.1 <> EmptyString) a.
Definition separator_of (a : adds) : string := default EmptyString ((fun ft => separator ft.2) <$> last a).
Definition default_of (a : adds) (d : option Template) : option Template :=
  match last (filter (fun ft => ft.1 = EmptyString) a) with Some ft => Some ft.2 | None => d end.

Lemma add_all_holds a d :
  let m := add_all a (newMatcher d) in
  holds (filters_of a) [] (root m) /\ n_separator (root m) = separator_of a /\ defaultTemplate m = default_of a d.
Proof.
  induction a as [|[f t] a IH] using rev_ind.
  { cbn. split_and!; [|done|done]. split_and!; [repeat constructor| |].
    - intros [|x q]; cbn; (split; [|done || eauto]); [done|by intros [? ?]].
    - intros [|x q]; done. }
  cbn zeta in *. unfold add_all in *. rewrite foldl_app. cbn [foldl fst snd]. set (m := foldl _ _ a) in *.
  destruct IH as (Hh & Hs & Hd). unfold add, filters_of, separator_of, default_of.
  rewrite last_snoc, !filter_app, !filter_cons. cbn [fst].
  destruct (root m) as [s v cs tm] eqn:Er. destruct (decide (f = EmptyString)) as [->|Hf].
  - rewrite (decide_False (P := EmptyString <> EmptyString)) by (by intros ?). cbn. rewrite app_nil_r, last_snoc.
    split_and!; [|done|done]. by eapply holds_separator.
  - rewrite decide_True by done. cbn. rewrite app_nil_r, fmap_app.
    split_and!; [|by destruct (Split f (separator t)); cbn; [|destruct (update_child _ _ _)]|exact Hd].
    apply holds_insert. by eapply holds_separator.
Qed.

(** The additions an engine is built by. *)
Definition adds_spec (s : templateSpec) (ft : string * Template) : Prop :=
  ft.1 = ts_filter s /\ exists tags, NewTemplate (ts_separator s) (ts_template s) tags = inl ft.2.

Lemma add_specs_adds ss m m' :
  add_specs ss m = Some (inl m') -> exists a, m' = add_all a m /\ Forall2 adds_spec ss a.
Proof.
  revert m. induction ss as [|s ss IH]; intros m; cbn [add_specs].
  { intros [= <-]. exists []. split; [done|constructor]. }
  intros ([m1|e] & E & Hr)%bind_Some; [|done]. unfold addSpec in E. apply bind_Some in E as (tags & _ & E).
  destruct (NewTemplate _ _ tags) as [t|e] eqn:En; [|done]. injection E as <-.
  destruct (IH _ Hr) as (a & -> & Ha). exists ((ts_filter s, t) :: a). split; [done|]. constructor; [|done].
  split; [done|]. by exists tags.
Qed.
End Matcher.

(** C29: the filter tree is equivalent to a search without one. For every engine that is
    built from template lines, whatever the order of lines that tie in the sort, the
    template found for a line by bisection in the tree of filter parts is the one found
    directly in the list of filters: at each part the filters that go on with
    it come first, then those with a wildcard, later additions replacing earlier ones
    of the same path; without one, the last template without a filter or the initial
    default. Filters are split by the separators of their own templates, the line by the one of the last. *)
Theorem Engine_matches `{GoSort} (jn : string) (d : option Template) (templates : list string) (e : Engine)
    (He : NewEngine jn d templates = Some (inl e)) :
  exists a, Forall2 adds_spec (parseTemplateSpecs templates) a /\
    forall line, tmatch line (e_matcher e) =
      match best (filters_of a) [] (Split line (separator_of a)) with
      | Some t => Some t
      | None => default_of a d
      end.
Proof.
  unfold NewEngine in He. apply bind_Some in He as ([m|er] & Em & [= <-]).
  destruct (add_specs_adds _ _ _ Em) as (a & -> & Ha). exists a. split; [done|]. intros line. cbn [e_matcher].
  destruct (add_all_holds a d) as (Hh & Hs & Hd). unfold tmatch, search. rewrite Hs, Hd.
  by rewrite (recursiveSearch_best _ _ _ _ Hh).
Qed.

#[local] Existing Instance insertion_go_sort.

Definition ex_templates : list string :=
  ["servers.* host.measurement"; "*.cpu.* .host.measurement.field region=eu"; "measurement*"].

Lemma Engine_matches_witness :
  exists e a, NewEngine "." None ex_templates = Some (inl e) /\
    tmatch "servers.cpu.idle" (e_matcher e) =
      match best (filters_of a) [] (Split "servers.cpu.idle" (separator_of a)) with
      | Some t => Some t | None => default_of a None end /\
    parts <$> tmatch "servers.cpu.idle" (e_matcher e) = Some ["host"; "measurement"].
Proof.
  destruct (NewEngine "." None ex_templates) as [[e|er]|] eqn:E; [|by vm_compute in E..].
  destruct (Engine_matches "." None ex_templates e E) as (a & _ & Hm). exists e, a.
  split; [done|]. split; [apply Hm|]. vm_compute in E. injection E as <-. vm_compute. reflexivity.
Defined.

(** ** Taking a name apart *)

(** A part of a template that stands for one part of a name. *)
Definition plain_part (k : string) : Prop := k <> EmptyString /\ k <> "measurement*" /\ k <> "field*".

Lemma existsb_parts k (l : list string) : k ∉ l -> existsb (fun p => bool_decide (p = k)) l = false.
Proof.
  intros Hk. induction l as [|x l IH]; [done|]. cbn. rewrite bool_decide_false by set_solver. apply IH. set_solver.
Qed.

(** The entries of a name that are tags. *)
Definition tag_entries (kvs : list (string * string)) : gmap string string :=
  delete "measurement" (delete "field" (list_to_map kvs)).

Lemma apply_parts_entries kvs c :
  NoDup kvs.*1 -> Forall plain_part kvs.*1 -> (forall k, k ∈ kvs.*1 -> c_tags c !! k = None) ->
  let m := list_to_map kvs : gmap string string in
  apply_parts kvs.*1 kvs.*2 c = mkCollected
    (c_measurement c ++ option_list (m !! "measurement"))
    (((fun v => [v]) <$> tag_entries kvs) ∪ c_tags c)
    (c_field c ++ option_list (m !! "field")).
Proof.
  cbn zeta. revert c. induction kvs as [|[k v] kvs IH]; intros c Hnd Hp Hc.
  { unfold tag_entries. cbn. rewrite !lookup_empty, !delete_empty, fmap_empty, map_empty_union, !app_nil_r. by destruct c. }
  cbn in Hnd, Hp. apply NoDup_cons in Hnd as [Hk Hnd]. apply Forall_cons in Hp as [(P1 & P2 & P3) Hp].
  cbn [fmap list_fmap fst snd apply_parts apply_part tail list_to_map foldr].
  assert ((list_to_map kvs : gmap string string) !! k = None) as Hn by (by apply not_elem_of_list_to_map_1).
  rewrite (decide_False (P := k = EmptyString)) by done.
  rewrite (decide_False (P := k = "field*")), (decide_False (P := k = "measurement*")) by done.
  unfold tag_entries in *. cbn [list_to_map foldr]. change (foldr _ _ kvs) with (list_to_map kvs : gmap string string) in *.
  destruct (decide (k = "measurement")) as [->|Hm]; [|destruct (decide (k = "field")) as [->|Hf]].
  - rewrite IH by (done || set_solver). cbn [c_measurement c_tags c_field]. rewrite Hn.
    rewrite lookup_insert_eq, lookup_insert_ne by done. f_equal.
    + cbn. by rewrite app_nil_r.
    + f_equal. f_equal. rewrite delete_insert_ne by done. by rewrite delete_insert_eq.
  - rewrite IH by (done || set_solver). cbn [c_measurement c_tags c_field]. rewrite Hn.
    rewrite lookup_insert_eq, lookup_insert_ne by done. f_equal.
    + f_equal. f_equal. by rewrite delete_insert_eq.
    + cbn. by rewrite app_nil_r.
  - rewrite IH; [|done|done|].
    + cbn [c_measurement c_tags c_field]. rewrite !lookup_insert_ne by done. f_equal.
      rewrite (Hc k) by set_solver. cbn [default app].
      rewrite (delete_insert_ne (list_to_map kvs) "field" k), (delete_insert_ne _ "measurement" k), fmap_insert by done.
      apply map_eq. intros x. destruct (decide (x = k)) as [->|Hx].
      * rewrite lookup_union_r, lookup_insert_eq.
        -- by rewrite lookup_union_l', lookup_insert_eq by (by rewrite lookup_insert_eq).
        -- by rewrite lookup_fmap, !lookup_delete_ne, Hn.
      * rewrite !lookup_union, !lookup_insert_ne by done. done.
    + intros x Hx. cbn [c_tags]. rewrite lookup_insert_ne by set_solver. apply Hc. set_solver.
Qed.

(** A name joined from values, one per part of a template, gives the values back. *)
Lemma Template_Apply_entries t (c : ascii) kvs jn :
  separator t = String c EmptyString -> parts t = kvs.*1 -> greedyField t = false -> greedyMeasurement t = false ->
  kvs <> [] -> NoDup kvs.*1 -> Forall plain_part kvs.*1 -> Forall (fun v => free_of c v = true) kvs.*2 ->
  (forall k, k ∈ kvs.*1 -> defaultTags t !! k = None) ->
  let m := list_to_map kvs : gmap string string in
  (Template_Apply t (Join kvs.*2 (String c EmptyString)) jn).1 =
    inl (default EmptyString (m !! "measurement"), tag_entries kvs ∪ defaultTags t, default EmptyString (m !! "field")).
Proof.
  intros Es Ep Ef Em Hne Hnd Hp Hv Hd. cbn zeta. unfold Template_Apply. rewrite Es.
  rewrite Split_Join by (try done; by destruct kvs).
  assert (forall k, k = "field*" \/ k = "measurement*" -> existsb (fun p => bool_decide (p = k)) kvs.*1 = false) as Hg.
  { intros k Hk. apply existsb_parts. intros Hin. rewrite Forall_forall in Hp. destruct (Hp k Hin) as (_ & ? & ?). naive_solver. }
  cbn [set_greedy greedyField greedyMeasurement parts]. rewrite Ef, Em, Ep, !Hg by tauto. cbn [orb andb fst].
  rewrite apply_parts_entries; [|done|done|].
  2:{ intros k Hk. cbn [c_tags]. by rewrite lookup_fmap, Hd. }
  cbn [c_measurement c_tags c_field app]. f_equal. f_equal; [f_equal|].
  - by destruct (_ !! "measurement").
  - rewrite <- map_fmap_union, <- map_fmap_compose. rewrite <- (map_fmap_id (tag_entries kvs ∪ defaultTags t)) at 2.
    by apply map_fmap_ext.
  - by destruct (_ !! "field").
Qed.
