(* ===== verification/Graphite.v ===== *)
(** * The graphite parser

    [plugins/parsers/graphite]: the checks of a configuration ([config.go]) and the parser of
    lines "name value time" ([parser.go]), whose names go through the template
    engine of [Templating]. *)

From Stdlib Require Import Ascii SpecFloat.
From S2P Require Import Prelude Float64 Strconv Parse Metric Strings Templating.

(** ** [config.go] *)

Record Config := mkConfig { cf_Separator : string; cf_Templates : list string }.

Inductive ConfigErr :=
| MissingTemplate (i : nat)
| InvalidTemplate
| NoMeasurement
| DuplicateFilter (i : nat)
| BlankFilterSection
| InvalidWildcard
| InvalidTags.

Definition validateTemplate (template : string) : option ConfigErr :=
  if existsb (fun p => bool_decide (p = "measurement") || bool_decide (p = "measurement*")) (Split template ".")
  then None else Some NoMeasurement.

Fixpoint validate_sections (ps : list string) : option ConfigErr :=
  match ps with
  | [] => None
  | p :: ps' =>
    if decide (p = EmptyString) then Some BlankFilterSection
    else if Contains p "*" && negb (bool_decide (p = "*")) then Some InvalidWildcard
    else validate_sections ps'
  end.
Definition validateFilter (filter : string) : option ConfigErr := validate_sections (Split filter ".").

Definition validateTag (keyValue : string) : option ConfigErr :=
  match Split keyValue "=" with
  | [k; v] => if decide (k = EmptyString \/ v = EmptyString) then Some InvalidTags else None
  | _ => Some InvalidTags
  end.
Fixpoint validate_tags (ts : list string) : option ConfigErr :=
  match ts with
  | [] => None
  | t :: ts' => match validateTag t with Some e => Some e | None => validate_tags ts' end
  end.

(** The loop over the templates, from position [i], with the filters seen. *)
Fixpoint validate_loop (i : nat) (ts : list string) (seen : gset string) : option ConfigErr :=
  match ts with
  | [] => None
  | t :: ts' =>
    let parts := Fields t in
    let n := length parts in
    if (n =? 0)%nat then Some (MissingTemplate i)
    else if (3 <? n)%nat then Some InvalidTemplate
    else
      let p0 := default EmptyString (parts !! 0%nat) in
      let p1 := default EmptyString (parts !! 1%nat) in
      let '(template, filter, tags) :=
        if (2 <=? n)%nat then
          if Contains p1 "=" then (p0, EmptyString, p1) else (p1, p0, EmptyString)
        else (t, EmptyString, EmptyString) in
      let tags := if (n =? 3)%nat then default EmptyString (parts !! 2%nat) else tags in
      match validateTemplate template with
      | Some e => Some e
      | None =>
        if decide (filter ∈ seen) then Some (DuplicateFilter i)
        else match (if decide (filter <> EmptyString) then validateFilter filter else None) with
        | Some e => Some e
        | None =>
          match (if decide (tags <> EmptyString) then validate_tags (Split tags ",") else None) with
          | Some e => Some e
          | None => validate_loop (S i) ts' ({[filter]} ∪ seen)
          end
        end
      end
  end.
Definition validateTemplates (c : Config) : option ConfigErr := validate_loop 0 (cf_Templates c) ∅.
Definition Validate (c : Config) : option ConfigErr := validateTemplates c.

(** ** [parser.go] *)

(** [time.Date(1901, 12, 13)] and [time.Date(2038, 1, 19)] in nanoseconds. *)
Definition MinDate : Z := -2147558400 * 1000000000.
Definition MaxDate : Z := 2147472000 * 1000000000.

Record GraphiteParser := mkParser {
  gp_Separator : string;
  gp_Templates : list string;
  DefaultTags : gmap string string;
  templateEngine : Engine;
}.

Definition SetDefaultTags (ts : gmap string string) (p : GraphiteParser) : GraphiteParser :=
  mkParser (gp_Separator p) (gp_Templates p) ts (templateEngine p).

(** [math.Floor], and the conversion of a float to an int64, which truncates in range
    and is left open by the language out of range. *)
Definition f_floor (x : float64) : float64 :=
  match x with
  | S754_finite s m e =>
    if 0 <=? e then x else f_of_Z ((if s then Zneg m else Zpos m) / 2 ^ (- e))
  | _ => x
  end.
Definition f_trunc (x : float64) : option Z :=
  match x with
  | S754_zero _ => Some 0
  | S754_finite s m e =>
    let z := if 0 <=? e then Zpos m * 2 ^ e else Zpos m / 2 ^ (- e) in Some (if s then - z else z)
  | _ => None
  end.
Class FloatConv := {
  to_int64 : float64 -> Z;
  to_int64_law : forall x z, f_trunc x = Some z -> MinInt64 <= z <= MaxInt64 -> to_int64 x = z;
}.

Inductive LineErr :=
| MissingFields
| TemplateError (e : terr)
| BadValue
| BadTime
| TimeOutOfRange.

Section Parser.
Context `{GoSort} `{MapRange} `{FloatConv}.

(** [NewGraphiteParser]: [None] is a panic. *)
Definition NewGraphiteParser (separator : string) (templates : list string) (dtags : gmap string string) :
    option (GraphiteParser + terr) :=
  let separator := if decide (separator = EmptyString) then "." else separator in
  let d := match NewDefaultTemplateWithPattern "measurement*" with inl t => Some t | inr _ => None end in
  r ← NewEngine separator d templates;
  match r with
  | inr e => Some (inr e)
  | inl e => Some (inl (mkParser separator templates dtags e))
  end.

(** [time.Unix(int64(u), int64((u - math.Floor(u)) * 1e9))]. *)
Definition unix_float (u : float64) : Z :=
  to_int64 u * 1000000000 + to_int64 (f_mul (f_sub u (f_floor u)) (f_of_Z 1000000000)).

(** The time of a line. *)
Definition line_time (field : option string) (now : Z) : Z + LineErr :=
  match field with
  | None => inl now
  | Some s =>
    match ParseFloat s with
    | None => inr BadTime
    | Some u =>
      if negb (f_eqb u (f_of_Z (-1))) then
        let t := unix_float u in
        if (t <? MinDate) || (MaxDate <? t) then inr TimeOutOfRange else inl t
      else inl now
    end
  end.

(** [ParseLine]: [None] is a panic. *)
Definition ParseLine (p : GraphiteParser) (line : string) (now : Z) : option (metric + LineErr) :=
  match Fields line with
  | nm :: value :: rest =>
    if (1 <? length rest)%nat then Some (inr MissingFields) else
    r ← Templating.Apply nm (templateEngine p);
    match r with
    | inr e => Some (inr (TemplateError e))
    | inl (measurement, tags, field) =>
      let measurement := if decide (measurement = EmptyString) then nm else measurement in
      match ParseFloat value with
      | None => Some (inr BadValue)
      | Some v =>
        let fieldValues : gmap string GoVal :=
          {[(if decide (field <> EmptyString) then field else "value") := GoScalar (SFloat64 v)]} in
        match line_time (head rest) now with
        | inr e => Some (inr e)
        | inl t => Some (inl (Metric.New measurement (tags ∪ DefaultTags p) fieldValues t []))
        end
      end
    end
  | _ => Some (inr MissingFields)
  end.

(** The lines of a buffer: metrics and errors, in order. *)
Fixpoint parse_lines (p : GraphiteParser) (ls : list string) (now : Z) : option (list metric * list LineErr) :=
  match ls with
  | [] => Some ([], [])
  | l :: ls' =>
    let line := TrimSpace l in
    if decide (line = EmptyString) then parse_lines p ls' now else
    r ← ParseLine p line now;
    '(ms, es) ← parse_lines p ls' now;
    Some (match r with inl m => (m :: ms, es) | inr e => (ms, e :: es) end)
  end.
Definition Parse (p : GraphiteParser) (buf : string) (now : Z) : option (list metric * list LineErr) :=
  let nl := String (ascii_of_N 10) EmptyString in
  let buf := default buf (strip_prefix nl buf) in
  parse_lines p (Split buf nl) now.

(** [ApplyTemplate]: on an error the map of tags is nil, and assigning a default tag to it panics. *)
Definition ApplyTemplate (p : GraphiteParser) (line : string) :
    option (string * gmap string string * string * option terr) :=
  match Fields line with
  | [] => Some (EmptyString, ∅, EmptyString, None)
  | nm :: _ =>
    r ← Templating.Apply nm (templateEngine p);
    match r with
    | inl (measurement, tags, field) => Some (measurement, tags ∪ DefaultTags p, field, None)
    | inr e => if (size (DefaultTags p) =? 0)%nat then Some (EmptyString, ∅, EmptyString, Some e) else None
    end
  end.
End Parser.

(** ** Valid configurations *)

Lemma validateTemplate_measurement template :
  validateTemplate template = None -> existsb (fun p => HasPrefix p "measurement") (Split template ".") = true.
Proof.
  unfold validateTemplate. destruct (existsb _ _) eqn:E; [|done]. intros _.
  apply existsb_exists in E as (p & Hp & Hm). apply existsb_exists. exists p. split; [done|].
  apply orb_true_iff in Hm as [->%bool_decide_eq_true| ->%bool_decide_eq_true]; reflexivity.
Qed.

Lemma spec_tags_valid ts tags : validate_tags ts = None -> is_Some (spec_tags ts tags).
Proof.
  revert tags. induction ts as [|kv ts IH]; intros tags; [by eexists|]. cbn [validate_tags spec_tags].
  unfold validateTag. destruct (Split kv "=") as [|k [|v [|? ?]]]; try done.
  case_decide; [done|]. apply IH.
Qed.

(** What the check of a configuration has established for one of its lines. *)
Definition line_ok (t : string) : Prop :=
  match Fields t with
  | [_] => validateTemplate t = None
  | [a; b] =>
    if Contains b "=" then validateTemplate a = None /\ (b <> EmptyString -> validate_tags (Split b ",") = None)
    else validateTemplate b = None
  | [a; b; c] =>
    (if Contains b "=" then validateTemplate a = None else validateTemplate b = None) /\
    (c <> EmptyString -> validate_tags (Split c ",") = None)
  | _ => False
  end.

(** A line whose parts the engine reads as the check does. *)
Definition regular (t : string) : Prop :=
  match Fields t with [_; b; c] => Contains b "=" = false /\ Contains c "=" = true | _ => True end.

Lemma validate_loop_lines i ts seen : validate_loop i ts seen = None -> Forall line_ok ts.
Proof.
  revert i seen. induction ts as [|t ts IH]; intros i seen; [constructor|]. cbn [validate_loop]. intros E.
  assert (forall template filter tags, match validateTemplate template with
      | Some e => Some e
      | None => if decide (filter ∈ seen) then Some (DuplicateFilter i)
        else match (if decide (filter <> EmptyString) then validateFilter filter else None) with
        | Some e => Some e
        | None => match (if decide (tags <> EmptyString) then validate_tags (Split tags ",") else None) with
          | Some e => Some e
          | None => validate_loop (S i) ts ({[filter]} ∪ seen) end end end = None ->
    validateTemplate template = None /\ (tags <> EmptyString -> validate_tags (Split tags ",") = None) /\ Forall line_ok ts) as Hrest.
  { intros template filter tags. destruct (validateTemplate template); [done|]. case_decide; [done|].
    destruct (if decide (filter <> EmptyString) then _ else _); [done|].
    destruct (decide (tags <> EmptyString)) as [Ht|Ht]; [|intros Hl; split_and!; [done|done|by eapply IH]].
    destruct (validate_tags _); [done|]. intros Hl. split_and!; [done|done|by eapply IH]. }
  unfold line_ok at 1. destruct (Fields t) as [|a [|b [|c [|d l]]]] eqn:Ef; cbn in E; try done.
  - apply Hrest in E as (? & _ & ?). constructor; [|done]. by rewrite Ef.
  - destruct (Contains b "=") eqn:Eb; apply Hrest in E as (? & ? & ?); (constructor; [|done]); rewrite Ef, Eb; done.
  - destruct (Contains b "=") eqn:Eb; apply Hrest in E as (? & ? & ?); (constructor; [|done]); rewrite Ef, Eb; done.
Qed.

(** A template line that the engine takes without a panic, and takes. *)
Definition spec_safe (s : templateSpec) : Prop :=
  ts_tagstring s = EmptyString \/ validate_tags (Split (ts_tagstring s) ",") = None.
Definition spec_good (s : templateSpec) : Prop :=
  ts_separator s = "." /\ existsb (fun p => HasPrefix p "measurement") (Split (ts_template s) ".") = true.

Lemma line_ok_spec t : line_ok t -> exists s, parseTemplateSpec t = Some s /\ spec_safe s /\ (regular t -> spec_good s).
Proof.
  unfold line_ok, parseTemplateSpec, regular, spec_safe, spec_good, DefaultSeparator.
  destruct (Fields t) as [|a [|b [|c [|d l]]]]; try done.
  - intros Hv. eexists. split; [done|]. cbn. split; [by left|]. intros _. split; [done|]. by apply validateTemplate_measurement.
  - cbn. destruct (Contains b "=") eqn:Eb.
    + intros [Hv Ht]. eexists. split; [done|]. cbn. split.
      * destruct (decide (b = EmptyString)); [by left|right; by apply Ht].
      * intros _. split; [done|]. by apply validateTemplate_measurement.
    + intros Hv. eexists. split; [done|]. cbn. split; [by left|]. intros _. split; [done|]. by apply validateTemplate_measurement.
  - cbn. intros [Hv Ht]. destruct (Contains c "=") eqn:Ec; (eexists; split; [done|]; cbn; split).
    + destruct (decide (c = EmptyString)); [by left|right; by apply Ht].
    + intros [Eb _]. rewrite Eb in Hv. split; [done|]. by apply validateTemplate_measurement.
    + by left.
    + by intros [_ ?].
Qed.

Section Valid.
Context `{GoSort}.

Lemma add_specs_safe ss m :
  Forall spec_safe ss -> exists r, add_specs ss m = Some r /\ (Forall spec_good ss -> exists m', r = inl m').
Proof.
  intros Hs. revert m. induction Hs as [|s ss Hs _ IH]; intros m; [exists (inl m); eauto|]. cbn [add_specs]. unfold addSpec.
  assert (exists tags, (if decide (ts_tagstring s <> EmptyString) then spec_tags (Split (ts_tagstring s) ",") ∅ else Some ∅) = Some tags)
    as [tags ->].
  { case_decide as E; [|by eexists]. destruct Hs as [Hs|Hs]; [done|]. by apply spec_tags_valid. }
  binds. destruct (NewTemplate (ts_separator s) (ts_template s) tags) as [t|e] eqn:En; binds.
  - destruct (IH (add (ts_filter s) t m)) as (r & -> & Hr). exists r. split; [done|].
    intros Hg. apply Forall_cons in Hg as [_ Hg]. by apply Hr.
  - eexists. split; [done|]. intros Hg. apply Forall_cons in Hg as [[E1 E2] _]. exfalso.
    unfold NewTemplate in En. by rewrite E1, E2 in En.
Qed.
End Valid.

(** A configuration that passes the check builds an engine without a panic, and
    without an error if in its lines of three parts the third, and not the second, holds
    the tags. *)
Theorem Graphite_valid_config `{GoSort} (c : Config) (jn : string) (d : option Template) (Hv : Validate c = None) :
  exists r, NewEngine jn d (cf_Templates c) = Some r /\
    (Forall regular (cf_Templates c) -> exists e, r = inl e).
Proof.
  unfold Validate, validateTemplates in Hv. apply validate_loop_lines in Hv. unfold NewEngine, parseTemplateSpecs.
  set (specs := omap parseTemplateSpec (cf_Templates c)).
  assert (Forall spec_safe specs /\ (Forall regular (cf_Templates c) -> Forall spec_good specs)) as [Hs Hg].
  { unfold specs. clear specs. induction Hv as [|t ts Ht _ [IH1 IH2]]; [by split; constructor|].
    destruct (line_ok_spec t Ht) as (s & Es & Hs & Hg). cbn [omap list_omap]. rewrite Es. split; [by constructor|].
    intros Hr. apply Forall_cons in Hr as [? ?]. constructor; auto. }
  destruct (add_specs_safe (go_sort spec_Less specs) (newMatcher d)) as (r & -> & Hr).
  { by rewrite go_sort_perm. }
  binds. destruct r as [m|e]; (eexists; split; [done|]); [eauto|].
  intros Hreg. destruct Hr as [m' ?]; [|done]. rewrite go_sort_perm. by apply Hg.
Qed.

(** ** Reading back what a template describes *)

Section RoundTrip.
Context `{GoSort}.

Definition dot : ascii := "."%char.

(** A template of plain parts, one of them the measurement. *)
Definition describes (kvs : list (string * string)) (nm : string) : Prop :=
  NoDup kvs.*1 /\ Forall (fun k => plain_part k /\ printable k = true /\ free_of dot k = true) kvs.*1 /\
  Forall (fun v => printable v = true /\ free_of dot v = true) kvs.*2 /\
  (list_to_map kvs : gmap string string) !! "measurement" = Some nm /\ nm <> EmptyString.

Lemma describes_nonempty kvs nm : describes kvs nm -> kvs <> [].
Proof. intros (_ & _ & _ & Hm & _) ->. cbn in Hm. by rewrite lookup_empty in Hm. Qed.

Lemma describes_measurement kvs nm : describes kvs nm -> "measurement" ∈ kvs.*1.
Proof.
  intros (Hnd & _ & _ & Hm & _). apply elem_of_list_to_map_2 in Hm. apply list_elem_of_fmap. by exists ("measurement", nm).
Qed.

Lemma Split_parts kvs nm : describes kvs nm -> Split (Join kvs.*1 ".") "." = kvs.*1.
Proof.
  intros Hd. apply Split_Join; [by destruct kvs; [by apply describes_nonempty in Hd|]|].
  destruct Hd as (_ & Hk & _). eapply Forall_impl; [exact Hk|]. by intros k (_ & _ & ?).
Qed.

Lemma NewTemplate_parts kvs nm :
  describes kvs nm -> NewTemplate "." (Join kvs.*1 ".") ∅ = inl (mkTemplate "." kvs.*1 ∅ false false).
Proof.
  intros Hd. unfold NewTemplate. rewrite (Split_parts kvs nm Hd).
  assert (existsb (fun p => HasPrefix p "measurement") kvs.*1 = true) as ->.
  { apply existsb_exists. exists "measurement". split; [|reflexivity].
    apply list_elem_of_In. by eapply describes_measurement. }
  destruct Hd as (_ & Hk & _). rewrite Forall_forall in Hk.
  rewrite !existsb_parts; [done|..]; intros Hin; destruct (Hk _ Hin) as [(_ & ? & ?) _]; done.
Qed.

Lemma Join_nonempty kvs nm sep : describes kvs nm -> Join kvs.*2 sep <> EmptyString.
Proof.
  intros (_ & _ & _ & Hm & Hne). apply elem_of_list_to_map_2 in Hm.
  assert (nm ∈ kvs.*2) as Hin by (apply list_elem_of_fmap; by exists ("measurement", nm)). clear Hm.
  induction kvs.*2 as [|v vs IH]; [set_solver|]. destruct vs as [|v' vs].
  - apply list_elem_of_singleton in Hin as <-. done.
  - rewrite Join_cons by done. apply elem_of_cons in Hin as [<-|Hin]; [by apply str_app_nonempty|].
    intros E. apply (f_equal String.length) in E. rewrite !str_length_app in E.
    apply (IH Hin). destruct (Join (v' :: vs) sep) as [|c s]; [done|]. cbn [String.length] in E. lia.
Qed.

(** The engine of a single template without a filter uses it for every name. *)
Lemma engine_of_one kvs nm jn d :
  describes kvs nm -> exists e, NewEngine jn d [Join kvs.*1 "."] = Some (inl e) /\ joiner e = jn /\
    forall line, tmatch line (e_matcher e) = Some (mkTemplate "." kvs.*1 ∅ false false).
Proof.
  intros Hd. unfold NewEngine, parseTemplateSpecs.
  assert (parseTemplateSpec (Join kvs.*1 ".") = Some (mkSpec "." EmptyString (Join kvs.*1 ".") EmptyString)) as Ep.
  { unfold parseTemplateSpec. pose proof Hd as (_ & Hk & _).
    change (Fields (Join kvs.*1 ".")) with (Fields (Join [Join kvs.*1 "."] " ")).
    rewrite (Fields_Join [Join kvs.*1 "."]); [done|]. constructor; [|done]. split.
    - apply printable_Join; [done|]. eapply Forall_impl; [exact Hk|]. by intros k (_ & ? & _).
    - apply describes_nonempty in Hd. destruct kvs as [|[k v] kvs]; [done|].
      apply Forall_cons in Hk as [[[? _] _] _]. by apply Join_head_nonempty. }
  cbn [omap list_omap]. rewrite Ep.
  assert (go_sort spec_Less [mkSpec "." EmptyString (Join kvs.*1 ".") EmptyString] =
    [mkSpec "." EmptyString (Join kvs.*1 ".") EmptyString]) as -> by (apply Permutation_singleton_r, go_sort_perm).
  cbn [add_specs]. unfold addSpec. cbn [ts_tagstring ts_separator ts_template ts_filter].
  rewrite decide_False by (by intros ?). binds. rewrite (NewTemplate_parts kvs nm Hd). binds.
  eexists. split; [reflexivity|]. split; [done|]. intros line. cbn [e_matcher].
  unfold tmatch, search, add. rewrite decide_True by done. cbn [root newMatcher n_separator separator].
  destruct (Split line ".") as [|p ps]; done.
Qed.
End RoundTrip.

(** C30: a line reads back as what its template describes. For a parser with one template of
    distinct plain parts, the measurement among them, and a line whose name joins one value per
    part and whose value is a number: parsing succeeds, and the metric has the
    measurement's value as its name, the other values as tags under their parts'
    names, the parser's default tags where they are free, the number as its one field,
    named by the field's part if there is one with a value, and the line's time. *)
Theorem Graphite_line_roundtrip `{GoSort} `{MapRange} `{FloatConv} (kvs : list (string * string))
    (sep nm value : string) (dtags : gmap string string) (x : float64) (ts : option string) (t now : Z)
    (Hd : describes kvs nm) (Hp : Forall (fun w => printable w = true /\ w <> EmptyString) (value :: option_list ts))
    (Hx : ParseFloat value = Some x) (Ht : line_time ts now = inl t) :
  let fld := default EmptyString ((list_to_map kvs : gmap string string) !! "field") in
  exists p m, NewGraphiteParser sep [Join kvs.*1 "."] dtags = Some (inl p) /\
    ParseLine p (Join (Join kvs.*2 "." :: value :: option_list ts) " ") now = Some (inl m) /\ wf m /\
    abs m = mkAbs nm (tag_entries kvs ∪ dtags)
      {[(if decide (fld <> EmptyString) then fld else "value") := VFloat x]} t Untyped false.
Proof.
  intros fld. unfold NewGraphiteParser.
  set (jn := if decide (sep = EmptyString) then "." else sep).
  set (dt := match NewDefaultTemplateWithPattern _ with inl t => Some t | inr _ => None end).
  destruct (engine_of_one kvs nm jn dt Hd) as (e & -> & Ej & Hm). binds.
  eexists _, _. split; [done|]. unfold ParseLine. cbn [templateEngine DefaultTags].
  pose proof Hd as (Hnd & Hk & Hv & Hmeas & Hne).
  rewrite Fields_Join.
  2:{ constructor; [|done]. split.
      - apply printable_Join; [done|]. eapply Forall_impl; [exact Hv|]. by intros v [? _].
      - by apply (Join_nonempty kvs nm). }
  assert ((1 <? length (option_list ts))%nat = false) as -> by (by destruct ts).
  unfold Templating.Apply. rewrite Hm. binds.
  rewrite (Template_Apply_entries (mkTemplate "." kvs.*1 ∅ false false) dot kvs (joiner e)); try done.
  2:{ by apply describes_nonempty in Hd. }
  2:{ eapply Forall_impl; [exact Hk|]. by intros k [? _]. }
  2:{ eapply Forall_impl; [exact Hv|]. by intros v [_ ?]. }
  rewrite Hmeas. cbn [default defaultTags]. rewrite decide_False by done. rewrite Hx.
  replace (head (option_list ts)) with ts by (by destruct ts). rewrite Ht. split; [done|]. split; [apply New_wf|].
  rewrite New_abs. f_equal.
  - by rewrite map_union_empty.
  - fold fld. by rewrite omap_singleton.
Qed.

#[local] Existing Instance map_range_default.
#[local] Existing Instance insertion_go_sort.

(** A conversion that truncates, with the least value out of range. *)
#[local, refine] Instance ex_conv : FloatConv := {|
  to_int64 := fun x => match f_trunc x with
    | Some z => if (MinInt64 <=? z) && (z <=? MaxInt64) then z else MinInt64
    | None => MinInt64 end |}.
Proof.
  intros x z -> Hz. rewrite (proj2 (Z.leb_le _ _)), (proj2 (Z.leb_le _ _)) by lia. done.
Defined.

Lemma Graphite_line_roundtrip_witness :
  exists p m, NewGraphiteParser EmptyString ["host.measurement.field"] {["dc" := "eu"]} = Some (inl p) /\
    ParseLine p "web1.cpu.idle 12.5 1600000000" 7 = Some (inl m) /\ wf m /\
    Tags m = {["host" := "web1"; "dc" := "eu"]} /\ tm m = 1600000000000000000.
Proof.
  destruct (Graphite_line_roundtrip [("host", "web1"); ("measurement", "cpu"); ("field", "idle")]
    EmptyString "cpu" "12.5" {["dc" := "eu"]} (default f_zero (ParseFloat "12.5")) (Some "1600000000")
    1600000000000000000 7) as (p & m & Hn & Hl & Hw & Ha).
  - split_and!; [apply (bool_decide_unpack _); vm_compute; exact I|..]; repeat constructor; vm_compute; done.
  - repeat constructor; vm_compute; done.
  - vm_compute. reflexivity.
  - vm_compute. reflexivity.
  - exists p, m. split; [exact Hn|]. split; [exact Hl|]. split; [exact Hw|].
    injection Ha as _ -> _ -> _ _. split; [vm_compute; reflexivity|done].
Defined.

Lemma Graphite_valid_config_witness :
  exists r, NewEngine "." None ["servers.* .host.measurement region=eu"; "measurement*"] = Some r.
Proof.
  destruct (Graphite_valid_config (mkConfig "." ["servers.* .host.measurement region=eu"; "measurement*"]) "." None)
    as (r & E & _); [vm_compute; reflexivity|]. exists r. exact E.
Defined.

(** A configuration that passes the check and that the engine refuses. *)
Lemma valid_config_refused :
  Validate (mkConfig "." ["measurement a=b c=d"]) = None /\
  match NewEngine "." None ["measurement a=b c=d"] with Some (inr _) => True | _ => False end.
Proof. split; vm_compute; [reflexivity|exact I]. Qed.
