(* ===== verification/TopK.v ===== *)
(** * The topk processor

    [plugins/processors/topk/topk.go]: metrics are grouped by name and selected tags; once
    per period the groups with the greatest (or least) aggregated values of the
    configured fields are passed on, each group at most once, as untracked copies. The metrics of a
    group are shared between the cache and the result, so annotations made for one field show
    on metrics selected for another. *)

From Stdlib Require Import SpecFloat.
From S2P Require Import Prelude Float64 Metric Tracking Interfaces Filter Processors.

(** [sort.SliceStable]: a permutation in the order of any total preorder that the comparison
    decides, strictly or not; equal elements may come in any order. *)
Class StableSort := {
  stable_sort : forall {A : Type}, (A -> A -> bool) -> list A -> list A;
  stable_sort_perm : forall {A} (less : A -> A -> bool) l, stable_sort less l ≡ₚ l;
  stable_sort_sorted : forall {A} (less : A -> A -> bool) (R : A -> A -> Prop) l,
    (forall x y z, x ∈ l -> y ∈ l -> z ∈ l -> R x y -> R y z -> R x z) ->
    (forall x y, x ∈ l -> y ∈ l -> if less x y then R x y else R y x) ->
    StronglySorted R (stable_sort less l);
}.

Record TopK `{Glob} := mkTopK {
  Period : Z;
  K : Z;
  GroupBy : list string;
  TFields : list string;
  Aggregation : string;
  Bottomk : bool;
  AddGroupByTag : string;
  AddRankFields : list string;
  AddAggregateFields : list string;
  cache : gmap string (list metric);
  tagsGlobs : option Matcher;
  rankFieldSet : option (gset string);
  aggFieldSet : option (gset string);
  lastAggregation : Z;
}.

Record MetricAggregation := mkAggregation { groupbykey : string; values : gmap string float64 }.

Definition MaxFloat64 : float64 := S754_finite false (2 ^ 53 - 1) 971.

Definition convert (v : Val) : option float64 :=
  match v with
  | VFloat x => Some x
  | VInt z => Some (f_of_Z z)
  | VUint z => Some (f_of_Z z)
  | _ => None
  end.

(** The inner aggregation over all metrics and fields. *)
Definition agg_field (f : gmap string float64 -> float64 -> string -> gmap string float64) (m : metric)
    (agg : gmap string float64) (field : string) : gmap string float64 :=
  match Fields m !! field with
  | None => agg
  | Some v => match convert v with None => agg | Some x => f agg x field end
  end.
Definition aggregator (ms : list metric) (fields : list string)
    (f : gmap string float64 -> float64 -> string -> gmap string float64) : gmap string float64 :=
  foldl (fun agg m => foldl (agg_field f m) agg fields) ∅ ms.

Definition agg_sum (agg : gmap string float64) (x : float64) (field : string) : gmap string float64 :=
  <[field := f_add (default f_zero (agg !! field)) x]> agg.
Definition agg_min (agg : gmap string float64) (x : float64) (field : string) : gmap string float64 :=
  let cur := default MaxFloat64 (agg !! field) in
  <[field := if f_gtb cur x then x else cur]> agg.
Definition agg_max (agg : gmap string float64) (x : float64) (field : string) : gmap string float64 :=
  let cur := default (SFopp MaxFloat64) (agg !! field) in
  <[field := if f_ltb cur x then x else cur]> agg.
Definition agg_count (agg : gmap string float64) (x : float64) (field : string) : gmap string float64 :=
  <[field := f_add (default f_zero (agg !! field)) f_one]> agg.

(** The mean: the sums divided by the counters. *)
Definition agg_mean (ms : list metric) (fields : list string) : gmap string float64 :=
  let sums := aggregator ms fields agg_sum in
  let counters := aggregator ms fields agg_count in
  map_imap (fun k s =>
    let n := default f_zero (counters !! k) in
    Some (if f_eqb n f_zero then f_zero else f_div s n)) sums.

(** [getAggregationFunction]; [None] is the error. *)
Definition getAggregationFunction (aggOperation : string) :
    option (list metric -> list string -> gmap string float64) :=
  if decide (aggOperation = "sum") then Some (fun ms fs => aggregator ms fs agg_sum)
  else if decide (aggOperation = "min") then Some (fun ms fs => aggregator ms fs agg_min)
  else if decide (aggOperation = "max") then Some (fun ms fs => aggregator ms fs agg_max)
  else if decide (aggOperation = "mean") then Some agg_mean
  else None.

Definition value_of (field : string) (a : MetricAggregation) : float64 := default f_zero (values a !! field).

Section Ops.
Context `{Glob} `{MapRange} `{StableSort} {W : Type} `{MetricEnv tmetric W} `{ClockEnv W}.
Implicit Types (t : TopK) (w : W).

Definition sortMetrics (field : string) (reverse : bool) (l : list MetricAggregation) : list MetricAggregation :=
  let less a b := f_ltb (value_of field a) (value_of field b) in
  if reverse then stable_sort less l else stable_sort (fun a b => negb (less a b)) l.

Definition set_cache (c : gmap string (list metric)) t : TopK :=
  mkTopK _ (Period t) (K t) (GroupBy t) (TFields t) (Aggregation t) (Bottomk t) (AddGroupByTag t) (AddRankFields t)
    (AddAggregateFields t) c (tagsGlobs t) (rankFieldSet t) (aggFieldSet t) (lastAggregation t).
Definition set_globs (g : option Matcher) t : TopK :=
  mkTopK _ (Period t) (K t) (GroupBy t) (TFields t) (Aggregation t) (Bottomk t) (AddGroupByTag t) (AddRankFields t)
    (AddAggregateFields t) (cache t) g (rankFieldSet t) (aggFieldSet t) (lastAggregation t).
Definition set_sets (r a : option (gset string)) t : TopK :=
  mkTopK _ (Period t) (K t) (GroupBy t) (TFields t) (Aggregation t) (Bottomk t) (AddGroupByTag t) (AddRankFields t)
    (AddAggregateFields t) (cache t) (tagsGlobs t) r a (lastAggregation t).
Definition set_last (z : Z) t : TopK :=
  mkTopK _ (Period t) (K t) (GroupBy t) (TFields t) (Aggregation t) (Bottomk t) (AddGroupByTag t) (AddRankFields t)
    (AddAggregateFields t) (cache t) (tagsGlobs t) (rankFieldSet t) (aggFieldSet t) z.

Definition Reset t w : TopK * W :=
  let '(now, w) := read_clock w in (set_last now (set_cache ∅ t), w).

Definition New w : TopK * W :=
  Reset (mkTopK _ (10 * 1000000000) 10 ["*"] ["value"] "mean" false EmptyString [] [] ∅ None None None 0) w.

(** [generateGroupByKey]: [None] is a call on a nil filter, [inr] the error of a pattern. *)
Definition group_key (t : TopK) (m : metric) (g : Matcher) : string :=
  foldl (fun k s => k +:+ s) (name m +:+ "&")
    (sort_by id ((fun kv => kv.1 +:+ "=" +:+ kv.2 +:+ "&") <$> filter (fun kv => Match g kv.1 = true) (range_map (Tags m)))).
Definition generateGroupByKey (m : metric) t : option ((string + err) * TopK) :=
  match tagsGlobs t, GroupBy t with
  | None, _ :: _ =>
    match Compile (GroupBy t) with
    | inr e => Some (inr e, set_globs None t)
    | inl g => g' ← g; Some (inl (group_key t m g'), set_globs g t)
    end
  | _, [] => Some (inl (name m +:+ "&"), t)
  | Some g, _ => Some (inl (group_key t m g), t)
  end.

(** [groupBy]: the metric is put into the cache and then tagged there. *)
Definition groupBy (m : metric) t : option TopK :=
  '(r, t) ← generateGroupByKey m t;
  match r with
  | inr _ => Some t
  | inl key =>
    let m := if decide (AddGroupByTag t <> EmptyString) then AddTag (AddGroupByTag t) key m else m in
    Some (set_cache (<[key := default [] (cache t !! key) ++ [m]]> (cache t)) t)
  end.

Fixpoint add_metrics (ins : list tmetric) t w : option (TopK * W) :=
  match ins with
  | [] => Some (t, w)
  | m :: ins' =>
    w ← m_Drop m w;
    t ← (if existsb (fun f => HasField f (base m)) (TFields t) then groupBy (base m) t else Some t);
    add_metrics ins' t w
  end.

(** The annotations of a selected group. *)
Definition annotate t (field : string) (i : nat) (a : MetricAggregation) (m : metric) : metric :=
  let m := if decide (field ∈ default ∅ (aggFieldSet t)) then
      if HasField field m then AddField (field +:+ "_topk_aggregate") (GoScalar (SFloat64 (value_of field a))) m else m
    else m in
  if decide (field ∈ default ∅ (rankFieldSet t)) then
    if HasField field m then AddField (field +:+ "_topk_rank") (GoScalar (SInt (Z.of_nat i + 1))) m else m
  else m.

(** The state of the loops of [push]: cache and keys of the groups selected so far, in order. *)
Definition select_one t (field : string) (i : nat) (a : MetricAggregation)
    (st : gmap string (list metric) * list string) : gmap string (list metric) * list string :=
  let '(c, added) := st in
  let c := if negb (size (default ∅ (aggFieldSet t)) =? 0)%nat || negb (size (default ∅ (rankFieldSet t)) =? 0)%nat ||
      negb (bool_decide (AddGroupByTag t = EmptyString))
    then alter (fmap (annotate t field i a)) (groupbykey a) c else c in
  (c, if decide (groupbykey a ∈ added) then added else added ++ [groupbykey a]).
Fixpoint select_loop t (field : string) (i : nat) (l : list MetricAggregation)
    (st : gmap string (list metric) * list string) : gmap string (list metric) * list string :=
  match l with
  | [] => st
  | a :: l' => select_loop t field (S i) l' (select_one t field i a st)
  end.

(** The loop over the fields; [None] is a slice with a negative bound. *)
Fixpoint fields_loop t (fields : list string) (aggs : list MetricAggregation)
    (st : gmap string (list metric) * list string) : option (gmap string (list metric) * list string) :=
  match fields with
  | [] => Some st
  | field :: fields' =>
    let aggs := sortMetrics field (Bottomk t) aggs in
    let k := Z.min (K t) (Z.of_nat (length aggs)) in
    if k <? 0 then None else
    fields_loop t fields' aggs (select_loop t field 0 (take (Z.to_nat k) aggs) st)
  end.

(** [push]: an unknown aggregation returns without a reset. *)
Definition push t w : option (list tmetric * TopK * W) :=
  match getAggregationFunction (Aggregation t) with
  | None => Some ([], t, w)
  | Some agg =>
    let aggregations := (fun kv => mkAggregation kv.1 (agg kv.2 (TFields t))) <$> range_map (cache t) in
    '(c, added) ← fields_loop t (TFields t) aggregations (cache t, []);
    let ret := concat ((fun k => default [] (c !! k)) <$> added) in
    let '(t, w) := Reset (set_cache c t) w in
    Some ((fun m => mkTM (Metric.New (name m) (Tags m) (go_of_val <$> Fields m) (tm m) [tp m]) None) <$> ret, t, w)
  end.

Definition Apply (ins : list tmetric) t w : option (list tmetric * TopK * W) :=
  let r := match rankFieldSet t with Some s => s | None => list_to_set (AddRankFields t) end in
  let a := match aggFieldSet t with
    | Some s => s
    | None => list_to_set (filter (fun f => f <> EmptyString) (AddAggregateFields t)) end in
  let t := set_sets (Some r) (Some a) t in
  '(t, w) ← add_metrics ins t w;
  let '(now, w) := read_clock w in
  if Period t <=? time_Sub now (lastAggregation t) then push t w else Some ([], t, w).
End Ops.

(** ** Which groups are selected *)

(** An annotation's name, for one of the given fields. *)
Definition annotation (fields : list string) (k : string) : Prop :=
  exists f, f ∈ fields /\ (k = f +:+ "_topk_aggregate" \/ k = f +:+ "_topk_rank").

(** Two metrics of one point: everything but annotations agrees. *)
Definition point_like (fields : list string) (m m' : metric) : Prop :=
  name m' = name m /\ Tags m' = Tags m /\ tm m' = tm m /\ tp m' = tp m /\ wf m' /\
  forall k, ~ annotation fields k -> Fields m' !! k = Fields m !! k.

Lemma point_like_trans fields m1 m2 m3 : point_like fields m1 m2 -> point_like fields m2 m3 -> point_like fields m1 m3.
Proof.
  intros (A1 & A2 & A3 & A4 & _ & A5) (B1 & B2 & B3 & B4 & B6 & B5).
  split_and!; try congruence. intros k Hk. by rewrite B5, A5.
Qed.

Lemma AddField_point fields f v m k :
  wf m -> f ∈ fields -> k = f +:+ "_topk_aggregate" \/ k = f +:+ "_topk_rank" -> point_like fields m (AddField k v m).
Proof.
  intros Hw Hf Hk. split_and!; try done; [by apply AddField_wf|].
  intros k' Hk'. rewrite Fields_AddField by apply Hw. apply lookup_insert_ne. intros ->. apply Hk'. by exists f.
Qed.

Section Proofs.
Context `{Glob} `{MapRange} `{StableSort} {W : Type} `{MetricEnv tmetric W} `{ClockEnv W}.
Implicit Types (t : TopK) (w : W).

Lemma annotate_point t fields f i a m : wf m -> f ∈ fields -> point_like fields m (annotate t f i a m).
Proof.
  intros Hw Hf. unfold annotate.
  set (m1 := if decide (f ∈ default ∅ (aggFieldSet t)) then _ else _).
  assert (point_like fields m m1) as Hp1.
  { unfold m1. case_decide; [|by split_and!]. destruct (HasField f m); [|by split_and!].
    eapply AddField_point; [done|done|by left]. }
  case_decide; [|done]. destruct (HasField f m1); [|done].
  eapply point_like_trans; [exact Hp1|]. eapply AddField_point; [apply Hp1|done|by right].
Qed.

(** The cache during the loops: the same groups of the same points. *)
Definition same_groups (fields : list string) (c c' : gmap string (list metric)) : Prop :=
  forall k, option_Forall2 (Forall2 (point_like fields)) (c !! k) (c' !! k).

Definition all_wf (c : gmap string (list metric)) : Prop := map_Forall (fun _ ms => Forall wf ms) c.

Lemma same_groups_refl fields c : all_wf c -> same_groups fields c c.
Proof.
  intros Hc k. destruct (c !! k) as [ms|] eqn:E; constructor. specialize (Hc k ms E).
  apply Forall_Forall2_diag. eapply Forall_impl; [exact Hc|]. intros m Hm. by split_and!.
Qed.

Lemma same_groups_trans fields c1 c2 c3 : same_groups fields c1 c2 -> same_groups fields c2 c3 -> same_groups fields c1 c3.
Proof.
  intros A B k. specialize (A k). specialize (B k).
  destruct A as [l1 l2 A|]; [|inversion B; subst; constructor].
  remember (Some l2) as o eqn:E. destruct B as [l2' l3 B|]; [|done]. injection E as ->. constructor.
  revert l3 B. induction A as [|m1 m2 l1 l2 A _ IH]; intros l3 B; inversion B as [|? m3 ? l3' Hm Hl]; subst; constructor; [|by apply IH].
  by eapply point_like_trans.
Qed.

Lemma same_groups_wf fields c c' : same_groups fields c c' -> all_wf c'.
Proof.
  intros A k ms Hk. specialize (A k). rewrite Hk in A. inversion A as [l1 l2 B|]; subst.
  clear -B. induction B as [|m1 m2 ? ? (_ & _ & _ & _ & Hm & _) _ IH]; [constructor|]. constructor; done.
Qed.

Lemma select_one_groups t fields f i a c added :
  all_wf c -> f ∈ fields ->
  exists c', select_one t f i a (c, added) = (c', if decide (groupbykey a ∈ added) then added else added ++ [groupbykey a]) /\
    same_groups fields c c'.
Proof.
  intros Hc Hf. unfold select_one. eexists. split; [done|]. destruct (_ || _); [|by apply same_groups_refl].
  intros k. destruct (decide (k = groupbykey a)) as [->|Hk].
  - rewrite lookup_alter_eq. destruct (c !! groupbykey a) as [ms|] eqn:E; constructor.
    apply Forall2_fmap_r. apply Forall_Forall2_diag. specialize (Hc _ _ E). eapply Forall_impl; [exact Hc|].
    intros m Hm. by apply annotate_point.
  - rewrite lookup_alter_ne by done. by apply same_groups_refl.
Qed.

Lemma select_loop_groups t fields f i l c added :
  all_wf c -> f ∈ fields -> NoDup added ->
  exists c' added', select_loop t f i l (c, added) = (c', added') /\ same_groups fields c c' /\ NoDup added' /\
    forall k, k ∈ added' <-> k ∈ added \/ k ∈ groupbykey <$> l.
Proof.
  intros Hc Hf. revert i c added Hc. induction l as [|a l IH]; intros i c added Hc Hnd; cbn [select_loop].
  { exists c, added. split_and!; [done|by apply same_groups_refl|done|]. intros k. set_solver. }
  destruct (select_one_groups t fields f i a c added Hc Hf) as (c1 & -> & Hs1).
  destruct (IH (S i) c1 (if decide (groupbykey a ∈ added) then added else added ++ [groupbykey a])) as (c2 & added2 & -> & Hs2 & Hn2 & He2).
  - by eapply same_groups_wf.
  - case_decide; [done|]. apply NoDup_app. split_and!; [done|set_solver|apply NoDup_singleton].
  - exists c2, added2. split_and!; [done|by eapply same_groups_trans|done|].
    intros k. rewrite He2. cbn [fmap list_fmap]. case_decide; set_solver.
Qed.

(** The groups that are the best ones of a field: as many as asked for or as there are, and none left
    out is better. *)
Definition better t (a b : float64) : Prop := if Bottomk t then f_leb a b = true else f_leb b a = true.
Definition is_top t (val : string -> float64) (keys : gset string) (top : list string) : Prop :=
  NoDup top /\ Z.of_nat (length top) = Z.min (K t) (Z.of_nat (size keys)) /\
  (forall k, k ∈ top -> k ∈ keys) /\ (forall k k', k ∈ top -> k' ∈ keys -> k' ∉ top -> better t (val k) (val k')).

Section Push.
Context (t : TopK) (vals : string -> gmap string float64) (keys : gset string).
Hypothesis (HK : 0 <= K t).
Hypothesis (Hnan : forall k f, k ∈ keys -> f ∈ TFields t -> f_is_nan (default f_zero (vals k !! f)) = false).

(** The aggregations of the groups, in any order. *)
Definition aggs_of (l : list MetricAggregation) : Prop :=
  NoDup (groupbykey <$> l) /\ (forall k, k ∈ groupbykey <$> l <-> k ∈ keys) /\
  (forall a, a ∈ l -> values a = vals (groupbykey a)).

Lemma aggs_of_perm l l' : l ≡ₚ l' -> aggs_of l -> aggs_of l'.
Proof.
  intros Hp (Hn & Hk & Hv). split_and!.
  - by rewrite <- Hp.
  - intros k. rewrite <- Hk. by rewrite Hp.
  - intros a Ha. apply Hv. by rewrite Hp.
Qed.

Lemma aggs_of_size l : aggs_of l -> length l = size keys.
Proof.
  intros (Hn & Hk & _). rewrite <- (length_fmap groupbykey l), <- (size_list_to_set (groupbykey <$> l) (C := gset string)) by done.
  f_equal. apply set_eq. intros k. by rewrite elem_of_list_to_set, Hk.
Qed.

Lemma sort_top f l :
  f ∈ TFields t -> aggs_of l ->
  let l' := sortMetrics f (Bottomk t) l in
  aggs_of l' /\ is_top t (fun k => default f_zero (vals k !! f)) keys
    (groupbykey <$> take (Z.to_nat (Z.min (K t) (Z.of_nat (length l')))) l').
Proof.
  intros Hf Hl l'.
  assert (l' ≡ₚ l) as Hp by (unfold l', sortMetrics; destruct (Bottomk t); apply stable_sort_perm).
  assert (aggs_of l') as Hl' by (by eapply aggs_of_perm; [symmetry|]).
  assert (forall a, a ∈ l -> f_is_nan (value_of f a) = false) as Hna.
  { intros a Ha. destruct Hl as (_ & Hk & Hv). unfold value_of. rewrite Hv by done. apply Hnan; [|done].
    apply Hk. by apply (list_elem_of_fmap_2 groupbykey). }
  assert (StronglySorted (fun a b => better t (value_of f a) (value_of f b)) l') as Hs.
  { unfold l', sortMetrics, better. destruct (Bottomk t); apply stable_sort_sorted.
    - intros x y z _ _ _. apply f_leb_trans.
    - intros x y Hx Hy. destruct (f_ltb _ _) eqn:E; [by apply f_ltb_leb|]. apply f_ltb_false_leb; auto.
    - intros x y z _ _ _ Hxy Hyz. by eapply f_leb_trans.
    - intros x y Hx Hy. destruct (f_ltb _ _) eqn:E; cbn [negb]; [by apply f_ltb_leb|]. apply f_ltb_false_leb; auto. }
  split; [done|]. set (n := Z.to_nat _). pose proof Hl' as (Hnd & Hk & Hv).
  assert (forall a, a ∈ l' -> value_of f a = default f_zero (vals (groupbykey a) !! f)) as Hval
    by (intros a Ha; unfold value_of; by rewrite Hv).
  rewrite <- (take_drop n l') in Hnd, Hs. rewrite fmap_app in Hnd. split_and!.
  - by apply NoDup_app in Hnd as [? _].
  - rewrite length_fmap, length_take. pose proof (aggs_of_size l' Hl'). unfold n. lia.
  - intros k Hin. apply Hk. apply list_elem_of_fmap in Hin as (a & -> & Ha). apply (list_elem_of_fmap_2 groupbykey).
    rewrite <- (take_drop n l'). set_solver.
  - intros k k' Hin Hin' Hout. apply list_elem_of_fmap in Hin as (a & -> & Ha).
    apply Hk, list_elem_of_fmap in Hin' as (b & -> & Hb). rewrite <- (take_drop n l') in Hb.
    apply elem_of_app in Hb as [Hb|Hb]; [destruct Hout; by apply (list_elem_of_fmap_2 groupbykey)|].
    rewrite <- !Hval by (rewrite <- (take_drop n l'); set_solver).
    by apply (StronglySorted_app_1_elem_of _ _ _ a b Hs).
Qed.

Lemma fields_loop_tops fs l c added :
  (forall f, f ∈ fs -> f ∈ TFields t) -> aggs_of l -> all_wf c -> NoDup added ->
  exists c' added' tops, fields_loop t fs l (c, added) = Some (c', added') /\ same_groups (TFields t) c c' /\ NoDup added' /\
    Forall2 (fun f top => is_top t (fun k => default f_zero (vals k !! f)) keys top) fs tops /\
    forall k, k ∈ added' <-> k ∈ added \/ k ∈ concat tops.
Proof.
  revert l c added. induction fs as [|f fs IH]; intros l c added Hfs Hl Hc Hnd; cbn [fields_loop].
  { exists c, added, []. split_and!; [done|by apply same_groups_refl|done|constructor|]. intros k. cbn. set_solver. }
  destruct (sort_top f l) as [Hl' Htop]; [apply Hfs; left|done|]. set (l' := sortMetrics f (Bottomk t) l) in *.
  rewrite (proj2 (Z.ltb_ge _ _)) by lia.
  destruct (select_loop_groups t (TFields t) f 0 (take (Z.to_nat (Z.min (K t) (Z.of_nat (length l')))) l') c added)
    as (c1 & added1 & -> & Hs1 & Hn1 & He1); [done|apply Hfs; left|done|].
  destruct (IH l' c1 added1) as (c2 & added2 & tops & -> & Hs2 & Hn2 & Ht2 & He2);
    [intros g Hg; apply Hfs; by right|done|by eapply same_groups_wf|done|].
  eexists c2, added2, (_ :: tops). split_and!; [done|by eapply same_groups_trans|done|by constructor|].
  intros k. rewrite He2, He1. cbn [concat]. rewrite elem_of_app. tauto.
Qed.
End Push.

(** The result for a metric: an untracked copy of the point with annotations; fields of no
    supported type are lost in [metric.New]. *)
Definition untracked_copy (fields : list string) (m : metric) (o : tmetric) : Prop :=
  td o = None /\ wf (base o) /\ name (base o) = name m /\ Tags (base o) = Tags m /\ tm (base o) = tm m /\ tp (base o) = tp m /\
  forall k, ~ annotation fields k -> Metric.Fields (base o) !! k = Metric.Fields m !! k ≫= fun v => kept (go_of_val v).

Lemma New_untracked_copy fields m m' :
  point_like fields m m' ->
  untracked_copy fields m (mkTM (Metric.New (name m') (Tags m') (go_of_val <$> Metric.Fields m') (tm m') [tp m']) None).
Proof.
  intros (A1 & A2 & A3 & A4 & _ & A5). pose proof (New_abs (name m') (Tags m') (go_of_val <$> Metric.Fields m') (tm m') [tp m']) as E.
  unfold abs in E. injection E as E1 E2 E3 E4 E5 _.
  split; [done|]. split; [apply New_wf|]. cbn [base]. split_and!; try congruence.
  intros k Hk. rewrite E3, lookup_omap, lookup_fmap, (A5 k Hk). by destruct (Metric.Fields m !! k).
Qed.

Lemma same_groups_concat fields c c' ks :
  same_groups fields c c' ->
  Forall2 (point_like fields) (concat ((fun k => default [] (c !! k)) <$> ks)) (concat ((fun k => default [] (c' !! k)) <$> ks)).
Proof.
  intros Hs. induction ks as [|k ks IH]; [constructor|]. cbn [fmap list_fmap concat]. apply Forall2_app; [|done].
  destruct (Hs k) as [l l' Hl|]; [exact Hl|constructor].
Qed.

Lemma aggs_of_range (c : gmap string (list metric)) (agg : list metric -> gmap string float64) :
  aggs_of (fun k => agg (default [] (c !! k))) (dom c) ((fun kv => mkAggregation kv.1 (agg kv.2)) <$> range_map c).
Proof.
  assert (groupbykey <$> ((fun kv => mkAggregation kv.1 (agg kv.2)) <$> range_map c) = (range_map c).*1) as Hk
    by (by rewrite <- list_fmap_compose).
  unfold aggs_of. rewrite Hk. split; [apply range_map_NoDup|]. split.
  - intros k. rewrite elem_of_dom. split.
    + intros ([k' ms] & -> & Hin)%list_elem_of_fmap. apply range_map_elem in Hin. by exists ms.
    + intros [ms Hin%range_map_elem]. by apply (list_elem_of_fmap_2 fst _ (k, ms)).
  - intros a ([k ms] & -> & Hin%range_map_elem)%list_elem_of_fmap. cbn [groupbykey values fst snd]. by rewrite Hin.
Qed.

(** Every metric of a group in the cache stays well formed, whatever is added. *)
Lemma add_metrics_wf ins t w t' w' :
  Forall (fun m => wf (base m)) ins -> all_wf (cache t) -> add_metrics ins t w = Some (t', w') -> all_wf (cache t').
Proof.
  intros Hi. revert t w. induction Hi as [|m ins Hm _ IH]; intros t w Hc; cbn [add_metrics]; [by intros [= <- <-]|].
  destruct (m_Drop m w) as [w1|]; [|done]. binds. destruct (existsb _ _); [|by apply IH].
  destruct (groupBy (base m) t) as [t1|] eqn:E; [|done]. apply IH. revert E. unfold groupBy.
  destruct (generateGroupByKey (base m) t) as [[r t0]|] eqn:Eg; [|done]. binds.
  assert (cache t0 = cache t) as Hc0.
  { revert Eg. unfold generateGroupByKey. destruct (tagsGlobs t), (GroupBy t); try (intros [= _ <-]; done).
    destruct (Compile _) as [[g|]|]; binds; try done; by intros [= _ <-]. }
  destruct r as [key|e]; intros [= <-]; [|by rewrite Hc0]. intros k ms. cbn [cache set_cache]. rewrite Hc0.
  destruct (decide (k = key)) as [->|Hk]; [|rewrite lookup_insert_ne by done; apply Hc].
  rewrite lookup_insert_eq. intros [= <-]. apply Forall_app. split.
  - destruct (cache t !! key) as [ms|] eqn:Ek; [by apply (Hc key)|constructor].
  - apply Forall_singleton. case_decide; auto with drone.
Qed.

(** C36: The end of a period of the topk processor. When the aggregation is known and no aggregated
    value is a NaN, then for every configured field the chosen groups are as many as [k] (or all),
    and none that is left out has a greater value (a smaller one with [bottomk]). What comes out are the
    metrics of the groups chosen for some field, each group once, as untracked copies that keep name,
    tags, time, type and every field that is not an annotation; and the cache is empty again. *)
Theorem TopK_push_selects t w agg
    (Hagg : getAggregationFunction (Aggregation t) = Some agg) (HK : 0 <= K t) (Hwf : all_wf (cache t))
    (Hnan : forall k ms f, cache t !! k = Some ms -> f ∈ TFields t ->
      f_is_nan (default f_zero (agg ms (TFields t) !! f)) = false) :
  exists out t' w' tops added,
    push t w = Some (out, t', w') /\ cache t' = ∅ /\
    Forall2 (fun f top => is_top t (fun k => default f_zero (agg (default [] (cache t !! k)) (TFields t) !! f))
      (dom (cache t)) top) (TFields t) tops /\
    NoDup added /\ (forall k, k ∈ added <-> k ∈ concat tops) /\
    Forall2 (untracked_copy (TFields t)) (concat ((fun k => default [] (cache t !! k)) <$> added)) out.
Proof.
  unfold push. rewrite Hagg.
  destruct (fields_loop_tops t (fun k => agg (default [] (cache t !! k)) (TFields t)) (dom (cache t)) HK) with
    (fs := TFields t) (l := (fun kv => mkAggregation kv.1 (agg kv.2 (TFields t))) <$> range_map (cache t))
    (c := cache t) (added := @nil string) as (c & added & tops & -> & Hs & Hnd & Ht & He).
  - intros k f [ms Hk]%elem_of_dom Hf. cbn beta. rewrite Hk. by apply (Hnan k).
  - done.
  - exact (aggs_of_range (cache t) (fun ms => agg ms (TFields t))).
  - done.
  - constructor.
  - binds. unfold Reset. destruct (read_clock w) as [now w1]. cbn beta iota.
    eexists _, _, _, tops, added. split; [done|]. split; [done|]. split; [done|]. split; [done|]. split.
    + intros k. rewrite He. split; [intros [[]%elem_of_nil|]; done|by right].
    + apply Forall2_fmap_r. eapply Forall2_impl; [by apply same_groups_concat|]. intros m m' Hm. by apply New_untracked_copy.
Qed.
End Proofs.

(** ** An instance *)

Lemma insert_sorted_preorder {A} (less : A -> A -> bool) (R : A -> A -> Prop) x s :
  (forall y z, y ∈ x :: s -> z ∈ x :: s -> R x y -> R y z -> R x z) ->
  (forall y, y ∈ s -> if less x y then R x y else R y x) ->
  StronglySorted R s -> StronglySorted R (insert_sorted less x s).
Proof.
  intros Htr Hl Hs. induction Hs as [|y s Hs IH Hy]; [repeat constructor|].
  cbn [insert_sorted]. pose proof (Hl y ltac:(left)) as Hxy. destruct (less x y).
  - constructor; [by constructor|]. constructor; [done|]. rewrite Forall_forall in Hy |- *.
    intros z Hz. apply (Htr y); [right; left|by do 2 right|done|by apply Hy].
  - constructor.
    + apply IH; [intros a b Ha Hb; apply Htr; set_solver|intros z Hz; apply Hl; by right].
    + rewrite insert_sorted_perm. by constructor.
Qed.

#[refine] Definition insertion_stable_sort : StableSort := {| stable_sort := @insertion_sort |}.
Proof.
  - intros A less l. apply (@go_sort_perm insertion_go_sort).
  - intros A less R l Htr Hl. unfold insertion_sort.
    assert (forall x, x ∈ reverse l -> x ∈ l) as Hin by (intros x; by rewrite elem_of_reverse).
    induction (reverse l) as [|x l' IH]; [constructor|]. cbn [foldr].
    assert (forall y, y ∈ foldr (insert_sorted less) [] l' -> y ∈ l) as Hin'.
    { intros y Hy. apply Hin. right. revert Hy. clear. revert y. induction l' as [|a l' IH]; [done|]. intros y. cbn [foldr].
      rewrite insert_sorted_perm. set_solver. }
    apply insert_sorted_preorder; [|intros y Hy; apply Hl; [apply Hin; left|by apply Hin']|apply IH; intros y Hy; apply Hin; by right].
    assert (x ∈ l) as Hx by (apply Hin; left).
    intros y z Hy Hz. apply Htr; [done|apply elem_of_cons in Hy as [->|Hy]|apply elem_of_cons in Hz as [->|Hz]]; auto.
Defined.

Definition ex_topk : TopK (H := alt_glob) :=
  mkTopK alt_glob 10 1 ["host"] ["a"; "b"] "sum" false EmptyString ["a"] []
    {["m&host=x&" := [mkMetric "m" [mkTag "host" "x"] [mkField "a" (VInt 5)] 1 Untyped false];
      "m&host=y&" := [mkMetric "m" [mkTag "host" "y"] [mkField "a" (VInt 2)] 1 Untyped false;
        mkMetric "m" [mkTag "host" "y"] [mkField "a" (VInt 1); mkField "b" (VFloat f_one)] 1 Untyped false]]}
    None (Some {["a"]}) (Some ∅) 0.

Lemma TopK_push_selects_witness :
  exists out t' w' tops added,
    push (H := alt_glob) (H0 := map_range_default) (H1 := insertion_stable_sort) ex_topk 0 = Some (out, t', w') /\ cache t' = ∅ /\
    Forall2 (fun f top => is_top ex_topk
      (fun k => default f_zero (aggregator (default [] (cache ex_topk !! k)) (TFields ex_topk) agg_sum !! f))
      (dom (cache ex_topk)) top) (TFields ex_topk) tops /\
    NoDup added /\ (forall k, k ∈ added <-> k ∈ concat tops) /\
    Forall2 (untracked_copy (TFields ex_topk)) (concat ((fun k => default [] (cache ex_topk !! k)) <$> added)) out.
Proof.
  apply (TopK_push_selects (H := alt_glob) (H0 := map_range_default) (H1 := insertion_stable_sort) ex_topk 0
    (fun ms fs => aggregator ms fs agg_sum)); [reflexivity|vm_compute; discriminate| |].
  - apply map_Forall_insert_2; [|apply map_Forall_singleton];
      repeat constructor; simpl; try (apply NoDup_nil_2 || set_solver).
  - intros k ms f Hk Hf. unfold ex_topk in Hk. cbn [cache] in Hk.
    apply lookup_insert_Some in Hk as [[<- <-]|[_ Hk]]; [|apply lookup_singleton_Some in Hk as [<- <-]];
      (apply elem_of_cons in Hf as [->|Hf]; [|apply list_elem_of_singleton in Hf as ->]); vm_compute; reflexivity.
Defined.

(** The group of 5 is first for the field "a", with its rank, the one with a "b" for "b". *)
Lemma push_ex :
  match push (H := alt_glob) (H0 := map_range_default) (H1 := insertion_stable_sort) ex_topk 0 with
  | Some (out, _, _) => (fun o => (name (base o), Tags (base o) !! "host", Metric.Fields (base o) !! "a_topk_rank")) <$> out
  | None => []
  end = [("m", Some "x", Some (VInt 1)); ("m", Some "y", None); ("m", Some "y", None)].
Proof. vm_compute. reflexivity. Qed.

(** With an unknown aggregation the cache is never emptied. *)
Lemma unknown_aggregation_keeps `{Glob} `{MapRange} `{StableSort} {W} `{ClockEnv W} (t : TopK) (w : W) :
  getAggregationFunction (Aggregation t) = None -> push t w = Some ([], t, w).
Proof. intros E. unfold push. by rewrite E. Qed.
