(* ===== verification/Statsd.v ===== *)
(** * The statsd input

    [plugins/inputs/statsd/] ([running_stats.go], [statsd.go], [datadog.go]): lines of the statsd
    protocol are parsed, their names put through the templates of the graphite parser, and the samples
    aggregated in four caches until they are gathered. Packets are what a listener hands to the
    parser; sockets are not modelled. *)

From Stdlib Require Import SpecFloat Ascii.
From S2P Require Import Prelude Float64 Strconv Strings Metric Interfaces Histogram Parse Templating Graphite.

(** ** Running statistics *)

(** [math/rand.Intn]. *)
Class RandEnv (W : Type) := rand_Intn : Z -> W -> Z * W.

Record RunningStats := mkRS {
  rs_k : float64;
  rs_n : Z;
  rs_ex : float64;
  rs_ex2 : float64;
  rs_perc : list float64;
  PercLimit : Z;
  rs_sum : float64;
  rs_lower : float64;
  rs_upper : float64;
  rs_sorted : bool;
}.

Definition zeroStats (limit : Z) : RunningStats :=
  mkRS f_zero 0 f_zero f_zero [] limit f_zero f_zero f_zero false.

Definition defaultPercentileLimit : Z := 1000.

(** The first value starts the statistics; [None] is a slice of negative capacity. *)
Definition start_stats (v : float64) (rs : RunningStats) : option RunningStats :=
  if rs_n rs =? 0 then
    let limit := if PercLimit rs =? 0 then defaultPercentileLimit else PercLimit rs in
    if limit <? 0 then None else Some (mkRS v (rs_n rs) (rs_ex rs) (rs_ex2 rs) [] limit (rs_sum rs) v v false)
  else Some (mkRS (rs_k rs) (rs_n rs) (rs_ex rs) (rs_ex2 rs) (rs_perc rs) (PercLimit rs) (rs_sum rs) (rs_lower rs) (rs_upper rs) false).

Definition AddValue {W} `{RandEnv W} (v : float64) (rs : RunningStats) (w : W) : option (RunningStats * W) :=
  rs ← start_stats v rs;
  let d := f_sub v (rs_k rs) in
  let '(lower, upper) := if f_gtb v (rs_upper rs) then (rs_lower rs, v)
    else if f_ltb v (rs_lower rs) then (v, rs_upper rs) else (rs_lower rs, rs_upper rs) in
  '(perc, w) ← (if Z.of_nat (length (rs_perc rs)) <? PercLimit rs then Some (rs_perc rs ++ [v], w)
    else
      if (length (rs_perc rs) =? 0)%nat then None else
      let '(i, w) := rand_Intn (Z.of_nat (length (rs_perc rs))) w in
      if (0 <=? i) && (i <? Z.of_nat (length (rs_perc rs))) then Some (<[Z.to_nat i := v]> (rs_perc rs), w) else None);
  Some (mkRS (rs_k rs) (int64 (rs_n rs + 1)) (f_add (rs_ex rs) d) (f_add (rs_ex2 rs) (f_mul d d)) perc (PercLimit rs)
    (f_add (rs_sum rs) v) lower upper false, w).

Definition Mean (rs : RunningStats) : float64 := f_add (rs_k rs) (f_div (rs_ex rs) (f_of_Z (rs_n rs))).
Definition Variance (rs : RunningStats) : float64 :=
  f_div (f_sub (rs_ex2 rs) (f_div (f_mul (rs_ex rs) (rs_ex rs)) (f_of_Z (rs_n rs)))) (f_of_Z (rs_n rs)).
Definition Stddev (rs : RunningStats) : float64 := f_sqrt (Variance rs).

Definition clamp `{FloatConv} (i : float64) (min max : Z) : Z :=
  if f_ltb i (f_of_Z min) then min else if f_gtb i (f_of_Z max) then max else to_int64 i.

(** [Percentile]: the array is sorted in place unless it is marked as sorted; [None] is an index out of range. *)
Definition sort_perc (rs : RunningStats) : RunningStats :=
  if rs_sorted rs then rs
  else mkRS (rs_k rs) (rs_n rs) (rs_ex rs) (rs_ex2 rs) (Histogram.Float64s (rs_perc rs)) (PercLimit rs) (rs_sum rs) (rs_lower rs) (rs_upper rs) true.
Definition Percentile `{FloatConv} (n : float64) (rs : RunningStats) : option (float64 * RunningStats) :=
  let n := if f_gtb n (f_of_Z 100) then f_of_Z 100 else n in
  let rs := sort_perc rs in
  let len := Z.of_nat (length (rs_perc rs)) in
  let i := f_div (f_mul (f_of_Z len) n) (f_of_Z 100) in
  let j := clamp i 0 (len - 1) in
  if j <? 0 then None else x ← rs_perc rs !! Z.to_nat j; Some (x, rs).

(** ** The input's state *)

Inductive MType := TGauge | TCounter | TSet | TTiming | THistogram.
#[export] Instance MType_eq_dec : EqDecision MType.
Proof. solve_decision. Defined.

(** One statsd metric. *)
Record smetric := mkSM {
  sm_name : string;
  sm_field : string;
  sm_hash : string;
  intvalue : Z;
  floatvalue : float64;
  strvalue : string;
  mtype : MType;
  additive : bool;
  samplerate : float64;
  sm_tags : gmap string string;
}.

Record cached (A : Type) := mkCached { ca_name : string; ca_fields : gmap string A; ca_tags : gmap string string }.
Arguments mkCached {A}.
Arguments ca_name {A}.
Arguments ca_fields {A}.
Arguments ca_tags {A}.

(** The parser of names: after a failed construction it has no engine. *)
Inductive NameParser :=
| Ready (p : GraphiteParser)
| NoEngine (separator : string).
Definition np_Separator (p : NameParser) : string :=
  match p with Ready p => gp_Separator p | NoEngine sep => sep end.

Record Statsd := mkStatsd {
  Percentiles : list float64;
  PercentileLimit : Z;
  DeleteGauges : bool;
  DeleteCounters : bool;
  DeleteSets : bool;
  DeleteTimings : bool;
  ConvertNames : bool;
  MetricSeparator : string;
  DataDogExtensions : bool;
  Templates : list string;
  gauges : gmap string (cached float64);
  counters : gmap string (cached Z);
  sets : gmap string (cached (gset string));
  timings : gmap string (cached RunningStats);
  graphiteParser : option NameParser;
}.

Definition set_caches g c st ti (s : Statsd) : Statsd :=
  mkStatsd (Percentiles s) (PercentileLimit s) (DeleteGauges s) (DeleteCounters s) (DeleteSets s) (DeleteTimings s)
    (ConvertNames s) (MetricSeparator s) (DataDogExtensions s) (Templates s) g c st ti (graphiteParser s).
Definition set_parser p (s : Statsd) : Statsd :=
  mkStatsd (Percentiles s) (PercentileLimit s) (DeleteGauges s) (DeleteCounters s) (DeleteSets s) (DeleteTimings s)
    (ConvertNames s) (MetricSeparator s) (DataDogExtensions s) (Templates s) (gauges s) (counters s) (sets s) (timings s) p.

(** The part of [Start] that is not about sockets: empty caches and a separator. *)
Definition start_caches (parseDataDogTags : bool) (s : Statsd) : Statsd :=
  mkStatsd (Percentiles s) (PercentileLimit s) (DeleteGauges s) (DeleteCounters s) (DeleteSets s) (DeleteTimings s)
    (ConvertNames s) (if decide (MetricSeparator s = EmptyString) then "_" else MetricSeparator s)
    (DataDogExtensions s || parseDataDogTags) (Templates s) ∅ ∅ ∅ ∅ (graphiteParser s).

(** ** Aggregation *)

(** The entry of a sample's series, with no fields when it is new. *)
Definition entry {A} (m : smetric) (c : gmap string (cached A)) : cached A :=
  default (mkCached (sm_name m) ∅ (sm_tags m)) (c !! sm_hash m).
Definition with_field {A} (m : smetric) (v : A) (c : gmap string (cached A)) : gmap string (cached A) :=
  let e := entry m c in
  <[sm_hash m := mkCached (ca_name e) (<[sm_field m := v]> (ca_fields e)) (ca_tags e)]> c.
Definition old_field {A} (m : smetric) (d : A) (c : gmap string (cached A)) : A :=
  default d (ca_fields (entry m c) !! sm_field m).

Section Ops.
Context `{GoSort} `{MapRange} `{FloatConv} {W : Type} `{RandEnv W}.
Implicit Types (s : Statsd) (w : W).

Fixpoint add_values (n : nat) (v : float64) (rs : RunningStats) w : option (RunningStats * W) :=
  match n with
  | O => Some (rs, w)
  | S n' => '(rs, w) ← AddValue v rs w; add_values n' v rs w
  end.

(** How often a timing counts. *)
Definition repeats (m : smetric) : nat :=
  if f_gtb (samplerate m) f_zero then Z.to_nat (to_int64 (f_div f_one (samplerate m))) else 1%nat.

Definition aggregate (m : smetric) s w : option (Statsd * W) :=
  match mtype m with
  | TTiming | THistogram =>
    '(rs, w) ← add_values (repeats m) (floatvalue m) (old_field m (zeroStats (PercentileLimit s)) (timings s)) w;
    Some (set_caches (gauges s) (counters s) (sets s) (with_field m rs (timings s)) s, w)
  | TCounter =>
    Some (set_caches (gauges s) (with_field m (int64 (old_field m 0 (counters s) + intvalue m)) (counters s)) (sets s) (timings s) s, w)
  | TGauge =>
    let v := if additive m then f_add (old_field m f_zero (gauges s)) (floatvalue m) else floatvalue m in
    Some (set_caches (with_field m v (gauges s)) (counters s) (sets s) (timings s) s, w)
  | TSet =>
    Some (set_caches (gauges s) (counters s) (with_field m ({[strvalue m]} ∪ old_field m ∅ (sets s)) (sets s)) (timings s) s, w)
  end.

(** ** Parsing *)

(** The bytes [lo, hi) of a string; [None] is a panic. *)
Definition slice (str : string) (lo hi : Z) : option string :=
  if (0 <=? lo) && (lo <=? hi) && (hi <=? Z.of_nat (String.length str))
  then Some (String.substring (Z.to_nat lo) (Z.to_nat (hi - lo)) str) else None.

Definition parseKeyValue (keyvalue : string) : string * string :=
  match Split keyvalue "=" with
  | [k; v] => (k, v)
  | [v] => (EmptyString, v)
  | _ => (EmptyString, EmptyString)
  end.

Definition bucket_tags (btags : list string) : gmap string string :=
  foldl (fun tags btag => let '(k, v) := parseKeyValue btag in
    if decide (k <> EmptyString) then <[k := v]> tags else tags) ∅ btags.

(** [ApplyTemplate] on a parser without engine panics unless there is nothing to apply it to. *)
Definition apply_parser (p : NameParser) (nm : string) : option (string * gmap string string * string * option terr) :=
  match p with
  | Ready p => ApplyTemplate p nm
  | NoEngine _ => match Strings.Fields nm with [] => Some (EmptyString, ∅, EmptyString, None) | _ => None end
  end.

(** The parser of names, made again when the separator differs; the flag says that making it failed. *)
Definition new_parser s : option (NameParser * bool) :=
  r ← NewGraphiteParser (MetricSeparator s) (Templates s) ∅;
  Some (match r with
    | inl p => (Ready p, false)
    | inr _ => (NoEngine (if decide (MetricSeparator s = EmptyString) then "." else MetricSeparator s), true)
    end).
Definition name_parser s : option (NameParser * bool) :=
  match graphiteParser s with
  | Some p => if decide (np_Separator p = MetricSeparator s) then Some (p, false) else new_parser s
  | None => new_parser s
  end.

Definition with_default_tags (tags : gmap string string) (p : NameParser) : NameParser :=
  match p with Ready p => Ready (SetDefaultTags tags p) | NoEngine sep => NoEngine sep end.

(** [parseName]: name, field and tags; the tags are nil after an error of a template. *)
Definition parseName (bucket : string) s : option (string * string * option (gmap string string) * Statsd) :=
  match Split bucket "," with
  | [] => None
  | nm :: btags =>
    let tags := bucket_tags btags in
    '(p, failed) ← name_parser s;
    '(nm, tags, field, p) ← (if failed : bool then Some (nm, Some tags, EmptyString, p) else
      let p := with_default_tags tags p in
      '(nm, tags, field, e) ← apply_parser p nm;
      Some (nm, match e with None => Some tags | Some _ => None end, field, p));
    let s := set_parser (Some p) s in
    let nm := if ConvertNames s then ReplaceAll (ReplaceAll nm "." "_") "-" "__" else nm in
    Some (nm, if decide (field = EmptyString) then "value" else field, tags, s)
  end.

Inductive StatsdErr := NoColon | NoPipe | UnsupportedType | SignedValue | BadFloat | BadInt.

Definition parse_mtype (t : string) : option MType :=
  if decide (t = "g") then Some TGauge else if decide (t = "c") then Some TCounter
  else if decide (t = "s") then Some TSet else if decide (t = "ms") then Some TTiming
  else if decide (t = "h") then Some THistogram else None.

(** The third part of a bit. *)
Definition sample_rate (sr : string) : float64 :=
  if Contains sr "@" && (1 <? String.length sr)%nat then default f_zero (ParseFloat (str_drop 1 sr)) else f_zero.

(** The value of a bit: the integer, the float and the text. *)
Definition parse_value (t : MType) (rate : float64) (v : string) : Z * float64 * string + StatsdErr :=
  match t with
  | TGauge | TTiming | THistogram =>
    match ParseFloat v with Some x => inl (0, x, EmptyString) | None => inr BadFloat end
  | TCounter =>
    match (match ParseInt10 v with inl z => Some z | inr _ => to_int64 <$> ParseFloat v end) with
    | None => inr BadInt
    | Some z => inl (if negb (f_eqb rate f_zero) then to_int64 (f_div (f_of_Z z) rate) else z, f_zero, EmptyString)
    end
  | TSet => inl (0, f_zero, v)
  end.

Definition type_tag (t : MType) : string :=
  match t with TCounter => "counter" | TGauge => "gauge" | TSet => "set" | TTiming => "timing" | THistogram => "histogram" end.

(** The key of a series. *)
Definition series_hash (nm : string) (tags : gmap string string) : string :=
  Join (sort_by id ((fun kv => kv.1 +:+ "=" +:+ kv.2) <$> range_map tags) ++ [nm]) EmptyString.

(** A bit up to its name: type, sign, rate and values. *)
Definition parse_bit (bit : string) : (MType * bool * float64 * (Z * float64 * string)) + StatsdErr :=
  match Split bit "|" with
  | v :: t :: rest =>
    let rate := match rest with sr :: _ => sample_rate sr | [] => f_zero end in
    match parse_mtype t with
    | None => inr UnsupportedType
    | Some t =>
      let signed := HasPrefix v "-" || HasPrefix v "+" in
      if signed && negb (bool_decide (t = TGauge)) && negb (bool_decide (t = TCounter)) then inr SignedValue
      else match parse_value t rate v with
      | inr e => inr e
      | inl vals => inl (t, signed, rate, vals)
      end
    end
  | _ => inr NoPipe
  end.

(** The loop over the bits of a line. *)
Fixpoint bits_loop (bucket : string) (lineTags : gmap string string) (bits : list string) s w :
    option (option StatsdErr * Statsd * W) :=
  match bits with
  | [] => Some (None, s, w)
  | bit :: bits' =>
    match parse_bit bit with
    | inr e => Some (Some e, s, w)
    | inl (t, add, rate, (i, f, str)) =>
      '(nm, field, tags, s) ← parseName bucket s;
      tags ← tags;
      let tags := lineTags ∪ <["metric_type" := type_tag t]> tags in
      '(s, w) ← aggregate (mkSM nm field (series_hash nm tags) i f str t add rate tags) s w;
      bits_loop bucket lineTags bits' s w
    end
  end.

(** The state of the loop over the runes of a message with tags. *)
Record ddstate := mkDD { dd_start : nat; dd_k : string; dd_inVal : bool; dd_tags : gmap string string }.
Definition dd_step (message : string) (i : nat) (r : Z) (d : ddstate) : ddstate :=
  let text := String.substring (dd_start d) (i - dd_start d) message in
  if r =? 44 then
    if decide (dd_k d = EmptyString) then mkDD (S i) text (dd_inVal d) (<[text := "true"]> (dd_tags d))
    else mkDD (S i) EmptyString false (<[dd_k d := if decide (text = EmptyString) then "true" else text]> (dd_tags d))
  else if (r =? 58) && negb (dd_inVal d) then mkDD (S i) text true (dd_tags d)
  else d.
(** The loop, with the index of the last rune. *)
Fixpoint dd_loop (message : string) (rs : list (Z * string)) (pos last : nat) (d : ddstate) : nat * ddstate :=
  match rs with
  | [] => (last, d)
  | (r, b) :: rs' => dd_loop message rs' (pos + String.length b)%nat pos (dd_step message pos r d)
  end.
Definition parseDataDogTags (tags : gmap string string) (message : string) : gmap string string :=
  if decide (message = EmptyString) then tags else
  let '(i, d) := dd_loop message (runes message) 0 0 (mkDD 0 EmptyString false tags) in
  let text := String.substring (dd_start d) (S i - dd_start d) message in
  if decide (dd_k d = EmptyString) then
    if (dd_start d <? S i)%nat then <[text := "true"]> (dd_tags d) else dd_tags d
  else <[dd_k d := if (dd_start d <? S i)%nat then text else "true"]> (dd_tags d).

(** The segments of a line with tags: the tags, and the line without them. *)
Definition is_tag_segment (seg : string) : bool :=
  match seg with String c _ => bool_decide (byte_of c = 35) | EmptyString => false end.
Definition line_tags (line : string) : gmap string string * string :=
  let segs := Split line "|" in
  (foldl (fun tags seg => if is_tag_segment seg then parseDataDogTags tags (str_drop 1 seg) else tags) ∅ segs,
   Join (filter (fun seg => is_tag_segment seg = false) segs) "|").

(** [parseStatsdLine]: the error, if any; [None] is a panic. *)
Definition parseStatsdLine (line : string) s w : option (option StatsdErr * Statsd * W) :=
  let '(lineTags, line) := if DataDogExtensions s then line_tags line else (∅, line) in
  match Split line ":" with
  | bucket :: ((_ :: _) as bits) => bits_loop bucket lineTags bits s w
  | _ => Some (Some NoColon, s, w)
  end.

(** ** Events *)

Inductive EventErr := BadFormat | BadTitleLen | BadTextLen | LengthsExceed | EmptyTitleOrText | ShortMetadata | UnknownMetadata.

Definition newline : string := String (ascii_of_N 10) EmptyString.
Definition str (x : string) : GoVal := GoScalar (SString x).

(** One metadata field: the fields and tags it leaves, or the error that ends the parse. *)
Definition metadata (f : string) (st : gmap string GoVal * gmap string string) :
    gmap string GoVal * gmap string string + EventErr :=
  let '(fields, tags) := st in
  if (String.length f <? 2)%nat then inr ShortMetadata else
  let kind := str_take 2 f in
  let rest := str_drop 2 f in
  if decide (kind = "d:") then
    inl (match ParseInt10 rest with inl ts => <["ts" := GoScalar (SInt64 ts)]> fields | inr _ => fields end, tags)
  else if decide (kind = "p:") then
    inl (if decide (rest = "low") then <["priority" := str "low"]> fields else fields, tags)
  else if decide (kind = "h:") then inl (fields, <["source" := rest]> tags)
  else if decide (kind = "t:") then
    inl (if decide (rest = "error" \/ rest = "warning" \/ rest = "success" \/ rest = "info")
         then <["alert_type" := str rest]> fields else fields, tags)
  else if decide (kind = "k:") then inl (fields, <["aggregation_key" := rest]> tags)
  else if decide (kind = "s:") then inl (<["source_type_name" := str rest]> fields, tags)
  else if is_tag_segment f then inl (fields, parseDataDogTags tags (str_drop 1 f))
  else inr UnknownMetadata.
Fixpoint metadata_loop (fs : list string) (st : gmap string GoVal * gmap string string) :
    gmap string GoVal * gmap string string + EventErr :=
  match fs with
  | [] => inl st
  | f :: fs' => match metadata f st with inr e => inr e | inl st => metadata_loop fs' st end
  end.

(** The lengths in a header. *)
Definition event_lengths (header : string) : Z * Z + EventErr :=
  match cut_at "," (str_drop 3 header) with
  | None => inr BadFormat
  | Some (a, b) =>
    match ParseInt10 a with
    | inr _ => inr BadTitleLen
    | inl titleLen =>
      if decide (b = EmptyString) then inr BadTextLen else
      match ParseInt10 (str_take (pred (String.length b)) b) with
      | inr _ => inr BadTextLen
      | inl textLen => inl (titleLen, textLen)
      end
    end
  end.

(** [parseEventMessage]: the call on the accumulator, or the error; [None] is a slice out of range. *)
Definition parseEventMessage (now : Z) (message defaultHostname : string) : option (AccCall + EventErr) :=
  match cut_at ":" message with
  | None => Some (inr BadFormat)
  | Some (header, message) =>
    if (String.length header <? 7)%nat || (String.length message <? 3)%nat then Some (inr BadFormat) else
    match event_lengths header with
    | inr e => Some (inr e)
    | inl (titleLen, textLen) =>
      if Z.of_nat (String.length message) <? int64 (int64 (titleLen + textLen) + 1) then Some (inr LengthsExceed) else
      let from := int64 (titleLen + 1) in
      let to := int64 (from + textLen) in
      rawTitle ← slice message 0 titleLen;
      rawText ← slice message from to;
      rest ← slice message to (Z.of_nat (String.length message));
      if decide (rawTitle = EmptyString \/ rawText = EmptyString) then Some (inr EmptyTitleOrText) else
      let fields : gmap string GoVal := {["alert_type" := str "info"; "text" := str (ReplaceAll rawText "\n" newline);
        "priority" := str "normal"]} in
      let tags : gmap string string := if decide (defaultHostname <> EmptyString) then {["source" := defaultHostname]} else ∅ in
      if (String.length rest <? 2)%nat then Some (inl (CallFields rawTitle fields tags Untyped (Some now))) else
      match metadata_loop (Split (str_drop 1 rest) "|") (fields, tags) with
      | inr e => Some (inr e)
      | inl (fields, tags) =>
        let tags := match tags !! "host" with
          | Some host => <["source" := host]> (delete "host" tags)
          | None => tags end in
        Some (inl (CallFields rawTitle fields tags Untyped (Some now)))
      end
    end
  end.

(** ** Packets *)

(** What [parser] does with the lines of a packet: the calls for events, and the new state. *)
Fixpoint packet_lines (now : Z) (addr : string) (ls : list string) s w : option (list AccCall * Statsd * W) :=
  match ls with
  | [] => Some ([], s, w)
  | l :: ls' =>
    let line := TrimSpace l in
    if decide (line = EmptyString) then packet_lines now addr ls' s w
    else if DataDogExtensions s && HasPrefix line "_e" then
      r ← parseEventMessage now line addr;
      '(cs, s, w) ← packet_lines now addr ls' s w;
      Some ((match r with inl c => [c] | inr _ => [] end) ++ cs, s, w)
    else
      '(_, s, w) ← parseStatsdLine line s w;
      packet_lines now addr ls' s w
  end.
Definition parser (now : Z) (addr packet : string) s w : option (list AccCall * Statsd * W) :=
  packet_lines now addr (Split packet newline) s w.

(** ** [Gather] *)

(** The percentiles of one field: the values under their names, and the sorted array. *)
Fixpoint percentile_fields (prefix : string) (ps : list float64) (rs : RunningStats) (fields : gmap string GoVal) :
    option (gmap string GoVal * RunningStats) :=
  match ps with
  | [] => Some (fields, rs)
  | p :: ps' =>
    '(x, rs) ← Percentile p rs;
    percentile_fields prefix ps' rs (<[prefix +:+ FormatFloat_g p +:+ "_percentile" := GoScalar (SFloat64 x)]> fields)
  end.

Definition flt (x : float64) : GoVal := GoScalar (SFloat64 x).
Definition stat_fields (ps : list float64) (fieldName : string) (rs : RunningStats) (fields : gmap string GoVal) :
    option (gmap string GoVal * RunningStats) :=
  let prefix := if decide (fieldName <> "value") then fieldName +:+ "_" else EmptyString in
  percentile_fields prefix ps rs
    (<[prefix +:+ "count" := GoScalar (SInt64 (rs_n rs))]> (<[prefix +:+ "lower" := flt (rs_lower rs)]>
    (<[prefix +:+ "upper" := flt (rs_upper rs)]> (<[prefix +:+ "sum" := flt (rs_sum rs)]>
    (<[prefix +:+ "stddev" := flt (Stddev rs)]> (<[prefix +:+ "mean" := flt (Mean rs)]> fields)))))).

(** The fields of a series of timings; what is sorted stays sorted in the cache, but is not marked so. *)
Definition keep_sorted (rs rs' : RunningStats) : RunningStats :=
  mkRS (rs_k rs) (rs_n rs) (rs_ex rs) (rs_ex2 rs) (rs_perc rs') (PercLimit rs) (rs_sum rs) (rs_lower rs) (rs_upper rs) (rs_sorted rs).
Fixpoint timing_fields (ps : list float64) (l : list (string * RunningStats)) (fields : gmap string GoVal)
    (cache : gmap string RunningStats) : option (gmap string GoVal * gmap string RunningStats) :=
  match l with
  | [] => Some (fields, cache)
  | (fieldName, rs) :: l' =>
    '(fields, rs') ← stat_fields ps fieldName rs fields;
    timing_fields ps l' fields (<[fieldName := keep_sorted rs rs']> cache)
  end.
Fixpoint gather_timings (ps : list float64) (now : Z) (l : list (string * cached RunningStats))
    (cache : gmap string (cached RunningStats)) : option (list AccCall * gmap string (cached RunningStats)) :=
  match l with
  | [] => Some ([], cache)
  | (h, m) :: l' =>
    '(fields, fs) ← timing_fields ps (range_map (ca_fields m)) ∅ (ca_fields m);
    '(cs, cache) ← gather_timings ps now l' (<[h := mkCached (ca_name m) fs (ca_tags m)]> cache);
    Some (CallFields (ca_name m) fields (ca_tags m) Untyped (Some now) :: cs, cache)
  end.

Definition gather_cached {A} (value : A -> GoVal) (tp : ValueType) (now : Z) (c : gmap string (cached A)) : list AccCall :=
  (fun hm => CallFields (ca_name hm.2) (value <$> ca_fields hm.2) (ca_tags hm.2) tp (Some now)) <$> range_map c.

Definition Gather (now : Z) s : option (list AccCall * Statsd) :=
  '(ts, timings') ← gather_timings (Percentiles s) now (range_map (timings s)) (timings s);
  let calls := ts ++ gather_cached flt Gauge now (gauges s) ++
    gather_cached (fun z => GoScalar (SInt64 z)) Counter now (counters s) ++
    gather_cached (fun set => GoScalar (SInt64 (Z.of_nat (size (set : gset string))))) Untyped now (sets s) in
  Some (calls, set_caches (if DeleteGauges s then ∅ else gauges s) (if DeleteCounters s then ∅ else counters s)
    (if DeleteSets s then ∅ else sets s) (if DeleteTimings s then ∅ else timings') s).
End Ops.

(** ** Running statistics are those of the values *)

(** The values lie between two of them. *)
Definition bounds_of (vs : list float64) (lower upper : float64) : Prop :=
  lower ∈ vs /\ upper ∈ vs /\ Forall (fun v => f_leb lower v = true /\ f_leb v upper = true) vs.

Lemma bounds_of_snoc vs lower upper v :
  bounds_of vs lower upper -> Forall (fun v => f_is_nan v = false) (vs ++ [v]) ->
  let '(lower', upper') := if f_gtb v upper then (lower, v) else if f_ltb v lower then (v, upper) else (lower, upper) in
  bounds_of (vs ++ [v]) lower' upper'.
Proof.
  intros (Hlo & Hup & Hall) [Hnan Hv]%Forall_app. apply (proj1 (Forall_singleton _ _)) in Hv. rewrite Forall_forall in Hnan.
  pose proof (Hnan _ Hlo) as Nlo. pose proof (Hnan _ Hup) as Nup.
  assert (forall l u, f_leb l lower = true -> f_leb upper u = true -> f_leb l v = true -> f_leb v u = true ->
    Forall (fun x => f_leb l x = true /\ f_leb x u = true) (vs ++ [v])) as Hstep.
  { intros l u Hl Hu Hlv Hvu. apply Forall_app. split; [|by apply Forall_singleton].
    eapply Forall_impl; [exact Hall|]. intros x [Hx1 Hx2].
    split; [exact (f_leb_trans _ _ _ Hl Hx1)|exact (f_leb_trans _ _ _ Hx2 Hu)]. }
  rewrite Forall_forall in Hall. unfold f_gtb, bounds_of. fold (f_ltb upper v). destruct (f_ltb upper v) eqn:E1.
  - apply f_ltb_leb in E1. split; [set_solver|]. split; [set_solver|].
    apply Hstep; [by apply f_leb_refl|done| |by apply f_leb_refl]. eapply f_leb_trans; [|exact E1]. by apply Hall.
  - destruct (f_ltb v lower) eqn:E2.
    + apply f_ltb_leb in E2. split; [set_solver|]. split; [set_solver|].
      apply Hstep; [done|by apply f_leb_refl|by apply f_leb_refl|]. eapply f_leb_trans; [exact E2|]. by apply Hall.
    + split; [set_solver|]. split; [set_solver|].
      apply Hstep; [by apply f_leb_refl|by apply f_leb_refl|by apply f_ltb_false_leb|by apply f_ltb_false_leb].
Qed.

(** The limit in force. *)
Definition limit_of (limit : Z) : Z := if limit =? 0 then defaultPercentileLimit else limit.

(** What the statistics are of the values added. *)
Record stats_of (limit : Z) (vs : list float64) (rs : RunningStats) : Prop := {
  so_n : rs_n rs = Z.of_nat (length vs);
  so_limit : PercLimit rs = limit_of limit;
  so_sum : rs_sum rs = foldl f_add f_zero vs;
  so_bounds : bounds_of vs (rs_lower rs) (rs_upper rs);
  so_perc : forall x, x ∈ rs_perc rs -> x ∈ vs;
  so_len : Z.of_nat (length (rs_perc rs)) = Z.min (Z.of_nat (length vs)) (limit_of limit);
  so_all : Z.of_nat (length vs) <= limit_of limit -> rs_perc rs = vs;
  so_sorted : rs_sorted rs = false;
}.

(** The random numbers are below their bound. *)
Class RandLaws (W : Type) `{RandEnv W} :=
  rand_law : forall (n : Z) (w : W), 0 < n -> 0 <= (rand_Intn n w).1 < n.

Section Stats.
Context {W : Type} `{RandLaws W}.
Implicit Types w : W.

(** Where the values of a series go: nothing added yet, or the statistics of some. *)
Definition stats_or_zero (limit : Z) (vs : list float64) (rs : RunningStats) : Prop :=
  (vs = [] /\ rs = zeroStats limit) \/ (vs <> [] /\ stats_of limit vs rs).

Lemma limit_of_pos limit : 0 <= limit -> 0 < limit_of limit.
Proof. intros Hl. unfold limit_of, defaultPercentileLimit. zcases; lia. Qed.

Lemma AddValue_first limit v w :
  0 <= limit -> f_is_nan v = false -> exists rs, AddValue v (zeroStats limit) w = Some (rs, w) /\ stats_of limit [v] rs.
Proof.
  intros Hl Hv. pose proof (limit_of_pos limit Hl) as Hp. unfold AddValue, start_stats. cbn [rs_n zeroStats PercLimit].
  change (0 =? 0) with true. cbv iota zeta. change (if limit =? 0 then _ else _) with (limit_of limit).
  rewrite (proj2 (Z.ltb_ge (limit_of limit) 0)) by lia. binds. cbn [rs_upper rs_lower rs_perc PercLimit].
  assert (f_ltb v v = false) as Hvv by (apply f_ltb_rank; auto using rank_le_refl).
  unfold f_gtb. fold (f_ltb v v). rewrite Hvv. cbn [length Z.of_nat].
  rewrite (proj2 (Z.ltb_lt (Z.of_nat 0) (limit_of limit))) by lia. binds. eexists. split; [done|].
  constructor; cbn; try done; try lia.
  - split; [set_solver|]. split; [set_solver|]. apply Forall_singleton. split; by apply f_leb_refl.
Qed.

Lemma AddValue_next limit vs rs v w :
  0 <= limit -> vs <> [] -> stats_of limit vs rs -> Forall (fun v => f_is_nan v = false) (vs ++ [v]) ->
  Z.of_nat (length vs) < MaxInt64 ->
  exists rs' w', AddValue v rs w = Some (rs', w') /\ stats_of limit (vs ++ [v]) rs'.
Proof.
  intros Hl Hne [Hn Hlim Hsum Hb Hperc Hlen Hall _] Hnan Hmax. pose proof (limit_of_pos limit Hl) as Hp.
  unfold AddValue, start_stats. rewrite Hn.
  assert (0 < length vs)%nat as Hpos by (destruct vs; [done|simpl; lia]).
  rewrite (proj2 (Z.eqb_neq _ 0)) by lia. binds. cbn [rs_upper rs_lower rs_perc PercLimit rs_n rs_k rs_ex rs_ex2 rs_sum].
  pose proof (bounds_of_snoc vs _ _ v Hb Hnan) as Hb'.
  destruct (if f_gtb v _ then _ else _) as [lower upper]. rewrite Hlim.
  assert (foldl f_add f_zero (vs ++ [v]) = f_add (rs_sum rs) v) as Hs by (by rewrite foldl_app, <- Hsum).
  destruct (Z.ltb_spec (Z.of_nat (length (rs_perc rs))) (limit_of limit)) as [Hlt|Hge].
  - binds. eexists _, w. split; [done|]. constructor; cbn; rewrite ?length_app; cbn [length].
    + rewrite int64_small by (unfold MinInt64; lia). lia.
    + done.
    + done.
    + done.
    + intros x Hx. set_solver.
    + lia.
    + intros _. by rewrite Hall by lia.
    + done.
  - destruct (Nat.eqb_spec (length (rs_perc rs)) 0); [lia|].
    pose proof (rand_law (Z.of_nat (length (rs_perc rs))) w ltac:(lia)) as Hr.
    destruct (rand_Intn _ w) as [i w']. cbn in Hr. rewrite (proj2 (Z.leb_le 0 i)), (proj2 (Z.ltb_lt i _)) by lia.
    cbn [andb]. binds. eexists _, w'. split; [done|]. constructor; cbn; rewrite ?length_app, ?length_insert; cbn [length].
    + rewrite int64_small by (unfold MinInt64; lia). lia.
    + done.
    + done.
    + done.
    + intros x [j Hj]%list_elem_of_lookup. rewrite list_lookup_insert in Hj. case_decide as E; [set_solver|].
      apply elem_of_app. left. apply Hperc. by eapply list_elem_of_lookup_2.
    + lia.
    + lia.
    + done.
Qed.

(** Values added one after the other. *)
Fixpoint add_list (vs : list float64) (rs : RunningStats) w : option (RunningStats * W) :=
  match vs with
  | [] => Some (rs, w)
  | v :: vs' => '(rs, w) ← AddValue v rs w; add_list vs' rs w
  end.

Lemma add_values_list n v rs w : add_values n v rs w = add_list (replicate n v) rs w.
Proof.
  revert rs w. induction n as [|n IH]; intros rs w; [done|]. cbn [add_values replicate add_list].
  destruct (AddValue v rs w) as [[rs1 w1]|]; [|done]. binds. apply IH.
Qed.

Lemma add_list_stats limit us vs rs w :
  0 <= limit -> stats_or_zero limit vs rs -> Forall (fun v => f_is_nan v = false) (vs ++ us) ->
  Z.of_nat (length vs) + Z.of_nat (length us) <= MaxInt64 ->
  exists rs' w', add_list us rs w = Some (rs', w') /\ stats_or_zero limit (vs ++ us) rs'.
Proof.
  intros Hl. revert vs rs w. induction us as [|v us IH]; intros vs rs w Hs Hnan Hmax; cbn [add_list].
  { exists rs, w. split; [done|]. by rewrite app_nil_r. }
  rewrite (cons_middle v vs us), app_assoc in *.
  assert (Forall (fun v => f_is_nan v = false) (vs ++ [v])) as Hn1 by (by apply Forall_app in Hnan as [? _]).
  assert (exists rs' w', AddValue v rs w = Some (rs', w') /\ stats_of limit (vs ++ [v]) rs') as (rs1 & w1 & -> & Hs1).
  { destruct Hs as [[-> ->]|[Hne Hs]].
    - apply (proj1 (Forall_singleton _ _)) in Hn1. destruct (AddValue_first limit v w Hl Hn1) as (rs1 & E & Hs1). by exists rs1, w.
    - cbn [length] in Hmax. apply AddValue_next; [done|done|done|done|lia]. }
  binds. apply IH; [right; split; [by destruct vs|done]|done|]. rewrite length_app. cbn [length] in *. lia.
Qed.

(** The index that [Percentile] reads. *)
Definition percentile_index `{FloatConv} (len : Z) (n : float64) : Z :=
  clamp (f_div (f_mul (f_of_Z len) (if f_gtb n (f_of_Z 100) then f_of_Z 100 else n)) (f_of_Z 100)) 0 (len - 1).
Definition percentile_ok `{FloatConv} (len : Z) (n : float64) : Prop := 0 <= percentile_index len n < len.


(** An array that is marked as sorted is sorted. *)
Definition marked (rs : RunningStats) : Prop :=
  Forall (fun v => f_is_nan v = false) (rs_perc rs) /\
  (rs_sorted rs = true -> StronglySorted (fun u v => f_leb u v = true) (rs_perc rs)).

Lemma sort_perc_sorted rs :
  marked rs -> StronglySorted (fun u v => f_leb u v = true) (rs_perc (sort_perc rs)) /\ rs_perc (sort_perc rs) ≡ₚ rs_perc rs.
Proof.
  intros [Hn Hs]. unfold sort_perc. destruct (rs_sorted rs); [by split; [apply Hs|]|]. by apply Float64s_spec.
Qed.

Lemma sort_perc_marked rs : marked rs -> marked (sort_perc rs).
Proof. intros Hm. destruct (sort_perc_sorted rs Hm) as [Hs Hp]. split; [rewrite Hp; apply Hm|done]. Qed.

(** The value read is one of the array, with as many before it as the index says. *)
Lemma Percentile_rank `{FloatConv} n rs :
  marked rs -> percentile_ok (Z.of_nat (length (rs_perc rs))) n ->
  exists x lo hi, Percentile n rs = Some (x, sort_perc rs) /\ rs_perc rs ≡ₚ lo ++ x :: hi /\
    Z.of_nat (length lo) = percentile_index (Z.of_nat (length (rs_perc rs))) n /\
    Forall (fun y => f_leb y x = true) lo /\ Forall (fun y => f_leb x y = true) hi.
Proof.
  intros Hm Hok. destruct (sort_perc_sorted rs Hm) as [Hs Hp]. unfold Percentile.
  assert (length (rs_perc (sort_perc rs)) = length (rs_perc rs)) as -> by (by rewrite Hp).
  unfold percentile_ok, percentile_index in *. set (j := clamp _ _ _) in *.
  rewrite (proj2 (Z.ltb_ge j 0)) by lia.
  destruct (lookup_lt_is_Some_2 (rs_perc (sort_perc rs)) (Z.to_nat j)) as [x Hx]; [rewrite Hp; lia|].
  rewrite Hx. binds. pose proof (take_drop_middle _ _ _ Hx) as E. exists x, (take (Z.to_nat j) (rs_perc (sort_perc rs))),
    (drop (S (Z.to_nat j)) (rs_perc (sort_perc rs))). split; [done|].
  split; [by rewrite E, Hp|]. split; [rewrite length_take, Hp; lia|]. rewrite <- E in Hs. split.
  - apply Forall_forall. intros y Hy. eapply (StronglySorted_app_1_elem_of _ _ _ y x Hs); [done|left].
  - apply StronglySorted_app_1_r in Hs. by apply StronglySorted_cons in Hs as [? _].
Qed.
End Stats.

(** ** The caches hold the samples' aggregates *)

Definition of_hash (h : string) (ms : list smetric) : list smetric := filter (fun m => sm_hash m = h) ms.
Definition of_field (f : string) (ms : list smetric) : list smetric := filter (fun m => sm_field m = f) ms.

Section Caches.
Context {A : Type} (R : list smetric -> A -> Prop).

(** The fields of a series: one for every field of its samples, with their aggregate. *)
Definition fields_as (l : list smetric) (fields : gmap string A) : Prop :=
  forall f, match of_field f l with
  | [] => fields !! f = None
  | l' => exists v, fields !! f = Some v /\ R l' v
  end.

(** A cache: one entry for every series, under name and tags of its first sample. *)
Definition caches_as (ms : list smetric) (c : gmap string (cached A)) : Prop :=
  forall h, match of_hash h ms with
  | [] => c !! h = None
  | (m :: _) as l => exists e, c !! h = Some e /\ ca_name e = sm_name m /\ ca_tags e = sm_tags m /\ fields_as l (ca_fields e)
  end.

Lemma caches_as_empty : caches_as [] ∅.
Proof. intros h. apply lookup_empty. Qed.

Lemma fields_as_entry m ms c : caches_as ms c -> fields_as (of_hash (sm_hash m) ms) (ca_fields (entry m c)).
Proof.
  intros Hc. specialize (Hc (sm_hash m)). unfold entry. destruct (of_hash (sm_hash m) ms) as [|m0 l].
  - rewrite Hc. intros f. apply lookup_empty.
  - by destruct Hc as (e & -> & _ & _ & ?).
Qed.

(** What the cache holds for a new sample's field. *)
Lemma old_field_as m d ms c :
  caches_as ms c ->
  let l := of_field (sm_field m) (of_hash (sm_hash m) ms) in
  (l = [] /\ old_field m d c = d) \/ (l <> [] /\ R l (old_field m d c)).
Proof.
  intros Hc. pose proof (fields_as_entry m ms c Hc (sm_field m)) as Hf. cbn zeta. unfold old_field.
  destruct (of_field (sm_field m) _) as [|m0 l]; [left; by rewrite Hf|right]. by destruct Hf as (v & -> & ?).
Qed.

Lemma with_field_as m v ms c :
  caches_as ms c -> R (of_field (sm_field m) (of_hash (sm_hash m) ms) ++ [m]) v ->
  caches_as (ms ++ [m]) (with_field m v c).
Proof.
  intros Hc Hv h. unfold of_hash. rewrite filter_app, filter_cons, filter_nil. fold (of_hash h ms). unfold with_field.
  destruct (decide (sm_hash m = h)) as [<-|Hh].
  2:{ rewrite lookup_insert_ne, app_nil_r by done. apply Hc. }
  rewrite lookup_insert_eq. pose proof (fields_as_entry m ms c Hc) as Hf.
  assert (fields_as (of_hash (sm_hash m) ms ++ [m]) (<[sm_field m := v]> (ca_fields (entry m c)))) as Hf'.
  { intros f. unfold of_field. rewrite filter_app, filter_cons, filter_nil. fold (of_field f (of_hash (sm_hash m) ms)).
    destruct (decide (sm_field m = f)) as [<-|Hne].
    - rewrite lookup_insert_eq. destruct (_ ++ [m]) as [|m0 l] eqn:E; [by destruct (of_field _ _)|]. by exists v.
    - rewrite lookup_insert_ne, app_nil_r by done. apply Hf. }
  specialize (Hc (sm_hash m)). unfold entry in *. destruct (of_hash (sm_hash m) ms) as [|m0 l].
  - rewrite Hc in *. by eexists.
  - destruct Hc as (e & E & Hn & Ht & _). rewrite E in *. by eexists.
Qed.
End Caches.

(** The aggregate of a field's samples, by type. *)
Definition is_timing (m : smetric) : Prop := mtype m = TTiming \/ mtype m = THistogram.
#[export] Instance is_timing_dec m : Decision (is_timing m).
Proof. unfold is_timing. apply _. Defined.
Notation typed t ms := (filter (fun m => mtype m = t) ms) (only parsing).
Notation timed ms := (filter is_timing ms) (only parsing).

Definition counter_value (l : list smetric) : Z := int64 (foldr (fun m z => intvalue m + z) 0 l).
Definition gauge_value (l : list smetric) : float64 :=
  foldl (fun v m => if additive m then f_add v (floatvalue m) else floatvalue m) f_zero l.
Definition set_value (l : list smetric) : gset string := list_to_set (strvalue <$> l).

Section Aggregates.
Context `{GoSort} `{MapRange} `{FloatConv} {W : Type} `{RandLaws W}.
Implicit Types (s : Statsd) (w : W).

Definition timing_values (l : list smetric) : list float64 := l ≫= fun m => replicate (repeats m) (floatvalue m).

(** The state after samples. *)
Record holds_samples (limit : Z) (ms : list smetric) s : Prop := {
  hs_limit : PercentileLimit s = limit;
  hs_counters : caches_as (fun l v => v = counter_value l) (typed TCounter ms) (counters s);
  hs_gauges : caches_as (fun l v => v = gauge_value l) (typed TGauge ms) (gauges s);
  hs_sets : caches_as (fun l v => v = set_value l) (typed TSet ms) (sets s);
  hs_timings : caches_as (fun l v => stats_or_zero limit (timing_values l) v) (timed ms) (timings s);
}.

Fixpoint aggregate_all (ms : list smetric) s w : option (Statsd * W) :=
  match ms with
  | [] => Some (s, w)
  | m :: ms' => '(s, w) ← aggregate m s w; aggregate_all ms' s w
  end.

(** The timings can be counted, and none is a NaN. *)
Definition countable (ms : list smetric) : Prop :=
  Forall (fun v => f_is_nan v = false) (timing_values (timed ms)) /\
  Z.of_nat (length (timing_values (timed ms))) <= MaxInt64.

Lemma counter_value_snoc l m : int64 (counter_value l + intvalue m) = counter_value (l ++ [m]).
Proof.
  unfold counter_value. rewrite int64_add. f_equal. rewrite foldr_app. cbn.
  induction l as [|m0 l IH]; cbn; lia.
Qed.

Lemma gauge_value_snoc l m :
  (if additive m then f_add (gauge_value l) (floatvalue m) else floatvalue m) = gauge_value (l ++ [m]).
Proof. unfold gauge_value. by rewrite foldl_app. Qed.

Lemma set_value_snoc l m : {[strvalue m]} ∪ set_value l = set_value (l ++ [m]).
Proof. unfold set_value. rewrite fmap_app, list_to_set_app_L. cbn. set_solver. Qed.

Lemma timing_values_app l l' : timing_values (l ++ l') = timing_values l ++ timing_values l'.
Proof. apply bind_app. Qed.

Lemma sublist_timing_values l l' : l `sublist_of` l' -> timing_values l `sublist_of` timing_values l'.
Proof.
  induction 1 as [|m l l' _ IH|m l l' _ IH]; [done|..]; cbn [timing_values mbind list_bind].
  - by apply sublist_app.
  - by apply sublist_inserts_l.
Qed.

(** A field's old value followed by a new sample. *)
Lemma field_values_ok ms m :
  is_timing m -> countable (ms ++ [m]) ->
  let l := of_field (sm_field m) (of_hash (sm_hash m) (timed ms)) in
  Forall (fun v => f_is_nan v = false) (timing_values l ++ replicate (repeats m) (floatvalue m)) /\
  Z.of_nat (length (timing_values l)) + Z.of_nat (length (replicate (repeats m) (floatvalue m))) <= MaxInt64.
Proof.
  intros Ht [Hn Hc] l. rewrite filter_app, filter_cons, decide_True, filter_nil, timing_values_app in Hn, Hc by done.
  assert (timing_values [m] = replicate (repeats m) (floatvalue m)) as E by (unfold timing_values; cbn; by rewrite app_nil_r).
  rewrite E in Hn, Hc.
  assert (timing_values l `sublist_of` timing_values (timed ms)) as Hs.
  { apply sublist_timing_values. unfold l, of_field, of_hash. etrans; apply sublist_filter. }
  split.
  - apply Forall_app in Hn as [Hn1 Hn2]. apply Forall_app. split; [|done].
    rewrite Forall_forall in Hn1 |- *. intros x Hx. apply Hn1. by eapply elem_of_sublist.
  - rewrite length_app in Hc. apply sublist_length in Hs. lia.
Qed.

Lemma aggregate_holds limit ms m s w :
  0 <= limit -> holds_samples limit ms s -> countable (ms ++ [m]) ->
  exists s' w', aggregate m s w = Some (s', w') /\ holds_samples limit (ms ++ [m]) s'.
Proof.
  intros Hl [Hlim Hc Hg Hs Ht] Hok. unfold aggregate.
  assert (forall t, mtype m <> t -> typed t (ms ++ [m]) = typed t ms) as Hout.
  { intros t Hne. by rewrite filter_app, filter_cons, decide_False, filter_nil, app_nil_r. }
  assert (typed (mtype m) (ms ++ [m]) = typed (mtype m) ms ++ [m]) as Hin.
  { by rewrite filter_app, filter_cons, decide_True, filter_nil. }
  assert (~ is_timing m -> timed (ms ++ [m]) = timed ms) as Hto.
  { intros Hne. by rewrite filter_app, filter_cons, decide_False, filter_nil, app_nil_r. }
  assert (is_timing m -> exists s' w', ('(rs, w1) ← add_values (repeats m) (floatvalue m)
      (old_field m (zeroStats (PercentileLimit s)) (timings s)) w;
      Some (set_caches (gauges s) (counters s) (sets s) (with_field m rs (timings s)) s, w1)) = Some (s', w') /\
      holds_samples limit (ms ++ [m]) s') as Htime.
  { intros Hm. rewrite Hlim, add_values_list. destruct (field_values_ok ms m Hm Hok) as [F1 F2].
    destruct (add_list_stats limit (replicate (repeats m) (floatvalue m))
      (timing_values (of_field (sm_field m) (of_hash (sm_hash m) (timed ms)))) (old_field m (zeroStats limit) (timings s)) w Hl)
      as (rs & w1 & -> & Hrs); [|done|done|].
    { destruct (old_field_as _ m (zeroStats limit) _ _ Ht) as [[E1 E2]|[_ E]]; [|exact E]. rewrite E2, E1. left. done. }
    binds. eexists _, w1. split; [done|]. constructor; cbn; [done|..].
    - rewrite Hout; [done|]. destruct Hm as [-> | ->]; done.
    - rewrite Hout; [done|]. destruct Hm as [-> | ->]; done.
    - rewrite Hout; [done|]. destruct Hm as [-> | ->]; done.
    - rewrite filter_app, filter_cons, decide_True, filter_nil by done. apply with_field_as; [done|].
      rewrite timing_values_app. unfold timing_values at 2. cbn [mbind list_bind]. by rewrite app_nil_r. }
  destruct (mtype m) eqn:Em.
  - eexists _, w. split; [done|]. constructor; cbn; [done|by rewrite Hout| |by rewrite Hout|].
    + rewrite Hin. apply with_field_as; [done|]. rewrite <- gauge_value_snoc.
      by destruct (old_field_as _ m f_zero _ _ Hg) as [[-> ->]|[_ ->]].
    + rewrite Hto; [done|]. unfold is_timing. rewrite Em. intros [?|?]; done.
  - eexists _, w. split; [done|]. constructor; cbn; [done| |by rewrite Hout|by rewrite Hout|].
    + rewrite Hin. apply with_field_as; [done|]. rewrite <- counter_value_snoc.
      by destruct (old_field_as _ m 0 _ _ Hc) as [[-> ->]|[_ ->]].
    + rewrite Hto; [done|]. unfold is_timing. rewrite Em. intros [?|?]; done.
  - eexists _, w. split; [done|]. constructor; cbn; [done|by rewrite Hout|by rewrite Hout| |].
    + rewrite Hin. apply with_field_as; [done|]. rewrite <- set_value_snoc.
      by destruct (old_field_as _ m ∅ _ _ Hs) as [[-> ->]|[_ ->]].
    + rewrite Hto; [done|]. unfold is_timing. rewrite Em. intros [?|?]; done.
  - apply Htime. by left.
  - apply Htime. by right.
Qed.

Lemma countable_prefix ms ms' : countable (ms ++ ms') -> countable ms.
Proof.
  intros [Hn Hc]. rewrite filter_app, timing_values_app in Hn, Hc. split.
  - by apply Forall_app in Hn as [? _].
  - rewrite length_app in Hc. lia.
Qed.

Lemma aggregate_all_holds limit ms ms0 s w :
  0 <= limit -> holds_samples limit ms0 s -> countable (ms0 ++ ms) ->
  exists s' w', aggregate_all ms s w = Some (s', w') /\ holds_samples limit (ms0 ++ ms) s'.
Proof.
  intros Hl. revert ms0 s w. induction ms as [|m ms IH]; intros ms0 s w Hs Hok; cbn [aggregate_all].
  { rewrite app_nil_r. by exists s, w. }
  rewrite (cons_middle m ms0 ms), app_assoc in *.
  destruct (aggregate_holds limit ms0 m s w Hl Hs) as (s1 & w1 & -> & Hs1); [by eapply countable_prefix|].
  binds. by apply IH.
Qed.

(** ** What is gathered *)

(** The calls made for a cache: one for every series of the samples, in some order, under
    name and tags of the series' first sample, with fields that the samples determine. *)
Definition reports (F : list smetric -> gmap string GoVal -> Prop) (tp : ValueType) (now : Z)
    (ms : list smetric) (calls : list AccCall) : Prop :=
  exists hs, NoDup hs /\ (forall h, h ∈ hs <-> h ∈ sm_hash <$> ms) /\
    Forall2 (fun h call => exists m l fields, of_hash h ms = m :: l /\
      call = CallFields (sm_name m) fields (sm_tags m) tp (Some now) /\ F (m :: l) fields) hs calls.

Lemma of_hash_nonempty h ms : of_hash h ms <> [] <-> h ∈ sm_hash <$> ms.
Proof.
  split.
  - intros Hne. destruct (of_hash h ms) as [|m l] eqn:E; [done|].
    assert (m ∈ of_hash h ms) as Hm by (rewrite E; left). apply list_elem_of_filter in Hm as [<- Hm].
    by apply (list_elem_of_fmap_2 sm_hash).
  - intros (m & -> & Hm)%list_elem_of_fmap E.
    assert (m ∈ of_hash (sm_hash m) ms) as Hin by (by apply list_elem_of_filter). rewrite E in Hin. by apply elem_of_nil in Hin.
Qed.

Lemma caches_as_dom {A} (R : list smetric -> A -> Prop) ms c h :
  caches_as R ms c -> h ∈ (range_map c).*1 <-> h ∈ sm_hash <$> ms.
Proof.
  intros Hc. rewrite <- of_hash_nonempty. specialize (Hc h). split.
  - intros ([h' e] & -> & Hin%range_map_elem)%list_elem_of_fmap E. cbn [fst] in *. rewrite E, Hin in Hc. done.
  - intros Hne. destruct (of_hash h ms) as [|m l]; [done|]. destruct Hc as (e & He & _).
    apply range_map_elem in He. by apply (list_elem_of_fmap_2 fst) in He.
Qed.

Lemma cache_reports {A} (R : list smetric -> A -> Prop) F tp now ms c calls :
  caches_as R ms c ->
  Forall2 (fun hm call => exists fields, call = CallFields (ca_name hm.2) fields (ca_tags hm.2) tp (Some now) /\
    forall m l, fields_as R (m :: l) (ca_fields hm.2) -> of_hash hm.1 ms = m :: l -> F (m :: l) fields) (range_map c) calls ->
  reports F tp now ms calls.
Proof.
  intros Hc Hf. exists (range_map c).*1. split; [apply range_map_NoDup|]. split; [intros h; by apply caches_as_dom with R|].
  apply Forall2_fmap_l. apply Forall2_same_length_lookup in Hf as [Hlen Hf]. apply Forall2_same_length_lookup_2; [done|].
  intros i [h e] call Hi Hcall. destruct (Hf i _ _ Hi Hcall) as (fields & -> & HF). cbn in *.
  apply list_elem_of_lookup_2, range_map_elem in Hi. specialize (Hc h). destruct (of_hash h ms) as [|m l] eqn:Eh; [congruence|].
  destruct Hc as (e' & E & Hn & Ht & Hfs). rewrite Hi in E. injection E as <-. exists m, l, fields. rewrite Hn, Ht. auto.
Qed.

Lemma gather_cached_reports {A} (R : list smetric -> A -> Prop) (value : A -> GoVal) tp now ms c :
  caches_as R ms c ->
  reports (fields_as (fun l g => exists v, R l v /\ g = value v)) tp now ms (gather_cached value tp now c).
Proof.
  intros Hc. eapply cache_reports; [exact Hc|]. unfold gather_cached. apply Forall2_fmap_r, Forall_Forall2_diag, Forall_true.
  intros [h e]. eexists. split; [done|]. intros m l Hl _ f. specialize (Hl f). cbn [snd] in *. rewrite lookup_fmap.
  destruct (of_field f (m :: l)); [by rewrite Hl|]. destruct Hl as (v & -> & Hv). cbn. eauto.
Qed.

(** *** Timings *)

(** Statistics whose percentiles can be read. *)
Definition readable (ps : list float64) (rs : RunningStats) : Prop :=
  marked rs /\ Forall (percentile_ok (Z.of_nat (length (rs_perc rs)))) ps.

Lemma percentile_name_long prefix p : (11 <= String.length (prefix +:+ FormatFloat_g p +:+ "_percentile"))%nat.
Proof. rewrite !str_length_app. cbn. lia. Qed.

(** The percentiles are added; shorter names keep their values. *)
Lemma percentile_fields_total prefix ps rs fields :
  readable ps rs ->
  exists fields' rs', percentile_fields prefix ps rs fields = Some (fields', rs') /\
    forall k, (String.length k < 11)%nat -> fields' !! k = fields !! k.
Proof.
  revert rs fields. induction ps as [|p ps IH]; intros rs fields [Hm Hp]; cbn [percentile_fields].
  { exists fields, rs. by split. }
  apply Forall_cons in Hp as [Hp Hps]. destruct (Percentile_rank p rs Hm Hp) as (x & lo & hi & -> & _). binds.
  destruct (IH (sort_perc rs) (<[prefix +:+ FormatFloat_g p +:+ "_percentile" := GoScalar (SFloat64 x)]> fields))
    as (fields' & rs' & -> & Hk).
  - destruct (sort_perc_sorted rs Hm) as [_ Hperm]. split; [by apply sort_perc_marked|]. by rewrite Hperm.
  - exists fields', rs'. split; [done|]. intros k Hlen. rewrite Hk by done. apply lookup_insert_ne. intros <-.
    pose proof (percentile_name_long prefix p). lia.
Qed.

Lemma timing_fields_total ps l fields cache :
  Forall (fun frs => readable ps frs.2) l -> is_Some (timing_fields ps l fields cache).
Proof.
  intros Hl. revert fields cache. induction Hl as [|[f rs] l Hr _ IH]; intros fields cache; cbn [timing_fields]; [by eexists|].
  unfold stat_fields. edestruct percentile_fields_total as (fields' & rs' & -> & _); [exact Hr|]. binds. apply IH.
Qed.

(** What is reported of a series with the default field only. *)
Definition timing_report (vs : list float64) (fields : gmap string GoVal) : Prop :=
  fields !! "count" = Some (GoScalar (SInt64 (Z.of_nat (length vs)))) /\
  fields !! "sum" = Some (flt (foldl f_add f_zero vs)) /\
  exists lower upper, fields !! "lower" = Some (flt lower) /\ fields !! "upper" = Some (flt upper) /\ bounds_of vs lower upper.

Lemma timing_fields_value limit ps rs vs fields cache cache' :
  readable ps rs -> stats_of limit vs rs ->
  timing_fields ps (range_map {["value" := rs]}) ∅ cache = Some (fields, cache') -> timing_report vs fields.
Proof.
  intros Hr Hs. rewrite range_map_singleton. cbn [timing_fields]. unfold stat_fields. rewrite decide_False by (intros E; by apply E).
  edestruct percentile_fields_total as (fields' & rs' & -> & Hk); [exact Hr|]. binds. intros [= <- _].
  destruct Hs as [Hn _ Hsum Hb _ _ _ _]. unfold timing_report.
  change (EmptyString +:+ ?k) with k in Hk. rewrite !Hk by (cbn; lia). rewrite <- Hsum, <- Hn.
  split; [done|]. split; [done|]. by exists (rs_lower rs), (rs_upper rs).
Qed.

Lemma gather_timings_calls ps now l cache :
  Forall (fun hm => Forall (fun frs => readable ps frs.2) (range_map (ca_fields hm.2))) l ->
  exists calls cache', gather_timings ps now l cache = Some (calls, cache') /\
    Forall2 (fun hm call => exists fields fs, call = CallFields (ca_name hm.2) fields (ca_tags hm.2) Untyped (Some now) /\
      timing_fields ps (range_map (ca_fields hm.2)) ∅ (ca_fields hm.2) = Some (fields, fs)) l calls.
Proof.
  intros Hl. revert cache. induction Hl as [|[h m] l Hm _ IH]; intros cache; cbn [gather_timings].
  { eexists [], _. split; [done|constructor]. }
  cbn [snd] in Hm. destruct (timing_fields_total ps (range_map (ca_fields m)) ∅ (ca_fields m) Hm) as [[fields fs] E].
  rewrite E. binds. destruct (IH (<[h := mkCached (ca_name m) fs (ca_tags m)]> cache)) as (calls & cache' & -> & Hc). binds.
  eexists (_ :: calls), cache'. split; [done|]. constructor; [|done]. by exists fields, fs.
Qed.

(** Every timing counts at least once, and the percentiles of as many values as are kept can be read. *)
Definition gatherable limit (ps : list float64) (ms : list smetric) : Prop :=
  Forall (fun m => is_timing m -> (1 <= repeats m)%nat) ms /\
  forall len p, p ∈ ps -> 0 < len <= limit_of limit -> percentile_ok len p.

Lemma timing_values_elem m l x : m ∈ l -> (1 <= repeats m)%nat -> x ∈ replicate (repeats m) (floatvalue m) -> x ∈ timing_values l.
Proof. intros Hm _ Hx. apply list_elem_of_bind. by exists m. Qed.

Lemma stats_readable limit ps ms l rs :
  0 <= limit -> gatherable limit ps ms -> countable ms -> l `sublist_of` timed ms -> l <> [] ->
  stats_or_zero limit (timing_values l) rs -> readable ps rs /\ stats_of limit (timing_values l) rs.
Proof.
  intros Hl [Hrep Hps] [Hnan _] Hsub Hne Hs.
  assert (timing_values l <> []) as Hvs.
  { destruct l as [|m l]; [done|]. assert (m ∈ timed ms) as [Ht Hm]%list_elem_of_filter by (eapply elem_of_sublist; [left|done]).
    rewrite Forall_forall in Hrep. specialize (Hrep m Hm Ht). unfold timing_values. cbn [mbind list_bind].
    destruct (repeats m); [lia|done]. }
  destruct Hs as [[? _]|[_ Hs]]; [done|]. split; [|done]. pose proof Hs as [Hn Hlim _ _ Hperc Hlen _ Hso]. split.
  - split; [|by rewrite Hso]. apply Forall_forall. intros x Hx. rewrite Forall_forall in Hnan. apply Hnan.
    eapply elem_of_sublist; [by apply Hperc|]. by apply sublist_timing_values.
  - apply Forall_forall. intros p Hp. apply Hps; [done|]. rewrite Hlen. pose proof (limit_of_pos limit Hl).
    destruct (timing_values l); [done|]. cbn [length]. lia.
Qed.

Lemma fields_as_readable limit ps ms l fields :
  0 <= limit -> gatherable limit ps ms -> countable ms -> l `sublist_of` timed ms ->
  fields_as (fun l v => stats_or_zero limit (timing_values l) v) l fields ->
  Forall (fun frs => readable ps frs.2) (range_map fields).
Proof.
  intros Hl Hg Hc Hsub Hf. apply Forall_forall. intros [f rs] Hin%range_map_elem. specialize (Hf f).
  destruct (of_field f l) as [|m l'] eqn:E; [congruence|]. destruct Hf as (v & Ev & Hv). rewrite Hin in Ev. injection Ev as <-.
  eapply (stats_readable limit ps ms (m :: l')); [done..| |done|done]. rewrite <- E. etrans; [apply sublist_filter|done].
Qed.

Lemma of_hash_sub h ms : of_hash h (timed ms) `sublist_of` timed ms.
Proof. apply sublist_filter. Qed.

Lemma fields_as_value {A} (R : list smetric -> A -> Prop) m l fields :
  fields_as R (m :: l) fields -> (forall m', m' ∈ m :: l -> sm_field m' = "value") ->
  exists v, fields = {["value" := v]} /\ R (m :: l) v.
Proof.
  intros Hf Hval. pose proof (Hf "value") as Hv. unfold of_field in Hv.
  rewrite (filter_keeps_all _ (m :: l)) in Hv by exact Hval. destruct Hv as (v & Ev & Hv).
  exists v. split; [|done]. apply map_eq. intros f. destruct (decide (f = "value")) as [->|Hne].
  { by rewrite Ev, lookup_singleton_eq. }
  rewrite lookup_singleton_ne by done. specialize (Hf f). destruct (of_field f (m :: l)) as [|m' l'] eqn:E; [done|].
  assert (m' ∈ of_field f (m :: l)) as [<- Hin]%list_elem_of_filter by (rewrite E; left). by destruct Hne; rewrite Hval.
Qed.

Lemma gather_timings_reports limit ps now ms c :
  0 <= limit -> gatherable limit ps ms -> countable ms ->
  caches_as (fun l v => stats_or_zero limit (timing_values l) v) (timed ms) c ->
  exists calls c', gather_timings ps now (range_map c) c = Some (calls, c') /\
    reports (fun l fields => (forall m, m ∈ l -> sm_field m = "value") -> timing_report (timing_values l) fields)
      Untyped now (timed ms) calls.
Proof.
  intros Hl Hg Hc Hcache. destruct (gather_timings_calls ps now (range_map c) c) as (calls & c' & E & Hcalls).
  { apply Forall_forall. intros [h e] Hin%range_map_elem. specialize (Hcache h).
    pose proof (of_hash_sub h ms) as Hsub. destruct (of_hash h (timed ms)) as [|m l]; [congruence|].
    destruct Hcache as (e' & E & _ & _ & Hf). rewrite Hin in E. injection E as <-. by eapply fields_as_readable. }
  exists calls, c'. split; [done|]. eapply cache_reports; [exact Hcache|]. eapply Forall2_impl; [exact Hcalls|].
  intros [h e] call (fields & fs & -> & Et). exists fields. split; [done|]. cbn [fst snd] in *. intros m l Hf El Hval.
  pose proof (of_hash_sub h ms) as Hsub. rewrite El in Hsub. destruct (fields_as_value _ m l _ Hf Hval) as (rs & Erest & Hrs).
  rewrite Erest in Et. destruct (stats_readable limit ps ms (m :: l) rs) as [Hread Hst]; [done..|].
  by eapply timing_fields_value.
Qed.

(** Aggregation leaves the configuration. *)
Lemma aggregate_all_config ms s w s' w' :
  aggregate_all ms s w = Some (s', w') -> s' = set_caches (gauges s') (counters s') (sets s') (timings s') s.
Proof.
  revert s w. induction ms as [|m ms IH]; intros s w; cbn [aggregate_all]; [intros [= <- <-]; by destruct s|].
  destruct (aggregate m s w) as [[s1 w1]|] eqn:E; [|done]. binds. intros Hr. rewrite (IH _ _ Hr).
  revert E. unfold aggregate. destruct (mtype m); try (intros [= <- _]; done).
  - destruct (add_values _ _ _ w) as [[rs w2]|]; [|done]. binds. by intros [= <- _].
  - destruct (add_values _ _ _ w) as [[rs w2]|]; [|done]. binds. by intros [= <- _].
Qed.

Lemma reports_value {A} (val : list smetric -> A) (value : A -> GoVal) tp now ms calls :
  reports (fields_as (fun l g => exists v, v = val l /\ g = value v)) tp now ms calls ->
  reports (fields_as (fun l g => g = value (val l))) tp now ms calls.
Proof.
  intros (hs & Hn & Hi & Hf). exists hs. split; [done|]. split; [done|]. eapply Forall2_impl; [exact Hf|].
  intros h call (m & l & fields & E1 & E2 & HF). exists m, l, fields. split; [done|]. split; [done|].
  intros f. specialize (HF f). destruct (of_field f (m :: l)); [done|]. by destruct HF as (g & Eg & v & -> & ->); exists (value (val (s :: l0))).
Qed.

Lemma holds_nothing s :
  counters s = ∅ -> gauges s = ∅ -> sets s = ∅ -> timings s = ∅ -> holds_samples (PercentileLimit s) [] s.
Proof. intros E1 E2 E3 E4. constructor; [done|..]; rewrite ?E1, ?E2, ?E3, ?E4; apply caches_as_empty. Qed.

(** C15: The statsd caches implement an aggregation of samples. Whatever samples come after a
    start with empty caches, as long as timings are numbers that count at least once and percentiles
    can be read: aggregation and [Gather] return, and the calls made are, for each of the four kinds,
    one call per series (a hash), under name and tags of its first sample, whose fields are
    exactly those of its samples: for counters the sum of the values (at 64 bits), for gauges the last
    value set with the changes since, for sets the number of distinct texts, and for timings of the
    default field count, sum and bounds of the values, each as often as its sample rate says.
    Caches whose option says so are empty afterwards, the others of counters, gauges and sets unchanged. *)
Theorem Statsd_aggregates ms s w (now : Z)
    (Hc : counters s = ∅) (Hg : gauges s = ∅) (Hs : sets s = ∅) (Ht : timings s = ∅)
    (Hl : 0 <= PercentileLimit s) (Hok : countable ms) (Hgather : gatherable (PercentileLimit s) (Percentiles s) ms) :
  exists s1 w1 s2 tcalls gcalls ccalls scalls,
    aggregate_all ms s w = Some (s1, w1) /\ Gather now s1 = Some (tcalls ++ gcalls ++ ccalls ++ scalls, s2) /\
    reports (fun l fields => (forall m, m ∈ l -> sm_field m = "value") -> timing_report (timing_values l) fields)
      Untyped now (timed ms) tcalls /\
    reports (fields_as (fun l g => g = flt (gauge_value l))) Gauge now (typed TGauge ms) gcalls /\
    reports (fields_as (fun l g => g = GoScalar (SInt64 (counter_value l)))) Counter now (typed TCounter ms) ccalls /\
    reports (fields_as (fun l g => g = GoScalar (SInt64 (Z.of_nat (size (set_value l)))))) Untyped now (typed TSet ms) scalls /\
    counters s2 = (if DeleteCounters s then ∅ else counters s1) /\ gauges s2 = (if DeleteGauges s then ∅ else gauges s1) /\
    sets s2 = (if DeleteSets s then ∅ else sets s1) /\ (DeleteTimings s = true -> timings s2 = ∅).
Proof.
  destruct (aggregate_all_holds (PercentileLimit s) ms [] s w Hl) as (s1 & w1 & E1 & Hh); [by apply holds_nothing|done|].
  cbn [app] in Hh. pose proof (aggregate_all_config ms s w s1 w1 E1) as Ecfg.
  assert (Percentiles s1 = Percentiles s) as Ep by (by rewrite Ecfg). rewrite <- Ep in Hgather.
  destruct Hh as [_ Hhc Hhg Hhs Hht].
  destruct (gather_timings_reports (PercentileLimit s) (Percentiles s1) now ms (timings s1) Hl Hgather Hok Hht) as (tcalls & c' & Et & Hrt).
  exists s1, w1. unfold Gather. rewrite Et. binds. eexists _, tcalls, _, _, _. split; [done|]. split; [reflexivity|].
  split; [done|]. split; [by apply (reports_value gauge_value flt), gather_cached_reports|].
  split; [by apply (reports_value counter_value (fun z => GoScalar (SInt64 z))), gather_cached_reports|].
  split; [by apply (reports_value set_value (fun st => GoScalar (SInt64 (Z.of_nat (size st))))), gather_cached_reports|].
  cbn. rewrite Ecfg. cbn. split; [done|]. split; [done|]. split; [done|]. by intros ->.
Qed.
End Aggregates.

(** Running statistics and percentiles. Adding numbers to new statistics always works; afterwards the
    count is their number, the sum is theirs in order, the bounds are a least and a greatest of them,
    and a percentile is one of them. While there are at most as many as are kept, it is the one at
    the index of its share in ascending order: that many values before it are at most it, the rest at least it. *)
Theorem Statsd_running_stats {W} `{RandLaws W} `{FloatConv} (limit : Z) (vs : list float64) (w : W)
    (Hl : 0 <= limit) (Hne : vs <> []) (Hnan : Forall (fun v => f_is_nan v = false) vs)
    (Hmax : Z.of_nat (length vs) <= MaxInt64) :
  exists rs w', add_list vs (zeroStats limit) w = Some (rs, w') /\
    rs_n rs = Z.of_nat (length vs) /\ rs_sum rs = foldl f_add f_zero vs /\ bounds_of vs (rs_lower rs) (rs_upper rs) /\
    let kept := Z.min (Z.of_nat (length vs)) (limit_of limit) in
    forall p, percentile_ok kept p -> exists x lo hi, Percentile p rs = Some (x, sort_perc rs) /\ x ∈ vs /\
      (Z.of_nat (length vs) <= limit_of limit -> vs ≡ₚ lo ++ x :: hi /\ Z.of_nat (length lo) = percentile_index kept p /\
        Forall (fun y => f_leb y x = true) lo /\ Forall (fun y => f_leb x y = true) hi).
Proof.
  destruct (add_list_stats limit vs [] (zeroStats limit) w Hl) as (rs & w' & E & Hs); [by left|done|cbn; lia|].
  cbn [app] in Hs. destruct Hs as [[? _]|[_ Hs]]; [done|]. pose proof Hs as [Hn Hlim Hsum Hb Hperc Hlen Hall Hso].
  exists rs, w'. split; [done|]. split; [done|]. split; [done|]. split; [done|]. cbn zeta. rewrite <- Hlen. intros p Hp.
  assert (marked rs) as Hm.
  { split; [|by rewrite Hso]. apply Forall_forall. intros x Hx. rewrite Forall_forall in Hnan. by apply Hnan, Hperc. }
  destruct (Percentile_rank p rs Hm Hp) as (x & lo & hi & Ep & Hperm & Hlo & Hbelow & Habove).
  exists x, lo, hi. split; [done|]. split; [apply Hperc; rewrite Hperm; set_solver|]. intros Hle. by rewrite <- (Hall Hle).
Qed.

(** ** Lines of counters *)

(** A word of a bucket's name. *)
Definition plain_word (x : string) : Prop :=
  printable x = true /\ x <> EmptyString /\ Forall (fun c => free_of c x = true) ["."%char; ","%char; ":"%char; "|"%char].

(** The line [name:z|c]. *)
Definition counter_line (ws : list string) (z : Z) : string := Join [Join ws "."; Join [FormatInt z; "c"] "|"] ":".

Section Lines.
Context `{GoSort} `{MapRange} `{FloatConv} {W : Type} `{RandEnv W}.
Implicit Types (s : Statsd) (w : W).

Lemma plain_words_name ws :
  ws <> [] -> Forall plain_word ws ->
  printable (Join ws ".") = true /\ Join ws "." <> EmptyString /\
  free_of ","%char (Join ws ".") = true /\ free_of ":"%char (Join ws ".") = true /\ free_of "|"%char (Join ws ".") = true.
Proof.
  intros Hne Hws.
  assert (forall P : string -> Prop, (forall x, plain_word x -> P x) -> Forall P ws) as Himp
    by (intros P HP; eapply Forall_impl; [exact Hws|exact HP]).
  split; [apply printable_Join; [done|]; apply Himp; by intros x (? & _)|].
  split.
  { destruct ws as [|x ws]; [done|]. apply Join_head_nonempty. apply Forall_cons in Hws as [(_ & ? & _) _]. done. }
  split; [|split]; (apply free_of_Join; [done|]; apply Himp; intros x (_ & _ & Hf); by rewrite !Forall_cons in Hf; destruct Hf as (? & ? & ? & ? & _)).
Qed.

(** The parser without templates, and what it makes of a name. *)
Definition plain_parser (sep : string) : GraphiteParser :=
  mkParser sep [] ∅ (mkEngine sep (newMatcher (Some (mkTemplate "." ["measurement*"] ∅ false true)))).

Lemma NewGraphiteParser_plain sep : sep <> EmptyString -> NewGraphiteParser sep [] ∅ = Some (inl (plain_parser sep)).
Proof.
  intros Hs. unfold NewGraphiteParser. rewrite decide_False by done. unfold NewEngine, parseTemplateSpecs.
  cbn [omap list_omap]. assert (go_sort spec_Less [] = []) as -> by (apply Permutation_nil_r, go_sort_perm). done.
Qed.

Lemma ApplyTemplate_plain sep ws :
  ws <> [] -> Forall plain_word ws -> ApplyTemplate (plain_parser sep) (Join ws ".") = Some (Join ws sep, ∅, EmptyString, None).
Proof.
  intros Hne Hws. destruct (plain_words_name ws Hne Hws) as (Hp & Hn & _). unfold ApplyTemplate.
  change (Strings.Fields (Join ws ".")) with (Strings.Fields (Join [Join ws "."] " ")). rewrite (Fields_Join [Join ws "."]) by (by repeat constructor).
  assert (Split (Join ws ".") "." = ws) as Hsplit.
  { apply Split_Join; [done|]. eapply Forall_impl; [exact Hws|]. intros x (_ & _ & Hf). by apply Forall_cons in Hf as [? _]. }
  assert (Templating.Apply (Join ws ".") (templateEngine (plain_parser sep)) = Some (inl (Join ws sep, ∅, EmptyString))) as ->.
  { assert (forall nm, tmatch nm (e_matcher (templateEngine (plain_parser sep))) = Some (mkTemplate "." ["measurement*"] ∅ false true)) as Hm
      by (intros nm; unfold tmatch, search; cbn; by destruct (explode nm)).
    unfold Templating.Apply. rewrite Hm. binds. unfold Template_Apply. cbn [separator]. rewrite Hsplit.
    destruct ws as [|x ws]; [done|]. reflexivity. }
  binds. cbn [plain_parser DefaultTags]. by rewrite map_empty_union.
Qed.

(** The configuration of a plain statsd input, and a state of it. *)
Definition plain_input s : Prop :=
  DataDogExtensions s = false /\ ConvertNames s = false /\ Templates s = [] /\ MetricSeparator s <> EmptyString /\
  (graphiteParser s = None \/ graphiteParser s = Some (Ready (plain_parser (MetricSeparator s)))).

Lemma parseName_plain ws s :
  plain_input s -> ws <> [] -> Forall plain_word ws ->
  parseName (Join ws ".") s =
    Some (Join ws (MetricSeparator s), "value", Some ∅, set_parser (Some (Ready (plain_parser (MetricSeparator s)))) s).
Proof.
  intros (_ & Hcn & Ht & Hsep & Hp) Hne Hws. destruct (plain_words_name ws Hne Hws) as (_ & _ & Hcomma & _). unfold parseName.
  change (Split (Join ws ".") ",") with (Split (Join [Join ws "."] ",") ",").
  rewrite (Split_Join ","%char [Join ws "."]) by (done || by repeat constructor).
  assert (name_parser s = Some (Ready (plain_parser (MetricSeparator s)), false)) as ->.
  { unfold name_parser, new_parser. rewrite Ht, NewGraphiteParser_plain by done. destruct Hp as [-> | ->]; [done|]. by rewrite decide_True. }
  binds. change (with_default_tags (bucket_tags []) (Ready (plain_parser (MetricSeparator s)))) with (Ready (plain_parser (MetricSeparator s))).
  cbn [apply_parser]. rewrite ApplyTemplate_plain by done. binds. cbn [ConvertNames set_parser]. by rewrite Hcn, decide_True.
Qed.

Lemma parse_bit_counter z :
  MinInt64 <= z <= MaxInt64 ->
  parse_bit (Join [FormatInt z; "c"] "|") =
    inl (TCounter, HasPrefix (FormatInt z) "-" || HasPrefix (FormatInt z) "+", f_zero, (z, f_zero, EmptyString)).
Proof.
  intros Hz. destruct (FormatInt_chars z) as (_ & _ & Hf). unfold parse_bit.
  rewrite (Split_Join "|"%char [FormatInt z; "c"]) by (done || by repeat constructor; apply Hf).
  change (parse_mtype "c") with (Some TCounter). cbn match. rewrite bool_decide_false, bool_decide_true by done.
  rewrite andb_false_r. unfold parse_value. by rewrite ParseInt10_FormatInt.
Qed.

(** A cache with the one counter of a name. *)
Definition counter_tags : gmap string string := {["metric_type" := "counter"]}.
Definition one_counter (nm : string) (v : Z) : gmap string (cached Z) :=
  {[series_hash nm counter_tags := mkCached nm {["value" := v]} counter_tags]}.

Lemma parse_counter_line ws z v s w :
  plain_input s -> ws <> [] -> Forall plain_word ws -> MinInt64 <= z <= MaxInt64 ->
  (counters s = ∅ /\ v = 0) \/ counters s = one_counter (Join ws (MetricSeparator s)) v ->
  parseStatsdLine (counter_line ws z) s w = Some (None,
    set_caches (gauges s) (one_counter (Join ws (MetricSeparator s)) (int64 (v + z))) (sets s) (timings s)
      (set_parser (Some (Ready (plain_parser (MetricSeparator s)))) s), w).
Proof.
  intros Hs Hne Hws Hz Hc. destruct (plain_words_name ws Hne Hws) as (_ & _ & _ & Hcolon & _).
  destruct (FormatInt_chars z) as (_ & _ & Hf). pose proof Hs as (Hdd & _). unfold parseStatsdLine, counter_line. rewrite Hdd.
  rewrite (Split_Join ":"%char [Join ws "."; Join [FormatInt z; "c"] "|"]).
  2:{ done. }
  2:{ repeat constructor; [done|]. apply free_of_Join; [done|]. repeat constructor. by apply Hf. }
  cbn [bits_loop]. rewrite parse_bit_counter, parseName_plain by done. binds.
  rewrite map_empty_union, insert_empty. change {["metric_type" := type_tag TCounter]} with counter_tags.
  unfold aggregate. cbn [mtype intvalue counters set_parser]. binds. do 4 f_equal. unfold with_field, old_field, entry, one_counter.
  cbn [sm_hash sm_name sm_tags sm_field counters set_parser]. destruct Hc as [[-> ->]| ->].
  - rewrite lookup_empty. cbn [default from_option id ca_fields ca_name ca_tags]. by rewrite lookup_empty, !insert_empty.
  - unfold one_counter. rewrite lookup_singleton_eq. cbn [default from_option id ca_fields ca_name ca_tags].
    by rewrite lookup_singleton_eq, !insert_singleton_eq.
Qed.

Lemma counter_line_text ws z :
  ws <> [] -> Forall plain_word ws -> printable (counter_line ws z) = true /\ counter_line ws z <> EmptyString.
Proof.
  intros Hne Hws. destruct (plain_words_name ws Hne Hws) as (Hp & Hn & _). destruct (FormatInt_chars z) as (Hpz & _).
  unfold counter_line. split.
  - apply printable_Join; [done|]. repeat constructor; [done|]. apply printable_Join; [done|]. by repeat constructor.
  - by apply Join_head_nonempty.
Qed.

Lemma packet_counter_lines now addr ws zs v s w :
  plain_input s -> ws <> [] -> Forall plain_word ws -> Forall (fun z => MinInt64 <= z <= MaxInt64) zs ->
  counters s = one_counter (Join ws (MetricSeparator s)) v -> v = int64 v ->
  exists s', packet_lines now addr (counter_line ws <$> zs) s w = Some ([], s', w) /\
    counters s' = one_counter (Join ws (MetricSeparator s)) (int64 (v + foldr Z.add 0 zs)) /\
    gauges s' = gauges s /\ sets s' = sets s /\ timings s' = timings s.
Proof.
  intros Hs Hne Hws Hzs. revert v s Hs. induction Hzs as [|z zs Hz Hzs IH]; intros v s Hs Hc Hv; cbn [fmap list_fmap packet_lines].
  { exists s. cbn [foldr]. rewrite Z.add_0_r, <- Hv. done. }
  destruct (counter_line_text ws z Hne Hws) as [Hp Hn]. rewrite TrimSpace_printable, decide_False by done.
  pose proof Hs as (Hdd & H2' & H3' & H4' & _). rewrite Hdd. cbn [andb].
  rewrite (parse_counter_line ws z v) by (done || by right). binds.
  set (s1 := set_caches _ _ _ _ _). destruct (IH (int64 (v + z)) s1) as (s' & E & Hc' & Hg & Hse & Ht).
  - split_and!; try done. by right.
  - done.
  - symmetry. apply int64_small, int64_range.
  - exists s'. split; [exact E|]. split; [|done]. rewrite Hc'. change (MetricSeparator s1) with (MetricSeparator s).
    f_equal. cbn [foldr]. rewrite int64_add. f_equal. lia.
Qed.
End Lines.

(** C16: Counters end to end. A packet of lines [name:z|c] for one name of plain words and any 64-bit values,
    given to a statsd input without templates that has nothing cached: every line is taken, and the next
    [Gather] makes one call, with the name's words joined by the separator, the tag of the metric type, and the sum of
    the values at 64 bits as the one field. *)
Theorem Statsd_counter_lines `{GoSort} `{MapRange} `{FloatConv} {W} `{RandEnv W} (ws : list string) (z : Z) (zs : list Z)
    (s : Statsd) (w : W) (t now : Z) (addr : string)
    (Hs : plain_input s) (Hne : ws <> []) (Hws : Forall plain_word ws) (Hzs : Forall (fun z => MinInt64 <= z <= MaxInt64) (z :: zs))
    (Hempty : counters s = ∅ /\ gauges s = ∅ /\ sets s = ∅ /\ timings s = ∅) :
  exists s1 s2, parser t addr (Join (counter_line ws <$> z :: zs) newline) s w = Some ([], s1, w) /\
    Gather now s1 = Some ([CallFields (Join ws (MetricSeparator s))
      {["value" := GoScalar (SInt64 (int64 (z + foldr Z.add 0 zs)))]} {["metric_type" := "counter"]} Counter (Some now)], s2).
Proof.
  destruct Hempty as (E1 & E2 & E3 & E4). apply Forall_cons in Hzs as [Hz Hzs]. unfold parser. rewrite (Split_Join (ascii_of_N 10)).
  2:{ done. }
  2:{ apply Forall_forall. intros l (z' & -> & _)%list_elem_of_fmap. destruct (counter_line_text ws z' Hne Hws) as [Hp _].
      by apply printable_free. }
  rewrite fmap_cons. cbn [packet_lines]. destruct (counter_line_text ws z Hne Hws) as [Hp Hn]. rewrite TrimSpace_printable, decide_False by done.
  pose proof Hs as (Hdd & H2' & H3' & H4' & _). rewrite Hdd. cbn [andb].
  rewrite (parse_counter_line ws z 0) by (done || by left). binds.
  set (s0 := set_caches _ _ _ _ _).
  destruct (packet_counter_lines t addr ws zs (int64 (0 + z)) s0 w) as (s1 & E & Hc & Hg & Hse & Ht);
    [|done|done|done|done|symmetry; apply int64_small, int64_range|].
  { split_and!; try done. by right. }
  rewrite E. exists s1. unfold Gather. cbn in Hg, Hse, Ht, Hc. rewrite Hc, Hg, Hse, Ht, E2, E3, E4. unfold gather_cached, one_counter.
  rewrite !range_map_empty, range_map_singleton. cbn [gather_timings]. binds. eexists. split; [done|]. do 2 f_equal.
  cbn. rewrite map_fmap_singleton. by rewrite int64_add.
Qed.

(** ** Events *)

Lemma slice_Some x lo hi :
  0 <= lo <= hi -> hi <= Z.of_nat (String.length x) -> slice x lo hi = Some (String.substring (Z.to_nat lo) (Z.to_nat (hi - lo)) x).
Proof.
  intros [H1 H2] H3. unfold slice.
  by rewrite (proj2 (Z.leb_le _ _) H1), (proj2 (Z.leb_le _ _) H2), (proj2 (Z.leb_le _ _) H3).
Qed.
Lemma slice_None x lo hi : ~ (0 <= lo <= hi /\ hi <= Z.of_nat (String.length x)) -> slice x lo hi = None.
Proof.
  intros Hn. unfold slice. destruct (_ && _) eqn:E; [|done]. rewrite !andb_true_iff, !Z.leb_le in E. tauto.
Qed.

(** The part between two texts. *)
Lemma slice_middle a b c :
  slice (a +:+ b +:+ c) (Z.of_nat (String.length a)) (Z.of_nat (String.length a) + Z.of_nat (String.length b)) = Some b.
Proof.
  rewrite slice_Some by (rewrite ?str_length_app; lia). rewrite Nat2Z.id, substring_app_r.
  replace (Z.to_nat _) with (String.length b) by lia. by rewrite substring_app_l.
Qed.

(** The text of an event. *)
Definition event_header (title text : string) : string :=
  "_e{" +:+ FormatInt (Z.of_nat (String.length title)) +:+ "," +:+ FormatInt (Z.of_nat (String.length text)) +:+ "}".
Definition event_text (title text : string) : string := event_header title text +:+ ":" +:+ title +:+ "|" +:+ text.

Lemma event_lengths_header title text :
  Z.of_nat (String.length title) <= MaxInt64 -> Z.of_nat (String.length text) <= MaxInt64 ->
  event_lengths (event_header title text) = inl (Z.of_nat (String.length title), Z.of_nat (String.length text)).
Proof.
  intros H1 H2. unfold event_lengths, event_header.
  set (a := FormatInt (Z.of_nat (String.length title))). set (b := FormatInt (Z.of_nat (String.length text))).
  destruct (FormatInt_chars (Z.of_nat (String.length title))) as (_ & _ & Hf). fold a in Hf.
  assert (forall x, str_drop 3 ("_e{" +:+ x) = x) as Hdrop.
  { intros x. change ("_e{" +:+ x) with (String "_" (String "e" (String "{" x))). unfold str_drop.
    change (String.substring 3 ?n (String "_" (String "e" (String "{" x)))) with (String.substring 0 n x).
    cbn [String.length]. rewrite !Nat.sub_succ, Nat.sub_0_r. apply substring_all. }
  rewrite Hdrop. change ("," +:+ ?x) with (String ","%char x). rewrite cut_at_free by (by apply Hf).
  unfold a at 1. rewrite ParseInt10_FormatInt by (unfold MinInt64, MaxInt64 in *; lia).
  rewrite decide_False by (destruct (FormatInt_chars (Z.of_nat (String.length text))) as (_ & ? & _); by apply str_app_nonempty).
  replace (pred (String.length (b +:+ "}"))) with (String.length b) by (rewrite str_length_app; cbn; lia).
  unfold str_take. rewrite substring_app_l. unfold b. by rewrite ParseInt10_FormatInt by (unfold MinInt64, MaxInt64 in *; lia).
Qed.

Lemma str_length_nonempty x : x <> EmptyString -> (1 <= String.length x)%nat.
Proof. destruct x; [done|]. cbn. lia. Qed.

Lemma cut_event_text title text : cut_at ":" (event_text title text) = Some (event_header title text, title +:+ "|" +:+ text).
Proof.
  unfold event_text. change (":" +:+ ?x) with (String ":"%char x). apply cut_at_free. unfold event_header.
  destruct (FormatInt_chars (Z.of_nat (String.length title))) as (_ & _ & Hf1).
  destruct (FormatInt_chars (Z.of_nat (String.length text))) as (_ & _ & Hf2).
  by rewrite !free_of_app, Hf1, Hf2.
Qed.

Lemma event_header_long title text : (7 <= String.length (event_header title text))%nat.
Proof.
  unfold event_header. rewrite !str_length_app. cbn [String.length].
  destruct (FormatInt_chars (Z.of_nat (String.length title))) as (_ & Hn1 & _).
  destruct (FormatInt_chars (Z.of_nat (String.length text))) as (_ & Hn2 & _).
  apply str_length_nonempty in Hn1, Hn2. lia.
Qed.

(** Events round trip. The text of an event, the lengths of title and text before them as the
    protocol has it, is parsed as exactly one call: the title is the name, the text is the field "text" with escaped line ends
    restored, kind and priority have their defaults, and the sender is the source. *)
Theorem Statsd_event_roundtrip (title text host : string) (now : Z)
    (Ht : title <> EmptyString) (Hx : text <> EmptyString)
    (Hlen : Z.of_nat (String.length title) + Z.of_nat (String.length text) + 1 <= MaxInt64) :
  parseEventMessage now (event_text title text) host = Some (inl (CallFields title
    {["alert_type" := str "info"; "text" := str (ReplaceAll text "\n" newline); "priority" := str "normal"]}
    (if decide (host <> EmptyString) then {["source" := host]} else ∅) Untyped (Some now))).
Proof.
  unfold parseEventMessage. rewrite cut_event_text.
  pose proof (event_header_long title text). pose proof (str_length_nonempty _ Ht). pose proof (str_length_nonempty _ Hx).
  assert (String.length (title +:+ "|" +:+ text) = String.length title + 1 + String.length text)%nat as Hl
    by (rewrite !str_length_app; cbn; lia).
  rewrite (proj2 (Nat.ltb_ge (String.length (event_header title text)) 7)), (proj2 (Nat.ltb_ge (String.length (title +:+ _)) 3)) by lia.
  cbn [orb]. rewrite event_lengths_header by lia. unfold MaxInt64 in Hlen.
  rewrite !int64_small by (unfold MinInt64, MaxInt64; rewrite ?int64_small by (unfold MinInt64, MaxInt64; lia); lia).
  rewrite (proj2 (Z.ltb_ge _ _)) by lia. cbn zeta.
  assert (slice (title +:+ "|" +:+ text) 0 (Z.of_nat (String.length title)) = Some title) as -> by apply (slice_middle EmptyString).
  assert (slice (title +:+ "|" +:+ text) (Z.of_nat (String.length title) + 1)
    (Z.of_nat (String.length title) + 1 + Z.of_nat (String.length text)) = Some text) as ->.
  { rewrite <- (str_app_nil_r text) at 1. rewrite <- str_app_assoc.
    replace (Z.of_nat (String.length title) + 1) with (Z.of_nat (String.length (title +:+ "|"))) by (rewrite str_length_app; cbn; lia).
    apply slice_middle. }
  rewrite Hl, slice_Some by lia. binds. rewrite decide_False by (intros [?|?]; done).
  replace (Z.to_nat (_ - _)) with 0%nat by lia.
  assert (forall n x, String.length (String.substring n 0 x) = 0%nat) as -> by (induction n; destruct x; cbn; auto). done.
Qed.

(** When an event makes the input panic. For a message with a readable header whose lengths add up without overflow,
    the parser slices out of range, and takes the agent down, exactly when a length is negative and the lengths
    still fit the message: the check is on their sum only. *)
Theorem Statsd_event_panics (message header body host : string) (a b now : Z)
    (Hcut : cut_at ":" message = Some (header, body)) (Hh : (7 <= String.length header)%nat) (Hb : (3 <= String.length body)%nat)
    (Hlen : event_lengths header = inl (a, b))
    (Ha : MinInt64 <= a /\ a + 1 <= MaxInt64) (Hab : MinInt64 <= a + b /\ a + b + 1 <= MaxInt64) :
  parseEventMessage now message host = None <->
  a + b + 1 <= Z.of_nat (String.length body) /\ (a < 0 \/ b < 0).
Proof.
  unfold parseEventMessage. rewrite Hcut.
  rewrite (proj2 (Nat.ltb_ge (String.length header) 7)), (proj2 (Nat.ltb_ge (String.length body) 3)) by lia.
  cbn [orb]. rewrite Hlen. rewrite (int64_small (a + b)), (int64_small (a + b + 1)), (int64_small (a + 1)) by lia.
  rewrite (int64_small (a + 1 + b)) by lia. destruct (Z.ltb_spec (Z.of_nat (String.length body)) (a + b + 1)) as [Hlt|Hge].
  { split; [done|lia]. }
  cbn zeta. destruct (decide (0 <= a /\ 0 <= b)) as [[H1 H2]|Hneg].
  - rewrite !slice_Some by lia. binds. split; [|lia]. case_decide; [done|]. destruct (_ <? 2)%nat; [done|].
    by destruct (metadata_loop _ _) as [[??]|].
  - split; [intros _; lia|]. intros _. destruct (slice body 0 a) as [t|] eqn:E; [|done]. binds.
    rewrite (slice_None body (a + 1)); [done|]. destruct (decide (0 <= a)); [lia|]. rewrite slice_None in E by lia. done.
Qed.

(** ** An instance *)

#[local] Existing Instance ex_conv.
#[local] Existing Instance map_range_default.
#[local] Existing Instance insertion_go_sort.
#[export] Instance first_rand : RandEnv unit := fun _ w => (0, w).
#[export] Instance first_rand_laws : RandLaws unit.
Proof. intros n w Hn. cbn. lia. Qed.

Definition ex_statsd (ps : list float64) : Statsd := mkStatsd ps 2 true true true true false "_" false [] ∅ ∅ ∅ ∅ None.
Definition ex_sample (h : string) (i : Z) (f : float64) (v : string) (t : MType) (rate : float64) : smetric :=
  mkSM h "value" h i f v t false rate {["metric_type" := type_tag t]}.
Definition ex_samples : list smetric :=
  [ex_sample "a" 5 f_zero EmptyString TCounter f_zero; ex_sample "t" 0 (f_of_Z 3) EmptyString TTiming (f_frac 1 2);
   ex_sample "a" (-2) f_zero EmptyString TCounter f_zero; ex_sample "g" 0 f_one EmptyString TGauge f_zero;
   ex_sample "u" 0 f_zero "x" TSet f_zero; ex_sample "t" 0 f_one EmptyString TTiming f_zero].

Lemma Statsd_aggregates_witness :
  exists s1 w1 calls s2, aggregate_all ex_samples (ex_statsd [f_of_Z 50]) tt = Some (s1, w1) /\
    Gather 9 s1 = Some (calls, s2) /\ counters s2 = ∅.
Proof.
  destruct (Statsd_aggregates ex_samples (ex_statsd [f_of_Z 50]) tt 9)
    as (s1 & w1 & s2 & tc & gc & cc & sc & E1 & E2 & _ & _ & _ & _ & E3 & _);
    [reflexivity|reflexivity|reflexivity|reflexivity|vm_compute; discriminate| | |].
  - split; [vm_compute; repeat constructor|vm_compute; discriminate].
  - split.
    + repeat constructor; intros _; vm_compute; lia.
    + intros len p Hp Hlen. apply list_elem_of_singleton in Hp as ->. change (limit_of _) with 2 in Hlen.
      assert (len = 1 \/ len = 2) as [-> | ->] by lia; split; [vm_compute; discriminate|reflexivity|vm_compute; discriminate|reflexivity].
  - exists s1, w1, (tc ++ gc ++ cc ++ sc), s2. split; [exact E1|]. split; [exact E2|]. exact E3.
Defined.

Lemma gather_ex :
  match aggregate_all ex_samples (ex_statsd []) tt with
  | Some (s, _) =>
    match Gather 9 s with
    | Some (calls, _) =>
      omap (fun c => match c with CallFields n fs _ tp _ => Some (n, tp, fs !! "value", fs !! "count") | _ => None end) calls
    | None => []
    end
  | None => []
  end = [("t", Untyped, None, Some (GoScalar (SInt64 3))); ("g", Gauge, Some (flt f_one), None);
    ("a", Counter, Some (GoScalar (SInt64 3)), None); ("u", Untyped, Some (GoScalar (SInt64 1)), None)].
Proof. vm_compute. reflexivity. Qed.

(** A timing with a sample rate above one counts no times, and its percentiles make [Gather] panic. *)
Lemma rate_above_one_panics :
  match parseStatsdLine "t:5|ms|@2" (ex_statsd [f_of_Z 50]) tt with
  | Some (None, s, _) => Gather 9 s
  | _ => Some ([], ex_statsd [])
  end = None.
Proof. vm_compute. reflexivity. Qed.

(** Two tags without values: the second becomes the value of the first. *)
Lemma valueless_tags_merge : parseDataDogTags ∅ "a,b" = {["a" := "b"]}.
Proof. vm_compute. reflexivity. Qed.

(** A last value that ends in a rune of two bytes loses the second. *)
Lemma last_rune_cut :
  let e := String (ascii_of_N 195) (String (ascii_of_N 169) EmptyString) in
  parseDataDogTags ∅ ("k:" +:+ e) = {["k" := String (ascii_of_N 195) EmptyString]}.
Proof. vm_compute. reflexivity. Qed.

Lemma Statsd_running_stats_witness :
  exists rs w', add_list [f_of_Z 7; f_of_Z 2; f_of_Z 5] (zeroStats 0) tt = Some (rs, w') /\ rs_n rs = 3.
Proof.
  destruct (Statsd_running_stats (W := unit) 0 [f_of_Z 7; f_of_Z 2; f_of_Z 5] tt) as (rs & w' & E & En & _);
    [lia|discriminate|repeat constructor|vm_compute; discriminate|]. exists rs, w'. split; [exact E|exact En].
Defined.

Lemma percentile_ex :
  match add_list [f_of_Z 7; f_of_Z 2; f_of_Z 5] (zeroStats 0) tt with
  | Some (rs, _) => fst <$> Percentile (f_of_Z 50) rs
  | None => None
  end = Some (f_of_Z 5).
Proof. vm_compute. reflexivity. Qed.

Lemma Statsd_counter_lines_witness :
  exists s1 s2, parser 1 "10.0.0.1" (Join (counter_line ["api"; "hits"] <$> [5; -2]) newline) (ex_statsd []) tt = Some ([], s1, tt) /\
    Gather 9 s1 = Some ([CallFields "api_hits" {["value" := GoScalar (SInt64 3)]} {["metric_type" := "counter"]} Counter (Some 9)], s2).
Proof.
  apply (Statsd_counter_lines ["api"; "hits"] 5 [-2] (ex_statsd []) tt 1 9 "10.0.0.1").
  - repeat split; [discriminate|by left].
  - discriminate.
  - repeat constructor; discriminate.
  - repeat constructor; vm_compute; discriminate.
  - repeat split.
Defined.

Lemma Statsd_event_roundtrip_witness :
  parseEventMessage 1 "_e{5,4}:title|text" "host" = Some (inl (CallFields "title"
    {["alert_type" := str "info"; "text" := str "text"; "priority" := str "normal"]} {["source" := "host"]} Untyped (Some 1))).
Proof.
  apply (Statsd_event_roundtrip "title" "text" "host" 1); [discriminate|discriminate|vm_compute; discriminate].
Defined.

Lemma Statsd_event_panics_witness : parseEventMessage 1 "_e{-1,4}:title|text" "host" = None.
Proof.
  apply (Statsd_event_panics "_e{-1,4}:title|text" "_e{-1,4}" "title|text" "host" (-1) 4 1);
    [reflexivity|cbn; lia|cbn; lia|reflexivity|split; vm_compute; discriminate|split; vm_compute; discriminate|].
  split; [vm_compute; discriminate|left; lia].
Defined.

(** A template that is refused: the first line is taken without it, the second makes the input panic. *)
Lemma refused_template_panics :
  let s0 := mkStatsd [] 0 true true true true false "_" false ["host.region"] ∅ ∅ ∅ ∅ None in
  match parseStatsdLine "a:1|c" s0 tt with
  | Some (None, s1, _) => parseStatsdLine "a:1|c" s1 tt
  | _ => Some (None, s0, tt)
  end = None.
Proof. vm_compute. reflexivity. Qed.
