(* ===== verification/Pipeline.v ===== *)
(** * The running agent

    [agent/agent.go]: the goroutines that [Run] starts and the channels between them, as a step relation.
    Inputs gather on their timers and send to the input channel; a goroutine applies the processors; one adds
    metrics to the aggregators and one per aggregator pushes; a relay applies the processors to
    aggregates; one goroutine gives every metric to the outputs, and one per output flushes. When the context is
    done the stages end one after the other, each when its source is closed and empty.

    A stage that the configuration leaves out has ended from the start. What a plugin does to a metric, in its running wrapper, is the interface
    [PluginEnv]; each call is one step, as each is made under the wrapper's lock. A push holds that
    lock until its last metric is sent, so the model does too. A write is one step here; how it interleaves
    with additions is the subject of [Buffer]. Sends on a closed channel and closing it
    twice, which panic, set a flag. *)

From Stdlib Require Import Wf_nat.
From S2P Require Import Prelude.

(** What the stages do to metrics. The world holds the plugins' states. *)
Class PluginEnv (M W : Type) := {
  e_apply : nat -> list M -> W -> list M * W;
  e_add : nat -> M -> W -> bool * W;
  e_push : nat -> W -> list M * W;
  e_drop : M -> W -> W;
  e_copy : M -> W -> M * W;
  e_out : nat -> M -> W -> W;
  e_write : nat -> W -> W;
  e_writeBatch : nat -> W -> W;
  e_close : nat -> W -> W;
}.

(** Steps of the clock and of the world outside (timers, gathering, signals), and the others. *)
Inductive kind := Work | Outside.

(** ** Channels *)

(** The channels of [Run] and the one of [runAggregators]. *)
Inductive cid := InputC | ProcC | OutputC | Aggregations.
#[export] Instance cid_eq_dec : EqDecision cid.
Proof. solve_decision. Defined.

(** A buffered channel, with all that was sent on it and received from it so far. *)
Record chan (M : Type) := mkChan { buf : list M; closed : bool; sent : list M; recv : list M }.
Arguments mkChan {M}.
Arguments buf {M}.
Arguments closed {M}.
Arguments sent {M}.
Arguments recv {M}.

Definition chan_cap : nat := 100.

(** ** Goroutines *)

(** An input: [runInputs], [gatherOnInterval], [gatherOnce]. A sleep of length zero is not interrupted by the context ([internal.SleepContext]). *)
Inductive in_st (M : Type) :=
| IAlign (zero : bool)         (* sleeps until the interval is aligned *)
| IJitter (zero : bool)        (* sleeps for the jitter *)
| IGather (ms : list M)        (* gathers; these metrics are still to be sent *)
| ITick                        (* waits for the ticker *)
| IExit.
Arguments IAlign {M}.
Arguments IJitter {M}.
Arguments IGather {M}.
Arguments ITick {M}.
Arguments IExit {M}.

(** The goroutine that waits for the inputs, stops the services and closes the channel. *)
Inductive closer_st := CRunning | CStopped | CExit.

(** The processors, of [runProcessors] and of the relay in [runAggregators]. *)
Inductive proc_st (M : Type) :=
| PRecv
| PApply (m : M) (k : nat) (ms : list M)   (* the first [k] processors made [ms] of [m] *)
| PSend (ms : list M)
| PWait                                    (* the relay waits for the other goroutines *)
| PExit.
Arguments PRecv {M}.
Arguments PApply {M}.
Arguments PSend {M}.
Arguments PWait {M}.
Arguments PExit {M}.

(** The goroutine that adds metrics to the aggregators. *)
Inductive add_st (M : Type) :=
| ARecv
| AAdd (m : M) (k : nat) (dropOriginal : bool)
| AExit.
Arguments ARecv {M}.
Arguments AAdd {M}.
Arguments AExit {M}.

(** [push] of one aggregator; sending, it holds the aggregator's lock. *)
Inductive push_st (M : Type) :=
| UWait
| USend (final : bool) (ms : list M)
| UExit.
Arguments UWait {M}.
Arguments USend {M}.
Arguments UExit {M}.

(** [runOutputs]. *)
Inductive dist_st (M : Type) :=
| DRecv
| DAdd (m : M) (k : nat)
| DExit.
Arguments DRecv {M}.
Arguments DAdd {M}.
Arguments DExit {M}.

(** [flushLoop] of one output; at its end it has flushed, or it was still aligning. *)
Inductive flush_st :=
| FAlign (zero : bool)
| FCheck
| FSelect
| FExit (flushed : bool).

(** What the goroutines share. The last fields are a record of what was done: the results of the processors for
    metrics and for aggregates, which metrics were dropped by the aggregators, what the aggregators pushed, what each
    was given since its last push, and the metrics given to each output since its last write, and before. *)
Record shared (M W : Type) := mkShared {
  ctx : bool;
  actx : bool;
  octx : bool;
  chans : cid -> chan M;
  panicked : bool;
  world : W;
  processed : list (M * list M);
  relayed : list (M * list M);
  decided : list (M * bool);
  pushed : list (nat * list M);
  unpushed : nat -> list M;
  unwritten : nat -> list M;
  written : nat -> list M;
}.
Arguments mkShared {M W}.
Arguments ctx {M W}.
Arguments actx {M W}.
Arguments octx {M W}.
Arguments chans {M W}.
Arguments panicked {M W}.
Arguments world {M W}.
Arguments processed {M W}.
Arguments relayed {M W}.
Arguments decided {M W}.
Arguments pushed {M W}.
Arguments unpushed {M W}.
Arguments unwritten {M W}.
Arguments written {M W}.

Record conf (M W : Type) := mkConf {
  ins : list (in_st M);
  closer : closer_st;
  proc : proc_st M;
  adder : add_st M;
  pushers : list (push_st M);
  relay : proc_st M;
  dist : dist_st M;
  flushers : list flush_st;
  finished : bool;
  sh : shared M W;
}.
Arguments mkConf {M W}.
Arguments ins {M W}.
Arguments closer {M W}.
Arguments proc {M W}.
Arguments adder {M W}.
Arguments pushers {M W}.
Arguments relay {M W}.
Arguments dist {M W}.
Arguments flushers {M W}.
Arguments finished {M W}.
Arguments sh {M W}.

(** Lexicographic order on lists, wide enough to ignore earlier decreases. *)
Fixpoint llt (l l' : list nat) : Prop :=
  match l, l' with
  | a :: l, b :: l' => ((a < b /\ length l = length l') \/ (a <= b /\ llt l l'))%nat
  | _, _ => False
  end.

Lemma llt_length l l' : llt l l' -> length l = length l'.
Proof. revert l'. induction l as [|a l IH]; intros [|b l']; cbn; try done. intros [[_ ->]|[_ H]]; [done|by rewrite (IH _ H)]. Qed.

Lemma llt_acc n : forall l, length l = n -> Acc llt l.
Proof.
  induction n as [|n IH]; intros [|b l] Hl; cbn in Hl; try lia; [constructor; intros [|? ?] []|].
  revert l Hl. induction b as [b IHb] using lt_wf_ind. intros l Hl.
  assert (Acc llt l) as Hac by (apply IH; lia). revert Hl. induction Hac as [l _ IHl]. intros Hl.
  constructor. intros [|a l'] Hlt; [destruct Hlt|]. pose proof (llt_length _ _ Hlt) as Hlen. cbn in Hlt, Hlen.
  destruct (decide (a < b)%nat); [apply IHb; lia|].
  destruct Hlt as [[? _]|[? Hlt]]; [lia|]. assert (a = b) as -> by lia. apply IHl; [exact Hlt|lia].
Qed.
Lemma llt_wf : well_founded llt.
Proof. intros l. exact (llt_acc _ l eq_refl). Qed.

Lemma sum_list_insert {A} (f : A -> nat) l i x y :
  l !! i = Some x -> (sum_list_with f (<[i := y]> l) + f x = sum_list_with f l + f y)%nat.
Proof.
  intros Hi. pose proof (take_drop_middle l i x Hi) as E. rewrite insert_take_drop by (by eapply lookup_lt_Some).
  assert (sum_list_with f l = sum_list_with f (take i l ++ x :: drop (S i) l)) as -> by (by rewrite E).
  rewrite !sum_list_with_app. cbn. lia.
Qed.

(** ** Steps *)

Section Run.
Context {M W : Type} `{PluginEnv M W} (nproc nagg nout : nat).
#[local] Notation shared := (shared M W).
#[local] Notation conf := (conf M W).
Implicit Types (s : shared) (c : conf) (m : M) (ms : list M) (w : W).

(** The source of the aggregators and of the outputs. *)
Definition agg_src : cid := if (nproc =? 0)%nat then InputC else ProcC.
Definition out_src : cid := if (nagg =? 0)%nat then agg_src else OutputC.

(** A change of one channel, which panics or not. *)
Definition on_chan (x : cid) (f : chan M -> chan M) (bad : bool) s : shared :=
  mkShared (ctx s) (actx s) (octx s) (fun y => if decide (y = x) then f (chans s y) else chans s y) (panicked s || bad)
    (world s) (processed s) (relayed s) (decided s) (pushed s) (unpushed s) (unwritten s) (written s).
Definition set_ctxs (a b d : bool) s : shared :=
  mkShared (ctx s || a) (actx s || b) (octx s || d) (chans s) (panicked s) (world s) (processed s) (relayed s) (decided s) (pushed s) (unpushed s)
    (unwritten s) (written s).
Definition set_world w s : shared :=
  mkShared (ctx s) (actx s) (octx s) (chans s) (panicked s) w (processed s) (relayed s) (decided s) (pushed s) (unpushed s) (unwritten s) (written s).
Definition note_processed (e : M * list M) s : shared :=
  mkShared (ctx s) (actx s) (octx s) (chans s) (panicked s) (world s) (processed s ++ [e]) (relayed s) (decided s) (pushed s) (unpushed s)
    (unwritten s) (written s).
Definition note_relayed (e : M * list M) s : shared :=
  mkShared (ctx s) (actx s) (octx s) (chans s) (panicked s) (world s) (processed s) (relayed s ++ [e]) (decided s) (pushed s) (unpushed s)
    (unwritten s) (written s).
Definition note_decided (e : M * bool) s : shared :=
  mkShared (ctx s) (actx s) (octx s) (chans s) (panicked s) (world s) (processed s) (relayed s) (decided s ++ [e]) (pushed s) (unpushed s)
    (unwritten s) (written s).
Definition note_pushed (e : nat * list M) s : shared :=
  mkShared (ctx s) (actx s) (octx s) (chans s) (panicked s) (world s) (processed s) (relayed s) (decided s) (pushed s ++ [e])
    (fun j => if decide (j = e.1) then [] else unpushed s j) (unwritten s) (written s).
Definition note_added (i : nat) m s : shared :=
  mkShared (ctx s) (actx s) (octx s) (chans s) (panicked s) (world s) (processed s) (relayed s) (decided s) (pushed s)
    (fun j => if decide (j = i) then unpushed s j ++ [m] else unpushed s j) (unwritten s) (written s).
Definition note_given (i : nat) m s : shared :=
  mkShared (ctx s) (actx s) (octx s) (chans s) (panicked s) (world s) (processed s) (relayed s) (decided s) (pushed s) (unpushed s)
    (fun j => if decide (j = i) then unwritten s j ++ [m] else unwritten s j) (written s).
Definition note_written (i : nat) s : shared :=
  mkShared (ctx s) (actx s) (octx s) (chans s) (panicked s) (world s) (processed s) (relayed s) (decided s) (pushed s) (unpushed s)
    (fun j => if decide (j = i) then [] else unwritten s j)
    (fun j => if decide (j = i) then written s j ++ unwritten s j else written s j).

(** Channel operations: a send has room, or panics; a receive takes the oldest; a source is drained when it is closed and empty. *)
Definition room (x : cid) s : Prop := (length (buf (chans s x)) < chan_cap)%nat \/ closed (chans s x) = true.
Definition send (x : cid) m s : shared :=
  on_chan x (fun ch => if closed ch then ch else mkChan (buf ch ++ [m]) false (sent ch ++ [m]) (recv ch)) (closed (chans s x)) s.
Definition take_from (x : cid) m s : shared :=
  on_chan x (fun ch => mkChan (tail (buf ch)) (closed ch) (sent ch) (recv ch ++ [m])) false s.
Definition close_chan (x : cid) s : shared :=
  on_chan x (fun ch => mkChan (buf ch) true (sent ch) (recv ch)) (closed (chans s x)) s.
Definition drained (x : cid) s : Prop := closed (chans s x) = true /\ buf (chans s x) = [].

Definition set_in (i : nat) (x : in_st M) c : conf :=
  mkConf (<[i := x]> (ins c)) (closer c) (proc c) (adder c) (pushers c) (relay c) (dist c) (flushers c) (finished c) (sh c).
Definition set_closer x c : conf :=
  mkConf (ins c) x (proc c) (adder c) (pushers c) (relay c) (dist c) (flushers c) (finished c) (sh c).
Definition set_proc x c : conf :=
  mkConf (ins c) (closer c) x (adder c) (pushers c) (relay c) (dist c) (flushers c) (finished c) (sh c).
Definition set_adder x c : conf :=
  mkConf (ins c) (closer c) (proc c) x (pushers c) (relay c) (dist c) (flushers c) (finished c) (sh c).
Definition set_pusher (i : nat) (x : push_st M) c : conf :=
  mkConf (ins c) (closer c) (proc c) (adder c) (<[i := x]> (pushers c)) (relay c) (dist c) (flushers c) (finished c) (sh c).
Definition set_relay x c : conf :=
  mkConf (ins c) (closer c) (proc c) (adder c) (pushers c) x (dist c) (flushers c) (finished c) (sh c).
Definition set_dist x c : conf :=
  mkConf (ins c) (closer c) (proc c) (adder c) (pushers c) (relay c) x (flushers c) (finished c) (sh c).
Definition set_flusher (i : nat) (x : flush_st) c : conf :=
  mkConf (ins c) (closer c) (proc c) (adder c) (pushers c) (relay c) (dist c) (<[i := x]> (flushers c)) (finished c) (sh c).
Definition set_sh s c : conf :=
  mkConf (ins c) (closer c) (proc c) (adder c) (pushers c) (relay c) (dist c) (flushers c) (finished c) s.
Definition finish c : conf :=
  mkConf (ins c) (closer c) (proc c) (adder c) (pushers c) (relay c) (dist c) (flushers c) true
    (set_world (foldl (fun w i => e_close i w) (world (sh c)) (seq 0 nout)) (sh c)).

(** A goroutine that applies the processors to what it receives and sends on the results: [runProcessors], and the
    loop of [runAggregators] over the aggregates. *)
Inductive apply_step (src dst : cid) (note : M * list M -> shared -> shared) : proc_st M -> shared -> proc_st M -> shared -> Prop :=
| ap_recv s m b : buf (chans s src) = m :: b -> apply_step src dst note PRecv s (PApply m 0 [m]) (take_from src m s)
| ap_apply s m k ms ms' w :
    (k < nproc)%nat -> e_apply k ms (world s) = (ms', w) -> apply_step src dst note (PApply m k ms) s (PApply m (S k) ms') (set_world w s)
| ap_applied s m ms : apply_step src dst note (PApply m nproc ms) s (PSend ms) (note (m, ms) s)
| ap_send s m ms : room dst s -> apply_step src dst note (PSend (m :: ms)) s (PSend ms) (send dst m s)
| ap_next s : apply_step src dst note (PSend []) s PRecv s.

Definition in_waits (x : in_st M) : Prop := match x with IAlign false | IJitter false | ITick => True | _ => False end.
Definition is_sending (x : push_st M) : Prop := match x with USend _ _ => True | _ => False end.
Definition flush_done (x : flush_st) : Prop := match x with FExit _ => True | _ => False end.

Inductive step : kind -> conf -> conf -> Prop :=
(** the context of [Run] *)
| s_cancel c : step Outside c (set_sh (set_ctxs true false false (sh c)) c)
(** inputs *)
| s_in_aligned c i z z' : ins c !! i = Some (IAlign z) -> step (if z then Work else Outside) c (set_in i (IJitter z') c)
| s_in_gather c i z ms : ins c !! i = Some (IJitter z) -> step (if z then Work else Outside) c (set_in i (IGather ms) c)
| s_in_send c i m ms :
    ins c !! i = Some (IGather (m :: ms)) -> room InputC (sh c) ->
    step Work c (set_in i (IGather ms) (set_sh (send InputC m (sh c)) c))
| s_in_gathered c i : ins c !! i = Some (IGather []) -> step Work c (set_in i ITick c)
| s_in_tick c i z : ins c !! i = Some ITick -> step Outside c (set_in i (IJitter z) c)
| s_in_exit c i x : ins c !! i = Some x -> in_waits x -> ctx (sh c) = true -> step Work c (set_in i IExit c)
(** service inputs, until they are stopped *)
| s_service c m : closer c = CRunning -> room InputC (sh c) -> step Outside c (set_sh (send InputC m (sh c)) c)
| s_stop c : closer c = CRunning -> Forall (fun x => x = IExit) (ins c) -> step Work c (set_closer CStopped c)
| s_close c : closer c = CStopped -> step Work c (set_closer CExit (set_sh (close_chan InputC (sh c)) c))
(** processors *)
| s_proc c x s : apply_step InputC ProcC note_processed (proc c) (sh c) x s -> step Work c (set_proc x (set_sh s c))
| s_proc_exit c : proc c = PRecv -> drained InputC (sh c) -> step Work c (set_proc PExit (set_sh (close_chan ProcC (sh c)) c))
(** aggregators: adding *)
| s_a_recv c m b :
    adder c = ARecv -> buf (chans (sh c) agg_src) = m :: b -> step Work c (set_adder (AAdd m 0 false) (set_sh (take_from agg_src m (sh c)) c))
| s_a_add c m k d ok w :
    adder c = AAdd m k d -> (k < nagg)%nat -> ~ (exists x, pushers c !! k = Some x /\ is_sending x) ->
    e_add k m (world (sh c)) = (ok, w) ->
    step Work c (set_adder (AAdd m (S k) (if ok then true else d)) (set_sh (note_added k m (set_world w (sh c))) c))
| s_a_pass c m :
    adder c = AAdd m nagg false -> room OutputC (sh c) ->
    step Work c (set_adder ARecv (set_sh (note_decided (m, false) (send OutputC m (sh c))) c))
| s_a_drop c m :
    adder c = AAdd m nagg true ->
    step Work c (set_adder ARecv (set_sh (note_decided (m, true) (set_world (e_drop m (world (sh c))) (sh c))) c))
| s_a_exit c : adder c = ARecv -> drained agg_src (sh c) -> step Work c (set_adder AExit (set_sh (set_ctxs false true false (sh c)) c))
(** aggregators: pushing *)
| s_u_period c i ms w :
    pushers c !! i = Some UWait -> e_push i (world (sh c)) = (ms, w) ->
    step Outside c (set_pusher i (USend false ms) (set_sh (note_pushed (i, ms) (set_world w (sh c))) c))
| s_u_final c i ms w :
    pushers c !! i = Some UWait -> actx (sh c) = true -> e_push i (world (sh c)) = (ms, w) ->
    step Work c (set_pusher i (USend true ms) (set_sh (note_pushed (i, ms) (set_world w (sh c))) c))
| s_u_send c i f m ms :
    pushers c !! i = Some (USend f (m :: ms)) -> room Aggregations (sh c) ->
    step Work c (set_pusher i (USend f ms) (set_sh (send Aggregations m (sh c)) c))
| s_u_sent c i f : pushers c !! i = Some (USend f []) -> step Work c (set_pusher i (if f then UExit else UWait) c)
| s_u_close c :
    (0 < nagg)%nat -> Forall (fun x => x = UExit) (pushers c) -> closed (chans (sh c) Aggregations) = false ->
    step Work c (set_sh (close_chan Aggregations (sh c)) c)
(** aggregates *)
| s_relay c x s : apply_step Aggregations OutputC note_relayed (relay c) (sh c) x s -> step Work c (set_relay x (set_sh s c))
| s_relay_wait c : relay c = PRecv -> drained Aggregations (sh c) -> step Work c (set_relay PWait c)
| s_relay_exit c : relay c = PWait -> adder c = AExit -> step Work c (set_relay PExit (set_sh (close_chan OutputC (sh c)) c))
(** outputs *)
| s_d_recv c m b :
    dist c = DRecv -> buf (chans (sh c) out_src) = m :: b -> step Work c (set_dist (DAdd m 0) (set_sh (take_from out_src m (sh c)) c))
| s_d_copy c m k m' w :
    dist c = DAdd m k -> (S k < nout)%nat -> e_copy m (world (sh c)) = (m', w) ->
    step Work c (set_dist (DAdd m (S k)) (set_sh (note_given k m (set_world (e_out k m' w) (sh c))) c))
| s_d_last c m k :
    dist c = DAdd m k -> S k = nout ->
    step Work c (set_dist (DAdd m (S k)) (set_sh (note_given k m (set_world (e_out k m (world (sh c))) (sh c))) c))
| s_d_next c m : dist c = DAdd m nout -> step Work c (set_dist DRecv c)
| s_d_exit c : dist c = DRecv -> drained out_src (sh c) -> step Work c (set_dist DExit (set_sh (set_ctxs false false true (sh c)) c))
(** flushing *)
| s_f_aligned c i z : flushers c !! i = Some (FAlign z) -> step (if z then Work else Outside) c (set_flusher i FCheck c)
| s_f_abort c i : flushers c !! i = Some (FAlign false) -> octx (sh c) = true -> step Work c (set_flusher i (FExit false) c)
| s_f_select c i : flushers c !! i = Some FCheck -> octx (sh c) = false -> step Work c (set_flusher i FSelect c)
| s_f_final c i x :
    flushers c !! i = Some x -> x = FCheck \/ x = FSelect -> octx (sh c) = true ->
    step Work c (set_flusher i (FExit true) (set_sh (note_written i (set_world (e_write i (world (sh c))) (sh c))) c))
| s_f_write c i :
    flushers c !! i = Some FSelect ->
    step Outside c (set_flusher i FCheck (set_sh (note_written i (set_world (e_write i (world (sh c))) (sh c))) c))
| s_f_batch c i :
    flushers c !! i = Some FSelect -> step Outside c (set_flusher i FCheck (set_sh (set_world (e_writeBatch i (world (sh c))) (sh c)) c))
(** the end of [Run] *)
| s_finish c :
    finished c = false -> closer c = CExit -> proc c = PExit -> relay c = PExit -> dist c = DExit -> Forall flush_done (flushers c) ->
    step Work c (finish c).

(** The start: the metrics that starting the service inputs left in the channel, and which first sleeps are of length zero. *)
Definition no_chan : chan M := mkChan [] false [] [].
Definition initial (round : bool) (zin : list bool) (zout : nat -> bool) ms w : conf :=
  mkConf ((fun z => if round then IAlign z else IJitter z) <$> zin) CRunning (if (nproc =? 0)%nat then PExit else PRecv)
    (if (nagg =? 0)%nat then AExit else ARecv) (replicate nagg UWait) (if (nagg =? 0)%nat then PExit else PRecv) DRecv
    ((fun i => if round then FAlign (zout i) else FCheck) <$> seq 0 nout) false
    (mkShared false false false (fun x => if decide (x = InputC) then mkChan ms false ms [] else no_chan) false w
      [] [] [] [] (fun _ => []) (fun _ => []) (fun _ => [])).

Definition any_step c c' : Prop := exists k, step k c c'.
Definition reachable round zin zout ms w c : Prop := rtc any_step (initial round zin zout ms w) c.

(** ** The stages end in order *)

Lemma closed_send x y m s : closed (chans (send x m s) y) = closed (chans s y).
Proof. cbn. case_decide; [|done]. by destruct (closed (chans s y)) eqn:E. Qed.
Lemma closed_take x y m s : closed (chans (take_from x m s) y) = closed (chans s y).
Proof. cbn. by case_decide. Qed.
Lemma closed_close x y s : closed (chans (close_chan x s) y) = bool_decide (y = x) || closed (chans s y).
Proof. cbn. case_decide; [by rewrite bool_decide_true|by rewrite bool_decide_false]. Qed.
Lemma drained_send x y m s : drained y s -> drained y (send x m s).
Proof. intros [Hc Hb]. split; [by rewrite closed_send|]. cbn. case_decide; [by rewrite Hc|done]. Qed.
Lemma drained_take x y m b s : buf (chans s x) = m :: b -> drained y s -> drained y (take_from x m s).
Proof. intros Hx [Hc Hb]. split; [by rewrite closed_take|]. cbn. case_decide; [congruence|done]. Qed.
Lemma drained_close x y s : drained y s -> drained y (close_chan x s).
Proof. intros [Hc Hb]. split; [by rewrite closed_close, Hc, orb_true_r|]. cbn. by case_decide. Qed.

Record ends c : Prop := {
  en_panic : panicked (sh c) = false;
  en_in : closed (chans (sh c) InputC) = true <-> closer c = CExit;
  en_ins : closer c <> CRunning -> Forall (fun x => x = IExit) (ins c);
  en_noproc : nproc = 0%nat -> proc c = PExit;
  en_proc : nproc <> 0%nat -> closed (chans (sh c) ProcC) = true <-> proc c = PExit;
  en_proc_src : nproc <> 0%nat -> proc c = PExit -> drained InputC (sh c);
  en_proc_k : match proc c with PApply _ k _ => (k <= nproc)%nat | PWait => False | _ => True end;
  en_noagg : nagg = 0%nat -> relay c = PExit /\ adder c = AExit;
  en_pushers : length (pushers c) = nagg;
  en_aggr : closed (chans (sh c) Aggregations) = true -> Forall (fun x => x = UExit) (pushers c);
  en_relay_src : nagg <> 0%nat -> relay c = PWait \/ relay c = PExit -> drained Aggregations (sh c);
  en_relay_k : match relay c with PApply _ k _ => (k <= nproc)%nat | _ => True end;
  en_out : nagg <> 0%nat -> closed (chans (sh c) OutputC) = true <-> relay c = PExit;
  en_relay : relay c = PExit -> adder c = AExit;
  en_actx : nagg <> 0%nat -> actx (sh c) = true <-> adder c = AExit;
  en_adder_src : nagg <> 0%nat -> adder c = AExit -> drained agg_src (sh c);
  en_adder_k : match adder c with AAdd _ k _ => (k <= nagg)%nat | _ => True end;
  en_final : Forall (fun x => x = UExit \/ (exists ms, x = USend true ms) -> actx (sh c) = true) (pushers c);
  en_octx : octx (sh c) = true <-> dist c = DExit;
  en_dist_src : dist c = DExit -> drained out_src (sh c);
  en_dist_k : match dist c with DAdd _ k => (k <= nout)%nat | _ => True end;
  en_flushers : length (flushers c) = nout;
  en_flush : Forall (fun x => flush_done x -> octx (sh c) = true) (flushers c);
}.

Lemma initial_ends round zin zout ms w : ends (initial round zin zout ms w).
Proof.
  constructor; cbn; rewrite ?length_replicate, ?length_fmap, ?length_seq; try done.
  - intros ->. done.
  - intros Hn. destruct (Nat.eqb_spec nproc 0); [done|]. by split.
  - intros Hn. by destruct (Nat.eqb_spec nproc 0).
  - by destruct (nproc =? 0)%nat.
  - intros ->. done.
  - intros Hn. destruct (Nat.eqb_spec nagg 0); [done|]. by intros [?|?].
  - by destruct (nagg =? 0)%nat.
  - intros Hn. destruct (Nat.eqb_spec nagg 0); [done|]. by split.
  - by destruct (nagg =? 0)%nat.
  - intros Hn. destruct (Nat.eqb_spec nagg 0); [done|]. by split.
  - intros Hn. by destruct (Nat.eqb_spec nagg 0).
  - by destruct (nagg =? 0)%nat.
  - apply Forall_replicate. intros [?|[??]]; done.
  - apply Forall_fmap, Forall_true. intros i. cbn. by destruct round; intros [].
Qed.

Ltac conf_cbn := cbn [ins closer proc adder pushers relay dist flushers finished sh set_in set_closer set_proc set_adder
  set_pusher set_relay set_dist set_flusher set_sh finish] in *.

Ltac sh_cbn := cbn [ctx actx octx panicked world send take_from close_chan on_chan set_ctxs set_world note_processed note_relayed
  note_decided note_pushed note_added note_given note_written].

(** What an applying goroutine leaves alone. *)
Lemma apply_step_frame src dst note x s x' s' :
  apply_step src dst note x s x' s' -> note = note_processed \/ note = note_relayed ->
  (forall y, closed (chans s' y) = closed (chans s y)) /\ (forall y, drained y s -> drained y s') /\
  actx s' = actx s /\ octx s' = octx s /\ x <> PExit /\ x <> PWait /\ x' <> PExit /\ x' <> PWait /\
  (closed (chans s dst) = false -> panicked s' = panicked s) /\
  (match x with PApply _ k _ => (k <= nproc)%nat | _ => True end -> match x' with PApply _ k _ => (k <= nproc)%nat | _ => True end).
Proof.
  intros Hs Hnote. destruct Hs; (split; [|split; [|split; [|split]]]);
    try (intros y; first [apply closed_take|apply closed_send|done]); try done;
    try (intros y Hy; first [by eapply drained_take|by apply drained_send|done]);
    try (destruct Hnote as [-> | ->]; done);
    (split; [done|]); (split; [done|]); (split; [done|]); (split; [done|]); (split; [|try done; lia]).
  - intros _. sh_cbn. by rewrite orb_false_r.
  - intros Hc. sh_cbn. by rewrite Hc, orb_false_r.
Qed.

(** An entry that is known refutes that all are at their end. *)
Lemma not_all_exit {A} (e : A) l i x : l !! i = Some x -> x <> e -> ~ Forall (fun y => y = e) l.
Proof. intros Hi Hx Hl. by apply Hx, (Forall_lookup_1 _ _ _ _ Hl Hi). Qed.

Lemma not_closed s x : (closed (chans s x) = true -> False) -> panicked s = false -> panicked s || closed (chans s x) = false.
Proof. intros Hc ->. by apply not_true_is_false. Qed.

Ltac ends_auto :=
  match goal with
  | Hi : ins _ !! _ = Some _, H : _ <> CRunning -> _ |- _ <> CRunning -> Forall _ (<[_ := _]> _) =>
    let Hc := fresh in intros Hc; specialize (H Hc);
    first [by apply Forall_insert | exfalso; by eapply not_all_exit in H]
  | Hi : pushers _ !! _ = Some _, H : closed _ = true -> _ |- _ = true -> Forall _ (<[_ := _]> _) =>
    let Hc := fresh in intros Hc; specialize (H Hc); exfalso; by eapply not_all_exit in H
  | |- Forall _ (<[_ := _]> _) => apply Forall_insert; [assumption|]; try done
  | |- Forall _ _ => by eapply Forall_impl; [eassumption|]
  | |- _ || _ = false => apply not_closed; [|assumption]
  end.

Lemma step_ends k c c' : step k c c' -> ends c -> ends c'.
Proof.
  intros Hs [Hpan Hin Hins Hnp Hp Hps Hpk Hna Hpu Hag Hrs Hrk Hou Hre Hac Has Hak Hfi Hoc Hds Hdk Hfl Hf].
  assert (nagg <> 0%nat -> adder c <> AExit -> closed (chans (sh c) OutputC) = true -> False) as Hadd.
  { intros Hn Hne Hc. by apply Hne, Hre, Hou. }
  destruct Hs.
  all: try match goal with Ha : apply_step _ _ _ _ _ _ _ |- _ =>
    destruct (apply_step_frame _ _ _ _ _ _ _ Ha ltac:(by auto)) as (F1 & F2 & F3 & F4 & F5 & F6 & F7 & F8 & F9 & F10) end.
  all: constructor; conf_cbn; try assumption; rewrite ?closed_send, ?closed_take, ?closed_close, ?length_insert; try assumption.
  all: try (intros; first [apply drained_send|eapply drained_take; [eassumption|]|apply drained_close|apply F2]; by auto).
  all: sh_cbn; rewrite ?orb_false_r, ?orb_true_r; try assumption; rewrite ?F1, ?F3, ?F4; try assumption; try done; try lia.
  all: try ends_auto.
  all: try (intros; split; [intros Ho; exfalso; first [apply Hoc in Ho|apply Hac in Ho|apply Hou in Ho|apply Hin in Ho]; congruence|congruence]).
  all: try (intros Hc; apply Hin in Hc; congruence).
  all: try (intros; split; congruence).
  all: try (intros Hr; apply Hre in Hr; congruence).
  all: try (intros Hn; destruct (Hna Hn); congruence).
  all: try (intros [?|[??]]; congruence).
  - intros Hc. apply Hin in Hc. eapply (not_all_exit IExit); [eassumption|done|]. apply Hins. congruence.
  - intros _. apply Hins. congruence.
  - rewrite F9; [done|]. apply not_true_is_false. intros Hc. destruct (decide (nproc = 0%nat)); [by apply F5, Hnp|by apply F5, Hp].
  - intros Hn. by destruct F5; apply Hnp.
  - intros Hn. rewrite (Hp Hn). split; intros E; [by destruct F5|by destruct F7].
  - assert (match proc c with PApply _ k _ => (k <= nproc)%nat | _ => True end) as Hk by (by destruct (proc c)).
    specialize (F10 Hk). by destruct x.
  - intros Hc. destruct (decide (nproc = 0%nat)) as [Hn|Hn]; [apply Hnp in Hn|apply Hp in Hc]; congruence.
  - apply Hadd; [|congruence]. intros Hn. destruct (Hna Hn). congruence.
  - by setoid_rewrite (closed_send OutputC OutputC m (sh c)).
  - intros Hc. eapply (not_all_exit UExit); [eassumption|done|by apply Hag].
  - intros Hf'. eapply (Forall_lookup_1 _ _ _ _ Hfi); [eassumption|]. destruct Hf' as [?|[? [= -> ->]]]; [done|]. right. by eexists.
  - intros Hf'. eapply (Forall_lookup_1 _ _ _ _ Hfi); [eassumption|]. right. exists []. destruct f; [done|]. by destruct Hf' as [?|[??]].
  - congruence.
  - rewrite F9; [done|]. apply not_true_is_false. intros Hc. destruct (decide (nagg = 0%nat)) as [Hn|Hn];
      [by destruct (Hna Hn)|by apply F5, Hou].
  - intros _ [?|?]; done.
  - by apply F10.
  - intros Hc. destruct (decide (nagg = 0%nat)) as [Hn|Hn]; [destruct (Hna Hn)|apply Hou in Hc]; congruence.
Qed.
(** ** Nothing is lost on the way *)

(** What the first [k] processors can make of a metric, and the first [k] aggregators decide about it. *)
Inductive applied : nat -> M -> list M -> Prop :=
| applied_0 m : applied 0 m [m]
| applied_S k m ms w ms' w' : applied k m ms -> e_apply k ms w = (ms', w') -> applied (S k) m ms'.
Inductive added : nat -> M -> bool -> Prop :=
| added_0 m : added 0 m false
| added_S k m d w ok w' : added k m d -> e_add k m w = (ok, w') -> added (S k) m (if ok then true else d).

(** What a goroutine has received and not finished, and has still to send. *)
Definition taken (x : proc_st M) : list M := match x with PApply m _ _ => [m] | _ => [] end.
Definition unsent (x : proc_st M) : list M := match x with PSend ms => ms | _ => [] end.
Definition adding (x : add_st M) : list M := match x with AAdd m _ _ => [m] | _ => [] end.
Definition to_push (x : push_st M) : list M := match x with USend _ ms => ms | _ => [] end.
Definition giving (i : nat) (x : dist_st M) : list M := match x with DAdd m k => if (k <=? i)%nat then [m] else [] | _ => [] end.
Definition passed (l : list (M * bool)) : list M := flat_map (fun e : M * bool => if e.2 then [] else [e.1]) l.
Definition results {A} (l : list (A * list M)) : list M := flat_map snd l.

Definition fifo s : Prop :=
  forall x, sent (chans s x) = recv (chans s x) ++ buf (chans s x) /\ (length (buf (chans s x)) <= chan_cap)%nat.
Definition applied_st (x : proc_st M) : Prop := match x with PApply m k ms => applied k m ms | _ => True end.

Record proc_flow c : Prop := {
  pf_in : nproc <> 0%nat -> recv (chans (sh c) InputC) = (processed (sh c)).*1 ++ taken (proc c);
  pf_out : sent (chans (sh c) ProcC) ++ unsent (proc c) = results (processed (sh c));
  pf_ok : Forall (fun e => applied nproc e.1 e.2) (processed (sh c));
  pf_k : applied_st (proc c);
}.
Record add_flow c : Prop := {
  af_in : nagg <> 0%nat -> recv (chans (sh c) agg_src) = (decided (sh c)).*1 ++ adding (adder c);
  af_ok : Forall (fun e => added nagg e.1 e.2) (decided (sh c));
  af_k : match adder c with AAdd m k d => added k m d | _ => True end;
}.
Record push_flow c : Prop := {
  uf_out : Permutation (sent (chans (sh c) Aggregations) ++ flat_map to_push (pushers c)) (results (pushed (sh c)));
  uf_ok : Forall (fun e => exists w w', e_push e.1 w = (e.2, w')) (pushed (sh c));
  uf_final i x : pushers c !! i = Some x -> x = UExit \/ (exists ms, x = USend true ms) -> unpushed (sh c) i = [];
}.
Record relay_flow c : Prop := {
  rf_in : recv (chans (sh c) Aggregations) = (relayed (sh c)).*1 ++ taken (relay c);
  rf_out : Permutation (sent (chans (sh c) OutputC) ++ unsent (relay c)) (passed (decided (sh c)) ++ results (relayed (sh c)));
  rf_ok : Forall (fun e => applied nproc e.1 e.2) (relayed (sh c));
  rf_k : applied_st (relay c);
}.
Record dist_flow c : Prop := {
  df_given i : (i < nout)%nat -> written (sh c) i ++ unwritten (sh c) i ++ giving i (dist c) = recv (chans (sh c) out_src);
  df_flushed i : flushers c !! i = Some (FExit true) -> unwritten (sh c) i = [];
}.
Record flow c : Prop := {
  fl_fifo : fifo (sh c);
  fl_proc : proc_flow c;
  fl_add : add_flow c;
  fl_push : push_flow c;
  fl_relay : relay_flow c;
  fl_dist : dist_flow c;
}.

Lemma initial_flow round zin zout ms w : (length ms <= chan_cap)%nat -> flow (initial round zin zout ms w).
Proof.
  intros Hms. constructor; [|constructor..]; cbn; try done; try (by destruct (nproc =? 0)%nat); try (by destruct (nagg =? 0)%nat).
  - intros x. cbn. case_decide; cbn; [done|]. split; [done|lia].
  - intros _. by destruct (decide _), (nagg =? 0)%nat.
  - by induction nagg.
  - intros i _. by destruct (decide _).
Qed.

Lemma fifo_send x m s : room x s -> fifo s -> fifo (send x m s).
Proof.
  intros Hr Hf y. specialize (Hf y). cbn. case_decide; subst; [|done]. destruct (closed (chans s x)) eqn:E; [done|].
  cbn. destruct Hf as [-> ?], Hr; [|congruence]. rewrite length_app, app_assoc. cbn. split; [done|lia].
Qed.
Lemma fifo_take x m b s : buf (chans s x) = m :: b -> fifo s -> fifo (take_from x m s).
Proof.
  intros Hb Hf y. specialize (Hf y). cbn. case_decide; subst; [|done]. rewrite Hb in *. cbn in *.
  destruct Hf as [-> ?]. split; [by rewrite <- app_assoc|lia].
Qed.
Lemma fifo_close x s : fifo s -> fifo (close_chan x s).
Proof. intros Hf y. specialize (Hf y). cbn. by case_decide. Qed.

Lemma sent_send x y m s : closed (chans s x) = false -> sent (chans (send x m s) y) = sent (chans s y) ++ (if decide (y = x) then [m] else []).
Proof. intros Hc. cbn. case_decide; [subst; by rewrite Hc|by rewrite app_nil_r]. Qed.
Lemma recv_send x y m s : recv (chans (send x m s) y) = recv (chans s y).
Proof. cbn. case_decide; [|done]. by destruct (closed _). Qed.
Lemma sent_take x y m s : sent (chans (take_from x m s) y) = sent (chans s y).
Proof. cbn. by case_decide. Qed.
Lemma recv_take x y m s : recv (chans (take_from x m s) y) = recv (chans s y) ++ (if decide (y = x) then [m] else []).
Proof. cbn. case_decide; [done|by rewrite app_nil_r]. Qed.
Lemma sent_close x y s : sent (chans (close_chan x s) y) = sent (chans s y).
Proof. cbn. by case_decide. Qed.
Lemma recv_close x y s : recv (chans (close_chan x s) y) = recv (chans s y).
Proof. cbn. by case_decide. Qed.

Lemma results_app {A} (l l' : list (A * list M)) : results (l ++ l') = results l ++ results l'.
Proof. apply flat_map_app. Qed.
Lemma passed_app l l' : passed (l ++ l') = passed l ++ passed l'.
Proof. apply flat_map_app. Qed.

(** One step of an applying goroutine: it takes [a], sends [b] and records [news]. *)
Definition apply_flow (p : bool) src dst x s x' s' : Prop :=
  exists a b news,
    (forall y, recv (chans s' y) = recv (chans s y) ++ (if decide (y = src) then a else [])) /\
    (forall y, sent (chans s' y) = sent (chans s y) ++ (if decide (y = dst) then b else [])) /\
    taken x ++ a = news.*1 ++ taken x' /\ unsent x ++ results news = b ++ unsent x' /\
    processed s' = processed s ++ (if p then news else []) /\ relayed s' = relayed s ++ (if p then [] else news) /\
    (decided s' = decided s /\ pushed s' = pushed s /\ unpushed s' = unpushed s /\ written s' = written s /\ unwritten s' = unwritten s) /\
    (applied_st x -> applied_st x' /\ Forall (fun e => applied nproc e.1 e.2) news) /\
    (fifo s -> fifo s').

Lemma apply_step_flow (p : bool) src dst x s x' s' :
  apply_step src dst (if p then note_processed else note_relayed) x s x' s' -> closed (chans s dst) = false -> apply_flow p src dst x s x' s'.
Proof.
  intros Hs Hc. destruct Hs.
  - exists [m], [], []. split; [intros y; apply recv_take|]. split; [intros y; rewrite sent_take; case_decide; by rewrite app_nil_r|].
    cbn. destruct p; rewrite !app_nil_r; repeat (split; [done|]); (split; [repeat constructor|by eapply fifo_take]).
  - exists [], [], []. split; [intros y; case_decide; by rewrite app_nil_r|]. split; [intros y; case_decide; by rewrite app_nil_r|].
    cbn. destruct p; rewrite !app_nil_r; repeat (split; [done|]); (split; [|done]); intros; (split; [by eapply applied_S|done]).
  - exists [], [], [(m, ms)]. split; [intros y; destruct p; case_decide; by rewrite app_nil_r|].
    split; [intros y; destruct p; case_decide; by rewrite app_nil_r|].
    cbn. destruct p; cbn; rewrite !app_nil_r; repeat (split; [done|]); (split; [|done]); intros; (split; [done|by repeat constructor]).
  - exists [], [m], []. split; [intros y; rewrite recv_send; case_decide; by rewrite app_nil_r|]. split; [intros y; by apply sent_send|].
    cbn. destruct p; rewrite !app_nil_r; repeat (split; [done|]); by apply fifo_send.
  - exists [], [], []. split; [intros y; case_decide; by rewrite app_nil_r|]. split; [intros y; case_decide; by rewrite app_nil_r|].
    cbn. destruct p; rewrite !app_nil_r; do 6 (split; [done|]); done.
Qed.

Lemma flat_map_insert {A B} (f : A -> list B) l i x :
  l !! i = Some x -> exists r, Permutation (flat_map f l) (f x ++ r) /\ forall y, Permutation (flat_map f (<[i := y]> l)) (f y ++ r).
Proof.
  revert i. induction l as [|z l IH]; intros [|i]; cbn; try done.
  - intros [= ->]. by exists (flat_map f l).
  - intros [r [Hr Hy]]%IH. exists (f z ++ r). split; [rewrite Hr|intros y; rewrite Hy]; rewrite !app_assoc; by rewrite (Permutation_app_comm (f z)).
Qed.

Lemma agg_src_cases : (nproc = 0%nat /\ agg_src = InputC) \/ (nproc <> 0%nat /\ agg_src = ProcC).
Proof. unfold agg_src. destruct (Nat.eqb_spec nproc 0); auto. Qed.
Lemma out_src_cases : (nagg = 0%nat /\ out_src = agg_src) \/ (nagg <> 0%nat /\ out_src = OutputC).
Proof. unfold out_src. destruct (Nat.eqb_spec nagg 0); auto. Qed.

Ltac flow_cbn := cbn [processed relayed decided pushed unpushed unwritten written send take_from close_chan on_chan set_ctxs set_world
  note_processed note_relayed note_decided note_pushed note_added note_given note_written].
Ltac chan_cbn := cbn [chans set_ctxs set_world note_processed note_relayed note_decided note_pushed note_added note_given note_written].
Ltac chan_rw := chan_cbn; rewrite ?recv_take, ?sent_take, ?recv_send, ?recv_close, ?sent_close.
Ltac src_cases := destruct agg_src_cases as [[Np Ea]|[Np Ea]], out_src_cases as [[Na Eo]|[Na Eo]].

Ltac opened := match goal with Hpan : _ = false |- _ => cbn in Hpan; apply orb_false_iff in Hpan; destruct Hpan as [_ Hpan] end.

Lemma proc_step c x s :
  apply_step InputC ProcC note_processed (proc c) (sh c) x s -> ends c ->
  nproc <> 0%nat /\ apply_flow true InputC ProcC (proc c) (sh c) x s.
Proof.
  intros Ha He. destruct (apply_step_frame _ _ _ _ _ _ _ Ha ltac:(by auto)) as (_ & _ & _ & _ & Hx & _).
  assert (nproc <> 0%nat) as Hn by (intros Hn; by apply Hx, (en_noproc _ He)).
  split; [done|]. apply (apply_step_flow true); [exact Ha|]. apply not_true_is_false. intros Hc. by apply Hx, (en_proc _ He).
Qed.
Lemma relay_step c x s :
  apply_step Aggregations OutputC note_relayed (relay c) (sh c) x s -> ends c ->
  nagg <> 0%nat /\ apply_flow false Aggregations OutputC (relay c) (sh c) x s.
Proof.
  intros Ha He. destruct (apply_step_frame _ _ _ _ _ _ _ Ha ltac:(by auto)) as (_ & _ & _ & _ & Hx & _).
  assert (nagg <> 0%nat) as Hn by (intros Hn; by apply Hx, (en_noagg _ He)).
  split; [done|]. apply (apply_step_flow false); [exact Ha|]. apply not_true_is_false. intros Hc. by apply Hx, (en_out _ He).
Qed.

Ltac applied_step :=
  match goal with
  | Ha : apply_step InputC _ _ _ _ _ _, He : ends _ |- _ => destruct (proc_step _ _ _ Ha He) as [Hon (a & b & news & Hr & Hse & Ht & Hu & Hp & Hre & (Hd & Hpu & Hun & Hw & Huw) & Hk & Hfi)]
  | Ha : apply_step Aggregations _ _ _ _ _ _, He : ends _ |- _ => destruct (relay_step _ _ _ Ha He) as [Hon (a & b & news & Hr & Hse & Ht & Hu & Hp & Hre & (Hd & Hpu & Hun & Hw & Huw) & Hk & Hfi)]
  end.

Lemma step_fifo k c c' : step k c c' -> ends c -> fifo (sh c) -> fifo (sh c').
Proof.
  intros Hs He Hf.
  destruct Hs; conf_cbn; try exact Hf; try (by apply fifo_send); try (by apply fifo_close); try (by eapply fifo_take);
    applied_step; by apply Hfi.
Qed.

Ltac cids := repeat first [rewrite decide_True by done | rewrite decide_False by (done || (src_cases; congruence))]; cbn.
Ltac other_src := intros; rewrite decide_False by (src_cases; congruence); rewrite app_nil_r; auto.

Lemma step_proc_flow k c c' : step k c c' -> ends c -> proc_flow c -> proc_flow c'.
Proof.
  intros Hs He [F1 F2 F3 F4].
  destruct Hs; try applied_step; constructor; conf_cbn; try assumption; chan_rw; flow_cbn; try assumption; try other_src;
    rewrite ?Hr, ?Hp, ?Hse; cids; rewrite ?app_nil_r; auto.
  - intros Hn. by rewrite (F1 Hn), fmap_app, <- !app_assoc, Ht.
  - by rewrite <- app_assoc, <- Hu, app_assoc, F2, results_app.
  - apply Forall_app. split; [done|by apply Hk].
  - by apply Hk.
  - intros Hn. rewrite (F1 Hn), H0. cbn. by rewrite app_nil_r.
  - rewrite H0 in F2. cbn in F2. by rewrite app_nil_r in F2.
Qed.

Lemma step_add_flow k c c' : step k c c' -> ends c -> add_flow c -> add_flow c'.
Proof.
  intros Hs He [F1 F2 F3].
  destruct Hs; try applied_step; constructor; conf_cbn; try assumption; chan_rw; flow_cbn; try assumption; try other_src;
    rewrite ?Hr, ?Hd; cids; rewrite ?app_nil_r; auto.
  - intros Hn. by rewrite (F1 Hn), H0, app_nil_r.
  - constructor.
  - intros Hn. by rewrite (F1 Hn), H0.
  - rewrite H0 in F3. by eapply added_S.
  - intros Hn. by rewrite (F1 Hn), H0, fmap_app.
  - rewrite H0 in F3. apply Forall_app. by repeat constructor.
  - intros Hn. by rewrite (F1 Hn), H0, fmap_app.
  - rewrite H0 in F3. apply Forall_app. by repeat constructor.
  - intros Hn. by rewrite (F1 Hn), H0, app_nil_r.
Qed.

Lemma to_push_insert l i x y (S R a b : list M) :
  l !! i = Some x -> Permutation (S ++ flat_map to_push l) R -> Permutation (to_push x ++ b) (a ++ to_push y) ->
  Permutation ((S ++ a) ++ flat_map to_push (<[i := y]> l)) (R ++ b).
Proof.
  intros Hi <- Hp. destruct (flat_map_insert to_push l i x Hi) as (r & Hr & Hy). rewrite Hy, Hr, <- !app_assoc.
  apply Permutation_app_head. rewrite (Permutation_app_comm r b), !app_assoc. by rewrite Hp.
Qed.

Lemma step_push_flow k c c' : step k c c' -> ends c -> push_flow c -> push_flow c'.
Proof.
  intros Hs He [F1 F2 F3]. pose proof (en_panic _ (step_ends _ _ _ Hs He)) as Hpan.
  destruct Hs; try applied_step; constructor; conf_cbn; try assumption; chan_rw; flow_cbn; try assumption; try other_src;
    rewrite ?Hse, ?Hpu, ?Hun, ?results_app; try (opened; rewrite (sent_send _ _ _ _ Hpan)); cids; rewrite ?app_nil_r; auto.
  all: try (apply Forall_app; split; [done|]; repeat constructor; by eauto).
  all: try (intros j z [(<- & <- & _)|[Hj Hz]]%list_lookup_insert_Some Hx; [|rewrite ?decide_False by done; by eauto]).
  - intros j z Hj Hx. case_decide; [|by eauto]. subst j. exfalso.
    assert (actx (sh c) = true) as Ha by (by eapply (Forall_lookup_1 _ _ _ _ (en_final _ He))).
    apply (en_actx _ He) in Ha; [congruence|lia].
  - pose proof (to_push_insert _ _ _ (USend false ms) _ _ [] ms H0 F1) as Hp. rewrite app_nil_r in Hp. by apply Hp.
  - by rewrite decide_True.
  - pose proof (to_push_insert _ _ _ (USend true ms) _ _ [] ms H0 F1) as Hp. rewrite app_nil_r in Hp. by apply Hp.
  - by rewrite decide_True.
  - pose proof (to_push_insert _ _ _ (USend f ms) _ _ [m] [] H0 F1) as Hp. rewrite !app_nil_r in Hp. by apply Hp.
  - eapply F3; [exact H0|]. right. destruct Hx as [?|[? [= -> _]]]; [done|by eexists].
  - pose proof (to_push_insert _ _ _ (if f then UExit else UWait) _ _ [] [] H0 F1) as Hp. rewrite !app_nil_r in Hp. apply Hp. by destruct f.
  - eapply F3; [exact H0|]. right. destruct f; [by eexists|]. by destruct Hx as [?|[??]].
Qed.

Lemma step_relay_flow k c c' : step k c c' -> ends c -> relay_flow c -> relay_flow c'.
Proof.
  intros Hs He [F1 F2 F3 F4]. pose proof (en_panic _ (step_ends _ _ _ Hs He)) as Hpan.
  destruct Hs; try applied_step; constructor; conf_cbn; try assumption; chan_rw; flow_cbn; try assumption; try other_src;
    rewrite ?Hse, ?Hr, ?Hre, ?Hd, ?results_app, ?passed_app; try (opened; rewrite (sent_send _ _ _ _ Hpan)); cids; rewrite ?app_nil_r; auto.
  all: try (rewrite H0 in F1; cbn in F1; by rewrite app_nil_r in F1).
  all: try (rewrite H0 in F2; cbn in F2; by rewrite app_nil_r in F2).
  - rewrite <- !app_assoc, (Permutation_app_comm [m]), (Permutation_app_comm [m]), !app_assoc. by rewrite F2.
  - by rewrite F1, fmap_app, <- !app_assoc, Ht.
  - by rewrite <- app_assoc, <- Hu, app_assoc, F2, <- app_assoc.
  - apply Forall_app. split; [done|by apply Hk].
  - by apply Hk.
Qed.

Lemma giving_0 i m : giving i (DAdd m 0) = [m].
Proof. done. Qed.
Lemma giving_S i m k : giving i (DAdd m k) = (if decide (i = k) then [m] else []) ++ giving i (DAdd m (S k)).
Proof. unfold giving. destruct (decide (i = k)), (Nat.leb_spec k i), (Nat.leb_spec (S k) i); try done; lia. Qed.
Lemma giving_all i m k : (i < k)%nat -> giving i (DAdd m k) = [].
Proof. intros Hi. unfold giving. destruct (Nat.leb_spec k i); [lia|done]. Qed.
#[local] Arguments giving : simpl never.

Lemma step_dist_flow k c c' : step k c c' -> ends c -> dist_flow c -> dist_flow c'.
Proof.
  intros Hs He [F1 F2]. pose proof (en_octx _ He) as Hoc. pose proof (en_flush _ He) as Hff.
  destruct Hs; try applied_step; constructor; conf_cbn; try assumption; chan_rw; flow_cbn; try assumption; try other_src;
    rewrite ?Hr, ?Hw, ?Huw; cids; rewrite ?app_nil_r; auto.
  all: try (intros j [(<- & Hj & _)|[Hj Hz]]%list_lookup_insert_Some; [|rewrite ?decide_False by done; by eauto]; first [done|by rewrite decide_True]).
  all: try (intros j Hj; specialize (F1 j Hj); case_decide; [|exact F1]; rewrite <- F1, <- !app_assoc; done).
  all: try (intros j Hj; case_decide; [|by auto]; pose proof (Forall_lookup_1 _ _ _ _ Hff Hj I) as Ho; apply Hoc in Ho; congruence).
  all: try (intros j Hj; specialize (F1 j Hj); rewrite <- F1, H0, (giving_S j m k); case_decide; by rewrite <- ?app_assoc).
  - assert (nagg <> 0%nat) as Hn by (intros Hn; destruct (en_noagg _ He Hn); congruence). other_src.
  - intros j Hj. specialize (F1 j Hj). rewrite <- F1, H0, giving_0, <- !app_assoc. done.
  - intros j Hj. specialize (F1 j Hj). by rewrite <- F1, H0, giving_all.
  - intros j Hj. specialize (F1 j Hj). by rewrite <- F1, H0.
Qed.

Lemma step_flow k c c' : step k c c' -> ends c -> flow c -> flow c'.
Proof.
  intros Hs He []. constructor; eauto using step_fifo, step_proc_flow, step_add_flow, step_push_flow, step_relay_flow, step_dist_flow.
Qed.

Lemma steps_inv a c : rtc any_step a c -> ends a -> flow a -> ends c /\ flow c.
Proof. induction 1 as [|a a' c [k Hs] _ IH]; [done|]. intros He Hf. apply IH; [by eapply step_ends|by eapply step_flow]. Qed.

Lemma reachable_inv round zin zout ms w c : (length ms <= chan_cap)%nat -> reachable round zin zout ms w c -> ends c /\ flow c.
Proof. intros Hms Hr. apply (steps_inv _ _ Hr); [apply initial_ends|by apply initial_flow]. Qed.

(** ** The agent stops *)

Definition can_work c : Prop := exists c', step Work c c'.
Definition idle (x : cid) s : Prop := buf (chans s x) = [] /\ closed (chans s x) = false.

Lemma idle_room x s : idle x s -> room x s.
Proof. intros [Hb _]. left. rewrite Hb. cbn. unfold chan_cap. lia. Qed.

(** A receiver has something to take, or its source is drained, or idle. *)
Lemma chan_cases x s : (exists m b, buf (chans s x) = m :: b) \/ drained x s \/ idle x s.
Proof.
  unfold drained, idle. destruct (buf (chans s x)) as [|m b]; [|by left; eauto].
  destruct (closed (chans s x)); auto.
Qed.

Lemma inputs_work c : ends c -> ctx (sh c) = true -> idle InputC (sh c) -> can_work c.
Proof.
  intros He Hctx Hi. pose proof (idle_room _ _ Hi) as Hroom. destruct (closer c) eqn:Hc.
  - destruct (decide (Forall (fun x => is_Some (match x with IExit => Some tt | _ => None end)) (ins c))) as [Ha|Ha].
    + eexists. apply s_stop; [done|]. eapply Forall_impl; [exact Ha|]. intros [] Hx; try done; by destruct Hx.
    + apply not_Forall_Exists in Ha; [|apply _]. apply Exists_exists in Ha. destruct Ha as (x & [i Hx]%list_elem_of_lookup_1 & Hn).
      destruct x as [[]|[]|[|m ms]| |]; try (by destruct Hn; eauto);
        eexists; first [by eapply s_in_gathered|by eapply s_in_send|by eapply s_in_exit|by eapply (s_in_aligned _ _ true false)|by eapply (s_in_gather _ _ true [])].
  - eexists. by apply s_close.
  - apply (en_in _ He) in Hc. destruct Hi. congruence.
Qed.

Lemma apply_works src dst note x s :
  room dst s -> match x with PApply _ k _ => (k <= nproc)%nat | PWait | PExit => False | _ => True end ->
  (exists x' s', apply_step src dst note x s x' s') \/ (x = PRecv /\ (drained src s \/ idle src s)).
Proof.
  intros Hr Hk. destruct x as [|m k ms|[|m ms]| |]; try done.
  - destruct (chan_cases src s) as [(m & b & Hb)|Hd]; [left|by right]. do 2 eexists. by eapply ap_recv.
  - left. destruct (decide (k = nproc)) as [->|]; [do 2 eexists; apply ap_applied|].
    destruct (e_apply k ms (world s)) eqn:E. do 2 eexists. eapply ap_apply; [lia|done].
  - left. do 2 eexists. apply ap_next.
  - left. do 2 eexists. by apply ap_send.
Qed.

Lemma agg_src_works c : ends c -> ctx (sh c) = true -> idle agg_src (sh c) -> can_work c.
Proof.
  intros He Hctx Hi. destruct agg_src_cases as [[Hn Hs]|[Hn Hs]]; rewrite Hs in Hi; [by apply inputs_work|].
  pose proof (en_proc_k _ He) as Hk.
  assert (proc c <> PExit) as Hx by (intros Hx; apply (en_proc _ He Hn) in Hx; destruct Hi; congruence).
  destruct (apply_works InputC ProcC note_processed (proc c) (sh c)) as [(x & s & Ha)|[Hr [Hd|Hd]]].
  - by apply idle_room.
  - by destruct (proc c).
  - eexists. by apply s_proc.
  - eexists. by apply s_proc_exit.
  - by apply inputs_work.
Qed.

Lemma adder_works c :
  ends c -> ctx (sh c) = true -> room OutputC (sh c) -> adder c <> AExit -> Forall (fun x => ~ is_sending x) (pushers c) -> can_work c.
Proof.
  intros He Hctx Hr Ha Hp. pose proof (en_adder_k _ He) as Hk. destruct (adder c) as [|m k d|] eqn:E; [| |done].
  - destruct (chan_cases agg_src (sh c)) as [(m & b & Hb)|[Hd|Hd]].
    + eexists. by eapply s_a_recv.
    + eexists. by apply s_a_exit.
    + by apply agg_src_works.
  - destruct (decide (k = nagg)) as [->|].
    + destruct d; eexists; [by apply s_a_drop|by apply s_a_pass].
    + destruct (e_add k m (world (sh c))) eqn:Ee. eexists. eapply s_a_add; [done|lia| |done].
      intros (x & Hx & Hs). by apply (Forall_lookup_1 _ _ _ _ Hp Hx).
Qed.

#[export] Instance is_sending_dec (x : push_st M) : Decision (is_sending x).
Proof. destruct x; apply _. Defined.
#[export] Instance flush_done_dec x : Decision (flush_done x).
Proof. destruct x; apply _. Defined.

(** An entry that fails a decidable predicate, or none. *)
Lemma lookup_or_Forall {A} (P : A -> Prop) `{forall x, Decision (P x)} l : Forall P l \/ exists i x, l !! i = Some x /\ ~ P x.
Proof.
  destruct (decide (Forall P l)) as [Ha|Ha]; [by left|right].
  apply not_Forall_Exists in Ha; [|apply _]. apply Exists_exists in Ha. destruct Ha as (x & [i Hx]%list_elem_of_lookup_1 & Hn). eauto.
Qed.

Lemma pushers_work c :
  ends c -> ctx (sh c) = true -> nagg <> 0%nat -> room OutputC (sh c) -> idle Aggregations (sh c) -> can_work c.
Proof.
  intros He Hctx Hn Hr Hi. destruct (lookup_or_Forall (fun x => ~ is_sending x) (pushers c)) as [Hs|(i & x & Hx & Hs)].
  - destruct (adder c) eqn:Ea; [by apply adder_works; rewrite ?Ea..|].
    destruct (lookup_or_Forall (fun x => (if x is UExit then true else false) = true) (pushers c)) as [Hu|(i & x & Hx & Hu)].
    + eexists. apply s_u_close; [lia| |by destruct Hi]. eapply Forall_impl; [exact Hu|]. by intros [].
    + assert (x = UWait) as -> by (destruct x; [done| |done]; by destruct (Forall_lookup_1 _ _ _ _ Hs Hx)).
      destruct (e_push i (world (sh c))) eqn:Ep. eexists. eapply s_u_final; [done| |done]. by apply (en_actx _ He).
  - destruct x as [|f [|m ms]|]; try (by destruct Hs; intros []).
    + eexists. by eapply s_u_sent.
    + eexists. eapply s_u_send; [done|by apply idle_room].
Qed.

Lemma out_src_works c : ends c -> ctx (sh c) = true -> idle out_src (sh c) -> can_work c.
Proof.
  intros He Hctx Hi. destruct out_src_cases as [[Hn Hs]|[Hn Hs]]; rewrite Hs in Hi; [by apply agg_src_works|].
  pose proof (idle_room _ _ Hi) as Hroom. pose proof (en_relay_k _ He) as Hk.
  assert (relay c <> PExit) as Hx by (intros Hx; apply (en_out _ He Hn) in Hx; destruct Hi; congruence).
  destruct (decide ((if relay c is PWait then true else false) = true)) as [Hw|Hw].
  - destruct (relay c) eqn:E; try done. destruct (decide ((if adder c is AExit then true else false) = true)) as [Ha|Ha].
    + eexists. apply s_relay_exit; [done|]. by destruct (adder c).
    + apply adder_works; [done..|by intros Ea; rewrite Ea in Ha|]. destruct (en_relay_src _ He Hn) as [Hc _]; [by left|].
      apply (en_aggr _ He) in Hc. eapply Forall_impl; [exact Hc|]. intros x ->. by intros [].
  - destruct (apply_works Aggregations OutputC note_relayed (relay c) (sh c)) as [(x & s & Ha)|[Hr [Hd|Hd]]]; [done|by destruct (relay c)|..].
    + eexists. by apply s_relay.
    + eexists. by apply s_relay_wait.
    + by apply pushers_work.
Qed.

(** When the outputs' source is drained everything before has ended. *)
Lemma drained_upstream c : ends c -> drained out_src (sh c) -> relay c = PExit /\ adder c = AExit /\ proc c = PExit /\ closer c = CExit.
Proof.
  intros He Hd. assert (relay c = PExit) as Hr.
  { destruct out_src_cases as [[Hn Hs]|[Hn Hs]]; [by apply (en_noagg _ He)|]. rewrite Hs in Hd. apply (en_out _ He Hn), Hd. }
  pose proof (en_relay _ He Hr) as Ha. assert (drained agg_src (sh c)) as Hg.
  { destruct out_src_cases as [[Hn Hs]|[Hn Hs]]; [by rewrite Hs in Hd|by apply (en_adder_src _ He)]. }
  assert (proc c = PExit) as Hp.
  { destruct agg_src_cases as [[Hn Hs]|[Hn Hs]]; [by apply (en_noproc _ He)|]. rewrite Hs in Hg. apply (en_proc _ He Hn), Hg. }
  repeat (split; [done|]). apply (en_in _ He).
  destruct agg_src_cases as [[Hn Hs]|[Hn Hs]]; [rewrite Hs in Hg; apply Hg|by apply (en_proc_src _ He)].
Qed.

Lemma work_or_finished c : ends c -> ctx (sh c) = true -> finished c = false -> can_work c.
Proof.
  intros He Hctx Hf. pose proof (en_dist_k _ He) as Hk. destruct (dist c) as [|m k|] eqn:Ed.
  - destruct (chan_cases out_src (sh c)) as [(m & b & Hb)|[Hd|Hd]].
    + eexists. by eapply s_d_recv.
    + eexists. by apply s_d_exit.
    + by apply out_src_works.
  - destruct (decide (k = nout)) as [->|]; [eexists; by eapply s_d_next|].
    destruct (decide (S k = nout)); [eexists; by eapply s_d_last|].
    destruct (e_copy m (world (sh c))) eqn:Ec. eexists. eapply s_d_copy; [done|lia|done].
  - pose proof (proj2 (en_octx _ He) Ed) as Ho.
    destruct (lookup_or_Forall flush_done (flushers c)) as [Hd|(i & x & Hx & Hn)].
    + destruct (drained_upstream c He (en_dist_src _ He Ed)) as (Hr & _ & Hp & Hc). eexists. by apply s_finish.
    + destruct x as [[]| | |]; [eexists; by eapply (s_f_aligned _ _ true)|eexists; by eapply s_f_abort|eexists; eapply s_f_final; by eauto..|by destruct Hn].
Qed.

(** The measure: for each stage, in their order, how much it has before it. *)
Definition blen (x : cid) (cs : cid -> chan M) : nat := length (buf (cs x)).
Definition in_rank (x : in_st M) : nat := match x with IAlign _ => 4 | IJitter _ => 3 | IGather _ => 2 | ITick => 1 | IExit => 0 end.
Definition to_gather (x : in_st M) : list M := match x with IGather ms => ms | _ => [] end.
Definition closer_rank (x : closer_st) : nat := match x with CRunning => 2 | CStopped => 1 | CExit => 0 end.
Definition proc_rank (x : proc_st M) : nat :=
  match x with PApply _ k _ => 4 + (nproc - k) | PSend _ => 3 | PRecv => 2 | PWait => 1 | PExit => 0 end.
Definition add_rank (x : add_st M) : nat := match x with AAdd _ k _ => 2 + (nagg - k) | ARecv => 1 | AExit => 0 end.
Definition push_rank (x : push_st M) : nat := match x with USend false _ => 3 | UWait => 2 | USend true _ => 1 | UExit => 0 end.
Definition dist_rank (x : dist_st M) : nat := match x with DAdd _ k => 2 + (nout - k) | DRecv => 1 | DExit => 0 end.
Definition flush_rank (x : flush_st) : nat := match x with FAlign _ => 3 | FCheck => 2 | FSelect => 1 | FExit _ => 0 end.

Definition measure c : list nat :=
  [sum_list_with in_rank (ins c) + closer_rank (closer c); sum_list_with (length ∘ to_gather) (ins c);
   blen InputC (chans (sh c)); proc_rank (proc c); length (unsent (proc c));
   blen agg_src (chans (sh c)); add_rank (adder c);
   sum_list_with push_rank (pushers c) + (if closed (chans (sh c) Aggregations) then 0 else 1);
   sum_list_with (length ∘ to_push) (pushers c);
   blen Aggregations (chans (sh c)); proc_rank (relay c); length (unsent (relay c));
   blen out_src (chans (sh c)); dist_rank (dist c);
   sum_list_with flush_rank (flushers c); if finished c then 0 else 1]%nat.

Lemma blen_send x y m s : y <> x -> blen y (chans (send x m s)) = blen y (chans s).
Proof. intros Hy. unfold blen. cbn. by rewrite decide_False. Qed.
Lemma blen_take x y m b s : buf (chans s x) = m :: b -> (blen y (chans (take_from x m s)) + (if decide (y = x) then 1 else 0) = blen y (chans s))%nat.
Proof. intros Hb. unfold blen. cbn. case_decide; [subst; rewrite Hb; cbn; lia|lia]. Qed.
Lemma blen_close x y s : blen y (chans (close_chan x s)) = blen y (chans s).
Proof. unfold blen. cbn. by case_decide. Qed.

Lemma apply_step_measure src dst note x s x' s' :
  apply_step src dst note x s x' s' -> note = note_processed \/ note = note_relayed ->
  (blen src (chans s') < blen src (chans s) /\ forall y, blen y (chans s') <= blen y (chans s))%nat \/
  ((forall y, y <> dst -> blen y (chans s') = blen y (chans s)) /\
   (proc_rank x' < proc_rank x \/ (proc_rank x' <= proc_rank x /\ length (unsent x') < length (unsent x)))%nat).
Proof.
  intros Hs Hn. destruct Hs.
  - left. split; [|intros y]; [pose proof (blen_take src src m b s ltac:(done))|pose proof (blen_take src y m b s ltac:(done))];
      case_decide; (done || lia).
  - right. split; [done|]. cbn. lia.
  - right. split; [by destruct Hn as [-> | ->]|]. cbn. lia.
  - right. split; [intros y Hy; by apply blen_send|]. cbn. lia.
  - right. split; [done|]. cbn. lia.
Qed.

(** Facts on the lists and buffers that a step changes, then the components one after the other. *)
Ltac sums := repeat match goal with
  | H : ?l !! ?i = Some ?x |- context [sum_list_with ?f (<[?i := ?y]> ?l)] =>
    let S := fresh in pose proof (sum_list_insert f l i x y H) as S; cbn in S; revert S; generalize (sum_list_with f (<[i := y]> l)); intros ? S
  end.
Ltac takes := match goal with
  | H : buf (chans _ ?x) = _ :: _ |- _ =>
    pose proof (blen_take x InputC _ _ _ H); pose proof (blen_take x agg_src _ _ _ H); pose proof (blen_take x Aggregations _ _ _ H);
    pose proof (blen_take x out_src _ _ _ H); pose proof (decide_True (P := x = x) 1%nat 0%nat eq_refl)
  end.
Ltac sends := rewrite ?blen_send by (src_cases; congruence).
Ltac at_rank := first [lia | sends; lia | cbn; lia].
Ltac lex := cbn [llt length]; repeat first [left; split; [at_rank|reflexivity] | right; split; [at_rank|]].
Ltac now_at := repeat match goal with
  | H : closer _ = _ |- _ => rewrite H | H : proc _ = _ |- _ => rewrite H | H : adder _ = _ |- _ => rewrite H
  | H : relay _ = _ |- _ => rewrite H | H : dist _ = _ |- _ => rewrite H | H : finished _ = _ |- _ => rewrite H end.

Lemma work_decreases c c' : step Work c c' -> llt (measure c') (measure c).
Proof.
  intros Hs. remember Work as k eqn:Hk. destruct Hs; try discriminate.
  all: try match goal with Hz : (if ?z then Work else Outside) = Work |- _ => destruct z; [|discriminate] end.
  all: try match goal with Ha : apply_step _ _ _ _ _ _ _ |- _ =>
    pose proof (apply_step_frame _ _ _ _ _ _ _ Ha ltac:(by auto)) as (Fa & _); specialize (Fa Aggregations);
    destruct (apply_step_measure _ _ _ _ _ _ _ Ha ltac:(by auto)) as [[? Hle]|[Hle Hr]];
      [pose proof (Hle InputC); pose proof (Hle agg_src)
      |pose proof (Hle InputC ltac:(done)); try pose proof (Hle Aggregations ltac:(done));
       try pose proof (Hle agg_src ltac:(by destruct agg_src_cases as [[_ ->]|[_ ->]])); destruct Hr] end.
  all: try match goal with Hx : in_waits ?x |- _ => destruct x as [[]|[]| | |]; try done end.
  all: try match goal with Hx : ?x = FCheck \/ _ |- _ => destruct Hx as [-> | ->] end.
  all: try match goal with Hx : _ !! _ = Some (USend ?f []) |- _ => destruct f end.
  all: unfold measure; conf_cbn; now_at; chan_cbn; rewrite ?blen_close, ?closed_send, ?closed_close, ?closed_take, ?H2, ?Fa;
    rewrite ?(bool_decide_false (Aggregations = _)), ?bool_decide_true by done; cbn [orb]; sums; try takes; try (by lex).
Qed.

(** After the end nothing moves but the context. *)
Definition at_end c : Prop := finished c = true -> dist c = DExit /\ Forall flush_done (flushers c).

Lemma step_at_end k c c' : step k c c' -> at_end c -> at_end c'.
Proof.
  unfold at_end. intros Hs Ha. destruct Hs; conf_cbn; try exact Ha; try (intros Hf; destruct (Ha Hf) as [Hd Hfl]); try congruence; try done.
  all: match goal with Hi : flushers _ !! _ = Some _ |- _ => pose proof (Forall_lookup_1 _ _ _ _ Hfl Hi) as Hx end; try done.
  all: match goal with Hx : _ = FCheck \/ _ |- _ => by destruct Hx as [-> | ->] end.
Qed.

(** Without round intervals no output waits to be aligned, and each flushes at its end. *)
Definition flushes (x : flush_st) : Prop := match x with FAlign _ | FExit false => False | _ => True end.

Lemma step_flushes k c c' : step k c c' -> Forall flushes (flushers c) -> Forall flushes (flushers c').
Proof.
  intros Hs Hf. destruct Hs; conf_cbn; try exact Hf; try (by apply Forall_insert).
  match goal with Hi : flushers _ !! _ = Some _ |- _ => by destruct (Forall_lookup_1 _ _ _ _ Hf Hi) end.
Qed.

(** All that entered left: the record of what was done, when every stage has ended. *)
Record delivered c : Prop := {
  dl_proc : nproc <> 0%nat -> (processed (sh c)).*1 = sent (chans (sh c) InputC) /\ results (processed (sh c)) = sent (chans (sh c) ProcC);
  dl_proc_ok : Forall (fun e => applied nproc e.1 e.2) (processed (sh c) ++ relayed (sh c));
  dl_add : nagg <> 0%nat -> (decided (sh c)).*1 = sent (chans (sh c) agg_src);
  dl_add_ok : Forall (fun e => added nagg e.1 e.2) (decided (sh c));
  dl_push : nagg <> 0%nat -> Permutation (relayed (sh c)).*1 (results (pushed (sh c)));
  dl_pushed i : (i < nagg)%nat -> unpushed (sh c) i = [];
  dl_relay : nagg <> 0%nat -> Permutation (sent (chans (sh c) OutputC)) (passed (decided (sh c)) ++ results (relayed (sh c)));
  dl_given i : (i < nout)%nat -> written (sh c) i ++ unwritten (sh c) i = sent (chans (sh c) out_src);
  dl_written i : flushers c !! i = Some (FExit true) -> written (sh c) i = sent (chans (sh c) out_src);
}.

Lemma fifo_drained x s : fifo s -> drained x s -> recv (chans s x) = sent (chans s x).
Proof. intros Hf [_ Hb]. destruct (Hf x) as [-> _]. by rewrite Hb, app_nil_r. Qed.

Lemma none_to_push l : Forall (fun x => x = UExit) l -> flat_map to_push l = [].
Proof. induction 1 as [|x l -> _ IH]; [done|exact IH]. Qed.

Lemma end_delivered c : ends c -> flow c -> dist c = DExit -> delivered c.
Proof.
  intros He [Hfi [P1 P2 P3 _] [A1 A2 _] [U1 _ U3] [R1 R2 R3 _] [D1 D2]] Hd. pose proof (en_dist_src _ He Hd) as Hds.
  destruct (drained_upstream _ He Hds) as (Hr & Ha & Hp & _). rewrite Hp in *. rewrite Ha in *. rewrite Hr in *. rewrite Hd in *.
  cbn in P1, P2, A1, R1, R2. rewrite ?app_nil_r in P2. rewrite ?app_nil_r in A1. rewrite ?app_nil_r in P1.
  rewrite ?app_nil_r in R1. rewrite ?app_nil_r in R2. pose proof (fifo_drained _ _ Hfi Hds) as Ho.
  assert (nagg <> 0%nat -> drained Aggregations (sh c) /\ Forall (fun x : push_st M => x = UExit) (pushers c)) as Hu.
  { intros Hn. pose proof (en_relay_src _ He Hn (or_intror Hr)) as Hg. split; [done|]. by apply (en_aggr _ He), Hg. }
  constructor; try done.
  - intros Hn. rewrite <- (P1 Hn). split; [|done]. apply fifo_drained; [done|]. by apply (en_proc_src _ He).
  - by apply Forall_app.
  - intros Hn. rewrite <- (A1 Hn). apply fifo_drained; [done|]. by apply (en_adder_src _ He).
  - intros Hn. destruct (Hu Hn) as [Hg Hx]. rewrite <- R1, (fifo_drained _ _ Hfi Hg), <- U1.
    by rewrite (none_to_push _ Hx), app_nil_r.
  - intros i Hi. destruct (Hu ltac:(lia)) as [_ Hx]. destruct (lookup_lt_is_Some_2 (pushers c) i) as [x Hix]; [by rewrite (en_pushers _ He)|].
    eapply U3; [exact Hix|]. left. by apply (Forall_lookup_1 _ _ _ _ Hx Hix).
  - intros i Hi. specialize (D1 i Hi). cbn in D1. by rewrite app_nil_r, Ho in D1.
  - intros i Hi. assert (i < nout)%nat as Hl by (rewrite <- (en_flushers _ He); by eapply lookup_lt_Some).
    specialize (D1 i Hl). rewrite (D2 i Hi) in D1. cbn in D1. by rewrite app_nil_r, Ho in D1.
Qed.

Lemma work_acc c : Acc (fun c' c => step Work c c') c.
Proof.
  remember (measure c) as l eqn:Hl. revert c Hl. induction l as [l IH] using (well_founded_ind llt_wf). intros c ->.
  constructor. intros c' Hs. eapply IH; [|done]. by apply work_decreases.
Qed.

Lemma ctx_stays k c c' : step k c c' -> ctx (sh c) = true -> ctx (sh c') = true.
Proof.
  intros Hs Hc. destruct Hs; conf_cbn; try (cbn; by rewrite ?Hc).
  all: match goal with Ha : apply_step _ _ ?n _ _ _ _ |- _ => by destruct Ha end.
Qed.

(** The invariants of every state that [Run] reaches. *)
Definition running_inv (round : bool) c : Prop :=
  ends c /\ flow c /\ at_end c /\ (round = false -> Forall flushes (flushers c)).

Lemma step_running k round c c' : step k c c' -> running_inv round c -> running_inv round c'.
Proof.
  intros Hs (He & Hf & Ha & Hr). split; [by eapply step_ends|]. split; [by eapply step_flow|].
  split; [by eapply step_at_end|]. intros H0. by eapply step_flushes, Hr.
Qed.

Lemma steps_running round a c : rtc any_step a c -> running_inv round a -> running_inv round c.
Proof. induction 1 as [|a a' c [k Hs] _ IH]; [done|]. intros Hi. by eapply IH, step_running. Qed.

Lemma reachable_running round zin zout ms w c : (length ms <= chan_cap)%nat -> reachable round zin zout ms w c -> running_inv round c.
Proof.
  intros Hms Hr. apply (steps_running _ _ _ Hr). split; [apply initial_ends|]. split; [by apply initial_flow|].
  split; [done|]. intros ->. by apply Forall_fmap, Forall_true.
Qed.

Lemma works_running round c c' :
  rtc (step Work) c c' -> running_inv round c -> ctx (sh c) = true -> running_inv round c' /\ ctx (sh c') = true.
Proof.
  induction 1 as [|a a' c Hs _ IH]; [done|]. intros Hi Hc. apply IH; [by eapply step_running|by eapply ctx_stays].
Qed.

Lemma finished_dec c : finished c = true \/ finished c = false.
Proof. destruct (finished c); auto. Qed.

Lemma works_to_the_end round c : running_inv round c -> ctx (sh c) = true -> exists c', rtc (step Work) c c' /\ finished c' = true.
Proof.
  induction (work_acc c) as [c _ IH]. intros Hi Hc. destruct (finished_dec c) as [Hf|Hf]; [by exists c|].
  destruct (work_or_finished c (proj1 Hi) Hc Hf) as [c1 Hs].
  destruct (IH c1 Hs) as (c' & Hr & Hf'); [by eapply step_running|by eapply ctx_stays|]. exists c'. split; [by eapply rtc_l|done].
Qed.

Lemma flushes_exit x : flushes x -> flush_done x -> x = FExit true.
Proof. by destruct x as [| | |[]]. Qed.

Lemma finished_delivered round c :
  running_inv round c -> finished c = true ->
  delivered c /\ (round = false -> forall i, (i < nout)%nat -> written (sh c) i = sent (chans (sh c) out_src)).
Proof.
  intros (He & Hf & Ha & Hr) Hfi. destruct (Ha Hfi) as [Hd Hfl]. pose proof (end_delivered c He Hf Hd) as Hdel. split; [done|].
  intros Hr0 i Hi. apply (dl_written _ Hdel). destruct (lookup_lt_is_Some_2 (flushers c) i) as [x Hx]; [by rewrite (en_flushers _ He)|].
  rewrite Hx. f_equal. apply flushes_exit; [by apply (Forall_lookup_1 _ _ _ _ (Hr Hr0) Hx)|by apply (Forall_lookup_1 _ _ _ _ Hfl Hx)].
Qed.

(** C3: the agent shuts down. Once the context of [Run] is done, from whatever the goroutines are doing then, the
    work that is left ends whatever its order ([Acc]); as long as [Run] has not returned there is work to do, so no
    goroutine waits for ever for another; and when it returns, every metric that was sent to the input channel, or in it
    from the start, went through the processors, every metric they made went to the aggregators and is dropped or passed on, every
    aggregator pushed after its last addition, every aggregate went through the processors, and each
    output was given all of these, in the same order, and wrote after the last one unless it was still aligning its
    interval, which needs [RoundInterval]. *)
Theorem Pipeline_shutdown round zin zout ms w c :
  (length ms <= chan_cap)%nat -> reachable round zin zout ms w c -> ctx (sh c) = true ->
  Acc (fun c' c => step Work c c') c /\
  (exists c', rtc (step Work) c c' /\ finished c' = true) /\
  (forall c', rtc (step Work) c c' -> finished c' = true \/ can_work c') /\
  (forall c', rtc (step Work) c c' -> finished c' = true ->
     delivered c' /\ (round = false -> forall i, (i < nout)%nat -> written (sh c') i = sent (chans (sh c') out_src))).
Proof.
  intros Hms Hr Hc. pose proof (reachable_running _ _ _ _ _ _ Hms Hr) as Hi.
  split; [apply work_acc|]. split; [by eapply works_to_the_end|]. split; intros c' Hs.
  - destruct (works_running _ _ _ Hs Hi Hc) as [[He _] Hc']. destruct (finished_dec c'); [by left|right; by apply work_or_finished].
  - destruct (works_running _ _ _ Hs Hi Hc) as [Hi' _]. by apply finished_delivered.
Qed.

(** C7: whatever the interleaving, no goroutine sends on a closed channel or closes one twice, which would
    panic; every channel is first in, first out and holds at most 100 metrics; a channel is closed only when all that
    send on it have ended; and once [Run] has returned nothing is left in any channel that is in use. *)
Theorem Pipeline_channels round zin zout ms w c :
  (length ms <= chan_cap)%nat -> reachable round zin zout ms w c ->
  panicked (sh c) = false /\ fifo (sh c) /\
  (closed (chans (sh c) InputC) = true -> closer c = CExit /\ Forall (fun x => x = IExit) (ins c)) /\
  (nproc <> 0%nat -> closed (chans (sh c) ProcC) = true -> proc c = PExit) /\
  (closed (chans (sh c) Aggregations) = true -> Forall (fun x => x = UExit) (pushers c)) /\
  (nagg <> 0%nat -> closed (chans (sh c) OutputC) = true -> relay c = PExit /\ adder c = AExit) /\
  (finished c = true -> drained out_src (sh c) /\ (nagg <> 0%nat -> drained agg_src (sh c) /\ drained Aggregations (sh c)) /\
    (nproc <> 0%nat -> drained InputC (sh c))).
Proof.
  intros Hms Hr. destruct (reachable_running _ _ _ _ _ _ Hms Hr) as (He & Hf & Ha & _).
  split; [apply (en_panic _ He)|]. split; [apply (fl_fifo _ Hf)|]. split.
  { intros Hc. apply (en_in _ He) in Hc. split; [done|]. apply (en_ins _ He). congruence. }
  split; [by intros Hn; apply (en_proc _ He)|]. split; [apply (en_aggr _ He)|]. split.
  { intros Hn Hc. apply (en_out _ He) in Hc; [|done]. split; [done|by apply (en_relay _ He)]. }
  intros Hfi. destruct (Ha Hfi) as [Hd _]. pose proof (en_dist_src _ He Hd) as Hs. destruct (drained_upstream _ He Hs) as (Hre & Had & Hp & _).
  split; [done|]. split; intros Hn; [|by apply (en_proc_src _ He)].
  split; [by apply (en_adder_src _ He)|apply (en_relay_src _ He Hn); by right].
Qed.

End Run.

(** ** A configuration of one processor, one aggregator and two outputs *)

(** The processor doubles a metric, the aggregator counts the metrics it is given and drops them. *)
Definition ex_env : PluginEnv nat nat := {|
  e_apply _ ms w := (flat_map (fun m => [m; m]) ms, w);
  e_add _ _ w := (true, S w);
  e_push _ w := ([w], 0%nat);
  e_drop _ w := w;
  e_copy m w := (m, w);
  e_out _ _ w := w;
  e_write _ w := w;
  e_writeBatch _ w := w;
  e_close _ w := w;
|}.
#[local] Existing Instance ex_env.

Definition ex_start : conf nat nat := initial 1 1 2 true [false] (fun _ => true) [7%nat] 0%nat.
Definition ex_cancelled : conf nat nat := set_sh (set_ctxs true false false (sh ex_start)) ex_start.
Lemma ex_cancelled_reachable : reachable 1 1 2 true [false] (fun _ => true) [7%nat] 0%nat ex_cancelled.
Proof. apply rtc_once. exists Outside. apply s_cancel. Qed.

Lemma Pipeline_shutdown_witness : exists c, rtc (step 1 1 2 Work) ex_cancelled c /\ finished c = true.
Proof.
  apply (Pipeline_shutdown 1 1 2 true [false] (fun _ => true) [7%nat] 0%nat ex_cancelled); [cbn; unfold chan_cap; lia|apply ex_cancelled_reachable|reflexivity].
Defined.

Lemma Pipeline_channels_witness : panicked (sh ex_cancelled) = false.
Proof. apply (Pipeline_channels 1 1 2 true [false] (fun _ => true) [7%nat] 0%nat ex_cancelled); [cbn; unfold chan_cap; lia|apply ex_cancelled_reachable]. Defined.

(** With [RoundInterval], [Run] can return without any write of a metric that it gave to its output, when it is stopped
    before the first flush interval: [flushLoop] returns from the alignment sleep. *)
Lemma aligning_output_never_writes {M W} `{PluginEnv M W} m w :
  exists c, reachable 0 0 1 true [] (fun _ => false) [m] w c /\ finished c = true /\ unwritten (sh c) 0 = [m] /\ written (sh c) 0 = [].
Proof.
  eexists. split; [|split; [|split]]; cycle 1.
  1-3: shelve.
  eapply rtc_l; [exists Outside; apply s_cancel|]. eapply rtc_l; [exists Work; by apply s_stop; [|constructor]|].
  eapply rtc_l; [exists Work; by apply s_close|]. eapply rtc_l; [exists Work; by eapply s_d_recv|].
  eapply rtc_l; [exists Work; by eapply s_d_last|]. eapply rtc_l; [exists Work; by eapply s_d_next|].
  eapply rtc_l; [exists Work; by apply s_d_exit|]. eapply rtc_l; [exists Work; by apply (s_f_abort _ _ _ _ 0)|].
  eapply rtc_l; [exists Work; apply s_finish; try done; by repeat constructor|]. apply rtc_refl.
  Unshelve. all: done.
Qed.
