(* ===== verification/Startup.v ===== *)
(** * Starting and stopping the agent

    [agent/agent.go]: what [Run] does in order, before and after the goroutines of [Pipeline]: initialise the plugins,
    connect the outputs, start the service inputs; later stop them and close the outputs. And [Test], which gathers
    once from every input.

    What a plugin does when it is called is the interface [Host]; each call leaves an event in the trace. The
    goroutines are two calls, [h_inputs] until the inputs have ended and [h_drain] until all have. *)

From S2P Require Import Prelude.

Inductive plugin := PInput (i : nat) | PProcessor (i : nat) | PAggregator (i : nat) | POutput (i : nat).

Inductive error (E : Type) := ErrInit (p : plugin) (e : E) | ErrPlugin (e : E) | ErrContext (e : E) | ErrGather.
Arguments ErrInit {E}.
Arguments ErrPlugin {E}.
Arguments ErrContext {E}.
Arguments ErrGather {E}.

Class Host (E W : Type) := {
  h_ctx : W -> option E;
  h_init : plugin -> W -> option E * W;
  h_connect : nat -> W -> option E * W;
  h_sleep : Z -> W -> option E * W;
  h_start : nat -> W -> option E * W;
  h_stop : nat -> W -> W;
  h_gather : bool -> nat -> W -> option E * W;
  h_inputs : W -> W;
  h_drain : W -> W;
  h_close : nat -> W -> W;
}.

(** What happened, with how it ended. *)
Inductive event :=
| EInit (p : plugin) (ok : bool)
| EConnect (i : nat) (ok : bool)
| ESleep (d : Z) (ok : bool)
| EStart (i : nat) (ok : bool)
| EStop (i : nat)
| EGather (kept : bool) (i : nat) (ok : bool)
| EInputs
| EDrain
| EClose (i : nat).

(** An input: its name and whether it is a service. *)
Record input := mkInput { in_name : string; in_service : bool }.

Record config := mkConfig { inputs : list input; nprocessors : nat; naggregators : nat; noutputs : nat }.

Definition seconds (n : Z) : Z := n * 1000000000.

(** ** Calls that leave a trace and may fail *)

Section Calls.
Context {E W : Type} `{Host E W}.

Definition st : Type := W * list event.
Definition call (A : Type) : Type := st -> A * st.
Definition result : Type := option (error E).

Definition ret {A} (a : A) : call A := fun s => (a, s).
Definition bind {A B} (x : call A) (f : A -> call B) : call B := fun s => let '(a, s) := x s in f a s.
(** Go on unless there is an error. *)
Definition andThen (x y : call result) : call result := bind x (fun r => match r with None => y | Some e => ret (Some e) end).

Definition does (f : W -> W) (e : event) : call unit := fun s => (tt, (f s.1, s.2 ++ [e])).
Definition tries (f : W -> option E * W) (e : bool -> event) : call (option E) :=
  fun s => let '(r, w) := f s.1 in (r, (w, s.2 ++ [e (if r is None then true else false)])).

Fixpoint each {A} (f : A -> call result) (l : list A) : call result :=
  match l with [] => ret None | a :: l => andThen (f a) (each f l) end.
Fixpoint each_ {A} (f : A -> call unit) (l : list A) : call unit :=
  match l with [] => ret tt | a :: l => bind (f a) (fun _ => each_ f l) end.

(** ** The agent *)

Definition init_one (p : plugin) : call result := bind (tries (h_init p) (EInit p)) (fun r => ret (ErrInit p <$> r)).

Definition initPlugins (c : config) : call result :=
  andThen (each init_one (PInput <$> seq 0 (length (inputs c))))
  (andThen (each init_one (PProcessor <$> seq 0 (nprocessors c)))
  (andThen (each init_one (PAggregator <$> seq 0 (naggregators c)))
           (each init_one (POutput <$> seq 0 (noutputs c))))).

Definition connect_one (i : nat) : call result :=
  bind (tries (h_connect i) (EConnect i)) (fun r =>
  match r with
  | None => ret None
  | Some _ =>
    bind (tries (h_sleep (seconds 15)) (ESleep (seconds 15))) (fun r =>
    match r with
    | Some e => ret (Some (ErrContext e))
    | None => bind (tries (h_connect i) (EConnect i)) (fun r => ret (ErrPlugin <$> r))
    end)
  end).

Definition connectOutputs (c : config) : call result := each connect_one (seq 0 (noutputs c)).

Definition closeOutputs (c : config) : call unit := each_ (fun i => does (h_close i) (EClose i)) (seq 0 (noutputs c)).

Definition stop_one (i : nat) : call unit := does (h_stop i) (EStop i).

(** The service inputs, by their places among the inputs. *)
Definition services (c : config) : list nat :=
  fst <$> filter (fun p : nat * input => in_service p.2 = true) (zip (seq 0 (length (inputs c))) (inputs c)).

Fixpoint start_services (l started : list nat) : call result :=
  match l with
  | [] => ret None
  | i :: l =>
    bind (tries (h_start i) (EStart i)) (fun r =>
    match r with
    | Some e => bind (each_ stop_one started) (fun _ => ret (Some (ErrPlugin e)))
    | None => start_services l (started ++ [i])
    end)
  end.

Definition startServiceInputs (c : config) : call result := start_services (services c) [].

Definition stopServiceInputs (c : config) : call unit := each_ stop_one (services c).

Definition ctx_result : call result := fun s => (ErrContext <$> h_ctx s.1, s).

Definition Run (c : config) : call result :=
  andThen ctx_result
  (andThen (initPlugins c)
  (andThen (connectOutputs c)
  (andThen (startServiceInputs c)
  (bind (does h_inputs EInputs) (fun _ =>
   bind (stopServiceInputs c) (fun _ =>
   bind (does h_drain EDrain) (fun _ =>
   bind (closeOutputs c) (fun _ => ret None)))))))).

(** [Test]: some inputs are gathered from twice, the first time for nothing. *)
Definition twice (i : input) : bool :=
  bool_decide (in_name i = "cpu" \/ in_name i = "mongodb" \/ in_name i = "procstat").

Definition gather_one (i : nat) (x : input) : call bool :=
  let gather (kept : bool) := bind (tries (h_gather kept i) (EGather kept i)) (fun r => ret (if r is None then false else true)) in
  if twice x then
    bind (gather false) (fun e1 =>
    bind (tries (h_sleep (seconds 1 / 2)) (fun _ => ESleep (seconds 1 / 2) true)) (fun _ =>
    bind (gather true) (fun e2 => ret (e1 || e2))))
  else gather true.

(** The loop over the inputs: [None] when the context is done. *)
Fixpoint gather_all (l : list (nat * input)) (hasErrors : bool) : call (option bool) :=
  match l with
  | [] => ret (Some hasErrors)
  | (i, x) :: l => fun s =>
    match h_ctx s.1 with
    | Some _ => (None, s)
    | None => bind (gather_one i x) (fun e => gather_all l (hasErrors || e)) s
    end
  end.

Definition Test (c : config) (waitDuration : Z) : call result :=
  let hasServiceInputs := existsb in_service (inputs c) in
  andThen (initPlugins c)
  (andThen (if hasServiceInputs then startServiceInputs c else ret None)
  (bind (gather_all (zip (seq 0 (length (inputs c))) (inputs c)) false) (fun r =>
   match r with
   | None => ret None
   | Some hasErrors =>
     bind (if hasServiceInputs then
             bind (if waitDuration =? 0 then ret None else tries (h_sleep waitDuration) (ESleep waitDuration)) (fun _ =>
             stopServiceInputs c)
           else ret tt) (fun _ =>
     ret (if hasErrors then Some ErrGather else None))
   end))).

End Calls.

(** ** What the trace says *)

#[export] Instance plugin_eq_dec : EqDecision plugin.
Proof. solve_decision. Defined.
#[export] Instance event_eq_dec : EqDecision event.
Proof. solve_decision. Defined.

Definition starts (tr : list event) : list nat := flat_map (fun e => match e with EStart i true => [i] | _ => [] end) tr.
Definition stops (tr : list event) : list nat := flat_map (fun e => match e with EStop i => [i] | _ => [] end) tr.
Definition closes (tr : list event) : list nat := flat_map (fun e => match e with EClose i => [i] | _ => [] end) tr.
Definition connects (tr : list event) : list nat := flat_map (fun e => match e with EConnect i true => [i] | _ => [] end) tr.
Definition attempts (i : nat) (tr : list event) : nat := length (filter (fun e => e = EConnect i true \/ e = EConnect i false) tr).

Section Traces.
Context {E W : Type} `{Host E W}.
#[local] Notation call := (call (W := W)).
#[local] Notation result := (result (E := E)).

(** What a call adds to the trace, with what it returns. *)
Definition adds {A} (x : call A) (P : A -> list event -> Prop) : Prop :=
  forall s, exists tr, (x s).2.2 = s.2 ++ tr /\ P (x s).1 tr.

Lemma adds_weaken {A} (x : call A) (P Q : A -> list event -> Prop) : adds x P -> (forall a tr, P a tr -> Q a tr) -> adds x Q.
Proof. intros Hx HPQ s. destruct (Hx s) as (tr & ? & ?). exists tr. auto. Qed.
Lemma adds_ret {A} (a : A) (P : A -> list event -> Prop) : P a [] -> adds (ret a) P.
Proof. intros HP s. exists []. by rewrite app_nil_r. Qed.
Lemma adds_bind {A B} (x : call A) (f : A -> call B) (Q : A -> list event -> Prop) (P : B -> list event -> Prop) :
  adds x Q -> (forall a t, Q a t -> adds (f a) (fun b t' => P b (t ++ t'))) -> adds (bind x f) P.
Proof.
  intros Hx Hf s. unfold bind. destruct (Hx s) as (t & Ht & HQ). destruct (x s) as [a s']. cbn in *.
  destruct (Hf a t HQ s') as (t' & Ht' & HP). exists (t ++ t'). split; [|done]. by rewrite Ht', Ht, app_assoc.
Qed.
Lemma adds_tries (f : W -> option E * W) e (P : option E -> list event -> Prop) :
  P None [e true] -> (forall r, P (Some r) [e false]) -> adds (tries f e) P.
Proof. intros HN HS s. unfold tries. destruct (f s.1) as [[r|] w]; cbn; eauto. Qed.
Lemma adds_does f e (P : unit -> list event -> Prop) : P tt [e] -> adds (does f e) P.
Proof. intros HP s. cbn. eauto. Qed.
Lemma adds_andThen (x y : call result) (Q P : result -> list event -> Prop) :
  adds x Q -> (forall e t, Q (Some e) t -> P (Some e) t) -> (forall t, Q None t -> adds y (fun b t' => P b (t ++ t'))) -> adds (andThen x y) P.
Proof.
  intros Hx He Hy. eapply adds_bind; [exact Hx|]. intros [e|] t HQ; [|by apply Hy]. apply adds_ret. rewrite app_nil_r. by apply He.
Qed.

Lemma adds_each_ {A} (f : A -> call unit) (g : A -> event) l :
  (forall a, adds (f a) (fun _ tr => tr = [g a])) -> adds (each_ f l) (fun _ tr => tr = g <$> l).
Proof.
  intros Hf. induction l as [|a l IH]; [by apply adds_ret|]. cbn. eapply adds_bind; [apply Hf|]. intros [] t ->.
  eapply adds_weaken; [exact IH|]. by intros [] t ->.
Qed.

(** A loop that stops at the first error: [P] of what came before and [Q] at the error. *)
Lemma adds_each {A} (f : A -> call result) (P : list A -> list event -> Prop) (Q : list event -> Prop) l :
  P [] [] ->
  (forall p a q t, l = p ++ a :: q -> P p t ->
     adds (f a) (fun r t' => match r with None => P (p ++ [a]) (t ++ t') | Some _ => Q (t ++ t') end)) ->
  adds (each f l) (fun r t => match r with None => P l t | Some _ => Q t end).
Proof.
  intros H0 Hf. assert (forall q p t, l = p ++ q -> P p t ->
    adds (each f q) (fun r t' => match r with None => P (p ++ q) (t ++ t') | Some _ => Q (t ++ t') end)) as Hall.
  { induction q as [|a q IH]; intros p t Hl Hp; [apply adds_ret; by rewrite !app_nil_r|]. cbn.
    eapply adds_andThen; [by eapply Hf|done|]. intros t' Ht'. eapply adds_weaken; [refine (IH (p ++ [a]) (t ++ t') _ Ht'); by rewrite <- app_assoc|].
    intros [e|] u; rewrite <- !app_assoc; done. }
  apply (Hall l [] []); done.
Qed.

Definition quiet (tr : list event) : Prop := starts tr = [] /\ stops tr = [] /\ closes tr = [] /\ connects tr = [] /\ forall i, attempts i tr = 0%nat.

Lemma starts_app t t' : starts (t ++ t') = starts t ++ starts t'.
Proof. apply flat_map_app. Qed.
Lemma stops_app t t' : stops (t ++ t') = stops t ++ stops t'.
Proof. apply flat_map_app. Qed.
Lemma closes_app t t' : closes (t ++ t') = closes t ++ closes t'.
Proof. apply flat_map_app. Qed.
Lemma connects_app t t' : connects (t ++ t') = connects t ++ connects t'.
Proof. apply flat_map_app. Qed.
Lemma attempts_app i t t' : attempts i (t ++ t') = (attempts i t + attempts i t')%nat.
Proof. unfold attempts. by rewrite filter_app, length_app. Qed.

Lemma quiet_app t t' : quiet t -> quiet t' -> quiet (t ++ t').
Proof.
  intros (S1 & P1 & C1 & N1 & A1) (S2 & P2 & C2 & N2 & A2). unfold quiet.
  rewrite starts_app, stops_app, closes_app, connects_app, S1, P1, C1, N1, S2, P2, C2, N2. repeat (split; [done|]).
  intros i. by rewrite attempts_app, A1, A2.
Qed.
Lemma quiet_event e : starts [e] = [] -> stops [e] = [] -> closes [e] = [] -> connects [e] = [] -> (forall i b, e <> EConnect i b) -> quiet [e].
Proof.
  intros S1 P1 C1 N1 A1. repeat (split; [done|]). intros i. unfold attempts. rewrite filter_cons_False; [done|]. by intros [?|?]; eapply A1.
Qed.

Lemma adds_init l : adds (each (init_one (W := W)) l) (fun _ t => quiet t).
Proof.
  eapply adds_weaken; [apply (adds_each init_one (fun _ t => quiet t) quiet)|by intros [?|] t].
  - by repeat split.
  - intros p a q t _ Ht. eapply adds_bind with (Q := fun _ t => quiet t).
    + apply adds_tries; [|intros r]; apply quiet_event; done.
    + intros r u Hu. apply adds_ret. rewrite app_nil_r. destruct r; by apply quiet_app.
Qed.

Lemma adds_quiet_then (x y : call result) : adds x (fun _ t => quiet t) -> adds y (fun _ t => quiet t) -> adds (andThen x y) (fun _ t => quiet t).
Proof.
  intros Hx Hy. eapply adds_andThen; [exact Hx|done|]. intros t Ht. eapply adds_weaken; [exact Hy|]. intros r u. by apply quiet_app.
Qed.

Lemma adds_initPlugins c : adds (initPlugins (W := W) c) (fun _ t => quiet t).
Proof.
  repeat (apply adds_quiet_then; [apply adds_init|]). apply adds_init.
Qed.

(** At most two attempts for an output, and only the last can succeed. *)
Definition silent (t : list event) : Prop := starts t = [] /\ stops t = [] /\ closes t = [].

Lemma silent_app t t' : silent t -> silent t' -> silent (t ++ t').
Proof. intros (S1 & P1 & C1) (S2 & P2 & C2). unfold silent. by rewrite starts_app, stops_app, closes_app, S1, P1, C1, S2, P2, C2. Qed.

Lemma attempts_event i j b : attempts i [EConnect j b] = if decide (i = j) then 1%nat else 0%nat.
Proof.
  unfold attempts. destruct (decide (i = j)) as [->|Hn].
  - rewrite filter_cons_True; [done|]. destruct b; auto.
  - rewrite filter_cons_False; [done|]. by intros [[= ? _]|[= ? _]].
Qed.

Lemma adds_connect_one i :
  adds (connect_one (W := W) i) (fun r t => silent t /\ connects t = (if r is None then [i] else []) /\
    forall j, (attempts j t <= if decide (j = i) then 2 else 0)%nat).
Proof.
  assert (forall d b, quiet [ESleep d b]) as Hq by (intros; by apply quiet_event).
  eapply adds_bind with (Q := fun r t => t = [EConnect i (if r is None then true else false)]).
  { by apply adds_tries. }
  intros [e|] t ->; [|apply adds_ret; repeat (split; [done|]); intros j; rewrite app_nil_r, attempts_event; case_decide; lia].
  eapply adds_bind with (Q := fun r t => exists b, t = [ESleep (seconds 15) b]); [by apply adds_tries; eauto|].
  intros r t [b ->]. destruct r as [e'|].
  - apply adds_ret. destruct (Hq (seconds 15) b) as (_ & _ & _ & _ & Ha). repeat (split; [done|]). intros j.
    rewrite app_nil_r, attempts_app, Ha, attempts_event. case_decide; lia.
  - eapply adds_bind with (Q := fun r t => t = [EConnect i (if r is None then true else false)]); [by apply adds_tries|].
    intros r t ->. apply adds_ret. destruct (Hq (seconds 15) b) as (_ & _ & _ & _ & Ha). rewrite app_nil_r. destruct r; (split; [done|]); (split; [done|]);
      intros j; rewrite !attempts_app, Ha, !attempts_event; case_decide; lia.
Qed.

Lemma seq_split p a q n : seq 0 n = p ++ a :: q -> p = seq 0 (length p) /\ a ∉ p /\ (length p < n)%nat.
Proof.
  intros Hl. assert (length p < n)%nat as Hlt.
  { apply (f_equal length) in Hl. rewrite length_seq, length_app in Hl. cbn in Hl. lia. }
  split; [|split; [|done]].
  - apply (f_equal (take (length p))) in Hl. rewrite take_app_length in Hl. rewrite <- Hl at 1. rewrite take_seq. f_equal. lia.
  - pose proof (NoDup_seq 0 n) as Hn. rewrite Hl in Hn. apply NoDup_app in Hn. destruct Hn as (_ & Hn & _). intros Ha. apply (Hn a Ha). set_solver.
Qed.

Lemma adds_connectOutputs c :
  adds (connectOutputs (W := W) c) (fun r t => silent t /\ (forall j, (attempts j t <= 2)%nat) /\
    match r with None => connects t = seq 0 (noutputs c) | Some _ => exists k, (k < noutputs c)%nat /\ connects t = seq 0 k end).
Proof.
  unfold connectOutputs. eapply adds_weaken; [apply (adds_each _
    (fun p t => silent t /\ (forall j, (attempts j t <= if decide (j ∈ p) then 2 else 0)%nat) /\ connects t = p)
    (fun t => silent t /\ (forall j, (attempts j t <= 2)%nat) /\ exists k, (k < noutputs c)%nat /\ connects t = seq 0 k))|].
  - done.
  - intros p a q t Hl (Hs & Ha & Hc). eapply adds_weaken; [apply adds_connect_one|]. intros r u (Hs' & Hc' & Ha').
    destruct (seq_split p a q _ Hl) as (Hp & Hna & Hlen). destruct r as [e|].
    + split; [by apply silent_app|]. split; [|exists (length p); split; [done|by rewrite connects_app, Hc, Hc', app_nil_r]].
      intros j. rewrite attempts_app. specialize (Ha j). specialize (Ha' j). destruct (decide (j = a)), (decide (j ∈ p)); try lia; by subst.
    + split; [by apply silent_app|]. split; [|by rewrite connects_app, Hc, Hc'].
      intros j. rewrite attempts_app. specialize (Ha j). specialize (Ha' j).
      destruct (decide (j = a)), (decide (j ∈ p)), (decide (j ∈ p ++ [a])) as [|Hj]; try lia; subst; try done; destruct Hj; set_solver.
  - intros [e|] t; [done|]. intros (Hs & Ha & Hc). split; [done|]. split; [|done]. intros j. specialize (Ha j). case_decide; lia.
Qed.

Lemma attempts_other i e : (forall j b, e <> EConnect j b) -> attempts i [e] = 0%nat.
Proof. intros He. unfold attempts. rewrite filter_cons_False; [done|]. by intros [?|?]; eapply He. Qed.
Lemma stops_EStop l : stops (EStop <$> l) = l /\ starts (EStop <$> l) = [] /\ closes (EStop <$> l) = [] /\ connects (EStop <$> l) = [] /\
  forall i, attempts i (EStop <$> l) = 0%nat.
Proof.
  induction l as [|i l (IH1 & IH2 & IH3 & IH4 & IH5)]; [done|]. cbn. repeat (split; [by f_equal|]). intros j.
  change (attempts j ([EStop i] ++ (EStop <$> l)) = 0%nat). by rewrite attempts_app, IH5, attempts_other.
Qed.
Lemma closes_EClose l : closes (EClose <$> l) = l /\ starts (EClose <$> l) = [] /\ stops (EClose <$> l) = [] /\ connects (EClose <$> l) = [] /\
  forall i, attempts i (EClose <$> l) = 0%nat.
Proof.
  induction l as [|i l (IH1 & IH2 & IH3 & IH4 & IH5)]; [done|]. cbn. repeat (split; [by f_equal|]). intros j.
  change (attempts j ([EClose i] ++ (EClose <$> l)) = 0%nat). by rewrite attempts_app, IH5, attempts_other.
Qed.

Lemma adds_start_services l : forall started,
  adds (start_services (W := W) l started) (fun r t => closes t = [] /\ connects t = [] /\ (forall i, attempts i t = 0%nat) /\
    match r with None => starts t = l /\ stops t = [] | Some _ => exists k, (k < length l)%nat /\ starts t = take k l /\ stops t = started ++ take k l end).
Proof.
  induction l as [|i l IH]; intros started; cbn; [by apply adds_ret|].
  assert (forall b j, attempts j [EStart i b] = 0%nat) as Hz by (intros b j; by apply attempts_other).
  eapply adds_bind with (Q := fun r t => t = [EStart i (if r is None then true else false)]); [by apply adds_tries|].
  intros [e|] t ->.
  - eapply adds_bind; [apply (adds_each_ _ EStop); intros a; by apply adds_does|]. intros [] t ->. apply adds_ret. rewrite app_nil_r.
    destruct (stops_EStop started) as (P1 & S1 & C1 & N1 & A1).
    rewrite closes_app, connects_app, starts_app, stops_app, P1, S1, C1, N1. do 2 (split; [done|]).
    split; [intros j; by rewrite attempts_app, A1, Hz|]. exists 0%nat. cbn. rewrite app_nil_r. split; [lia|done].
  - eapply adds_weaken; [apply IH|]. intros r t (C1 & N1 & A1 & Hr). rewrite closes_app, connects_app, starts_app, stops_app, C1, N1.
    do 2 (split; [done|]). split; [intros j; by rewrite attempts_app, A1, Hz|].
    destruct r as [e|]; [|destruct Hr as [-> ->]; done]. destruct Hr as (k & Hk & -> & ->). exists (S k). cbn. rewrite <- app_assoc. split; [lia|done].
Qed.

(** What [Run] promises about the plugins it calls. *)
Definition balanced (c : config) (r : result) (t : list event) : Prop :=
  stops t = starts t /\ closes t = (if r is None then seq 0 (noutputs c) else []) /\ (forall i, (attempts i t <= 2)%nat) /\
  (exists k, connects t = seq 0 k) /\ (r = None -> connects t = seq 0 (noutputs c) /\ starts t = services c).

Lemma adds_quiet_before (x : call result) c t0 : quiet t0 -> adds x (balanced c) -> adds x (fun r t => balanced c r (t0 ++ t)).
Proof.
  intros (S0 & P0 & C0 & N0 & A0) Hx. eapply adds_weaken; [exact Hx|]. unfold balanced. intros r t.
  rewrite starts_app, stops_app, closes_app, connects_app, S0, P0, C0, N0. intros (? & ? & Ha & ? & ?).
  repeat (split; [done|]). split; [intros i; rewrite attempts_app, A0; apply Ha|]. done.
Qed.

Lemma quiet_balanced c e t : quiet t -> balanced c (Some e) t.
Proof.
  intros (S0 & P0 & C0 & N0 & A0). unfold balanced. rewrite S0, P0, C0, N0. repeat (split; [done|]).
  split; [intros i; rewrite A0; lia|]. split; [by exists 0%nat|done].
Qed.

(** From the start of the services on, after the outputs have been connected. *)
Lemma adds_serve c :
  adds (andThen (startServiceInputs c)
    (bind (does h_inputs EInputs) (fun _ => bind (stopServiceInputs c) (fun _ =>
     bind (does h_drain EDrain) (fun _ => bind (closeOutputs c) (fun _ => ret None))))) : call result)
    (fun r t => stops t = starts t /\ closes t = (if r is None then seq 0 (noutputs c) else []) /\ connects t = [] /\ (forall i, attempts i t = 0%nat) /\
      (r = None -> starts t = services c)).
Proof.
  eapply adds_andThen; [apply adds_start_services|..].
  - intros e t (C1 & N1 & A1 & k & _ & -> & ->). repeat (split; [done|]). done.
  - intros t (C1 & N1 & A1 & S1 & P1).
    eapply adds_bind with (Q := fun _ t => t = [EInputs]); [by apply adds_does|]. intros [] ? ->.
    eapply adds_bind; [apply (adds_each_ _ EStop); intros a; by apply adds_does|]. intros [] ? ->.
    eapply adds_bind with (Q := fun _ t => t = [EDrain]); [by apply adds_does|]. intros [] ? ->.
    eapply adds_bind; [apply (adds_each_ _ EClose); intros a; by apply adds_does|]. intros [] ? ->.
    apply adds_ret. destruct (stops_EStop (services c)) as (P2 & S2 & C2 & N2 & A2).
    destruct (closes_EClose (seq 0 (noutputs c))) as (C3 & S3 & P3 & N3 & A3).
    rewrite !app_nil_r, !starts_app, !stops_app, !closes_app, !connects_app, C1, N1, S1, P1, P2, S2, C2, N2, C3, S3, P3, N3.
    do 3 (split; [cbn; by rewrite ?app_nil_r|]). split; [intros i; by rewrite !attempts_app, A1, A2, A3, !attempts_other|].
    intros _. cbn. by rewrite app_nil_r.
Qed.

(** C17: [Run] leaves no service running. However it ends, the service inputs that were started are stopped, each once and in
    the order in which they were started, also when a later one fails to start; a plugin that cannot be
    initialised ends it before anything is connected or started; an output is tried at most twice, and the outputs connected
    are the first ones. All outputs are closed, in order, when [Run] ends without an error; when it ends with one, none is closed, also
    of those that were connected. *)
Theorem Startup_balanced c (s : st (W := W)) :
  exists t, (Run c s).2.2 = s.2 ++ t /\ balanced c (Run c s).1 t.
Proof.
  revert s. change (adds (Run c) (balanced c)). unfold Run.
  eapply adds_andThen with (Q := fun _ t => t = []); [intros s; exists []; by rewrite app_nil_r|intros e t ->; by apply quiet_balanced|].
  intros t ->. eapply adds_andThen; [apply adds_initPlugins|intros; by apply quiet_balanced|]. intros t Ht.
  apply (adds_quiet_before _ c _ Ht).
  eapply adds_andThen; [apply adds_connectOutputs|..].
  - intros e u ((S1 & P1 & C1) & A1 & k & _ & N1). unfold balanced. rewrite S1, P1, C1, N1. repeat (split; [done|]). split; [by exists k|done].
  - intros u ((S1 & P1 & C1) & A1 & N1). eapply adds_weaken; [apply adds_serve|]. intros r v (SP & C2 & N2 & A2 & Hn). unfold balanced.
    rewrite starts_app, stops_app, closes_app, connects_app, S1, P1, C1, N1, N2, app_nil_r. cbn. repeat (split; [done|]).
    split; [intros i; rewrite attempts_app, A2; specialize (A1 i); lia|]. split; [by eexists|by auto].
Qed.

Definition no_services (t : list event) : Prop := starts t = [] /\ stops t = [].
Lemma no_services_app t t' : no_services t -> no_services t' -> no_services (t ++ t').
Proof. intros [S1 P1] [S2 P2]. unfold no_services. by rewrite starts_app, stops_app, S1, P1, S2, P2. Qed.

Lemma adds_gather_one i x : adds (gather_one (W := W) i x) (fun _ t => no_services t).
Proof.
  assert (forall kept, adds (bind (tries (h_gather kept i) (EGather kept i)) (fun r => ret (if r is None then false else true)))
    (fun _ t => no_services t)) as Hg.
  { intros kept. eapply adds_bind with (Q := fun _ t => no_services t); [by apply adds_tries|].
    intros r t Ht. apply adds_ret. by rewrite app_nil_r. }
  unfold gather_one. destruct (twice x); [|apply Hg].
  eapply adds_bind; [apply Hg|]. intros e1 t1 H1. eapply adds_bind with (Q := fun _ t => no_services t); [by apply adds_tries|].
  intros e2 t2 H2. eapply adds_bind; [apply Hg|]. intros e3 t3 H3. apply adds_ret. rewrite app_nil_r. by repeat apply no_services_app.
Qed.

Lemma adds_gather_all l : forall b, adds (gather_all (W := W) l b) (fun _ t => no_services t).
Proof.
  induction l as [|[i x] l IH]; intros b; [by apply adds_ret|]. intros s. cbn. destruct (h_ctx s.1).
  - exists []. by rewrite app_nil_r.
  - revert s. change (adds (bind (gather_one i x) (fun e => gather_all l (b || e))) (fun _ t => no_services t)).
    eapply adds_bind; [apply adds_gather_one|]. intros e t Ht. eapply adds_weaken; [apply IH|]. intros r u. by apply no_services_app.
Qed.

(** [Test] stops the services it started, unless the context is done before it has gathered from every input: then it
    returns without an error and leaves them all running. *)
Lemma Test_services c d : adds (Test (W := W) c d) (fun r t => stops t = starts t \/ (r = None /\ starts t = services c /\ stops t = [])).
Proof.
  unfold Test. eapply adds_andThen; [apply adds_initPlugins|intros e t (-> & -> & _); by left|]. intros t0 (S0 & P0 & _).
  destruct (existsb in_service (inputs c)) eqn:Hs.
  - eapply adds_andThen; [apply adds_start_services|..].
    { intros e t (_ & _ & _ & k & _ & S1 & P1). left. by rewrite starts_app, stops_app, S0, P0, S1, P1. }
    intros t (_ & _ & _ & S1 & P1). eapply adds_bind; [apply adds_gather_all|]. intros [b|] u [S2 P2].
    + eapply adds_bind with (Q := fun _ v => starts v = [] /\ stops v = services c).
      * eapply adds_bind with (Q := fun _ v => no_services v); [destruct (d =? 0); [by apply adds_ret|by apply adds_tries]|].
        intros r v [S3 P3]. eapply adds_weaken; [apply (adds_each_ _ EStop); intros a; by apply adds_does|].
        intros [] v' ->. destruct (stops_EStop (services c)) as (P4 & S4 & _). by rewrite starts_app, stops_app, S3, P3, P4, S4.
      * intros [] v [S3 P3]. apply adds_ret. left. rewrite app_nil_r, !starts_app, !stops_app, S0, P0, S1, P1, S2, P2, S3, P3. cbn. by rewrite app_nil_r.
    + apply adds_ret. right. rewrite app_nil_r, !starts_app, !stops_app, S0, P0, S1, P1, S2, P2. cbn. by rewrite app_nil_r.
  - eapply adds_andThen with (Q := fun r t => r = None /\ t = []); [by apply adds_ret|by intros e t [? _]|]. intros t [_ ->].
    eapply adds_bind; [apply adds_gather_all|]. intros [b|] u [S2 P2].
    + eapply adds_bind with (Q := fun _ v => v = []); [by apply adds_ret|]. intros [] v ->. apply adds_ret. left.
      by rewrite !app_nil_r, !starts_app, !stops_app, S0, P0, S2, P2.
    + apply adds_ret. left. by rewrite !app_nil_r, !starts_app, !stops_app, S0, P0, S2, P2.
Qed.

End Traces.

(** A host whose context is done as soon as a service has started. *)
Definition ex_host : Host unit bool := {|
  h_ctx (w : bool) := if w then Some tt else None;
  h_init _ w := (None, w);
  h_connect _ w := (None, w);
  h_sleep _ w := (None, w);
  h_start _ _ := (None, true);
  h_stop _ w := w;
  h_gather _ _ w := (None, w);
  h_inputs w := w;
  h_drain w := w;
  h_close _ w := w;
|}.
#[local] Existing Instance ex_host.

Definition ex_config : config := mkConfig [mkInput "statsd" true] 0 0 1.

Example Test_leaves_service : let t := (Test ex_config 0 (false, [])).2.2 in starts t = [0%nat] /\ stops t = [].
Proof. by vm_compute. Qed.
