(* ===== verification/Prometheus.v ===== *)
(** * The Prometheus collection

    [plugins/serializers/prometheus/]: names that Prometheus accepts, samples from field values, and the collection that
    gathers metrics into families of labelled samples, forgets old ones and gives them in the exposition format's data
    model; and the collector of [plugins/outputs/prometheus_client/v2/] that uses it. The encoding of the data model
    as text is library code.

    The collection keeps pointers to its samples; nobody else holds them between two calls, so a sample is updated by putting
    a new value in its place. A sample has three pointers of which its type says which one is set; [None] of [Add] and [GetProto] is
    the use of one that is not. *)

From Stdlib Require Import Ascii.
From S2P Require Import Prelude Float64 Strconv Strings Parse Metric Converter.

(** ** Names: [convert.go] *)

Record Table := mkTable { First : list (Z * Z); Rest : list (Z * Z) }.

Definition MetricNameTable : Table :=
  mkTable [(58, 58); (65, 90); (95, 95); (97, 122)] [(48, 58); (65, 90); (95, 95); (97, 122)].
Definition LabelNameTable : Table :=
  mkTable [(65, 90); (95, 95); (97, 122)] [(48, 57); (65, 90); (95, 95); (97, 122)].

(** [unicode.In], for a table of ranges. *)
Definition In (r : Z) (t : list (Z * Z)) : bool := existsb (fun p => Strings.between p.1 p.2 r) t.

Definition isValid (name : string) (table : Table) : bool :=
  match runes name with
  | [] => false
  | r :: rs => In r.1 (First table) && forallb (fun r => In r.1 (Rest table)) rs
  end.

Definition sanitize (name : string) (table : Table) : option string :=
  if isValid name table then Some name else
  let b := match runes name with
           | [] => EmptyString
           | r :: rs => (if In r.1 (First table) then r.2 else EmptyString) +:+
               concat_strings ((fun r => if In r.1 (Rest table) then r.2 else "_") <$> rs)
           end in
  let name := Trim b "_" in
  if decide (name = EmptyString) then None else Some name.

Definition SanitizeMetricName (name : string) : option string := sanitize name MetricNameTable.
Definition SanitizeLabelName (name : string) : option string := sanitize name LabelNameTable.

Definition MetricName (measurement fieldKey : string) (valueType : ValueType) : string :=
  let fieldKey :=
    match valueType with
    | Histogram | Summary =>
      if HasSuffix fieldKey "_bucket" then TrimSuffix fieldKey "_bucket"
      else if HasSuffix fieldKey "_sum" then TrimSuffix fieldKey "_sum"
      else if HasSuffix fieldKey "_count" then TrimSuffix fieldKey "_count"
      else fieldKey
    | _ => fieldKey
    end in
  if decide (measurement = "prometheus") then fieldKey else measurement +:+ "_" +:+ fieldKey.

(** ** Values *)

(** [uint64] of a float: towards zero, if it fits. *)
Definition f_trunc (s : bool) (m : positive) (e : Z) : Z :=
  let a := if 0 <=? e then Zpos m * 2 ^ e else Zpos m / 2 ^ (- e) in if s then - a else a.
Definition uint64_of_float `{FloatConv} (x : float64) : Z :=
  match x with
  | SpecFloat.S754_zero _ => 0
  | SpecFloat.S754_finite s m e => let z := f_trunc s m e in if (0 <=? z) && (z <=? MaxUint64) then z else uint64_out x
  | _ => uint64_out x
  end.

Definition SampleValue (v : Val) : option float64 :=
  match v with
  | VFloat f => Some f
  | VInt z => Some (f_of_Z z)
  | VUint z => Some (f_of_Z z)
  | VBool b => Some (if b then f_one else f_zero)
  | _ => None
  end.
Definition SampleCount `{FloatConv} (v : Val) : option Z :=
  match v with
  | VFloat f => if f_ltb f f_zero then None else Some (uint64_of_float f)
  | VInt z => if z <? 0 then None else Some z
  | VUint z => Some z
  | _ => None
  end.
Definition SampleSum (v : Val) : option float64 :=
  match v with
  | VFloat f => Some f
  | VInt z => Some (f_of_Z z)
  | VUint z => Some (f_of_Z z)
  | _ => None
  end.

(** ** The collection: [collection.go] *)

Inductive TimestampExport := NoExportTimestamp | ExportTimestamp.
Inductive MetricSortOrder := NoSortMetrics | SortMetrics.
Inductive StringHandling := DiscardStrings | StringAsLabel.
Record FormatConfig := mkFormat { fc_timestamp : TimestampExport; fc_order : MetricSortOrder; fc_strings : StringHandling }.

Record MetricFamily := mkFamily { fam_name : string; fam_type : ValueType }.
Record LabelPair := mkLabel { l_name : string; l_value : string }.
Record Bucket := mkBucket { Bound : float64; BCount : Z }.
Record Quantile := mkQuantile { q_quantile : float64; q_value : float64 }.
Record Hist := mkHist { h_buckets : list Bucket; h_count : Z; h_sum : float64 }.
Record Summ := mkSumm { s_quantiles : list Quantile; s_count : Z; s_sum : float64 }.
Record Sample := mkSample {
  Labels : list LabelPair;
  Time : Z;
  AddTime : Z;
  Scaler : option float64;
  s_histogram : option Hist;
  s_summary : option Summ;
}.
Record Entry := mkEntry { Family : MetricFamily; Metrics : gmap Z Sample }.

#[export] Instance LabelPair_eq_dec : EqDecision LabelPair.
Proof. solve_decision. Defined.
#[export] Instance MetricFamily_eq_dec : EqDecision MetricFamily.
Proof. solve_decision. Defined.

(** The types in the order of their constants. *)
Definition type_rank (t : ValueType) : nat := match t with Counter => 1 | Gauge => 2 | Untyped => 3 | Summary => 4 | Histogram => 5 end.
Definition type_of_rank (n : nat) : ValueType := match n with 1 => Counter | 2 => Gauge | 3 => Untyped | 4 => Summary | _ => Histogram end%nat.
#[export] Instance MetricFamily_countable : Countable MetricFamily.
Proof.
  refine (inj_countable' (fun f => (fam_name f, type_rank (fam_type f))) (fun p => mkFamily p.1 (type_of_rank p.2)) _).
  by intros [n []].
Defined.

Record Collection := mkCollection { Entries : gmap MetricFamily Entry; config : FormatConfig }.

Definition NewCollection (config : FormatConfig) : Collection := mkCollection ∅ config.

Fixpoint merge_bucket (l : list Bucket) (b : Bucket) : list Bucket :=
  match l with
  | [] => [b]
  | x :: l => if f_eqb (Bound x) (Bound b) then mkBucket (Bound x) (BCount b) :: l else x :: merge_bucket l b
  end.
Fixpoint merge_quantile (l : list Quantile) (q : Quantile) : list Quantile :=
  match l with
  | [] => [q]
  | x :: l => if f_eqb (q_quantile x) (q_quantile q) then mkQuantile (q_quantile x) (q_value q) :: l else x :: merge_quantile l q
  end.

Definition NUL : string := String zero EmptyString.
Definition MakeMetricKey (labels : list LabelPair) : Z :=
  foldl (fun h l => fnv_write (fnv_write (fnv_write (fnv_write h (l_name l)) NUL) (l_value l)) NUL) fnv_offset labels.

Definition hasLabel (name : string) (labels : list LabelPair) : bool := existsb (fun l => bool_decide (name = l_name l)) labels.

Section Collection.
Context `{MapRange, GoSort, FloatConv}.

Definition tag_labels (m : metric) : list LabelPair :=
  flat_map (fun t =>
    let special := match tp m with Histogram => bool_decide (Key t = "le") | Summary => bool_decide (Key t = "quantile") | _ => false end in
    if special then [] else
    match SanitizeLabelName (Key t) with None => [] | Some name => [mkLabel name (Value t)] end) (tags m).

(** The labels of the string fields, and whether there are any. *)
Fixpoint field_labels (fs : list Field) (labels : list LabelPair) (added : bool) : list LabelPair * bool :=
  match fs with
  | [] => (labels, added)
  | f :: fs =>
    match FValue f with
    | VString value =>
      match SanitizeLabelName (FKey f) with
      | None => field_labels fs labels added
      | Some name =>
        if hasLabel name labels then field_labels fs labels added
        else field_labels fs (labels ++ [mkLabel name value]) true
      end
    | _ => field_labels fs labels added
    end
  end.

Definition createLabels (c : Collection) (m : metric) : list LabelPair :=
  let labels := tag_labels m in
  match fc_strings (config c) with
  | DiscardStrings => labels
  | StringAsLabel =>
    let '(labels, added) := field_labels (fields m) labels false in
    if added then go_sort (fun a b => str_ltb (l_name a) (l_name b)) labels else labels
  end.

(** The sample after one field, [Some None] if it is left alone. *)
Definition add_histogram (m : metric) (f : Field) (s : Sample) : option (option Sample) :=
  let with_hist (g : Hist -> Hist) : option (option Sample) :=
    h ← s_histogram s; Some (Some (mkSample (Labels s) (Time s) (AddTime s) (Scaler s) (Some (g h)) (s_summary s))) in
  if HasSuffix (FKey f) "_bucket" then
    match GetTag "le" m with
    | None => Some None
    | Some le =>
      match ParseFloat le, SampleCount (FValue f) with
      | Some bound, Some count => with_hist (fun h => mkHist (merge_bucket (h_buckets h) (mkBucket bound count)) (h_count h) (h_sum h))
      | _, _ => Some None
      end
    end
  else if HasSuffix (FKey f) "_sum" then
    match SampleSum (FValue f) with None => Some None | Some sum => with_hist (fun h => mkHist (h_buckets h) (h_count h) sum) end
  else if HasSuffix (FKey f) "_count" then
    match SampleCount (FValue f) with None => Some None | Some n => with_hist (fun h => mkHist (h_buckets h) n (h_sum h)) end
  else Some None.

Definition add_summary (m : metric) (f : Field) (s : Sample) : option (option Sample) :=
  let with_summ (g : Summ -> Summ) : option (option Sample) :=
    h ← s_summary s; Some (Some (mkSample (Labels s) (Time s) (AddTime s) (Scaler s) (s_histogram s) (Some (g h)))) in
  if HasSuffix (FKey f) "_sum" then
    match SampleSum (FValue f) with None => Some None | Some sum => with_summ (fun h => mkSumm (s_quantiles h) (s_count h) sum) end
  else if HasSuffix (FKey f) "_count" then
    match SampleCount (FValue f) with None => Some None | Some n => with_summ (fun h => mkSumm (s_quantiles h) n (s_sum h)) end
  else
    match GetTag "quantile" m with
    | None => Some None
    | Some q =>
      match ParseFloat q, SampleValue (FValue f) with
      | Some q, Some v => with_summ (fun h => mkSumm (merge_quantile (s_quantiles h) (mkQuantile q v)) (s_count h) (s_sum h))
      | _, _ => Some None
      end
    end.

(** The switch over the type of the metric, for the sample found or none. *)
Definition add_sample (m : metric) (labels : list LabelPair) (now : Z) (f : Field) (old : option Sample) : option (option Sample) :=
  match tp m with
  | Counter | Gauge | Untyped =>
    Some ((fun v => mkSample labels (tm m) now (Some v) None None) <$> SampleValue (FValue f))
  | Histogram => add_histogram m f (default (mkSample labels (tm m) now None (Some (mkHist [] 0 f_zero)) None) old)
  | Summary => add_summary m f (default (mkSample labels (tm m) now None None (Some (mkSumm [] 0 f_zero))) old)
  end.

(** One field. *)
Definition add_field (m : metric) (labels : list LabelPair) (now : Z) (f : Field) (c : Collection) : option Collection :=
  match SanitizeMetricName (MetricName (name m) (FKey f) (tp m)) with
  | None => Some c
  | Some n =>
    let family := mkFamily n (tp m) in
    let entry := default (mkEntry family ∅) (Entries c !! family) in
    let c := mkCollection (<[family := entry]> (Entries c)) (config c) in
    let key := MakeMetricKey labels in
    let old := Metrics entry !! key in
    if (if old is Some s then tm m <? Time s else false) then Some c else
    r ← add_sample m labels now f old;
    Some (match r with
          | None => c
          | Some s => mkCollection (<[family := mkEntry (Family entry) (<[key := s]> (Metrics entry))]> (Entries c)) (config c)
          end)
  end.

Fixpoint add_fields (m : metric) (labels : list LabelPair) (now : Z) (fs : list Field) (c : Collection) : option Collection :=
  match fs with
  | [] => Some c
  | f :: fs => c ← add_field m labels now f c; add_fields m labels now fs c
  end.

Definition Add (m : metric) (now : Z) (c : Collection) : option Collection := add_fields m (createLabels c m) now (fields m) c.

(** One sample of an entry: the loop works on the entry's map, which the collection shares until it drops the entry. *)
Definition expire_one (expireTime : Z) (family : MetricFamily) (st : gmap Z Sample * gmap MetricFamily Entry) (km : Z * Sample) :
    gmap Z Sample * gmap MetricFamily Entry :=
  let '(ms, es) := st in
  if AddTime km.2 <? expireTime then
    let ms := delete km.1 ms in
    let es := alter (fun e => mkEntry (Family e) ms) family es in
    (ms, if (size ms =? 0)%nat then delete family es else es)
  else (ms, es).

Definition expire_entry (expireTime : Z) (es : gmap MetricFamily Entry) (fe : MetricFamily * Entry) : gmap MetricFamily Entry :=
  (foldl (expire_one expireTime (Family fe.2)) (Metrics fe.2, es) (range_map (Metrics fe.2))).2.

Definition Expire (now age : Z) (c : Collection) : Collection :=
  mkCollection (foldl (expire_entry (now - age)) (Entries c) (range_map (Entries c))) (config c).

Definition family_less (a b : MetricFamily) : bool :=
  if decide (fam_name a = fam_name b) then (type_rank (fam_type a) <? type_rank (fam_type b))%nat
  else str_ltb (fam_name a) (fam_name b).

Definition GetEntries (c : Collection) (order : MetricSortOrder) : list Entry :=
  let entries := snd <$> range_map (Entries c) in
  match order with
  | NoSortMetrics => entries
  | SortMetrics => go_sort (fun a b => family_less (Family a) (Family b)) entries
  end.

Fixpoint labels_less (a b : list LabelPair) : bool :=
  match a, b with
  | l :: a, r :: b =>
    if decide (l_name l = l_name r) then
      if decide (l_value l = l_value r) then labels_less a b else str_ltb (l_value l) (l_value r)
    else str_ltb (l_name l) (l_name r)
  | _, _ => false
  end.
Definition sample_less (a b : Sample) : bool :=
  if decide (length (Labels a) = length (Labels b)) then labels_less (Labels a) (Labels b)
  else (length (Labels a) <? length (Labels b))%nat.

Definition GetMetrics (e : Entry) (order : MetricSortOrder) : list Sample :=
  let metrics := snd <$> range_map (Metrics e) in
  match order with
  | NoSortMetrics => metrics
  | SortMetrics => go_sort sample_less metrics
  end.

(** The data model of the exposition format, as far as it is used. *)
Inductive ProtoValue :=
| PGauge (v : float64) | PCounter (v : float64) | PUntyped (v : float64)
| PHistogram (buckets : list Bucket) (count : Z) (sum : float64)
| PSummary (quantiles : list Quantile) (count : Z) (sum : float64).
Record ProtoMetric := mkProto { p_labels : list LabelPair; p_timestamp : option Z; p_value : ProtoValue }.
Record ProtoFamily := mkProtoFamily { pf_name : string; pf_type : ValueType; pf_metrics : list ProtoMetric }.

(** The value of a sample: [Some None] if it is left out. *)
Definition proto_value (t : ValueType) (s : Sample) : option (option ProtoValue) :=
  match t with
  | Gauge => (fun v => Some (PGauge v)) <$> Scaler s
  | Counter => (fun v => Some (PCounter v)) <$> Scaler s
  | Untyped => (fun v => Some (PUntyped v)) <$> Scaler s
  | Histogram => (fun h => if h_buckets h is [] then None else Some (PHistogram (h_buckets h) (h_count h) (h_sum h))) <$> s_histogram s
  | Summary => (fun h => if s_quantiles h is [] then None else Some (PSummary (s_quantiles h) (s_count h) (s_sum h))) <$> s_summary s
  end.

Definition timestamp (cfg : FormatConfig) (s : Sample) : option Z :=
  match fc_timestamp cfg with ExportTimestamp => Some (Z.quot (int64 (Time s)) 1000000) | NoExportTimestamp => None end.

Fixpoint proto_metrics (cfg : FormatConfig) (t : ValueType) (l : list Sample) : option (list ProtoMetric) :=
  match l with
  | [] => Some []
  | s :: l =>
    v ← proto_value t s;
    r ← proto_metrics cfg t l;
    Some (match v with None => r | Some v => mkProto (Labels s) (timestamp cfg s) v :: r end)
  end.

Fixpoint proto_families (cfg : FormatConfig) (l : list Entry) : option (list ProtoFamily) :=
  match l with
  | [] => Some []
  | e :: l =>
    ms ← proto_metrics cfg (fam_type (Family e)) (GetMetrics e (fc_order cfg));
    r ← proto_families cfg l;
    Some (if ms is [] then r else mkProtoFamily (fam_name (Family e)) (fam_type (Family e)) ms :: r)
  end.

Definition GetProto (c : Collection) : option (list ProtoFamily) := proto_families (config c) (GetEntries c (fc_order (config c))).

(** [SerializeBatch] up to the encoder, with the time read for each metric. *)
Fixpoint add_all (ms : list (metric * Z)) (c : Collection) : option Collection :=
  match ms with [] => Some c | (m, now) :: ms => c ← Add m now c; add_all ms c end.
Definition SerializeBatch (cfg : FormatConfig) (ms : list (metric * Z)) : option (list ProtoFamily) :=
  c ← add_all ms (NewCollection cfg); GetProto c.

(** ** The collector: [v2/collector.go] *)

Record Collector := mkCollector { expireDuration : Z; coll : Collection }.

Definition NewCollector (expire : Z) (stringsAsLabel exportTimestamp : bool) : Collector :=
  mkCollector expire (NewCollection (mkFormat (if exportTimestamp then ExportTimestamp else NoExportTimestamp) NoSortMetrics
    (if stringsAsLabel then StringAsLabel else DiscardStrings))).

Definition collector_expire (now : Z) (c : Collector) : Collector :=
  if expireDuration c =? 0 then c else mkCollector (expireDuration c) (Expire now (expireDuration c) (coll c)).

Definition Collector_Add (ms : list (metric * Z)) (now : Z) (c : Collector) : option Collector :=
  k ← add_all ms (coll c); Some (collector_expire now (mkCollector (expireDuration c) k)).

(** What is sent on the channel: each metric with its family. *)
Definition Collect (now : Z) (c : Collector) : option (list (ProtoFamily * ProtoMetric) * Collector) :=
  let c := collector_expire now c in
  fs ← GetProto (coll c);
  Some (flat_map (fun f => (fun m => (f, m)) <$> pf_metrics f) fs, c).

End Collection.

(** ** The collection is well typed *)

Definition typed (t : ValueType) (s : Sample) : Prop :=
  match t with
  | Counter | Gauge | Untyped => is_Some (Scaler s)
  | Histogram => is_Some (s_histogram s)
  | Summary => is_Some (s_summary s)
  end.
Definition wf_entry (f : MetricFamily) (e : Entry) : Prop :=
  Family e = f /\ map_Forall (fun k s => MakeMetricKey (Labels s) = k /\ typed (fam_type f) s) (Metrics e).
Definition wf (c : Collection) : Prop := map_Forall wf_entry (Entries c).

Section Typed.
Context `{MapRange, GoSort, FloatConv}.

Lemma wf_new cfg : wf (NewCollection cfg).
Proof. apply map_Forall_empty. Qed.

Lemma add_histogram_typed m f s : typed Histogram s ->
  exists r, add_histogram m f s = Some r /\ match r with None => True | Some s' => typed Histogram s' /\ Labels s' = Labels s end.
Proof.
  intros [h Hh]. unfold add_histogram. rewrite Hh.
  repeat case_match; eexists; (split; [reflexivity|]); cbn; try done; split; try done; by eexists.
Qed.
Lemma add_summary_typed m f s : typed Summary s ->
  exists r, add_summary m f s = Some r /\ match r with None => True | Some s' => typed Summary s' /\ Labels s' = Labels s end.
Proof.
  intros [h Hh]. unfold add_summary. rewrite Hh.
  repeat case_match; eexists; (split; [reflexivity|]); cbn; try done; split; try done; by eexists.
Qed.

Lemma add_sample_typed m labels now f old :
  match old with None => True | Some s => typed (tp m) s /\ MakeMetricKey (Labels s) = MakeMetricKey labels end ->
  exists r, add_sample m labels now f old = Some r /\
    match r with None => True | Some s => typed (tp m) s /\ MakeMetricKey (Labels s) = MakeMetricKey labels end.
Proof.
  intros Hold. unfold add_sample. destruct (tp m).
  1-3: eexists; split; [reflexivity|]; destruct (SampleValue (FValue f)); cbn; [by eauto|done].
  - destruct (add_summary_typed m f (default (mkSample labels (tm m) now None None (Some (mkSumm [] 0 f_zero))) old)) as (r & -> & Hr).
    { destruct old; [apply Hold|by eexists]. }
    eexists. split; [reflexivity|]. destruct r as [s|]; [|done]. destruct Hr as [Ht ->]. split; [done|]. by destruct old as [o|]; [apply Hold|].
  - destruct (add_histogram_typed m f (default (mkSample labels (tm m) now None (Some (mkHist [] 0 f_zero)) None) old)) as (r & -> & Hr).
    { destruct old; [apply Hold|by eexists]. }
    eexists. split; [reflexivity|]. destruct r as [s|]; [|done]. destruct Hr as [Ht ->]. split; [done|]. by destruct old as [o|]; [apply Hold|].
Qed.

(** The entry a field works on. *)
Definition entry_of (c : Collection) (f : MetricFamily) : Entry := default (mkEntry f ∅) (Entries c !! f).

Lemma entry_of_wf c f : wf c -> wf_entry f (entry_of c f).
Proof.
  intros Hw. unfold entry_of. destruct (Entries c !! f) as [e|] eqn:E; cbn; [by apply (map_Forall_lookup_1 _ _ _ _ Hw)|].
  split; [done|apply map_Forall_empty].
Qed.

Lemma add_field_typed m labels now f c :
  wf c -> exists c', add_field m labels now f c = Some c' /\ wf c' /\ config c' = config c.
Proof.
  intros Hw. unfold add_field. destruct (SanitizeMetricName _) as [n|]; [|by eexists].
  set (fam := mkFamily n (tp m)). fold (entry_of c fam). destruct (entry_of_wf c fam Hw) as [Hfam Hms].
  assert (wf (mkCollection (<[fam := entry_of c fam]> (Entries c)) (config c))) as Hw1 by (apply map_Forall_insert_2; done).
  case_match; [by eexists|].
  destruct (add_sample_typed m labels now f (Metrics (entry_of c fam) !! MakeMetricKey labels)) as (r & -> & Hr).
  { destruct (Metrics _ !! _) as [s|] eqn:E; [|done]. apply (map_Forall_lookup_1 _ _ _ _ Hms) in E. cbn in E. by destruct E. }
  cbn. eexists. split; [reflexivity|]. destruct r as [s|]; [|done]. split; [|done]. apply map_Forall_insert_2; [|done]. split; [done|].
  cbn. apply map_Forall_insert_2; [|done]. by destruct Hr.
Qed.

Lemma add_fields_typed m labels now fs : forall c,
  wf c -> exists c', add_fields m labels now fs c = Some c' /\ wf c' /\ config c' = config c.
Proof.
  induction fs as [|f fs IH]; intros c Hw; [by eexists|]. cbn. destruct (add_field_typed m labels now f c Hw) as (c1 & -> & Hw1 & Hc1).
  cbn. destruct (IH c1 Hw1) as (c2 & -> & Hw2 & Hc2). eexists. split; [done|]. split; [done|congruence].
Qed.

Lemma Add_typed m now c : wf c -> exists c', Add m now c = Some c' /\ wf c' /\ config c' = config c.
Proof. apply add_fields_typed. Qed.

(** ** Expiry *)

Definition kept (t : Z) (ms : gmap Z Sample) : gmap Z Sample := filter (fun p => t <= AddTime p.2) ms.

(** The samples that a pass over [l] takes away. *)
Lemma expire_loop t fam l : forall ms es,
  NoDup l.*1 -> (forall k s, (k, s) ∈ l -> ms !! k = Some s) -> es !! fam = Some (mkEntry fam ms) ->
  let r := foldl (expire_one t fam) (ms, es) l in
  (forall k, r.1 !! k = if decide (k ∈ (filter (fun p : Z * Sample => AddTime p.2 < t) l).*1) then None else ms !! k) /\
  (forall f, f <> fam -> r.2 !! f = es !! f) /\
  (r.2 !! fam = Some (mkEntry fam r.1) \/ (r.2 !! fam = None /\ r.1 = ∅)).
Proof.
  induction l as [|[k0 s0] l IH]; intros ms es Hnd Hin Hes; cbn [foldl].
  { split; [intros k; by rewrite decide_False by (apply not_elem_of_nil)|by auto]. }
  apply NoDup_cons in Hnd as [Hk0 Hnd]. destruct (expire_one t fam (ms, es) (k0, s0)) as [ms1 es1] eqn:E.
  unfold expire_one in E. cbn [fst snd] in E. destruct (Z.ltb_spec (AddTime s0) t) as [Ht|Ht].
  - rewrite filter_cons_True by done. rewrite fmap_cons. cbn [fst]. injection E as <- E.
    assert (forall k s, (k, s) ∈ l -> delete k0 ms !! k = Some s) as Hin'.
    { intros k s Hks. rewrite lookup_delete_ne; [apply Hin; by right|]. intros <-. by apply Hk0, (list_elem_of_fmap_2 fst _ (k0, s)). }
    destruct (Nat.eqb_spec (size (delete k0 ms)) 0) as [Hz|Hz].
    + apply map_size_empty_iff in Hz. assert (l = []) as ->.
      { destruct l as [|[k s] l]; [done|]. specialize (Hin' k s ltac:(by left)). by rewrite Hz, lookup_empty in Hin'. }
      subst es1. cbn. rewrite Hz. split; [|split; [|right; split; [apply lookup_delete_eq|done]]].
      * intros k. rewrite lookup_empty. case_decide as Hk; [done|]. apply not_elem_of_cons in Hk as [Hk _].
        rewrite <- (lookup_delete_ne ms k0 k) by done. by rewrite Hz, lookup_empty.
      * intros f Hf. by rewrite lookup_delete_ne, lookup_alter_ne.
    + destruct (IH (delete k0 ms) es1) as (R1 & R2 & R3); [done|done|subst es1; by rewrite lookup_alter_eq, Hes|].
      split; [|split; [|done]].
      * intros k. rewrite R1. destruct (decide (k = k0)) as [->|Hk].
        -- rewrite (decide_True (P := k0 ∈ k0 :: _)) by (by left). rewrite lookup_delete_eq. by case_decide.
        -- rewrite lookup_delete_ne by done. destruct (decide (k ∈ _)) as [Hi|Hi].
           ++ by rewrite decide_True by (by right).
           ++ rewrite decide_False; [done|]. apply not_elem_of_cons. done.
      * intros f Hf. rewrite (R2 f Hf). subst es1. by rewrite lookup_alter_ne.
  - injection E as <- <-. rewrite filter_cons_False by (cbn; lia). apply IH; [done| |done]. intros k s Hks. apply Hin. by right.
Qed.

Lemma expire_entry_spec t f e es : es !! f = Some e -> Family e = f ->
  (forall f', f' <> f -> expire_entry t es (f, e) !! f' = es !! f') /\
  (expire_entry t es (f, e) !! f = Some (mkEntry f (kept t (Metrics e))) \/ (expire_entry t es (f, e) !! f = None /\ kept t (Metrics e) = ∅)).
Proof.
  intros He Hf. unfold expire_entry. cbn [snd]. rewrite Hf. destruct (expire_loop t f (range_map (Metrics e)) (Metrics e) es) as (R1 & R2 & R3).
  { apply range_map_NoDup. } { intros k s. apply range_map_elem. } { by destruct e; cbn in *; subst. }
  set (r := foldl _ _ _) in *. assert (r.1 = kept t (Metrics e)) as Hr; [|rewrite Hr in R3; done].
  apply map_eq. intros k. rewrite R1. unfold kept. rewrite map_lookup_filter. destruct (Metrics e !! k) as [s|] eqn:Ek.
  - cbn. case_decide as Hk; [rewrite option_guard_False|rewrite option_guard_True]; [done| |done|].
    + apply list_elem_of_fmap in Hk as ([k' s'] & -> & Hk). apply list_elem_of_filter in Hk as [Ht Hk]. apply range_map_elem in Hk.
      cbn in *. assert (s' = s) as -> by congruence. lia.
    + cbn. destruct (decide (AddTime s < t)) as [Ht|]; [|lia]. destruct Hk. apply (list_elem_of_fmap_2 fst _ (k, s)).
      apply list_elem_of_filter. split; [done|]. by apply range_map_elem.
  - by case_decide.
Qed.

(** Which entry is left of one. *)
Definition expired_entry (t : Z) (o o' : option Entry) : Prop :=
  match o with
  | None => o' = None
  | Some e => o' = Some (mkEntry (Family e) (kept t (Metrics e))) \/ (o' = None /\ kept t (Metrics e) = ∅)
  end.

Lemma expire_entries t l : forall es, NoDup l.*1 -> (forall f e, (f, e) ∈ l -> es !! f = Some e /\ Family e = f) ->
  forall f, if decide (f ∈ l.*1) then expired_entry t (es !! f) (foldl (expire_entry t) es l !! f) else foldl (expire_entry t) es l !! f = es !! f.
Proof.
  induction l as [|[f0 e0] l IH]; intros es Hnd Hin f; cbn [foldl]; [by rewrite decide_False by (apply not_elem_of_nil)|].
  apply NoDup_cons in Hnd as [Hf0 Hnd]. destruct (Hin f0 e0 ltac:(by left)) as [He0 Hfam].
  destruct (expire_entry_spec t f0 e0 es He0 Hfam) as [Hother Hthis].
  assert (forall f e, (f, e) ∈ l -> expire_entry t es (f0, e0) !! f = Some e /\ Family e = f) as Hin'.
  { intros f' e' Hf'. rewrite Hother; [apply Hin; by right|]. intros ->. by apply Hf0, (list_elem_of_fmap_2 fst _ (f0, e')). }
  specialize (IH (expire_entry t es (f0, e0)) Hnd Hin' f). rewrite fmap_cons. cbn [fst].
  destruct (decide (f = f0)) as [->|Hne].
  - rewrite decide_True by (by left). rewrite decide_False in IH by done. rewrite IH, He0. cbn. rewrite Hfam. exact Hthis.
  - rewrite Hother in IH by done. destruct (decide (f ∈ l.*1)) as [Hi|Hi].
    + by rewrite decide_True by (by right).
    + rewrite decide_False; [done|]. apply not_elem_of_cons. done.
Qed.

Lemma Expire_entries now age c f : wf c -> expired_entry (now - age) (Entries c !! f) (Entries (Expire now age c) !! f).
Proof.
  intros Hw. cbn. pose proof (expire_entries (now - age) (range_map (Entries c)) (Entries c) (range_map_NoDup _)) as Hx.
  specialize (Hx ltac:(intros f' e' He; apply range_map_elem in He; split; [done|]; by apply (map_Forall_lookup_1 _ _ _ _ Hw) in He; destruct He) f).
  case_decide as Hf; [done|]. rewrite Hx. destruct (Entries c !! f) as [e|] eqn:E; [|done].
  destruct Hf. apply range_map_elem in E. by apply (list_elem_of_fmap_2 fst _ (f, e)).
Qed.

Lemma Expire_typed now age c : wf c -> wf (Expire now age c).
Proof.
  intros Hw f e He. pose proof (Expire_entries now age c f Hw) as Hx. rewrite He in Hx. destruct (Entries c !! f) as [e0|] eqn:E; [|done].
  destruct Hx as [[= ->]|[? _]]; [|done]. destruct (map_Forall_lookup_1 _ _ _ _ Hw E) as [Hfam Hms]. split; [done|]. cbn.
  intros k s Hs. apply map_lookup_filter_Some in Hs as [Hs _]. by apply (map_Forall_lookup_1 _ _ _ _ Hms).
Qed.

(** ** Each series of a simple type is a register *)

Definition find (c : Collection) (f : MetricFamily) (k : Z) : option Sample := e ← Entries c !! f; Metrics e !! k.

Lemma find_Expire now age c f k : wf c ->
  find (Expire now age c) f k = (s ← find c f k; if now - age <=? AddTime s then Some s else None).
Proof.
  intros Hw. pose proof (Expire_entries now age c f Hw) as Hx. unfold find. destruct (Entries c !! f) as [e|]; [|cbn [expired_entry] in Hx; binds; by rewrite Hx].
  cbn [expired_entry] in Hx. binds. assert (kept (now - age) (Metrics e) !! k = (s ← Metrics e !! k; if now - age <=? AddTime s then Some s else None)) as Hk.
  { unfold kept. rewrite map_lookup_filter. destruct (Metrics e !! k) as [s|]; [|done]. cbn.
    destruct (Z.leb_spec (now - age) (AddTime s)); [by rewrite option_guard_True|rewrite option_guard_False; [done|cbn; lia]]. }
  destruct Hx as [-> | [-> He]]; binds; [done|]. by rewrite <- Hk, He, lookup_empty.
Qed.

Definition is_scalar (t : ValueType) : Prop := t = Counter \/ t = Gauge \/ t = Untyped.

(** The sample of a field for a series. *)
Definition sample_of (fam : MetricFamily) (key : Z) (m : metric) (labels : list LabelPair) (now : Z) (f : Field) : option Sample :=
  n ← SanitizeMetricName (MetricName (name m) (FKey f) (tp m));
  if decide (mkFamily n (tp m) = fam /\ MakeMetricKey labels = key) then
    (fun v => mkSample labels (tm m) now (Some v) None None) <$> SampleValue (FValue f)
  else None.

(** A sample replaces the one kept unless it is older. *)
Definition newer (old : option Sample) (s : Sample) : option Sample :=
  match old with Some o => if Time s <? Time o then old else Some s | None => Some s end.

Lemma find_insert es f e cfg f' k :
  find (mkCollection (<[f := e]> es) cfg) f' k = if decide (f' = f) then Metrics e !! k else find (mkCollection es cfg) f' k.
Proof. unfold find. cbn. case_decide as Hf; [subst; by rewrite lookup_insert_eq|by rewrite lookup_insert_ne]. Qed.
Lemma find_entry_of c f k : Metrics (entry_of c f) !! k = find c f k.
Proof. unfold entry_of, find. by destruct (Entries c !! f). Qed.

Lemma find_add_field fam key m labels now f c c' :
  is_scalar (fam_type fam) -> add_field m labels now f c = Some c' ->
  find c' fam key = match sample_of fam key m labels now f with None => find c fam key | Some s => newer (find c fam key) s end.
Proof.
  intros Hsc Ha. unfold add_field, sample_of in *. destruct (SanitizeMetricName _) as [n|]; cbn; [|by injection Ha as <-].
  set (fam' := mkFamily n (tp m)) in *. fold (entry_of c fam') in Ha. rewrite find_entry_of in Ha.
  assert (find (mkCollection (<[fam' := entry_of c fam']> (Entries c)) (config c)) fam key = find c fam key) as Hsame.
  { rewrite find_insert. case_decide; [subst; apply find_entry_of|done]. }
  destruct (decide (fam' = fam /\ MakeMetricKey labels = key)) as [[<- <-]|Hne].
  - destruct (match find c fam' (MakeMetricKey labels) with Some s => tm m <? Time s | None => false end) eqn:Eo.
    + injection Ha as <-. rewrite Hsame. destruct (SampleValue (FValue f)); [|done]. cbn. unfold newer. cbn.
      destruct (find c fam' _) as [o|]; [|done]. by rewrite Eo.
    + assert (add_sample m labels now f (find c fam' (MakeMetricKey labels)) =
        Some ((fun v => mkSample labels (tm m) now (Some v) None None) <$> SampleValue (FValue f))) as Hadd.
      { unfold add_sample. cbn in Hsc. destruct (tp m) eqn:Et; try done; by destruct Hsc as [?|[?|?]]. }
      rewrite Hadd in Ha. cbn in Ha. injection Ha as <-. destruct (SampleValue (FValue f)) as [v|]; [|exact Hsame].
      cbn [fmap option_fmap option_map]. rewrite find_insert, decide_True by done. cbn. rewrite lookup_insert_eq. unfold newer. cbn.
      destruct (find c fam' _) as [o|]; [by rewrite Eo|done].
  - case_match; [by injection Ha as <-|]. destruct (add_sample _ _ _ _ _) as [[s|]|]; [| |done]; injection Ha as <-; [|exact Hsame].
    rewrite find_insert. cbn. case_decide as Hf; [|by rewrite find_insert, decide_False].
    subst. rewrite lookup_insert_ne, find_entry_of; [done|]. intros <-. by apply Hne.
Qed.

(** What happens to a series. *)
Inductive event := Sampled (s : Sample) | Expired (t : Z).
Definition observe (old : option Sample) (e : event) : option Sample :=
  match e with
  | Sampled s => newer old s
  | Expired t => s ← old; if t <=? AddTime s then Some s else None
  end.

Inductive op := OAdd (m : metric) (now : Z) | OExpire (now age : Z).
Definition run_op (o : op) (c : Collection) : option Collection :=
  match o with OAdd m now => Add m now c | OExpire now age => Some (Expire now age c) end.
Fixpoint run (ops : list op) (c : Collection) : option Collection :=
  match ops with [] => Some c | o :: ops => c ← run_op o c; run ops c end.

Definition events_of (cfg : FormatConfig) (fam : MetricFamily) (key : Z) (o : op) : list event :=
  match o with
  | OAdd m now => omap (fun f => Sampled <$> sample_of fam key m (createLabels (NewCollection cfg) m) now f) (fields m)
  | OExpire now age => [Expired (now - age)]
  end.

Lemma find_add_fields fam key m labels now fs : forall c c',
  is_scalar (fam_type fam) -> add_fields m labels now fs c = Some c' ->
  find c' fam key = foldl observe (find c fam key) (omap (fun f => Sampled <$> sample_of fam key m labels now f) fs).
Proof.
  induction fs as [|f fs IH]; intros c c' Hsc; cbn; [by intros [= <-]|]. destruct (add_field m labels now f c) as [c1|] eqn:E; [|done].
  cbn. intros Ha. rewrite (IH c1 c' Hsc Ha), (find_add_field _ _ _ _ _ _ _ _ Hsc E). by destruct (sample_of _ _ _ _ _ _).
Qed.

Lemma run_op_typed o c : wf c -> exists c', run_op o c = Some c' /\ wf c' /\ config c' = config c.
Proof.
  intros Hw. destruct o as [m now|now age]; [by apply Add_typed|]. eexists. split; [done|]. split; [by apply Expire_typed|done].
Qed.

Lemma createLabels_config c c' m : config c = config c' -> createLabels c m = createLabels c' m.
Proof. intros Hc. unfold createLabels. by rewrite Hc. Qed.

Lemma run_typed ops : forall c, wf c -> exists c', run ops c = Some c' /\ wf c' /\ config c' = config c.
Proof.
  induction ops as [|o ops IH]; intros c Hw; [by eexists|]. cbn. destruct (run_op_typed o c Hw) as (c1 & -> & Hw1 & Hc1).
  cbn. destruct (IH c1 Hw1) as (c2 & -> & Hw2 & Hc2). eexists. split; [done|]. split; [done|congruence].
Qed.

Lemma find_run fam key ops : forall c c', wf c -> is_scalar (fam_type fam) -> run ops c = Some c' ->
  find c' fam key = foldl observe (find c fam key) (flat_map (events_of (config c) fam key) ops).
Proof.
  induction ops as [|o ops IH]; intros c c' Hw Hsc; cbn; [by intros [= <-]|].
  destruct (run_op_typed o c Hw) as (c1 & E & Hw1 & Hc1). rewrite E. cbn. intros Hr. rewrite foldl_app, (IH c1 c' Hw1 Hsc Hr), Hc1. f_equal.
  destruct o as [m now|now age]; cbn in E |- *.
  - unfold Add in E. rewrite (find_add_fields _ _ _ _ _ _ _ _ Hsc E). by rewrite (createLabels_config (NewCollection (config c)) c).
  - injection E as <-. by apply find_Expire.
Qed.

(** ** What is shown *)

Definition shown_metric (cfg : FormatConfig) (t : ValueType) (s : Sample) : option ProtoMetric :=
  match proto_value t s with Some (Some v) => Some (mkProto (Labels s) (timestamp cfg s) v) | _ => None end.
Definition shown_family (cfg : FormatConfig) (e : Entry) : option ProtoFamily :=
  match omap (shown_metric cfg (fam_type (Family e))) (GetMetrics e (fc_order cfg)) with
  | [] => None
  | ms => Some (mkProtoFamily (fam_name (Family e)) (fam_type (Family e)) ms)
  end.

Lemma proto_value_typed t s : typed t s -> is_Some (proto_value t s).
Proof. destruct t; intros [x Hx]; cbn; rewrite Hx; by eexists. Qed.

Lemma proto_metrics_shown cfg t l : Forall (typed t) l -> proto_metrics cfg t l = Some (omap (shown_metric cfg t) l).
Proof.
  induction 1 as [|s l Hs _ IH]; [done|]. cbn. destruct (proto_value_typed t s Hs) as [v Hv]. rewrite Hv, IH. cbn. unfold shown_metric.
  rewrite Hv. by destruct v.
Qed.

Lemma elem_of_GetMetrics e order s : s ∈ GetMetrics e order <-> exists k, Metrics e !! k = Some s.
Proof.
  assert (s ∈ snd <$> range_map (Metrics e) <-> exists k, Metrics e !! k = Some s) as Hin.
  { rewrite list_elem_of_fmap. split; [intros ([k s'] & -> & Hk); exists k; by apply range_map_elem|].
    intros [k Hk]. exists (k, s). split; [done|]. by apply range_map_elem. }
  destruct order; cbn; [done|]. by rewrite go_sort_perm.
Qed.
Lemma elem_of_GetEntries c order e : wf c -> e ∈ GetEntries c order <-> Entries c !! Family e = Some e.
Proof.
  intros Hw. assert (e ∈ snd <$> range_map (Entries c) <-> Entries c !! Family e = Some e) as Hin.
  { rewrite list_elem_of_fmap. split.
    - intros ([f e'] & -> & Hk). apply range_map_elem in Hk. destruct (map_Forall_lookup_1 _ _ _ _ Hw Hk) as [<- _]. done.
    - intros He. exists (Family e, e). split; [done|]. by apply range_map_elem. }
  destruct order; cbn; [done|]. by rewrite go_sort_perm.
Qed.

Lemma GetMetrics_typed c f e order : wf c -> Entries c !! f = Some e -> Forall (typed (fam_type (Family e))) (GetMetrics e order).
Proof.
  intros Hw He. destruct (map_Forall_lookup_1 _ _ _ _ Hw He) as [-> Hms]. apply Forall_forall. intros s [k Hk]%elem_of_GetMetrics.
  by apply (map_Forall_lookup_1 _ _ _ _ Hms) in Hk as [_ Ht].
Qed.

Lemma proto_families_shown cfg l :
  Forall (fun e => Forall (typed (fam_type (Family e))) (GetMetrics e (fc_order cfg))) l -> proto_families cfg l = Some (omap (shown_family cfg) l).
Proof.
  induction 1 as [|e l He _ IH]; [done|]. cbn. rewrite (proto_metrics_shown _ _ _ He), IH. cbn. unfold shown_family. by case_match.
Qed.

Lemma GetProto_shown c : wf c -> GetProto c = Some (omap (shown_family (config c)) (GetEntries c (fc_order (config c)))).
Proof.
  intros Hw. apply proto_families_shown, Forall_forall. intros e He. apply (elem_of_GetEntries c _ e Hw) in He. by eapply GetMetrics_typed.
Qed.

(** Keys that differ stay different. *)
Lemma NoDup_omap_key {A B K} (f : A -> option B) (ka : A -> K) (kb : B -> K) l :
  (forall a b, f a = Some b -> kb b = ka a) -> NoDup (ka <$> l) -> NoDup (kb <$> omap f l).
Proof.
  intros Hf. induction l as [|a l IH]; cbn; [done|]. intros [Ha Hn]%NoDup_cons. destruct (f a) as [b|] eqn:E; [|by apply IH].
  cbn. apply NoDup_cons. split; [|by apply IH]. rewrite (Hf _ _ E). intros (b' & Hb & Hin)%list_elem_of_fmap.
  apply list_elem_of_omap in Hin as (a' & Ha' & E'). apply Ha. rewrite Hb, (Hf _ _ E'). by apply list_elem_of_fmap_2.
Qed.

Lemma GetEntries_NoDup c order : wf c -> NoDup (Family <$> GetEntries c order).
Proof.
  intros Hw. assert (NoDup (Family <$> (snd <$> range_map (Entries c)))) as Hn.
  { rewrite <- list_fmap_compose. assert (Family ∘ snd <$> range_map (Entries c) = (range_map (Entries c)).*1) as ->; [|apply range_map_NoDup].
    apply list_fmap_ext. intros i [f e] Hi. apply list_elem_of_lookup_2 in Hi. apply range_map_elem in Hi. cbn. by destruct (map_Forall_lookup_1 _ _ _ _ Hw Hi). }
  destruct order; cbn; [done|]. by rewrite go_sort_perm.
Qed.
Lemma GetMetrics_NoDup c f e order : wf c -> Entries c !! f = Some e -> NoDup (MakeMetricKey ∘ Labels <$> GetMetrics e order).
Proof.
  intros Hw He. destruct (map_Forall_lookup_1 _ _ _ _ Hw He) as [_ Hms].
  assert (NoDup (MakeMetricKey ∘ Labels <$> (snd <$> range_map (Metrics e)))) as Hn.
  { rewrite <- list_fmap_compose. assert ((MakeMetricKey ∘ Labels) ∘ snd <$> range_map (Metrics e) = (range_map (Metrics e)).*1) as ->; [|apply range_map_NoDup].
    apply list_fmap_ext. intros i [k s] Hi. apply list_elem_of_lookup_2 in Hi. apply range_map_elem in Hi. cbn. by destruct (map_Forall_lookup_1 _ _ _ _ Hms Hi). }
  destruct order; cbn; [done|]. by rewrite go_sort_perm.
Qed.

(** The value of a metric has the type of its family, and is not empty. *)
Definition value_ok (t : ValueType) (v : ProtoValue) : Prop :=
  match t, v with
  | Gauge, PGauge _ | Counter, PCounter _ | Untyped, PUntyped _ => True
  | Histogram, PHistogram bs _ _ => bs <> []
  | Summary, PSummary qs _ _ => qs <> []
  | _, _ => False
  end.
Definition family_ok (f : ProtoFamily) : Prop :=
  pf_metrics f <> [] /\ NoDup (p_labels <$> pf_metrics f) /\ Forall (fun m => value_ok (pf_type f) (p_value m)) (pf_metrics f).

Lemma shown_metric_ok cfg t s m : shown_metric cfg t s = Some m -> p_labels m = Labels s /\ value_ok t (p_value m).
Proof.
  unfold shown_metric. destruct (proto_value t s) as [[v|]|] eqn:E; try done. intros [= <-]. split; [done|]. cbn.
  destruct t; cbn in E; [destruct (Scaler s)|destruct (Scaler s)|destruct (Scaler s)|destruct (s_summary s) as [[qs n u]|]|destruct (s_histogram s) as [[bs n u]|]];
    try done; cbn in E; try (by injection E as <-); [destruct qs|destruct bs]; try done; by injection E as <-.
Qed.

Lemma shown_family_ok c f e p : wf c -> Entries c !! f = Some e -> shown_family (config c) e = Some p ->
  (pf_name p, pf_type p) = (fam_name f, fam_type f) /\ family_ok p.
Proof.
  intros Hw He Hs. pose proof (GetMetrics_NoDup c f e (fc_order (config c)) Hw He) as Hn. destruct (map_Forall_lookup_1 _ _ _ _ Hw He) as [Hf _].
  unfold shown_family in Hs. destruct (omap _ _) as [|m ms] eqn:E; [done|]. injection Hs as <-. cbn. rewrite Hf in *. split; [done|].
  unfold family_ok. cbn [pf_metrics pf_type]. split; [done|]. rewrite <- E. split.
  - apply (NoDup_fmap_1 MakeMetricKey). rewrite <- list_fmap_compose. apply (NoDup_omap_key _ (MakeMetricKey ∘ Labels)); [|done].
    intros s m' Hm. cbn. by destruct (shown_metric_ok _ _ _ _ Hm) as [-> _].
  - apply Forall_forall. intros m' (s & _ & Hm)%list_elem_of_omap. by apply shown_metric_ok in Hm as [_ ?].
Qed.

(** C28: the collection keeps the types of its samples. After any additions and expiries of metrics of any types and with any
    fields, none of which fail, reading it never uses a pointer that is not set: it gives each family once, with at
    least one metric, at most one for each set of labels, all with a value of the type of the family, and
    histograms and summaries with at least one bucket or quantile. *)
Theorem Prometheus_typed cfg ops :
  exists c fs, run ops (NewCollection cfg) = Some c /\ GetProto c = Some fs /\
    NoDup ((fun f => (pf_name f, pf_type f)) <$> fs) /\ Forall family_ok fs.
Proof.
  destruct (run_typed ops (NewCollection cfg) (wf_new cfg)) as (c & Hr & Hw & _). exists c. eexists. split; [done|].
  split; [by apply GetProto_shown|].
  assert (forall e p, e ∈ GetEntries c (fc_order (config c)) -> shown_family (config c) e = Some p ->
    (pf_name p, pf_type p) = (fam_name (Family e), fam_type (Family e)) /\ family_ok p) as Hok.
  { intros e p He Hs. apply (elem_of_GetEntries c _ e Hw) in He. exact (shown_family_ok c (Family e) e p Hw He Hs). }
  split.
  - pose proof (GetEntries_NoDup c (fc_order (config c)) Hw) as Hn. revert Hok Hn. generalize (GetEntries c (fc_order (config c))).
    induction l as [|e l IH]; intros Hok Hn; [by constructor|]. cbn in *. apply NoDup_cons in Hn as [He Hn].
    specialize (IH ltac:(intros e' p' He'; apply (Hok e' p'); by right) Hn). destruct (shown_family (config c) e) as [p|] eqn:E; [|done].
    cbn. apply NoDup_cons. split; [|done]. intros (p' & Hp & Hin)%list_elem_of_fmap. apply list_elem_of_omap in Hin as (e' & He' & E').
    destruct (Hok e p ltac:(by left) E) as [Hk _]. destruct (Hok e' p' ltac:(by right) E') as [Hk' _]. rewrite Hk, Hk' in Hp.
    apply He. injection Hp as Hn1 Hn2. destruct (Family e) eqn:Ef, (Family e') eqn:Ef'; cbn in *; subst. rewrite <- Ef'. by apply list_elem_of_fmap_2.
  - apply Forall_forall. intros p (e & He & Hs)%list_elem_of_omap. by destruct (Hok e p He Hs).
Qed.

Definition scalar_proto (t : ValueType) (x : float64) : ProtoValue :=
  match t with Counter => PCounter x | Gauge => PGauge x | _ => PUntyped x end.

Lemma shown_scalar cfg t s : is_scalar t -> shown_metric cfg t s = (fun x => mkProto (Labels s) (timestamp cfg s) (scalar_proto t x)) <$> Scaler s.
Proof. unfold shown_metric. intros [->|[->| ->]]; cbn; by destruct (Scaler s). Qed.

(** The metrics shown of a family are the samples kept. *)
Lemma shown_iff c fam p m : wf c ->
  (exists fs, GetProto c = Some fs /\ p ∈ fs /\ pf_name p = fam_name fam /\ pf_type p = fam_type fam /\ m ∈ pf_metrics p) ->
  exists k s, find c fam k = Some s /\ shown_metric (config c) (fam_type fam) s = Some m.
Proof.
  intros Hw (fs & Hg & Hp & Hn & Ht & Hm). rewrite (GetProto_shown c Hw) in Hg. injection Hg as <-.
  apply list_elem_of_omap in Hp as (e & He & Hs). apply (elem_of_GetEntries c _ e Hw) in He.
  unfold shown_family in Hs. destruct (omap _ _) as [|m0 ms] eqn:E; [done|]. injection Hs as <-. cbn in *. rewrite <- E in Hm.
  apply list_elem_of_omap in Hm as (s & Hs & Hsm). apply elem_of_GetMetrics in Hs as [k Hk]. exists k, s.
  assert (Family e = fam) as Hf by (destruct (Family e), fam; cbn in *; congruence). rewrite Hf in *. split; [|done].
  unfold find. rewrite He. done.
Qed.
Lemma iff_shown c fam k s m : wf c -> find c fam k = Some s -> shown_metric (config c) (fam_type fam) s = Some m ->
  exists fs p, GetProto c = Some fs /\ p ∈ fs /\ pf_name p = fam_name fam /\ pf_type p = fam_type fam /\ m ∈ pf_metrics p.
Proof.
  intros Hw Hf Hm. unfold find in Hf. destruct (Entries c !! fam) as [e|] eqn:He; [|done]. cbn in Hf.
  destruct (map_Forall_lookup_1 _ _ _ _ Hw He) as [Hfam _].
  assert (m ∈ omap (shown_metric (config c) (fam_type (Family e))) (GetMetrics e (fc_order (config c)))) as Hin.
  { apply list_elem_of_omap. exists s. rewrite Hfam. split; [|done]. apply elem_of_GetMetrics. by exists k. }
  exists (omap (shown_family (config c)) (GetEntries c (fc_order (config c)))).
  exists (mkProtoFamily (fam_name (Family e)) (fam_type (Family e)) (omap (shown_metric (config c) (fam_type (Family e))) (GetMetrics e (fc_order (config c))))).
  split; [by apply GetProto_shown|]. rewrite Hfam in *. split; [|done]. apply list_elem_of_omap. exists e.
  split; [apply (elem_of_GetEntries c _ e Hw); by rewrite Hfam|]. unfold shown_family. rewrite Hfam. by destruct (omap _ _); [apply not_elem_of_nil in Hin|].
Qed.

(** C27: a series of a simple type (counter, gauge, untyped) is a register. What is shown for a family after any additions and
    expiries is, for every set of labels, at most one metric: the value of the newest sample of that name, type and
    labels, the later one of two that are equally new, unless it was added too long before an expiry; samples of other
    series, and fields that are no numbers, do not matter. *)
Theorem Prometheus_registers cfg ops fam :
  is_scalar (fam_type fam) ->
  exists c fs, run ops (NewCollection cfg) = Some c /\ GetProto c = Some fs /\
  forall m, (exists p, p ∈ fs /\ pf_name p = fam_name fam /\ pf_type p = fam_type fam /\ m ∈ pf_metrics p) <->
    (exists s x, foldl observe None (flat_map (events_of cfg fam (MakeMetricKey (p_labels m))) ops) = Some s /\
       Scaler s = Some x /\ m = mkProto (Labels s) (timestamp cfg s) (scalar_proto (fam_type fam) x)).
Proof.
  intros Hsc. destruct (run_typed ops (NewCollection cfg) (wf_new cfg)) as (c & Hr & Hw & Hc). exists c. eexists.
  split; [done|]. split; [by apply GetProto_shown|]. intros m. cbn in Hc.
  assert (forall k, find c fam k = foldl observe None (flat_map (events_of cfg fam k) ops)) as Hfind.
  { intros k. by rewrite (find_run fam k ops _ _ (wf_new cfg) Hsc Hr). }
  split.
  - intros (p & Hp). destruct (shown_iff c fam p m Hw) as (k & s & Hf & Hs).
    { eexists. split; [by apply GetProto_shown|done]. }
    rewrite (shown_scalar _ _ _ Hsc) in Hs. destruct (Scaler s) as [x|] eqn:Ex; [|done]. injection Hs as <-.
    exists s, x. rewrite Hc. split; [|done]. rewrite <- Hfind. cbn [p_labels]. unfold find in Hf. destruct (Entries c !! fam) as [e|] eqn:Ee; [|done].
    cbn in Hf. destruct (map_Forall_lookup_1 _ _ _ _ Hw Ee) as [_ Hms]. destruct (map_Forall_lookup_1 _ _ _ _ Hms Hf) as [-> _].
    unfold find. by rewrite Ee.
  - intros (s & x & Hs & Hx & Hm). destruct (iff_shown c fam (MakeMetricKey (p_labels m)) s m Hw) as (fs & p & Hg & Hp).
    { by rewrite Hfind. }
    { rewrite (shown_scalar _ _ _ Hsc), Hx, Hc. by rewrite Hm. }
    rewrite (GetProto_shown c Hw) in Hg. injection Hg as <-. by exists p.
Qed.
End Typed.

(** ** The collector *)

Section Collectors.
Context `{MapRange, GoSort, FloatConv}.

Definition expiry_ops (now : Z) (c : Collector) : list op := if expireDuration c =? 0 then [] else [OExpire now (expireDuration c)].

Lemma add_all_run ms : forall c, add_all ms c = run ((fun p => OAdd p.1 p.2) <$> ms) c.
Proof. induction ms as [|[m now] ms IH]; intros c; [done|]. cbn. destruct (Add m now c); [apply IH|done]. Qed.
Lemma run_app ops ops' c : run (ops ++ ops') c = (c ← run ops c; run ops' c).
Proof. revert c. induction ops as [|o ops IH]; intros c; [done|]. cbn. destruct (run_op o c); [apply IH|done]. Qed.

(** A collector is its collection with an expiry after every batch and before every reading; neither ever fails. *)
Lemma Collector_Add_run ms now c : wf (coll c) -> exists c', Collector_Add ms now c = Some c' /\ wf (coll c') /\
  run (((fun p => OAdd p.1 p.2) <$> ms) ++ expiry_ops now c) (coll c) = Some (coll c').
Proof.
  intros Hw. unfold Collector_Add. rewrite add_all_run, run_app. destruct (run_typed ((fun p => OAdd p.1 p.2) <$> ms) _ Hw) as (k & Hk & Hwk & _). rewrite Hk.
  binds. eexists. split; [done|]. unfold collector_expire, expiry_ops. cbn. destruct (expireDuration c =? 0); [by split|]. by split; [apply Expire_typed|].
Qed.
Lemma Collect_run now c : wf (coll c) -> exists out c' fs, Collect now c = Some (out, c') /\ wf (coll c') /\
  run (expiry_ops now c) (coll c) = Some (coll c') /\ GetProto (coll c') = Some fs /\ out.*2 = flat_map pf_metrics fs.
Proof.
  intros Hw. unfold Collect. assert (wf (coll (collector_expire now c)) /\ run (expiry_ops now c) (coll c) = Some (coll (collector_expire now c))) as [Hw' Hr].
  { unfold collector_expire, expiry_ops. destruct (expireDuration c =? 0); [by split|]. by split; [apply Expire_typed|]. }
  rewrite (GetProto_shown _ Hw'). binds. eexists _, _, _. split; [reflexivity|]. split; [done|]. split; [done|]. split; [by apply GetProto_shown|].
  generalize (omap (shown_family (config (coll (collector_expire now c)))) (GetEntries (coll (collector_expire now c)) (fc_order (config (coll (collector_expire now c)))))).
  induction l as [|f l IH]; [done|]. cbn. rewrite fmap_app, IH. f_equal. rewrite <- list_fmap_compose. apply list_fmap_id.
Qed.
End Collectors.

(** ** The sorted order does not depend on the maps *)

(** A strict total order, as a test. *)
Record total_lt {K} (lt : K -> K -> bool) : Prop := {
  lt_irrefl x : lt x x = false;
  lt_trans x y z : lt x y = true -> lt y z = true -> lt x z = true;
  lt_tri x y : lt x y = false -> x = y \/ lt y x = true;
}.
Arguments lt_irrefl {K lt}.
Arguments lt_trans {K lt}.
Arguments lt_tri {K lt}.

Lemma total_asym {K} (lt : K -> K -> bool) x y : total_lt lt -> lt x y = true -> lt y x = false.
Proof. intros Hl Hxy. destruct (lt y x) eqn:E; [|done]. pose proof (lt_trans Hl _ _ _ Hxy E) as Hx. by rewrite (lt_irrefl Hl) in Hx. Qed.
Lemma total_neg_trans {K} (lt : K -> K -> bool) x y z : total_lt lt -> lt x y = false -> lt y z = false -> lt x z = false.
Proof.
  intros Hl Hxy Hyz. destruct (lt_tri Hl _ _ Hxy) as [->|Hyx]; [done|]. destruct (lt_tri Hl _ _ Hyz) as [<-|Hzy]; [done|].
  apply (total_asym _ _ _ Hl). by apply (lt_trans Hl _ y).
Qed.

(** Sorting by a key that tells the elements apart has one result. *)
Lemma go_sort_unique {A K} (S1 S2 : GoSort) (key : A -> K) (lt : K -> K -> bool) l1 l2 :
  total_lt lt -> l1 ≡ₚ l2 -> NoDup (key <$> l1) ->
  @go_sort S1 A (fun a b => lt (key a) (key b)) l1 = @go_sort S2 A (fun a b => lt (key a) (key b)) l2.
Proof.
  intros Hl Hp Hn. set (less := fun a b : A => lt (key a) (key b)).
  assert (forall x y, less x y = true -> less y x = false) as Hasym by (intros x y; exact (total_asym lt _ _ Hl)).
  assert (forall x y z, less x y = false -> less y z = false -> less x z = false) as Hneg by (intros x y z; exact (total_neg_trans lt _ _ _ Hl)).
  apply (StronglySorted_unique_strong (fun x y => less y x = false)).
  - intros x1 x2 H1 H2 R1 R2. rewrite (@go_sort_perm S1) in H1. rewrite (@go_sort_perm S2), <- Hp in H2.
    assert (key x1 = key x2) as Hk by (destruct (lt_tri Hl _ _ R1) as [|Hlt]; [done|unfold less in R2; congruence]).
    apply list_elem_of_lookup_1 in H1 as [i1 H1]. apply list_elem_of_lookup_1 in H2 as [i2 H2].
    assert (i1 = i2) as ->; [|congruence].
    eapply NoDup_lookup; [exact Hn|rewrite list_lookup_fmap, H1; reflexivity|by rewrite list_lookup_fmap, H2, Hk].
  - by apply go_sort_sorted.
  - by apply go_sort_sorted.
  - by rewrite (@go_sort_perm S1), (@go_sort_perm S2).
Qed.

Lemma str_ltb_total : total_lt str_ltb.
Proof. constructor; [apply str_ltb_irrefl|apply str_ltb_trans|apply str_ltb_ge]. Qed.

Lemma family_less_total : total_lt family_less.
Proof.
  constructor; unfold family_less.
  - intros [n t]. cbn [fam_name fam_type]. rewrite decide_True by done. apply Nat.ltb_irrefl.
  - intros [n1 t1] [n2 t2] [n3 t3]. cbn [fam_name fam_type]. destruct (decide (n1 = n2)) as [->|N12], (decide (n2 = n3)) as [->|N23]; try done.
    + rewrite ?decide_True by done. rewrite !Nat.ltb_lt. lia.
    + intros H _. by rewrite decide_False.
    + intros H1 H2. pose proof (lt_trans str_ltb_total _ _ _ H1 H2) as H3. rewrite decide_False; [done|]. intros ->. by rewrite str_ltb_irrefl in H3.
  - intros [n1 t1] [n2 t2]. cbn [fam_name fam_type]. destruct (decide (n1 = n2)) as [->|N].
    + rewrite (decide_True (P := n2 = n2)) by done. rewrite Nat.ltb_ge, Nat.ltb_lt. intros Hle.
      destruct (decide (type_rank t1 = type_rank t2)) as [He|He]; [left|right; lia]. f_equal. by destruct t1, t2.
    + rewrite decide_False by congruence. intros H. destruct (str_ltb_ge _ _ H); [congruence|by right].
Qed.

(** Labels of the same number, one after the other. *)
Lemma labels_less_irrefl a : labels_less a a = false.
Proof. induction a as [|l a IH]; [done|]. cbn. by rewrite !decide_True by done. Qed.
Lemma labels_less_trans a : forall b c, length a = length b -> length b = length c ->
  labels_less a b = true -> labels_less b c = true -> labels_less a c = true.
Proof.
  induction a as [|[n1 v1] a IH]; intros [|[n2 v2] b] [|[n3 v3] c] Hab Hbc; cbn in *; try done.
  destruct (decide (n1 = n2)) as [->|N12], (decide (n2 = n3)) as [->|N23].
  - rewrite ?(decide_True (P := n3 = n3)) by done. destruct (decide (v1 = v2)) as [->|V12], (decide (v2 = v3)) as [->|V23].
    + rewrite ?decide_True by done. apply IH; lia.
    + intros _ H. by rewrite ?decide_False.
    + intros H _. by rewrite decide_False.
    + intros H1 H2. pose proof (lt_trans str_ltb_total _ _ _ H1 H2) as H3. rewrite decide_False; [done|]. intros ->. by rewrite str_ltb_irrefl in H3.
  - intros _ H. by rewrite ?decide_False.
  - intros H _. by rewrite decide_False.
  - intros H1 H2. pose proof (lt_trans str_ltb_total _ _ _ H1 H2) as H3. rewrite decide_False; [done|]. intros ->. by rewrite str_ltb_irrefl in H3.
Qed.
Lemma labels_less_tri a : forall b, length a = length b -> labels_less a b = false -> a = b \/ labels_less b a = true.
Proof.
  induction a as [|[n1 v1] a IH]; intros [|[n2 v2] b] Hl; cbn in *; try done; [by left|].
  destruct (decide (n1 = n2)) as [->|N].
  - rewrite (decide_True (P := n2 = n2)) by done. destruct (decide (v1 = v2)) as [->|V].
    + rewrite (decide_True (P := v2 = v2)) by done. intros H. destruct (IH b ltac:(lia) H) as [->|]; auto.
    + rewrite (decide_False (P := v2 = v1)) by congruence. intros H. destruct (str_ltb_ge _ _ H); [congruence|by right].
  - rewrite (decide_False (P := n2 = n1)) by congruence. intros H. destruct (str_ltb_ge _ _ H); [congruence|by right].
Qed.

Definition labels_lt (a b : list LabelPair) : bool :=
  if decide (length a = length b) then labels_less a b else (length a <? length b)%nat.
Lemma labels_lt_total : total_lt labels_lt.
Proof.
  constructor; unfold labels_lt.
  - intros a. rewrite decide_True by done. apply labels_less_irrefl.
  - intros a b c. destruct (decide (length a = length b)) as [Hab|Hab], (decide (length b = length c)) as [Hbc|Hbc]; rewrite ?Nat.ltb_lt.
    + rewrite decide_True by congruence. by apply labels_less_trans.
    + intros _ H. rewrite decide_False by lia. apply Nat.ltb_lt. lia.
    + intros H _. rewrite decide_False by lia. apply Nat.ltb_lt. lia.
    + intros H1 H2. rewrite decide_False by lia. apply Nat.ltb_lt. lia.
  - intros a b. destruct (decide (length a = length b)) as [Hab|Hab].
    + rewrite (decide_True (P := length b = length a)) by done. by apply labels_less_tri.
    + rewrite (decide_False (P := length b = length a)) by congruence. rewrite Nat.ltb_ge, Nat.ltb_lt. intros H. right. lia.
Qed.

Section Sorted.
Context `{FloatConv} (R1 R2 : MapRange) (S1 S2 : GoSort).

Lemma sorted_entries c : wf c -> @GetEntries R1 S1 c SortMetrics = @GetEntries R2 S2 c SortMetrics.
Proof.
  intros Hw. cbn. apply (go_sort_unique S1 S2 Family family_less); [apply family_less_total| |].
  - by rewrite (@range_map_perm R1), (@range_map_perm R2).
  - apply (@GetEntries_NoDup R1 S1 c NoSortMetrics Hw).
Qed.
Lemma sorted_metrics c f e : wf c -> Entries c !! f = Some e -> @GetMetrics R1 S1 e SortMetrics = @GetMetrics R2 S2 e SortMetrics.
Proof.
  intros Hw He. cbn. apply (go_sort_unique S1 S2 Labels labels_lt); [apply labels_lt_total| |].
  - by rewrite (@range_map_perm R1), (@range_map_perm R2).
  - apply (NoDup_fmap_1 MakeMetricKey). rewrite <- list_fmap_compose. apply (@GetMetrics_NoDup R1 S1 c f e NoSortMetrics Hw He).
Qed.

(** Sorted output is reproducible. With [SortMetrics] the families and the metrics of each are given in the same order whatever the
    order in which the maps are ranged over and whatever the sorting does with elements that compare equal, after any
    additions and expiries. *)
Theorem Prometheus_sorted cfg ops c :
  fc_order cfg = SortMetrics -> @run R1 S1 _ ops (NewCollection cfg) = Some c -> @GetProto R1 S1 c = @GetProto R2 S2 c.
Proof.
  intros Ho Hr. destruct (@run_typed R1 S1 _ ops _ (wf_new cfg)) as (c' & Hr' & Hw & Hc). rewrite Hr in Hr'. injection Hr' as <-.
  cbn in Hc. rewrite (@GetProto_shown R1 S1 c Hw), (@GetProto_shown R2 S2 c Hw), Hc, Ho, (sorted_entries c Hw). f_equal.
  apply list_omap_ext, Forall2_same_length_lookup_2; [done|]. intros i e e' He He'. assert (e' = e) as -> by congruence.
  apply list_elem_of_lookup_2, (@elem_of_GetEntries R2 S2 c _ e Hw) in He. unfold shown_family. by rewrite Ho, (sorted_metrics c _ e Hw He).
Qed.
End Sorted.

(** ** Sanitized names *)

(** A rune below 128 is its byte. *)
Lemma decode_rune_ascii b bs : 0 <= b -> 0 <= (decode_rune (b :: bs)).1 < 128 -> decode_rune (b :: bs) = (b, 1%nat).
Proof.
  unfold decode_rune, RuneError, Strings.between. intros Hb. repeat case_match; cbn [fst]; try done; intros Hr; exfalso;
    repeat match goal with
    | H : (_ && _) = true |- _ => apply andb_true_iff in H as [? ?]
    | H : negb _ = false |- _ => apply negb_false_iff in H
    | H : (_ <=? _) = true |- _ => apply Z.leb_le in H
    | H : (_ =? _) = true |- _ => apply Z.eqb_eq in H
    | H : (_ =? _) = false |- _ => apply Z.eqb_neq in H
    | H : (_ <? _) = _ |- _ => revert H; destruct (Z.ltb_spec b 128); intros H
    end; try lia.
Qed.

Fixpoint each_char (P : ascii -> bool) (s : string) : bool :=
  match s with EmptyString => true | String c s => P c && each_char P s end.
Lemma each_char_app P s t : each_char P (s +:+ t) = each_char P s && each_char P t.
Proof. induction s as [|c s IH]; [done|]. change (String c s +:+ t) with (String c (s +:+ t)). cbn. by rewrite IH, andb_assoc. Qed.

Definition allowed (t : list (Z * Z)) (c : ascii) : bool := In (byte_of c) t.

(** Ranges below 128. *)
Definition ascii_table (t : list (Z * Z)) : Prop := Forall (fun p => 0 <= p.1 /\ p.2 < 128) t.

Lemma In_ascii r t : ascii_table t -> In r t = true -> 0 <= r < 128.
Proof.
  intros Ht Hr. unfold In in Hr. apply existsb_exists in Hr as (p & Hp & Hb). apply list_elem_of_In in Hp.
  apply (proj1 (Forall_forall _ _) Ht) in Hp. unfold Strings.between in Hb. lia.
Qed.

Lemma runes_allowed t fuel s : ascii_table t ->
  Forall (fun rb => In rb.1 t = true -> each_char (allowed t) rb.2 = true) (runes_loop fuel s).
Proof.
  intros Ht. revert s. induction fuel as [|fuel IH]; intros s; [by destruct s|]. destruct s as [|c s]; [constructor|].
  cbn [runes_loop]. destruct (decode_rune (bytes (String c s))) as [r n] eqn:E. constructor; [|apply IH]. cbn [fst snd]. intros Hr.
  pose proof (In_ascii _ _ Ht Hr) as Hrange. cbn [bytes] in E.
  rewrite decode_rune_ascii in E; [|unfold byte_of; lia|by rewrite E]. injection E as <- <-.
  replace (str_take 1 (String c s)) with (String c EmptyString) by (by destruct s). cbn. unfold allowed. by rewrite Hr.
Qed.

Lemma trim_left_all P c s : each_char P s = true -> each_char P (trim_left c s) = true.
Proof. induction s as [|d s IH]; [done|]. cbn. intros [Hd Hs]%andb_true_iff. case_decide; [by apply IH|]. cbn. by rewrite Hd, Hs. Qed.
Lemma trim_right_all P c s : each_char P s = true -> each_char P (trim_right c s) = true.
Proof. induction s as [|d s IH]; [done|]. cbn. intros [Hd Hs]%andb_true_iff. case_decide; [done|]. cbn. by rewrite Hd, IH. Qed.

(** What may start a name may also be inside. *)
Definition table_ok (t : Table) : Prop :=
  ascii_table (First t) /\ ascii_table (Rest t) /\ (forall r, In r (First t) = true -> In r (Rest t) = true) /\ In 95 (Rest t) = true.

Lemma each_char_concat P l : Forall (fun s => each_char P s = true) l -> each_char P (concat_strings l) = true.
Proof. induction 1 as [|s l Hs _ IH]; [done|]. cbn [concat_strings foldr]. rewrite each_char_app, Hs. exact IH. Qed.

Lemma decode_rune_width b bs : (1 <= (decode_rune (b :: bs)).2)%nat.
Proof. unfold decode_rune. repeat case_match; cbn; lia. Qed.

Lemma str_drop_length n s : (1 <= n)%nat -> s <> EmptyString -> (String.length (str_drop n s) < String.length s)%nat.
Proof.
  intros Hn Hs. pose proof (f_equal String.length (str_take_drop n s)) as Hl. rewrite str_length_app in Hl.
  destruct s as [|c s]; [done|]. destruct n as [|n]; [lia|]. assert (1 <= String.length (str_take (S n) (String c s)))%nat by (cbn; lia). lia.
Qed.

Lemma runes_concat s : concat_strings (snd <$> runes s) = s.
Proof.
  unfold runes. assert (forall fuel s, (String.length s <= fuel)%nat -> concat_strings (snd <$> runes_loop fuel s) = s) as Hall; [|by apply Hall].
  induction fuel as [|fuel IH]; intros t Ht; [destruct t; [done|cbn in Ht; lia]|]. destruct t as [|c t]; [done|]. cbn [runes_loop].
  destruct (decode_rune (bytes (String c t))) as [r n] eqn:E. rewrite fmap_cons. cbn [snd].
  change (str_take n (String c t) +:+ concat_strings (snd <$> runes_loop fuel (str_drop n (String c t))) = String c t).
  pose proof (decode_rune_width (byte_of c) (bytes t)) as Hn. cbn [bytes] in E. rewrite E in Hn. cbn [snd] in Hn.
  rewrite IH; [apply str_take_drop|]. pose proof (str_drop_length n (String c t) Hn ltac:(done)) as Hl. cbn in Ht, Hl |- *. lia.
Qed.

(** A sanitized name is not empty and has only characters that may be inside a name. *)
Lemma sanitize_chars s t n : table_ok t -> sanitize s t = Some n -> n <> EmptyString /\ each_char (allowed (Rest t)) n = true.
Proof.
  intros (HF & HR & Hsub & Hu) Hs. pose proof (runes_allowed (Rest t) (String.length s) s HR) as Hr. fold (runes s) in Hr.
  assert (forall l, Forall (fun rb => In rb.1 (Rest t) = true -> each_char (allowed (Rest t)) rb.2 = true) l ->
    each_char (allowed (Rest t)) (concat_strings ((fun r : Z * string => if In r.1 (Rest t) then r.2 else "_") <$> l)) = true) as Hc.
  { intros l Hl. apply each_char_concat, Forall_fmap. eapply Forall_impl; [exact Hl|]. intros rb Hrb. unfold compose. cbn beta in *. destruct (In rb.1 (Rest t)); [by apply Hrb|].
    cbn [each_char]. unfold allowed. replace (byte_of "_") with 95 by done. by rewrite Hu. }
  unfold sanitize in Hs. destruct (isValid s t) eqn:Hv.
  - injection Hs as <-. unfold isValid in Hv. destruct (runes s) as [|r rs] eqn:E; [done|]. apply andb_true_iff in Hv as [Hv1 Hv2].
    split; [intros ->; done|]. rewrite <- (runes_concat s), E. apply each_char_concat, Forall_fmap, Forall_forall. intros rb Hrb. cbn.
    apply (proj1 (Forall_forall _ _) Hr rb Hrb). apply elem_of_cons in Hrb as [->|Hrb]; [by apply Hsub|].
    by apply (proj1 (forallb_forall _ _) Hv2), list_elem_of_In.
  - case_decide as He; [done|]. injection Hs as <-. split; [done|]. apply trim_right_all, trim_left_all.
    destruct (runes s) as [|r rs]; [done|]. apply Forall_cons in Hr as [Hr0 Hr]. rewrite each_char_app, Hc by done. rewrite andb_true_r.
    destruct (In r.1 (First t)) eqn:Ef; [by apply Hr0, Hsub|done].
Qed.

Lemma metric_table_ok : table_ok MetricNameTable.
Proof.
  split; [|split; [|split; [|done]]]; [by repeat constructor..|].
  intros r. unfold In, Strings.between. cbn. rewrite !orb_true_iff, !andb_true_iff, !Z.leb_le. lia.
Qed.
Lemma label_table_ok : table_ok LabelNameTable.
Proof.
  split; [|split; [|split; [|done]]]; [by repeat constructor..|].
  intros r. unfold In, Strings.between. cbn. rewrite !orb_true_iff, !andb_true_iff, !Z.leb_le. lia.
Qed.

(** But it need not be a name: when the first character is left out or is trimmed, a digit can come first. *)
Example sanitized_not_valid :
  SanitizeMetricName "00_load" = Some "0_load" /\ isValid "0_load" MetricNameTable = false /\
  SanitizeLabelName "_1.2" = Some "1_2" /\ isValid "1_2" LabelNameTable = false.
Proof. by vm_compute. Qed.

(** ** Examples *)

#[local] Existing Instance map_range_default.
#[local] Existing Instance insertion_go_sort.
#[local] Existing Instance ex_conv.

Definition ex_format : FormatConfig := mkFormat ExportTimestamp SortMetrics StringAsLabel.
Definition ex_gauge (host : string) (v t : Z) : metric := mkMetric "cpu" [mkTag "host" host] [mkField "usage" (VInt v)] t Gauge false.
Definition ex_ops : list op :=
  [OAdd (ex_gauge "b" 1 2000000) 0; OAdd (ex_gauge "a" 2 1000000) 0; OAdd (ex_gauge "b" 3 1000000) 10; OExpire 10 20].

Definition ex_family : MetricFamily := mkFamily "cpu_usage" Gauge.
Lemma Prometheus_registers_witness : exists c fs, run ex_ops (NewCollection ex_format) = Some c /\ GetProto c = Some fs.
Proof.
  destruct (Prometheus_registers ex_format ex_ops ex_family) as (c & fs & Hr & Hg & _); [right; left; reflexivity|].
  exact (ex_intro _ c (ex_intro _ fs (conj Hr Hg))).
Defined.
Example ex_shown : (c ← run ex_ops (NewCollection ex_format); GetProto c) = Some [mkProtoFamily "cpu_usage" Gauge
  [mkProto [mkLabel "host" "a"] (Some 1) (PGauge (f_of_Z 2)); mkProto [mkLabel "host" "b"] (Some 2) (PGauge (f_of_Z 1))]].
Proof. by vm_compute. Qed.

Definition ex_coll : Collection := default (NewCollection ex_format) (run ex_ops (NewCollection ex_format)).
(** Maps ranged over backwards. *)
Definition ex_backwards : MapRange :=
  {| range_map := fun _ _ _ _ m => reverse (map_to_list m);
     range_map_perm := fun _ _ _ _ m => reverse_Permutation (map_to_list m) |}.
Lemma Prometheus_sorted_witness : GetProto ex_coll = @GetProto ex_backwards insertion_go_sort ex_coll /\ fc_order ex_format = SortMetrics.
Proof.
  split; [|reflexivity].
  apply (Prometheus_sorted map_range_default ex_backwards insertion_go_sort insertion_go_sort ex_format ex_ops ex_coll); [reflexivity|].
  vm_compute. reflexivity.
Defined.

(** A histogram that is updated keeps the time of its first addition, so it expires while a gauge of the same times does not. *)
Definition ex_hist (n t : Z) : metric := mkMetric "http" [mkTag "le" "1"] [mkField "time_bucket" (VInt n)] t Histogram false.
Example updated_histogram_expires :
  (c ← run [OAdd (ex_hist 1 0) 0; OAdd (ex_hist 2 90) 90; OExpire 100 50] (NewCollection ex_format); GetProto c) = Some [] /\
  (c ← run [OAdd (ex_gauge "a" 1 0) 0; OAdd (ex_gauge "a" 2 90) 90; OExpire 100 50] (NewCollection ex_format); Some (length <$> GetProto c)) =
    Some (Some 1%nat).
Proof. by vm_compute. Qed.

(** Two tags whose keys become the same name give a label twice. *)
Example label_twice :
  createLabels (NewCollection ex_format) (mkMetric "m" [mkTag "a.b" "1"; mkTag "a_b" "2"] [] 0 Gauge false) = [mkLabel "a_b" "1"; mkLabel "a_b" "2"].
Proof. by vm_compute. Qed.
