(* ===== verification/Rotate.v ===== *)
(** * Rotation of log files

    [internal/rotate/file_writer.go]: a writer that renames its file when it has grown to a size, or after an interval, goes on
    in a new file, and removes the oldest of the renamed ones. Used by the logger and the file output.

    The file system is a map of paths to contents and modification times. Every call of the operating system
    succeeds or fails as the parameter [fate] says, and every reading of the clock gives what [clock] says. The functions that open and
    rotate call each other without a bound, so they have fuel; [None] is that it did not suffice, or a panic.
    File names have no percent sign, which would be a format verb, and no characters special in patterns. *)

From Stdlib Require Import Ascii.
From S2P Require Import Prelude Strconv Strings Parse.

Record file := mkFile { content : string; mtime : Z }.
Record world := mkWorld { fs : gmap string file; calls : nat; reads : nat }.

Inductive handle := NoFile | Open | ClosedFile.

Record FileWriter := mkWriter {
  filename : string;
  stem : string;
  ext : string;
  current : handle;
  interval : Z;
  maxSizeInBytes : Z;
  maxArchives : Z;
  expireTime : Z;
  bytesWritten : Z;
}.

Section Rotation.
Variable fate : nat -> bool.
Variable clock : nat -> Z.
Variable date : Z -> string.
Variable partial : nat -> nat.

Definition set_current (h : handle) (w : FileWriter) : FileWriter :=
  mkWriter (filename w) (stem w) (ext w) h (interval w) (maxSizeInBytes w) (maxArchives w) (expireTime w) (bytesWritten w).
Definition set_expiry (t n : Z) (w : FileWriter) : FileWriter :=
  mkWriter (filename w) (stem w) (ext w) (current w) (interval w) (maxSizeInBytes w) (maxArchives w) t n.

(** ** The operating system *)

Definition os_call (s : world) : bool * world := (fate (calls s), mkWorld (fs s) (S (calls s)) (reads s)).
Definition Now (s : world) : Z * world := (clock (reads s), mkWorld (fs s) (calls s) (S (reads s))).
Definition set_fs (m : gmap string file) (s : world) : world := mkWorld m (calls s) (reads s).

(** [os.OpenFile] to append, creating the file. *)
Definition openFile (name : string) (s : world) : bool * world :=
  let '(ok, s) := os_call s in
  if ok then (true, match fs s !! name with Some _ => s | None => set_fs (<[name := mkFile EmptyString (clock (reads s))]> (fs s)) s end)
  else (false, s).

(** [File.Write]; a write that fails may have written the first bytes. *)
Definition file_write (name : string) (p : string) (s : world) : bool * world :=
  let '(ok, s) := os_call s in
  let p := if ok then p else str_take (partial (calls s)) p in
  (ok, match fs s !! name with
       | Some f => set_fs (<[name := mkFile (content f +:+ p) (clock (reads s))]> (fs s)) s
       | None => s
       end).

Definition os_Rename (old new : string) (s : world) : bool * world :=
  let '(ok, s) := os_call s in
  if ok then
    match fs s !! old with
    | Some f => (true, set_fs (<[new := f]> (delete old (fs s))) s)
    | None => (false, s)
    end
  else (false, s).
Definition os_Remove (name : string) (s : world) : bool * world :=
  let '(ok, s) := os_call s in
  if ok && bool_decide (is_Some (fs s !! name)) then (true, set_fs (delete name (fs s)) s) else (false, s).

(** ** The writer *)

Definition rotated_name (w : FileWriter) (now : Z) : string :=
  stem w +:+ "." +:+ date now +:+ "-" +:+ FormatInt (now / 1000000000) +:+ ext w.

(** Whether a path matches the name of an archive: [filepath.Glob] with stars for date and time. *)
Definition is_archive (w : FileWriter) (name : string) : bool :=
  match strip_prefix (stem w +:+ ".") name with
  | None => false
  | Some rest =>
    match strip_suffix (ext w) rest with
    | None => false
    | Some middle => Contains middle "-" && free_of "/"%char middle
    end
  end.
Definition archives (w : FileWriter) (s : world) : list string :=
  merge_sort String.le (filter (fun n => is_archive w n = true) (map_to_list (fs s)).*1).

Fixpoint remove_all (names : list string) (s : world) : bool * world :=
  match names with
  | [] => (true, s)
  | n :: names => let '(ok, s) := os_Remove n s in if ok then remove_all names s else (false, s)
  end.

Definition purgeArchivesIfNeeded (w : FileWriter) (s : world) : option (bool * world) :=
  if maxArchives w =? -1 then Some (true, s) else
  let matches := archives w s in
  let n := Z.of_nat (length matches) in
  if maxArchives w <? n then
    if n <? n - maxArchives w then None
    else Some (remove_all (take (Z.to_nat (n - maxArchives w)) matches) s)
  else Some (true, s).

(** [rotate]: a file is closed for its writer also when closing it fails. *)
Definition rotate (w : FileWriter) (s : world) : option (bool * FileWriter * world) :=
  match current w with
  | NoFile | ClosedFile => Some (false, w, s)
  | Open =>
    let '(ok, s) := os_call s in
    let w := set_current ClosedFile w in
    if negb ok then Some (false, w, s) else
    let '(now, s) := Now s in
    let '(ok, s) := os_Rename (filename w) (rotated_name w now) s in
    if negb ok then Some (false, w, s) else
    '(ok, s) ← purgeArchivesIfNeeded w s;
    Some (ok, w, s)
  end.

(** [openCurrent] and [rotateIfNeeded]; the flag of the result is that there was no error. *)
Fixpoint openCurrent (fuel : nat) (w : FileWriter) (s : world) : option (bool * FileWriter * world) :=
  match fuel with
  | O => None
  | S fuel =>
    let '(now, s) := Now s in
    let w := set_expiry (now + interval w) 0 w in
    let '(ok, s) := openFile (filename w) s in
    if negb ok then Some (false, set_current NoFile w, s) else
    let w := set_current Open w in
    let '(ok, s) := os_call s in
    let w := match fs s !! filename w with
             | Some f => if ok then set_expiry (mtime f + interval w) (Z.of_nat (String.length (content f))) w else w
             | None => w
             end in
    rotateIfNeeded fuel w s
  end
with rotateIfNeeded (fuel : nat) (w : FileWriter) (s : world) : option (bool * FileWriter * world) :=
  match fuel with
  | O => None
  | S fuel =>
    let '(elapsed, s) := if 0 <? interval w then let '(now, s) := Now s in (expireTime w <? now, s) else (false, s) in
    if elapsed || ((0 <? maxSizeInBytes w) && (maxSizeInBytes w <=? bytesWritten w)) then
      '(_, w, s) ← rotate w s; openCurrent fuel w s
    else Some (true, w, s)
  end.

(** The extension is the part from the last dot, if it is after the last slash. *)
Fixpoint split_ext (name : string) : string * string :=
  match name with
  | EmptyString => (EmptyString, EmptyString)
  | String c rest =>
    let '(st, ex) := split_ext rest in
    if decide (ex = EmptyString) then
      if decide (c = ".")%char then if free_of "/"%char rest then (EmptyString, name) else (String c st, ex) else (String c st, ex)
    else (String c st, ex)
  end.

(** What the caller gets: a plain file, or one that is rotated. *)
Inductive WriteCloser := Plain (name : string) (h : handle) | Rotating (w : FileWriter).

Definition NewFileWriter (fuel : nat) (name : string) (interval maxSizeInBytes maxArchives : Z) (s : world) : option (option WriteCloser * world) :=
  if (interval =? 0) && (maxSizeInBytes <=? 0) then
    let '(ok, s) := openFile name s in Some (if (ok : bool) then Some (Plain name Open) else None, s)
  else
    let '(st, ex) := split_ext name in
    '(ok, w, s) ← openCurrent fuel (mkWriter name st ex NoFile interval maxSizeInBytes maxArchives 0 0) s;
    Some (if (ok : bool) then Some (Rotating w) else None, s).

(** [Write]: the number of bytes, or an error. *)
Definition Write (fuel : nat) (p : string) (w : FileWriter) (s : world) : option (option nat * FileWriter * world) :=
  match current w with
  | NoFile | ClosedFile => Some (None, w, s)
  | Open =>
    let '(ok, s) := file_write (filename w) p s in
    if negb ok then Some (None, w, s) else
    let w := set_expiry (expireTime w) (bytesWritten w + Z.of_nat (String.length p)) w in
    '(ok, w, s) ← rotateIfNeeded fuel w s;
    Some (if (ok : bool) then Some (String.length p) else None, w, s)
  end.

Definition Close (w : FileWriter) (s : world) : option (bool * FileWriter * world) :=
  '(ok, w, s) ← rotate w s;
  Some (if (ok : bool) then (true, set_current NoFile w, s) else (false, w, s)).

(** The same calls on what [NewFileWriter] gave: a plain file is written to, and closed without being renamed. *)
Definition wc_Write (fuel : nat) (p : string) (wc : WriteCloser) (s : world) : option (option nat * WriteCloser * world) :=
  match wc with
  | Rotating w => '(r, w, s) ← Write fuel p w s; Some (r, Rotating w, s)
  | Plain name Open => let '(ok, s) := file_write name p s in Some (if (ok : bool) then Some (String.length p) else None, wc, s)
  | Plain _ _ => Some (None, wc, s)
  end.
Definition wc_Close (wc : WriteCloser) (s : world) : option (bool * WriteCloser * world) :=
  match wc with
  | Rotating w => '(ok, w, s) ← Close w s; Some (ok, Rotating w, s)
  | Plain name Open => let '(ok, s) := os_call s in Some (ok, Plain name ClosedFile, s)
  | Plain _ _ => Some (false, wc, s)
  end.

(** ** Names *)

Lemma split_ext_join name : (split_ext name).1 +:+ (split_ext name).2 = name.
Proof.
  induction name as [|c rest IH]; [done|]. cbn. destruct (split_ext rest) as [st ex]. cbn in IH.
  assert (String c st +:+ ex = String c rest) as Hk by (change (String c (st +:+ ex) = String c rest); by rewrite IH).
  repeat case_decide; try case_match; try exact Hk. done.
Qed.

Lemma rotated_name_longer w now : filename w = stem w +:+ ext w -> rotated_name w now <> filename w.
Proof.
  intros Hf He. apply (f_equal String.length) in He. rewrite Hf in He. unfold rotated_name in He.
  rewrite !str_length_app in He. cbn in He. lia.
Qed.

Lemma str_app_inj_l (a b c : string) : a +:+ b = a +:+ c -> b = c.
Proof. induction a as [|x a IH]; [done|]. intros H. apply IH. by injection H. Qed.
Lemma str_app_inj_r (a b c : string) : a +:+ c = b +:+ c -> a = b.
Proof.
  revert b. induction a as [|x a IH]; intros [|y b] H; [done| | |].
  - apply (f_equal String.length) in H. rewrite !str_length_app in H. cbn in H. lia.
  - apply (f_equal String.length) in H. rewrite !str_length_app in H. cbn in H. lia.
  - change (String x (a +:+ c) = String y (b +:+ c)) in H. injection H as -> H. by rewrite (IH b H).
Qed.

(** The part after the last dash. *)
Lemma after_dash a b x y c : free_of c x = true -> free_of c y = true -> a +:+ String c x = b +:+ String c y -> x = y.
Proof.
  intros Hx Hy. revert b. induction a as [|d a IH]; intros [|e b] H.
  - by injection H.
  - change (String c x = String e (b +:+ String c y)) in H. injection H as -> ->. rewrite free_of_app in Hx. cbn in Hx.
    rewrite andb_true_iff, andb_true_iff, negb_true_iff in Hx. destruct Hx as [_ [Hx _]]. by rewrite bool_decide_true in Hx.
  - change (String d (a +:+ String c x) = String c y) in H. injection H as -> <-. rewrite free_of_app in Hy. cbn in Hy.
    rewrite andb_true_iff, andb_true_iff, negb_true_iff in Hy. destruct Hy as [_ [Hy _]]. by rewrite bool_decide_true in Hy.
  - change (String d (a +:+ String c x) = String e (b +:+ String c y)) in H. injection H as -> H. by apply (IH b).
Qed.

Lemma FormatInt_nodash z : 0 <= z -> free_of "-"%char (FormatInt z) = true.
Proof.
  intros Hz. unfold FormatInt. destruct (Z.ltb_spec z 0); [lia|]. destruct (read_digits_chars _ _ _ (FormatUint_read z ltac:(lia))) as [_ Hf]. by apply Hf.
Qed.

Lemma rotated_name_inj w t u : 0 <= t -> 0 <= u ->
  rotated_name w t = rotated_name w u -> t / 1000000000 = u / 1000000000.
Proof.
  intros Ht Hu H. pose proof (Z.div_pos t 1000000000 Ht ltac:(lia)). pose proof (Z.div_pos u 1000000000 Hu ltac:(lia)).
  unfold rotated_name in H. apply str_app_inj_l in H. apply str_app_inj_l in H.
  change (date t +:+ String "-" (FormatInt (t / 1000000000) +:+ ext w) = date u +:+ String "-" (FormatInt (u / 1000000000) +:+ ext w)) in H.
  assert (forall a x, a +:+ String "-" (x +:+ ext w) = (a +:+ String "-" x) +:+ ext w) as Hre.
  { intros a x. rewrite str_app_assoc. done. }
  rewrite !Hre in H. apply str_app_inj_r in H. apply after_dash in H; [|by apply FormatInt_nodash..].
  unfold FormatInt in H. destruct (Z.ltb_spec (t / 1000000000) 0); [lia|]. destruct (Z.ltb_spec (u / 1000000000) 0); [lia|].
  apply (f_equal (fun s => read_digits s 0)) in H. rewrite !FormatUint_read in H by lia. by injection H.
Qed.

(** ** Nothing is lost *)

Fixpoint write_all (fuel : nat) (ps : list string) (w : FileWriter) (s : world) : option (list (option nat) * FileWriter * world) :=
  match ps with
  | [] => Some ([], w, s)
  | p :: ps => '(r, w, s) ← Write fuel p w s; '(rs, w, s) ← write_all fuel ps w s; Some (r :: rs, w, s)
  end.

Definition contents (fs : list file) : string := concat_strings (content <$> fs).

Section Reliable.
Hypothesis all_ok : forall n, fate n = true.
Hypothesis clock_range : forall n, 0 <= clock n.
Hypothesis clock_moves : forall i j, (i + 2 <= j)%nat -> clock i / 1000000000 < clock j / 1000000000.

(** The state between two calls: the archives in order, and the current file. *)
Record holds (w : FileWriter) (s : world) (archs : list (string * file)) (cur : file) : Prop := {
  ho_fs : fs s = <[filename w := cur]> (list_to_map archs);
  ho_names : Forall (fun a => exists i, (i + 2 <= reads s)%nat /\ a.1 = rotated_name w (clock i)) archs;
  ho_nodup : NoDup archs.*1;
  ho_open : current w = Open;
  ho_size : bytesWritten w = Z.of_nat (String.length (content cur));
  ho_bound : bytesWritten w < maxSizeInBytes w;
  ho_file : filename w = stem w +:+ ext w;
  ho_conf : interval w = 0 /\ maxArchives w = -1 /\ 0 < maxSizeInBytes w;
}.

Lemma os_call_ok s : os_call s = (true, mkWorld (fs s) (S (calls s)) (reads s)).
Proof. unfold os_call. by rewrite all_ok. Qed.

(** Opening a file that does not exist yet. *)
Lemma open_new fuel w s :
  fs s !! filename w = None -> interval w = 0 -> 0 < maxSizeInBytes w ->
  exists t c, openCurrent (2 + fuel) w s = Some (true, set_current Open (set_expiry t 0 w),
    mkWorld (<[filename w := mkFile EmptyString t]> (fs s)) c (S (reads s))).
Proof.
  intros Hf Hi Hm. cbn [Nat.add openCurrent Now]. unfold openFile. rewrite os_call_ok. cbn [fs reads calls filename set_expiry].
  rewrite Hf. cbn [negb]. rewrite os_call_ok. cbn [fs reads calls set_fs filename set_current set_expiry]. rewrite lookup_insert_eq.
  cbn [mtime content String.length rotateIfNeeded interval set_expiry set_current maxSizeInBytes bytesWritten]. rewrite Hi. cbn [Z.ltb Z.compare orb]. change (Z.of_nat 0) with 0.
  rewrite (proj2 (Z.leb_gt _ _) Hm), andb_false_r, Z.add_0_r. by eexists _, _.
Qed.

(** A current file that has grown to the size is renamed, and a new one is begun. *)
Lemma rotate_full fuel w s archs f :
  fs s = <[filename w := f]> (list_to_map archs) ->
  Forall (fun a => exists i, (i + 2 <= reads s)%nat /\ a.1 = rotated_name w (clock i)) archs -> NoDup archs.*1 ->
  current w = Open -> filename w = stem w +:+ ext w -> interval w = 0 -> maxArchives w = -1 -> 0 < maxSizeInBytes w ->
  maxSizeInBytes w <= bytesWritten w ->
  exists w' s' cur, rotateIfNeeded (3 + fuel) w s = Some (true, w', s') /\ content cur = EmptyString /\
    holds w' s' (archs ++ [(rotated_name w (clock (reads s)), f)]) cur /\ maxSizeInBytes w' = maxSizeInBytes w /\ filename w' = filename w.
Proof.
  intros Hfs Hn Hd Ho Hf Hi Ha Hm Hb. set (nm := rotated_name w (clock (reads s))).
  assert (nm <> filename w) as Hne by (by apply rotated_name_longer).
  assert (filename w ∉ archs.*1) as Hfree.
  { intros (a & Ha1 & Ha2)%list_elem_of_fmap. apply (proj1 (Forall_forall _ _) Hn) in Ha2 as (i & _ & Hx).
    by apply (rotated_name_longer w (clock i) Hf); rewrite <- Hx. }
  assert (nm ∉ archs.*1) as Hfresh.
  { intros (a & Ha1 & Ha2)%list_elem_of_fmap. apply (proj1 (Forall_forall _ _) Hn) in Ha2 as (i & Hir & Hx).
    rewrite <- Ha1 in Hx. apply rotated_name_inj in Hx; [|apply clock_range..]. pose proof (clock_moves i (reads s) Hir). lia. }
  cbn [Nat.add rotateIfNeeded]. rewrite Hi. cbn [Z.ltb Z.compare]. cbn [orb]. rewrite (proj2 (Z.ltb_lt _ _) Hm), (proj2 (Z.leb_le _ _) Hb). cbn [andb].
  unfold rotate. rewrite Ho, os_call_ok. cbn [negb fst snd Now reads fs calls]. unfold os_Rename. rewrite os_call_ok. cbn [fs reads calls].
  change (filename (set_current ClosedFile w)) with (filename w). rewrite Hfs, lookup_insert_eq. cbn [negb].
  unfold purgeArchivesIfNeeded. change (maxArchives (set_current ClosedFile w)) with (maxArchives w). rewrite Ha. cbn [Z.eqb Pos.eqb]. binds.
  change (rotated_name (set_current ClosedFile w) (clock (reads s))) with nm. rewrite delete_insert_id by (by apply not_elem_of_list_to_map_1).
  destruct (open_new fuel (set_current ClosedFile w) (set_fs (<[nm := f]> (list_to_map archs))
    (mkWorld (<[filename w := f]> (list_to_map archs)) (S (S (calls s))) (S (reads s))))) as (t & c & Hopen); [|done|done|].
  { cbn. rewrite lookup_insert_ne by done. by apply not_elem_of_list_to_map_1. }
  cbn [Nat.add] in Hopen. rewrite Hopen. eexists _, _, (mkFile EmptyString t). split; [reflexivity|]. split; [done|]. split; [|done].
  assert (list_to_map (archs ++ [(nm, f)]) = <[nm := f]> (list_to_map archs : gmap string file)) as Hl.
  { by rewrite list_to_map_snoc. }
  constructor; cbn; try done.
  - by rewrite Hl.
  - apply Forall_app. split; [|constructor; [|done]; exists (reads s); split; [lia|done]].
    eapply Forall_impl; [exact Hn|]. intros a (i & Hir & Hx). exists i. split; [lia|done].
  - rewrite fmap_app. apply NoDup_app. split; [done|]. split; [|apply NoDup_singleton]. intros x Hx ->%list_elem_of_singleton. done.
Qed.

Lemma contents_snoc l f : contents (l ++ [f]) = contents l +:+ content f.
Proof.
  induction l as [|x l IH]; [apply str_app_nil_r|]. change (content x +:+ contents (l ++ [f]) = (content x +:+ contents l) +:+ content f).
  by rewrite IH, str_app_assoc.
Qed.

Lemma write_step fuel p w s archs cur : holds w s archs cur ->
  exists w' s' archs' cur', Write (3 + fuel) p w s = Some (Some (String.length p), w', s') /\ holds w' s' archs' cur' /\
    contents archs'.*2 +:+ content cur' = contents archs.*2 +:+ content cur +:+ p /\
    (Forall (fun f => maxSizeInBytes w <= Z.of_nat (String.length (content f))) archs.*2 ->
     Forall (fun f => maxSizeInBytes w' <= Z.of_nat (String.length (content f))) archs'.*2) /\
    maxSizeInBytes w' = maxSizeInBytes w /\ filename w' = filename w.
Proof.
  intros [Hfs Hn Hd Ho Hs Hb Hf (Hi & Ha & Hm)]. unfold Write. rewrite Ho. unfold file_write. rewrite os_call_ok. cbn [fs reads calls].
  rewrite Hfs, lookup_insert_eq. cbn [negb set_fs reads calls]. rewrite insert_insert_eq.
  set (f := mkFile (content cur +:+ p) (clock (reads s))). set (w1 := set_expiry _ _ w). set (s1 := set_fs _ _).
  assert (bytesWritten w1 = Z.of_nat (String.length (content f))) as Hs1.
  { cbn. rewrite Hs, str_length_app. lia. }
  destruct (decide (maxSizeInBytes w <= bytesWritten w1)) as [Hfull|Hfull].
  - destruct (rotate_full fuel w1 s1 archs f) as (w' & s' & cur' & -> & Hc & Hh & Hm' & Hf'); try done. binds.
    eexists _, _, _, _. split; [reflexivity|]. split; [exact Hh|]. split; [|split; [|done]].
    + rewrite fmap_app. change (contents (archs.*2 ++ [f]) +:+ content cur' = contents archs.*2 +:+ content cur +:+ p).
      by rewrite contents_snoc, Hc, str_app_nil_r.
    + intros Hall. rewrite fmap_app. apply Forall_app. rewrite Hm'. split; [done|]. constructor; [|done]. cbn [snd]. rewrite <- Hs1. done.
  - cbn [Nat.add rotateIfNeeded]. change (interval w1) with (interval w). rewrite Hi. cbn [Z.ltb Z.compare orb].
    change (maxSizeInBytes w1) with (maxSizeInBytes w). rewrite (proj2 (Z.leb_gt (maxSizeInBytes w) _)) by lia. rewrite andb_false_r. binds.
    eexists _, _, archs, f. split; [reflexivity|]. split; [|done]. constructor; try done. cbn in Hfull |- *. lia.
Qed.

Lemma write_all_steps fuel ps : forall w s archs cur, holds w s archs cur ->
  Forall (fun f => maxSizeInBytes w <= Z.of_nat (String.length (content f))) archs.*2 ->
  exists w' s' archs' cur', write_all (3 + fuel) ps w s = Some ((fun p => Some (String.length p)) <$> ps, w', s') /\ holds w' s' archs' cur' /\
    contents archs'.*2 +:+ content cur' = contents archs.*2 +:+ content cur +:+ concat_strings ps /\
    Forall (fun f => maxSizeInBytes w <= Z.of_nat (String.length (content f))) archs'.*2 /\
    maxSizeInBytes w' = maxSizeInBytes w /\ filename w' = filename w.
Proof.
  induction ps as [|p ps IH]; intros w s archs cur Hh Hall.
  - exists w, s, archs, cur. cbn. by rewrite str_app_nil_r.
  - destruct (write_step fuel p w s archs cur Hh) as (w1 & s1 & a1 & c1 & Hw & Hh1 & Hc1 & Hall1 & Hm1 & Hf1).
    destruct (IH w1 s1 a1 c1 Hh1 (Hall1 Hall)) as (w2 & s2 & a2 & c2 & Hw2 & Hh2 & Hc2 & Hall2 & Hm2 & Hf2).
    exists w2, s2, a2, c2. split; [change (write_all (3 + fuel) (p :: ps) w s) with ('(r, w, s) ← Write (3 + fuel) p w s;
      '(rs, w, s) ← write_all (3 + fuel) ps w s; Some (r :: rs, w, s)); rewrite Hw; binds; by rewrite Hw2|].
    split; [done|]. split; [|split; [by rewrite <- Hm1|split; congruence]].
    change (concat_strings (p :: ps)) with (p +:+ concat_strings ps). rewrite Hc2, <- str_app_assoc, Hc1. by rewrite !str_app_assoc.
Qed.


(** Without an interval and a size the file is a plain one: what is written is behind what was there, and closing renames nothing. *)
Lemma plain_conserves fuel name max archives p s : max <= 0 -> exists s0 s1 s2 f,
  NewFileWriter fuel name 0 max archives s = Some (Some (Plain name Open), s0) /\
  wc_Write fuel p (Plain name Open) s0 = Some (Some (String.length p), Plain name Open, s1) /\
  wc_Close (Plain name Open) s1 = Some (true, Plain name ClosedFile, s2) /\
  fs s2 = <[name := f]> (fs s) /\ content f = default EmptyString (content <$> fs s !! name) +:+ p.
Proof.
  intros Hm. unfold NewFileWriter. cbn [Z.eqb]. rewrite (proj2 (Z.leb_le max 0) Hm). cbn [andb]. unfold openFile. rewrite os_call_ok. cbn [fs reads calls].
  eexists _, _, _, (mkFile (default EmptyString (content <$> fs s !! name) +:+ p) (clock (reads s))). split; [done|]. cbn [wc_Write wc_Close]. unfold file_write. rewrite os_call_ok. cbn [fs reads calls].
  split; [done|]. rewrite os_call_ok. split; [done|]. cbn [fs calls reads set_fs]. destruct (fs s !! name) as [f|] eqn:E; cbn [fs set_fs]; rewrite ?E, ?lookup_insert_eq.
  - by split.
  - cbn [fs set_fs]. rewrite insert_insert_eq. by split.
Qed.
End Reliable.

(** ** Removing old archives *)

Lemma remove_all_ok (Hok : forall n, fate n = true) names : forall s, NoDup names -> (forall n, n ∈ names -> is_Some (fs s !! n)) ->
  exists s', remove_all names s = (true, s') /\ forall n, fs s' !! n = if decide (n ∈ names) then None else fs s !! n.
Proof.
  induction names as [|x names IH]; intros s Hd Hin.
  - exists s. split; [done|]. intros n. by rewrite decide_False by (apply not_elem_of_nil).
  - apply NoDup_cons in Hd as [Hx Hd]. cbn [remove_all]. unfold os_Remove, os_call. rewrite Hok. cbn [fs andb].
    rewrite bool_decide_true by (apply Hin; by left).
    destruct (IH (set_fs (delete x (fs s)) (mkWorld (fs s) (S (calls s)) (reads s)))) as (s' & Hs' & Hfs); [done| |].
    { intros n Hn. cbn. rewrite lookup_delete_ne by (by intros <-). apply Hin. by right. }
    exists s'. split; [exact Hs'|]. intros n. rewrite Hfs. cbn. destruct (decide (n = x)) as [->|Hne].
    + rewrite (decide_True (P := x ∈ x :: names)) by (by left). rewrite lookup_delete_eq. by case_decide.
    + rewrite lookup_delete_ne by done. destruct (decide (n ∈ names)); [by rewrite decide_True by (by right)|].
      rewrite decide_False; [done|]. by apply not_elem_of_cons.
Qed.

Lemma elem_of_archives w s n : n ∈ archives w s <-> is_archive w n = true /\ is_Some (fs s !! n).
Proof.
  unfold archives. rewrite merge_sort_Permutation, list_elem_of_filter. apply and_iff_compat_l. rewrite list_elem_of_fmap. split.
  - intros ([k f] & -> & Hk). apply elem_of_map_to_list in Hk. by eexists.
  - intros [f Hf]. exists (n, f). split; [done|]. by apply elem_of_map_to_list.
Qed.
Lemma archives_NoDup w s : NoDup (archives w s).
Proof. unfold archives. rewrite merge_sort_Permutation. apply NoDup_filter, NoDup_fst_map_to_list. Qed.
Lemma archives_sorted w s : StronglySorted String.le (archives w s).
Proof. apply StronglySorted_merge_sort; apply _. Qed.

(** With a limit on the archives, those left are the last ones in the order of their names, as many as the limit; other files stay. *)
Lemma purge_keeps_last (Hok : forall n, fate n = true) w s k : maxArchives w = Z.of_nat k ->
  exists s', purgeArchivesIfNeeded w s = Some (true, s') /\
    archives w s' = drop (length (archives w s) - k) (archives w s) /\ (length (archives w s') <= k)%nat /\
    forall n, is_archive w n = false -> fs s' !! n = fs s !! n.
Proof.
  intros Hk. unfold purgeArchivesIfNeeded. rewrite Hk. destruct (Z.eqb_spec (Z.of_nat k) (-1)) as [|_]; [lia|].
  destruct (Z.ltb_spec (Z.of_nat k) (Z.of_nat (length (archives w s)))) as [Hl|Hl].
  - destruct (Z.ltb_spec (Z.of_nat (length (archives w s))) (Z.of_nat (length (archives w s)) - Z.of_nat k)); [lia|].
    set (d := (length (archives w s) - k)%nat). replace (Z.to_nat _) with d by lia.
    pose proof (archives_NoDup w s) as Hd. rewrite <- (take_drop d (archives w s)) in Hd. apply NoDup_app in Hd as (Hd1 & Hd2 & Hd3).
    destruct (remove_all_ok Hok (take d (archives w s)) s Hd1) as (s' & -> & Hfs).
    { intros n Hn. apply (elem_of_archives w s n). rewrite <- (take_drop d (archives w s)). apply elem_of_app. by left. }
    exists s'. split; [done|]. assert (archives w s' = drop d (archives w s)) as Ha.
    { apply (StronglySorted_unique String.le); [apply archives_sorted| |].
      - pose proof (archives_sorted w s) as Hsrt. rewrite <- (take_drop d (archives w s)) in Hsrt. by apply StronglySorted_app_1_r in Hsrt.
      - apply NoDup_Permutation; [apply archives_NoDup|done|]. intros n. rewrite elem_of_archives, Hfs. split.
        + intros [Hn Hs]. case_decide as Ht; [by destruct Hs|]. assert (n ∈ archives w s) as Hin by (by apply elem_of_archives).
          rewrite <- (take_drop d (archives w s)) in Hin. by apply elem_of_app in Hin as [?|?].
        + intros Hn. assert (n ∈ archives w s) as Hin by (rewrite <- (take_drop d (archives w s)); apply elem_of_app; by right).
          apply elem_of_archives in Hin as [Hin1 Hin2]. split; [done|]. rewrite decide_False; [done|]. intros Ht. by apply (Hd2 n Ht). }
    split; [done|]. split; [rewrite Ha, length_drop; lia|]. intros n Hn. rewrite Hfs, decide_False; [done|]. intros Ht.
    assert (n ∈ archives w s) as Hin by (rewrite <- (take_drop d (archives w s)); apply elem_of_app; by left).
    apply elem_of_archives in Hin as [Hin _]. congruence.
  - exists s. split; [done|]. replace (length (archives w s) - k)%nat with 0%nat by lia. rewrite drop_0. split; [done|]. split; [lia|done].
Qed.

(** ** A rename that fails *)

(** When the current file has reached the size and cannot be renamed, while it can be closed, opened and examined, opening it never returns. *)
Lemma failing_rename_never_returns fuel : forall w s f,
  (forall n, fate n = negb (n mod 4 =? 3)%nat) -> (calls s mod 4 = 0)%nat -> fs s !! filename w = Some f ->
  interval w <= 0 -> 0 < maxSizeInBytes w <= Z.of_nat (String.length (content f)) -> openCurrent fuel w s = None.
Proof.
  induction fuel as [fuel IH] using lt_wf_ind. intros w s f Hfate Hc Hf Hi Hm. destruct fuel as [|fuel]; [done|].
  assert (forall k, (k < 4)%nat -> ((k + calls s) mod 4 = k)%nat) as Hmod.
  { intros k Hk. rewrite <- Nat.Div0.add_mod_idemp_r, Hc, Nat.add_0_r. by apply Nat.mod_small. }
  pose proof (Hmod 1%nat ltac:(lia)) as M1. pose proof (Hmod 2%nat ltac:(lia)) as M2. pose proof (Hmod 3%nat ltac:(lia)) as M3.
  cbn [Nat.add] in M1, M2, M3.
  assert (fate (calls s) = true /\ fate (S (calls s)) = true /\ fate (S (S (calls s))) = true /\ fate (S (S (S (calls s)))) = false) as (E0 & E1 & E2 & E3)
    by (rewrite !Hfate, Hc, M1, M2, M3; done).
  cbn [openCurrent Now]. unfold openFile, os_call. cbn [calls fs reads filename set_expiry]. rewrite E0, Hf.
  cbn [negb calls fs filename set_current set_expiry]. rewrite E1, Hf. destruct fuel as [|fuel]; [done|].
  cbn [rotateIfNeeded interval set_current set_expiry maxSizeInBytes bytesWritten]. destruct (Z.ltb_spec 0 (interval w)); [lia|]. cbn [orb].
  destruct (Z.ltb_spec 0 (maxSizeInBytes w)); [|lia]. destruct (Z.leb_spec (maxSizeInBytes w) (Z.of_nat (String.length (content f)))); [|lia]. cbn [andb].
  unfold rotate. cbn [current set_expiry set_current]. unfold os_call. cbn [calls fs reads]. rewrite E2.
  cbn [negb Now reads calls fs]. unfold os_Rename, os_call. cbn [calls fs reads]. rewrite E3.
  cbn [negb]. binds. eapply (IH fuel); [lia|done| |exact Hf|done|done]. cbn [calls].
  change (S (S (S (S (calls s))))) with (4 + calls s)%nat. rewrite <- Nat.Div0.add_mod_idemp_r, Hc. done.
Qed.

End Rotation.

(** ** Examples *)

Definition ex_clock (n : nat) : Z := Z.of_nat n * 1000000000.
Lemma ex_clock_moves i j : (i + 2 <= j)%nat -> ex_clock i / 1000000000 < ex_clock j / 1000000000.
Proof. intros Hij. unfold ex_clock. rewrite !Z.div_mul by lia. lia. Qed.

Definition rotating (wc : WriteCloser) : option FileWriter := match wc with Rotating w => Some w | Plain _ _ => None end.
Definition ex_world : world := mkWorld ∅ 0 0.

Example ex_rotated :
  (r ← NewFileWriter (fun _ => true) ex_clock (fun _ => "2020-01-01") 3 "log.txt" 0 5 (-1) ex_world; w ← (r.1 ≫= rotating);
   r ← write_all (fun _ => true) ex_clock (fun _ => "2020-01-01") (fun _ => 0%nat) 3 ["abc"; "def"; "g"] w r.2;
   Some ((fun n => content <$> fs r.2 !! n) <$> ["log.2020-01-01-1.txt"; "log.txt"])) = Some [Some "abcdef"; Some "g"].
Proof. by vm_compute. Qed.

(** Two rotations in one second: the second archive takes the place of the first, which is lost. *)
Example archive_overwritten :
  (r ← NewFileWriter (fun _ => true) (fun _ => 0) (fun _ => "2020-01-01") 3 "log.txt" 0 2 (-1) ex_world; w ← (r.1 ≫= rotating);
   r ← write_all (fun _ => true) (fun _ => 0) (fun _ => "2020-01-01") (fun _ => 0%nat) 3 ["ab"; "cd"; "e"] w r.2;
   Some (prod_map id content <$> map_to_list (fs r.2))) = Some [("log.2020-01-01-0.txt", "cd"); ("log.txt", "e")].
Proof. by vm_compute. Qed.
