(* ===== verification/Duration.v ===== *)
(** * Durations in configuration files

    [time.ParseDuration] of the standard library, which the configuration uses for intervals, periods and jitters:
    a sign, then numbers with a unit each, such as [1h15m30.5s]. The numbers are int64 with the overflow checks of the
    library, fractions are float64. *)

From Stdlib Require Import Ascii.
From S2P Require Import Prelude Float64 Strconv Strings Parse Graphite.

Inductive DurationErr := DInvalid | DMissingUnit | DUnknownUnit (u : string).

Definition Nanosecond : Z := 1.
Definition Microsecond : Z := 1000.
Definition Millisecond : Z := 1000000.
Definition Second : Z := 1000000000.
Definition Minute : Z := 60000000000.
Definition Hour : Z := 3600000000000.

(** The table of units; both micro signs are accepted. *)
Definition unit_of (u : string) : option Z :=
  if decide (u = "ns") then Some Nanosecond
  else if decide (u = "us") then Some Microsecond
  else if decide (u = "µs") then Some Microsecond
  else if decide (u = "μs") then Some Microsecond
  else if decide (u = "ms") then Some Millisecond
  else if decide (u = "s") then Some Second
  else if decide (u = "m") then Some Minute
  else if decide (u = "h") then Some Hour
  else None.

(** [leadingInt]: the number in front, unless it overflows. *)
Fixpoint leadingInt (s : string) (x : Z) : option (Z * string) :=
  match s with
  | EmptyString => Some (x, EmptyString)
  | String c s' =>
    if negb (is_digit c) then Some (x, s)
    else if MaxInt64 / 10 <? x then None
    else
      let x := int64 (x * 10 + (code c - 48)) in
      if x <? 0 then None else leadingInt s' x
  end.

(** [leadingFraction]: digits that no longer fit are skipped. *)
Fixpoint leadingFraction (s : string) (x : Z) (scale : float64) (overflow : bool) : Z * float64 * string :=
  match s with
  | EmptyString => (x, scale, EmptyString)
  | String c s' =>
    if negb (is_digit c) then (x, scale, s)
    else if overflow then leadingFraction s' x scale true
    else if MaxInt64 / 10 <? x then leadingFraction s' x scale true
    else
      let y := int64 (x * 10 + (code c - 48)) in
      if y <? 0 then leadingFraction s' x scale true
      else leadingFraction s' y (f_mul scale (f_of_Z 10)) false
  end.

Definition number_char (c : ascii) : bool := (code c =? 46) || is_digit c.

(** The unit: up to the next number. *)
Fixpoint take_unit (s : string) : string * string :=
  match s with
  | EmptyString => (EmptyString, EmptyString)
  | String c s' =>
    if number_char c then (EmptyString, s) else let '(u, r) := take_unit s' in (String c u, r)
  end.

Section Parsing.
Context `{FloatConv}.

(** One round of the loop: a number and its unit. *)
Definition parse_segment (s : string) : Z * string + DurationErr :=
  match s with
  | EmptyString => inr DInvalid
  | String c _ =>
    if negb (number_char c) then inr DInvalid
    else match leadingInt s 0 with
    | None => inr DInvalid
    | Some (v, s1) =>
      let pre := negb (String.length s =? String.length s1)%nat in
      let '(f, scale, s2, post) :=
        match s1 with
        | String p s1' =>
          if code p =? 46 then
            let '(f, scale, s2) := leadingFraction s1' 0 f_one false in
            (f, scale, s2, negb (String.length s1' =? String.length s2)%nat)
          else (0, f_one, s1, false)
        | EmptyString => (0, f_one, s1, false)
        end in
      if negb pre && negb post then inr DInvalid
      else
        let '(u, s3) := take_unit s2 in
        if decide (u = EmptyString) then inr DMissingUnit
        else match unit_of u with
        | None => inr (DUnknownUnit u)
        | Some unit =>
          if MaxInt64 / unit <? v then inr DInvalid
          else
            let v := int64 (v * unit) in
            let v := if 0 <? f then int64 (v + to_int64 (f_mul (f_of_Z f) (f_div (f_of_Z unit) scale))) else v in
            if (0 <? f) && (v <? 0) then inr DInvalid else inl (v, s3)
        end
    end
  end.

Fixpoint parse_loop (fuel : nat) (s : string) (d : Z) : Z + DurationErr :=
  match s with
  | EmptyString => inl d
  | _ =>
    match fuel with
    | O => inr DInvalid
    | S fuel =>
      match parse_segment s with
      | inr e => inr e
      | inl (v, s) => let d := int64 (d + v) in if d <? 0 then inr DInvalid else parse_loop fuel s d
      end
    end
  end.

Definition ParseDuration (s : string) : Z + DurationErr :=
  let '(neg, s) := match s with
    | String c s' => if code c =? 45 then (true, s') else if code c =? 43 then (false, s') else (false, s)
    | EmptyString => (false, s)
    end in
  if decide (s = "0") then inl 0
  else if decide (s = EmptyString) then inr DInvalid
  else match parse_loop (String.length s) s 0 with
  | inr e => inr e
  | inl d => inl (if neg then int64 (- d) else d)
  end.

(** ** The fuel is enough: every round consumes something *)

Lemma leadingInt_length s x v r : leadingInt s x = Some (v, r) -> (String.length r <= String.length s)%nat.
Proof.
  revert x. induction s as [|c s IH]; intros x; cbn [leadingInt]; [by intros [= <- <-]|].
  destruct (is_digit c); cbn [negb]; [|by intros [= <- <-]].
  destruct (_ <? x); [done|]. destruct (_ <? 0); [done|]. intros E. apply IH in E. simpl. lia.
Qed.

Lemma leadingFraction_length s x sc o v sc' r :
  leadingFraction s x sc o = (v, sc', r) -> (String.length r <= String.length s)%nat.
Proof.
  revert x sc o. induction s as [|c s IH]; intros x sc o; cbn [leadingFraction]; [by intros [= <- <- <-]|].
  destruct (is_digit c); cbn [negb]; [|by intros [= <- <- <-]].
  destruct o; [|destruct (_ <? x); [|destruct (_ <? 0)]]; intros E; apply IH in E; simpl; lia.
Qed.

Lemma take_unit_length s u r : take_unit s = (u, r) -> (String.length s = String.length u + String.length r)%nat.
Proof.
  revert u. induction s as [|c s IH]; intros u; cbn [take_unit]; [by intros [= <- <-]|].
  destruct (number_char c); [by intros [= <- <-]|]. destruct (take_unit s) as [u' r'].
  intros [= <- <-]. simpl. by rewrite (IH u').
Qed.

Lemma parse_segment_shrinks s v r : parse_segment s = inl (v, r) -> (String.length r < String.length s)%nat.
Proof.
  unfold parse_segment. destruct s as [|c s0]; [done|]. set (s := String c s0). destruct (number_char c); [|done]. cbn [negb].
  destruct (leadingInt s 0) as [[v1 s1]|] eqn:E1; [|done]. apply leadingInt_length in E1.
  match goal with |- context [match s1 with _ => _ end] =>
    destruct (match s1 with EmptyString => _ | _ => _ end) as [[[f sc] s2] post] eqn:E2 end.
  assert (String.length s2 <= String.length s1)%nat as H2.
  { destruct s1 as [|p s1']; [by simplify_eq|]. destruct (code p =? 46); [|by simplify_eq].
    destruct (leadingFraction s1' 0 f_one false) as [[f' sc'] s2'] eqn:E3. simplify_eq.
    apply leadingFraction_length in E3. simpl. lia. }
  destruct (_ && _); [done|]. destruct (take_unit s2) as [u s3] eqn:E3. apply take_unit_length in E3.
  destruct (decide (u = EmptyString)) as [|Hu]; [done|]. destruct (unit_of u); [|done].
  destruct (_ <? v1); [done|]. cbv zeta. destruct (_ && _); [done|]. intros [= _ <-].
  destruct u; [done|]. simpl in E3. lia.
Qed.

Lemma parse_loop_fuel fuel fuel' s d :
  (String.length s <= fuel)%nat -> (String.length s <= fuel')%nat -> parse_loop fuel s d = parse_loop fuel' s d.
Proof.
  revert fuel' s d. induction fuel as [|fuel IH]; intros fuel' s d Hf Hf'; destruct s as [|c s];
    try (destruct fuel'; done); [simpl in Hf; lia|].
  destruct fuel' as [|fuel']; [simpl in Hf'; lia|]. cbn [parse_loop].
  destruct (parse_segment (String c s)) as [[v r]|e] eqn:E; [|done]. apply parse_segment_shrinks in E.
  cbv zeta. destruct (_ <? 0); [done|]. apply IH; simpl in *; lia.
Qed.

(** A duration that is read is in the range of the type, and not its least value. *)
Lemma parse_loop_range fuel s d r : 0 <= d <= MaxInt64 -> parse_loop fuel s d = inl r -> 0 <= r <= MaxInt64.
Proof.
  revert s d. induction fuel as [|fuel IH]; intros s d Hd; destruct s as [|c s]; cbn [parse_loop]; try (intros [= <-]; done).
  destruct (parse_segment _) as [[v s']|]; [|done]. cbv zeta. destruct (Z.ltb_spec (int64 (d + v)) 0); [done|].
  apply IH. pose proof (int64_range (d + v)). lia.
Qed.

Lemma ParseDuration_range s d : ParseDuration s = inl d -> - MaxInt64 <= d <= MaxInt64.
Proof.
  unfold ParseDuration. destruct (match s with EmptyString => _ | _ => _ end) as [neg s'].
  destruct (decide (s' = "0")); [intros [= <-]; unfold MaxInt64; lia|]. destruct (decide (s' = EmptyString)); [done|].
  destruct (parse_loop _ s' 0) as [r|] eqn:E; [|done]. apply parse_loop_range in E; [|unfold MaxInt64; lia].
  intros [= <-]. destruct neg; [|lia]. rewrite int64_small; unfold MinInt64, MaxInt64 in *; lia.
Qed.

(** ** Texts made of numbers and units *)

Definition starts_number (s : string) : Prop := match s with EmptyString => True | String c _ => number_char c = true end.

Lemma leadingInt_digits s r acc v :
  0 <= acc -> v <= MaxInt64 -> read_digits s acc = Some v -> match r with String c _ => is_digit c = false | _ => True end ->
  leadingInt (s +:+ r) acc = Some (v, r).
Proof.
  revert acc. induction s as [|c s IH]; intros acc Ha Hv; simpl.
  { intros [= ->] Hr. change (EmptyString +:+ r) with r. destruct r as [|c r]; [done|]. cbn [leadingInt]. by rewrite Hr. }
  change (Z.of_N (N_of_ascii c)) with (code c). change (String c s +:+ r) with (String c (s +:+ r)). cbn [leadingInt].
  unfold is_digit at 2, between.
  destruct (Z.leb_spec 0 (code c - 48)); [|done]. destruct (Z.leb_spec (code c - 48) 9); [|done]. cbn [andb].
  intros E Hr. pose proof (read_digits_le s (acc * 10 + (code c - 48)) v ltac:(lia) E) as Hle.
  rewrite (proj2 (Z.leb_le 48 (code c))), (proj2 (Z.leb_le (code c) 57)) by lia. cbn [andb negb].
  assert (acc <= MaxInt64 / 10) by (apply Z.div_le_lower_bound; lia).
  rewrite (proj2 (Z.ltb_ge (MaxInt64 / 10) acc)) by lia. rewrite int64_small by (unfold MinInt64; lia). cbv zeta.
  rewrite (proj2 (Z.ltb_ge (acc * 10 + (code c - 48)) 0)) by lia. apply IH; [lia|done|done|done].
Qed.

(** The units the configuration is written with in theorems; the micro signs are left out. *)
Definition plain_units : list string := ["ns"; "us"; "ms"; "s"; "m"; "h"].

Fixpoint no_number (s : string) : bool := match s with EmptyString => true | String c s => negb (number_char c) && no_number s end.

Lemma take_unit_app u rest : no_number u = true -> take_unit rest = (EmptyString, rest) -> take_unit (u +:+ rest) = (u, rest).
Proof.
  intros Hu Hr. induction u as [|c u IH]; [done|]. change (String c u +:+ rest) with (String c (u +:+ rest)).
  cbn [no_number take_unit] in *. apply andb_true_iff in Hu as [Hc Hu]. apply negb_true_iff in Hc. by rewrite Hc, IH.
Qed.

Lemma plain_unit u rest : u ∈ plain_units -> starts_number rest ->
  take_unit (u +:+ rest) = (u, rest) /\ u <> EmptyString /\ exists x, unit_of u = Some x /\ 0 < x /\
  match (u +:+ rest) with String c _ => is_digit c = false /\ (code c =? 46) = false | _ => True end.
Proof.
  intros Hu Hr. assert (take_unit rest = (EmptyString, rest)) as Et.
  { destruct rest as [|c r]; [done|]. cbn [take_unit starts_number] in *. by rewrite Hr. }
  unfold plain_units in Hu. repeat (apply elem_of_cons in Hu as [->|Hu]; [
    split; [by apply take_unit_app|]; split; [done|]; eexists; split; [reflexivity|]; by vm_compute |]). by apply not_elem_of_nil in Hu.
Qed.

Lemma parse_segment_plain n u x rest :
  0 <= n -> u ∈ plain_units -> unit_of u = Some x -> n * x <= MaxInt64 -> starts_number rest ->
  parse_segment (FormatUint n +:+ u +:+ rest) = inl (n * x, rest).
Proof.
  intros Hn Hu Hx Hm Hr. destruct (plain_unit u rest Hu Hr) as (Et & Hne & x' & Hx' & Hpos & Hc).
  rewrite Hx in Hx'. injection Hx' as <-. pose proof (FormatUint_read n Hn) as Hd.
  assert (n <= MaxInt64) by nia.
  assert (exists c s, FormatUint n = String c s /\ is_digit c = true) as (c & s & Ef & Hdig).
  { destruct (decide (n = 0)) as [->|Hz]; [by eexists _, _|].
    destruct (FormatUint_first n ltac:(lia)) as (d & s & Hd' & ->). eexists _, _. split; [done|].
    unfold is_digit, between. rewrite code_digit by lia. rewrite !(proj2 (Z.leb_le _ _)) by lia. done. }
  assert (leadingInt (FormatUint n +:+ u +:+ rest) 0 = Some (n, u +:+ rest)) as El.
  { apply leadingInt_digits; [lia|done|done|]. destruct (u +:+ rest); [done|apply Hc]. }
  unfold parse_segment. rewrite El. rewrite Ef. change (String c s +:+ u +:+ rest) with (String c (s +:+ u +:+ rest)).
  unfold number_char. rewrite Hdig, orb_true_r. cbn [negb].
  assert ((String.length (String c (s +:+ u +:+ rest)) =? String.length (u +:+ rest))%nat = false) as ->.
  { apply Nat.eqb_neq. cbn [String.length]. rewrite (str_length_app s). lia. }
  cbn [negb andb].
  assert (match u +:+ rest with
     | EmptyString => (0, f_one, u +:+ rest, false)
     | String p s1' => if code p =? 46 then
         let '(f, scale, s2) := leadingFraction s1' 0 f_one false in
         (f, scale, s2, negb (String.length s1' =? String.length s2)%nat)
       else (0, f_one, u +:+ rest, false) end = (0, f_one, u +:+ rest, false)) as ->.
  { destruct (u +:+ rest) as [|p r]; [done|]. by destruct Hc as [_ ->]. }
  rewrite Et. rewrite decide_False by done. rewrite Hx.
  rewrite (proj2 (Z.ltb_ge (MaxInt64 / x) n)) by (apply Z.div_le_lower_bound; lia). cbv zeta.
  cbn [Z.ltb Z.compare andb]. rewrite int64_small by (unfold MinInt64; nia). done.
Qed.

Definition duration_text (l : list (Z * string)) : string := foldr (fun nu r => FormatUint nu.1 +:+ nu.2 +:+ r) EmptyString l.
Definition segment_value (nu : Z * string) : Z := nu.1 * default 0 (unit_of nu.2).
Definition total (l : list (Z * string)) : Z := foldr (fun nu t => segment_value nu + t) 0 l.
Definition segment_ok (nu : Z * string) : Prop := 0 <= nu.1 /\ nu.2 ∈ plain_units.

Lemma segment_nonneg nu : segment_ok nu -> 0 <= segment_value nu.
Proof.
  intros [Hn Hu]. destruct (plain_unit nu.2 EmptyString Hu I) as (_ & _ & x & Hx & Hp & _).
  unfold segment_value. rewrite Hx. simpl. nia.
Qed.

Lemma total_nonneg l : Forall segment_ok l -> 0 <= total l.
Proof. induction 1 as [|nu l Hnu _ IH]; cbn [total foldr]; [done|]. fold (total l). pose proof (segment_nonneg nu Hnu). lia. Qed.

Lemma FormatUint_starts_number n r : 0 <= n -> starts_number (FormatUint n +:+ r).
Proof.
  intros Hn. unfold starts_number, number_char. destruct (decide (n = 0)) as [->|Hz]; [done|].
  destruct (FormatUint_first n ltac:(lia)) as (d & s & Hd & ->). change (String (digit_char d) s +:+ r) with (String (digit_char d) (s +:+ r)).
  unfold is_digit, between. rewrite code_digit by lia. rewrite !(proj2 (Z.leb_le _ _)) by lia. by rewrite orb_true_r.
Qed.

Lemma parse_loop_text l d fuel :
  Forall segment_ok l -> 0 <= d -> d + total l <= MaxInt64 -> (String.length (duration_text l) <= fuel)%nat ->
  parse_loop fuel (duration_text l) d = inl (d + total l).
Proof.
  intros Hl. revert d fuel. induction Hl as [|[n u] l [Hn Hu] Hl IH]; intros d fuel Hd Ht Hf.
  { destruct fuel; cbn; f_equal; lia. }
  cbn [fst snd] in *. pose proof (total_nonneg l Hl) as Hnn.
  destruct (plain_unit u EmptyString Hu I) as (_ & _ & x & Hx & Hp & _).
  cbn [total foldr] in Ht |- *. fold (total l) in Ht |- *. unfold segment_value in Ht |- *. cbn [fst snd] in Ht |- *. rewrite Hx in *.
  cbn [default] in Ht |- *. unfold id in *.
  assert (parse_segment (duration_text ((n, u) :: l)) = inl (n * x, duration_text l)) as Es.
  { cbn [duration_text foldr fst snd]. apply parse_segment_plain; [done|done|done|lia|].
    destruct Hl as [|[n' u'] l' [Hn' _] _]; [done|]. cbn [foldr fst]. by apply FormatUint_starts_number. }
  pose proof (parse_segment_shrinks _ _ _ Es) as Hs.
  destruct (duration_text ((n, u) :: l)) as [|c s] eqn:E; [simpl in Hs; lia|].
  destruct fuel as [|fuel]; [simpl in Hf; lia|]. cbn [parse_loop]. rewrite Es. cbv zeta.
  rewrite int64_small by (unfold MinInt64; nia). rewrite (proj2 (Z.ltb_ge (d + n * x) 0)) by nia.
  rewrite IH; [f_equal; lia|nia|lia|lia].
Qed.

(** A text of whole numbers with units is read as their sum, if it fits; with a minus sign, as its negation. *)
Lemma ParseDuration_text l :
  l <> [] -> Forall segment_ok l -> total l <= MaxInt64 ->
  ParseDuration (duration_text l) = inl (total l) /\ ParseDuration ("-" +:+ duration_text l) = inl (- total l).
Proof.
  intros Hne Hl Ht. pose proof (total_nonneg l Hl) as Hnn.
  assert (duration_text l <> EmptyString /\ duration_text l <> "0" /\
    match duration_text l with String c _ => (code c =? 45) = false /\ (code c =? 43) = false | _ => True end) as (H0 & H1 & H2).
  { destruct Hl as [|[n u] l [Hn Hu] Hl]; [done|]. cbn [duration_text foldr fst snd] in *.
    destruct (decide (n = 0)) as [->|Hz].
    - destruct (plain_unit u EmptyString Hu I) as (_ & Hu' & _). destruct u; done.
    - destruct (FormatUint_first n ltac:(lia)) as (dg & s & Hdg & ->).
      match goal with |- context [String ?c s +:+ ?r] => change (String c s +:+ r) with (String c (s +:+ r)) end.
      cbv beta iota. rewrite code_digit by lia. rewrite !(proj2 (Z.eqb_neq _ _)) by lia. split_and!; try done.
      intros [= E _]. apply (f_equal code) in E. rewrite code_digit in E by lia. change (code "0"%char) with 48 in E. lia. }
  pose proof (parse_loop_text l 0 _ Hl ltac:(lia) Ht (le_n _)) as Hp. rewrite Z.add_0_l in Hp. split.
  - unfold ParseDuration. destruct (duration_text l) as [|c s]; [done|]. destruct H2 as [-> ->].
    rewrite !decide_False by done. by rewrite Hp.
  - change ("-" +:+ duration_text l) with (String "-" (duration_text l)). unfold ParseDuration.
    assert ((code "-" =? 45) = true) as -> by reflexivity. rewrite !decide_False by done. rewrite Hp.
    rewrite int64_small by (unfold MinInt64, MaxInt64 in *; lia). done.
Qed.
End Parsing.

#[local] Existing Instance ex_conv.
Lemma ParseDuration_examples :
  ParseDuration "1h15m30.5s" = inl 4530500000000 /\ ParseDuration "-1.5ms" = inl (-1500000) /\ ParseDuration "10" = inr DMissingUnit /\
  ParseDuration "3d" = inr (DUnknownUnit "d") /\ ParseDuration ".s" = inr DInvalid /\ ParseDuration "0" = inl 0 /\
  ParseDuration "9223372036854775807ns" = inl MaxInt64 /\ ParseDuration "9223372036854775808ns" = inr DInvalid /\
  ParseDuration "2562048h" = inr DInvalid /\ ParseDuration "100µs" = inl 100000.
Proof. vm_compute. split_and!; reflexivity. Qed.
