(* ===== verification/Config.v ===== *)
(** * Configuration of plugins

    [internal/config/config.go]: what the wrapper of a plugin reads from the plugin's table. The TOML library, which is
    not part of the sources, parses a file into tables; its nodes are the data below. A wrapper reads its own options,
    deletes them, and the plugin is decoded from what is left of the table.

    A table is a map, and the code ranges over it in any order: theorems hold for every [MapRange]. *)

From S2P Require Import Prelude Float64 Strconv Strings Parse Metric Selfstat Interfaces Filter Running Output Graphite Duration.

(** ** The syntax tree: [ast.Table] and what it holds

    Numbers, booleans and dates keep their text. *)

Inductive value :=
| TString (s : string)
| TInteger (text : string)
| TFloat (text : string)
| TBoolean (text : string)
| TDatetime (text : string)
| TArray (l : list value).

Inductive node :=
| NKeyValue (v : value)
| NTable (fields : gmap string node)
| NTables (l : list (gmap string node)).

Notation table := (gmap string node).

Inductive cerr :=
| EDuration (e : DurationErr)
| EToml (e : err)
| EFilter (e : err)
| EUnits (e : DurationErr)
| ETrimSpace
| EUndefined (kind name : string)
| EPlugin (e : err)
| EDataFormat (format : string)
| EInvalid (path : string)
| EUnsupported (name path : string)
| ENoFile
| ELoading (path : string) (e : err)
| EParsing (path : string) (e : cerr)
| EHostname (e : err).

Definition res (A : Type) : Type := A + cerr.
#[export] Instance res_ret : MRet res := fun A x => inl x.
#[export] Instance res_bind : MBind res := fun A B f x => match x with inl a => f a | inr e => inr e end.
Definition fails {A} (e : cerr) : res A := inr e.

(** What the TOML library computes: [ast.Integer.Int], [ast.Boolean.Boolean], and [toml.UnmarshalTable] into a map
    of strings, which may have stored some entries when it fails. *)
Class Toml := {
  Integer_Int : string -> Z + err;
  Boolean_Boolean : string -> bool + err;
  UnmarshalTags : table -> gmap string string -> gmap string string * option err;
}.

(** ** Reading options *)

Definition as_string (v : value) : option string := match v with TString s => Some s | _ => None end.

(** The strings of an array; other elements are skipped. *)
Definition as_strings (v : value) : list string := match v with TArray l => omap as_string l | _ => [] end.

Definition key_value (t : table) (k : string) : option value :=
  match t !! k with Some (NKeyValue v) => Some v | _ => None end.

Definition get_string (t : table) (k : string) : string := default EmptyString (v ← key_value t k; as_string v).
Definition get_strings (t : table) (k : string) : list string := default [] (as_strings <$> key_value t k).

Definition delete_keys (ks : list string) (t : table) : table := foldl (fun t k => delete k t) t ks.

Section Reading.
Context `{Toml} `{FloatConv}.

Definition get_duration (t : table) (k : string) : res (option Z) :=
  match key_value t k with
  | Some (TString s) => match ParseDuration s with inl d => inl (Some d) | inr e => inr (EDuration e) end
  | _ => inl None
  end.

(** The conversion to [int], 64 bits wide. *)
Definition get_int (t : table) (k : string) : res Z :=
  match key_value t k with
  | Some (TInteger s) => match Integer_Int s with inl z => inl (int64 z) | inr e => inr (EToml e) end
  | _ => inl 0
  end.

Definition get_bool (t : table) (k : string) (dflt : bool) : res bool :=
  match key_value t k with
  | Some (TBoolean s) => match Boolean_Boolean s with inl b => inl b | inr e => inr (EToml e) end
  | _ => inl dflt
  end.

(** The tags of a plugin: an error is logged, and what was stored is kept. *)
Definition get_tags (t : table) : gmap string string :=
  match t !! "tags" with Some (NTable sub) => (UnmarshalTags sub ∅).1 | _ => ∅ end.
End Reading.

(** ** Filters: [buildFilter] *)

Definition filter_keys : list string :=
  ["namedrop"; "namepass"; "fielddrop"; "fieldpass"; "drop"; "pass"; "tagdrop"; "tagpass"; "tagexclude"; "taginclude"].

(** A slice that nothing was appended to is nil. *)
Definition nil_slice {A} (l : list A) : option (list A) := match l with [] => None | _ => Some l end.

Section Filters.
Context `{Glob} `{MapRange}.

Definition tag_filter (kv : string * node) : option TagFilter :=
  match kv.2 with NKeyValue v => Some (mkTagFilter kv.1 (as_strings v) None) | _ => None end.

Definition get_tag_filters (t : table) (k : string) : option (list TagFilter) :=
  match t !! k with
  | Some (NTable sub) => nil_slice (omap tag_filter (range_map sub))
  | _ => None
  end.

(** The filter as it is written. *)
Definition read_filter (t : table) : Filter :=
  mkFilter (get_strings t "namedrop") None (get_strings t "namepass") None
    (get_strings t "drop" ++ get_strings t "fielddrop") None (get_strings t "pass" ++ get_strings t "fieldpass") None
    (get_tag_filters t "tagdrop") (get_tag_filters t "tagpass")
    (get_strings t "tagexclude") None (get_strings t "taginclude") None false.

Definition buildFilter (t : table) : res (Filter * table) :=
  match Filter_Compile (read_filter t) with
  | inr e => inr (EFilter e)
  | inl f => inl (f, delete_keys filter_keys t)
  end.
End Filters.

(** ** The wrappers' options *)

Section Build.
Context `{Glob} `{MapRange} `{Toml} `{FloatConv}.

Definition input_keys : list string := ["name_prefix"; "name_suffix"; "name_override"; "alias"; "interval"; "tags"].

Definition buildInput (name : string) (t : table) : res (RunningInput.InputConfig * table) :=
  interval ← get_duration t "interval";
  let tags := get_tags t in
  '(f, t') ← buildFilter (delete_keys input_keys t);
  mret (RunningInput.mkConfig name (get_string t "alias") (default 0 interval) (get_string t "name_override")
    (get_string t "name_prefix") (get_string t "name_suffix") tags f, t').

(** [strconv.ParseInt]: out of range, the nearest value is returned with the error, which is only logged. *)
Definition logged_int (s : string) : Z :=
  match ParseInt10 s with
  | inl z => z
  | inr ErrSyntax => 0
  | inr ErrRange => if HasPrefix s "-" then MinInt64 else MaxInt64
  end.

Definition processor_keys : list string := ["alias"; "order"].

Definition buildProcessor (name : string) (t : table) : res (RunningProcessor.ProcessorConfig * table) :=
  let order := match key_value t "order" with Some (TInteger s) => logged_int s | _ => 0 end in
  '(f, t') ← buildFilter (delete_keys processor_keys t);
  mret (RunningProcessor.mkConfig name (get_string t "alias") order f, t').

Definition aggregator_keys : list string :=
  ["period"; "delay"; "grace"; "drop_original"; "name_prefix"; "name_suffix"; "name_override"; "alias"; "tags"].

Definition buildAggregator (name : string) (t : table) : res (RunningAggregator.AggregatorConfig * table) :=
  period ← get_duration t "period";
  delay ← get_duration t "delay";
  grace ← get_duration t "grace";
  let drop_original := match key_value t "drop_original" with Some (TBoolean s) => default false (ParseBool s) | _ => false end in
  let tags := get_tags t in
  '(f, t') ← buildFilter (delete_keys aggregator_keys t);
  mret (RunningAggregator.mkConfig name (get_string t "alias") drop_original (default (30 * Second) period)
    (default (100 * Millisecond) delay) (default 0 grace) (get_string t "name_override") (get_string t "name_prefix")
    (get_string t "name_suffix") tags f, t').

Definition output_keys : list string :=
  ["flush_interval"; "flush_jitter"; "metric_buffer_limit"; "metric_batch_size"; "alias"; "name_override"; "name_suffix"; "name_prefix"].

(** The field rules, already compiled, are copied over the name rules. *)
Definition output_filter (f : Filter) : Filter :=
  mkFilter (if is_nil (FieldDrop f) then NameDrop f else FieldDrop f) (nameDrop f)
    (if is_nil (FieldPass f) then NamePass f else FieldPass f) (namePass f)
    (FieldDrop f) (fieldDrop f) (FieldPass f) (fieldPass f) (TagDrop f) (TagPass f)
    (TagExclude f) (tagExclude f) (TagInclude f) (tagInclude f) (isActive f).

Definition buildOutput (name : string) (t : table) : res (RunningOutput.OutputConfig * table) :=
  '(f, t) ← buildFilter t;
  interval ← get_duration t "flush_interval";
  jitter ← get_duration t "flush_jitter";
  limit ← get_int t "metric_buffer_limit";
  batch ← get_int t "metric_batch_size";
  mret (RunningOutput.mkConfig name (get_string t "alias") (output_filter f) (default 0 interval) jitter limit batch
    (get_string t "name_override") (get_string t "name_prefix") (get_string t "name_suffix"), delete_keys output_keys t).
End Build.

(** ** What is written is read back *)

(** Options written over a table. *)
Definition write_all (kvs : list (string * node)) (t : table) : table := foldr (fun kv t => <[kv.1 := kv.2]> t) t kvs.

Definition assoc (k : string) (kvs : list (string * node)) : option node := snd <$> key_find fst k kvs.

Lemma write_all_lookup kvs t k : write_all kvs t !! k = match assoc k kvs with Some n => Some n | None => t !! k end.
Proof.
  induction kvs as [|[k' n] kvs IH]; [done|]. cbn [write_all foldr fst snd]. fold (write_all kvs t).
  unfold assoc. cbn [key_find fst]. destruct (decide (k' = k)) as [->|Hne].
  - rewrite lookup_insert_eq. by destruct (decide (k = k)).
  - rewrite lookup_insert_ne by done. destruct (decide (k' = k)); [done|]. apply IH.
Qed.

Lemma key_value_written kvs t k :
  key_value (write_all kvs t) k = match assoc k kvs with Some (NKeyValue v) => Some v | Some _ => None | None => key_value t k end.
Proof. unfold key_value. rewrite write_all_lookup. by destruct (assoc k kvs) as [[]|]. Qed.

Lemma delete_keys_lookup ks t k : delete_keys ks t !! k = if decide (k ∈ ks) then None else t !! k.
Proof.
  revert t. induction ks as [|k' ks IH]; intros t; [done|]. cbn [delete_keys foldl]. fold (delete_keys ks (delete k' t)).
  rewrite IH. destruct (decide (k ∈ ks)) as [Hin|Hni].
  - rewrite decide_True by (by right). done.
  - destruct (decide (k = k')) as [->|Hne].
    + rewrite lookup_delete_eq. by rewrite decide_True by left.
    + rewrite lookup_delete_ne by done. rewrite decide_False; [done|]. by intros [|]%elem_of_cons.
Qed.

Lemma delete_keys_app ks1 ks2 t : delete_keys ks2 (delete_keys ks1 t) = delete_keys (ks1 ++ ks2) t.
Proof. unfold delete_keys. by rewrite foldl_app. Qed.

(** Deleting the options leaves what they were written over. *)
Lemma delete_keys_written ks kvs t :
  Forall (fun k => k ∈ ks) kvs.*1 -> (forall k, k ∈ ks -> t !! k = None) -> delete_keys ks (write_all kvs t) = t.
Proof.
  intros Hks Ht. apply map_eq. intros k. rewrite delete_keys_lookup, write_all_lookup.
  destruct (decide (k ∈ ks)) as [Hin|Hni]; [by rewrite Ht|]. unfold assoc.
  destruct (key_find fst k kvs) as [[k' n]|] eqn:E; [|done]. apply key_find_Some in E as [Hin Hk]. simpl in Hk. subst k'.
  rewrite Forall_forall in Hks. destruct Hni. apply Hks. apply list_elem_of_fmap. by exists (k, n).
Qed.

Definition write_strings (l : list string) : node := NKeyValue (TArray (TString <$> l)).
Definition write_string (s : string) : node := NKeyValue (TString s).
Lemma as_strings_written l : as_strings (TArray (TString <$> l)) = l.
Proof. induction l as [|s l IH]; [done|]. cbn in *. by rewrite IH. Qed.

(** Closed facts on lists of names, and membership in a list that is written out. *)
Ltac by_computing := apply (bool_decide_unpack _); vm_compute; exact I.
Ltac in_list := repeat (first [left; reflexivity | right]).

Section RoundTrip.
Context `{GlobLaws} `{MapRange} `{Toml} `{FloatConv}.

Definition write_tag_filter (t : TagFilter) : string * node := (tf_Name t, write_strings (tf_Filter t)).
Definition write_tag_filters (o : option (list TagFilter)) : node := NTable (list_to_map (write_tag_filter <$> default [] o)).

Definition write_filter (f : Filter) : list (string * node) :=
  [("namedrop", write_strings (NameDrop f)); ("namepass", write_strings (NamePass f));
   ("fielddrop", write_strings (FieldDrop f)); ("fieldpass", write_strings (FieldPass f));
   ("tagdrop", write_tag_filters (TagDrop f)); ("tagpass", write_tag_filters (TagPass f));
   ("tagexclude", write_strings (TagExclude f)); ("taginclude", write_strings (TagInclude f))].

(** Tag filters as they can be written: one for each tag, not compiled, and nil if there are none. *)
Definition plain_tags (o : option (list TagFilter)) : Prop :=
  NoDup (tf_Name <$> default [] o) /\ Forall (fun t => tf_filter t = None) (default [] o) /\ o <> Some [].

Definition same_tags (o1 o2 : option (list TagFilter)) : Prop :=
  match o1, o2 with Some l1, Some l2 => l1 ≡ₚ l2 | None, None => True | _, _ => False end.

Lemma tag_filters_read t k o :
  plain_tags o -> t !! k = Some (write_tag_filters o) -> same_tags (get_tag_filters t k) o.
Proof.
  intros (Hnd & Hf & Hne) Hk. unfold get_tag_filters. rewrite Hk. unfold write_tag_filters.
  set (l := default [] o) in *. set (sub := list_to_map (write_tag_filter <$> l) : table).
  assert (omap tag_filter (range_map sub) ≡ₚ l) as Hp.
  { rewrite range_map_perm. unfold sub. rewrite map_to_list_to_map by (by rewrite <- list_fmap_compose).
    clear -Hf. induction Hf as [|[nm pats c] l Hc Hf IH]; [done|]. cbn [fmap list_fmap] in *.
    change (omap tag_filter (write_tag_filter (mkTagFilter nm pats c) :: (write_tag_filter <$> l)))
      with (mkTagFilter nm (as_strings (TArray (TString <$> pats))) None :: omap tag_filter (write_tag_filter <$> l)).
    rewrite as_strings_written. simpl in Hc. subst c. by rewrite IH. }
  unfold nil_slice. destruct (omap tag_filter (range_map sub)) as [|x xs] eqn:E.
  - apply Permutation_nil in Hp. unfold l in Hp. destruct o as [[|]|]; done.
  - unfold l in Hp. destruct o as [l'|]; [done|]. simpl in Hp. symmetry in Hp. by apply Permutation_nil_cons in Hp.
Qed.

(** The rules do not depend on the order of the tag filters. *)
Lemma rule_tag_perm l1 l2 ts : l1 ≡ₚ l2 -> rule_tag l1 ts = rule_tag l2 ts.
Proof.
  intros Hp. apply eq_true_iff_eq. unfold rule_tag. rewrite !existsb_exists.
  split; intros (x & Hx & Hb); exists x; (split; [|done]); rewrite <- !list_elem_of_In in *; [by rewrite <- Hp|by rewrite Hp].
Qed.

Lemma same_tags_default o1 o2 : same_tags o1 o2 -> default [] o1 ≡ₚ default [] o2.
Proof. by destruct o1, o2. Qed.

Lemma is_nil_perm {A} (l1 l2 : list A) : l1 ≡ₚ l2 -> is_nil l1 = is_nil l2.
Proof.
  intros Hp. destruct l1, l2; try done; [by apply Permutation_nil_cons in Hp|].
  symmetry in Hp. by apply Permutation_nil_cons in Hp.
Qed.

(** Two filters with the same rules: equal lists, and tag filters in any order. *)
Definition same_rules (f g : Filter) : Prop :=
  NameDrop f = NameDrop g /\ NamePass f = NamePass g /\ FieldDrop f = FieldDrop g /\ FieldPass f = FieldPass g /\
  TagExclude f = TagExclude g /\ TagInclude f = TagInclude g /\ same_tags (TagDrop f) (TagDrop g) /\ same_tags (TagPass f) (TagPass g).

Lemma acts_as_same f g f' : same_rules f g -> acts_as f f' -> acts_as g f'.
Proof.
  intros (E1 & E2 & E3 & E4 & E5 & E6 & Hd & Hp) Ha m Hm. destruct (Ha m Hm) as (Hs & Hmod & Hwf).
  assert (has_rules f = has_rules g) as Eh.
  { unfold has_rules. rewrite E1, E2, E3, E4, E5, E6.
    by rewrite (is_nil_perm _ _ (same_tags_default _ _ Hd)), (is_nil_perm _ _ (same_tags_default _ _ Hp)). }
  assert (rules_select f m = rules_select g m) as Er.
  { unfold rules_select. rewrite E1, E2. f_equal; [f_equal|f_equal].
    - destruct (TagPass f), (TagPass g); try done. by apply rule_tag_perm.
    - destruct (TagDrop f), (TagDrop g); try done. by apply rule_tag_perm. }
  rewrite <- Eh, <- Er, <- E3, <- E4, <- E5, <- E6. done.
Qed.

Lemma get_string_read t k s : t !! k = Some (write_string s) -> get_string t k = s.
Proof. intros E. unfold get_string, key_value. by rewrite E. Qed.

Lemma get_strings_read t k l : t !! k = Some (write_strings l) -> get_strings t k = l.
Proof. intros E. unfold get_strings, key_value. rewrite E. cbn. apply as_strings_written. Qed.

Lemma get_strings_none t k : t !! k = None -> get_strings t k = [].
Proof. intros E. unfold get_strings, key_value. by rewrite E. Qed.

Definition nanos (d : Z) : node := write_string (duration_text [(d, "ns")]).

Lemma get_duration_read t k d : 0 <= d <= MaxInt64 -> t !! k = Some (nanos d) -> get_duration t k = inl (Some d).
Proof.
  intros Hd E. unfold get_duration, key_value. rewrite E. cbn [nanos write_string].
  destruct (ParseDuration_text [(d, "ns")]) as [-> _].
  - done.
  - constructor; [|constructor]. split; [simpl; lia|by left].
  - change (total [(d, "ns")]) with (d * 1 + 0). lia.
  - change (total [(d, "ns")]) with (d * 1 + 0). by rewrite Z.mul_1_r, Z.add_0_r.
Qed.

(** The filter in a table that holds its options, and none of the legacy ones. *)
Lemma buildFilter_read f t :
  filter_ok f -> plain_tags (TagDrop f) -> plain_tags (TagPass f) ->
  (forall kn, kn ∈ write_filter f -> t !! kn.1 = Some kn.2) -> t !! "drop" = None -> t !! "pass" = None ->
  exists f', buildFilter t = inl (f', delete_keys filter_keys t) /\ acts_as f f'.
Proof.
  intros Hok Hd Hp Hw Hdrop Hpass.
  assert (forall k n, (k, n) ∈ write_filter f -> t !! k = Some n) as Hk by (intros k n Hin; apply (Hw _ Hin)).
  assert (same_rules (read_filter t) f) as Hs.
  { unfold same_rules, read_filter.
    cbn [NameDrop NamePass FieldDrop FieldPass TagExclude TagInclude TagDrop TagPass].
    rewrite (get_strings_none t "drop"), (get_strings_none t "pass") by done. cbn [app].
    split_and!; try (apply get_strings_read, Hk; unfold write_filter; in_list); apply tag_filters_read; try done;
      apply Hk; unfold write_filter; in_list. }
  assert (filter_ok (read_filter t)) as Hok'.
  { destruct Hs as (E1 & E2 & E3 & E4 & E5 & E6 & Sd & Sp). unfold filter_ok. rewrite E1, E2, E3, E4, E5, E6.
    rewrite (same_tags_default _ _ Sd), (same_tags_default _ _ Sp). destruct Hok as (? & ? & ? & ? & ? & ? & ? & ? & _). done. }
  destruct (Filter_Compile_acts _ Hok') as (f' & E & Ha). exists f'. unfold buildFilter. rewrite E.
  split; [done|]. by eapply acts_as_same.
Qed.

Definition write_input (c : RunningInput.InputConfig) : list (string * node) :=
  [("interval", nanos (RunningInput.Interval c)); ("name_prefix", write_string (RunningInput.MeasurementPrefix c));
   ("name_suffix", write_string (RunningInput.MeasurementSuffix c)); ("name_override", write_string (RunningInput.NameOverride c));
   ("alias", write_string (RunningInput.Alias c)); ("tags", NTable (write_string <$> RunningInput.CTags c))] ++
  write_filter (RunningInput.CFilter c).

(** C21: the options of an input are read back as they are written, and nothing else is touched. For any input
    configuration with an interval, tags and filter rules, written into a table next to options of the plugin: building
    the input's configuration succeeds, gives the same names, interval and tags and a filter that acts by the rules, and
    leaves the plugin's own options, all of them and nothing more, for the plugin to be decoded from. *)
Theorem Config_input_roundtrip (c : RunningInput.InputConfig) (plugin_options : table)
    (Hi : 0 <= RunningInput.Interval c <= MaxInt64) (Hf : filter_ok (RunningInput.CFilter c))
    (Hd : plain_tags (TagDrop (RunningInput.CFilter c))) (Hp : plain_tags (TagPass (RunningInput.CFilter c)))
    (Htags : UnmarshalTags (write_string <$> RunningInput.CTags c) ∅ = (RunningInput.CTags c, None))
    (Hown : forall k, k ∈ input_keys ++ filter_keys -> plugin_options !! k = None) :
  exists f', buildInput (RunningInput.Name c) (write_all (write_input c) plugin_options) =
    inl (RunningInput.mkConfig (RunningInput.Name c) (RunningInput.Alias c) (RunningInput.Interval c) (RunningInput.NameOverride c)
      (RunningInput.MeasurementPrefix c) (RunningInput.MeasurementSuffix c) (RunningInput.CTags c) f', plugin_options) /\
    acts_as (RunningInput.CFilter c) f'.
Proof.
  set (t := write_all (write_input c) plugin_options).
  assert (forall k n, assoc k (write_input c) = Some n -> t !! k = Some n) as Hk
    by (intros k n E; unfold t; by rewrite write_all_lookup, E).
  assert (forall k, k ∈ ["drop"; "pass"] -> t !! k = None) as Hnone.
  { intros k Hin. unfold t. rewrite write_all_lookup.
    apply elem_of_cons in Hin as [->|Hin]; [|apply list_elem_of_singleton in Hin as ->]; rewrite Hown by by_computing; done. }
  destruct (buildFilter_read (RunningInput.CFilter c) (delete_keys input_keys t)) as (f' & Ef & Ha); try done.
  - intros kn Hin. rewrite delete_keys_lookup. unfold write_filter in Hin.
    repeat (apply elem_of_cons in Hin as [->|Hin]; [cbn [fst snd]; rewrite decide_False by by_computing; by apply Hk|]).
    by apply not_elem_of_nil in Hin.
  - rewrite delete_keys_lookup. destruct (decide _); [done|]. apply Hnone. by left.
  - rewrite delete_keys_lookup. destruct (decide _); [done|]. apply Hnone. by right; left.
  - exists f'. split; [|done]. unfold buildInput. rewrite (get_duration_read t "interval" (RunningInput.Interval c)) by (by try apply Hk).
    cbn [mbind res_bind]. rewrite Ef. cbn [mbind res_bind mret res_ret].
    rewrite (get_string_read t "alias" _ (Hk "alias" _ eq_refl)), (get_string_read t "name_override" _ (Hk "name_override" _ eq_refl)),
      (get_string_read t "name_prefix" _ (Hk "name_prefix" _ eq_refl)), (get_string_read t "name_suffix" _ (Hk "name_suffix" _ eq_refl)).
    unfold get_tags. rewrite (Hk "tags" (NTable (write_string <$> RunningInput.CTags c)) eq_refl), Htags.
    rewrite delete_keys_app. unfold t. rewrite delete_keys_written; [done| |done].
    by_computing.
Qed.
End RoundTrip.

(** Outputs: the copied names change nothing, and the field rules do apply to what an output gets. *)
Lemma output_filter_acts `{Glob} f f' : acts_as f f' -> acts_as f (output_filter f').
Proof. intros Ha m Hm. exact (Ha m Hm). Qed.

(** The order of a processor is read as written; text beyond int64 becomes the nearest order, with no error. *)
Lemma logged_int_read z : MinInt64 <= z <= MaxInt64 -> logged_int (FormatInt z) = z.
Proof. intros Hz. unfold logged_int. by rewrite ParseInt10_FormatInt. Qed.
Lemma logged_int_beyond : logged_int "9223372036854775808" = MaxInt64 /\ logged_int "-9223372036854775809" = MinInt64.
Proof. split; vm_compute; reflexivity. Qed.

(** ** Concrete libraries for examples *)

Definition ex_toml : Toml := {|
  Integer_Int s := match ParseInt10 s with inl z => inl z | inr _ => inr "integer" end;
  Boolean_Boolean s := match ParseBool s with Some b => inl b | None => inr "boolean" end;
  UnmarshalTags t m := (omap (fun n => match n with NKeyValue (TString s) => Some s | _ => None end) t ∪ m, None);
|}.
#[local] Existing Instance ex_toml.
#[local] Existing Instance alt_glob.
#[local] Existing Instance alt_glob_laws.
#[local] Existing Instance map_range_default.
#[local] Existing Instance ex_conv.

Definition ex_input : RunningInput.InputConfig :=
  RunningInput.mkConfig "cpu" "mine" (5 * Second) EmptyString "pre_" "_suf" {["dc" := "eu"]} ex_filter.
Definition ex_options : table := {["percpu" := NKeyValue (TBoolean "true")]}.

Lemma Config_input_roundtrip_witness :
  exists f', buildInput "cpu" (write_all (write_input ex_input) ex_options) =
    inl (RunningInput.mkConfig "cpu" "mine" (5 * Second) EmptyString "pre_" "_suf" {["dc" := "eu"]} f', ex_options) /\
    acts_as ex_filter f'.
Proof.
  apply (Config_input_roundtrip ex_input ex_options).
  - vm_compute. split; discriminate.
  - exact ex_filter_ok.
  - split_and!; [constructor|constructor|discriminate].
  - split_and!; [by_computing|by repeat constructor|discriminate].
  - vm_compute. reflexivity.
  - assert (Forall (fun k => ex_options !! k = None) (input_keys ++ filter_keys)) as Hall by (repeat constructor).
    intros k Hk. rewrite Forall_forall in Hall. by apply Hall.
Defined.
