(* ===== verification/GraphiteOut.v ===== *)
(** * The Graphite serializer

    [plugins/serializers/graphite/graphite.go]: a metric becomes one line per numeric field, named by a template of the
    measurement, tags and field, or with the tags after the name. *)

From Stdlib Require Import Ascii.
From S2P Require Import Prelude Float64 Strconv Strings Parse Metric Filter.

Definition DEFAULT_TEMPLATE : string := "host.tags.measurement.field".

(** ** Names *)

Definition hypenChars : string -> string := Replacer [("/", "-"); ("@", "-"); ("*", "-")].
Definition dropChars : string -> string := Replacer [("\", EmptyString); ("..", ".")].
Definition fieldDeleter : string -> string := Replacer [(".FIELDNAME", EmptyString); ("FIELDNAME.", EmptyString)].

(** [unicode.IsLetter], the class [\p{L}] of the regular expression, beyond ASCII. *)
Class Letters := {
  letter : Z -> bool;
  letter_space : forall r, IsSpace r = true -> letter r = false;
  letter_error : letter RuneError = false;
}.

Section Names.
Context `{Letters}.

Definition allowed (r : Z) : bool :=
  between 97 122 r || between 65 90 r || between 48 57 r || (r =? 45) || (r =? 58) || (r =? 46) || (r =? 95) || (r =? 61) ||
  ((127 <? r) && letter r).

(** [allowedChars.ReplaceAllLiteralString(value, _)]: rune by rune. *)
Definition allowedChars (s : string) : string :=
  concat_strings ((fun rb => if allowed rb.1 then rb.2 else "_") <$> runes s).

Definition sanitize (value : string) : string := allowedChars (dropChars (hypenChars value)).
End Names.

Section Buckets.
Context `{Letters} `{MapRange}.

Definition sort_strings (l : list string) : list string := sort_by id l.

Definition buildTags (tags : gmap string string) : string :=
  Join ((fun k => ReplaceAll (default EmptyString (tags !! k)) "." "_") <$> sort_strings (range_map tags).*1) ".".

(** The parts of the template, and the tags that none of them took. *)
Fixpoint template_parts (parts : list string) (measurement : string) (tags : gmap string string) : list string * gmap string string :=
  match parts with
  | [] => ([], tags)
  | p :: parts =>
    if decide (p = "measurement") then let '(out, t) := template_parts parts measurement tags in (measurement :: out, t)
    else if decide (p = "tags") then let '(out, t) := template_parts parts measurement tags in ("TAGS" :: out, t)
    else if decide (p = "field") then let '(out, t) := template_parts parts measurement tags in ("FIELDNAME" :: out, t)
    else match tags !! p with
    | Some v => let '(out, t) := template_parts parts measurement (delete p tags) in (ReplaceAll v "." "_" :: out, t)
    | None => template_parts parts measurement tags
    end
  end.

(** The first part that reads TAGS becomes the remaining tags. *)
Fixpoint insert_tags (out : list string) (tags : gmap string string) : list string :=
  match out with
  | [] => []
  | p :: out => if decide (p = "TAGS") then buildTags tags :: out else p :: insert_tags out tags
  end.

Definition SerializeBucketName (measurement : string) (tags : gmap string string) (template prefix : string) : string :=
  let template := if decide (template = EmptyString) then DEFAULT_TEMPLATE else template in
  let '(out, rest) := template_parts (Split template ".") measurement tags in
  let out := insert_tags out rest in
  if is_nil out then EmptyString
  else if decide (prefix = EmptyString) then Join out "." else prefix +:+ "." +:+ Join out ".".

Definition tag_text (kv : string * string) : string :=
  sanitize ((if decide (kv.1 = "name") then "_name" else kv.1) +:+ "=" +:+ kv.2).

Definition SerializeBucketNameWithTags (measurement : string) (tags : gmap string string) (prefix field : string) : string :=
  let tagsCopy := sort_strings (tag_text <$> range_map tags) in
  let out := if decide (prefix = EmptyString) then EmptyString else prefix +:+ "." in
  let out := out +:+ measurement in
  let out := if decide (field = "value") then out else out +:+ "." +:+ field in
  let out := sanitize out in
  if is_nil tagsCopy then out else out +:+ ";" +:+ Join tagsCopy ";".

Definition InsertField (bucket fieldName : string) : string :=
  if decide (fieldName = "value") then fieldDeleter bucket else Replace1 bucket "FIELDNAME" fieldName.
End Buckets.

Definition formatValue (v : Val) : string :=
  match v with
  | VString _ | VNil => EmptyString
  | VBool b => if b then "1" else "0"
  | VUint n => FormatUint n
  | VInt n => FormatInt n
  | VFloat x => if f_is_nan x || f_is_inf x then EmptyString else FormatFloat_f x
  end.

(** ** The serializer *)

Section Serializer.
Context `{Glob} `{Letters} `{MapRange}.

(** A filter that compiled to nil panics when it is asked. *)
Record GraphiteTemplate := mkGT { gt_Filter : option Matcher; gt_Value : string }.
Record GraphiteSerializer := mkGS { gs_Prefix : string; gs_Template : string; TagSupport : bool; gs_Templates : list GraphiteTemplate }.

Inductive TemplatesErr := TMissing (position : nat) | TFormat (t : string) | TFilter (e : err).

Fixpoint templates_loop (i : nat) (ts : list string) (acc : list GraphiteTemplate) (dflt : string) :
    list GraphiteTemplate * string + TemplatesErr :=
  match ts with
  | [] => inl (acc, dflt)
  | t :: ts =>
    match Strings.Fields t with
    | [] => inr (TMissing i)
    | [p] => if decide (p = EmptyString) then inr (TMissing i) else templates_loop (S i) ts acc t
    | [p; q] =>
      match Compile [p] with
      | inr e => inr (TFilter e)
      | inl f => templates_loop (S i) ts (acc ++ [mkGT f q]) dflt
      end
    | _ => inr (TFormat t)
    end
  end.
Definition InitGraphiteTemplates (ts : list string) : list GraphiteTemplate * string + TemplatesErr :=
  templates_loop 0 ts [] EmptyString.

Definition NewGraphiteSerializer (prefix template : string) (tag_support : bool) (templates : list string) :
    GraphiteSerializer + TemplatesErr :=
  match InitGraphiteTemplates templates with
  | inr e => inr e
  | inl (ts, d) => inl (mkGS prefix (if decide (d = EmptyString) then template else d) tag_support ts)
  end.

Fixpoint find_template (ts : list GraphiteTemplate) (name dflt : string) : option string :=
  match ts with
  | [] => Some dflt
  | t :: ts => f ← gt_Filter t; if Match f name then Some (gt_Value t) else find_template ts name dflt
  end.

Definition line (bucket value : string) (timestamp : Z) : string :=
  bucket +:+ " " +:+ value +:+ " " +:+ FormatInt timestamp +:+ String "010" EmptyString.

(** The lines of the fields with a value, in the order of the map. *)
Definition field_lines (bucket : string -> string) (timestamp : Z) (fs : list (string * Val)) : list string :=
  omap (fun kv => let v := formatValue kv.2 in if decide (v = EmptyString) then None else Some (line (bucket kv.1) v timestamp)) fs.

Definition serialize_lines (s : GraphiteSerializer) (m : metric) : option (list string) :=
  let timestamp := Z.quot (int64 (tm m)) 1000000000 in
  if TagSupport s then
    Some (field_lines (SerializeBucketNameWithTags (name m) (Tags m) (gs_Prefix s)) timestamp (range_map (Metric.Fields m)))
  else
    template ← find_template (gs_Templates s) (name m) (gs_Template s);
    let bucket := SerializeBucketName (name m) (Tags m) template (gs_Prefix s) in
    if decide (bucket = EmptyString) then Some []
    else Some (field_lines (fun f => sanitize (InsertField bucket f)) timestamp (range_map (Metric.Fields m))).

Definition Serialize (s : GraphiteSerializer) (m : metric) : option string := concat_strings <$> serialize_lines s m.

Definition SerializeBatch (s : GraphiteSerializer) (ms : list metric) : option string :=
  concat_strings <$> mapM (Serialize s) ms.
End Serializer.

(** ** Names and values have no white space *)

(** Every byte is of a word: above the space, and not the delete character. *)
Definition word_byte (c : ascii) : bool := (33 <=? code c) && negb (code c =? 127).
Fixpoint is_wordlike (s : string) : bool := match s with EmptyString => true | String c s => word_byte c && is_wordlike s end.

Lemma wordlike_app s t : is_wordlike (s +:+ t) = is_wordlike s && is_wordlike t.
Proof.
  induction s as [|c s IH]; [done|]. change (String c s +:+ t) with (String c (s +:+ t)). cbn [is_wordlike].
  by rewrite IH, andb_assoc.
Qed.

Lemma wordlike_free c s : word_byte c = false -> is_wordlike s = true -> free_of c s = true.
Proof.
  intros Hc. induction s as [|d s IH]; [done|]. cbn [is_wordlike free_of]. rewrite !andb_true_iff. intros [Hd Hs].
  split; [|by apply IH]. apply negb_true_iff, bool_decide_eq_false. intros ->. congruence.
Qed.

Lemma wordlike_concat l : Forall (fun s => is_wordlike s = true) l -> is_wordlike (concat_strings l) = true.
Proof. induction 1 as [|s l Hs _ IH]; [done|]. cbn [concat_strings foldr]. by rewrite wordlike_app, Hs. Qed.

Lemma wordlike_Join l sep : is_wordlike sep = true -> Forall (fun s => is_wordlike s = true) l -> is_wordlike (Join l sep) = true.
Proof.
  intros Hsep. induction 1 as [|s l Hs Hl IH]; [done|]. destruct l as [|t l]; [done|].
  rewrite Join_cons by done. by rewrite !wordlike_app, Hs, Hsep.
Qed.

Lemma wordlike_take n s : is_wordlike s = true -> is_wordlike (str_take n s) = true.
Proof.
  intros Hs. pose proof (str_take_drop n s) as E. rewrite <- E, wordlike_app in Hs. by apply andb_true_iff in Hs as [? _].
Qed.
Lemma wordlike_drop n s : is_wordlike s = true -> is_wordlike (str_drop n s) = true.
Proof.
  intros Hs. pose proof (str_take_drop n s) as E. rewrite <- E, wordlike_app in Hs. by apply andb_true_iff in Hs as [_ ?].
Qed.

Lemma wordlike_digits fuel n acc : is_wordlike acc = true -> is_wordlike (digits_loop fuel n acc) = true.
Proof.
  revert n acc. induction fuel as [|fuel IH]; intros n acc Ha; [done|]. cbn [digits_loop].
  assert (is_wordlike (String (digit_char (n mod 10)) acc) = true) as Hd.
  { cbn [is_wordlike]. unfold word_byte. pose proof (Z.mod_pos_bound n 10). rewrite code_digit by lia.
    rewrite (proj2 (Z.leb_le _ _)) by lia. rewrite (proj2 (Z.eqb_neq _ _)) by lia. done. }
  cbv zeta. destruct (_ =? 0); [done|by apply IH].
Qed.

Lemma wordlike_zeros n : is_wordlike (zeros n) = true.
Proof. induction n as [|n IH]; [done|]. cbn [zeros is_wordlike]. by rewrite IH. Qed.

Lemma digits_loop_nonempty fuel n acc : digits_loop (S fuel) n acc <> EmptyString.
Proof.
  revert n acc. induction fuel as [|fuel IH]; intros n acc.
  - cbn [digits_loop]. by destruct (_ =? 0).
  - change (digits_loop (S (S fuel)) n acc) with
      (if n / 10 =? 0 then String (digit_char (n mod 10)) acc else digits_loop (S fuel) (n / 10) (String (digit_char (n mod 10)) acc)).
    destruct (_ =? 0); [done|apply IH].
Qed.

Lemma wordlike_FormatUint n : is_wordlike (FormatUint n) = true /\ FormatUint n <> EmptyString.
Proof. split; [by apply wordlike_digits|apply digits_loop_nonempty]. Qed.

Lemma wordlike_FormatInt n : is_wordlike (FormatInt n) = true /\ FormatInt n <> EmptyString.
Proof.
  unfold FormatInt. destruct (_ <? 0); [|apply wordlike_FormatUint]. split; [|done].
  cbn [is_wordlike]. by rewrite (proj1 (wordlike_FormatUint _)).
Qed.

Lemma wordlike_fmt_f ds dp : is_wordlike ds = true -> ds <> EmptyString -> is_wordlike (fmt_f ds dp) = true /\ fmt_f ds dp <> EmptyString.
Proof.
  intros Hd Hne. unfold fmt_f. destruct (dp <=? 0); [|destruct (_ <=? dp)].
  - split; [|done]. rewrite !wordlike_app. by rewrite wordlike_zeros, Hd.
  - split; [by rewrite wordlike_app, wordlike_zeros, Hd|]. by apply str_app_nonempty.
  - split; [by rewrite !wordlike_app, wordlike_take, wordlike_drop|]. by destruct (str_take _ ds).
Qed.

(** A value is written iff it is a number, and then as one word. *)
Definition numeric (v : Val) : bool :=
  match v with VString _ | VNil => false | VFloat x => negb (f_is_nan x || f_is_inf x) | _ => true end.

Lemma formatValue_word v :
  is_wordlike (formatValue v) = true /\ (formatValue v = EmptyString <-> numeric v = false).
Proof.
  destruct v as [|x|z|z|t|b]; cbn [formatValue numeric].
  - done.
  - destruct (f_is_nan x || f_is_inf x) eqn:E; [done|]. cbn [negb]. unfold FormatFloat_f.
    destruct x as [s|s| |s m e]; cbn in E; try done; [by destruct s|]. cbn [format_with].
    destruct (ratio m e) as [num den]. destruct (shortest_loop _ _ _ _ _ _) as [d dp].
    destruct (wordlike_FormatUint d) as [Hd Hne]. destruct (wordlike_fmt_f _ dp Hd Hne) as [Hf Hfn].
    split; [rewrite wordlike_app, Hf; by destruct s|]. split; [|done]. intros E'. destruct s; [done|]. by destruct Hfn.
  - destruct (wordlike_FormatInt z) as [-> Hne]. done.
  - destruct (wordlike_FormatUint z) as [-> Hne]. done.
  - done.
  - by destruct b.
Qed.

Lemma bytes_take n s : bytes (str_take n s) = take n (bytes s).
Proof.
  revert n. induction s as [|c s IH]; intros [|n]; [done|done|done|]. unfold str_take in *. cbn [String.substring bytes take]. by rewrite IH.
Qed.

Definition word_code (b : Z) : Prop := 33 <= b /\ b <> 127.

Lemma wordlike_bytes s : is_wordlike s = true <-> Forall word_code (bytes s).
Proof.
  induction s as [|c s IH]; [by split|]. cbn [is_wordlike bytes]. rewrite andb_true_iff, Forall_cons, IH.
  unfold word_byte, word_code. rewrite andb_true_iff, Z.leb_le, negb_true_iff, Z.eqb_neq. done.
Qed.

(** A rune is one ASCII byte, or bytes beyond ASCII, or an error. *)
Lemma decode_rune_bytes b bs r n :
  decode_rune (b :: bs) = (r, n) -> (r = b /\ b < 128 /\ n = 1%nat) \/ r = RuneError \/ (128 <= r /\ Forall (fun x => 128 <= x) (take n (b :: bs))).
Proof.
  cbn [decode_rune]. destruct (Z.ltb_spec b 128); [intros [= <- <-]; by left|]. intros E0. right. revert E0.
  destruct bs as [|b1 bs]; [intros [= <- <-]; by left|]. unfold Strings.between.
  destruct ((194 <=? b) && (b <=? 223)) eqn:E1.
  { apply andb_true_iff in E1 as [?%Z.leb_le ?%Z.leb_le].
    destruct ((128 <=? b1) && (b1 <=? 191)) eqn:E2; [|intros [= <- <-]; by left]. apply andb_true_iff in E2 as [?%Z.leb_le ?%Z.leb_le].
    intros [= <- <-]. right. split; [lia|]. repeat constructor; lia. }
  set (lo := if b =? 224 then 160 else if b =? 240 then 144 else 128). set (hi := if b =? 237 then 159 else if b =? 244 then 143 else 191).
  destruct (negb _) eqn:E2; [intros [= <- <-]; by left|]. apply negb_false_iff, andb_true_iff in E2 as [E2 E3].
  apply andb_true_iff in E2 as [?%Z.leb_le ?%Z.leb_le]. apply andb_true_iff in E3 as [Hlo%Z.leb_le Hhi%Z.leb_le].
  assert (128 <= lo) by (unfold lo; repeat destruct (_ =? _); lia).
  destruct bs as [|b2 bs]; [intros [= <- <-]; by left|].
  destruct (negb _) eqn:E4; [intros [= <- <-]; by left|]. apply negb_false_iff, andb_true_iff in E4 as [?%Z.leb_le ?%Z.leb_le].
  destruct (Z.ltb_spec b 240).
  { intros [= <- <-]. right. split; [|repeat constructor; lia]. destruct (Z.eqb_spec b 224) as [->|]; [subst lo; simpl in Hlo; lia|lia]. }
  destruct bs as [|b3 bs]; [intros [= <- <-]; by left|].
  destruct ((128 <=? b3) && (b3 <=? 191)) eqn:E5; [|intros [= <- <-]; by left]. apply andb_true_iff in E5 as [?%Z.leb_le ?%Z.leb_le].
  intros [= <- <-]. right. split; [|repeat constructor; lia].
  destruct (Z.eqb_spec b 240) as [->|]; [subst lo; simpl in Hlo; lia|lia].
Qed.

Section NoSpaces.
Context `{Letters}.

Lemma allowed_ascii r : allowed r = true -> r < 128 -> word_code r.
Proof.
  unfold allowed, word_code, Strings.between. intros Ha Hr.
  repeat (apply orb_true_iff in Ha as [Ha|Ha]); try (apply andb_true_iff in Ha as [?%Z.leb_le ?%Z.leb_le]); try (apply Z.eqb_eq in Ha); try lia.
Qed.

Lemma allowed_error : allowed RuneError = false.
Proof. unfold allowed. rewrite letter_error. reflexivity. Qed.

Lemma allowed_runes fuel s : Forall (fun rb => allowed rb.1 = true -> is_wordlike rb.2 = true) (runes_loop fuel s).
Proof.
  revert s. induction fuel as [|fuel IH]; intros [|c s]; try constructor. cbn [runes_loop].
  destruct (decode_rune (bytes (String c s))) as [r n] eqn:E. constructor; [|apply IH]. cbn [fst snd]. intros Ha.
  rewrite wordlike_bytes, bytes_take. apply decode_rune_bytes in E as [(-> & Hb & ->)|[->|[Hr Hn]]].
  - constructor; [|constructor]. by apply allowed_ascii.
  - by rewrite allowed_error in Ha.
  - eapply Forall_impl; [exact Hn|]. unfold word_code. intros x Hx. cbn beta in Hx. lia.
Qed.

(** What is sanitized has no white space, and no control characters. *)
Lemma sanitize_word s : is_wordlike (sanitize s) = true.
Proof.
  unfold sanitize, allowedChars. apply wordlike_concat. apply Forall_fmap. unfold runes.
  eapply Forall_impl; [apply allowed_runes|]. intros [r b] Hb. cbn in *. by destruct (allowed r); [apply Hb|].
Qed.
End NoSpaces.

(** ** The lines of a metric *)

Section Lines.
Context `{Glob} `{Letters} `{MapRange}.

Definition seconds_of (m : metric) : Z := Z.quot (int64 (tm m)) 1000000000.

Lemma field_lines_numeric bucket t fs :
  field_lines bucket t fs = (fun kv => line (bucket kv.1) (formatValue kv.2) t) <$> filter (fun kv => numeric kv.2 = true) fs.
Proof.
  induction fs as [|[k v] fs IH]; [done|]. unfold field_lines in *. cbn [omap list_omap fst snd] in *.
  destruct (formatValue_word v) as [_ Hn]. rewrite filter_cons. cbn [snd].
  destruct (decide (formatValue v = EmptyString)) as [E|E].
  - rewrite decide_False by (rewrite (proj1 Hn E); done). exact IH.
  - rewrite decide_True by (destruct (numeric v) eqn:En; [done|by destruct E; apply Hn]). by rewrite IH.
Qed.

Lemma range_fields m : wf m -> range_map (Metric.Fields m) ≡ₚ (fun f => (FKey f, FValue f)) <$> fields m.
Proof.
  intros Hwf. rewrite range_map_perm. unfold Metric.Fields. rewrite keyed_map_list_to_map.
  2:{ apply Hwf. }
  apply map_to_list_to_map. rewrite <- list_fmap_compose. apply Hwf.
Qed.

Lemma filter_fmap {A B} (f : A -> B) (Q : B -> Prop) `{!forall x, Decision (Q x)} (l : list A) : filter Q (f <$> l) = f <$> filter (fun x => Q (f x)) l.
Proof. induction l as [|x l IH]; [done|]. cbn [fmap list_fmap]. rewrite !filter_cons. case_decide; cbn [fmap list_fmap]; by rewrite IH. Qed.

Lemma line_splits bucket value t :
  is_wordlike bucket = true -> is_wordlike value = true ->
  Split (line bucket value t) " " = [bucket; value; FormatInt t +:+ String "010" EmptyString].
Proof.
  intros Hb Hv. change (line bucket value t) with (Join [bucket; value; FormatInt t +:+ String "010" EmptyString] (String " " EmptyString)).
  apply Split_Join; [done|]. repeat constructor; try (by apply wordlike_free).
  rewrite free_of_app. rewrite wordlike_free; [done|done|apply wordlike_FormatInt].
Qed.

Lemma bucket_words s m f :
  is_wordlike (SerializeBucketNameWithTags (name m) (Tags m) (gs_Prefix s) f) = true.
Proof.
  unfold SerializeBucketNameWithTags. set (l := sort_strings _). destruct (is_nil l); [apply sanitize_word|].
  rewrite !wordlike_app, sanitize_word. cbn [andb]. apply wordlike_Join; [done|].
  unfold l, sort_strings. rewrite sort_by_perm. apply Forall_fmap. apply Forall_true. intros kv. apply sanitize_word.
Qed.

(** A metric is written as one line for each numeric field, and every line is well formed. Unless the template
    leaves no name at all, the lines are those of the fields that hold numbers, in some order, each with the field's own
    value and the metric's time in seconds; the name is free of white space and control characters whatever the
    measurement, tags and prefix contain, so that splitting a line at spaces gives back exactly the name, the value and
    the time. *)
Theorem Graphite_out_lines (s : GraphiteSerializer) (m : metric) (ls : list string)
    (Hwf : wf m) (Hs : serialize_lines s m = Some ls) :
  (ls = [] /\ TagSupport s = false) \/
  exists bucket, (forall f, is_wordlike (bucket f) = true) /\
    ls ≡ₚ (fun f => line (bucket (FKey f)) (formatValue (FValue f)) (seconds_of m)) <$> filter (fun f => numeric (FValue f) = true) (fields m) /\
    forall f, f ∈ fields m -> Split (line (bucket (FKey f)) (formatValue (FValue f)) (seconds_of m)) " " =
      [bucket (FKey f); formatValue (FValue f); FormatInt (seconds_of m) +:+ String "010" EmptyString].
Proof.
  assert (forall bucket, (forall f, is_wordlike (bucket f) = true) -> ls = field_lines bucket (seconds_of m) (range_map (Metric.Fields m)) ->
    exists bucket, (forall f, is_wordlike (bucket f) = true) /\
    ls ≡ₚ (fun f => line (bucket (FKey f)) (formatValue (FValue f)) (seconds_of m)) <$> filter (fun f => numeric (FValue f) = true) (fields m) /\
    forall f, f ∈ fields m -> Split (line (bucket (FKey f)) (formatValue (FValue f)) (seconds_of m)) " " =
      [bucket (FKey f); formatValue (FValue f); FormatInt (seconds_of m) +:+ String "010" EmptyString]) as Hfl.
  { intros bucket Hb ->. exists bucket. split; [done|]. split.
    - rewrite field_lines_numeric, range_fields by done. rewrite filter_fmap, <- list_fmap_compose. done.
    - intros f _. apply line_splits; [done|]. apply formatValue_word. }
  unfold serialize_lines in Hs. fold (seconds_of m) in Hs. destruct (TagSupport s).
  - right. injection Hs as <-. eapply Hfl; [|done]. intros f. apply bucket_words.
  - destruct (find_template _ _ _) as [template|]; [|done]. revert Hs. binds.
    destruct (decide _); intros [= <-]; [by left|]. right. eapply Hfl; [|done]. intros f. apply sanitize_word.
Qed.
End Lines.

#[local] Existing Instance alt_glob.
#[local] Existing Instance map_range_default.
(** Letters: ASCII only. *)
#[local, refine] Instance ascii_letters : Letters := {| letter r := false |}.
Proof. all: done. Defined.

Definition ex_graphite (template : string) (tagged : bool) : GraphiteSerializer := mkGS "pre" template tagged [].
Definition ex_cpu : metric :=
  mkMetric "cpu" [mkTag "cpu" "cpu0"; mkTag "host" "web.1"] [mkField "usage idle" (VInt 91); mkField "s" (VString "x"); mkField "value" (VBool true)]
    1500000000000000000 Untyped false.

Lemma Graphite_out_lines_witness :
  exists ls, serialize_lines (ex_graphite EmptyString false) ex_cpu = Some ls /\ length ls = 2%nat.
Proof.
  assert (serialize_lines (ex_graphite EmptyString false) ex_cpu =
    Some (default [] (serialize_lines (ex_graphite EmptyString false) ex_cpu))) as E by (vm_compute; reflexivity).
  eexists. split; [exact E|].
  destruct (Graphite_out_lines (ex_graphite EmptyString false) ex_cpu _
    ltac:(constructor; apply (bool_decide_unpack _); vm_compute; exact I) E) as [[Hl _]|(bucket & _ & Hp & _)].
  - vm_compute in Hl. discriminate.
  - rewrite Hp. vm_compute. reflexivity.
Defined.

Lemma graphite_examples :
  Serialize (ex_graphite EmptyString false) ex_cpu = Some ("pre.web_1.cpu0.cpu.usage_idle 91 1500000000" +:+ String "010" EmptyString +:+
    "pre.web_1.cpu0.cpu 1 1500000000" +:+ String "010" EmptyString) /\
  Serialize (ex_graphite EmptyString true) ex_cpu = Some ("pre.cpu.usage_idle;cpu=cpu0;host=web.1 91 1500000000" +:+ String "010" EmptyString +:+
    "pre.cpu;cpu=cpu0;host=web.1 1 1500000000" +:+ String "010" EmptyString) /\
  sanitize "a...b" = "a..b" /\ sanitize "a b/c\d" = "a_b-cd".
Proof. vm_compute. split_and!; reflexivity. Qed.

(** A tag whose value is the placeholder of the remaining tags is taken for it. *)
Lemma placeholder_captured :
  SerializeBucketName "cpu" {["host" := "TAGS"; "dc" := "eu"]} EmptyString EmptyString = "eu.TAGS.cpu.FIELDNAME".
Proof. vm_compute. reflexivity. Qed.
