(* ===== verification/Formats.v ===== *)
(** * Data formats of plugins

    [internal/config/config.go] with [plugins/parsers/registry.go] and [plugins/serializers/registry.go]: an input that
    parses text, or an output that serializes metrics, takes its format's options from its table, and gets the parser
    or serializer they describe. The constructors of parsers that are not modelled are the class [Parsers]. *)

From S2P Require Import Prelude Float64 Strconv Strings Parse Influx Prometheus Metric Filter Graphite Duration Config GraphiteOut.

(** ** Parsers *)

(** [parsers.Config]. *)
Module Parser.
Record Config := mkConfig {
  DataFormat : string;
  Separator : string;
  Templates : list string;
  TagKeys : list string;
  JSONStringFields : list string;
  JSONNameKey : string;
  MetricName : string;
  JSONQuery : string;
  JSONTimeKey : string;
  JSONTimeFormat : string;
  JSONTimezone : string;
  JSONStrict : bool;
  CollectdAuthFile : string;
  CollectdSecurityLevel : string;
  CollectdTypesDB : list string;
  CollectdSplit : string;
  DataType : string;
  DefaultTags : gmap string string;
  DropwizardMetricRegistryPath : string;
  DropwizardTimePath : string;
  DropwizardTimeFormat : string;
  DropwizardTagsPath : string;
  DropwizardTagPathsMap : gmap string string;
  GrokPatterns : list string;
  GrokNamedPatterns : list string;
  GrokCustomPatterns : string;
  GrokCustomPatternFiles : list string;
  GrokTimezone : string;
  GrokUniqueTimestamp : string;
  CSVColumnNames : list string;
  CSVColumnTypes : list string;
  CSVComment : string;
  CSVDelimiter : string;
  CSVHeaderRowCount : Z;
  CSVMeasurementColumn : string;
  CSVSkipColumns : Z;
  CSVSkipRows : Z;
  CSVTagColumns : list string;
  CSVTimestampColumn : string;
  CSVTimestampFormat : string;
  CSVTrimSpace : bool;
  FormUrlencodedTagKeys : list string;
}.
End Parser.

Definition parser_keys : list string :=
  ["data_format"; "separator"; "templates"; "tag_keys"; "json_name_key"; "json_query"; "json_string_fields"; "json_time_format";
   "json_time_key"; "json_timezone"; "json_strict"; "data_type"; "collectd_auth_file"; "collectd_security_level";
   "collectd_typesdb"; "collectd_parse_multivalue"; "dropwizard_metric_registry_path"; "dropwizard_time_path";
   "dropwizard_time_format"; "dropwizard_tags_path"; "dropwizard_tag_paths"; "grok_named_patterns"; "grok_patterns";
   "grok_custom_patterns"; "grok_custom_pattern_files"; "grok_timezone"; "grok_unique_timestamp"; "csv_column_names";
   "csv_column_types"; "csv_comment"; "csv_delimiter"; "csv_field_columns"; "csv_header_row_count"; "csv_measurement_column";
   "csv_skip_columns"; "csv_skip_rows"; "csv_tag_columns"; "csv_timestamp_column"; "csv_timestamp_format"; "csv_trim_space";
   "form_urlencoded_tag_keys"].

Section ParserOptions.
Context `{MapRange} `{Toml}.

Definition get_paths (t : table) (k : string) : gmap string string :=
  match t !! k with
  | Some (NTable sub) =>
    foldl (fun m kv => match kv.2 with NKeyValue (TString s) => <[kv.1 := s]> m | _ => m end) ∅ (range_map sub)
  | _ => ∅
  end.

Definition get_trim_space (t : table) : res bool :=
  match key_value t "csv_trim_space" with
  | Some (TBoolean s) => match ParseBool s with Some b => inl b | None => inr ETrimSpace end
  | _ => inl false
  end.

Definition getParserConfig (name : string) (t : table) : res (Parser.Config * table) :=
  let format := get_string t "data_format" in
  let format := if decide (format = EmptyString) then (if decide (name = "exec") then "json" else "influx") else format in
  strict ← get_bool t "json_strict" true;
  header ← get_int t "csv_header_row_count";
  skip_rows ← get_int t "csv_skip_rows";
  skip_columns ← get_int t "csv_skip_columns";
  trim ← get_trim_space t;
  mret (Parser.mkConfig format (get_string t "separator") (get_strings t "templates") (get_strings t "tag_keys")
    (get_strings t "json_string_fields") (get_string t "json_name_key") name (get_string t "json_query")
    (get_string t "json_time_key") (get_string t "json_time_format") (get_string t "json_timezone") strict
    (get_string t "collectd_auth_file") (get_string t "collectd_security_level") (get_strings t "collectd_typesdb")
    (get_string t "collectd_parse_multivalue") (get_string t "data_type") ∅
    (get_string t "dropwizard_metric_registry_path") (get_string t "dropwizard_time_path")
    (get_string t "dropwizard_time_format") (get_string t "dropwizard_tags_path") (get_paths t "dropwizard_tag_paths")
    (get_strings t "grok_patterns") (get_strings t "grok_named_patterns") (get_string t "grok_custom_patterns")
    (get_strings t "grok_custom_pattern_files") (get_string t "grok_timezone") (get_string t "grok_unique_timestamp")
    (get_strings t "csv_column_names") (get_strings t "csv_column_types") (get_string t "csv_comment")
    (get_string t "csv_delimiter") header (get_string t "csv_measurement_column") skip_columns skip_rows
    (get_strings t "csv_tag_columns") (get_string t "csv_timestamp_column") (get_string t "csv_timestamp_format") trim
    (get_strings t "form_urlencoded_tag_keys"), delete_keys parser_keys t).
End ParserOptions.

(** [newCSVParser]: what it checks. *)
Definition csv_error (headerRowCount : Z) (delimiter comment : string) (columnNames columnTypes : list string) : option err :=
  if (headerRowCount =? 0) && is_nil columnNames then
    Some "`csv_header_row_count` must be defined if `csv_column_names` is not specified"
  else if (1 <? length (runes delimiter))%nat then Some ("csv_delimiter must be a single character, got: " +:+ delimiter)
  else if (1 <? length (runes comment))%nat then Some ("csv_delimiter must be a single character, got: " +:+ comment)
  else if negb (is_nil columnNames) && negb (is_nil columnTypes) && negb (length columnNames =? length columnTypes)%nat then
    Some "csv_column_names field count doesn't match with csv_column_types"
  else None.

(** The parsers' own constructors, from the options they take. *)
Class Parsers (P : Type) := {
  new_json : string -> list string -> string -> list string -> string -> string -> string -> string -> gmap string string -> bool -> P + err;
  new_value : string -> string -> gmap string string -> P;
  new_influx : P;
  new_nagios : P;
  of_graphite : GraphiteParser -> P;
  new_collectd : string -> string -> list string -> string -> P + err;
  new_dropwizard : string -> string -> string -> string -> gmap string string -> gmap string string -> string -> list string -> P + err;
  new_wavefront : gmap string string -> P;
  new_grok : string -> list string -> list string -> string -> list string -> string -> string -> P + err;
  new_csv : string -> Z -> Z -> Z -> string -> string -> bool -> list string -> list string -> list string -> string -> string -> string ->
    gmap string string -> P;
  new_logfmt : string -> gmap string string -> P;
  new_form_urlencoded : string -> gmap string string -> list string -> P;
}.

Definition plugin_res {A} (x : A + err) : res A := match x with inl a => inl a | inr e => inr (EPlugin e) end.

Section NewParser.
Context `{GoSort} `{MapRange} `{FloatConv} {P : Type} `{Parsers P}.
Import Parser.

(** [NewParser]: [None] is a panic. *)
Definition NewParser (c : Parser.Config) : option (res P) :=
  let f := DataFormat c in
  if decide (f = "json") then
    Some (plugin_res (new_json (MetricName c) (TagKeys c) (JSONNameKey c) (JSONStringFields c) (JSONQuery c) (JSONTimeKey c)
      (JSONTimeFormat c) (JSONTimezone c) (DefaultTags c) (JSONStrict c)))
  else if decide (f = "value") then Some (inl (new_value (MetricName c) (DataType c) (DefaultTags c)))
  else if decide (f = "influx") then Some (inl new_influx)
  else if decide (f = "nagios") then Some (inl new_nagios)
  else if decide (f = "graphite") then
    r ← NewGraphiteParser (Separator c) (Templates c) (DefaultTags c);
    Some (match r with inl p => inl (of_graphite p) | inr _ => inr (EPlugin "graphite") end)
  else if decide (f = "collectd") then
    Some (plugin_res (new_collectd (CollectdAuthFile c) (CollectdSecurityLevel c) (CollectdTypesDB c) (CollectdSplit c)))
  else if decide (f = "dropwizard") then
    Some (plugin_res (new_dropwizard (DropwizardMetricRegistryPath c) (DropwizardTimePath c) (DropwizardTimeFormat c)
      (DropwizardTagsPath c) (DropwizardTagPathsMap c) (DefaultTags c) (Separator c) (Templates c)))
  else if decide (f = "wavefront") then Some (inl (new_wavefront (DefaultTags c)))
  else if decide (f = "grok") then
    Some (plugin_res (new_grok (MetricName c) (GrokPatterns c) (GrokNamedPatterns c) (GrokCustomPatterns c)
      (GrokCustomPatternFiles c) (GrokTimezone c) (GrokUniqueTimestamp c)))
  else if decide (f = "csv") then
    Some (match csv_error (CSVHeaderRowCount c) (CSVDelimiter c) (CSVComment c) (CSVColumnNames c) (CSVColumnTypes c) with
      | Some e => inr (EPlugin e)
      | None => inl (new_csv (MetricName c) (CSVHeaderRowCount c) (CSVSkipRows c) (CSVSkipColumns c) (CSVDelimiter c)
          (CSVComment c) (CSVTrimSpace c) (CSVColumnNames c) (CSVColumnTypes c) (CSVTagColumns c) (CSVMeasurementColumn c)
          (CSVTimestampColumn c) (CSVTimestampFormat c) (DefaultTags c))
      end)
  else if decide (f = "logfmt") then Some (inl (new_logfmt (MetricName c) (DefaultTags c)))
  else if decide (f = "form_urlencoded") then
    Some (inl (new_form_urlencoded (MetricName c) (DefaultTags c) (FormUrlencodedTagKeys c)))
  else Some (inr (EDataFormat f)).

Definition buildParser `{Toml} (name : string) (t : table) : option (res (P * table)) :=
  match getParserConfig name t with
  | inr e => Some (inr e)
  | inl (c, t) => r ← NewParser c; Some (p ← r; mret (p, t))
  end.
End NewParser.

(** ** Serializers *)

(** [serializers.Config]. *)
Module Serializer.
Record Config := mkConfig {
  DataFormat : string;
  GraphiteTagSupport : bool;
  InfluxMaxLineBytes : Z;
  InfluxSortFields : bool;
  InfluxUintSupport : bool;
  Prefix : string;
  Template : string;
  Templates : list string;
  TimestampUnits : Z;
  HecRouting : bool;
  SplunkmetricMultiMetric : bool;
  WavefrontSourceOverride : list string;
  WavefrontUseStrict : bool;
  PrometheusExportTimestamp : bool;
  PrometheusSortMetrics : bool;
  PrometheusStringAsLabel : bool;
}.
End Serializer.

(** [math.Log10] and [math.Pow]. *)
Class MathFuns := { Log10 : float64 -> float64; Pow : float64 -> float64 -> float64 }.

Definition serializer_keys : list string :=
  ["influx_max_line_bytes"; "influx_sort_fields"; "influx_uint_support"; "graphite_tag_support"; "data_format"; "prefix";
   "template"; "templates"; "json_timestamp_units"; "splunkmetric_hec_routing"; "splunkmetric_multimetric";
   "wavefront_source_override"; "wavefront_use_strict"; "prometheus_export_timestamp"; "prometheus_sort_metrics";
   "prometheus_string_as_label"].

Section SerializerOptions.
Context `{Toml} `{FloatConv} `{MathFuns}.

Definition get_units (t : table) : res Z :=
  match key_value t "json_timestamp_units" with
  | Some (TString s) =>
    match ParseDuration s with
    | inr e => inr (EUnits e)
    | inl d =>
      let nearest_exponent := to_int64 (Log10 (f_of_Z d)) in
      inl (to_int64 (Pow (f_of_Z 10) (f_of_Z nearest_exponent)))
    end
  | _ => inl Second
  end.

(** The options [buildSerializer] reads. *)
Definition serializer_config (t : table) : res Serializer.Config :=
  let format := get_string t "data_format" in
  let format := if decide (format = EmptyString) then "influx" else format in
  max_line ← get_int t "influx_max_line_bytes";
  sort_fields ← get_bool t "influx_sort_fields" false;
  uint_support ← get_bool t "influx_uint_support" false;
  tag_support ← get_bool t "graphite_tag_support" false;
  units ← get_units t;
  hec ← get_bool t "splunkmetric_hec_routing" false;
  multi ← get_bool t "splunkmetric_multimetric" false;
  strict ← get_bool t "wavefront_use_strict" false;
  export ← get_bool t "prometheus_export_timestamp" false;
  sort_metrics ← get_bool t "prometheus_sort_metrics" false;
  string_as_label ← get_bool t "prometheus_string_as_label" false;
  mret (Serializer.mkConfig format tag_support max_line sort_fields uint_support (get_string t "prefix") (get_string t "template")
    (get_strings t "templates") units hec multi (get_strings t "wavefront_source_override") strict export sort_metrics string_as_label).
End SerializerOptions.

(** [json.truncateDuration]: the largest power of ten that is not above the units. The products wrap, and after 64
    rounds they are 0 for ever: [None] is a loop that never ends. *)
Fixpoint truncate_loop (fuel : nat) (d units : Z) : option Z :=
  match fuel with
  | O => None
  | S fuel => if units <? int64 (d * 10) then Some d else truncate_loop fuel (int64 (d * 10)) units
  end.
Definition truncateDuration (units : Z) : option Z := if units <=? 0 then Some Second else truncate_loop 65 Nanosecond units.

(** A serializer as its constructor leaves it. *)
Inductive serializer `{Glob} :=
| SInflux (s : Influx.Serializer)
| SGraphite (s : GraphiteSerializer)
| SJson (units : Z)
| SSplunkmetric (hec_routing multimetric : bool)
| SNow
| SCarbon2
| SWavefront (prefix : string) (useStrict : bool) (sourceOverride : list string)
| SPrometheus (c : Prometheus.FormatConfig).

Section NewSerializer.
Context `{Glob}.
Import Serializer.

Definition NewInfluxSerializerConfig (c : Serializer.Config) : Influx.Serializer :=
  Influx.SetFieldTypeSupport (if InfluxUintSupport c then Influx.UintSupport else 0)
    (Influx.SetFieldSortOrder (if InfluxSortFields c then Influx.SortFields else Influx.NoSortFields)
      (Influx.SetMaxLineBytes (InfluxMaxLineBytes c) Influx.NewSerializer)).

(** The sort order is set by the option that exports timestamps. *)
Definition NewPrometheusSerializer (c : Serializer.Config) : Prometheus.FormatConfig :=
  Prometheus.mkFormat
    (if PrometheusExportTimestamp c then Prometheus.ExportTimestamp else Prometheus.NoExportTimestamp)
    (if PrometheusExportTimestamp c then Prometheus.SortMetrics else Prometheus.NoSortMetrics)
    (if PrometheusStringAsLabel c then Prometheus.StringAsLabel else Prometheus.DiscardStrings).

(** [NewSerializer]: [None] never returns. *)
Definition NewSerializer (c : Serializer.Config) : option (res serializer) :=
  let f := DataFormat c in
  if decide (f = "influx") then Some (inl (SInflux (NewInfluxSerializerConfig c)))
  else if decide (f = "graphite") then
    Some (match NewGraphiteSerializer (Prefix c) (Template c) (GraphiteTagSupport c) (Templates c) with
      | inl s => inl (SGraphite s)
      | inr _ => inr (EPlugin "graphite")
      end)
  else if decide (f = "json") then u ← truncateDuration (TimestampUnits c); Some (inl (SJson u))
  else if decide (f = "splunkmetric") then Some (inl (SSplunkmetric (HecRouting c) (SplunkmetricMultiMetric c)))
  else if decide (f = "nowmetric") then Some (inl SNow)
  else if decide (f = "carbon2") then Some (inl SCarbon2)
  else if decide (f = "wavefront") then Some (inl (SWavefront (Prefix c) (WavefrontUseStrict c) (WavefrontSourceOverride c)))
  else if decide (f = "prometheus") then Some (inl (SPrometheus (NewPrometheusSerializer c)))
  else Some (inr (EDataFormat f)).

Definition buildSerializer `{Toml} `{FloatConv} `{MathFuns} (t : table) : option (res (serializer * table)) :=
  match serializer_config t with
  | inr e => Some (inr e)
  | inl c => r ← NewSerializer c; Some (s ← r; mret (s, delete_keys serializer_keys t))
  end.
End NewSerializer.

(** ** Properties *)

Lemma int64_times_ten d : 0 <= d <= 10 ^ 17 -> int64 (d * 10) = d * 10.
Proof. intros Hd. apply int64_small. unfold MinInt64, MaxInt64. lia. Qed.

Lemma truncate_loop_spec fuel (k : nat) units :
  10 ^ Z.of_nat k <= units < 10 ^ 18 -> (18 < k + fuel)%nat ->
  exists j : nat, truncate_loop fuel (10 ^ Z.of_nat k) units = Some (10 ^ Z.of_nat j) /\
    10 ^ Z.of_nat j <= units < 10 * 10 ^ Z.of_nat j.
Proof.
  revert k. induction fuel as [|fuel IH]; intros k Hu Hf.
  { exfalso. assert (10 ^ 18 <= 10 ^ Z.of_nat k) by (apply Z.pow_le_mono_r; lia). lia. }
  assert (0 < 10 ^ Z.of_nat k) by (apply Z.pow_pos_nonneg; lia). cbn [truncate_loop].
  assert (10 ^ Z.of_nat k <= 10 ^ 17).
  { apply Z.pow_le_mono_r; [lia|]. destruct (decide (Z.of_nat k <= 17)); [done|]. exfalso.
    assert (10 ^ 18 <= 10 ^ Z.of_nat k) by (apply Z.pow_le_mono_r; lia). lia. }
  rewrite int64_times_ten by lia. destruct (Z.ltb_spec units (10 ^ Z.of_nat k * 10)).
  - exists k. split; [done|lia].
  - assert (10 ^ Z.of_nat k * 10 = 10 ^ Z.of_nat (S k)) as Es.
    { rewrite Nat2Z.inj_succ, Z.pow_succ_r by lia. lia. }
    rewrite Es in *. apply IH; lia.
Qed.

(** The units of JSON timestamps are the largest power of ten that is not above the ones asked for, up to a power
    of ten below the range of the type. *)
Lemma truncateDuration_spec units :
  0 < units < 10 ^ 18 -> exists j : nat, truncateDuration units = Some (10 ^ Z.of_nat j) /\
    10 ^ Z.of_nat j <= units < 10 * 10 ^ Z.of_nat j.
Proof.
  intros Hu. unfold truncateDuration. rewrite (proj2 (Z.leb_gt units 0)) by lia.
  change Nanosecond with (10 ^ Z.of_nat 0). apply truncate_loop_spec; [simpl; lia|lia].
Qed.

(** Above it the product wraps: the units become negative, or the search never ends. *)
Lemma truncateDuration_wraps :
  truncateDuration (10 ^ 18) = Some (-8446744073709551616) /\ truncateDuration MaxInt64 = None.
Proof. split; vm_compute; reflexivity. Qed.

(** Once the product is 0 it stays 0, so that more rounds do not help. *)
Lemma truncate_never_ends units fuel : 0 < units -> truncate_loop fuel 0 units = None.
Proof.
  intros Hu. induction fuel as [|fuel IH]; [done|]. cbn [truncate_loop]. change (int64 (0 * 10)) with 0.
  rewrite (proj2 (Z.ltb_ge units 0)) by lia. exact IH.
Qed.

Section SerializerProps.
Context `{Glob}.

(** The option to sort the metrics of a Prometheus serializer has no effect; they are sorted iff timestamps are
    exported. *)
Lemma prometheus_sort_ignored c c' :
  Serializer.PrometheusExportTimestamp c = Serializer.PrometheusExportTimestamp c' ->
  Serializer.PrometheusStringAsLabel c = Serializer.PrometheusStringAsLabel c' ->
  NewPrometheusSerializer c = NewPrometheusSerializer c' /\
  (Prometheus.fc_order (NewPrometheusSerializer c) = Prometheus.SortMetrics <-> Serializer.PrometheusExportTimestamp c = true).
Proof.
  unfold NewPrometheusSerializer. intros -> ->. split; [done|]. simpl.
  by destruct (Serializer.PrometheusExportTimestamp c').
Qed.

(** The options of the line protocol reach its serializer. *)
Lemma influx_options c :
  let s := NewInfluxSerializerConfig c in
  Influx.maxLineBytes s = Serializer.InfluxMaxLineBytes c /\
  (Influx.fieldSortOrder s = Influx.SortFields <-> Serializer.InfluxSortFields c = true) /\
  (Z.testbit (Influx.fieldTypeSupport s) 0 = Serializer.InfluxUintSupport c).
Proof.
  unfold NewInfluxSerializerConfig. destruct c as [? ? ? [] [] ? ? ? ? ? ? ? ? ? ? ?]; simpl; split_and!; done.
Qed.

(** An output that asks for no format gets the line protocol. *)
Lemma default_serializer `{Toml} `{FloatConv} `{MathFuns} c (t : table) :
  get_string t "data_format" = EmptyString -> serializer_config t = inl c ->
  NewSerializer c = Some (inl (SInflux (NewInfluxSerializerConfig c))).
Proof.
  intros Ef. unfold serializer_config. rewrite Ef. rewrite decide_True by done.
  repeat match goal with |- (_ ← ?x; _) = _ -> _ => destruct x; [cbn [mbind res_bind]|done] end.
  intros [= <-]. done.
Qed.
End SerializerProps.
