(* ===== verification/Load.v ===== *)
(** * Loading a configuration

    [internal/config/config.go]: finding and reading the files, substituting environment variables, and turning the
    tables of a file into running plugins. The operating system, the TOML library and the plugins are parameters.

    Every input holds the map of global tags itself, not a copy: [set_tags] writes through to all of them. *)

From Stdlib Require Import Ascii.
From S2P Require Import Prelude Float64 Strconv Strings Parse Metric Tracking Selfstat Interfaces Filter Running Output Graphite Duration Config GraphiteOut Formats.

(** ** Environment variables: [parseConfig] *)

Definition is_word (c : ascii) : bool :=
  is_digit c || Parse.between 65 90 (code c) || Parse.between 97 122 (code c) || (code c =? 95).

Fixpoint span_word (s : string) : string * string :=
  match s with
  | EmptyString => (EmptyString, EmptyString)
  | String c s' => if is_word c then let '(w, r) := span_word s' in (String c w, r) else (EmptyString, s)
  end.

Definition dollar : ascii := "036".

(** A match of [envVarRe] at the front: the text, the variable, and what follows. *)
Definition braced (s : string) : option (string * string * string) :=
  match s with
  | String b s' =>
    if decide (b = "{"%char) then
      match span_word s' with
      | (String _ _ as w, String e r) => if decide (e = "}"%char) then Some ("${" +:+ w +:+ "}", w, r) else None
      | _ => None
      end
    else None
  | EmptyString => None
  end.
Definition bare (s : string) : option (string * string * string) :=
  match span_word s with (EmptyString, _) => None | (w, r) => Some (String dollar w, w, r) end.
Definition reference (s : string) : option (string * string * string) :=
  match s with
  | String c s' =>
    if decide (c = dollar) then match braced s' with Some m => Some m | None => bare s' end else None
  | EmptyString => None
  end.

(** [envVarRe.FindAllSubmatch]: the texts and variables, from left to right. *)
Fixpoint find_all (fuel : nat) (s : string) : list (string * string) :=
  match fuel with
  | O => []
  | S fuel =>
    match reference s with
    | Some (text, var, rest) => (text, var) :: find_all fuel rest
    | None => match s with EmptyString => [] | String _ s' => find_all fuel s' end
    end
  end.

Definition escapeEnv (value : string) : string :=
  Replacer [(String "034" EmptyString, "\" +:+ String "034" EmptyString); ("\", "\\")] value.

Definition trimBOM (s : string) : string :=
  default s (strip_prefix (String "239" (String "187" (String "191" EmptyString))) s).

Definition replace_env (env : string -> option string) (contents : string) (p : string * string) : string :=
  match env (default p.2 (strip_prefix (String dollar EmptyString) p.2)) with
  | Some v => Replace1 contents p.1 (escapeEnv v)
  | None => contents
  end.

(** What [parseConfig] gives the TOML parser. *)
Definition substitute (env : string -> option string) (contents : string) : string :=
  let contents := trimBOM contents in
  foldl (replace_env env) contents (find_all (String.length contents) contents).

(** ** The configuration *)

Record AgentConfig := mkAgent {
  Interval : Z;
  RoundInterval : bool;
  Precision : Z;
  CollectionJitter : Z;
  FlushInterval : Z;
  FlushJitter : Z;
  MetricBatchSize : Z;
  MetricBufferLimit : Z;
  FlushBufferWhenFull : bool;
  UTC : bool;
  Debug : bool;
  Quiet : bool;
  LogTarget : string;
  Logfile : string;
  LogfileRotationInterval : Z;
  LogfileRotationMaxSize : Z;
  LogfileRotationMaxArchives : Z;
  Hostname : string;
  OmitHostname : bool;
}.

Definition set_hostname (h : string) (a : AgentConfig) : AgentConfig :=
  mkAgent (Interval a) (RoundInterval a) (Precision a) (CollectionJitter a) (FlushInterval a) (FlushJitter a) (MetricBatchSize a)
    (MetricBufferLimit a) (FlushBufferWhenFull a) (UTC a) (Debug a) (Quiet a) (LogTarget a) (Logfile a)
    (LogfileRotationInterval a) (LogfileRotationMaxSize a) (LogfileRotationMaxArchives a) h (OmitHostname a).

(** The operating system. [os_read] stands for [loadConfig]: a file, or what a URL returns. *)
Class OS := {
  os_env : string -> option string;
  os_windows : bool;
  os_stat : string -> bool;
  os_hostname : string + err;
  os_read : string -> string + err;
}.

(** The TOML library on whole files and the agent's table. A decoder may have stored values when it fails. *)
Class TomlFile := {
  toml_Parse : string -> table + err;
  UnmarshalAgent : table -> AgentConfig -> AgentConfig * option err;
}.

(** The plugins: the registries of constructors, the optional methods, and decoding. *)
Class Plugins (IP PP GP OP PR : Type) `{Glob} := {
  Inputs_registry : string -> option IP;
  Processors_registry : string -> option PP;
  Aggregators_registry : string -> option GP;
  Outputs_registry : string -> option OP;
  SetParser : IP -> option (PR -> IP);
  SetParserFunc : IP -> option ((unit -> option (res PR)) -> IP);
  SetSerializer : OP -> option (serializer -> OP);
  decode_input : table -> IP -> IP + err;
  decode_processor : table -> PP -> PP + err;
  decode_aggregator : table -> GP -> GP + err;
  decode_output : table -> OP -> OP + err;
}.

Definition toml_res {A} (x : A + err) : res A := match x with inl a => inl a | inr e => inr (EToml e) end.

Definition sliceContains (name : string) (l : list string) : bool := existsb (fun b => bool_decide (b = name)) l.

Section Load.
Context `{Glob} `{GoSort} `{MapRange} `{FloatConv} `{MathFuns} `{Toml} `{TomlFile} `{OS}.
Context {IP PP GP OP PR : Type} `{Parsers PR} `{!Plugins IP PP GP OP PR}.

Record Config := mkConfig {
  CTags : gmap string string;
  InputFilters : list string;
  OutputFilters : list string;
  Agent : AgentConfig;
  Inputs : list (IP * RunningInput.RunningInput);
  Outputs : list (@RunningOutput.RunningOutput _ OP);
  Aggregators : list (@RunningAggregator.RunningAggregator _ GP);
  Processors : list (@RunningProcessor.RunningProcessor _ PP);
}.

Definition NewConfig : Config :=
  mkConfig ∅ [] [] (mkAgent (10 * Second) true 0 0 (10 * Second) 0 0 0 false false false false "file" EmptyString 0 0 5 EmptyString false)
    [] [] [] [].

Definition set_agent (a : AgentConfig) (c : Config) : Config :=
  mkConfig (CTags c) (InputFilters c) (OutputFilters c) a (Inputs c) (Outputs c) (Aggregators c) (Processors c).
Definition retag (ts : gmap string string) (x : IP * RunningInput.RunningInput) : IP * RunningInput.RunningInput :=
  (x.1, RunningInput.SetDefaultTags ts x.2).
(** The global tags, which all inputs share. *)
Definition set_tags (ts : gmap string string) (c : Config) : Config :=
  mkConfig ts (InputFilters c) (OutputFilters c) (Agent c) (retag ts <$> Inputs c) (Outputs c) (Aggregators c) (Processors c).
Definition add_input (x : IP * RunningInput.RunningInput) (c : Config) : Config :=
  mkConfig (CTags c) (InputFilters c) (OutputFilters c) (Agent c) (Inputs c ++ [x]) (Outputs c) (Aggregators c) (Processors c).
Definition add_output (x : RunningOutput.RunningOutput) (c : Config) : Config :=
  mkConfig (CTags c) (InputFilters c) (OutputFilters c) (Agent c) (Inputs c) (Outputs c ++ [x]) (Aggregators c) (Processors c).
Definition add_aggregator (x : RunningAggregator.RunningAggregator) (c : Config) : Config :=
  mkConfig (CTags c) (InputFilters c) (OutputFilters c) (Agent c) (Inputs c) (Outputs c) (Aggregators c ++ [x]) (Processors c).
Definition set_processors (l : list RunningProcessor.RunningProcessor) (c : Config) : Config :=
  mkConfig (CTags c) (InputFilters c) (OutputFilters c) (Agent c) (Inputs c) (Outputs c) (Aggregators c) l.

Definition InputNames (c : Config) : list string := (fun x => RunningInput.Name (RunningInput.Config x.2)) <$> Inputs c.
Definition OutputNames (c : Config) : list string := (fun x => RunningOutput.Name (RunningOutput.Config x)) <$> Outputs c.
Definition AggregatorNames (c : Config) : list string := (fun x => RunningAggregator.Name (RunningAggregator.Config x)) <$> Aggregators c.
Definition ProcessorNames (c : Config) : list string := (fun x => RunningProcessor.Name (RunningProcessor.Config x)) <$> Processors c.
Definition ListTags (c : Config) : string := Join (sort_strings ((fun kv => kv.1 +:+ "=" +:+ kv.2) <$> range_map (CTags c))) " ".

(** ** Actions

    They change the configuration and the registry of statistics, and may return an error, having changed
    something; [None] is a panic. *)

Definition st : Type := Config * Registry.
Definition action : Type := st -> option (option cerr * st).

Definition skip : action := fun s => Some (None, s).
Definition raise (e : cerr) : action := fun s => Some (Some e, s).
Definition modify (f : Config -> Config) : action := fun s => Some (None, (f s.1, s.2)).
Definition andThen (x y : action) : action := fun s =>
  '(e, s) ← x s; match e with Some e => Some (Some e, s) | None => y s end.
Definition wrap_error (f : cerr -> cerr) (x : action) : action := fun s =>
  '(e, s) ← x s; Some (match e with Some e => Some (f e) | None => None end, s).
Fixpoint each {A} (f : A -> action) (l : list A) : action :=
  match l with [] => skip | a :: l => andThen (f a) (each f l) end.
(** The configuration, for a decision. *)
Definition with_config (f : Config -> action) : action := fun s => f s.1 s.
Definition of_res {A} (x : option (res A)) (k : A -> action) : action := fun s =>
  r ← x; match r with inr e => raise e s | inl a => k a s end.

(** ** Adding plugins *)

(** What the plugin and its wrapper's options become. *)
Definition make_aggregator (name : string) (t : table) : res (GP * RunningAggregator.AggregatorConfig) :=
  match Aggregators_registry name with
  | None => fails (EUndefined "aggregator" name)
  | Some g => '(conf, t) ← buildAggregator name t; g ← toml_res (decode_aggregator t g); mret (g, conf)
  end.

Definition addAggregator (name : string) (t : table) : action :=
  of_res (Some (make_aggregator name t)) (fun gc s =>
    let '(ra, r) := RunningAggregator.NewRunningAggregator gc.1 gc.2 s.2 in Some (None, (add_aggregator ra s.1, r))).

Definition make_processor (name : string) (t : table) : res (PP * RunningProcessor.ProcessorConfig) :=
  match Processors_registry name with
  | None => fails (EUndefined "processor" name)
  | Some p => '(conf, t) ← buildProcessor name t; p ← toml_res (decode_processor t p); mret (p, conf)
  end.

Definition addProcessor (name : string) (t : table) : action :=
  of_res (Some (make_processor name t)) (fun pc s =>
    let '(rp, r) := RunningProcessor.NewRunningProcessor pc.1 pc.2 s.2 in
    Some (None, (set_processors (Processors s.1 ++ [rp]) s.1, r))).

(** An output that serializes gets its serializer first. *)
Definition with_serializer (o : OP) (t : table) : option (res (OP * table)) :=
  match SetSerializer o with
  | None => Some (inl (o, t))
  | Some set => r ← buildSerializer t; Some ('(s, t) ← r; mret (set s, t))
  end.

Definition make_output (name : string) (t : table) : option (res (OP * RunningOutput.OutputConfig)) :=
  match Outputs_registry name with
  | None => Some (fails (EUndefined "output" name))
  | Some o =>
    r ← with_serializer o t;
    Some ('(o, t) ← r; '(conf, t) ← buildOutput name t; o ← toml_res (decode_output t o); mret (o, conf))
  end.

Definition addOutput (name : string) (t : table) : action := with_config (fun c =>
  if negb (is_nil (OutputFilters c)) && negb (sliceContains name (OutputFilters c)) then skip
  else of_res (make_output name t) (fun oc s =>
    '(ro, r) ← RunningOutput.NewRunningOutput oc.1 oc.2 (MetricBatchSize (Agent s.1)) (MetricBufferLimit (Agent s.1)) s.2;
    Some (None, (add_output ro s.1, r)))).

(** An input that parses gets its parser, or what creates one, first. *)
Definition with_parser (name : string) (i : IP) (t : table) : option (res (IP * table)) :=
  match SetParser i with
  | None => Some (inl (i, t))
  | Some set => r ← buildParser name t; Some ('(p, t) ← r; mret (set p, t))
  end.
Definition with_parser_func (name : string) (i : IP) (t : table) : res (IP * table) :=
  match SetParserFunc i with
  | None => mret (i, t)
  | Some set => '(c, t) ← getParserConfig name t; mret (set (fun _ => NewParser c), t)
  end.

Definition input_name (name : string) : string := if decide (name = "io") then "diskio" else name.

Definition make_input (name : string) (t : table) : option (res (IP * RunningInput.InputConfig)) :=
  match Inputs_registry name with
  | None => Some (fails (EUndefined "input" name))
  | Some i =>
    r ← with_parser name i t;
    Some ('(i, t) ← r; '(i, t) ← with_parser_func name i t;
      '(conf, t) ← buildInput name t; i ← toml_res (decode_input t i); mret (i, conf))
  end.

Definition addInput (name : string) (t : table) : action := with_config (fun c =>
  if negb (is_nil (InputFilters c)) && negb (sliceContains name (InputFilters c)) then skip
  else of_res (make_input (input_name name) t) (fun ic s =>
    let '(ri, r) := RunningInput.NewRunningInput ic.2 s.2 in
    Some (None, (add_input (ic.1, RunningInput.SetDefaultTags (CTags s.1) ri) s.1, r)))).

(** ** Files: [LoadConfig] *)

Definition getDefaultConfigPath : string + cerr :=
  let env k := default EmptyString (os_env k) in
  let envfile := env "TELEGRAF_CONFIG_PATH" in
  let homefile := env "HOME" +:+ "/.telegraf/telegraf.conf" in
  let etcfile := if os_windows then
      (if decide (env "ProgramFiles" = EmptyString) then "C:\Program Files" else env "ProgramFiles") +:+ "\Telegraf\telegraf.conf"
    else "/etc/telegraf/telegraf.conf" in
  match filter (fun p => os_stat p = true) [envfile; homefile; etcfile] with
  | p :: _ => inl p
  | [] => inr ENoFile
  end.

(** One of the tables of tags. *)
Definition load_tags (path : string) (tbl : table) (key : string) : action :=
  match tbl !! key with
  | None => skip
  | Some (NTable sub) => with_config (fun c =>
      let '(ts, e) := UnmarshalTags sub (CTags c) in
      andThen (modify (set_tags ts)) (match e with Some e => raise (EParsing path (EToml e)) | None => skip end))
  | Some _ => raise (EInvalid path)
  end.

Definition load_agent (path : string) (tbl : table) : action :=
  match tbl !! "agent" with
  | None => skip
  | Some (NTable sub) => with_config (fun c =>
      let '(a, e) := UnmarshalAgent sub (Agent c) in
      andThen (modify (set_agent a)) (match e with Some e => raise (EParsing path (EToml e)) | None => skip end))
  | Some _ => raise (EInvalid path)
  end.

Definition load_hostname : action := with_config (fun c =>
  if OmitHostname (Agent c) then skip
  else
    let tag_host := with_config (fun c => modify (set_tags (<["host" := Hostname (Agent c)]> (CTags c)))) in
    if decide (Hostname (Agent c) = EmptyString) then
      match os_hostname with
      | inr e => raise (EHostname e)
      | inl h => andThen (modify (set_agent (set_hostname h (Agent c)))) tag_host
      end
    else tag_host).

(** The tables of one plugin name. A single table is the legacy form, where [single] allows it. *)
Definition plugin_tables (single : bool) (path name : string) (n : node) : list table + cerr :=
  match n with
  | NTable t => if single then inl [t] else inr (EUnsupported name path)
  | NTables l => inl l
  | NKeyValue _ => inr (EUnsupported name path)
  end.

Definition load_plugins (single : bool) (add : string -> table -> action) (path : string) (sub : table) : action :=
  each (fun kv => match plugin_tables single path kv.1 kv.2 with
    | inr e => raise e
    | inl l => each (fun t => wrap_error (EParsing path) (add kv.1 t)) l
    end) (range_map sub).

Definition load_section (path : string) (kv : string * node) : action :=
  match kv.2 with
  | NTable sub =>
    if decide (kv.1 ∈ ["agent"; "global_tags"; "tags"]) then skip
    else if decide (kv.1 = "outputs") then load_plugins true addOutput path sub
    else if decide (kv.1 ∈ ["inputs"; "plugins"]) then load_plugins true addInput path sub
    else if decide (kv.1 = "processors") then load_plugins false addProcessor path sub
    else if decide (kv.1 = "aggregators") then load_plugins false addAggregator path sub
    else wrap_error (EParsing path) (addInput kv.1 sub)
  | _ => raise (EInvalid path)
  end.

Definition sort_processors : action := modify (fun c =>
  if (1 <? length (Processors c))%nat then set_processors (go_sort RunningProcessor.Less (Processors c)) c else c).

(** The tables of a file. *)
Definition load_table (path : string) (tbl : table) : action :=
  andThen (load_tags path tbl "tags") (andThen (load_tags path tbl "global_tags") (andThen (load_agent path tbl)
    (andThen load_hostname (andThen (each (load_section path) (range_map tbl)) sort_processors)))).

Definition LoadConfig (path : string) : action :=
  match (if decide (path = EmptyString) then getDefaultConfigPath else inl path) with
  | inr e => raise e
  | inl path =>
    match os_read path with
    | inr e => raise (ELoading path e)
    | inl data =>
      match toml_Parse (substitute os_env data) with
      | inr e => raise (EParsing path (EToml e))
      | inl tbl => load_table path tbl
      end
    end
  end.

(** ** Directories: [LoadDirectory] *)

(** What [filepath.Walk] finds: files, directories with their entries in lexical order unless they cannot be
    listed, and names that cannot be inspected. *)
Inductive fsnode :=
| FFile (name : string)
| FDir (name : string) (entries : option (list fsnode))
| FGone (name : string).

Definition base_name (n : fsnode) : string := match n with FFile s | FDir s _ | FGone s => s end.

Definition is_conf (name : string) : bool := (6 <=? String.length name)%nat && HasSuffix name ".conf".

(** The walk at a path, which is clean, so that joining a name to it adds a separator; directories whose name starts
    with two dots are left out. *)
Fixpoint walk (path : string) (n : fsnode) : action :=
  match n with
  | FGone _ => skip
  | FFile name => if is_conf name then LoadConfig path else skip
  | FDir name entries =>
    if HasPrefix name ".." then skip
    else match entries with
    | None => skip
    | Some l => (fix walk_all (l : list fsnode) : action :=
        match l with [] => skip | n :: l => andThen (walk (path +:+ "/" +:+ base_name n) n) (walk_all l) end) l
    end
  end.

Definition LoadDirectory (path : string) (n : fsnode) : action := walk path n.
End Load.
