(* ===== verification/LoadSpec.v ===== *)
(** * What loading a configuration does

    Properties of [Load]: environment variables, and which plugins a file gives. *)

From Stdlib Require Import Ascii.
From S2P Require Import Prelude Float64 Strconv Strings Parse Metric Tracking Selfstat Interfaces Buffer Filter Running Output Graphite Duration Config GraphiteOut Formats Load.

(** ** Environment variables *)

(** Every reference replaced by its variable's value, escaped for a TOML string, at once. *)
Fixpoint expand (fuel : nat) (env : string -> option string) (s : string) : string :=
  match fuel with
  | O => EmptyString
  | S fuel =>
    match reference s with
    | Some (_, var, rest) => default EmptyString (escapeEnv <$> env var) +:+ expand fuel env rest
    | None => match s with EmptyString => EmptyString | String c s' => String c (expand fuel env s') end
    end
  end.

(** Every dollar sign starts a reference to a variable that is set, to a value without dollar signs. *)
Fixpoint references_ok (fuel : nat) (env : string -> option string) (s : string) : bool :=
  match fuel with
  | O => true
  | S fuel =>
    match reference s with
    | Some (_, var, rest) => match env var with Some v => free_of dollar v && references_ok fuel env rest | None => false end
    | None => match s with EmptyString => true | String c s' => negb (bool_decide (c = dollar)) && references_ok fuel env s' end
    end
  end.

Lemma span_word_app s w r : span_word s = (w, r) -> s = w +:+ r.
Proof.
  revert w. induction s as [|c s IH]; intros w; cbn [span_word]; [by intros [= <- <-]|].
  destruct (is_word c); [|by intros [= <- <-]]. destruct (span_word s) as [w' r'] eqn:E. intros [= <- <-].
  by rewrite (IH w').
Qed.

Lemma span_word_head s c w r : span_word s = (String c w, r) -> is_word c = true.
Proof.
  destruct s as [|d s]; cbn [span_word]; [done|]. destruct (is_word d) eqn:E; [|done].
  destruct (span_word s). by intros [= <- <- <-].
Qed.

(** A reference starts with the dollar sign, and its variable does not. *)
Lemma reference_text s text var rest :
  reference s = Some (text, var, rest) ->
  s = text +:+ rest /\ (exists t, text = String dollar t) /\ strip_prefix (String dollar EmptyString) var = None.
Proof.
  unfold reference. destruct s as [|c s]; [done|]. destruct (decide (c = dollar)) as [->|]; [|done].
  assert (forall d w r s, span_word s = (String d w, r) -> strip_prefix (String dollar EmptyString) (String d w) = None) as Hv.
  { intros d w r s' E. apply span_word_head in E. cbn [strip_prefix]. destruct (decide (dollar = d)) as [<-|]; [by vm_compute in E|done]. }
  destruct (braced s) as [[[t1 v1] r1]|] eqn:Eb.
  - intros [= <- <- <-]. unfold braced in Eb. destruct s as [|b s]; [done|]. destruct (decide (b = "{"%char)) as [->|]; [|done].
    destruct (span_word s) as [[|d w] [|e r]] eqn:E; try done. destruct (decide (e = "}"%char)) as [->|]; [|done].
    injection Eb as <- <- <-. split; [|split; [by eexists|by eapply Hv]].
    rewrite (span_word_app _ _ _ E). change ("${" +:+ String d w +:+ "}") with (String dollar (String "{" (String d (w +:+ "}")))).
    change (String dollar (String "{" (String d (w +:+ String "}" r))) = String dollar (String "{" (String d ((w +:+ "}") +:+ r)))).
    by rewrite str_app_assoc.
  - unfold bare. destruct (span_word s) as [[|d w] r] eqn:E; [done|]. intros [= <- <- <-].
    split; [by rewrite (span_word_app _ _ _ E)|]. split; [by eexists|by eapply Hv].
Qed.

Lemma cut_at_free_text c t pre rest : free_of c pre = true -> cut_at (String c t) (pre +:+ String c t +:+ rest) = Some (pre, rest).
Proof.
  induction pre as [|d pre IH]; intros Hf.
  - change (EmptyString +:+ String c t +:+ rest) with (String c t +:+ rest).
    pose proof (proj2 (strip_prefix_Some (String c t) _ rest) eq_refl) as E. change (String c t +:+ rest) with (String c (t +:+ rest)) in *.
    unfold cut_at. fold cut_at. by rewrite E.
  - cbn [free_of] in Hf. apply andb_true_iff in Hf as [Hd Hf]. apply negb_true_iff, bool_decide_eq_false in Hd.
    change (String d pre +:+ String c t +:+ rest) with (String d (pre +:+ String c t +:+ rest)).
    unfold cut_at. fold cut_at. cbn [strip_prefix].
    rewrite decide_False by congruence. by rewrite IH.
Qed.

(** Escaping adds no dollar sign. *)
Lemma first_pair_free c ps s new rest :
  Forall (fun p => free_of c p.2 = true) ps -> first_pair ps s = Some (new, rest) -> free_of c s = true ->
  free_of c new = true /\ free_of c rest = true.
Proof.
  induction 1 as [|[old new'] ps Hp Hps IH]; cbn [first_pair]; [done|].
  destruct (strip_prefix old s) as [r|] eqn:E; [|exact IH]. intros [= <- <-] Hs. split; [done|].
  apply strip_prefix_Some in E. rewrite E, free_of_app in Hs. by apply andb_true_iff in Hs as [_ ?].
Qed.

Lemma replace_loop_free c ps fuel s :
  Forall (fun p => free_of c p.2 = true) ps -> free_of c s = true -> free_of c (replace_loop fuel ps s) = true.
Proof.
  intros Hps. revert s. induction fuel as [|fuel IH]; intros s Hs; [done|]. cbn [replace_loop].
  destruct s as [|d s]; [done|]. destruct (first_pair ps (String d s)) as [[new rest]|] eqn:E.
  - destruct (first_pair_free _ _ _ _ _ Hps E Hs) as [Hn Hr]. by rewrite free_of_app, Hn, IH.
  - cbn [free_of] in *. apply andb_true_iff in Hs as [-> Hs]. by rewrite IH.
Qed.

Lemma escapeEnv_free v : free_of dollar v = true -> free_of dollar (escapeEnv v) = true.
Proof. apply replace_loop_free. repeat constructor. Qed.

Lemma substitute_loop env fuel s pre :
  free_of dollar pre = true -> (String.length s <= fuel)%nat -> references_ok fuel env s = true ->
  foldl (replace_env env) (pre +:+ s) (find_all fuel s) = pre +:+ expand fuel env s.
Proof.
  revert s pre. induction fuel as [|fuel IH]; intros s pre Hp Hl Hok.
  { destruct s; [|simpl in Hl; lia]. done. }
  cbn [find_all expand references_ok] in *. destruct (reference s) as [[[text var] rest]|] eqn:E.
  - destruct (env var) as [v|] eqn:Ev; [|done]. apply andb_true_iff in Hok as [Hv Hok].
    destruct (reference_text _ _ _ _ E) as (Es & [t Et] & Hvar). cbn [foldl].
    unfold replace_env at 2. cbn [fst snd]. rewrite Hvar. cbn [default]. rewrite Ev. unfold Replace1.
    rewrite Es, Et, cut_at_free_text by done. cbn [fmap option_fmap option_map default].
    rewrite <- !str_app_assoc. apply IH; [|rewrite Es, Et in Hl; simpl in Hl; rewrite str_length_app in Hl; lia|done].
    rewrite free_of_app, Hp. by apply escapeEnv_free.
  - destruct s as [|c s]; [done|]. apply andb_true_iff in Hok as [Hc Hok]. cbn [foldl].
    assert (forall x, pre +:+ String c x = (pre +:+ String c EmptyString) +:+ x) as Hx by (intros x; by rewrite str_app_assoc).
    rewrite (Hx s), (Hx (expand _ _ _)). apply IH; [|simpl in Hl; lia|done].
    rewrite free_of_app, Hp. cbn [free_of]. by rewrite Hc.
Qed.

(** C20: environment variables are substituted as the documentation says, where that is unambiguous. If every dollar
    sign of a file starts a reference to a variable that is set, and no value contains a dollar sign, the text given to
    the TOML parser is the file, less its byte order mark, with each reference replaced by the escaped value of its own
    variable: the code's replacing of first occurrences, one reference after the other, is the simultaneous
    substitution. *)
Theorem Config_environment (env : string -> option string) (contents : string)
    (Hok : references_ok (String.length (trimBOM contents)) env (trimBOM contents) = true) :
  substitute env contents = expand (String.length (trimBOM contents)) env (trimBOM contents).
Proof. unfold substitute. by apply (substitute_loop env _ _ EmptyString). Qed.

Definition ex_env (k : string) : option string :=
  if decide (k = "HOST") then Some "web1" else if decide (k = "DIR") then Some "C:\x" else None.

Lemma Config_environment_witness :
  references_ok 31 ex_env "host = '${HOST}'   dir = '$DIR'" = true /\
  substitute ex_env "host = '${HOST}'   dir = '$DIR'" = "host = 'web1'   dir = 'C:\\x'".
Proof.
  split; [vm_compute; reflexivity|].
  rewrite (Config_environment ex_env "host = '${HOST}'   dir = '$DIR'") by (vm_compute; reflexivity).
  vm_compute. reflexivity.
Defined.

(** With a variable that is not set, the reference to one whose name it starts with is replaced in the wrong place. *)
Lemma environment_wrong_place : substitute ex_env "a = '$HOSTNAME' b = '$HOST'" = "a = 'web1NAME' b = '$HOST'".
Proof. vm_compute. reflexivity. Qed.

(** ** The plugins a file declares *)

Inductive decl := DInput (name : string) (t : table) | DOutput (name : string) (t : table)
| DProcessor (name : string) (t : table) | DAggregator (name : string) (t : table).

Definition tables_of (n : node) : list table := match n with NTable t => [t] | NTables l => l | NKeyValue _ => [] end.

Section Declarations.
Variable order : table -> list (string * node).

Definition plugin_decls (mk : string -> table -> decl) (sub : table) : list decl :=
  flat_map (fun kv => mk kv.1 <$> tables_of kv.2) (order sub).

Definition section_decls (kv : string * node) : list decl :=
  match kv.2 with
  | NTable sub =>
    if decide (kv.1 ∈ ["agent"; "global_tags"; "tags"]) then []
    else if decide (kv.1 = "outputs") then plugin_decls DOutput sub
    else if decide (kv.1 ∈ ["inputs"; "plugins"]) then plugin_decls DInput sub
    else if decide (kv.1 = "processors") then plugin_decls DProcessor sub
    else if decide (kv.1 = "aggregators") then plugin_decls DAggregator sub
    else [DInput kv.1 sub]
  | _ => []
  end.

Definition file_decls (tbl : table) : list decl := flat_map section_decls (order tbl).
End Declarations.

(** The declarations of a file; their order means nothing. *)
Definition declared (tbl : table) : list decl := file_decls map_to_list tbl.

Lemma flat_map_perm {A B} (f g : A -> list B) l1 l2 :
  l1 ≡ₚ l2 -> (forall x, f x ≡ₚ g x) -> flat_map f l1 ≡ₚ flat_map g l2.
Proof.
  intros Hp Hfg. transitivity (flat_map f l2); [by apply Permutation_flat_map|].
  clear Hp. induction l2 as [|x l IH]; [done|]. cbn [flat_map]. by rewrite Hfg, IH.
Qed.

Lemma declared_range `{MapRange} tbl : file_decls range_map tbl ≡ₚ declared tbl.
Proof.
  apply flat_map_perm; [apply range_map_perm|]. intros [k n]. unfold section_decls. cbn [fst snd].
  destruct n as [|sub|]; [done| |done].
  assert (forall mk, plugin_decls range_map mk sub ≡ₚ plugin_decls map_to_list mk sub) as Hp
    by (intros mk; apply flat_map_perm; [apply range_map_perm|done]).
  repeat (destruct (decide _); [done|]). done.
Qed.

Definition selected (filters : list string) (name : string) : bool := is_nil filters || sliceContains name filters.

Definition inputs_in (filters : list string) (ds : list decl) : list (string * table) :=
  omap (fun d => match d with DInput n t => if selected filters n then Some (input_name n, t) else None | _ => None end) ds.
Definition outputs_in (filters : list string) (ds : list decl) : list (string * table) :=
  omap (fun d => match d with DOutput n t => if selected filters n then Some (n, t) else None | _ => None end) ds.
Definition processors_in (ds : list decl) : list (string * table) :=
  omap (fun d => match d with DProcessor n t => Some (n, t) | _ => None end) ds.
Definition aggregators_in (ds : list decl) : list (string * table) :=
  omap (fun d => match d with DAggregator n t => Some (n, t) | _ => None end) ds.

Section Loading.
Context `{Glob} `{GoSort} `{MapRange} `{FloatConv} `{MathFuns} `{Toml} `{TomlFile} `{OS}.
Context {IP PP GP OP PR : Type} `{Parsers PR} `{!Plugins IP PP GP OP PR}.

Local Notation Config := (@Load.Config _ IP PP GP OP).
Local Notation st := (@Load.st _ IP PP GP OP).
Local Notation action := (@Load.action _ IP PP GP OP).

(** ** Actions that succeed *)

Definition runs (x : action) (s s' : st) : Prop := x s = Some (None, s').

Lemma runs_andThen x y s s' : runs (andThen x y) s s' <-> exists s1, runs x s s1 /\ runs y s1 s'.
Proof.
  unfold runs, andThen. destruct (x s) as [[[e|] s1]|]; binds; split.
  - done.
  - intros (s2 & [=] & _).
  - intros E. by exists s1.
  - by intros (s2 & [= <-] & E).
  - done.
  - by intros (s2 & [=] & _).
Qed.

Lemma runs_each_app {A} (f : A -> action) l1 l2 s s' :
  runs (each f (l1 ++ l2)) s s' <-> exists s1, runs (each f l1) s s1 /\ runs (each f l2) s1 s'.
Proof.
  revert s. induction l1 as [|a l1 IH]; intros s; cbn [each app].
  - unfold runs at 2, skip. split; [intros E; by exists s|by intros (s1 & [= <-] & E)].
  - rewrite runs_andThen. setoid_rewrite IH. setoid_rewrite runs_andThen. naive_solver.
Qed.

Lemma runs_wrap f x s s' : runs (wrap_error f x) s s' <-> runs x s s'.
Proof.
  unfold runs, wrap_error. destruct (x s) as [[[e|] s1]|]; binds; split; intros E; try done; by simplify_eq.
Qed.

Lemma runs_each_ext {A} (f g : A -> action) l s s' :
  (forall a s s', runs (f a) s s' <-> runs (g a) s s') -> runs (each f l) s s' <-> runs (each g l) s s'.
Proof.
  intros Hfg. revert s. induction l as [|a l IH]; intros s; cbn [each]; [done|].
  rewrite !runs_andThen. setoid_rewrite Hfg. by setoid_rewrite IH.
Qed.

Lemma runs_each_fmap {A B} (f : B -> action) (g : A -> B) l s s' :
  runs (each f (g <$> l)) s s' <-> runs (each (fun a => f (g a)) l) s s'.
Proof.
  revert s. induction l as [|a l IH]; intros s; cbn [each fmap list_fmap]; [done|].
  rewrite !runs_andThen. by setoid_rewrite IH.
Qed.

Definition add_decl (d : decl) : action :=
  match d with
  | DInput n t => addInput n t
  | DOutput n t => addOutput n t
  | DProcessor n t => addProcessor n t
  | DAggregator n t => addAggregator n t
  end.

Lemma load_plugins_runs single add mk path sub s s' :
  (forall n t, add_decl (mk n t) = add n t) -> runs (load_plugins single add path sub) s s' ->
  runs (each add_decl (plugin_decls range_map mk sub)) s s'.
Proof.
  intros Hmk. unfold load_plugins, plugin_decls. revert s. induction (range_map sub) as [|[k n] l IH]; intros s; [done|].
  cbn [each flat_map fst snd]. rewrite runs_andThen, runs_each_app. intros (s1 & R1 & R2). exists s1. split; [|by apply IH].
  assert (runs (each (fun t => wrap_error (EParsing path) (add k t)) (tables_of n)) s s1) as R3.
  { destruct n as [v|t|ts]; cbn [plugin_tables tables_of] in *; [done| |done]. by destruct single. }
  rewrite runs_each_fmap. eapply runs_each_ext; [|exact R3]. intros t s2 s3. by rewrite runs_wrap, Hmk.
Qed.

Lemma load_section_runs path kv s s' :
  runs (load_section path kv) s s' -> runs (each add_decl (section_decls range_map kv)) s s'.
Proof.
  unfold load_section, section_decls. destruct (kv.2) as [v|sub|ts]; [done| |done].
  destruct (decide _); [done|]. destruct (decide _); [by apply load_plugins_runs|].
  destruct (decide _); [by apply load_plugins_runs|]. destruct (decide _); [by apply load_plugins_runs|].
  destruct (decide _); [by apply load_plugins_runs|]. rewrite runs_wrap. cbn [each add_decl]. intros E.
  rewrite runs_andThen. by exists s'.
Qed.

Lemma load_sections_runs path l s s' :
  runs (each (load_section path) l) s s' -> runs (each add_decl (flat_map (section_decls range_map) l)) s s'.
Proof.
  revert s. induction l as [|kv l IH]; intros s; [done|]. cbn [each flat_map]. rewrite runs_andThen, runs_each_app.
  intros (s1 & R1 & R2). exists s1. split; [by apply load_section_runs in R1|by apply IH].
Qed.

(** ** What one declaration adds *)

Definition made_input (ts : gmap string string) (nt : string * table) (x : IP * RunningInput.RunningInput) : Prop :=
  exists i conf r, make_input nt.1 nt.2 = Some (inl (i, conf)) /\
    x = (i, RunningInput.SetDefaultTags ts (RunningInput.NewRunningInput conf r).1).
Definition made_output (a : AgentConfig) (nt : string * table) (x : RunningOutput.RunningOutput) : Prop :=
  exists o conf r r', make_output nt.1 nt.2 = Some (inl (o, conf)) /\
    RunningOutput.NewRunningOutput o conf (MetricBatchSize a) (MetricBufferLimit a) r = Some (x, r').
Definition made_processor (nt : string * table) (x : RunningProcessor.RunningProcessor) : Prop :=
  exists p conf r, make_processor nt.1 nt.2 = inl (p, conf) /\ x = (RunningProcessor.NewRunningProcessor p conf r).1.
Definition made_aggregator (nt : string * table) (x : RunningAggregator.RunningAggregator) : Prop :=
  exists g conf r, make_aggregator nt.1 nt.2 = inl (g, conf) /\ x = (RunningAggregator.NewRunningAggregator g conf r).1.

(** A list grows by what is made of tables, one for each, in order. *)
Definition grows {A B} (made : A -> B -> Prop) (ts : list A) (l l' : list B) : Prop := exists new, l' = l ++ new /\ Forall2 made ts new.

Lemma grows_nil {A B} (made : A -> B -> Prop) l : grows made [] l l.
Proof. exists []. by rewrite app_nil_r. Qed.
Lemma grows_one {A B} (made : A -> B -> Prop) a b l : made a b -> grows made [a] l (l ++ [b]).
Proof. intros Hm. exists [b]. split; [done|]. by repeat constructor. Qed.
Lemma grows_app {A B} (made : A -> B -> Prop) ts1 ts2 l1 l2 l3 :
  grows made ts1 l1 l2 -> grows made ts2 l2 l3 -> grows made (ts1 ++ ts2) l1 l3.
Proof.
  intros (n1 & -> & F1) (n2 & -> & F2). exists (n1 ++ n2). split; [by rewrite app_assoc|by apply Forall2_app].
Qed.

(** The plugins of [ds] are added to the configuration; nothing else of it changes. *)
Definition extends (ds : list decl) (c c' : Config) : Prop :=
  CTags c' = CTags c /\ InputFilters c' = InputFilters c /\ OutputFilters c' = OutputFilters c /\ Agent c' = Agent c /\
  grows (made_input (CTags c)) (inputs_in (InputFilters c) ds) (Inputs c) (Inputs c') /\
  grows (made_output (Agent c)) (outputs_in (OutputFilters c) ds) (Outputs c) (Outputs c') /\
  grows made_processor (processors_in ds) (Processors c) (Processors c') /\
  grows made_aggregator (aggregators_in ds) (Aggregators c) (Aggregators c').

Lemma extends_nil c : extends [] c c.
Proof. split_and!; try done; apply grows_nil. Qed.

Lemma extends_app ds1 ds2 c1 c2 c3 : extends ds1 c1 c2 -> extends ds2 c2 c3 -> extends (ds1 ++ ds2) c1 c3.
Proof.
  intros (T1 & F1 & G1 & A1 & I1 & O1 & P1 & Q1) (T2 & F2 & G2 & A2 & I2 & O2 & P2 & Q2).
  rewrite T1, F1 in I2. rewrite A1, G1 in O2. unfold extends, inputs_in, outputs_in, processors_in, aggregators_in.
  rewrite !omap_app. split_and!; try congruence; by eapply grows_app.
Qed.

Lemma runs_of_res {A} (x : option (res A)) k s s' :
  runs (of_res x k) s s' -> exists a, x = Some (inl a) /\ runs (k a) s s'.
Proof. unfold runs, of_res. destruct x as [[a|e]|]; binds; [|done|done]. intros E. by exists a. Qed.

Lemma not_selected fs n : negb (is_nil fs) && negb (sliceContains n fs) = negb (selected fs n).
Proof. unfold selected. by rewrite negb_orb. Qed.

Lemma add_decl_extends d c r c' r' : runs (add_decl d) (c, r) (c', r') -> extends [d] c c'.
Proof.
  destruct d as [n t|n t|n t|n t]; cbn [add_decl].
  - unfold addInput, runs, with_config. cbn [fst]. rewrite not_selected. destruct (selected _ n) eqn:Es; cbn [negb].
    + intros ([i conf] & Em & Er)%runs_of_res. unfold runs in Er. cbn [fst snd] in Er.
      destruct (RunningInput.NewRunningInput conf r) as [ri r1] eqn:Ei. simplify_eq.
      split_and!; try done; try apply grows_nil. unfold inputs_in. cbn [omap list_omap]. rewrite Es.
      apply grows_one. exists i, conf, r. by rewrite Ei.
    + intros [= <- <-]. split_and!; try done; try apply grows_nil. unfold inputs_in. cbn [omap list_omap]. rewrite Es. apply grows_nil.
  - unfold addOutput, runs, with_config. cbn [fst]. rewrite not_selected. destruct (selected _ n) eqn:Es; cbn [negb].
    + intros ([o conf] & Em & Er)%runs_of_res. unfold runs in Er. cbn [fst snd] in Er.
      destruct (RunningOutput.NewRunningOutput o conf _ _ r) as [[ro r1]|] eqn:Eo; [|done]. binds. cbn in Er. simplify_eq.
      split_and!; try done; try apply grows_nil. unfold outputs_in. cbn [omap list_omap]. rewrite Es.
      apply grows_one. exists o, conf, r, r'. done.
    + intros [= <- <-]. split_and!; try done; try apply grows_nil. unfold outputs_in. cbn [omap list_omap]. rewrite Es. apply grows_nil.
  - unfold addProcessor. intros ([p conf] & [= Em] & Er)%runs_of_res. unfold runs in Er. cbn [fst snd] in Er.
    destruct (RunningProcessor.NewRunningProcessor p conf r) as [rp r1] eqn:Ep. simplify_eq.
    split_and!; try done; try apply grows_nil. apply grows_one. exists p, conf, r. by rewrite Ep.
  - unfold addAggregator. intros ([g conf] & [= Em] & Er)%runs_of_res. unfold runs in Er. cbn [fst snd] in Er.
    destruct (RunningAggregator.NewRunningAggregator g conf r) as [ra r1] eqn:Eg. simplify_eq.
    split_and!; try done; try apply grows_nil. apply grows_one. exists g, conf, r. by rewrite Eg.
Qed.

Lemma add_decls_extend ds c r c' r' : runs (each add_decl ds) (c, r) (c', r') -> extends ds c c'.
Proof.
  revert c r. induction ds as [|d ds IH]; intros c r; cbn [each].
  - intros [= <- <-]. apply extends_nil.
  - rewrite runs_andThen. intros ([c1 r1] & R1 & R2). apply (extends_app [d] ds c c1 c'); [by eapply add_decl_extends|by eapply IH].
Qed.

(** ** The tags and the agent's settings *)

(** All inputs hold the global tags. *)
Definition shared (c : Config) : Prop := Forall (fun x => RunningInput.defaultTags x.2 = CTags c) (Inputs c).

(** Only the global tags and the agent's settings are new. *)
Definition heads (ts : gmap string string) (a : AgentConfig) (c c' : Config) : Prop :=
  c' = mkConfig ts (InputFilters c) (OutputFilters c) a (retag ts <$> Inputs c) (Outputs c) (Aggregators c) (Processors c).

Lemma retag_shared (c : Config) : shared c -> retag (CTags c) <$> Inputs c = Inputs c.
Proof.
  intros Hs. unfold shared in Hs. induction Hs as [|[i [conf l dt s1 s2]] l' Hx _ IH]; [done|]. cbn [fmap list_fmap].
  rewrite IH. f_equal. unfold retag, RunningInput.SetDefaultTags. simpl in *. by subst.
Qed.

Lemma retag_retag ts ts' (l : list (IP * RunningInput.RunningInput)) : retag ts' <$> (retag ts <$> l) = retag ts' <$> l.
Proof. rewrite <- list_fmap_compose. by apply list_fmap_ext. Qed.

Lemma heads_refl c : shared c -> heads (CTags c) (Agent c) c c.
Proof. intros Hs. unfold heads. rewrite retag_shared by done. by destruct c. Qed.

Lemma heads_set_tags ts ts' a c c' : heads ts a c c' -> heads ts' a c (set_tags ts' c').
Proof. intros ->. unfold heads, set_tags. cbn. by rewrite retag_retag. Qed.
Lemma heads_set_agent ts a a' c c' : heads ts a c c' -> heads ts a' c (set_agent a' c').
Proof. by intros ->. Qed.

Lemma heads_shared ts a c c' : heads ts a c c' -> shared c'.
Proof. intros ->. unfold shared. cbn. apply Forall_fmap. apply Forall_true. by intros []. Qed.

Definition file_tags (tbl : table) (key : string) (ts : gmap string string) : gmap string string :=
  match tbl !! key with Some (NTable sub) => (UnmarshalTags sub ts).1 | _ => ts end.
Definition file_agent (tbl : table) (a : AgentConfig) : AgentConfig :=
  match tbl !! "agent" with Some (NTable sub) => (UnmarshalAgent sub a).1 | _ => a end.
(** The host's name: as configured, or the system's. *)
Definition host_of (a : AgentConfig) : string + err := if decide (Hostname a = EmptyString) then os_hostname else inl (Hostname a).

Lemma load_tags_heads path tbl key ts a c c1 r s' :
  heads ts a c c1 -> runs (load_tags path tbl key) (c1, r) s' ->
  exists c2, s' = (c2, r) /\ heads (file_tags tbl key ts) a c c2.
Proof.
  intros Hh. unfold load_tags, file_tags. destruct (tbl !! key) as [[v|sub|l]|].
  - done.
  - assert (CTags c1 = ts) as <- by (by rewrite Hh). unfold runs, with_config. cbn [fst].
    destruct (UnmarshalTags sub (CTags c1)) as [ts' [e|]] eqn:E; unfold andThen, modify; binds; [done|].
    intros [= <-]. eexists. split; [done|]. cbn [fst snd]. by eapply heads_set_tags.
  - done.
  - intros [= <-]. by exists c1.
Qed.

Lemma load_agent_heads path tbl ts a c c1 r s' :
  heads ts a c c1 -> runs (load_agent path tbl) (c1, r) s' -> exists c2, s' = (c2, r) /\ heads ts (file_agent tbl a) c c2.
Proof.
  intros Hh. unfold load_agent, file_agent. destruct (tbl !! "agent") as [[v|sub|l]|].
  - done.
  - assert (Agent c1 = a) as <- by (by rewrite Hh). unfold runs, with_config. cbn [fst].
    destruct (UnmarshalAgent sub (Agent c1)) as [a' [e|]] eqn:E; unfold andThen, modify; binds; [done|].
    intros [= <-]. eexists. split; [done|]. cbn [fst snd]. by eapply heads_set_agent.
  - done.
  - intros [= <-]. by exists c1.
Qed.

(** What the tags and the settings are in the end. *)
Definition hosted (ts : gmap string string) (a : AgentConfig) (ts' : gmap string string) (a' : AgentConfig) : Prop :=
  if OmitHostname a then ts' = ts /\ a' = a
  else exists h, host_of a = inl h /\ ts' = <["host" := h]> ts /\ a' = set_hostname h a.

Lemma load_hostname_heads ts a c c1 r s' :
  heads ts a c c1 -> runs load_hostname (c1, r) s' ->
  exists c2 ts' a', s' = (c2, r) /\ heads ts' a' c c2 /\ hosted ts a ts' a'.
Proof.
  intros Hh. unfold load_hostname, hosted, host_of. assert (Agent c1 = a /\ CTags c1 = ts) as [Ea Et] by (by rewrite Hh).
  unfold runs, with_config. cbn [fst]. rewrite Ea. destruct (OmitHostname a) eqn:Eo.
  { intros [= <-]. by exists c1, ts, a. }
  destruct (decide (Hostname a = EmptyString)) as [E|E].
  - destruct os_hostname as [h|e]; [|done]. unfold andThen, modify. binds. cbn [fst snd]. intros [= <-].
    eexists _, _, _. split; [done|]. rewrite <- Ea.
    split; [eapply heads_set_tags, heads_set_agent; exact Hh|]. exists h. cbn. by rewrite Et.
  - unfold modify. cbn [fst snd]. intros [= <-]. eexists _, _, _. split; [done|].
    split; [eapply heads_set_tags; exact Hh|]. exists (Hostname a). rewrite Et, Ea. split_and!; [done|done|by destruct a].
Qed.

(** ** A whole file *)

Lemma StronglySorted_impl {A} (R S : A -> A -> Prop) l : (forall x y, R x y -> S x y) -> StronglySorted R l -> StronglySorted S l.
Proof. intros Hrs Hl. induction Hl as [|x l _ IH Hx]; constructor; [done|]. eapply Forall_impl; [exact Hx|]. by apply Hrs. Qed.

Lemma sort_processors_runs c r s' : runs sort_processors (c, r) s' ->
  exists l, s' = (set_processors l c, r) /\ l ≡ₚ Processors c /\
    StronglySorted (fun x y => RunningProcessor.Order (RunningProcessor.Config x) <= RunningProcessor.Order (RunningProcessor.Config y)) l.
Proof.
  unfold runs, sort_processors, modify. cbn [fst snd]. destruct (Nat.ltb_spec 1 (length (Processors c))) as [Hl|Hl]; intros [= <-].
  - eexists. split; [done|]. split; [apply go_sort_perm|].
    eapply StronglySorted_impl; [|apply go_sort_sorted]; unfold RunningProcessor.Less.
    + intros x y Hxy. by apply Z.ltb_ge in Hxy.
    + intros x y Hxy. apply Z.ltb_lt in Hxy. apply Z.ltb_ge. lia.
    + intros x y z Hxy Hyz. apply Z.ltb_ge in Hxy, Hyz. apply Z.ltb_ge. lia.
  - exists (Processors c). split; [by destruct c|]. split; [done|]. destruct (Processors c) as [|x [|y l]]; [constructor|by repeat constructor|].
    simpl in Hl. lia.
Qed.

(** C18: loading a file adds exactly the plugins it declares. If a file loads without an error, then each table
    it declares for a plugin, in whatever order the maps are ranged over, has been used once: an input or output
    that the filters select, a processor and an aggregator each became one plugin, made from its own table; the plugins
    that were there before are still there, and there are no others. Processors are ordered by their order options. The
    global tags are those of the file over those of before, with the host's name unless it is omitted, and every input,
    of this file or an earlier one, has them. *)
Theorem Config_loads (path : string) (tbl : table) (c : Config) (r : Registry) (c' : Config) (r' : Registry)
    (Hs : shared c) (Hload : load_table path tbl (c, r) = Some (None, (c', r'))) :
  exists ds, ds ≡ₚ declared tbl /\
    hosted (file_tags tbl "global_tags" (file_tags tbl "tags" (CTags c))) (file_agent tbl (Agent c)) (CTags c') (Agent c') /\
    grows (made_input (CTags c')) (inputs_in (InputFilters c) ds) (retag (CTags c') <$> Inputs c) (Inputs c') /\ shared c' /\
    grows (made_output (Agent c')) (outputs_in (OutputFilters c) ds) (Outputs c) (Outputs c') /\
    grows made_aggregator (aggregators_in ds) (Aggregators c) (Aggregators c') /\
    (exists l, grows made_processor (processors_in ds) (Processors c) l /\ Processors c' ≡ₚ l) /\
    StronglySorted (fun x y => RunningProcessor.Order (RunningProcessor.Config x) <= RunningProcessor.Order (RunningProcessor.Config y)) (Processors c').
Proof.
  unfold load_table in Hload. change (runs (andThen (load_tags path tbl "tags") (andThen (load_tags path tbl "global_tags")
    (andThen (load_agent path tbl) (andThen load_hostname (andThen (each (load_section path) (range_map tbl)) sort_processors))))) (c, r) (c', r')) in Hload.
  repeat setoid_rewrite runs_andThen in Hload. destruct Hload as (s1 & R1 & s2 & R2 & s3 & R3 & s4 & R4 & [c5 r5] & R5 & R6).
  destruct (load_tags_heads _ _ _ _ _ _ _ _ _ (heads_refl c Hs) R1) as (c1 & -> & D1).
  destruct (load_tags_heads _ _ _ _ _ _ _ _ _ D1 R2) as (c2 & -> & D2).
  destruct (load_agent_heads _ _ _ _ _ _ _ _ D2 R3) as (c3 & -> & D3).
  destruct (load_hostname_heads _ _ _ _ _ _ D3 R4) as (c4 & ts & a & -> & D4 & Hh).
  destruct (add_decls_extend _ _ _ _ _ (load_sections_runs _ _ _ _ R5)) as (E1 & E2 & E3 & E4 & E5 & E6 & E7 & E8).
  destruct (sort_processors_runs _ _ _ R6) as (l & [= -> <-] & Hp & Hsort).
  pose proof (heads_shared _ _ _ _ D4) as Hs4.
  unfold heads in D4. subst c4. cbn in E1, E2, E3, E4, E5, E6, E7, E8. cbn. rewrite E1, E4.
  exists (flat_map (section_decls range_map) (range_map tbl)). split; [apply declared_range|]. split_and!; try done.
  - destruct E5 as (new & EI & F2). unfold shared in *. cbn. rewrite EI, E1. apply Forall_app. split; [exact Hs4|].
    apply Forall_forall. intros x Hx. apply list_elem_of_lookup in Hx as [j Hx].
    destruct (Forall2_lookup_r _ _ _ _ _ F2 Hx) as (nt & _ & i & conf & r0 & _ & ->). done.
  - by exists (Processors c5).
Qed.

(** ** A file is refused only for a reason *)

(** The tables of tags and of the agent can be decoded. *)
Definition decodes (tbl : table) : Prop :=
  (forall key, key ∈ ["tags"; "global_tags"] ->
    match tbl !! key with None => True | Some (NTable sub) => forall ts, (UnmarshalTags sub ts).2 = None | Some _ => False end) /\
  match tbl !! "agent" with None => True | Some (NTable sub) => forall a, (UnmarshalAgent sub a).2 = None | Some _ => False end.

(** Sections are tables, and plugins in them tables or lists of tables; only inputs and outputs may be single tables. *)
Definition plugin_shape (single : bool) (n : node) : Prop := match n with NKeyValue _ => False | NTable _ => single = true | NTables _ => True end.
Definition shaped (tbl : table) : Prop := forall k n, tbl !! k = Some n ->
  exists sub, n = NTable sub /\ forall pk pn, sub !! pk = Some pn ->
    (k ∈ ["outputs"; "inputs"; "plugins"] -> plugin_shape true pn) /\ (k ∈ ["processors"; "aggregators"] -> plugin_shape false pn).

(** The plugin exists, its options are right and it decodes. *)
Definition makes (fi fo : list string) (limit : Z) (d : decl) : Prop :=
  match d with
  | DInput n t => selected fi n = true -> exists x, make_input (input_name n) t = Some (inl x)
  | DOutput n t => selected fo n = true -> exists o conf, make_output n t = Some (inl (o, conf)) /\
      (0 < RunningOutput.CMetricBufferLimit conf \/ 0 <= limit)
  | DProcessor n t => exists x, make_processor n t = inl x
  | DAggregator n t => exists x, make_aggregator n t = inl x
  end.

Lemma NewBuffer_ok {A} nm alias cap r : 0 <= cap -> is_Some (Buf.NewBuffer (A:=A) nm alias cap r).
Proof.
  intros Hc. unfold Buf.NewBuffer. rewrite (proj2 (Z.ltb_ge cap 0)) by lia. repeat (destruct (Register _ _ _ _)). by eexists.
Qed.

Lemma NewRunningOutput_ok (o : OP) conf batch limit r :
  0 < RunningOutput.CMetricBufferLimit conf \/ 0 <= limit -> is_Some (RunningOutput.NewRunningOutput o conf batch limit r).
Proof.
  intros Hl. unfold RunningOutput.NewRunningOutput. destruct (Register _ _ _ _) as [s0 r0].
  set (l1 := if 0 <? _ then _ else limit). set (l2 := if l1 =? 0 then _ else l1).
  assert (0 <= l2) as Hl2.
  { unfold l2, DEFAULT_METRIC_BUFFER_LIMIT. destruct (Z.eqb_spec l1 0); [lia|]. unfold l1. destruct (Z.ltb_spec 0 (RunningOutput.CMetricBufferLimit conf)); lia. }
  destruct (NewBuffer_ok (A:=tmetric) (RunningOutput.Name conf) (RunningOutput.Alias conf) l2 r0 Hl2) as [[b r1] ->]. binds.
  destruct (Register _ _ _ r1). destruct (RegisterTiming _ _ _ _). by eexists.
Qed.

Lemma add_decl_runs d c r :
  makes (InputFilters c) (OutputFilters c) (MetricBufferLimit (Agent c)) d -> exists s', runs (add_decl d) (c, r) s'.
Proof.
  destruct d as [n t|n t|n t|n t]; cbn [add_decl makes]; intros Hm.
  - unfold addInput, runs, with_config. cbn [fst]. rewrite not_selected. destruct (selected _ n); cbn [negb]; [|by eexists].
    destruct (Hm eq_refl) as [[i conf] ->]. unfold of_res. binds. cbn [fst snd].
    destruct (RunningInput.NewRunningInput conf r). by eexists.
  - unfold addOutput, runs, with_config. cbn [fst]. rewrite not_selected. destruct (selected _ n); cbn [negb]; [|by eexists].
    destruct (Hm eq_refl) as (o & conf & -> & Hl). unfold of_res. binds. cbn [fst snd].
    destruct (NewRunningOutput_ok o conf (MetricBatchSize (Agent c)) (MetricBufferLimit (Agent c)) r Hl) as [[ro r1] ->].
    by eexists.
  - destruct Hm as [[p conf] Em]. unfold addProcessor, runs, of_res. rewrite Em. binds. cbn [fst snd].
    destruct (RunningProcessor.NewRunningProcessor p conf r). by eexists.
  - destruct Hm as [[g conf] Em]. unfold addAggregator, runs, of_res. rewrite Em. binds. cbn [fst snd].
    destruct (RunningAggregator.NewRunningAggregator g conf r). by eexists.
Qed.

Lemma add_decls_run ds c r :
  Forall (makes (InputFilters c) (OutputFilters c) (MetricBufferLimit (Agent c))) ds -> exists s', runs (each add_decl ds) (c, r) s'.
Proof.
  revert c r. induction ds as [|d ds IH]; intros c r Hd; cbn [each]; [by eexists|]. apply Forall_cons in Hd as [Hd Hds].
  destruct (add_decl_runs d c r Hd) as [[c1 r1] R1]. destruct (add_decl_extends _ _ _ _ _ R1) as (_ & E2 & E3 & E4 & _).
  destruct (IH c1 r1) as [s' R2]; [by rewrite E2, E3, E4|]. exists s'. rewrite runs_andThen. by eexists.
Qed.

Lemma plugins_run single add mk path sub s s' :
  (forall n t, add_decl (mk n t) = add n t) -> (forall k n, sub !! k = Some n -> plugin_shape single n) ->
  runs (each add_decl (plugin_decls range_map mk sub)) s s' -> runs (load_plugins single add path sub) s s'.
Proof.
  intros Hmk Hsh. unfold load_plugins, plugin_decls.
  assert (Forall (fun kn => plugin_shape single kn.2) (range_map sub)) as Hf.
  { apply Forall_forall. intros [k n] Hin. apply range_map_elem in Hin. by eapply Hsh. }
  revert s. induction Hf as [|[k n] l Hn _ IH]; intros s; [done|]. cbn [each flat_map fst snd] in *.
  rewrite runs_andThen, runs_each_app. intros (s1 & R1 & R2). exists s1. split; [|by apply IH].
  rewrite runs_each_fmap in R1.
  assert (runs (each (fun t => wrap_error (EParsing path) (add k t)) (tables_of n)) s s1) as R3.
  { eapply runs_each_ext; [|exact R1]. intros t s2 s3. by rewrite runs_wrap, Hmk. }
  destruct n as [v|t|ts]; cbn [plugin_shape plugin_tables tables_of] in *; [done|by subst single|done].
Qed.

Lemma sections_run path tbl l s s' :
  shaped tbl -> (forall k n, (k, n) ∈ l -> tbl !! k = Some n) ->
  runs (each add_decl (flat_map (section_decls range_map) l)) s s' -> runs (each (load_section path) l) s s'.
Proof.
  intros Hsh. revert s. induction l as [|[k n] l IH]; intros s Hl; [done|]. cbn [each flat_map].
  rewrite runs_andThen, runs_each_app. intros (s1 & R1 & R2). exists s1.
  split; [|by apply IH; [intros ? ? ?; apply Hl; right|]].
  destruct (Hsh k n (Hl k n ltac:(left))) as (sub & -> & Hp).
  unfold load_section, section_decls in *. cbn [fst snd] in *.
  destruct (decide _); [done|]. destruct (decide (k = "outputs")) as [->|].
  { eapply plugins_run; [|intros pk pn Hpn; apply (Hp pk pn Hpn); by_computing|exact R1]. done. }
  destruct (decide _) as [Hin|]. { eapply plugins_run; [|intros pk pn Hpn; apply (Hp pk pn Hpn); by right|exact R1]. done. }
  destruct (decide (k = "processors")) as [->|].
  { eapply plugins_run; [|intros pk pn Hpn; apply (Hp pk pn Hpn); by_computing|exact R1]. done. }
  destruct (decide (k = "aggregators")) as [->|].
  { eapply plugins_run; [|intros pk pn Hpn; apply (Hp pk pn Hpn); by_computing|exact R1]. done. }
  rewrite runs_wrap. cbn [each add_decl] in R1. rewrite runs_andThen in R1. destruct R1 as (s2 & R1 & [= <-]). done.
Qed.

Lemma load_tags_run path tbl key c r : decodes tbl -> key ∈ ["tags"; "global_tags"] -> exists c', runs (load_tags path tbl key) (c, r) (c', r).
Proof.
  intros [Hd _] Hk. specialize (Hd key Hk). unfold load_tags. destruct (tbl !! key) as [[v|sub|l]|]; [done| |done|by exists c].
  specialize (Hd (CTags c)). unfold runs, with_config. cbn [fst]. destruct (UnmarshalTags sub (CTags c)) as [ts e]. cbn in Hd. subst e.
  unfold andThen, modify. binds. by eexists.
Qed.

Lemma load_agent_run path tbl c r : decodes tbl -> exists c', runs (load_agent path tbl) (c, r) (c', r).
Proof.
  intros [_ Hd]. unfold load_agent. destruct (tbl !! "agent") as [[v|sub|l]|]; [done| |done|by exists c].
  specialize (Hd (Agent c)). unfold runs, with_config. cbn [fst]. destruct (UnmarshalAgent sub (Agent c)) as [a e]. cbn in Hd. subst e.
  unfold andThen, modify. binds. by eexists.
Qed.

Lemma load_hostname_run (c : Config) r :
  (OmitHostname (Agent c) = true \/ exists h, host_of (Agent c) = inl h) -> exists c', runs load_hostname (c, r) (c', r).
Proof.
  intros Hh. unfold load_hostname, runs, with_config. cbn [fst]. destruct (OmitHostname (Agent c)); [by exists c|].
  destruct Hh as [[=]|[h Hh]]. unfold host_of in Hh. destruct (decide (Hostname (Agent c) = EmptyString)).
  - rewrite Hh. unfold andThen, modify. binds. by eexists.
  - by eexists.
Qed.

(** C19: a file that is right is loaded. If the tables of tags and of the agent can be decoded, the host's name
    is known or omitted, the sections have the right shape, and every plugin declared and selected exists, has valid
    options, decodes, and has a buffer of a size that is not negative, then loading the file returns no error and
    does not panic. *)
Theorem Config_load_complete (path : string) (tbl : table) (c : Config) (r : Registry)
    (Hs : shared c) (Hd : decodes tbl) (Hsh : shaped tbl)
    (Hh : OmitHostname (file_agent tbl (Agent c)) = true \/ exists h, host_of (file_agent tbl (Agent c)) = inl h)
    (Hm : Forall (makes (InputFilters c) (OutputFilters c) (MetricBufferLimit (file_agent tbl (Agent c)))) (declared tbl)) :
  exists s', load_table path tbl (c, r) = Some (None, s').
Proof.
  destruct (load_tags_run path tbl "tags" c r Hd ltac:(by_computing)) as [c1 R1].
  destruct (load_tags_heads _ _ _ _ _ _ _ _ _ (heads_refl c Hs) R1) as (? & [= <-] & D1).
  destruct (load_tags_run path tbl "global_tags" c1 r Hd ltac:(by_computing)) as [c2 R2].
  destruct (load_tags_heads _ _ _ _ _ _ _ _ _ D1 R2) as (? & [= <-] & D2).
  destruct (load_agent_run path tbl c2 r Hd) as [c3 R3].
  destruct (load_agent_heads _ _ _ _ _ _ _ _ D2 R3) as (? & [= <-] & D3).
  assert (Agent c3 = file_agent tbl (Agent c)) as Ea by (by rewrite D3).
  destruct (load_hostname_run c3 r) as [c4 R4]; [by rewrite Ea|].
  destruct (load_hostname_heads _ _ _ _ _ _ D3 R4) as (? & ts & a & [= <-] & D4 & Ho).
  assert (MetricBufferLimit a = MetricBufferLimit (file_agent tbl (Agent c))) as El.
  { unfold hosted in Ho. destruct (OmitHostname _); [by destruct Ho as [_ ->]|by destruct Ho as (h & _ & _ & ->)]. }
  destruct (add_decls_run (file_decls range_map tbl) c4 r) as [s5 R5].
  { rewrite declared_range. rewrite D4. cbn [InputFilters OutputFilters Agent]. by rewrite El. }
  apply (sections_run path tbl) in R5; [|done|by intros k n Hin; apply range_map_elem in Hin].
  assert (exists s6, runs sort_processors s5 s6) as [s6 R6] by (by eexists).
  exists s6. change (runs (load_table path tbl) (c, r) s6). unfold load_table. rewrite !runs_andThen. eexists. split; [exact R1|].
  rewrite runs_andThen. eexists. split; [exact R2|]. rewrite runs_andThen. eexists. split; [exact R3|].
  rewrite runs_andThen. eexists. split; [exact R4|]. rewrite runs_andThen. by eexists.
Qed.

(** ** Directories *)

(** The files of a directory that are loaded: names of six characters or more that end in [.conf], outside of
    directories whose names start with two dots. *)
Fixpoint conf_files (path : string) (n : fsnode) : list string :=
  match n with
  | FGone _ => []
  | FFile name => if is_conf name then [path] else []
  | FDir name entries =>
    if HasPrefix name ".." then [] else
    match entries with
    | None => []
    | Some l => flat_map (fun n => conf_files (path +:+ "/" +:+ base_name n) n) l
    end
  end.

Lemma fsnode_ind' (Q : fsnode -> Prop) :
  (forall s, Q (FFile s)) -> (forall s, Q (FGone s)) -> (forall s, Q (FDir s None)) ->
  (forall s l, Forall Q l -> Q (FDir s (Some l))) -> forall n, Q n.
Proof.
  intros Hf Hg Hn Hd. fix IH 1. intros [s|s [l|]|s]; [apply Hf| |apply Hn|apply Hg].
  apply Hd. induction l as [|n l IHl]; constructor; [apply IH|exact IHl].
Qed.

Lemma each_app {A} (f : A -> action) l1 l2 s : each f (l1 ++ l2) s = andThen (each f l1) (each f l2) s.
Proof.
  revert s. induction l1 as [|a l1 IH]; intros s; cbn [each app]; [done|]. unfold andThen at 1 2 3.
  destruct (f a s) as [[[e|] s1]|]; binds; [done| |done]. rewrite IH. done.
Qed.

(** Loading a directory is loading its files one after the other, until one fails. *)
Lemma LoadDirectory_files n path s : LoadDirectory path n s = each LoadConfig (conf_files path n) s.
Proof.
  unfold LoadDirectory. revert path s. induction n as [nm|nm|nm|nm l IH] using fsnode_ind'; intros path s; cbn [walk conf_files].
  - destruct (is_conf nm); [|done]. cbn [each]. unfold andThen, skip. by destruct (LoadConfig path s) as [[[e|] s1]|].
  - done.
  - by destruct (HasPrefix nm "..").
  - destruct (HasPrefix nm ".."); [done|]. revert s. induction IH as [|n l Hn _ IHl]; intros s; [done|]. cbn [flat_map].
    rewrite each_app. unfold andThen. rewrite Hn. destruct (each LoadConfig _ s) as [[[e|] s1]|]; binds; [done| |done].
    apply IHl.
Qed.

(** A new configuration has no inputs yet. *)
Lemma shared_new : shared NewConfig.
Proof. constructor. Qed.
End Loading.

(** ** A concrete file *)

#[local] Existing Instance alt_glob.
#[local] Existing Instance insertion_go_sort.
#[local] Existing Instance map_range_default.
#[local] Existing Instance ex_conv.
#[local] Existing Instance ex_toml.
#[local] Instance ex_math : MathFuns := {| Log10 x := x; Pow x y := y |}.
#[local] Instance ex_toml_file : TomlFile := {| toml_Parse s := inr s; UnmarshalAgent t a := (a, None) |}.
#[local] Instance ex_os : OS :=
  {| os_env := ex_env; os_windows := false; os_stat p := true; os_hostname := inl "web1"; os_read p := inr p |}.
#[local] Instance ex_parsers : Parsers unit := {|
  new_json _ _ _ _ _ _ _ _ _ _ := inl tt; new_value _ _ _ := tt; new_influx := tt; new_nagios := tt; of_graphite _ := tt;
  new_collectd _ _ _ _ := inl tt; new_dropwizard _ _ _ _ _ _ _ _ := inl tt; new_wavefront _ := tt; new_grok _ _ _ _ _ _ _ := inl tt;
  new_csv _ _ _ _ _ _ _ _ _ _ _ _ _ _ := tt; new_logfmt _ _ := tt; new_form_urlencoded _ _ _ := tt |}.
(** Plugins that keep the table they are decoded from. *)
#[local] Instance ex_plugins : Plugins table table table table unit := {|
  Inputs_registry _ := Some ∅; Processors_registry _ := Some ∅; Aggregators_registry _ := Some ∅; Outputs_registry _ := Some ∅;
  SetParser _ := None; SetParserFunc _ := None; SetSerializer _ := None;
  decode_input t _ := inl t; decode_processor t _ := inl t; decode_aggregator t _ := inl t; decode_output t _ := inl t |}.

Definition ex_table : table :=
  {["global_tags" := NTable {["dc" := NKeyValue (TString "eu")]};
    "inputs" := NTable {["cpu" := NTable ex_options]};
    "processors" := NTable {["rename" := NTables [{["order" := NKeyValue (TInteger "2")]}; {["order" := NKeyValue (TInteger "1")]}]]};
    "outputs" := NTable {["file" := NTables [{["namepass" := NKeyValue (TArray [TString "cpu"]); "metric_buffer_limit" := NKeyValue (TInteger "4")]}]]}]}.

Definition ex_outcome (x : option (option cerr * @st _ table table table table)) :=
  match x with
  | Some (None, (c, _)) => Some (InputNames c, OutputNames c, ProcessorNames c,
      RunningProcessor.Order ∘ RunningProcessor.Config <$> Processors c, ListTags c)
  | _ => None
  end.

Lemma ex_table_outcome :
  ex_outcome (load_table "f" ex_table (NewConfig, ∅)) = Some (["cpu"], ["file"], ["rename"; "rename"], [1; 2], "dc=eu host=web1").
Proof. vm_compute. reflexivity. Qed.

Lemma ex_table_loads : exists c' r', load_table "f" ex_table (@NewConfig _ table table table table, ∅) = Some (None, (c', r')).
Proof.
  pose proof ex_table_outcome as E. unfold ex_outcome in E. destruct (load_table _ _ _) as [[[e|] [c' r']]|]; [done| |done].
  by exists c', r'.
Qed.

Lemma Config_loads_witness :
  exists c' r' ds, load_table "f" ex_table (@NewConfig _ table table table table, ∅) = Some (None, (c', r')) /\
    ds ≡ₚ declared ex_table /\ CTags c' = {["dc" := "eu"; "host" := "web1"]}.
Proof.
  destruct ex_table_loads as (c' & r' & E).
  destruct (Config_loads "f" ex_table NewConfig ∅ c' r' shared_new E) as (ds & Hds & Hh & _).
  exists c', r', ds. split; [exact E|]. split; [exact Hds|].
  unfold hosted in Hh. assert (OmitHostname (file_agent ex_table (Agent (@NewConfig _ table table table table))) = false) as Eo by reflexivity.
  rewrite Eo in Hh. destruct Hh as (h & Hh & Et & _). vm_compute in Hh. injection Hh as <-. rewrite Et. vm_compute. reflexivity.
Defined.

Definition ex_small : table := {["inputs" := NTable {["cpu" := NTable ex_options]}]}.

Lemma Config_load_complete_witness : exists s', load_table "f" ex_small (@NewConfig _ table table table table, ∅) = Some (None, s').
Proof.
  apply (Config_load_complete "f" ex_small NewConfig ∅).
  - exact shared_new.
  - split; [|exact I]. intros key Hk. apply elem_of_cons in Hk as [->|Hk]; [exact I|]. apply list_elem_of_singleton in Hk as ->. exact I.
  - unfold ex_small. intros k n Hk. apply lookup_singleton_Some in Hk as [<- <-]. eexists. split; [reflexivity|]. intros pk pn Hp.
    apply lookup_singleton_Some in Hp as [<- <-]. split; [done|]. intros Hin. exfalso. revert Hin. by_computing.
  - right. by exists "web1".
  - change (declared ex_small) with [DInput "cpu" ex_options]. constructor; [|constructor]. intros _.
    assert (match make_input (input_name "cpu") ex_options with Some (inl _) => true | _ => false end = true) as E by (vm_compute; reflexivity).
    destruct (make_input (input_name "cpu") ex_options) as [[x|e]|]; [by exists x|done|done].
Defined.
