(* ===== verification/Digits.v ===== *)
(** * Digits

    Facts about decimal texts that the formats share: how many digits a number has, and what [ParseFloat] does with
    them. *)

From Stdlib Require Import Ascii.
From S2P Require Import Prelude Float64 Strconv Strings Parse.

(** A property of all characters, by computation. *)
Definition all_ascii (P : ascii -> bool) : bool := forallb P (ascii_of_nat <$> seq 0 256).
Lemma all_ascii_spec P : all_ascii P = true -> forall c, P c = true.
Proof.
  intros Ha c. rewrite <- (ascii_nat_embedding c). unfold all_ascii in Ha. rewrite forallb_forall in Ha. apply Ha.
  rewrite <- list_elem_of_In. apply list_elem_of_fmap. exists (nat_of_ascii c). split; [done|]. apply elem_of_seq.
  pose proof (nat_ascii_bounded c). lia.
Qed.

Lemma digit_char_spec c : 0 <= byte_of c - 48 <= 9 -> is_digit c = true /\ lower c <> 120 /\ Z.of_N (N_of_ascii c) = code c.
Proof.
  intros Hd. pose proof (all_ascii_spec (fun c => implb ((0 <=? byte_of c - 48) && (byte_of c - 48 <=? 9)) (is_digit c && negb (lower c =? 120)))
    ltac:(vm_compute; reflexivity) c) as Ha. cbn beta in Ha. rewrite (proj2 (Z.leb_le 0 _)), (proj2 (Z.leb_le _ 9)) in Ha by lia.
  cbn [andb implb] in Ha. apply andb_true_iff in Ha as [H1 H2]. by apply negb_true_iff, Z.eqb_neq in H2.
Qed.

(** Reading one digit of a number. *)
Lemma read_digits_cons c s acc v :
  read_digits (String c s) acc = Some v -> 0 <= byte_of c - 48 <= 9 /\ read_digits s (acc * 10 + (byte_of c - 48)) = Some v.
Proof.
  cbn [read_digits]. change (Z.of_N (N_of_ascii c)) with (byte_of c). destruct (Z.leb_spec 0 (byte_of c - 48)); [|done].
  destruct (Z.leb_spec (byte_of c - 48) 9); [|done]. cbn [andb]. intros ?. split; [lia|done].
Qed.

Notation len s := (Z.of_nat (String.length s)).
Lemma len_cons c s : 10 ^ len (String c s) = 10 * 10 ^ len s.
Proof. cbn [String.length]. rewrite Nat2Z.inj_succ, Z.pow_succ_r by lia. done. Qed.

Lemma read_digits_bound s acc v : read_digits s acc = Some v -> acc * 10 ^ len s <= v < (acc + 1) * 10 ^ len s.
Proof.
  revert acc. induction s as [|c s IH]; intros acc Hv; [injection Hv as ->; simpl; lia|]. apply read_digits_cons in Hv as [Hc Hv]. apply IH in Hv.
  rewrite len_cons. pose proof (Z.pow_pos_nonneg 10 (len s)). nia.
Qed.
Lemma read_digits_shift s acc v b : read_digits s acc = Some v -> read_digits s (acc + b) = Some (v + b * 10 ^ len s).
Proof.
  revert acc b. induction s as [|c s IH]; intros acc b Hv; [injection Hv as ->; cbn; f_equal; lia|]. apply read_digits_cons in Hv as [Hc Hv].
  cbn [read_digits]. change (Z.of_N (N_of_ascii c)) with (byte_of c). rewrite (proj2 (Z.leb_le 0 _)), (proj2 (Z.leb_le _ 9)) by lia. cbn [andb].
  replace ((acc + b) * 10 + (byte_of c - 48)) with (acc * 10 + (byte_of c - 48) + b * 10) by lia. rewrite (IH _ (b * 10) Hv). f_equal.
  rewrite len_cons. lia.
Qed.

(** The number of digits of a number. *)
Lemma FormatUint_length n k : 0 < k -> 10 ^ (k - 1) <= n < 10 ^ k -> len (FormatUint n) = k.
Proof.
  intros Hk Hn. pose proof (Z.pow_pos_nonneg 10 (k - 1)).
  assert (n < 10 ^ len (FormatUint n)) as Hu.
  { pose proof (read_digits_bound _ _ _ (FormatUint_read n ltac:(lia))). lia. }
  destruct (FormatUint_first n ltac:(lia)) as (d & s & Hd & E). pose proof (FormatUint_read n ltac:(lia)) as Hr. rewrite E in *.
  rewrite read_digit in Hr by lia. apply read_digits_bound in Hr. pose proof (Z.pow_pos_nonneg 10 (len s)).
  assert (10 ^ len s <= n) as Hl by nia. assert (len (String (digit_char d) s) = len s + 1) as El by (cbn [String.length]; lia). rewrite El in *.
  pose proof (Z.pow_lt_mono_r_iff 10 (len s) k ltac:(lia) ltac:(lia)). pose proof (Z.pow_lt_mono_r_iff 10 (k - 1) (len s + 1) ltac:(lia) ltac:(lia)).
  assert (10 ^ len s < 10 ^ k) by lia. assert (10 ^ (k - 1) < 10 ^ (len s + 1)) by lia. intuition lia.
Qed.
Lemma FormatUint_short n k : 0 < k -> 0 <= n < 10 ^ k -> len (FormatUint n) <= k.
Proof.
  intros Hk Hn. destruct (decide (n = 0)) as [->|]; [change (len (FormatUint 0)) with 1; lia|].
  destruct (FormatUint_first n ltac:(lia)) as (d & s & Hd & E). pose proof (FormatUint_read n ltac:(lia)) as Hr. rewrite E in *.
  rewrite read_digit in Hr by lia. apply read_digits_bound in Hr. pose proof (Z.pow_pos_nonneg 10 (len s)).
  assert (10 ^ len s < 10 ^ k) as Hl by nia. apply (Z.pow_lt_mono_r_iff 10) in Hl; [|lia|lia]. cbn [String.length]. lia.
Qed.

Lemma mantissa_digits t r : forall sawdot sawdigits u mant frac v,
  read_digits t mant = Some v ->
  mantissa_loop 10 (t +:+ r) sawdot sawdigits u mant frac =
  mantissa_loop 10 r sawdot (sawdigits || negb (bool_decide (t = EmptyString))) u v (frac + if sawdot then len t else 0).
Proof.
  induction t as [|c t IH]; intros sawdot sawdigits u mant frac v Hv.
  - injection Hv as ->. rewrite bool_decide_eq_true_2 by done. rewrite orb_false_r. change (EmptyString +:+ r) with r. f_equal. destruct sawdot; cbn; lia.
  - apply read_digits_cons in Hv as [Hc Hv]. change (String c t +:+ r) with (String c (t +:+ r)). cbn [mantissa_loop].
    assert (code c = byte_of c) as Ec by done. destruct (digit_char_spec c Hc) as [-> _].
    rewrite (proj2 (Z.eqb_neq (code c) 95)), (proj2 (Z.eqb_neq (code c) 46)) by lia. cbn [andb]. rewrite (IH sawdot true u _ _ v) by done.
    rewrite (bool_decide_eq_false_2 (String c t = EmptyString)) by done. rewrite orb_true_r. cbn [orb]. f_equal.
    destruct sawdot; [cbn [String.length]; lia|lia].
Qed.

Lemma fold_head c d s t : is_digit c = true -> is_digit d = false -> fold_eq (String c s) (String d t) = false.
Proof.
  unfold is_digit, Parse.between. intros Hc Hd. apply andb_true_iff in Hc as [H1 H2]. apply Z.leb_le in H1, H2. cbn [fold_eq].
  apply andb_false_iff. left. apply Z.eqb_neq. unfold Parse.between.
  destruct (Z.leb_spec 65 (code c)); [lia|]. cbn [andb]. destruct (Z.leb_spec 65 (code d)); [destruct (code d <=? 90); cbn; lia|]. cbn [andb].
  destruct (Z.leb_spec 48 (code d)); [|lia]. destruct (Z.leb_spec (code d) 57); [done|]. lia.
Qed.

Lemma special_digit c s : is_digit c = true -> special (String c s) = None /\ special (String "-" (String c s)) = None.
Proof.
  intros Hc. unfold special. split; [by rewrite !fold_head|].
  assert (forall t, is_digit "i" = false -> fold_eq (String "-" (String c s)) (String "-" (String "i" t)) = false) as Hf.
  { intros t Hi. change (fold_eq (String "-" (String c s)) (String "-" (String "i" t))) with (fold_eq (String c s) (String "i" t)). by apply fold_head. }
  rewrite !Hf by done. done.
Qed.

Lemma not_hex c s : is_digit c = true -> (forall d t, s = String d t -> lower d <> 120) ->
  match String c s with
  | String z (String b (String _ _ as s2)) => if (code z =? 48) && (lower b =? 120) then (true, s2) else (false, String c s)
  | _ => (false, String c s) end = (false, String c s).
Proof.
  intros Hc Hs. destruct s as [|d [|e t]]; [done|done|]. rewrite (proj2 (Z.eqb_neq (lower d) 120)) by (by eapply Hs). by rewrite andb_false_r.
Qed.

