(* ===== verification/Wavefront.v ===== *)
(** * The Wavefront parser

    [plugins/parsers/wavefront/]: the scanner ([token.go], [scanner.go]), the parser with its two tokens of push-back
    and the elements of a line ([element.go], [parser.go]). Parsers come from a pool and keep their push-back buffer
    from line to line; the state is passed on. The clock is an argument.

    Loops have as much fuel as there are tokens; the loop over the tags, which the code writes without a condition,
    returns [None] when it has no fuel left, and is proved never to. *)

From Stdlib Require Import Ascii.
From S2P Require Import Prelude Float64 Strconv Strings Parse Metric.

(** ** Tokens *)

Inductive Token := ILLEGAL | EOF | WS | LETTER | NUMBER | MINUS_SIGN | UNDERSCORE | DOT | SLASH | BACKSLASH | COMMA | DELTA
| QUOTES | EQUALS | NEWLINE.
#[export] Instance Token_eq_dec : EqDecision Token.
Proof. solve_decision. Defined.

Definition isWhitespace (r : Z) : bool := (r =? 32) || (r =? 9) || (r =? 10).
Definition isLetter (r : Z) : bool := Strings.between 97 122 r || Strings.between 65 90 r.
Definition isNumber (r : Z) : bool := Strings.between 48 57 r.
Definition isDelta (r : Z) : bool := (r =? 8710) || (r =? 916).

(** [tok > literal_beg && tok < literal_end]. *)
Definition is_literal (t : Token) : bool :=
  match t with LETTER | NUMBER | MINUS_SIGN | UNDERSCORE | DOT | SLASH | BACKSLASH | COMMA | DELTA => true | _ => false end.

(** [string(ch)] of a rune that was read: bytes that are no UTF-8 are read as the error rune. *)
Definition rune_text (rb : Z * string) : string :=
  if rb.1 =? RuneError then String "239" (String "191" (String "189" EmptyString)) else rb.2.

(** [Scan] of a rune that was read. The rune 0 is taken for the end of the text. *)
Definition Scan (rb : Z * string) : Token * string :=
  let r := rb.1 in
  let lit := rune_text rb in
  if isWhitespace r then (WS, lit)
  else if isLetter r then (LETTER, lit)
  else if isNumber r then (NUMBER, lit)
  else if isDelta r then (DELTA, lit)
  else if r =? 0 then (EOF, EmptyString)
  else if r =? 10 then (NEWLINE, lit)
  else if r =? 46 then (DOT, lit)
  else if r =? 45 then (MINUS_SIGN, lit)
  else if r =? 95 then (UNDERSCORE, lit)
  else if r =? 47 then (SLASH, lit)
  else if r =? 92 then (BACKSLASH, lit)
  else if r =? 44 then (COMMA, lit)
  else if r =? 34 then (QUOTES, lit)
  else if r =? 61 then (EQUALS, lit)
  else (ILLEGAL, lit).

(** ** The push-back buffer *)

Notation tok := (Token * string)%type (only parsing).

Record PointParser := mkPP {
  input : list (Z * string);
  tok0 : tok;
  tok1 : tok;
  unscanned : nat;
}.

Definition NewPointParser : PointParser := mkPP [] (ILLEGAL, EmptyString) (ILLEGAL, EmptyString) 0.

(** [p.buf.tok[idx]] with [idx := n % 2]. *)
Definition buffered (p : PointParser) (n : nat) : tok := if Nat.even n then tok0 p else tok1 p.

(** [buffer]: shift the two last tokens. *)
Definition buffer (t : tok) (rest : list (Z * string)) (p : PointParser) : PointParser := mkPP rest (tok1 p) t (unscanned p).

Definition scan (p : PointParser) : tok * PointParser :=
  match unscanned p with
  | S k => (buffered p (S k), mkPP (input p) (tok0 p) (tok1 p) k)
  | O =>
    match input p with
    | [] => let t := (EOF, EmptyString) in (t, buffer t [] p)
    | rb :: rest => let t := Scan rb in (t, buffer t rest p)
    end
  end.

Definition unscanTokens (n : nat) (p : PointParser) : PointParser := mkPP (input p) (tok0 p) (tok1 p) (unscanned p + n).
Definition unscan (p : PointParser) : PointParser := unscanTokens 1 p.

Definition reset (buf : string) (p : PointParser) : PointParser := mkPP (runes buf) (tok0 p) (tok1 p) 0.

(** ** Literals *)

Inductive WErr := ErrEOF | ErrInvalidTimestamp | ErrNumber | ErrValue (v : string) | ErrQuotes | ErrLiteral | ErrDelta | ErrQuoteInside
| ErrEquals (lit : string) | ErrInt (e : ParseErr).

Definition pending (p : PointParser) : nat := (length (input p) + unscanned p)%nat.

(** [for tok != EOF && P tok { writeBuf.WriteString(lit); tok, lit = p.scan() }]. *)
Fixpoint scan_while (fuel : nat) (P : Token -> bool) (t : tok) (buf : string) (p : PointParser) : string * tok * PointParser :=
  match fuel with
  | O => (buf, t, p)
  | S fuel =>
    if negb (bool_decide (t.1 = EOF)) && P t.1 then let '(t', p) := scan p in scan_while fuel P t' (buf +:+ t.2) p
    else (buf, t, p)
  end.

Fixpoint quoted_loop (fuel : nat) (escaped : bool) (t : tok) (buf : string) (p : PointParser) : string * tok * PointParser :=
  match fuel with
  | O => (buf, t, p)
  | S fuel =>
    if negb (bool_decide (t.1 = EOF)) && (negb (bool_decide (t.1 = QUOTES)) || escaped) then
      let '(t', p) := scan p in quoted_loop fuel (bool_decide (t.1 = BACKSLASH)) t' (buf +:+ t.2) p
    else (buf, t, p)
  end.

Definition parseQuotedLiteral (p : PointParser) : (string + WErr) * PointParser :=
  let '(t, p) := scan p in
  let '(buf, t, p) := quoted_loop (S (pending p)) false t EmptyString p in
  if decide (t.1 = EOF) then (inr ErrQuotes, p) else (inl buf, p).

Fixpoint literal_loop (fuel : nat) (t : tok) (buf : string) (p : PointParser) : (string * tok + WErr) * PointParser :=
  match fuel with
  | O => (inl (buf, t), p)
  | S fuel =>
    if negb (bool_decide (t.1 = EOF)) && is_literal t.1 then
      let '(t', p) := scan p in
      if decide (t'.1 = DELTA) then (inr ErrDelta, p) else literal_loop fuel t' (buf +:+ t.2) p
    else (inl (buf, t), p)
  end.

Definition parseLiteral (p : PointParser) : (string + WErr) * PointParser :=
  let '(t, p) := scan p in
  if decide (t.1 = EOF) then (inr ErrLiteral, p)
  else if decide (t.1 = QUOTES) then parseQuotedLiteral p
  else match literal_loop (S (pending p)) t EmptyString p with
  | (inr e, p) => (inr e, p)
  | (inl (buf, t), p) => if decide (t.1 = QUOTES) then (inr ErrQuoteInside, p) else (inl buf, unscan p)
  end.

(** ** The elements of a line *)

Record Point := mkPoint { pt_Name : string; pt_Value : string; pt_Timestamp : Z; pt_Tags : gmap string string }.
Definition empty_point : Point := mkPoint EmptyString EmptyString 0 ∅.
Definition set_name (s : string) (pt : Point) : Point := mkPoint s (pt_Value pt) (pt_Timestamp pt) (pt_Tags pt).
Definition set_value (s : string) (pt : Point) : Point := mkPoint (pt_Name pt) s (pt_Timestamp pt) (pt_Tags pt).
Definition set_time (t : Z) (pt : Point) : Point := mkPoint (pt_Name pt) (pt_Value pt) t (pt_Tags pt).
Definition set_tag (k v : string) (pt : Point) : Point := mkPoint (pt_Name pt) (pt_Value pt) (pt_Timestamp pt) (<[k := v]> (pt_Tags pt)).

(** The point, or the error, and the parser. *)
Definition outcome : Type := (Point + WErr) * PointParser.

Definition NameParser (p : PointParser) (pt : Point) : outcome :=
  match parseLiteral p with (inl s, p) => (inl (set_name s pt), p) | (inr e, p) => (inr e, p) end.

Definition value_token (t : Token) : bool := match t with LETTER | NUMBER | DOT | MINUS_SIGN => true | _ => false end.

Definition ValueParser (p : PointParser) (pt : Point) : outcome :=
  let '(t, p) := scan p in
  if decide (t.1 = EOF) then (inr ErrNumber, p)
  else
    let '(buf, t, p) := if decide (t.1 = MINUS_SIGN) then let '(t', p) := scan p in (t.2, t', p) else (EmptyString, t, p) in
    let '(buf, _, p) := scan_while (S (pending p)) value_token t buf p in
    let p := unscan p in
    match ParseFloat buf with
    | Some _ => (inl (set_value buf pt), p)
    | None => (inr (ErrValue buf), p)
    end.

Definition setTimestamp (now : Z) (ts : Z) (numDigits : nat) (pt : Point) : Point + WErr :=
  if (numDigits =? 19)%nat then inl (set_time (Z.quot ts 1000000000) pt)
  else if (numDigits =? 16)%nat then inl (set_time (Z.quot ts 1000000) pt)
  else if (numDigits =? 13)%nat then inl (set_time (Z.quot ts 1000) pt)
  else if negb (numDigits =? 10)%nat then
    if ts =? 0 then inl (set_time (Z.quot now 1000000000) pt) else inr ErrInvalidTimestamp
  else inl (set_time ts pt).

(** The timestamp, which is optional; [now] is the clock in nanoseconds. *)
Definition TimestampParser (now : Z) (p : PointParser) (pt : Point) : outcome :=
  let '(t, p) := scan p in
  if decide (t.1 = NUMBER) then
    let '(buf, _, p) := scan_while (S (pending p)) (fun t => bool_decide (t = NUMBER)) t EmptyString p in
    let p := unscan p in
    match ParseInt10 buf with
    | inr e => (inr (ErrInt e), p)
    | inl ts => (setTimestamp now ts (String.length buf) pt, p)
    end
  else (setTimestamp now 0 1 pt, unscanTokens 2 p).

(** Spaces, up to the next token. The result is whether the text ended. *)
Definition spaces (p : PointParser) : bool * PointParser :=
  let '(_, t, p) := scan_while (S (S (pending p))) (fun t => bool_decide (t = WS)) (WS, EmptyString) EmptyString p in
  if decide (t.1 = EOF) then (true, p) else (false, unscan p).
Definition WhiteSpaceParser (nextOptional : bool) (p : PointParser) (pt : Point) : outcome :=
  let '(eof, p) := spaces p in
  if eof && negb nextOptional then (inr ErrEOF, p) else (inl pt, p).

(** An error in a key comes with an empty key, and is dropped. *)
Definition TagParser (p : PointParser) (pt : Point) : outcome :=
  match parseLiteral p with
  | (inr _, p) => (inl pt, p)
  | (inl k, p) =>
    let '(t, p) := scan p in
    if decide (t.1 = EQUALS) then
      match parseLiteral p with
      | (inr e, p) => (inr e, p)
      | (inl v, p) => (inl (set_tag k v pt), p)
      end
    else (inr (ErrEquals t.2), p)
  end.

(** The loop over the tags: until the text ends, or an error. *)
Fixpoint LoopedParser (fuel : nat) (p : PointParser) (pt : Point) : option outcome :=
  match fuel with
  | O => None
  | S fuel =>
    match TagParser p pt with
    | (inr e, p) => Some (inr e, p)
    | (inl pt, p) => let '(eof, p) := spaces p in if eof then Some (inl pt, p) else LoopedParser fuel p pt
    end
  end.

(** What is left to read, with weights for which the loop makes progress: a token that ends the text counts one,
    others two. *)
Definition weight (t : tok) : nat := if decide (t.1 = EOF) then 1 else 2.
Fixpoint buffered_weight (p : PointParser) (n : nat) : nat :=
  match n with O => 0 | S k => weight (buffered p (S k)) + buffered_weight p k end.
Definition measure (p : PointParser) : nat := (2 * length (input p) + buffered_weight p (unscanned p))%nat.

Definition andThen (x : outcome) (f : PointParser -> Point -> option outcome) : option outcome :=
  match x with (inr e, p) => Some (inr e, p) | (inl pt, p) => f p pt end.

(** The elements, in order. *)
Definition parse_elements (now : Z) (p : PointParser) : option outcome :=
  andThen (NameParser p empty_point) (fun p pt =>
  andThen (WhiteSpaceParser false p pt) (fun p pt =>
  andThen (ValueParser p pt) (fun p pt =>
  andThen (WhiteSpaceParser true p pt) (fun p pt =>
  andThen (TimestampParser now p pt) (fun p pt =>
  andThen (WhiteSpaceParser true p pt) (fun p pt => LoopedParser (S (measure p)) p pt)))))).

(** ** Texts *)

(** The lines of a text, each with its newline. *)
Definition nl : ascii := "010".
Fixpoint lines_of (s : string) : list string :=
  match s with
  | EmptyString => []
  | String c s' =>
    if decide (c = nl) then String nl EmptyString :: lines_of s'
    else match lines_of s' with [] => [String c EmptyString] | l :: ls => String c l :: ls end
  end.

(** The points of lines; the clock is read once for each line. *)
Fixpoint parse_points (clock : nat -> Z) (ls : list string) (p : PointParser) : option ((list Point + WErr) * PointParser) :=
  match ls with
  | [] => Some (inl [], p)
  | l :: ls =>
    x ← parse_elements (clock (length ls)) (reset l p);
    match x with
    | (inr e, p) => Some (inr e, p)
    | (inl pt, p) =>
      y ← parse_points clock ls p;
      Some (match y with (inl pts, p) => (inl (pt :: pts), p) | (inr e, p) => (inr e, p) end)
    end
  end.

Section Parse.
Context `{MapRange}.

(** [convertPointToTelegrafMetric], for a value that was read: default tags replace the tags of the point. *)
Definition convert_point (defaultTags : gmap string string) (pt : Point) : metric + WErr :=
  match ParseFloat (pt_Value pt) with
  | None => inr (ErrValue (pt_Value pt))
  | Some v => inl (Metric.New (pt_Name pt) (defaultTags ∪ pt_Tags pt) {["value" := GoScalar (SFloat64 v)]} (pt_Timestamp pt * 1000000000) [])
  end.

Fixpoint convertPointToTelegrafMetric (defaultTags : gmap string string) (pts : list Point) : list metric + WErr :=
  match pts with
  | [] => inl []
  | pt :: pts =>
    match convert_point defaultTags pt with
    | inr e => inr e
    | inl m => match convertPointToTelegrafMetric defaultTags pts with inl ms => inl (m :: ms) | inr e => inr e end
    end
  end.

Definition prepare (buf : string) : string :=
  let buf := default buf (strip_prefix (String nl EmptyString) buf) in
  if decide (buf = EmptyString) then buf
  else if HasSuffix buf (String nl EmptyString) then buf else buf +:+ String nl EmptyString.

(** [Parse]: [None] does not return. *)
Definition Parse (clock : nat -> Z) (defaultTags : gmap string string) (buf : string) (p : PointParser) :
    option ((list metric + WErr) * PointParser) :=
  x ← parse_points clock (lines_of (prepare buf)) p;
  Some (match x with
    | (inr e, p) => (inr e, p)
    | (inl pts, p) => (convertPointToTelegrafMetric defaultTags pts, p)
    end).

Definition ParseLine (clock : nat -> Z) (defaultTags : gmap string string) (line : string) (p : PointParser) :
    option ((option metric + WErr) * PointParser) :=
  x ← Parse clock defaultTags line p;
  Some (match x with (inr e, p) => (inr e, p) | (inl ms, p) => (inl (head ms), p) end).
End Parse.

(** ** Push-back *)

(** [t] is the token that was scanned last. *)
Definition last (t : tok) (p : PointParser) : Prop := buffered p (S (unscanned p)) = t.

Lemma scan_last p t p' : scan p = (t, p') -> last t p'.
Proof.
  unfold scan, last. destruct p as [inp t0 t1 n]. cbn [unscanned input]. destruct n as [|k].
  - destruct inp as [|rb rest]; intros [= <- <-]; done.
  - intros [= <- <-]. done.
Qed.

Lemma weight_pos t : (1 <= weight t <= 2)%nat.
Proof. unfold weight. case_decide; lia. Qed.

Lemma buffered_weight_scan p n inp k : buffered_weight (mkPP inp (tok0 p) (tok1 p) k) n = buffered_weight p n.
Proof. induction n as [|n IH]; [done|]. cbn [buffered_weight]. by rewrite IH. Qed.

(** Scanning uses up what is left, or there is nothing left. *)
Lemma scan_measure p t p' :
  scan p = (t, p') -> (measure p = 0 /\ measure p' = 0 /\ t.1 = EOF)%nat \/ (weight t + measure p' <= measure p)%nat.
Proof.
  unfold scan, measure. destruct p as [inp t0 t1 n]. cbn [unscanned input]. destruct n as [|k].
  - destruct inp as [|rb rest]; intros [= <- <-]; [by left|]. right. cbn. pose proof (weight_pos (Scan rb)). lia.
  - intros [= <- <-]. right. cbn [input unscanned buffered_weight].
    rewrite <- (buffered_weight_scan (mkPP inp t0 t1 (S k)) k inp k). cbn [tok0 tok1]. lia.
Qed.

Lemma scan_measure_some p t p' : scan p = (t, p') -> t.1 <> EOF -> (2 + measure p' <= measure p)%nat.
Proof.
  intros E Ht. destruct (scan_measure _ _ _ E) as [(_ & _ & ?)|Hm]; [done|]. unfold weight in Hm. rewrite decide_False in Hm by done. lia.
Qed.

Lemma scan_measure_le p t p' : scan p = (t, p') -> (measure p' <= measure p)%nat.
Proof. intros E. destruct (scan_measure _ _ _ E) as [|]; lia. Qed.

(** Pushing the last token back puts it in front again. *)
Lemma unscan_measure t p : last t p -> measure (unscan p) = (weight t + measure p)%nat.
Proof.
  unfold last, measure, unscan, unscanTokens. intros E. cbn [input unscanned]. rewrite Nat.add_1_r. cbn [buffered_weight].
  rewrite buffered_weight_scan. destruct p as [inp t0 t1 n]. cbn in *. rewrite <- E. unfold buffered. cbn [tok0 tok1]. lia.
Qed.

(** ** The loops end by their conditions *)

Lemma scan_pending p t p' : scan p = (t, p') -> pending p' = pred (pending p) /\ (pending p = 0%nat -> t.1 = EOF).
Proof.
  unfold scan, pending. destruct p as [inp t0 t1 n]. cbn [unscanned input]. destruct n as [|k].
  - destruct inp as [|rb rest]; intros [= <- <-]; cbn; [done|]. split; [lia|lia].
  - intros [= <- <-]. cbn. split; [lia|lia].
Qed.

Definition goes_on (P : Token -> bool) (t : tok) : bool := negb (bool_decide (t.1 = EOF)) && P t.1.

Lemma scan_while_done fuel P t buf p buf' t' p' :
  (pending p < fuel)%nat -> scan_while fuel P t buf p = (buf', t', p') -> goes_on P t' = false.
Proof.
  revert t buf p. induction fuel as [|fuel IH]; intros t buf p Hf; [lia|]. cbn [scan_while]. fold (goes_on P t).
  destruct (goes_on P t) eqn:E; [|by intros [= <- <- <-]]. destruct (scan p) as [t1 p1] eqn:Es.
  destruct (scan_pending _ _ _ Es) as [Hp He]. intros El. destruct (decide (pending p = 0%nat)) as [Hz|Hz].
  - assert (goes_on P t1 = false) as Hg by (unfold goes_on; by rewrite He).
    destruct fuel; cbn [scan_while] in El; [by injection El as <- <- <-|]. fold (goes_on P t1) in El. rewrite Hg in El. by injection El as <- <- <-.
  - eapply IH; [|exact El]. lia.
Qed.

Lemma literal_loop_done fuel t buf p buf' t' p' :
  (pending p < fuel)%nat -> literal_loop fuel t buf p = (inl (buf', t'), p') -> goes_on is_literal t' = false.
Proof.
  revert t buf p. induction fuel as [|fuel IH]; intros t buf p Hf; [lia|]. cbn [literal_loop]. fold (goes_on is_literal t).
  destruct (goes_on is_literal t) eqn:E; [|by intros [= <- <- <-]]. destruct (scan p) as [t1 p1] eqn:Es.
  destruct (scan_pending _ _ _ Es) as [Hp He]. destruct (decide (t1.1 = DELTA)); [done|]. intros El. destruct (decide (pending p = 0%nat)) as [Hz|Hz].
  - assert (goes_on is_literal t1 = false) as Hg by (unfold goes_on; by rewrite He).
    destruct fuel; cbn [literal_loop] in El; [by injection El as <- <- <-|]. fold (goes_on is_literal t1) in El. rewrite Hg in El. by injection El as <- <- <-.
  - eapply IH; [|exact El]. lia.
Qed.

Lemma literal_loop_error fuel t buf p e p' : literal_loop fuel t buf p = (inr e, p') -> e = ErrDelta.
Proof.
  revert t buf p. induction fuel as [|fuel IH]; intros t buf p; [done|]. cbn [literal_loop]. destruct (negb _ && _); [|done].
  destruct (scan p) as [t1 p1]. destruct (decide _); [by intros [= <- <-]|]. by apply IH.
Qed.

Lemma quoted_loop_done fuel esc t buf p buf' t' p' :
  (pending p < fuel)%nat -> quoted_loop fuel esc t buf p = (buf', t', p') -> t'.1 = EOF \/ t'.1 = QUOTES.
Proof.
  revert esc t buf p. induction fuel as [|fuel IH]; intros esc t buf p Hf; [lia|]. cbn [quoted_loop].
  destruct (negb _ && _) eqn:E.
  2:{ intros [= <- <- <-]. destruct (decide (t.1 = EOF)); [by left|]. right. destruct (decide (t.1 = QUOTES)); [done|].
      rewrite !bool_decide_eq_false_2 in E by done. done. }
  destruct (scan p) as [t1 p1] eqn:Es. destruct (scan_pending _ _ _ Es) as [Hp He]. intros El.
  destruct (decide (pending p = 0%nat)) as [Hz|Hz].
  - specialize (He Hz). destruct fuel; cbn [quoted_loop] in El; [by injection El as <- <- <-; left|].
    rewrite bool_decide_eq_true_2 in El by done. by injection El as <- <- <-; left.
  - eapply IH; [|exact El]. lia.
Qed.

(** ** Progress *)

Lemma scan_while_progress fuel P t buf p buf' t' p' :
  last t p -> scan_while fuel P t buf p = (buf', t', p') ->
  last t' p' /\ (weight t' + measure p' <= weight t + measure p)%nat.
Proof.
  revert t buf p. induction fuel as [|fuel IH]; intros t buf p Hl; cbn [scan_while]; [by intros [= <- <- <-]|].
  destruct (negb (bool_decide (t.1 = EOF)) && P t.1) eqn:E; [|by intros [= <- <- <-]]. destruct (scan p) as [t1 p1] eqn:Es. intros El.
  destruct (IH t1 _ p1 (scan_last _ _ _ Es) El) as [Hl' Hm]. split; [done|].
  assert (weight t = 2%nat) as Hw.
  { unfold weight. rewrite decide_False; [done|]. intros Ht. by rewrite bool_decide_eq_true_2 in E. }
  pose proof (weight_pos t1). destruct (scan_measure _ _ _ Es) as [(? & ? & ?)|]; lia.
Qed.

Lemma literal_loop_progress fuel t buf p r p' :
  last t p -> literal_loop fuel t buf p = (r, p') ->
  match r with
  | inl (_, t') => last t' p' /\ (weight t' + measure p' <= weight t + measure p)%nat
  | inr _ => (2 + measure p' <= weight t + measure p)%nat
  end.
Proof.
  revert t buf p. induction fuel as [|fuel IH]; intros t buf p Hl; cbn [literal_loop]; [by intros [= <- <-]|].
  destruct (negb (bool_decide (t.1 = EOF)) && is_literal t.1) eqn:E; [|by intros [= <- <-]]. destruct (scan p) as [t1 p1] eqn:Es.
  assert (weight t = 2%nat) as Hw.
  { unfold weight. rewrite decide_False; [done|]. intros Ht. by rewrite bool_decide_eq_true_2 in E. }
  pose proof (scan_measure_le _ _ _ Es) as Hle. destruct (decide (t1.1 = DELTA)); [intros [= <- <-]; lia|]. intros El.
  pose proof (IH t1 _ p1 (scan_last _ _ _ Es) El) as Hm. pose proof (weight_pos t1).
  assert (weight t1 + measure p1 <= weight t + measure p)%nat by (destruct (scan_measure _ _ _ Es) as [(? & ? & ?)|]; lia).
  destruct r as [[b t']|e]; [|lia]. destruct Hm. split; [done|lia].
Qed.

Lemma quoted_loop_progress fuel esc t buf p buf' t' p' :
  quoted_loop fuel esc t buf p = (buf', t', p') -> (measure p' <= measure p)%nat.
Proof.
  revert esc t buf p. induction fuel as [|fuel IH]; intros esc t buf p; cbn [quoted_loop]; [by intros [= <- <- <-]|].
  destruct (negb _ && _); [|by intros [= <- <- <-]]. destruct (scan p) as [t1 p1] eqn:Es. intros El.
  pose proof (scan_measure_le _ _ _ Es). apply IH in El. lia.
Qed.

(** A literal does not add to what is left; an error uses something up, unless there was nothing. *)
Lemma parseLiteral_progress p r p' :
  parseLiteral p = (r, p') ->
  match r with
  | inl _ => (measure p' <= measure p)%nat
  | inr _ => (measure p' < measure p)%nat \/ (measure p = 0 /\ measure p' = 0)%nat
  end.
Proof.
  unfold parseLiteral. destruct (scan p) as [t p1] eqn:Es. destruct (decide (t.1 = EOF)) as [He|He].
  { intros [= <- <-]. destruct (scan_measure _ _ _ Es) as [(? & ? & ?)|]; [by right|]. left. pose proof (weight_pos t). lia. }
  pose proof (scan_measure_some _ _ _ Es He) as Hm. destruct (decide (t.1 = QUOTES)).
  - unfold parseQuotedLiteral. destruct (scan p1) as [t2 p2] eqn:Es2. destruct (quoted_loop _ _ _ _ _) as [[buf t3] p3] eqn:El.
    pose proof (scan_measure_le _ _ _ Es2). apply quoted_loop_progress in El.
    destruct (decide (t3.1 = EOF)); intros [= <- <-]; lia.
  - destruct (literal_loop _ _ _ _) as [r1 p2] eqn:El. apply literal_loop_progress in El; [|by eapply scan_last].
    assert (weight t = 2%nat) as Hw by (unfold weight; by rewrite decide_False). rewrite Hw in El.
    destruct r1 as [[buf t2]|e]; [|intros [= <- <-]; lia]. destruct El as [Hl El].
    destruct (decide (t2.1 = QUOTES)) as [Hq|Hq]; intros [= <- <-].
    + unfold weight in El. rewrite decide_False in El by (by rewrite Hq). lia.
    + rewrite (unscan_measure t2) by done. lia.
Qed.

Lemma TagParser_progress p pt pt' p' :
  TagParser p pt = (inl pt', p') -> (measure p' < measure p)%nat \/ (measure p = 0 /\ measure p' = 0)%nat.
Proof.
  unfold TagParser. destruct (parseLiteral p) as [[k|e] p1] eqn:E1; apply parseLiteral_progress in E1.
  2:{ by intros [= <- <-]. }
  destruct (scan p1) as [t p2] eqn:Es. destruct (decide (t.1 = EQUALS)) as [He|]; [|done].
  pose proof (scan_measure_some _ _ _ Es ltac:(by rewrite He)).
  destruct (parseLiteral p2) as [[v|e] p3] eqn:E2; apply parseLiteral_progress in E2; [|done]. intros [= <- <-]. lia.
Qed.

Lemma spaces_progress p eof p' : spaces p = (eof, p') -> eof = true \/ (0 < measure p /\ measure p' <= measure p)%nat.
Proof.
  unfold spaces. destruct (scan_while _ _ _ _ _) as [[b t] p1] eqn:E. destruct (decide (t.1 = EOF)) as [|Ht]; [intros [= <- <-]; by left|].
  intros [= <- <-]. right. revert E. change (S (S (pending p))) with (S (S (pending p))).
  cbn [scan_while]. destruct (scan p) as [t1 p2] eqn:Es. fold scan_while. cbn [fst snd].
  rewrite bool_decide_eq_false_2 by done. rewrite bool_decide_eq_true_2 by done. cbn [negb andb]. intros El.
  assert (scan_while (S (pending p)) (fun t => bool_decide (t = WS)) t1 (EmptyString +:+ EmptyString) p2 = (b, t, p1)) as El' by exact El.
  destruct (scan_while_progress _ _ _ _ _ _ _ _ (scan_last _ _ _ Es) El') as [Hl Hm]. rewrite (unscan_measure t) by done.
  assert (weight t = 2%nat) as Hw by (unfold weight; by rewrite decide_False).
  destruct (scan_measure _ _ _ Es) as [(? & ? & He)|]; [|lia].
  unfold weight in Hm at 2. rewrite decide_True in Hm by done. lia.
Qed.

Lemma LoopedParser_ends fuel p pt : (measure p < fuel)%nat -> is_Some (LoopedParser fuel p pt).
Proof.
  revert p pt. induction fuel as [|fuel IH]; intros p pt Hf; [lia|]. cbn [LoopedParser].
  destruct (TagParser p pt) as [[pt'|e] p1] eqn:Et; [|by eexists]. apply TagParser_progress in Et.
  destruct (spaces p1) as [eof p2] eqn:Es. apply spaces_progress in Es. destruct eof; [by eexists|].
  apply IH. destruct Es as [?|[? ?]]; [done|]. lia.
Qed.

Lemma parse_points_ends clock ls : forall p, is_Some (parse_points clock ls p).
Proof.
  induction ls as [|l ls IH]; intros p; [by eexists|]. cbn [parse_points].
  assert (is_Some (parse_elements (clock (length ls)) (reset l p))) as [[r p'] ->].
  { unfold parse_elements, andThen.
    destruct (NameParser _ _) as [[?|?] ?]; [|by eexists]. destruct (WhiteSpaceParser false _ _) as [[?|?] ?]; [|by eexists].
    destruct (ValueParser _ _) as [[?|?] ?]; [|by eexists]. destruct (WhiteSpaceParser true _ _) as [[?|?] ?]; [|by eexists].
    destruct (TimestampParser _ _ _) as [[?|?] ?]; [|by eexists]. destruct (WhiteSpaceParser true _ _) as [[?|?] ?]; [|by eexists].
    apply LoopedParser_ends. lia. }
  binds. destruct r as [pt|e]; [|by eexists]. destruct (IH p') as [y ->]. binds. by eexists.
Qed.

(** C32: parsing returns. For every text, whatever bytes it has, and every state a parser of the pool was left in, the
    parser reaches the end or an error: the loop over the tags, which has no condition of its own, uses up something
    of the line in every round. The loops over tokens stop by their own conditions, at the end of the text or at a
    token that is not of theirs, and not because the model has bounded their rounds. *)
Theorem Wavefront_terminates `{MapRange} (clock : nat -> Z) (defaultTags : gmap string string) (buf : string) (p : PointParser) :
  is_Some (Parse clock defaultTags buf p) /\
  (forall P t b, goes_on P (scan_while (S (pending p)) P t b p).1.2 = false) /\
  (forall t b, match literal_loop (S (pending p)) t b p with (inl (_, t'), _) => goes_on is_literal t' = false | (inr e, _) => e = ErrDelta end) /\
  (forall esc t b, (quoted_loop (S (pending p)) esc t b p).1.2.1 ∈ [EOF; QUOTES]).
Proof.
  split_and!.
  - unfold Parse. destruct (parse_points_ends clock (lines_of (prepare buf)) p) as [x ->]. binds. by eexists.
  - intros P t b. destruct (scan_while _ _ _ _ _) as [[b' t'] p'] eqn:E. by apply scan_while_done in E; [|lia].
  - intros t b. destruct (literal_loop _ _ _ _) as [[[b' t']|e] p'] eqn:E; [by apply literal_loop_done in E; [|lia]|].
    by eapply literal_loop_error.
  - intros esc t b. destruct (quoted_loop _ _ _ _ _) as [[b' t'] p'] eqn:E. apply quoted_loop_done in E; [|lia].
    rewrite !elem_of_cons. naive_solver.
Qed.
