(* ===== verification/WavefrontOut.v ===== *)
(** * The Wavefront serializer

    [plugins/serializers/wavefront/wavefront.go]: one line for each numeric field of a metric; and what the parser
    of the same format ([Wavefront]) reads from such a line. *)

From Stdlib Require Import Ascii.
From S2P Require Import Prelude Float64 Strconv Strings Parse Metric Digits Wavefront.

(** ** Replacements *)

Definition quote : ascii := "034".
Definition q : string := String quote EmptyString.

Fixpoint dashes (l : list ascii) : list (string * string) :=
  match l with [] => [] | c :: l => (String c EmptyString, "-") :: dashes l end.

Definition strict_chars : list ascii :=
  ["!"; "@"; "#"; "$"; "%"; "^"; "&"; "*"; "("; ")"; "+"; "`"; "'"; quote; "["; "]"; "{"; "}"; ":"; ";"; "<"; ">"; "?"; "\"; "|"; " "; "="]%char.
Definition sanitized_chars : list ascii := strict_chars ++ [","; "/"]%char.

Definition sanitizedChars : string -> string := Replacer (dashes sanitized_chars).
Definition strictSanitizedChars : string -> string := Replacer (dashes strict_chars).
Definition tagValueReplacer : string -> string := Replacer [(q, "\" +:+ q); ("*", "-")].
Definition pathReplacer : string -> string := Replacer [("_", ".")].

(** ** Numbers: [strconv.AppendFloat(b, val, 'f', 6, 64)]

    The exact value rounded to six places, ties to even. *)

Definition round_half_even (a b : Z) : Z :=
  let d := a / b in
  let r := a mod b in
  if (b <? 2 * r) || ((2 * r =? b) && Z.odd d) then d + 1 else d.

Definition pad6 (n : Z) : string := let t := FormatUint n in zeros (6 - String.length t) +:+ t.

Definition fixed6_abs (num den : Z) : string :=
  let d := round_half_even (num * 10 ^ 6) den in FormatUint (d / 10 ^ 6) +:+ "." +:+ pad6 (d mod 10 ^ 6).

Definition fixed6 (x : float64) : string :=
  match x with
  | S754_nan => "NaN"
  | S754_infinity s => if s then "-Inf" else "+Inf"
  | S754_zero s => if s then "-0.000000" else "0.000000"
  | S754_finite s m e => let '(num, den) := ratio m e in (if s then "-" else EmptyString) +:+ fixed6_abs num den
  end.

(** ** The serializer *)

Record WavefrontSerializer := mkWS { ws_Prefix : string; UseStrict : bool; SourceOverride : list string }.

Definition sanitize_with (s : WavefrontSerializer) : string -> string := if UseStrict s then strictSanitizedChars else sanitizedChars.

Definition point_name (s : WavefrontSerializer) (nm fieldName : string) : string :=
  let n := if decide (fieldName = "value") then ws_Prefix s +:+ nm else ws_Prefix s +:+ nm +:+ "." +:+ fieldName in
  pathReplacer (sanitize_with s n).

Definition buildValue (v : Val) : option float64 :=
  match v with
  | VBool b => Some (if b then f_one else f_zero)
  | VInt z => Some (f_of_Z z)
  | VUint z => Some (f_of_Z z)
  | VFloat x => Some x
  | VString _ | VNil => None
  end.

(** The source, and the tags that remain. *)
Fixpoint override_source (l : list string) (ts : gmap string string) : option (string * gmap string string) :=
  match l with
  | [] => None
  | src :: l =>
    match ts !! src with
    | Some v => let ts := delete src ts in Some (v, <["telegraf_host" := default EmptyString (ts !! "host")]> ts)
    | None => override_source l ts
    end
  end.
Definition findSourceTag (ts : gmap string string) (s : WavefrontSerializer) : string * gmap string string :=
  match ts !! "source" with
  | Some src => (src, delete "source" ts)
  | None =>
    match override_source (SourceOverride s) ts with
    | Some r => r
    | None => (default EmptyString (ts !! "host"), ts)
    end
  end.

Definition buildTags (ts : gmap string string) (s : WavefrontSerializer) : string * gmap string string :=
  let ts := filter (fun kv => kv.2 <> EmptyString) ts in
  let '(source, ts) := findSourceTag ts s in
  (tagValueReplacer source, delete "host" ts).

Section Serializer.
Context `{MapRange}.

Definition tag_text (s : WavefrontSerializer) (kv : string * string) : string :=
  " " +:+ q +:+ sanitize_with s kv.1 +:+ q +:+ "=" +:+ q +:+ tagValueReplacer kv.2 +:+ q.

(** [formatMetricPoint]; the time is converted to uint64. *)
Definition formatMetricPoint (s : WavefrontSerializer) (name : string) (value : float64) (timestamp : Z) (source : string)
    (ts : gmap string string) : string :=
  q +:+ name +:+ q +:+ " " +:+ fixed6 value +:+ " " +:+ FormatUint (uint64 timestamp) +:+ " source=" +:+ q +:+ source +:+ q +:+
  concat_strings (tag_text s <$> range_map ts) +:+ String nl EmptyString.

Definition field_line (s : WavefrontSerializer) (m : metric) (kv : string * Val) : option string :=
  v ← buildValue kv.2;
  let '(source, ts) := buildTags (Tags m) s in
  Some (formatMetricPoint s (point_name s (name m) kv.1) v (tm m / 1000000000) source ts).

(** [serialize]: what is appended to the buffer. *)
Definition serialize (s : WavefrontSerializer) (m : metric) : string := concat_strings (omap (field_line s m) (range_map (Metric.Fields m))).

Definition Serialize (s : WavefrontSerializer) (m : metric) : string := serialize s m.
Definition SerializeBatch (s : WavefrontSerializer) (ms : list metric) : string := concat_strings (serialize s <$> ms).
End Serializer.

(** ** Reading texts

    [at_ p s]: the parser has the text [s] before it, perhaps with the first token pushed back. *)

Definition tok_of (c : ascii) : Token * string := Scan (byte_of c, String c EmptyString).

Definition after (c : ascii) (s : string) (p : PointParser) : Prop :=
  unscanned p = 0%nat /\ input p = chars s /\ tok1 p = tok_of c.
Definition at_ (p : PointParser) (s : string) : Prop :=
  (unscanned p = 0%nat /\ input p = chars s) \/
  match s with String c s' => unscanned p = 1%nat /\ input p = chars s' /\ tok1 p = tok_of c | EmptyString => False end.

Lemma after_at c s p : after c s p -> at_ p s.
Proof. intros (H1 & H2 & _). by left. Qed.
Lemma after_unscan c s p : after c s p -> at_ (unscan p) (String c s).
Proof. intros (H1 & H2 & H3). right. cbn. rewrite H1. done. Qed.

Lemma scan_at p c s : at_ p (String c s) -> exists p', scan p = (tok_of c, p') /\ after c s p'.
Proof.
  intros [[Hn Hi]|(Hn & Hi & Ht)]; unfold scan; rewrite Hn.
  - rewrite Hi. cbn [chars]. eexists. split; [done|]. split; [done|]. done.
  - unfold buffered. cbn [Nat.even]. rewrite Ht. eexists. split; [done|]. done.
Qed.
Lemma scan_end p : at_ p EmptyString -> exists p', scan p = ((EOF, EmptyString), p') /\ at_ p' EmptyString.
Proof. intros [[Hn Hi]|[]]. unfold scan. rewrite Hn, Hi. eexists. split; [done|]. left. done. Qed.

Lemma at_pending p s : at_ p s -> pending p = String.length s.
Proof.
  assert (forall s, length (chars s) = String.length s) as Hc by (intros t; induction t; simpl; auto).
  unfold pending. intros [[-> ->]|Hp]; [rewrite Hc; lia|]. destruct s as [|c s]; [done|]. destruct Hp as (-> & -> & _). rewrite Hc. simpl. lia.
Qed.

Lemma at_measure p s : at_ p s -> (String.length s <= measure p)%nat.
Proof.
  assert (forall s, length (chars s) = String.length s) as Hc by (intros t; induction t; simpl; auto).
  unfold measure. intros [[-> ->]|Hp]; [rewrite Hc; lia|]. destruct s as [|c s]; [done|]. destruct Hp as (-> & -> & _). rewrite Hc.
  cbn [buffered_weight String.length]. match goal with |- context [weight ?t] => pose proof (weight_pos t) end. lia.
Qed.

(** Characters that are neither control characters nor beyond ASCII. *)
Definition clean_char (c : ascii) : bool := (32 <=? code c) && (code c <=? 126).
Fixpoint clean (s : string) : bool := match s with EmptyString => true | String c s => clean_char c && clean s end.

Lemma clean_tok c : clean_char c = true -> (tok_of c).2 = String c EmptyString /\ (tok_of c).1 <> EOF /\
  ((tok_of c).1 = QUOTES <-> c = quote) /\ ((tok_of c).1 = BACKSLASH <-> c = "\"%char) /\ (tok_of c).1 <> DELTA.
Proof.
  intros Hc.
  pose proof (all_ascii_spec (fun c => implb (clean_char c) (bool_decide ((tok_of c).2 = String c EmptyString) && bool_decide ((tok_of c).1 <> EOF) &&
    bool_decide ((tok_of c).1 = QUOTES <-> c = quote) && bool_decide ((tok_of c).1 = BACKSLASH <-> c = "\"%char) && bool_decide ((tok_of c).1 <> DELTA)))) as Ha.
  specialize (Ha ltac:(vm_compute; reflexivity) c). cbn beta in Ha. rewrite Hc in Ha. cbn [implb] in Ha.
  rewrite !andb_true_iff, !bool_decide_eq_true in Ha. destruct Ha as [[[[? ?] ?] ?] ?]. done.
Qed.

(** Text that a quote ends only at its end: every quote in it is escaped, and it does not end in an escape. *)
Fixpoint quotable (escaped : bool) (s : string) : bool :=
  match s with
  | EmptyString => negb escaped
  | String c s => (negb (bool_decide (c = quote)) || escaped) && quotable (bool_decide (c = "\"%char)) s
  end.

Lemma quoted_loop_text s : forall esc c rest buf p fuel,
  clean_char c = true -> clean s = true -> quotable esc (String c s) = true -> after c (s +:+ q +:+ rest) p -> (String.length s + 1 < fuel)%nat ->
  exists p', quoted_loop fuel esc (tok_of c) buf p = (buf +:+ String c s, tok_of quote, p') /\ after quote rest p'.
Proof.
  induction s as [|d s IH]; intros esc c rest buf p fuel Hc Hs Hq Ha Hf; destruct fuel as [|fuel]; try lia;
    destruct (clean_tok c Hc) as (El & Ee & Eq & Eb & _);
    cbn [quotable] in Hq; apply andb_true_iff in Hq as [Hqc Hqs]; cbn [quoted_loop];
    rewrite (bool_decide_eq_false_2 ((tok_of c).1 = EOF)) by done; rewrite (bool_decide_ext _ _ Eq), (bool_decide_ext _ _ Eb), Hqc, El; cbn [negb andb].
  - destruct (scan_at p quote rest) as (p1 & -> & Ha1); [by eapply after_at|]. exists p1. split; [|done].
    apply negb_true_iff in Hqs. rewrite Hqs. destruct fuel as [|fuel]; [simpl in Hf; lia|]. done.
  - cbn [clean] in Hs. apply andb_true_iff in Hs as [Hd Hs].
    destruct (scan_at p d (s +:+ q +:+ rest)) as (p1 & -> & Ha1); [by eapply after_at|].
    destruct (IH (bool_decide (c = "\"%char)) d rest (buf +:+ String c EmptyString) p1 fuel Hd Hs Hqs Ha1) as (p2 & E & Ha2); [simpl in *; lia|].
    exists p2. split; [|done]. rewrite E. by rewrite str_app_assoc.
Qed.

Lemma parseLiteral_quoted s rest p :
  clean s = true -> quotable false s = true -> at_ p (q +:+ s +:+ q +:+ rest) ->
  exists p', parseLiteral p = (inl s, p') /\ after quote rest p'.
Proof.
  intros Hs Hq Hp. unfold parseLiteral. destruct (scan_at p quote (s +:+ q +:+ rest) Hp) as (p1 & -> & Ha1).
  change (tok_of quote).1 with QUOTES. rewrite decide_False, decide_True by done. unfold parseQuotedLiteral.
  destruct s as [|c s].
  - destruct (scan_at p1 quote rest) as (p2 & -> & Ha2); [by eapply after_at|]. exists p2. cbn. done.
  - cbn [clean] in Hs. apply andb_true_iff in Hs as [Hc Hs].
    destruct (scan_at p1 c (s +:+ q +:+ rest)) as (p2 & -> & Ha2); [by eapply after_at|].
    assert (String.length s + 1 < S (pending p2))%nat as Hf.
    { rewrite (at_pending p2 (s +:+ q +:+ rest)) by (by eapply after_at). rewrite !str_length_app. simpl. lia. }
    destruct (quoted_loop_text s false c rest EmptyString p2 _ Hc Hs Hq Ha2 Hf) as (p3 & -> & Ha3). exists p3. done.
Qed.

(** Words of tokens of one kind, up to a character that is none. *)
Fixpoint every (P : ascii -> bool) (s : string) : bool := match s with EmptyString => true | String c s => P c && every P s end.

Lemma scan_while_text P s : forall c e rest buf p fuel,
  every (fun c => clean_char c && P (tok_of c).1) (String c s) = true -> clean_char e = true \/ e = nl -> P (tok_of e).1 = false ->
  after c (s +:+ String e rest) p -> (String.length s + 1 < fuel)%nat ->
  exists p', scan_while fuel P (tok_of c) buf p = (buf +:+ String c s, tok_of e, p') /\ after e rest p'.
Proof.
  induction s as [|d s IH]; intros c e rest buf p fuel Hc He Hp Ha Hf; destruct fuel as [|fuel]; try lia;
    cbn [every] in Hc; rewrite !andb_true_iff in Hc; destruct Hc as [[Hc HP] Hs];
    destruct (clean_tok c Hc) as (El & Ee & _); cbn [scan_while];
    rewrite (bool_decide_eq_false_2 ((tok_of c).1 = EOF)) by done; rewrite HP, El; cbn [negb andb].
  - destruct (scan_at p e rest) as (p1 & -> & Ha1); [by eapply after_at|]. exists p1. split; [|done].
    destruct fuel as [|fuel]; [simpl in Hf; lia|]. cbn [scan_while]. rewrite Hp, andb_false_r. done.
  - destruct (scan_at p d (s +:+ String e rest)) as (p1 & -> & Ha1); [by eapply after_at|].
    destruct (IH d e rest (buf +:+ String c EmptyString) p1 fuel) as (p2 & E & Ha2); [cbn [every]; by rewrite !andb_true_iff|done|done|done|simpl in *; lia|].
    exists p2. split; [|done]. rewrite E. by rewrite str_app_assoc.
Qed.

(** One space before something else. *)
Lemma spaces_one c rest p :
  clean_char c = true -> (tok_of c).1 <> WS -> at_ p (String " " (String c rest)) -> exists p', spaces p = (false, p') /\ at_ p' (String c rest).
Proof.
  intros Hc Hw Hp. unfold spaces. rewrite (at_pending _ _ Hp). cbn [String.length scan_while fst snd].
  rewrite (bool_decide_eq_false_2 (WS = EOF)), (bool_decide_eq_true_2 (WS = WS)) by done. cbn [negb andb].
  destruct (scan_at p " " (String c rest) Hp) as (p1 & -> & Ha1). change (tok_of " ") with (WS, " "). cbn [fst snd].
  rewrite (bool_decide_eq_false_2 (WS = EOF)), (bool_decide_eq_true_2 (WS = WS)) by done. cbn [negb andb].
  destruct (scan_at p1 c rest) as (p2 & -> & Ha2); [by eapply after_at|].
  rewrite (bool_decide_eq_false_2 ((tok_of c).1 = WS)) by done. rewrite andb_false_r.
  destruct (clean_tok c Hc) as (_ & Ee & _). rewrite decide_False by done. eexists. split; [done|]. by apply after_unscan.
Qed.

(** The newline at the end. *)
Lemma spaces_newline p : at_ p (String nl EmptyString) -> exists p', spaces p = (true, p') /\ at_ p' EmptyString.
Proof.
  intros Hp. unfold spaces. rewrite (at_pending _ _ Hp). cbn [String.length scan_while fst snd].
  rewrite (bool_decide_eq_false_2 (WS = EOF)), (bool_decide_eq_true_2 (WS = WS)) by done. cbn [negb andb].
  destruct (scan_at p nl EmptyString Hp) as (p1 & -> & Ha1). change (tok_of nl) with (WS, String nl EmptyString). cbn [fst snd].
  rewrite (bool_decide_eq_false_2 (WS = EOF)), (bool_decide_eq_true_2 (WS = WS)) by done. cbn [negb andb].
  destruct (scan_end p1) as (p2 & -> & Ha2); [by eapply after_at|]. cbn. by exists p2.
Qed.

(** A word that may be empty, read after a scan. *)
Lemma scan_while_from P s e rest buf p :
  every (fun c => clean_char c && P (tok_of c).1) s = true -> clean_char e = true \/ e = nl -> P (tok_of e).1 = false -> at_ p (s +:+ String e rest) ->
  exists p', (let '(t, p) := scan p in scan_while (S (pending p)) P t buf p) = (buf +:+ s, tok_of e, p') /\ after e rest p'.
Proof.
  intros Hs He Hp Ha. destruct s as [|c s].
  - destruct (scan_at p e rest Ha) as (p1 & -> & Ha1). exists p1. split; [|done]. cbn [scan_while]. rewrite Hp, andb_false_r.
    by rewrite str_app_nil_r.
  - destruct (scan_at p c (s +:+ String e rest) Ha) as (p1 & -> & Ha1). apply scan_while_text; try done.
    rewrite (at_pending p1 (s +:+ String e rest)) by (by eapply after_at). rewrite str_length_app. simpl. lia.
Qed.

Definition value_char (c : ascii) : bool := clean_char c && value_token (tok_of c).1.

Lemma ValueParser_text v rest p pt x :
  every value_char v = true -> ParseFloat v = Some x -> at_ p (v +:+ String " " rest) ->
  exists p', ValueParser p pt = (inl (set_value v pt), p') /\ at_ p' (String " " rest).
Proof.
  intros Hv Hx Hp. destruct v as [|c v]; [by vm_compute in Hx|]. unfold ValueParser.
  change (String c v +:+ String " " rest) with (String c (v +:+ String " " rest)) in Hp.
  destruct (scan_at p c _ Hp) as (p1 & -> & Ha1). cbn [every] in Hv. apply andb_true_iff in Hv as [Hc Hv].
  pose proof Hc as Hcc. unfold value_char in Hcc. apply andb_true_iff in Hcc as [Hcl Hct]. destruct (clean_tok c Hcl) as (El & Ee & _).
  rewrite decide_False by done. destruct (decide ((tok_of c).1 = MINUS_SIGN)) as [Hm|Hm].
  - destruct (scan_while_from value_token v " " rest (tok_of c).2 p1 Hv (or_introl eq_refl) eq_refl (after_at _ _ _ Ha1)) as (p2 & E & Ha2).
    destruct (scan p1) as [t' p1']. rewrite E. rewrite El. change (String c EmptyString +:+ v) with (String c v). rewrite Hx.
    eexists. split; [done|]. by apply after_unscan.
  - destruct (scan_while_text value_token v c " " rest EmptyString p1 (S (pending p1))) as (p2 & E & Ha2); try done.
    + cbn [every]. unfold value_char in Hc. by rewrite Hc.
    + by left.
    + rewrite (at_pending p1 (v +:+ String " " rest)) by (by eapply after_at). rewrite str_length_app. simpl. lia.
    + rewrite E. change (EmptyString +:+ String c v) with (String c v). rewrite Hx. eexists. split; [done|]. by apply after_unscan.
Qed.

Definition digit_tok (t : Token) : bool := bool_decide (t = NUMBER).

Lemma TimestampParser_text now t rest p pt :
  every (fun c => clean_char c && digit_tok (tok_of c).1) t = true -> t <> EmptyString -> at_ p (t +:+ String " " rest) ->
  exists p', TimestampParser now p pt =
    (match ParseInt10 t with inr e => inr (ErrInt e) | inl ts => setTimestamp now ts (String.length t) pt end, p') /\ at_ p' (String " " rest).
Proof.
  intros Ht Hne Hp. destruct t as [|c t]; [done|]. unfold TimestampParser.
  change (String c t +:+ String " " rest) with (String c (t +:+ String " " rest)) in Hp.
  destruct (scan_at p c _ Hp) as (p1 & -> & Ha1). pose proof Ht as Ht'. cbn [every] in Ht'. rewrite !andb_true_iff in Ht'.
  destruct Ht' as [[Hcl Hd] _]. apply bool_decide_eq_true in Hd. rewrite decide_True by done.
  destruct (scan_while_text digit_tok t c " " rest EmptyString p1 (S (pending p1))) as (p2 & E & Ha2); try done.
  - by left.
  - rewrite (at_pending p1 (t +:+ String " " rest)) by (by eapply after_at). rewrite str_length_app. simpl. lia.
  - unfold digit_tok in E. rewrite E. change (EmptyString +:+ String c t) with (String c t).
    exists (unscan p2). split; [|by apply after_unscan]. by destruct (ParseInt10 (String c t)).
Qed.

(** ** Tags *)

Definition raw_tag (kv : string * string) : string := q +:+ kv.1 +:+ q +:+ "=" +:+ q +:+ kv.2 +:+ q.
Definition quotable_text (s : string) : Prop := clean s = true /\ quotable false s = true.

Lemma TagParser_text k v rest p pt :
  quotable_text k -> quotable_text v -> at_ p (raw_tag (k, v) +:+ rest) -> exists p', TagParser p pt = (inl (set_tag k v pt), p') /\ at_ p' rest.
Proof.
  intros [Hk Hqk] [Hv Hqv] Hp. unfold raw_tag in Hp. cbn [fst snd] in Hp. rewrite !str_app_assoc in Hp. unfold TagParser.
  destruct (parseLiteral_quoted k _ p Hk Hqk Hp) as (p1 & -> & Ha1).
  destruct (scan_at p1 "=" (q +:+ v +:+ q +:+ rest)) as (p2 & -> & Ha2); [by eapply after_at|].
  change (tok_of "=").1 with EQUALS. rewrite decide_True by done.
  destruct (parseLiteral_quoted v rest p2 Hv Hqv) as (p3 & -> & Ha3); [by eapply after_at|]. exists p3. split; [done|by eapply after_at].
Qed.

Lemma literal_loop_text s : forall c e rest buf p fuel,
  every (fun c => clean_char c && is_literal (tok_of c).1) (String c s) = true -> clean_char e = true -> is_literal (tok_of e).1 = false ->
  after c (s +:+ String e rest) p -> (String.length s + 1 < fuel)%nat ->
  exists p', literal_loop fuel (tok_of c) buf p = (inl (buf +:+ String c s, tok_of e), p') /\ after e rest p'.
Proof.
  induction s as [|d s IH]; intros c e rest buf p fuel Hc He Hp Ha Hf; destruct fuel as [|fuel]; try lia;
    cbn [every] in Hc; rewrite !andb_true_iff in Hc; destruct Hc as [[Hc HP] Hs];
    destruct (clean_tok c Hc) as (El & Ee & _); cbn [literal_loop];
    rewrite (bool_decide_eq_false_2 ((tok_of c).1 = EOF)) by done; rewrite HP, El; cbn [negb andb].
  - destruct (scan_at p e rest) as (p1 & -> & Ha1); [by eapply after_at|]. destruct (clean_tok e He) as (_ & _ & _ & _ & Hd).
    rewrite decide_False by done. exists p1. split; [|done].
    destruct fuel as [|fuel]; [simpl in Hf; lia|]. cbn [literal_loop]. rewrite Hp, andb_false_r. done.
  - destruct (scan_at p d (s +:+ String e rest)) as (p1 & -> & Ha1); [by eapply after_at|].
    destruct Hs as [[Hdc Hdl] Hs]. destruct (clean_tok d Hdc) as (_ & _ & _ & _ & Hdd). rewrite decide_False by done.
    destruct (IH d e rest (buf +:+ String c EmptyString) p1 fuel) as (p2 & E & Ha2); [cbn [every]; by rewrite Hdc, Hdl, Hs|done|done|done|simpl in *; lia|].
    exists p2. split; [|done]. rewrite E. by rewrite str_app_assoc.
Qed.

Lemma TagParser_source v rest p pt :
  quotable_text v -> at_ p ("source=" +:+ q +:+ v +:+ q +:+ rest) -> exists p', TagParser p pt = (inl (set_tag "source" v pt), p') /\ at_ p' rest.
Proof.
  intros [Hv Hqv] Hp. unfold TagParser. unfold parseLiteral at 1.
  destruct (scan_at p "s" ("ource" +:+ String "=" (q +:+ v +:+ q +:+ rest)) Hp) as (p1 & -> & Ha1).
  change (tok_of "s").1 with LETTER. rewrite !decide_False by done.
  destruct (literal_loop_text "ource" "s" "=" (q +:+ v +:+ q +:+ rest) EmptyString p1 (S (pending p1)) eq_refl eq_refl eq_refl Ha1) as (p2 & E & Ha2).
  { rewrite (at_pending p1 _ (after_at _ _ _ Ha1)). rewrite str_length_app. simpl. lia. }
  change (LETTER, "s") with (tok_of "s"). rewrite E. change (tok_of "=").1 with EQUALS. rewrite decide_False by done.
  change (EmptyString +:+ String "s" "ource") with "source".
  destruct (scan_at (unscan p2) "=" (q +:+ v +:+ q +:+ rest)) as (p3 & -> & Ha3); [by apply after_unscan|].
  change (tok_of "=").1 with EQUALS. rewrite decide_True by done.
  destruct (parseLiteral_quoted v rest p3 Hv Hqv) as (p4 & -> & Ha4); [by eapply after_at|]. exists p4. split; [done|by eapply after_at].
Qed.

Definition add_tags (l : list (string * string)) (pt : Point) : Point := foldl (fun pt kv => set_tag kv.1 kv.2 pt) pt l.

Lemma looped_rest l : forall fuel p pt,
  Forall (fun kv => quotable_text kv.1 /\ quotable_text kv.2) l -> (length l < fuel)%nat ->
  at_ p (concat_strings ((fun kv => " " +:+ raw_tag kv) <$> l) +:+ String nl EmptyString) ->
  exists p', (let '(eof, p) := spaces p in if eof then Some (inl pt, p) else LoopedParser fuel p pt) = Some (inl (add_tags l pt), p').
Proof.
  induction l as [|[k v] l IH]; intros fuel p pt Hl Hf Hp.
  - destruct (spaces_newline p Hp) as (p1 & -> & _). by exists p1.
  - apply Forall_cons in Hl as [[Hk Hv] Hl]. cbn [fst snd] in *. destruct fuel as [|fuel]; [simpl in Hf; lia|].
    cbn [fmap list_fmap concat_strings foldr] in Hp. rewrite str_app_assoc in Hp. fold (concat_strings ((fun kv => " " +:+ raw_tag kv) <$> l)) in Hp.
    set (rest := concat_strings _ +:+ _) in Hp.
    change ((" " +:+ raw_tag (k, v)) +:+ rest) with (String " " (String quote ((k +:+ q +:+ "=" +:+ q +:+ v +:+ q) +:+ rest))) in Hp.
    destruct (spaces_one quote _ p eq_refl ltac:(done) Hp) as (p1 & -> & Hp1).
    cbn [LoopedParser]. destruct (TagParser_text k v rest p1 pt Hk Hv Hp1) as (p2 & -> & Hp2).
    destruct (IH fuel p2 (set_tag k v pt) Hl ltac:(simpl in Hf; lia) Hp2) as (p3 & E). exists p3. exact E.
Qed.

(** ** What the serializer writes can be read *)

Lemma first_pair_dashes l c s : first_pair (dashes l) (String c s) = if decide (c ∈ l) then Some ("-", s) else None.
Proof.
  induction l as [|d l IH]; [done|]. cbn [dashes first_pair strip_prefix]. destruct (decide (d = c)) as [->|Hcd].
  - rewrite decide_True by (apply elem_of_cons; by left). done.
  - rewrite IH. destruct (decide (c ∈ l)); [rewrite decide_True by (apply elem_of_cons; by right)|rewrite decide_False by (rewrite elem_of_cons; naive_solver)]; done.
Qed.

Definition dash (l : list ascii) (c : ascii) : ascii := if decide (c ∈ l) then "-"%char else c.
Fixpoint str_map (f : ascii -> ascii) (s : string) : string := match s with EmptyString => EmptyString | String c s => String (f c) (str_map f s) end.

Lemma dashes_map l s : Replacer (dashes l) s = str_map (dash l) s.
Proof.
  unfold Replacer. induction s as [|c s IH]; [done|]. cbn [String.length replace_loop str_map]. rewrite first_pair_dashes.
  unfold dash at 1. by destruct (decide (c ∈ l)); rewrite IH.
Qed.
Lemma path_map s : pathReplacer s = str_map (fun c => if decide (c = "_"%char) then "."%char else c) s.
Proof.
  unfold pathReplacer, Replacer. induction s as [|c s IH]; [done|]. cbn [String.length replace_loop str_map first_pair strip_prefix].
  destruct (decide ("_"%char = c)) as [<-|Hc]; rewrite IH; [done|]. by rewrite decide_False.
Qed.

Definition tag_char (c : ascii) : string :=
  if decide (c = quote) then "\" +:+ q else if decide (c = "*"%char) then "-" else String c EmptyString.
Lemma tagValueReplacer_cons c s : tagValueReplacer (String c s) = tag_char c +:+ tagValueReplacer s.
Proof.
  unfold tagValueReplacer, Replacer, tag_char. cbn [String.length replace_loop first_pair strip_prefix q].
  destruct (decide (quote = c)) as [<-|H1]; [done|]. rewrite (decide_False (P := c = quote)) by done.
  destruct (decide ("*"%char = c)) as [<-|H2]; [done|]. by rewrite decide_False.
Qed.

Lemma clean_app s t : clean (s +:+ t) = clean s && clean t.
Proof. induction s as [|c s IH]; [done|]. change (String c s +:+ t) with (String c (s +:+ t)). cbn [clean]. by rewrite IH, andb_assoc. Qed.

(** Texts without quotes and backslashes. *)
Definition plain_char (c : ascii) : bool := clean_char c && negb (bool_decide (c = quote)) && negb (bool_decide (c = "\"%char)).
Lemma plain_quotable s : every plain_char s = true -> quotable_text s.
Proof.
  induction s as [|c s IH]; [done|]. cbn [every]. rewrite andb_true_iff. intros [Hc Hs]. unfold plain_char in Hc. rewrite !andb_true_iff in Hc.
  destruct Hc as [[Hc Hq] Hb]. destruct (IH Hs) as [H1 H2]. split; cbn [clean quotable]; [by rewrite Hc, H1|].
  apply negb_true_iff in Hb. by rewrite Hq, Hb, H2.
Qed.

Lemma every_str_map (P Q : ascii -> bool) f s : (forall c, P c = true -> Q (f c) = true) -> every P s = true -> every Q (str_map f s) = true.
Proof.
  intros Hf. induction s as [|c s IH]; [done|]. cbn [every str_map]. rewrite !andb_true_iff. intros [Hc Hs]. auto.
Qed.
Lemma clean_every s : clean s = every clean_char s.
Proof. induction s as [|c s IH]; [done|]. cbn [clean every]. by rewrite IH. Qed.

Lemma dash_plain l c : quote ∈ l -> "\"%char ∈ l -> clean_char c = true -> plain_char (dash l c) = true.
Proof.
  intros Hq Hb Hc. unfold dash, plain_char. destruct (decide (c ∈ l)) as [|Hn]; [done|].
  rewrite Hc, !bool_decide_eq_false_2; [done|intros ->; done|intros ->; done].
Qed.
Lemma sanitize_plain s t : clean t = true -> every plain_char (sanitize_with s t) = true.
Proof.
  rewrite clean_every. unfold sanitize_with, strictSanitizedChars, sanitizedChars. destruct (UseStrict s); rewrite dashes_map;
    apply every_str_map; intros c; apply dash_plain; unfold sanitized_chars, strict_chars; set_solver.
Qed.
Lemma point_name_quotable s nm f : clean (ws_Prefix s) = true -> clean nm = true -> clean f = true -> quotable_text (point_name s nm f).
Proof.
  intros Hp Hn Hf. apply plain_quotable. unfold point_name. rewrite path_map. apply (every_str_map plain_char).
  - intros c Hc. by destruct (decide (c = "_"%char)).
  - apply sanitize_plain. case_decide; rewrite !clean_app, Hp, Hn; [done|]. by rewrite Hf.
Qed.

(** Tag values may have anything but a backslash at their end, which would escape the closing quote. *)
Lemma tagValueReplacer_quotable s : clean s = true -> HasSuffix s "\" = false -> quotable_text (tagValueReplacer s).
Proof.
  intros Hs Hb. cut (clean (tagValueReplacer s) = true /\ forall esc, (s = EmptyString -> esc = false) -> quotable esc (tagValueReplacer s) = true).
  { intros [H1 H2]. split; [done|]. by apply H2. }
  induction s as [|c s IH]; [split; [done|]; intros esc He; by rewrite He|].
  cbn [clean] in Hs. apply andb_true_iff in Hs as [Hc Hs].
  assert (HasSuffix s "\" = false /\ (s = EmptyString -> c <> "\"%char)) as [Hb' Hl].
  { revert Hb. unfold HasSuffix. cbn [strip_suffix]. case_decide as Hd; [done|]. destruct (strip_suffix "\" s); [done|]. intros _. split; [done|].
    intros -> ->. done. }
  destruct (IH Hs Hb') as [Hcl Hq]. rewrite tagValueReplacer_cons, clean_app, Hcl. unfold tag_char.
  destruct (decide (c = quote)) as [->|Hcq]; [split; [done|]; intros esc _|destruct (decide (c = "*"%char)) as [->|Hcs]; (split; [by cbn [clean]; rewrite ?Hc|]; intros esc _)].
  - change (("\" +:+ q) +:+ tagValueReplacer s) with (String "\" (String quote (tagValueReplacer s))). cbn [quotable].
    rewrite (bool_decide_eq_true_2 ("\"%char = "\"%char)) by done. rewrite orb_true_r. by rewrite Hq.
  - change ("-" +:+ tagValueReplacer s) with (String "-" (tagValueReplacer s)). cbn [quotable]. by rewrite Hq.
  - change (String c EmptyString +:+ tagValueReplacer s) with (String c (tagValueReplacer s)). cbn [quotable].
    rewrite (bool_decide_eq_false_2 (c = quote)) by done. rewrite Hq; [done|]. intros E. apply bool_decide_eq_false. by apply Hl.
Qed.

(** ** Digits *)

Lemma every_app P s t : every P (s +:+ t) = every P s && every P t.
Proof. induction s as [|c s IH]; [done|]. change (String c s +:+ t) with (String c (s +:+ t)). cbn [every]. by rewrite IH, andb_assoc. Qed.

Definition number_char (c : ascii) : bool := clean_char c && digit_tok (tok_of c).1.
Lemma number_value c : number_char c = true -> value_char c = true.
Proof.
  intros Hc. pose proof (all_ascii_spec (fun c => implb (number_char c) (value_char c)) ltac:(vm_compute; reflexivity) c) as Ha.
  cbn beta in Ha. by rewrite Hc in Ha.
Qed.
Lemma every_impl (P Q : ascii -> bool) s : (forall c, P c = true -> Q c = true) -> every P s = true -> every Q s = true.
Proof. intros Hf. induction s as [|c s IH]; [done|]. cbn [every]. rewrite !andb_true_iff. intros [? ?]. auto. Qed.

Lemma digit_number c : 0 <= byte_of c - 48 <= 9 -> number_char c = true.
Proof.
  intros Hd. pose proof (all_ascii_spec (fun c => implb ((0 <=? byte_of c - 48) && (byte_of c - 48 <=? 9)) (number_char c))
    ltac:(vm_compute; reflexivity) c) as Ha. cbn beta in Ha. by rewrite (proj2 (Z.leb_le 0 _)), (proj2 (Z.leb_le _ 9)) in Ha by lia.
Qed.

Lemma read_digits_numbers s acc v : read_digits s acc = Some v -> every number_char s = true.
Proof.
  revert acc. induction s as [|c s IH]; intros acc Hv; [done|]. apply read_digits_cons in Hv as [Hc Hv]. cbn [every].
  rewrite digit_number by done. eauto.
Qed.

(** Six digits after the point. *)
Lemma read_zeros k t acc : read_digits (zeros k +:+ t) acc = read_digits t (acc * 10 ^ Z.of_nat k).
Proof.
  revert acc. induction k as [|k IH]; intros acc; [cbn; by rewrite Z.mul_1_r|]. cbn [zeros].
  change (String "0" (zeros k) +:+ t) with (String "0" (zeros k +:+ t)). change (String "0" (zeros k +:+ t)) with (String (digit_char 0) (zeros k +:+ t)).
  rewrite read_digit, IH by lia. f_equal. rewrite Nat2Z.inj_succ, Z.pow_succ_r by lia. lia.
Qed.
Lemma pad6_read n acc : 0 <= n < 10 ^ 6 -> read_digits (pad6 n) acc = Some (acc * 10 ^ 6 + n) /\ String.length (pad6 n) = 6%nat.
Proof.
  intros Hn. pose proof (FormatUint_short n 6 ltac:(lia) Hn) as Hl. unfold pad6. split.
  - rewrite read_zeros. pose proof (read_digits_shift _ _ _ (acc * 10 ^ Z.of_nat (6 - String.length (FormatUint n))) (FormatUint_read n ltac:(lia))) as E.
    rewrite Z.add_0_l in E. rewrite E. f_equal. rewrite <- Z.mul_assoc, <- Z.pow_add_r by lia. rewrite Nat2Z.inj_sub by lia.
    replace (Z.of_nat 6 - len (FormatUint n) + len (FormatUint n)) with 6 by lia. lia.
  - rewrite str_length_app. assert (forall k, String.length (zeros k) = k) as -> by (intros k; induction k; simpl; auto). lia.
Qed.

(** ** The value *)

Definition decimal (d : Z) : float64 := if d =? 0 then S754_zero false else of_decimal d (-6).

Lemma ParseFloat_fixed neg a b :
  0 <= a -> 0 <= b < 10 ^ 6 -> f_is_inf (decimal (a * 10 ^ 6 + b)) = false ->
  ParseFloat ((if neg : bool then "-" else EmptyString) +:+ FormatUint a +:+ "." +:+ pad6 b) = Some (with_sign neg (decimal (a * 10 ^ 6 + b))).
Proof.
  intros Ha Hb Hi. destruct (pad6_read b a Hb) as [Hp Hl]. pose proof (FormatUint_read a Ha) as Hr.
  assert (exists c s, FormatUint a = String c s /\ is_digit c = true /\ (forall d t, s +:+ "." +:+ pad6 b = String d t -> lower d <> 120)) as (c & s & E & Hc & Hx).
  { destruct (FormatUint a) as [|c s] eqn:E; [by apply FormatUint_nonempty in E|]. exists c, s. split; [done|].
    apply read_digits_cons in Hr as [Hc Hr]. split; [by apply digit_char_spec|]. intros d t Ed.
    destruct s as [|d' s']; [injection Ed as <- <-; by vm_compute|]. injection Ed as <- _. apply read_digits_cons in Hr as [Hd _].
    by apply digit_char_spec. }
  set (num := FormatUint a +:+ "." +:+ pad6 b).
  assert (mantissa_loop 10 num false false false 0 0 = (a * 10 ^ 6 + b, 6, true, false, EmptyString)) as Hm.
  { unfold num. rewrite (mantissa_digits _ _ _ _ _ _ _ a) by done. change ("." +:+ pad6 b) with (String "." (pad6 b)). cbn [mantissa_loop].
    change (code "." =? 95) with false. change (code "." =? 46) with true. cbn [andb negb].
    rewrite <- (str_app_nil_r (pad6 b)). rewrite (mantissa_digits _ _ _ _ _ _ _ _ Hp), Hl.
    rewrite (bool_decide_eq_false_2 (FormatUint a = EmptyString)) by (by apply FormatUint_nonempty). done. }
  assert (num = String c (s +:+ "." +:+ pad6 b)) as En by (unfold num; by rewrite E).
  destruct (special_digit c (s +:+ "." +:+ pad6 b) Hc) as [Hs1 Hs2]. rewrite <- En in Hs1, Hs2.
  assert (strip_sign num = num) as Hss.
  { rewrite En. cbn [strip_sign]. unfold is_digit, Parse.between in Hc. apply andb_true_iff in Hc as [H1 H2]. apply Z.leb_le in H1, H2.
    by rewrite (proj2 (Z.eqb_neq (code c) 45)), (proj2 (Z.eqb_neq (code c) 43)) by lia. }
  pose proof (not_hex c (s +:+ "." +:+ pad6 b) Hc Hx) as Hh. rewrite <- En in Hh. unfold ParseFloat. destruct neg.
  - change ("-" +:+ num) with (String "-" num). rewrite Hs2. change (strip_sign (String "-" num)) with num.
    rewrite Hh, Hm. cbn [negb read_exp]. rewrite bool_decide_eq_true_2 by done. cbn [negb orb andb]. change (0 - 6) with (-6).
    match goal with |- context [f_is_inf ?x] => change x with (decimal (a * 10 ^ 6 + b)) end. rewrite Hi. done.
  - change (EmptyString +:+ num) with num. rewrite Hs1, Hss, Hh, Hm. cbn [negb read_exp]. rewrite bool_decide_eq_true_2 by done.
    cbn [negb orb andb]. change (0 - 6) with (-6).
    match goal with |- context [f_is_inf ?x] => change x with (decimal (a * 10 ^ 6 + b)) end. rewrite Hi, En.
    unfold is_digit, Parse.between in Hc. apply andb_true_iff in Hc as [H1 H2]. apply Z.leb_le in H1, H2.
    rewrite (proj2 (Z.eqb_neq (code c) 45)) by lia. done.
Qed.

(** The value to six places. *)
Definition rounded6 (x : float64) : float64 :=
  match x with
  | S754_finite s m e => let '(num, den) := ratio m e in with_sign s (decimal (round_half_even (num * 10 ^ 6) den))
  | _ => x
  end.

(** The infinity with a plus sign cannot be read: the scanner has no token for the sign. *)
Definition readable (x : float64) : bool :=
  match x with
  | S754_infinity s => s
  | S754_finite _ _ _ => negb (f_is_inf (rounded6 x))
  | _ => true
  end.

Lemma round_half_even_nonneg a b : 0 <= a -> 0 < b -> 0 <= round_half_even a b.
Proof. intros Ha Hb. unfold round_half_even. pose proof (Z.div_pos a b Ha Hb). destruct (_ || _); lia. Qed.
Lemma ratio_pos m e num den : ratio m e = (num, den) -> 0 <= num /\ 0 < den.
Proof.
  unfold ratio. destruct (Z.leb_spec 0 e); intros [= <- <-]; split; pose proof (Z.pow_pos_nonneg 2 e); pose proof (Z.pow_pos_nonneg 2 (- e)); lia.
Qed.

Lemma fixed6_read x : readable x = true -> every value_char (fixed6 x) = true /\ ParseFloat (fixed6 x) = Some (rounded6 x).
Proof.
  destruct x as [s|s| |s m e]; cbn [readable]; intros Hx; [by destruct s|by subst s|done|]. revert Hx. unfold rounded6, fixed6.
  destruct (ratio m e) as [num den] eqn:Er. destruct (ratio_pos _ _ _ _ Er) as [Hn Hd]. unfold fixed6_abs.
  pose proof (round_half_even_nonneg (num * 10 ^ 6) den ltac:(lia) Hd) as Hr. set (d := round_half_even _ _) in *. intros Hi.
  pose proof (Z.mod_pos_bound d (10 ^ 6) ltac:(lia)) as Hm. pose proof (Z.div_pos d (10 ^ 6) Hr ltac:(lia)) as Hq.
  assert (d = d / 10 ^ 6 * 10 ^ 6 + d mod 10 ^ 6) as Ed by (pose proof (Z.div_mod d (10 ^ 6) ltac:(lia)); lia). split.
  - rewrite !every_app. assert (forall t a v, read_digits t a = Some v -> every value_char t = true) as Hv.
    { intros t a v Ht. apply (every_impl number_char); [apply number_value|]. by eapply read_digits_numbers. }
    rewrite (Hv _ _ _ (FormatUint_read _ Hq)), (Hv _ _ _ (proj1 (pad6_read _ 0 Hm))). by destruct s.
  - rewrite ParseFloat_fixed; [by rewrite <- Ed|done|done|]. rewrite <- Ed. apply negb_true_iff in Hi. by destruct s, (decimal d).
Qed.

(** ** A line *)

Definition line_body (name v t src : string) (l : list (string * string)) : string :=
  q +:+ name +:+ q +:+ " " +:+ v +:+ " " +:+ t +:+ " source=" +:+ q +:+ src +:+ q +:+ concat_strings ((fun kv => " " +:+ raw_tag kv) <$> l).

Lemma value_not_space c : value_char c = true -> clean_char c = true /\ (tok_of c).1 <> WS.
Proof. unfold value_char. rewrite andb_true_iff. intros [Hc Hv]. split; [done|]. intros E. by rewrite E in Hv. Qed.

Lemma spaces_before b c rest p pt :
  clean_char c = true -> (tok_of c).1 <> WS -> at_ p (String " " (String c rest)) ->
  exists p', WhiteSpaceParser b p pt = (inl pt, p') /\ at_ p' (String c rest).
Proof. intros Hc Hw Hp. destruct (spaces_one c rest p Hc Hw Hp) as (p1 & E & H1). exists p1. unfold WhiteSpaceParser. by rewrite E. Qed.

Lemma tags_length l : (length l <= String.length (concat_strings ((fun kv => " " +:+ raw_tag kv) <$> l)))%nat.
Proof.
  induction l as [|kv l IH]; [done|]. cbn [fmap list_fmap concat_strings foldr]. fold (concat_strings ((fun kv => " " +:+ raw_tag kv) <$> l)).
  rewrite !str_length_app. cbn [length String.length]. lia.
Qed.

Lemma parse_line now name v x t ts src l p :
  quotable_text name -> every value_char v = true -> ParseFloat v = Some x ->
  every number_char t = true -> String.length t = 10%nat -> ParseInt10 t = inl ts -> quotable_text src ->
  Forall (fun kv => quotable_text kv.1 /\ quotable_text kv.2) l ->
  at_ p (line_body name v t src l +:+ String nl EmptyString) ->
  exists p', parse_elements now p = Some (inl (add_tags l (mkPoint name v ts {["source" := src]})), p').
Proof.
  intros [Hn1 Hn2] Hv Hx Ht Htl Hts Hs Hl Hp. unfold line_body in Hp. rewrite !str_app_assoc in Hp.
  set (tags := concat_strings _ +:+ _) in Hp. unfold parse_elements, NameParser.
  destruct (parseLiteral_quoted name _ p Hn1 Hn2 Hp) as (p1 & -> & H1%after_at). cbn [andThen].
  destruct v as [|c v]; [by vm_compute in Hx|]. pose proof Hv as Hv'. cbn [every] in Hv'. apply andb_true_iff in Hv' as [[Hc Hcw]%value_not_space _].
  destruct (spaces_before false c _ p1 (set_name name empty_point) Hc Hcw H1) as (p2 & -> & H2). cbn [andThen].
  destruct (ValueParser_text (String c v) _ p2 (set_name name empty_point) x Hv Hx H2) as (p3 & -> & H3). cbn [andThen].
  destruct t as [|d t]; [done|]. pose proof Ht as Ht'. cbn [every] in Ht'. apply andb_true_iff in Ht' as [[Hd Hdw]%number_value%value_not_space _].
  set (pt := set_value _ _). destruct (spaces_before true d _ p3 pt Hd Hdw H3) as (p4 & -> & H4). cbn [andThen].
  destruct (TimestampParser_text now (String d t) _ p4 pt Ht ltac:(done) H4) as (p5 & -> & H5). rewrite Hts, Htl. cbn [setTimestamp Nat.eqb negb andThen].
  destruct (spaces_before true "s" _ p5 (set_time ts pt) eq_refl ltac:(done) H5) as (p6 & -> & H6). cbn [andThen].
  pose proof (at_measure _ _ H6) as Hm. cbn [LoopedParser].
  destruct (TagParser_source src tags p6 (set_time ts pt) Hs H6) as (p7 & -> & H7).
  apply looped_rest; [done| |done]. pose proof (tags_length l). unfold tags in Hm.
  cbn [String.length] in Hm. rewrite ?str_length_app in Hm. lia.
Qed.

(** ** The texts of metrics *)

(** What can be written so that it is read again. *)
Definition tag_ok (k v : string) : Prop := clean k = true /\ clean v = true /\ HasSuffix v "\" = false.
Definition field_ok (k : string) (v : Val) : Prop := forall x, buildValue v = Some x -> clean k = true /\ readable x = true.
Definition writable (s : WavefrontSerializer) (m : metric) : Prop :=
  clean (ws_Prefix s) = true /\ clean (name m) = true /\ map_Forall tag_ok (Tags m) /\ map_Forall field_ok (Metric.Fields m) /\
  10 ^ 9 <= tm m / 1000000000 < 10 ^ 10.

Lemma clean_concat l : Forall (fun s => clean s = true) l -> clean (concat_strings l) = true.
Proof. induction 1 as [|s l Hs _ IH]; [done|]. unfold concat_strings in *. cbn [foldr]. by rewrite clean_app, Hs, IH. Qed.

Lemma findSourceTag_ok s ts src ts' :
  map_Forall tag_ok ts -> findSourceTag ts s = (src, ts') -> clean src = true /\ HasSuffix src "\" = false /\ map_Forall tag_ok ts'.
Proof.
  intros Ht.
  assert (forall k, clean (default EmptyString (ts !! k)) = true /\ HasSuffix (default EmptyString (ts !! k)) "\" = false) as Hd.
  { intros k. destruct (ts !! k) as [v|] eqn:E; [|done]. by destruct (Ht _ _ E) as (_ & ? & ?). }
  assert (forall k v, ts !! k = Some v -> clean v = true /\ HasSuffix v "\" = false) as Hv.
  { intros k v E. by destruct (Ht _ _ E) as (_ & ? & ?). }
  unfold findSourceTag. destruct (ts !! "source") as [v|] eqn:E.
  { intros [= <- <-]. destruct (Hv _ _ E). split_and!; try done. by apply map_Forall_delete. }
  induction (SourceOverride s) as [|k l IH]; cbn [override_source]; [intros [= <- <-]; by destruct (Hd "host")|].
  destruct (ts !! k) as [v|] eqn:Ek; [|done]. intros [= <- <-]. destruct (Hv _ _ Ek). split_and!; try done.
  assert (map_Forall tag_ok (delete k ts)) as Hk by (by apply map_Forall_delete). apply map_Forall_insert_2; [|done].
  split; [done|]. destruct (delete k ts !! "host") as [w|] eqn:Ew; [|done]. by destruct (Hk _ _ Ew) as (_ & ? & ?).
Qed.

Lemma buildTags_ok s ts src ts' :
  map_Forall tag_ok ts -> buildTags ts s = (src, ts') -> quotable_text src /\ map_Forall tag_ok ts'.
Proof.
  intros Ht. unfold buildTags. destruct (findSourceTag _ s) as [source ts1] eqn:E. intros [= <- <-].
  apply findSourceTag_ok in E as (H1 & H2 & H3); [|by intros k v [Hk _]%map_lookup_filter_Some; apply Ht]. split; [by apply tagValueReplacer_quotable|by apply map_Forall_delete].
Qed.

(** Lines, each with its newline. *)
Lemma lines_of_cons body rest :
  clean body = true -> lines_of ((body +:+ String nl EmptyString) +:+ rest) = (body +:+ String nl EmptyString) :: lines_of rest.
Proof.
  intros Hb. induction body as [|c body IH]; [done|]. cbn [clean] in Hb. apply andb_true_iff in Hb as [Hc Hb].
  change ((String c body +:+ String nl EmptyString) +:+ rest) with (String c ((body +:+ String nl EmptyString) +:+ rest)). cbn [lines_of].
  rewrite decide_False by (by intros ->). by rewrite IH.
Qed.
Lemma clean_ascii s : clean s = true -> is_ascii s = true.
Proof.
  induction s as [|c s IH]; [done|]. cbn [clean is_ascii]. rewrite !andb_true_iff. unfold clean_char, code. intros [Hc Hs]. split; [|auto].
  apply andb_true_iff in Hc as [_ Hc]. apply Z.leb_le in Hc. apply Z.ltb_lt. lia.
Qed.
Lemma HasSuffix_app s t : HasSuffix (s +:+ t) t = true.
Proof.
  assert (exists u, strip_suffix t (s +:+ t) = Some u) as [u E]; [|unfold HasSuffix; by rewrite E].
  induction s as [|c s [u IH]].
  - change (EmptyString +:+ t) with t. exists EmptyString. destruct t; cbn [strip_suffix]; by rewrite decide_True.
  - change (String c s +:+ t) with (String c (s +:+ t)). cbn [strip_suffix]. case_decide; [by eexists|]. rewrite IH. by eexists.
Qed.

Lemma every_clean (P : ascii -> bool) s : every (fun c => clean_char c && P c) s = true -> clean s = true.
Proof. rewrite clean_every. apply every_impl. intros c. by rewrite andb_true_iff; intros [? _]. Qed.

Lemma add_tags_fields l pt :
  add_tags l pt = mkPoint (pt_Name pt) (pt_Value pt) (pt_Timestamp pt) (foldl (fun acc kv => <[kv.1 := kv.2]> acc) (pt_Tags pt) l).
Proof. revert pt. induction l as [|kv l IH]; intros pt; [by destruct pt|]. cbn [add_tags foldl]. apply IH. Qed.

Section Roundtrip.
Context `{MapRange}.

(** The metric that is read from the line of a field: its name is the one that was written, its tags the tags written
    and the source, under the default tags, its time the second, its value the one to six places. *)
Definition written_tags (s : WavefrontSerializer) (source : string) (ts : gmap string string) : gmap string string :=
  foldl (fun acc kv => <[sanitize_with s kv.1 := tagValueReplacer kv.2]> acc) {["source" := source]} (range_map ts).
Definition read_point (defaultTags : gmap string string) (s : WavefrontSerializer) (m : metric) (kv : string * Val) : option metric :=
  v ← buildValue kv.2;
  let '(source, ts) := buildTags (Tags m) s in
  Some (Metric.New (point_name s (name m) kv.1) (defaultTags ∪ written_tags s source ts) {["value" := GoScalar (SFloat64 (rounded6 v))]}
    (tm m / 1000000000 * 1000000000) []).

(** A line from which the parser, in any state, reads a metric. *)
Definition reads (defaultTags : gmap string string) (line : string) (m : metric) : Prop :=
  exists body pt, line = body +:+ String nl EmptyString /\ clean body = true /\ body <> EmptyString /\ convert_point defaultTags pt = inl m /\
    forall now p, at_ p line -> exists p', parse_elements now p = Some (inl pt, p').

Lemma field_line_reads dtags s m kv line :
  writable s m -> field_ok kv.1 kv.2 -> field_line s m kv = Some line -> exists m', read_point dtags s m kv = Some m' /\ reads dtags line m'.
Proof.
  intros (Hp & Hn & Ht & _ & Htm) Hf. unfold field_line, read_point. destruct (buildValue kv.2) as [x|] eqn:Ex; [|done]. binds.
  destruct (buildTags (Tags m) s) as [src ts] eqn:Eb. intros [= <-]. eexists. split; [done|].
  destruct (buildTags_ok _ _ _ _ Ht Eb) as [Hsrc Hts]. destruct (Hf x Ex) as [Hk Hx]. destruct (fixed6_read x Hx) as [Hv Hpf].
  pose proof (point_name_quotable s (name m) kv.1 Hp Hn Hk) as Hpn. set (secs := tm m / 1000000000) in *.
  set (l := prod_map (sanitize_with s) tagValueReplacer <$> range_map ts).
  assert (Forall (fun kv => quotable_text kv.1 /\ quotable_text kv.2) l) as Hl.
  { unfold l. rewrite Forall_fmap. apply Forall_forall. intros [k w] Hin. apply range_map_elem in Hin. destruct (Hts _ _ Hin) as (H1 & H2 & H3).
    split; [by apply plain_quotable, sanitize_plain|by apply tagValueReplacer_quotable]. }
  assert (uint64 secs = secs) as Eu by (unfold uint64; apply Z.mod_small; lia).
  pose proof (FormatUint_read secs ltac:(lia)) as Hr. pose proof (read_digits_numbers _ _ _ Hr) as Hnum.
  pose proof (FormatUint_length secs 10 ltac:(lia) ltac:(lia)) as Hlen.
  assert (ParseInt10 (FormatUint secs) = inl secs) as Hpi.
  { pose proof (ParseInt10_FormatInt secs ltac:(unfold MinInt64, MaxInt64; lia)) as E. unfold FormatInt in E. by rewrite (proj2 (Z.ltb_ge secs 0)) in E by lia. }
  exists (line_body (point_name s (name m) kv.1) (fixed6 x) (FormatUint secs) src l).
  exists (add_tags l (mkPoint (point_name s (name m) kv.1) (fixed6 x) secs {["source" := src]})).
  assert (formatMetricPoint s (point_name s (name m) kv.1) x secs src ts =
    line_body (point_name s (name m) kv.1) (fixed6 x) (FormatUint secs) src l +:+ String nl EmptyString) as ->.
  { unfold formatMetricPoint, line_body, l. rewrite Eu, !str_app_assoc, <- list_fmap_compose. done. }
  split; [done|]. split.
  { destruct Hpn as [Hpn _], Hsrc as [Hsrc _]. unfold line_body. rewrite !clean_app, Hpn, Hsrc, (every_clean _ _ Hv), (every_clean _ _ Hnum).
    rewrite clean_concat; [done|]. rewrite Forall_fmap. eapply Forall_impl; [exact Hl|]. intros [k w] [[Hkc _] [Hwc _]]. cbn [fst snd compose] in *.
    unfold raw_tag. cbn [fst snd]. by rewrite !clean_app, Hkc, Hwc. }
  split; [done|]. split.
  - unfold convert_point. rewrite add_tags_fields. cbn [pt_Value pt_Name pt_Timestamp pt_Tags]. rewrite Hpf. do 3 f_equal.
    unfold written_tags, l. by rewrite foldl_fmap.
  - intros now p Hat. eapply parse_line; try done. lia.
Qed.

Lemma concat_strings_cons l ls : concat_strings (l :: ls) = l +:+ concat_strings ls.
Proof. done. Qed.

Lemma reads_points clock dtags ls ms : Forall2 (reads dtags) ls ms -> forall p,
  exists pts p', parse_points clock (lines_of (concat_strings ls)) p = Some (inl pts, p') /\ convertPointToTelegrafMetric dtags pts = inl ms.
Proof.
  induction 1 as [|line m ls ms (body & pt & -> & Hb & Hne & Hc & Hr) _ IH]; intros p; [by exists [], p|].
  rewrite concat_strings_cons, lines_of_cons by done. cbn [parse_points].
  destruct (Hr (clock (length (lines_of (concat_strings ls)))) (reset (body +:+ String nl EmptyString) p)) as (p1 & ->).
  { left. split; [done|]. cbn [reset input]. apply runes_ascii. rewrite is_ascii_app. by rewrite clean_ascii. }
  binds. destruct (IH p1) as (pts & p2 & -> & Hp). binds. exists (pt :: pts), p2. split; [done|].
  cbn [convertPointToTelegrafMetric]. by rewrite Hc, Hp.
Qed.

Lemma reads_prepare dtags ls ms : Forall2 (reads dtags) ls ms -> prepare (concat_strings ls) = concat_strings ls.
Proof.
  intros Hl. destruct Hl as [|line m ls ms (body & pt & -> & Hb & Hne & _) Hls]; [done|].
  destruct body as [|c body]; [done|]. cbn [clean] in Hb. apply andb_true_iff in Hb as [Hc _].
  assert (exists t, concat_strings ((String c body +:+ String nl EmptyString) :: ls) = t +:+ String nl EmptyString) as [t Et].
  { rewrite concat_strings_cons. generalize (String c body). clear Hc. revert Hls. induction 1 as [|line' m' ls ms (body' & pt' & -> & _) _ IH]; intros b.
    - exists b. by rewrite str_app_nil_r.
    - destruct (IH (b +:+ String nl EmptyString +:+ body')) as [t Et]. exists t. rewrite <- Et, concat_strings_cons. by rewrite !str_app_assoc. }
  assert (HasSuffix (concat_strings ((String c body +:+ String nl EmptyString) :: ls)) (String nl EmptyString) = true) as Hs
    by (rewrite Et; apply HasSuffix_app).
  unfold prepare. revert Hs. rewrite concat_strings_cons.
  change ((String c body +:+ String nl EmptyString) +:+ concat_strings ls) with (String c ((body +:+ String nl EmptyString) +:+ concat_strings ls)).
  set (text := String c _). intros Hs. assert (strip_prefix (String nl EmptyString) text = None) as ->.
  { unfold text. cbn [strip_prefix]. rewrite decide_False; [done|]. by intros <-. }
  cbn [default from_option]. rewrite decide_False by done. by rewrite Hs.
Qed.

Lemma metric_reads dtags s m : writable s m ->
  Forall2 (reads dtags) (omap (field_line s m) (range_map (Metric.Fields m))) (omap (read_point dtags s m) (range_map (Metric.Fields m))).
Proof.
  intros Hm. assert (Forall (fun kv => field_ok kv.1 kv.2) (range_map (Metric.Fields m))) as Hf.
  { apply Forall_forall. intros [k v] Hin. apply range_map_elem in Hin. destruct Hm as (_ & _ & _ & Hf & _). by apply Hf. }
  induction Hf as [|kv l Hkv _ IH]; [constructor|]. cbn [omap list_omap]. destruct (field_line s m kv) as [line|] eqn:E.
  - destruct (field_line_reads dtags s m kv line Hm Hkv E) as (m' & -> & Hr). by constructor.
  - assert (read_point dtags s m kv = None) as ->; [|done]. revert E. unfold field_line, read_point.
    destruct (buildValue kv.2); [|done]. binds. by destruct (buildTags _ _).
Qed.

(** C31: the parser reads back what the serializer of the same format writes, under these conditions: the prefix, names, tags and keys of numeric fields are printable ASCII;
    no tag value ends in a backslash ([backslash_eats_quote]); the second of the time has ten digits; no number overflows when it is rounded to six places,
    nor is the infinity with a plus sign ([plus_infinity_refused]). Then
    parsing the text of a batch, with the parser in any state, gives one metric for every numeric field of every metric, in
    the order written, each with the name, the tags, the second and the value to six places that were written in the line: names and tag keys are as the serializer
    sanitized them, and tag values as it escaped them, with the backslash in front of a quote ([quote_keeps_escape]). *)
Theorem Wavefront_roundtrip (clock : nat -> Z) (dtags : gmap string string) (s : WavefrontSerializer) (ms : list metric) (p : PointParser) :
  Forall (writable s) ms ->
  exists p', Parse clock dtags (SerializeBatch s ms) p =
    Some (inl (concat ((fun m => omap (read_point dtags s m) (range_map (Metric.Fields m))) <$> ms)), p').
Proof.
  intros Hms. set (lines := concat ((fun m => omap (field_line s m) (range_map (Metric.Fields m))) <$> ms)).
  set (out := concat _). assert (SerializeBatch s ms = concat_strings lines) as ->.
  { unfold SerializeBatch, lines. clear. induction ms as [|m ms IH]; [done|]. cbn [fmap list_fmap concat]. rewrite concat_strings_cons.
    fold (serialize s <$> ms). rewrite IH. unfold serialize. generalize (omap (field_line s m) (range_map (Metric.Fields m))). intros l.
    induction l as [|a l IHl]; [done|]. cbn [app]. rewrite !concat_strings_cons, str_app_assoc. by rewrite <- IHl. }
  assert (Forall2 (reads dtags) lines out) as Hl.
  { unfold lines, out. clear lines out. induction Hms as [|m ms Hm _ IH]; [constructor|]. cbn [fmap list_fmap concat].
    apply Forall2_app; [by apply metric_reads|done]. }
  unfold Parse. rewrite (reads_prepare _ _ _ Hl). destruct (reads_points clock dtags _ _ Hl p) as (pts & p' & -> & Hp). binds. exists p'. by rewrite Hp.
Qed.
End Roundtrip.

(** A metric with a tag that is quoted, a value that is rounded, a flag and a text that is not written. *)
#[local] Existing Instance map_range_default.
Definition ex_wavefront : metric :=
  mkMetric "disk_io" [mkTag "host" "a b"; mkTag "path" ("x" +:+ q +:+ "y")]
    [mkField "used" (VFloat (f_frac 1 3)); mkField "ok" (VBool true); mkField "note" (VString "n")] 1600000000123456789 Untyped false.
Definition ex_wf_serializer : WavefrontSerializer := mkWS "pre." false [].

Lemma ex_wavefront_writable : writable ex_wf_serializer ex_wavefront.
Proof.
  split; [reflexivity|]. split; [reflexivity|]. split; [|split; [|by vm_compute]].
  - apply (bool_decide_unpack _). vm_compute. exact I.
  - rewrite map_Forall_to_list.
    let l := eval vm_compute in (map_to_list (Metric.Fields ex_wavefront)) in change (map_to_list (Metric.Fields ex_wavefront)) with l.
    repeat (apply Forall_cons_2; [intros x Hx; try discriminate; injection Hx as <-; by vm_compute|]). apply Forall_nil_2.
Qed.

Lemma Wavefront_roundtrip_witness :
  SerializeBatch ex_wf_serializer [ex_wavefront] <> EmptyString /\
  exists p', Parse (fun _ => 0) {["dc" := "b"]} (SerializeBatch ex_wf_serializer [ex_wavefront]) NewPointParser =
    Some (inl (concat ((fun m => omap (read_point {["dc" := "b"]} ex_wf_serializer m) (range_map (Metric.Fields m))) <$> [ex_wavefront])), p').
Proof.
  split; [by vm_compute|]. apply (Wavefront_roundtrip (fun _ => 0) {["dc" := "b"]} ex_wf_serializer [ex_wavefront] NewPointParser).
  constructor; [apply ex_wavefront_writable|constructor].
Defined.

(** ** Edges of the format *)

Definition parsed (text : string) : option ((list metric + WErr)) := fst <$> Parse (fun _ => 0) ∅ text NewPointParser.
Definition one_point (ts : gmap string string) (x : float64) : list metric :=
  [Metric.New "m" ts {["value" := GoScalar (SFloat64 x)]} 1600000000000000000 []].

(** An error in the key of a tag is dropped: a quote inside the key loses what came before it, without an error. *)
Lemma tag_error_dropped : parsed ("m 1 1600000000 a" +:+ q +:+ "b=c") = Some (inl (one_point {["b" := "c"]} f_one)).
Proof. vm_compute. reflexivity. Qed.

(** The backslash before a quote stays in the value. *)
Lemma quote_keeps_escape :
  parsed ("m 1 1600000000 a=" +:+ q +:+ "x\" +:+ q +:+ "y" +:+ q) = Some (inl (one_point {["a" := "x\" +:+ q +:+ "y"]} f_one)).
Proof. vm_compute. reflexivity. Qed.

(** The text of a metric with a tag value that ends in a backslash reads back without the tag. *)
Lemma backslash_eats_quote :
  parsed (Serialize (mkWS EmptyString false []) (mkMetric "m" [mkTag "p" "c:\"; mkTag "source" "s"] [mkField "value" (VInt 1)] 1600000000000000000 Untyped false)) =
  Some (inr ErrQuotes).
Proof. vm_compute. reflexivity. Qed.

(** What is written for an infinite value. *)
Lemma plus_infinity_refused :
  parsed (Serialize (mkWS EmptyString false []) (mkMetric "m" [] [mkField "value" (VFloat (S754_infinity false))] 1600000000000000000 Untyped false)) =
  Some (inr (ErrValue EmptyString)).
Proof. vm_compute. reflexivity. Qed.
