(* ===== verification/TextProcessor.v ===== *)
(** * The strings processor

    [plugins/processors/strings/strings.go]: functions on texts applied to tag values, tag keys, field values, field
    keys and names, in place. The functions are those of the packages [strings], [encoding/base64] and
    [unicode/utf8]; the tables of [unicode] beyond ASCII are the class [UnicodeTables].

    [None] is a panic: a slice expression with a negative width. *)

From Stdlib Require Import Ascii.
From S2P Require Import Prelude Float64 Strconv Strings Metric Tracking Selfstat Interfaces Filter Running Accumulator Aggregators Processors.

(** ** Runes *)

Class UnicodeTables := {
  table_lower : Z -> Z;
  table_upper : Z -> Z;
  table_title : Z -> Z;
  table_letter : Z -> bool;
  table_digit : Z -> bool;
}.

(** [strings.Map] for a function that keeps every rune; bytes that are no UTF-8 become the error rune. *)
Definition Map (f : Z -> Z) (s : string) : string := concat_strings ((fun rb => encode_rune (f rb.1)) <$> runes s).

(** [utf8.Valid]: an error rune is three bytes long. *)
Definition Valid (s : string) : bool := forallb (fun rb => negb ((rb.1 =? RuneError) && (String.length rb.2 =? 1)%nat)) (runes s).

Section Case.
Context `{UnicodeTables}.

Definition to_lower (r : Z) : Z := if r <? 128 then (if between 65 90 r then r + 32 else r) else table_lower r.
Definition to_upper (r : Z) : Z := if r <? 128 then (if between 97 122 r then r - 32 else r) else table_upper r.
Definition to_title (r : Z) : Z := if r <? 128 then (if between 97 122 r then r - 32 else r) else table_title r.

Definition ToLower (s : string) : string := Map to_lower s.
Definition ToUpper (s : string) : string := Map to_upper s.

(** [isSeparator] of the package [strings]. *)
Definition isSeparator (r : Z) : bool :=
  if r <? 128 then negb (between 48 57 r || between 97 122 r || between 65 90 r || (r =? 95))
  else if table_letter r || table_digit r then false
  else IsSpace r.

(** [strings.Title]: the rune before the first is a space. *)
Fixpoint title_loop (prev : Z) (rs : list (Z * string)) : string :=
  match rs with
  | [] => EmptyString
  | (r, _) :: rs => encode_rune (if isSeparator prev then to_title r else r) +:+ title_loop r rs
  end.
Definition Title (s : string) : string := title_loop 32 (runes s).
End Case.

(** ** Trimming *)

Fixpoint drop_runes (P : Z -> bool) (rs : list (Z * string)) : list (Z * string) :=
  match rs with
  | [] => []
  | (r, b) :: rs' => if P r then drop_runes P rs' else rs
  end.
Definition text_of (rs : list (Z * string)) : string := concat_strings (snd <$> rs).
Definition TrimLeftFunc (s : string) (P : Z -> bool) : string := text_of (drop_runes P (runes s)).
Definition TrimRightFunc (s : string) (P : Z -> bool) : string := text_of (reverse (drop_runes P (reverse (runes s)))).
Definition TrimFunc (s : string) (P : Z -> bool) : string := TrimRightFunc (TrimLeftFunc s P) P.

(** [makeCutsetFunc]. *)
Definition in_cutset (cutset : string) (r : Z) : bool := bool_decide (r ∈ (runes cutset).*1).
Definition TrimPrefix (s p : string) : string := default s (strip_prefix p s).

(** [strings.Replace(s, old, new, -1)]: the empty text is found before the first rune and after every one. *)
Definition Replace (s old new : string) : string :=
  if decide (old = new) then s
  else if decide (old = EmptyString) then new +:+ concat_strings ((fun rb => rb.2 +:+ new) <$> runes s)
  else ReplaceAll s old new.

(** ** [base64.StdEncoding.DecodeString] *)

Definition base64_val (c : ascii) : option Z :=
  let z := byte_of c in
  if between 65 90 z then Some (z - 65)
  else if between 97 122 z then Some (z - 71)
  else if between 48 57 z then Some (z + 4)
  else if z =? 43 then Some 62
  else if z =? 47 then Some 63
  else None.

Fixpoint without_newlines (s : string) : string :=
  match s with
  | EmptyString => EmptyString
  | String c s => if (byte_of c =? 10) || (byte_of c =? 13) then without_newlines s else String c (without_newlines s)
  end.

(** Quanta of four characters; the last may be padded. The bits that padding leaves over are not looked at. *)
Fixpoint base64_quanta (s : string) : option string :=
  match s with
  | EmptyString => Some EmptyString
  | String a (String b (String c (String d rest))) =>
    va ← base64_val a;
    vb ← base64_val b;
    let b1 := byte_char ((va * 4 + vb / 16) mod 256) in
    if byte_of d =? 61 then
      if decide (rest = EmptyString) then
        if byte_of c =? 61 then Some (String b1 EmptyString)
        else vc ← base64_val c; Some (String b1 (String (byte_char ((vb * 16 + vc / 4) mod 256)) EmptyString))
      else None
    else
      vc ← base64_val c;
      vd ← base64_val d;
      r ← base64_quanta rest;
      Some (String b1 (String (byte_char ((vb * 16 + vc / 4) mod 256)) (String (byte_char ((vc * 64 + vd) mod 256)) r))
           )
  | _ => None
  end.
Definition DecodeString (s : string) : option string := base64_quanta (without_newlines s).

(** ** Converters *)

Record converter := mkConverter {
  Field : string;
  FieldKey : string;
  Tag : string;
  TagKey : string;
  Measurement : string;
  Dest : string;
  Cutset : string;
  Suffix : string;
  Prefix : string;
  Old : string;
  New : string;
  Width : Z;
}.

(** The tables of the configuration, in the order of [initOnce]. *)
Inductive Kind := KLower | KUpper | KTitle | KTrim | KTrimLeft | KTrimRight | KTrimPrefix | KTrimSuffix | KReplace | KLeft | KBase64.

Record Strings := mkStrings {
  Lowercase : list converter;
  Uppercase : list converter;
  Titlecase : list converter;
  STrim : list converter;
  STrimLeft : list converter;
  STrimRight : list converter;
  STrimPrefix : list converter;
  STrimSuffix : list converter;
  SReplace : list converter;
  Left : list converter;
  Base64Decode : list converter;
  converters : list (Kind * converter);
  init : bool;
}.

Section Processor.
Context `{UnicodeTables} `{MapRange}.

(** [c.fn]. *)
Definition fn (kc : Kind * converter) (s : string) : option string :=
  let '(k, c) := kc in
  match k with
  | KLower => Some (ToLower s)
  | KUpper => Some (ToUpper s)
  | KTitle => Some (Title s)
  | KTrim => Some (if decide (Cutset c <> EmptyString) then TrimFunc s (in_cutset (Cutset c)) else TrimFunc s IsSpace)
  | KTrimLeft => Some (if decide (Cutset c <> EmptyString) then TrimLeftFunc s (in_cutset (Cutset c)) else TrimLeftFunc s IsSpace)
  | KTrimRight => Some (if decide (Cutset c <> EmptyString) then TrimRightFunc s (in_cutset (Cutset c)) else TrimRightFunc s IsSpace)
  | KTrimPrefix => Some (TrimPrefix s (Prefix c))
  | KTrimSuffix => Some (TrimSuffix s (Suffix c))
  | KReplace => let n := Replace s (Old c) (New c) in Some (if decide (n = EmptyString) then s else n)
  | KLeft =>
    if Z.of_nat (String.length s) <? Width c then Some s
    else if Width c <? 0 then None
    else Some (str_take (Z.to_nat (Width c)) s)
  | KBase64 => match DecodeString s with Some d => Some (if Valid d then d else s) | None => Some s end
  end.

(** A loop over the entries of a map that changes the metric. *)
Fixpoint loop {A} (f : A -> metric -> option metric) (l : list A) (m : metric) : option metric :=
  match l with [] => Some m | a :: l => m ← f a m; loop f l m end.

(** The entries of a map, or the one with a key. *)
Definition selected {V} (key : string) (get : string -> option V) (all : gmap string V) : list (string * V) :=
  if decide (key = "*") then range_map all else match get key with Some v => range_map {[key := v]} | None => [] end.

Definition convertTag (kc : Kind * converter) (m : metric) : option metric :=
  let c := kc.2 in
  loop (fun kv m =>
    let dest := if decide (Tag c <> "*" /\ Dest c <> EmptyString) then Dest c else kv.1 in
    v ← fn kc kv.2; Some (AddTag dest v m)) (selected (Tag c) (fun k => GetTag k m) (Tags m)) m.

Definition convertTagKey (kc : Kind * converter) (m : metric) : option metric :=
  let c := kc.2 in
  loop (fun kv m =>
    k ← fn kc kv.1; Some (if decide (k <> EmptyString) then AddTag k kv.2 (RemoveTag kv.1 m) else m))
    (selected (TagKey c) (fun k => GetTag k m) (Tags m)) m.

Definition convertField (kc : Kind * converter) (m : metric) : option metric :=
  let c := kc.2 in
  loop (fun kv m =>
    let dest := if decide (Field c <> "*" /\ Dest c <> EmptyString) then Dest c else kv.1 in
    match kv.2 with
    | VString fv => v ← fn kc fv; Some (AddField dest (GoScalar (SString v)) m)
    | _ => Some m
    end) (selected (Field c) (fun k => GetField k m) (Metric.Fields m)) m.

Definition convertFieldKey (kc : Kind * converter) (m : metric) : option metric :=
  let c := kc.2 in
  loop (fun kv m =>
    k ← fn kc kv.1; Some (if decide (k <> EmptyString) then AddField k (go_of_val kv.2) (RemoveField kv.1 m) else m))
    (selected (FieldKey c) (fun k => GetField k m) (Metric.Fields m)) m.

Definition convertMeasurement (kc : Kind * converter) (m : metric) : option metric :=
  if decide (name m <> Measurement kc.2 /\ Measurement kc.2 <> "*") then Some m
  else n ← fn kc (name m); Some (SetName n m).

(** A step that the converter may ask for. *)
Definition asked (key : string) (f : metric -> option metric) (m : metric) : option metric :=
  if decide (key <> EmptyString) then f m else Some m.

Definition convert (kc : Kind * converter) (m : metric) : option metric :=
  m ← asked (Field kc.2) (convertField kc) m;
  m ← asked (FieldKey kc.2) (convertFieldKey kc) m;
  m ← asked (Tag kc.2) (convertTag kc) m;
  m ← asked (TagKey kc.2) (convertTagKey kc) m;
  asked (Measurement kc.2) (convertMeasurement kc) m.

Definition all_converters (s : Strings) : list (Kind * converter) :=
  (pair KLower <$> Lowercase s) ++ (pair KUpper <$> Uppercase s) ++ (pair KTitle <$> Titlecase s) ++
  (pair KTrim <$> STrim s) ++ (pair KTrimLeft <$> STrimLeft s) ++ (pair KTrimRight <$> STrimRight s) ++
  (pair KTrimPrefix <$> STrimPrefix s) ++ (pair KTrimSuffix <$> STrimSuffix s) ++ (pair KReplace <$> SReplace s) ++
  (pair KLeft <$> Left s) ++ (pair KBase64 <$> Base64Decode s).

Definition initOnce (s : Strings) : Strings :=
  if init s then s
  else mkStrings (Lowercase s) (Uppercase s) (Titlecase s) (STrim s) (STrimLeft s) (STrimRight s) (STrimPrefix s) (STrimSuffix s)
    (SReplace s) (Left s) (Base64Decode s) (all_converters s) true.

(** All converters, in order. *)
Definition edit (s : Strings) (m : metric) : option metric := loop convert (converters s) m.

Definition Apply {W} (ins : list tmetric) (s : Strings) (w : W) : option (list tmetric * Strings * W) :=
  let s := initOnce s in
  out ← mapM (fun m => b ← edit s (base m); Some (with_base b m)) ins;
  Some (out, s, w).
End Processor.

#[export] Instance strings_processor `{UnicodeTables} `{MapRange} W : Processor Strings W := Apply.

(** ** What the processor does to the maps of a metric *)

Definition total_fn `{UnicodeTables} (kc : Kind * converter) (s : string) : string := default s (fn kc s).
Definition new_key (g : string -> string) (k : string) : string := if decide (g k <> EmptyString) then g k else k.
Definition rename_keys {V} (g : string -> string) (M : gmap string V) : gmap string V :=
  list_to_map ((fun kv => (new_key g kv.1, kv.2)) <$> map_to_list M).

Definition abs_values {V} (h : V -> option V) (key dest : string) (M : gmap string V) : gmap string V :=
  if decide (key = "*") then (fun v => default v (h v)) <$> M
  else match M !! key ≫= h with Some v => <[if decide (dest <> EmptyString) then dest else key := v]> M | None => M end.
Definition abs_keys {V} (g : string -> string) (key : string) (M : gmap string V) : gmap string V :=
  if decide (key = "*") then rename_keys g M else move_key key (new_key g key) M.

Definition on_string (g : string -> string) (v : Val) : option Val := if v is VString s then Some (VString (g s)) else None.

Section Abstract.
Context `{UnicodeTables}.

Definition if_asked {A} (key : string) (f : A -> A) (a : A) : A := if decide (key <> EmptyString) then f a else a.

Definition abs_fields1 (kc : Kind * converter) : gmap string Val -> gmap string Val :=
  if_asked (Field kc.2) (abs_values (on_string (total_fn kc)) (Field kc.2) (Dest kc.2)).
Definition abs_fields2 (kc : Kind * converter) : gmap string Val -> gmap string Val :=
  if_asked (FieldKey kc.2) (abs_keys (total_fn kc) (FieldKey kc.2)).
Definition abs_tags1 (kc : Kind * converter) : gmap string string -> gmap string string :=
  if_asked (Tag kc.2) (abs_values (Some ∘ total_fn kc) (Tag kc.2) (Dest kc.2)).
Definition abs_tags2 (kc : Kind * converter) : gmap string string -> gmap string string :=
  if_asked (TagKey kc.2) (abs_keys (total_fn kc) (TagKey kc.2)).
Definition abs_name1 (kc : Kind * converter) (n : string) : string :=
  if decide (n <> Measurement kc.2 /\ Measurement kc.2 <> "*") then n else total_fn kc n.
Definition abs_name (kc : Kind * converter) : string -> string := if_asked (Measurement kc.2) (abs_name1 kc).

Definition abs_convert (a : AbsMetric) (kc : Kind * converter) : AbsMetric :=
  mkAbs (abs_name kc (a_name a)) (abs_tags2 kc (abs_tags1 kc (a_tags a))) (abs_fields2 kc (abs_fields1 kc (a_fields a)))
    (a_time a) (a_type a) (a_aggregate a).

(** Renaming all keys does not depend on their order when no key gets the old or the new name of another. *)
Definition apart {V} (g : string -> string) (key : string) (M : gmap string V) : Prop :=
  key = "*" -> map_Forall (fun k1 _ => map_Forall (fun k2 _ => k1 <> k2 -> new_key g k1 <> k2 /\ new_key g k1 <> new_key g k2) M) M.
Definition keys_apart (kc : Kind * converter) (a : AbsMetric) : Prop :=
  apart (total_fn kc) (FieldKey kc.2) (abs_fields1 kc (a_fields a)) /\ apart (total_fn kc) (TagKey kc.2) (abs_tags1 kc (a_tags a)).
Fixpoint all_apart (l : list (Kind * converter)) (a : AbsMetric) : Prop :=
  match l with [] => True | kc :: l => keys_apart kc a /\ all_apart l (abs_convert a kc) end.
#[export] Instance keys_apart_dec kc a : Decision (keys_apart kc a).
Proof. unfold keys_apart, apart. apply _. Defined.
#[export] Instance all_apart_dec l : forall a, Decision (all_apart l a).
Proof. induction l as [|kc l IH]; intros a; cbn [all_apart]; apply _. Defined.
Definition width_ok (kc : Kind * converter) : bool := if kc.1 is KLeft then 0 <=? Width kc.2 else true.

Lemma fn_total kc s : width_ok kc = true -> fn kc s = Some (total_fn kc s).
Proof.
  intros Hw. unfold total_fn. destruct kc as [k c]. destruct k; cbn [width_ok fst snd] in *; cbn [fn]; try done.
  - apply Z.leb_le in Hw. destruct (_ <? Width c); [done|]. by rewrite (proj2 (Z.ltb_ge _ _)).
  - by destruct (DecodeString s).
Qed.
End Abstract.

(** *** Loops over a map *)

Lemma foldl_values {V} (h : V -> V) (l : list (string * V)) : forall M : gmap string V, NoDup l.*1 ->
  foldl (fun M kv => <[kv.1 := h kv.2]> M) M l = list_to_map (prod_map id h <$> l) ∪ M.
Proof.
  induction l as [|[k v] l IH]; intros M Hnd; [cbn; by rewrite (left_id_L ∅ (∪))|]. cbn [fmap list_fmap foldl fst snd prod_map] in *.
  apply NoDup_cons in Hnd as [Hk Hnd]. rewrite IH by done. cbn. rewrite <- insert_union_r, insert_union_l; [done|].
  apply not_elem_of_list_to_map_1. intros Hin. apply Hk. rewrite <- list_fmap_compose in Hin. exact Hin.
Qed.

(** One round of a loop over values, and of one over keys. *)
Definition value_step {V} (h : V -> option V) (key dest : string) (M : gmap string V) (kv : string * V) : gmap string V :=
  match h kv.2 with Some v => <[if decide (key <> "*" /\ dest <> EmptyString) then dest else kv.1 := v]> M | None => M end.
Definition key_step {V} (g : string -> string) (M : gmap string V) (kv : string * V) : gmap string V :=
  if decide (g kv.1 <> EmptyString) then <[g kv.1 := kv.2]> (delete kv.1 M) else M.

Lemma key_step_new {V} g (M : gmap string V) kv : M !! kv.1 = Some kv.2 -> key_step g M kv = <[new_key g kv.1 := kv.2]> (delete kv.1 M).
Proof. intros Hk. unfold key_step, new_key. case_decide; [done|]. by rewrite insert_delete_id. Qed.

Lemma value_step_all {V} (h : V -> option V) dest (l : list (string * V)) : forall M : gmap string V,
  NoDup l.*1 -> (forall kv, kv ∈ l -> M !! kv.1 = Some kv.2) ->
  foldl (value_step h "*" dest) M l = foldl (fun M kv => <[kv.1 := default kv.2 (h kv.2)]> M) M l.
Proof.
  induction l as [|[k v] l IH]; intros M Hnd Hm; [done|]. cbn [foldl fmap list_fmap fst snd] in *. apply NoDup_cons in Hnd as [Hk Hnd].
  assert (value_step h "*" dest M (k, v) = <[k := default v (h v)]> M) as ->.
  { unfold value_step. cbn [fst snd]. rewrite decide_False by naive_solver. destruct (h v); [done|]. cbn.
    rewrite insert_id; [done|]. apply (Hm (k, v)). by left. }
  apply IH; [done|]. intros kv Hin. rewrite lookup_insert_ne; [apply Hm; by right|]. intros ->. apply Hk. by apply list_elem_of_fmap_2.
Qed.

Section Loops.
Context `{MapRange}.

Lemma range_values {V} (h : V -> V) (M : gmap string V) :
  foldl (fun M kv => <[kv.1 := h kv.2]> M) M (range_map M) = h <$> M.
Proof.
  rewrite foldl_values by apply range_map_NoDup. apply map_eq. intros k. rewrite lookup_fmap.
  destruct (M !! k) as [v|] eqn:E.
  - apply lookup_union_Some_l. apply elem_of_list_to_map_1.
    + rewrite <- list_fmap_compose. apply range_map_NoDup.
    + apply list_elem_of_fmap. exists (k, v). split; [done|by apply range_map_elem].
  - cbn. apply lookup_union_None. split; [|done]. apply not_elem_of_list_to_map_1. rewrite <- list_fmap_compose.
    intros Hin. apply list_elem_of_fmap in Hin as ([k' v'] & -> & Hin%range_map_elem). cbn in E. congruence.
Qed.

Lemma foldl_keys {V} g (l : list (string * V)) : forall M : gmap string V,
  NoDup l.*1 -> (forall kv1 kv2, kv1 ∈ l -> kv2 ∈ l -> kv1.1 <> kv2.1 -> new_key g kv1.1 <> kv2.1 /\ new_key g kv1.1 <> new_key g kv2.1) ->
  (forall kv, kv ∈ l -> M !! kv.1 = Some kv.2) ->
  forall k, foldl (key_step g) M l !! k =
    match (list_to_map ((fun kv => (new_key g kv.1, kv.2)) <$> l) : gmap string V) !! k with
    | Some v => Some v
    | None => if decide (k ∈ l.*1) then None else M !! k
    end.
Proof.
  induction l as [|[k0 v0] l IH]; intros M Hnd Ha Hm k; [done|]. cbn [fmap list_fmap foldl fst snd] in *. apply NoDup_cons in Hnd as [Hk0 Hnd].
  assert (forall kv, kv ∈ l -> k0 <> kv.1) as Hne by (intros kv Hin ->; apply Hk0; by apply list_elem_of_fmap_2).
  rewrite (key_step_new g M (k0, v0)) by (apply (Hm (k0, v0)); by left). cbn [fst snd].
  rewrite IH; [|done|intros; apply Ha; set_solver|].
  2:{ intros kv Hin. destruct (Ha (k0, v0) kv ltac:(by left) ltac:(by right) (Hne kv Hin)) as [H1 _]. cbn [fst] in H1.
      rewrite lookup_insert_ne by done. rewrite lookup_delete_ne by (by apply Hne). apply Hm. by right. }
  cbn [list_to_map foldr uncurry]. set (rest := list_to_map _).
  destruct (decide (new_key g k0 = k)) as [<-|Hnk].
  - change (list_to_map ((new_key g k0, v0) :: ((fun kv => (new_key g kv.1, kv.2)) <$> l))) with (<[new_key g k0 := v0]> rest).
    rewrite lookup_insert_eq. assert (rest !! new_key g k0 = None) as ->.
    { apply not_elem_of_list_to_map_1. rewrite <- list_fmap_compose. intros Hin. apply list_elem_of_fmap in Hin as (kv & Ek & Hin).
      destruct (Ha (k0, v0) kv ltac:(by left) ltac:(by right) (Hne kv Hin)) as [_ H2]. by cbn in Ek. }
    rewrite decide_False; [by rewrite lookup_insert_eq|]. intros Hin. apply list_elem_of_fmap in Hin as (kv & Ek & Hin).
    destruct (Ha (k0, v0) kv ltac:(by left) ltac:(by right) (Hne kv Hin)) as [H1 _]. done.
  - change (list_to_map ((new_key g k0, v0) :: ((fun kv => (new_key g kv.1, kv.2)) <$> l))) with (<[new_key g k0 := v0]> rest).
    rewrite (lookup_insert_ne rest) by done. destruct (rest !! k); [done|]. rewrite lookup_insert_ne by done.
    destruct (decide (k = k0)) as [->|Hk].
    + rewrite lookup_delete_eq. rewrite (decide_True (P := k0 ∈ k0 :: l.*1)) by (by left). by case_decide.
    + rewrite lookup_delete_ne by done. destruct (decide (k ∈ l.*1)) as [Hin|Hin].
      * by rewrite decide_True by (by right).
      * by rewrite decide_False by (rewrite elem_of_cons; naive_solver).
Qed.

Lemma range_keys {V} g (M : gmap string V) : apart g "*" M ->
  foldl (key_step g) M (range_map M) = rename_keys g M.
Proof.
  intros Ha. apply map_eq. intros k. rewrite foldl_keys.
  - unfold rename_keys. rewrite (list_to_map_proper (M := gmap string) _ ((fun kv => (new_key g kv.1, kv.2)) <$> map_to_list M)).
    + destruct (_ !! k); [done|]. case_decide as Hin; [done|]. destruct (M !! k) as [v|] eqn:E; [|done].
      destruct Hin. apply list_elem_of_fmap. exists (k, v). split; [done|by apply range_map_elem].
    + rewrite <- list_fmap_compose. apply NoDup_fmap_2_strong; [|apply (NoDup_fmap_1 fst), range_map_NoDup].
      intros [k1 v1] [k2 v2] H1%range_map_elem H2%range_map_elem Ek. cbn in Ek. destruct (decide (k1 = k2)) as [->|Hn]; [congruence|].
      by destruct (Ha eq_refl _ _ H1 _ _ H2 Hn).
    + by rewrite range_map_perm.
  - apply range_map_NoDup.
  - intros [k1 v1] [k2 v2] H1%range_map_elem H2%range_map_elem Hn. by apply (Ha eq_refl _ _ H1 _ _ H2 Hn).
  - intros [k1 v1] H1. by apply range_map_elem in H1.
Qed.

Lemma values_abs {V} (h : V -> option V) key dest (M : gmap string V) get :
  get key = M !! key -> foldl (value_step h key dest) M (selected key get M) = abs_values h key dest M.
Proof.
  intros Hg. unfold selected, abs_values. destruct (decide (key = "*")) as [->|Hk].
  - rewrite value_step_all; [apply (range_values (fun v => default v (h v)))|apply range_map_NoDup|by intros [k v] Hin%range_map_elem].
  - rewrite Hg. destruct (M !! key) as [v|] eqn:E; [|done]. rewrite range_map_singleton. cbn. unfold value_step. cbn [fst snd].
    destruct (h v); [|done]. destruct (decide (dest <> EmptyString)); [by rewrite decide_True|by rewrite decide_False by naive_solver].
Qed.
Lemma keys_abs {V} g key (M : gmap string V) get :
  apart g key M -> get key = M !! key -> foldl (key_step g) M (selected key get M) = abs_keys g key M.
Proof.
  intros Ha Hg. unfold selected, abs_keys. destruct (decide (key = "*")) as [->|Hk]; [by apply range_keys|].
  rewrite Hg. unfold move_key. destruct (M !! key) as [v|] eqn:E; [|done]. rewrite range_map_singleton. cbn. by rewrite key_step_new.
Qed.

(** *** The converters *)

Context `{UnicodeTables}.

Definition acts (f : metric -> option metric) (g : AbsMetric -> AbsMetric) (m : metric) : Prop :=
  wf m -> exists m', f m = Some m' /\ wf m' /\ abs m' = g (abs m).

Lemma loop_tags {A} (f : A -> metric -> option metric) step l :
  (forall kv m, acts (f kv) (fun a => abs_with_tags (step (a_tags a) kv) a) m) ->
  forall m, acts (loop f l) (fun a => abs_with_tags (foldl step (a_tags a) l) a) m.
Proof.
  intros Hf. induction l as [|kv l IH]; intros m Hw; [by exists m|]. cbn [loop foldl]. destruct (Hf kv m Hw) as (m1 & -> & Hw1 & E1). binds.
  destruct (IH m1 Hw1) as (m2 & -> & Hw2 & E2). exists m2. split_and!; try done. rewrite E2, E1. done.
Qed.
Lemma loop_fields {A} (f : A -> metric -> option metric) step l :
  (forall kv m, acts (f kv) (fun a => abs_with_fields (step (a_fields a) kv) a) m) ->
  forall m, acts (loop f l) (fun a => abs_with_fields (foldl step (a_fields a) l) a) m.
Proof.
  intros Hf. induction l as [|kv l IH]; intros m Hw; [by exists m|]. cbn [loop foldl]. destruct (Hf kv m Hw) as (m1 & -> & Hw1 & E1). binds.
  destruct (IH m1 Hw1) as (m2 & -> & Hw2 & E2). exists m2. split_and!; try done. rewrite E2, E1. done.
Qed.

Lemma convertTag_acts kc m : width_ok kc = true ->
  acts (convertTag kc) (fun a => abs_with_tags (abs_values (Some ∘ total_fn kc) (Tag kc.2) (Dest kc.2) (a_tags a)) a) m.
Proof.
  intros Hk Hw. unfold convertTag. rewrite <- (values_abs _ _ _ _ (fun k => GetTag k m)) by (by apply GetTag_Tags).
  apply loop_tags; [|done]. intros kv m1 Hw1. rewrite fn_total by done. binds. eexists. split; [done|]. split; [auto with drone|]. by rewrite abs_AddTag.
Qed.
Lemma convertTagKey_acts kc m : width_ok kc = true -> apart (total_fn kc) (TagKey kc.2) (Tags m) ->
  acts (convertTagKey kc) (fun a => abs_with_tags (abs_keys (total_fn kc) (TagKey kc.2) (a_tags a)) a) m.
Proof.
  intros Hk Ha Hw. unfold convertTagKey. change (a_tags (abs m)) with (Tags m).
  rewrite <- (keys_abs _ _ _ (fun k => GetTag k m)) by (done || by apply GetTag_Tags).
  apply loop_tags; [|done]. intros kv m1 Hw1. rewrite fn_total by done. binds. eexists. split; [done|]. unfold key_step.
  destruct (decide _); [|done]. rewrite abs_move_tag by done. split; [auto with drone|done].
Qed.
Lemma convertField_acts kc m : width_ok kc = true ->
  acts (convertField kc) (fun a => abs_with_fields (abs_values (on_string (total_fn kc)) (Field kc.2) (Dest kc.2) (a_fields a)) a) m.
Proof.
  intros Hk Hw. unfold convertField. rewrite <- (values_abs _ _ _ _ (fun k => GetField k m)) by (by apply GetField_Fields).
  apply loop_fields; [|done]. intros [k v] m1 Hw1. unfold value_step. cbn [fst snd]. destruct v; cbn [on_string]; try (by exists m1).
  rewrite fn_total by done. binds. eexists. split; [done|]. split; [auto with drone|]. by rewrite abs_AddField.
Qed.
Lemma convertFieldKey_acts kc m : width_ok kc = true -> apart (total_fn kc) (FieldKey kc.2) (Metric.Fields m) ->
  acts (convertFieldKey kc) (fun a => abs_with_fields (abs_keys (total_fn kc) (FieldKey kc.2) (a_fields a)) a) m.
Proof.
  intros Hk Ha Hw. unfold convertFieldKey. change (a_fields (abs m)) with (Metric.Fields m).
  rewrite <- (keys_abs _ _ _ (fun k => GetField k m)) by (done || by apply GetField_Fields).
  apply loop_fields; [|done]. intros kv m1 Hw1. rewrite fn_total by done. binds. eexists. split; [done|]. unfold key_step.
  destruct (decide _); [|done]. rewrite abs_move_field, convertField_go_of_val by done. split; [auto with drone|done].
Qed.

Lemma asked_acts key f g m : acts f g m -> acts (asked key f) (if_asked key g) m.
Proof. intros Hf Hw. unfold asked, if_asked. case_decide; [by apply Hf|by exists m]. Qed.

Lemma if_asked_fields key f a : if_asked key (fun a => abs_with_fields (f (a_fields a)) a) a = abs_with_fields (if_asked key f (a_fields a)) a.
Proof. unfold if_asked. case_decide; [done|by destruct a]. Qed.
Lemma if_asked_tags key f a : if_asked key (fun a => abs_with_tags (f (a_tags a)) a) a = abs_with_tags (if_asked key f (a_tags a)) a.
Proof. unfold if_asked. case_decide; [done|by destruct a]. Qed.

Lemma if_asked_name key f a : if_asked key (fun a => abs_with_name (f (a_name a)) a) a = abs_with_name (if_asked key f (a_name a)) a.
Proof. unfold if_asked. case_decide; [done|by destruct a]. Qed.

Lemma convertMeasurement_acts kc m : width_ok kc = true ->
  acts (convertMeasurement kc) (fun a => abs_with_name (abs_name1 kc (a_name a)) a) m.
Proof.
  intros Hk Hw. unfold convertMeasurement, abs_name1. change (a_name (abs m)) with (name m). destruct (decide _); [by exists m|].
  rewrite fn_total by done. binds. eexists. split; [done|]. split; [by apply set_name_wf|done].
Qed.

Lemma convert_acts kc m : width_ok kc = true -> keys_apart kc (abs m) -> acts (convert kc) (fun a => abs_convert a kc) m.
Proof.
  intros Hk [Hf Ht] Hw. unfold convert.
  destruct (asked_acts (Field kc.2) _ _ m (convertField_acts kc m Hk) Hw) as (m1 & -> & Hw1 & E1). binds.
  rewrite (if_asked_fields _ (abs_values _ _ _)) in E1. fold (abs_fields1 kc) in E1.
  assert (Metric.Fields m1 = abs_fields1 kc (a_fields (abs m))) as F1 by (change (Metric.Fields m1) with (a_fields (abs m1)); by rewrite E1). rewrite <- F1 in Hf.
  destruct (asked_acts (FieldKey kc.2) _ _ m1 (convertFieldKey_acts kc m1 Hk Hf) Hw1) as (m2 & -> & Hw2 & E2). binds.
  rewrite (if_asked_fields _ (abs_keys _ _)) in E2. fold (abs_fields2 kc) in E2.
  destruct (asked_acts (Tag kc.2) _ _ m2 (convertTag_acts kc m2 Hk) Hw2) as (m3 & -> & Hw3 & E3). binds.
  rewrite (if_asked_tags _ (abs_values _ _ _)) in E3. fold (abs_tags1 kc) in E3.
  assert (Tags m3 = abs_tags1 kc (a_tags (abs m))) as F3 by (change (Tags m3) with (a_tags (abs m3)); by rewrite E3, E2, E1). rewrite <- F3 in Ht.
  destruct (asked_acts (TagKey kc.2) _ _ m3 (convertTagKey_acts kc m3 Hk Ht) Hw3) as (m4 & -> & Hw4 & E4). binds.
  rewrite (if_asked_tags _ (abs_keys _ _)) in E4. fold (abs_tags2 kc) in E4.
  destruct (asked_acts (Measurement kc.2) _ _ m4 (convertMeasurement_acts kc m4 Hk) Hw4) as (m5 & -> & Hw5 & E5).
  exists m5. split_and!; [done|done|]. rewrite E5.
  rewrite (if_asked_name _ (abs_name1 kc)).
  by rewrite E4, E3, E2, E1.
Qed.

Lemma edit_acts l : forall m, forallb width_ok l = true -> all_apart l (abs m) -> acts (loop convert l) (fun a => foldl abs_convert a l) m.
Proof.
  induction l as [|kc l IH]; intros m Hk Ha Hw; [by exists m|]. cbn [forallb all_apart loop foldl] in *. apply andb_true_iff in Hk as [Hk1 Hk2].
  destruct Ha as [Ha1 Ha2]. destruct (convert_acts kc m Hk1 Ha1 Hw) as (m1 & -> & Hw1 & E1). binds.
  rewrite <- E1 in Ha2. destruct (IH m1 Hk2 Ha2 Hw1) as (m2 & -> & Hw2 & E2). exists m2. split_and!; try done. by rewrite E2, E1.
Qed.
End Loops.

(** C35: the strings processor runs its converters in the order of the tables, on every metric in place, under these conditions: the metrics are well-formed, no converter has a
    negative width ([negative_width_panics]), and where a converter renames all keys of a metric, no key gets the old or the new name of
    another ([keys_depend_on_order]). Then it never panics, and each converter acts on the maps of a metric as one substitution: a function on the
    selected values or names, whatever the order the maps are ranged in. *)
Theorem Strings_spec `{UnicodeTables} `{MapRange} {W} (ins : list tmetric) (s : Strings) (w : W)
    (Hwf : Forall (fun m => wf (base m)) ins) (Hwidth : forallb width_ok (converters (initOnce s)) = true)
    (Hkeys : Forall (fun m => all_apart (converters (initOnce s)) (abs (base m))) ins) :
  exists out, Apply ins s w = Some (out, initOnce s, w) /\
    (init s = false -> converters (initOnce s) = all_converters s) /\
    Forall2 (fun m m' => td m' = td m /\ wf (base m') /\ abs (base m') = foldl abs_convert (abs (base m)) (converters (initOnce s))) ins out.
Proof.
  assert (exists out, mapM (fun m => b ← edit (initOnce s) (base m); Some (with_base b m)) ins = Some out /\
    Forall2 (fun m m' => td m' = td m /\ wf (base m') /\ abs (base m') = foldl abs_convert (abs (base m)) (converters (initOnce s))) ins out) as (out & E & Hout).
  { induction Hwf as [|m ins Hw _ IH]; [by exists []|]. apply Forall_cons in Hkeys as [Hk Hks]. destruct (IH Hks) as (out & E & Ho).
    destruct (edit_acts (converters (initOnce s)) (base m) Hwidth Hk Hw) as (b & Eb & Hb & Ab).
    exists (with_base b m :: out). cbn [mapM]. fold (edit (initOnce s) (base m)) in Eb. rewrite Eb. binds. rewrite E. binds. split; [done|]. by constructor. }
  exists out. unfold Apply. rewrite E. binds. split_and!; [done| |done]. intros Hi. unfold initOnce. by rewrite Hi.
Qed.

(** ** Examples *)

#[local] Instance ascii_tables : UnicodeTables := {|
  table_lower := id; table_upper := id; table_title := id; table_letter := fun _ => false; table_digit := fun _ => false |}.
#[local] Existing Instance map_range_default.

Definition conv (field tag tagkey dest : string) : converter :=
  mkConverter field EmptyString tag tagkey EmptyString dest EmptyString EmptyString EmptyString "-" "_" 3.
Definition no_strings : Strings := mkStrings [] [] [] [] [] [] [] [] [] [] [] [] false.
Definition ex_strings : Strings :=
  mkStrings [conv EmptyString "*" EmptyString EmptyString] [conv EmptyString EmptyString "*" EmptyString] [] [] [] [] [] [] []
    [conv "msg" EmptyString EmptyString "short"] [conv "*" EmptyString EmptyString EmptyString] [] false.
Definition ex_text : metric :=
  mkMetric "m" [mkTag "host" "Web-A"; mkTag "zone" "EU"] [mkField "msg" (VString "aGVsbG8="); mkField "n" (VInt 1)] 5 Untyped false.

Lemma ex_text_wf : wf ex_text.
Proof. split; [by apply (bool_decide_unpack _); vm_compute|by apply (bool_decide_unpack _); vm_compute]. Qed.

Lemma ex_strings_apart : all_apart (converters (initOnce ex_strings)) (abs ex_text).
Proof.
  apply (bool_decide_unpack _). vm_compute. exact I.
Qed.

Lemma Strings_spec_witness :
  exists out, Apply [mkTM ex_text None] ex_strings tt = Some (out, initOnce ex_strings, tt) /\
    (a_tags ∘ abs ∘ base) <$> out = [{["HOST" := "web-a"; "ZONE" := "eu"]}] /\
    (a_fields ∘ abs ∘ base) <$> out = [{["msg" := VString "hello"; "n" := VInt 1; "short" := VString "aGV"]}].
Proof.
  destruct (Strings_spec [mkTM ex_text None] ex_strings tt
    ltac:(constructor; [apply ex_text_wf|constructor]) eq_refl ltac:(constructor; [apply ex_strings_apart|constructor])) as (out & Ha & _ & Hp).
  exists out. split; [exact Ha|]. apply Forall2_cons_inv_l in Hp as (m' & l & (_ & _ & Hm) & Hl & ->). apply Forall2_nil_inv_l in Hl as ->.
  cbn [fmap list_fmap compose]. unfold compose. rewrite Hm. split; vm_compute; reflexivity.
Defined.

(** A negative width panics. *)
Lemma negative_width_panics :
  Apply [mkTM ex_text None] (mkStrings [] [] [] [] [] [] [] [] [] [mkConverter EmptyString EmptyString EmptyString EmptyString "*"
    EmptyString EmptyString EmptyString EmptyString EmptyString EmptyString (-1)] [] [] false) tt = None.
Proof. by vm_compute. Qed.

(** The width counts bytes, so that a text may be cut inside a rune. *)
Lemma left_cuts_rune : Valid "é" = true /\ (Valid <$> fn (KLeft, mkConverter EmptyString EmptyString EmptyString EmptyString EmptyString
  EmptyString EmptyString EmptyString EmptyString EmptyString EmptyString 1) "é") = Some false.
Proof. by vm_compute. Qed.

(** Renaming keys loses tags when one key gets the old name of another: what is left depends on the order of the map. *)
Definition reverse_range : MapRange.
Proof.
  refine {| range_map := fun _ _ _ _ m => reverse (map_to_list m) |}. intros. by rewrite reverse_Permutation.
Defined.
Definition swap_conv : Kind * converter := (KTrimPrefix, mkConverter EmptyString EmptyString EmptyString "*" EmptyString EmptyString EmptyString EmptyString
  "x" EmptyString EmptyString 0).
Definition two_tags : metric := mkMetric "m" [mkTag "a" "1"; mkTag "xa" "2"] [] 0 Untyped false.
Lemma keys_depend_on_order :
  (Tags <$> @convert _ map_range_default swap_conv two_tags) <> (Tags <$> @convert _ reverse_range swap_conv two_tags).
Proof. by vm_compute. Qed.
