(* ===== verification/JsonParser.v ===== *)
(** * The JSON parser

    [plugins/parsers/json/parser.go], and the timestamps of [internal/internal.go] it reads ([ParseTimestamp]).

    A decoded document is a [json] value. Objects are maps in Go: [JObj] has the entries, and ranging over them goes
    through [ObjectRange], which gives them in some order. Decoding bytes ([json.Unmarshal]), the query language
    (a library) and the layouts and zones of the package [time] are parameters, and so is the clock. *)

From Stdlib Require Import Ascii.
From S2P Require Import Prelude Float64 Strconv Strings Parse Metric Filter Converter.

(** ** Documents *)

(** [JOther] stands for a dynamic type that no decoder makes. *)
Inductive json := JNull | JBool (b : bool) | JNum (x : float64) | JStr (s : string) | JArr (l : list json) | JObj (l : list (string * json)) | JOther.

Class ObjectRange := {
  range_obj : forall {A}, list (string * A) -> list (string * A);
  range_obj_perm : forall A (l : list (string * A)), range_obj l ≡ₚ l;
}.

Inductive JErr := EFilter (e : err) | EInt (e : ParseErr) | EUnsupported | ELayout | ETimeFormat | ETimeKey | EWrongType | EFlatten
| EQuery | ESyntax | ENoMetric.

(** ** Timestamps: [internal.ParseTimestamp] *)

(** What the package [time] does with layouts, zones and years. *)
Class TimeLib := {
  time : Type;
  instant : time -> Z;
  Unix_UTC : Z -> time;
  ParseInLocation : string -> string -> string -> option time;
  Year : time -> Z;
  AddYears : time -> Z -> time;
}.

(** [math.Modf] of a finite number. *)
Definition Modf (s : bool) (m : positive) (e : Z) : float64 * float64 :=
  if 0 <=? e then (S754_finite s m e, S754_zero s)
  else let d := 2 ^ (- e) in (with_sign s (f_of_Z (Zpos m / d)), with_sign s (of_binary (Zpos m mod d) e)).

Section Timestamps.
Context `{FloatConv}.

(** [int64(x)]: towards zero; the language leaves open what does not fit. *)
Definition int64_of (x : float64) : Z :=
  match x with
  | S754_zero _ => 0
  | S754_finite s m e =>
    let a := if 0 <=? e then Zpos m * 2 ^ e else Zpos m / 2 ^ (- e) in
    let z := if s then - a else a in
    if (MinInt64 <=? z) && (z <=? MaxInt64) then z else int64_out x
  | _ => int64_out x
  end.

Definition f_1e9 : float64 := f_of_Z 1000000000.

Definition float_components (x : float64) : Z * Z :=
  match x with
  | S754_finite s m e => let '(i, f) := Modf s m e in (int64_of i, int64_of (f_mul f f_1e9))
  | S754_zero _ => (0, 0)
  | S754_infinity _ => (int64_of x, int64_of S754_nan)
  | S754_nan => (int64_of x, int64_of x)
  end.

Fixpoint zero_pad (n : nat) (s : string) : string :=
  match n, s with
  | O, _ => EmptyString
  | S n, EmptyString => String "0" (zero_pad n EmptyString)
  | S n, String c s => String c (zero_pad n s)
  end.

Definition parseUnixTimeComponents (first second : string) : Z * Z + JErr :=
  match ParseInt10 first with
  | inr e => inr (EInt e)
  | inl integer =>
    match ParseInt10 (zero_pad 9 second) with
    | inr e => inr (EInt e)
    | inl fractional => inl (integer, fractional)
    end
  end.

Definition parseComponents (timestamp : Val) : Z * Z + JErr :=
  match timestamp with
  | VString ts =>
    match cut_at "." ts with
    | Some (a, b) => parseUnixTimeComponents a b
    | None =>
      match cut_at "," ts with
      | Some (a, b) => parseUnixTimeComponents a b
      | None => match ParseInt10 ts with inr e => inr (EInt e) | inl i => inl (i, 0) end
      end
    end
  | VInt ts => inl (ts, 0)
  | VFloat x => inl (float_components x)
  | _ => inr EUnsupported
  end.

Context `{TimeLib}.

(** [time.Unix(sec, nsec)]; products of the other units wrap. *)
Definition parseUnix (format : string) (timestamp : Val) : time + JErr :=
  match parseComponents timestamp with
  | inr e => inr e
  | inl (integer, fractional) =>
    if decide (format = "unix") then inl (Unix_UTC (integer * 1000000000 + fractional))
    else if decide (format = "unix_ms") then inl (Unix_UTC (int64 (integer * 1000000)))
    else if decide (format = "unix_us") then inl (Unix_UTC (int64 (integer * 1000)))
    else if decide (format = "unix_ns") then inl (Unix_UTC integer)
    else inr EUnsupported
  end.

Definition parseTime (format : string) (timestamp : Val) (location : string) : time + JErr :=
  match timestamp with
  | VString ts => match ParseInLocation format ts location with Some t => inl t | None => inr ELayout end
  | _ => inr EUnsupported
  end.

Definition ParseTimestamp (format : string) (timestamp : Val) (location : string) : time + JErr :=
  if decide (format ∈ ["unix"; "unix_ms"; "unix_us"; "unix_ns"]) then parseUnix format timestamp
  else parseTime format timestamp (if decide (location = EmptyString) then "UTC" else location).
End Timestamps.

(** ** Flattening *)

Definition field_key (fieldname k : string) : string := if decide (fieldname = EmptyString) then k else fieldname +:+ "_" +:+ k.

(** The loops over entries and elements. Each entry comes with what flattening it does; the flag is an error. An
    error in an array ends its loop and is dropped. *)
Definition flattening : Type := gmap string Val -> gmap string Val * bool.
Fixpoint entry_loop (l : list (string * (string -> flattening))) (fieldname : string) (F : gmap string Val) : gmap string Val * bool :=
  match l with
  | [] => (F, false)
  | (k, f) :: l => let '(F, e) := f (field_key fieldname k) F in if e then (F, true) else entry_loop l fieldname F
  end.
Fixpoint element_loop (i : Z) (l : list (string -> flattening)) (fieldname : string) (F : gmap string Val) : gmap string Val * bool :=
  match l with
  | [] => (F, false)
  | f :: l => let '(F, e) := f (field_key fieldname (FormatInt i)) F in if e then (F, false) else element_loop (i + 1) l fieldname F
  end.

Fixpoint FullFlattenJSON `{ObjectRange} (convertString convertBool : bool) (v : json) (fieldname : string) (F : gmap string Val) :
    gmap string Val * bool :=
  match v with
  | JObj l => entry_loop (range_obj (map (fun kv => (kv.1, FullFlattenJSON convertString convertBool kv.2)) l)) fieldname F
  | JArr l => element_loop 0 (map (FullFlattenJSON convertString convertBool) l) fieldname F
  | JNum x => (<[fieldname := VFloat x]> F, false)
  | JStr s => (if convertString then <[fieldname := VString s]> F else F, false)
  | JBool b => (if convertBool then <[fieldname := VBool b]> F else F, false)
  | JNull => (F, false)
  | JOther => (F, true)
  end.

Definition FlattenJSON `{ObjectRange} (fieldname : string) (v : json) (F : gmap string Val) : gmap string Val * bool :=
  FullFlattenJSON false false v fieldname F.

(** ** The parser *)

Record Config := mkConfig {
  MetricName : string;
  TagKeys : list string;
  NameKey : string;
  StringFields : list string;
  Query : string;
  TimeKey : string;
  TimeFormat : string;
  Timezone : string;
  DefaultTags : gmap string string;
  Strict : bool;
}.

Section Parser.
Context `{Glob}.

Record Parser := mkParser {
  metricName : string;
  tagKeys : list string;
  stringFields : option Matcher;
  nameKey : string;
  query : string;
  timeKey : string;
  timeFormat : string;
  timezone : string;
  defaultTags : gmap string string;
  strict : bool;
}.

Definition New (config : Config) : Parser + JErr :=
  match Compile (StringFields config) with
  | inr e => inr (EFilter e)
  | inl f => inl (mkParser (MetricName config) (TagKeys config) f (NameKey config) (Query config) (TimeKey config) (TimeFormat config)
      (Timezone config) (DefaultTags config) (Strict config))
  end.

Definition SetDefaultTags (tags : gmap string string) (p : Parser) : Parser :=
  mkParser (metricName p) (tagKeys p) (stringFields p) (nameKey p) (query p) (timeKey p) (timeFormat p) (timezone p) tags (strict p).

(** The text of a field that becomes a tag; of another type there is none. *)
Definition tag_text (v : Val) : option string :=
  match v with
  | VString s => Some s
  | VBool b => Some (FormatBool b)
  | VFloat x => Some (FormatFloat_f x)
  | _ => None
  end.

(** The loop over the tag keys. *)
Fixpoint tag_loop (names : list string) (tags : gmap string string) (fields : gmap string Val) : gmap string string * gmap string Val :=
  match names with
  | [] => (tags, fields)
  | n :: names =>
    match fields !! n ≫= tag_text with
    | Some t => tag_loop names (<[n := t]> tags) (delete n fields)
    | None => tag_loop names tags fields
    end
  end.

Definition matches_string (p : Parser) (k : string) : bool := if stringFields p is Some f then Match f k else false.

(** Texts and flags that are no fields are removed. *)
Definition drop_string (p : Parser) (fields : gmap string Val) (kv : string * Val) : gmap string Val :=
  match kv.2 with
  | VString _ | VBool _ => if matches_string p kv.1 then fields else delete kv.1 fields
  | _ => fields
  end.
Definition drop_strings `{MapRange} (p : Parser) (fields : gmap string Val) : gmap string Val :=
  foldl (drop_string p) fields (range_map fields).

Definition switchFieldToTag `{MapRange} (p : Parser) (tags : gmap string string) (fields : gmap string Val) :
    gmap string string * gmap string Val :=
  let '(tags, fields) := tag_loop (tagKeys p) tags fields in (tags, drop_strings p fields).

Context `{ObjectRange} `{MapRange} `{FloatConv} `{TimeLib}.

(** The name: the text under the name key, if there is one. *)
Definition object_name (p : Parser) (fields : gmap string Val) : string :=
  if decide (nameKey p <> EmptyString) then match fields !! nameKey p with Some (VString s) => s | _ => metricName p end else metricName p.

(** The time under the time key, which is removed; a time without a year is in this one. *)
Definition object_time (p : Parser) (now timestamp : time) (fields : gmap string Val) : time * gmap string Val + JErr :=
  if decide (timeKey p <> EmptyString) then
    if decide (timeFormat p = EmptyString) then inr ETimeFormat
    else match fields !! timeKey p with
    | None => inr ETimeKey
    | Some v =>
      match ParseTimestamp (timeFormat p) v (timezone p) with
      | inr e => inr e
      | inl t => inl (if Year t =? 0 then AddYears t (Year now) else t, delete (timeKey p) fields)
      end
    end
  else inl (timestamp, fields).

Definition parseObject (p : Parser) (now : time) (data : list (string * json)) (timestamp : time) : list metric + JErr :=
  let '(fields, e) := FullFlattenJSON true true (JObj data) EmptyString ∅ in
  if e then inr EFlatten
  else
    let nm := object_name p fields in
    match object_time p now timestamp fields with
    | inr e => inr e
    | inl (t, fields) =>
      let '(tags, nFields) := switchFieldToTag p (defaultTags p) fields in
      inl [Metric.New nm tags (go_of_val <$> nFields) (instant t) []]
    end.

Fixpoint parseArray (p : Parser) (now : time) (data : list json) (timestamp : time) : list metric + JErr :=
  match data with
  | [] => inl []
  | JObj v :: data =>
    match parseObject p now v timestamp with
    | inr e => if strict p then inr e else parseArray p now data timestamp
    | inl ms => match parseArray p now data timestamp with inl ms' => inl (ms ++ ms') | inr e => inr e end
    end
  | _ :: _ => inr EWrongType
  end.

Definition utf8BOM : string := String "239" (String "187" (String "191" EmptyString)).

(** [Unmarshal] and the query are parameters; a query has a raw result and says whether it is an object or array. *)
Definition Parse (Unmarshal : string -> option json) (GetBytes : string -> string -> string * bool) (p : Parser) (now : time) (buf : string) :
    list metric + JErr :=
  let '(buf, ok) := if decide (query p <> EmptyString) then GetBytes buf (query p) else (buf, true) in
  if negb ok then inr EQuery
  else
    let buf := TrimSpace buf in
    let buf := default buf (strip_prefix utf8BOM buf) in
    if decide (buf = EmptyString) then inl []
    else match Unmarshal buf with
    | None => inr ESyntax
    | Some (JObj v) => parseObject p now v now
    | Some (JArr v) => parseArray p now v now
    | Some _ => inr EWrongType
    end.

Definition ParseLine (Unmarshal : string -> option json) (GetBytes : string -> string -> string * bool) (p : Parser) (now : time) (line : string) :
    metric + JErr :=
  match Parse Unmarshal GetBytes p now (line +:+ String "010" EmptyString) with
  | inr e => inr e
  | inl [] => inr ENoMetric
  | inl (m :: _) => inl m
  end.
End Parser.

(** ** What flattening gives *)

Section json_induction.
Variable P : json -> Prop.
Hypothesis Hnull : P JNull.
Hypothesis Hbool : forall b, P (JBool b).
Hypothesis Hnum : forall x, P (JNum x).
Hypothesis Hstr : forall s, P (JStr s).
Hypothesis Harr : forall l, Forall P l -> P (JArr l).
Hypothesis Hobj : forall l, Forall (fun kv => P kv.2) l -> P (JObj l).
Hypothesis Hother : P JOther.

Fixpoint json_nested (v : json) : P v :=
  match v with
  | JNull => Hnull
  | JBool b => Hbool b
  | JNum x => Hnum x
  | JStr s => Hstr s
  | JArr l => Harr l ((fix elems l := match l return Forall P l with [] => Forall_nil_2 _ | x :: l => Forall_cons_2 _ _ _ (json_nested x) (elems l) end) l)
  | JObj l => Hobj l ((fix entries l := match l return Forall (fun kv => P kv.2) l with
      | [] => Forall_nil_2 _ | kv :: l => Forall_cons_2 _ _ _ (json_nested kv.2) (entries l) end) l)
  | JOther => Hother
  end.
End json_induction.

(** The leaves of a document with their paths, in the order they are written in. *)
Fixpoint elements (i : Z) (l : list (string -> list (string * Val))) (fieldname : string) : list (string * Val) :=
  match l with [] => [] | f :: l => f (field_key fieldname (FormatInt i)) ++ elements (i + 1) l fieldname end.
Fixpoint leaves (v : json) (fieldname : string) : list (string * Val) :=
  match v with
  | JObj l => concat (map (fun kv => leaves kv.2 (field_key fieldname kv.1)) l)
  | JArr l => elements 0 (map leaves l) fieldname
  | JNum x => [(fieldname, VFloat x)]
  | JStr s => [(fieldname, VString s)]
  | JBool b => [(fieldname, VBool b)]
  | JNull | JOther => []
  end.

(** What a decoder makes. *)
Fixpoint decoded (v : json) : bool :=
  match v with
  | JObj l => forallb (fun kv => decoded kv.2) l
  | JArr l => forallb decoded l
  | JOther => false
  | _ => true
  end.

Definition add_all (l : list (string * Val)) (F : gmap string Val) : gmap string Val := foldl (fun F kv => <[kv.1 := kv.2]> F) F l.

Lemma add_all_app l1 l2 F : add_all (l1 ++ l2) F = add_all l2 (add_all l1 F).
Proof. apply foldl_app. Qed.
Lemma add_all_map l : NoDup l.*1 -> add_all l ∅ = list_to_map l.
Proof.
  cut (forall F : gmap string Val, NoDup l.*1 -> add_all l F = list_to_map l ∪ F).
  { intros Hl Hnd. rewrite Hl by done. apply (right_id_L ∅ (∪)). }
  induction l as [|[k v] l IH]; intros F Hnd; [cbn; by rewrite (left_id_L ∅ (∪))|]. cbn [fmap list_fmap fst] in Hnd. apply NoDup_cons in Hnd as [Hk Hnd].
  change (add_all ((k, v) :: l) F) with (add_all l (<[k := v]> F)). rewrite IH by done. cbn. rewrite <- insert_union_r, insert_union_l; [done|].
  by apply not_elem_of_list_to_map_1.
Qed.

Lemma concat_perm {A} (f : A -> list (string * Val)) l l' : l ≡ₚ l' -> concat (map f l) ≡ₚ concat (map f l').
Proof. induction 1 as [|x l l' _ IH|x y l|l1 l2 l3 _ IH1 _ IH2]; cbn; [done|by rewrite IH| |by rewrite IH1]. by rewrite !app_assoc, (Permutation_app_comm (f y)). Qed.

Section Flatten.
Context `{ObjectRange}.

(** Flattening writes the leaves, in some order. *)
Definition writes (v : json) : Prop := forall fieldname F,
  exists l, l ≡ₚ leaves v fieldname /\ FullFlattenJSON true true v fieldname F = (add_all l F, false).

Lemma entry_loop_writes l fieldname : Forall (fun kv => writes kv.2) l -> forall F,
  exists ls, ls ≡ₚ concat (map (fun kv => leaves kv.2 (field_key fieldname kv.1)) l) /\
    entry_loop (map (fun kv => (kv.1, FullFlattenJSON true true kv.2)) l) fieldname F = (add_all ls F, false).
Proof.
  induction 1 as [|[k v] l Hv _ IH]; intros F; [by exists []|]. cbn [map entry_loop fst snd concat].
  destruct (Hv (field_key fieldname k) F) as (l1 & P1 & E1). cbn [snd] in E1. rewrite E1. destruct (IH (add_all l1 F)) as (l2 & P2 & ->).
  exists (l1 ++ l2). split; [cbn [snd] in P1; by rewrite P1, P2|by rewrite add_all_app].
Qed.
Lemma element_loop_writes l fieldname : Forall writes l -> forall i F,
  exists ls, ls ≡ₚ elements i (map leaves l) fieldname /\
    element_loop i (map (FullFlattenJSON true true) l) fieldname F = (add_all ls F, false).
Proof.
  induction 1 as [|v l Hv _ IH]; intros i F; [by exists []|]. cbn [map element_loop elements].
  destruct (Hv (field_key fieldname (FormatInt i)) F) as (l1 & P1 & ->). destruct (IH (i + 1) (add_all l1 F)) as (l2 & P2 & ->).
  exists (l1 ++ l2). split; [by rewrite P1, P2|by rewrite add_all_app].
Qed.

Lemma flatten_writes v : decoded v = true -> writes v.
Proof.
  induction v as [|b|x|s|l IH|l IH|] using json_nested; intros Hd fieldname F; cbn [FullFlattenJSON leaves];
    [by exists []|by exists [(fieldname, VBool b)]|by exists [(fieldname, VFloat x)]|by exists [(fieldname, VString s)]| | |done].
  - apply element_loop_writes. cbn [decoded] in Hd. rewrite forallb_forall in Hd. rewrite Forall_forall in *. intros v Hin. apply IH; [done|].
    apply Hd. by apply list_elem_of_In.
  - cbn [decoded] in Hd. rewrite forallb_forall in Hd.
    destruct (Permutation_map_inv _ _ (range_obj_perm _ (map (fun kv => (kv.1, FullFlattenJSON true true kv.2)) l))) as (l' & E & Hp).
    rewrite E. destruct (entry_loop_writes l' fieldname) with (F := F) as (ls & Pl & ->).
    + rewrite Forall_forall in *. intros kv Hin. rewrite <- Hp in Hin. apply IH; [done|]. apply (Hd kv). by apply list_elem_of_In.
    + exists ls. split; [|done]. rewrite Pl. apply concat_perm. by rewrite Hp.
Qed.

Lemma flatten_fields v : decoded v = true -> NoDup (leaves v EmptyString).*1 ->
  FullFlattenJSON true true v EmptyString ∅ = (list_to_map (leaves v EmptyString), false).
Proof.
  intros Hd Hnd. destruct (flatten_writes v Hd EmptyString ∅) as (l & Hl & ->). f_equal.
  assert (NoDup l.*1) as Hnl by (by rewrite Hl). rewrite add_all_map by done. by apply list_to_map_proper.
Qed.
End Flatten.

(** ** What an object becomes *)

Definition leaf_value (v : Val) : Prop := is_Some (tag_text v).
Lemma leaves_values v : forall fieldname, Forall (fun kv => leaf_value kv.2) (leaves v fieldname).
Proof.
  induction v as [|b|x|s|l IH|l IH|] using json_nested; intros fieldname; cbn [leaves];
    [constructor|constructor; [by eexists|constructor]|constructor; [by eexists|constructor]|constructor; [by eexists|constructor]| | |constructor].
  - generalize 0. induction IH as [|v l Hv _ IHl]; intros i; cbn [map elements]; [constructor|]. by apply Forall_app.
  - induction IH as [|kv l Hv _ IHl]; cbn [map concat]; [constructor|]. by apply Forall_app.
Qed.

Lemma leaves_map_values v fieldname : map_Forall (fun _ x => leaf_value x) (list_to_map (leaves v fieldname) : gmap string Val).
Proof.
  intros k x Hk. apply elem_of_list_to_map_2 in Hk. pose proof (leaves_values v fieldname) as Hl. rewrite Forall_forall in Hl. by apply (Hl (k, x)).
Qed.

Lemma tag_loop_spec names : forall tags fields ts fs,
  map_Forall (fun _ x => leaf_value x) fields -> tag_loop names tags fields = (ts, fs) ->
  (forall k, ts !! k = if decide (k ∈ names) then match fields !! k ≫= tag_text with Some t => Some t | None => tags !! k end else tags !! k) /\
  (forall k, fs !! k = if decide (k ∈ names) then None else fields !! k).
Proof.
  induction names as [|n names IH]; intros tags fields ts fs Hv.
  { intros [= <- <-]. split; intros k; by rewrite decide_False by (by apply not_elem_of_nil). }
  cbn [tag_loop]. destruct (fields !! n) as [v|] eqn:En; cbn [mbind option_bind].
  - destruct (Hv n v En) as [t Et]. rewrite Et. intros E. apply IH in E as [H1 H2]; [|by apply map_Forall_delete]. split; intros k.
    + rewrite H1. destruct (decide (k = n)) as [->|Hk].
      * rewrite (decide_True (P := n ∈ n :: names)) by (by left). rewrite lookup_delete_eq, lookup_insert_eq, En. cbn. rewrite Et. by case_decide.
      * rewrite lookup_delete_ne, lookup_insert_ne by done. destruct (decide (k ∈ names)).
        -- by rewrite decide_True by (by right).
        -- by rewrite decide_False by (rewrite elem_of_cons; naive_solver).
    + rewrite H2. destruct (decide (k = n)) as [->|Hk].
      * rewrite (decide_True (P := n ∈ n :: names)) by (by left). rewrite lookup_delete_eq. by case_decide.
      * rewrite lookup_delete_ne by done. destruct (decide (k ∈ names)); [by rewrite decide_True by (by right)|by rewrite decide_False by (rewrite elem_of_cons; naive_solver)].
  - intros E. apply IH in E as [H1 H2]; [|done]. split; intros k.
    + rewrite H1. destruct (decide (k = n)) as [->|Hk].
      * rewrite (decide_True (P := n ∈ n :: names)) by (by left). rewrite En. cbn. by case_decide.
      * destruct (decide (k ∈ names)); [by rewrite decide_True by (by right)|by rewrite decide_False by (rewrite elem_of_cons; naive_solver)].
    + rewrite H2. destruct (decide (k = n)) as [->|Hk].
      * rewrite (decide_True (P := n ∈ n :: names)) by (by left). rewrite En. by case_decide.
      * destruct (decide (k ∈ names)); [by rewrite decide_True by (by right)|by rewrite decide_False by (rewrite elem_of_cons; naive_solver)].
Qed.

Section Object.
Context `{Glob} `{ObjectRange} `{MapRange} `{FloatConv} `{TimeLib}.

(** A value that stays a field. *)
Definition stays (p : Parser) (k : string) (v : Val) : bool :=
  match v with VString _ | VBool _ => matches_string p k | _ => true end.

Lemma drop_strings_spec p (fields : gmap string Val) k :
  drop_strings p fields !! k = match fields !! k with Some v => if stays p k v then Some v else None | None => None end.
Proof.
  unfold drop_strings.
  assert (forall l (F : gmap string Val), NoDup l.*1 -> (forall kv, kv ∈ l -> F !! kv.1 = Some kv.2) ->
    foldl (drop_string p) F l !! k =
    match F !! k with Some v => if decide (k ∈ l.*1) then (if stays p k v then Some v else None) else Some v | None => None end) as Hf.
  { induction l as [|[k0 v0] l IH]; intros F Hnd Hin.
    { cbn [foldl]. destruct (F !! k); [by rewrite decide_False by (by apply not_elem_of_nil)|done]. }
    cbn [fmap list_fmap fst] in Hnd. apply NoDup_cons in Hnd as [Hk0 Hnd].
    assert (F !! k0 = Some v0) as E0 by (apply (Hin (k0, v0)); by left).
    assert (forall kv, kv ∈ l -> k0 <> kv.1) as Hne by (intros kv Hkv ->; apply Hk0; by apply list_elem_of_fmap_2).
    set (F1 := if stays p k0 v0 then F else delete k0 F).
    cbn [foldl]. assert (drop_string p F (k0, v0) = F1) as ->.
    { unfold F1, stays, drop_string. cbn [fst snd]. by destruct v0; try destruct (matches_string p k0). }
    rewrite IH; [|done|].
    2:{ intros kv Hkv. unfold F1. destruct (stays p k0 v0); [apply Hin; by right|]. rewrite lookup_delete_ne by (by apply Hne). apply Hin. by right. }
    cbn [fmap list_fmap fst]. unfold F1. destruct (decide (k = k0)) as [->|Hk].
    - rewrite E0, (decide_True (P := k0 ∈ k0 :: l.*1)) by (by left). destruct (stays p k0 v0) eqn:Es; [rewrite E0; by rewrite decide_False|].
      by rewrite lookup_delete_eq.
    - assert ((if stays p k0 v0 then F else delete k0 F) !! k = F !! k) as -> by (destruct (stays p k0 v0); [done|by rewrite lookup_delete_ne]).
      destruct (F !! k); [|done]. destruct (decide (k ∈ l.*1)).
      + by rewrite decide_True by (by right).
      + by rewrite decide_False by (rewrite elem_of_cons; naive_solver). }
  rewrite Hf; [|apply range_map_NoDup|by intros [k' v'] Hin%range_map_elem].
  destruct (fields !! k) as [v|] eqn:E; [|done]. rewrite decide_True; [done|]. apply list_elem_of_fmap. exists (k, v). split; [done|by apply range_map_elem].
Qed.

Lemma object_time_values p now timestamp fields t fields' :
  map_Forall (fun _ x => leaf_value x) fields -> object_time p now timestamp fields = inl (t, fields') -> map_Forall (fun _ x => leaf_value x) fields'.
Proof.
  intros Hf. unfold object_time. destruct (decide _); [|by intros [= <- <-]]. destruct (decide _); [done|]. destruct (fields !! timeKey p); [|done].
  destruct (ParseTimestamp _ _ _); [|done]. intros [= <- <-]. by apply map_Forall_delete.
Qed.

Lemma parseObject_spec (p : Parser) (now timestamp : time) (data : list (string * json))
    (Hd : decoded (JObj data) = true) (Hnd : NoDup (leaves (JObj data) EmptyString).*1) :
  let L := list_to_map (leaves (JObj data) EmptyString) in
  match object_time p now timestamp L with
  | inr e => parseObject p now data timestamp = inr e
  | inl (t, L') => exists m, parseObject p now data timestamp = inl [m] /\ wf m /\
      name m = object_name p L /\ tm m = instant t /\
      (forall k, Tags m !! k = if decide (k ∈ tagKeys p) then match L' !! k ≫= tag_text with Some s => Some s | None => defaultTags p !! k end
        else defaultTags p !! k) /\
      (forall k, Metric.Fields m !! k = if decide (k ∈ tagKeys p) then None else match L' !! k with Some v => if stays p k v then Some v else None | None => None end)
  end.
Proof.
  intros L. unfold parseObject. rewrite (flatten_fields (JObj data) Hd Hnd). fold L. cbv iota.
  destruct (object_time p now timestamp L) as [[t L']|e] eqn:Et; [|done].
  pose proof (object_time_values _ _ _ _ _ _ (leaves_map_values (JObj data) EmptyString) Et) as Hv.
  unfold switchFieldToTag. destruct (tag_loop (tagKeys p) (defaultTags p) L') as [ts fs] eqn:El.
  destruct (tag_loop_spec _ _ _ _ _ Hv El) as [Ht Hf]. eexists. split; [done|]. split; [apply New_wf|].
  pose proof (New_abs (object_name p L) ts (go_of_val <$> drop_strings p fs) (instant t) []) as Ha.
  split; [by apply (f_equal a_name) in Ha|]. split; [by apply (f_equal a_time) in Ha|]. split.
  - intros k. rewrite New_Tags. apply Ht.
  - intros k. rewrite New_Fields, lookup_omap, lookup_fmap, drop_strings_spec, Hf. destruct (decide (k ∈ tagKeys p)); [done|].
    destruct (L' !! k) as [v|] eqn:Ek; [|done]. destruct (stays p k v); [|done]. cbn. destruct (Hv k v Ek) as [x Hx]. by destruct v.
Qed.

(** C34: an object becomes one metric that depends on its leaves only. For a decoded object whose leaves have different paths, and
    whatever order its maps are ranged in: the name is the text under the name key, the time that of the time key, which is then
    no field; the leaves under tag keys are tags over the default tags; of the others, numbers are fields, and texts
    and flags are fields exactly when the filter for them matches. An error of the time key is the error of the object. *)
Theorem JSON_object (p : Parser) (now timestamp : time) (data : list (string * json))
    (Hd : decoded (JObj data) = true) (Hnd : NoDup (leaves (JObj data) EmptyString).*1) :
  let L := list_to_map (leaves (JObj data) EmptyString) in
  match object_time p now timestamp L with
  | inr e => parseObject p now data timestamp = inr e
  | inl (t, L') => exists m, parseObject p now data timestamp = inl [m] /\ wf m /\
      name m = object_name p L /\ tm m = instant t /\
      (forall k, Tags m !! k = if decide (k ∈ tagKeys p) then match L' !! k ≫= tag_text with Some s => Some s | None => defaultTags p !! k end
        else defaultTags p !! k) /\
      (forall k, Metric.Fields m !! k = if decide (k ∈ tagKeys p) then None else match L' !! k with Some v => if stays p k v then Some v else None | None => None end)
  end.
Proof. by apply parseObject_spec. Qed.
End Object.

(** A whole number of seconds is read back from its text, also with a fraction of nothing. *)
Lemma parseComponents_text `{FloatConv} z : MinInt64 <= z <= MaxInt64 -> parseComponents (VString (FormatInt z)) = inl (z, 0).
Proof.
  intros Hz. destruct (FormatInt_chars z) as (_ & _ & Hf). cbn [parseComponents].
  rewrite !cut_at_free_None by (by apply Hf). by rewrite ParseInt10_FormatInt.
Qed.

(** ** Examples *)

#[local] Instance ex_range : ObjectRange := {| range_obj := fun _ l => l; range_obj_perm := fun _ l => Permutation_refl l |}.
#[local, refine] Instance ex_conv : FloatConv := {| int64_out := fun _ => 0; uint64_out := fun _ => 0 |}.
Proof. all: intros; unfold MinInt64, MaxInt64, MaxUint64; lia. Defined.
#[local] Instance ex_time : TimeLib :=
  {| time := Z; instant := id; Unix_UTC := id; ParseInLocation := fun _ _ _ => None; Year := fun _ => 2020; AddYears := fun t _ => t |}.
#[local] Existing Instances map_range_default alt_glob.

Definition ex_now : time := 0.
Definition ex_parser : Parser :=
  mkParser "json" ["host"] (Some (M_filtersingle "state_text")) "name" EmptyString "at" "unix" EmptyString {["dc" := "a"]} false.
Definition ex_data : list (string * json) :=
  [("name", JStr "disk"); ("host", JStr "h1"); ("at", JStr "5.25"); ("used", JArr [JNum f_one; JNum f_zero]);
   ("state", JObj [("text", JStr "up"); ("ok", JBool true)]); ("gone", JNull)].

Lemma JSON_object_witness :
  exists m, parseObject ex_parser ex_now ex_data ex_now = inl [m] /\ name m = "disk" /\ tm m = 5250000000 /\ Tags m !! "host" = Some "h1" /\
    Metric.Fields m !! "used_0" = Some (VFloat f_one) /\ Metric.Fields m !! "state_text" = Some (VString "up") /\ Metric.Fields m !! "state_ok" = None.
Proof.
  pose proof (JSON_object ex_parser ex_now ex_now ex_data eq_refl ltac:(apply (bool_decide_unpack _); vm_compute; exact I)) as Hm.
  cbv zeta in Hm.
  set (r := object_time ex_parser ex_now ex_now (list_to_map (leaves (JObj ex_data) EmptyString))) in Hm.
  assert (match r with inl _ => true | inr _ => false end = true) as Hr by (vm_compute; reflexivity).
  destruct r as [[t L']|e] eqn:E; [|done]. destruct Hm as (m & Ep & _ & Hn & Ht & Htags & Hfields). exists m. split; [exact Ep|].
  assert (t = match object_time ex_parser ex_now ex_now (list_to_map (leaves (JObj ex_data) EmptyString)) with inl (t, _) => t | inr _ => 0 end) as Et
    by (fold r; by rewrite E).
  assert (forall k, L' !! k = match object_time ex_parser ex_now ex_now (list_to_map (leaves (JObj ex_data) EmptyString)) with inl (_, L) => L !! k | inr _ => None end) as El
    by (intros k; fold r; by rewrite E).
  rewrite Hn, Ht, Htags, !Hfields, Et, !El. clear. split_and!; vm_compute; reflexivity.
Defined.

(** Two paths can have the same name, and the order of the map decides. *)
Lemma paths_collide :
  leaves (JObj [("a", JObj [("b", JNum f_one)]); ("a_b", JNum f_zero)]) EmptyString = [("a_b", VFloat f_one); ("a_b", VFloat f_zero)].
Proof. by vm_compute. Qed.

(** The fraction of a negative time in a text is added and not subtracted; that of a number is subtracted. *)
Lemma negative_fraction :
  ParseTimestamp "unix" (VString "-1.5") EmptyString = inl (-500000000) /\
  ParseTimestamp "unix" (VFloat (of_binary (-3) (-1))) EmptyString = inl (-1500000000).
Proof. by vm_compute. Qed.

(** Milliseconds beyond the range of nanoseconds wrap. *)
Lemma milliseconds_wrap : ParseTimestamp "unix_ms" (VString "10000000000000") EmptyString = inl (-8446744073709551616).
Proof. by vm_compute. Qed.

(** An error inside an array ends the array and is dropped. *)
Lemma array_error_dropped : FullFlattenJSON true true (JArr [JOther; JNum f_one]) "a" ∅ = (∅, false).
Proof. by vm_compute. Qed.
