(* ===== verification/Json.v ===== *)
(** * JSON texts

    What the sources use of [encoding/json]: [Marshal] of numbers, flags, texts, slices, structs and maps, and [Unmarshal] into an
    interface; and the serializers [plugins/serializers/json], [nowmetric] and [splunkmetric] on top of it. *)

From Stdlib Require Import Ascii.
From S2P Require Import Prelude Float64 Strconv Strings Parse Metric Converter Formats JsonParser.

Definition dquote : ascii := "034".
Definition dq : string := String dquote EmptyString.
Definition lf : string := String "010" EmptyString.

(** ** [Marshal] *)

(** A value: objects have their members in the order they are written. *)
Inductive enc := ENull | EInt (z : Z) | EFloat (x : float64) | EBool (b : bool) | EStr (s : string) | EArr (l : list enc) | EObj (l : list (string * enc)).

(** A map is written by its sorted keys. *)
Definition map_enc (m : gmap string enc) : enc := EObj (sort_by fst (map_to_list m)).

Definition hex_digit (n : Z) : ascii := if n <? 10 then byte_char (48 + n) else byte_char (87 + n).

(** A byte below 128 in a text: HTML characters are escaped too. *)
Definition escape_char (c : ascii) : string :=
  let z := byte_of c in
  if (c =? dquote)%char || (c =? "\")%char then String "\" (String c EmptyString)
  else if z =? 10 then "\n" else if z =? 13 then "\r" else if z =? 9 then "\t"
  else if (z <? 32) || (z =? 38) || (z =? 60) || (z =? 62) then "\u00" +:+ String (hex_digit (z / 16)) (String (hex_digit (z mod 16)) EmptyString)
  else String c EmptyString.
Definition escape_rune (rb : Z * string) : string :=
  match rb.2 with
  | String c EmptyString => if byte_of c <? 128 then escape_char c else "\ufffd"
  | _ => if rb.1 =? 8232 then "\u2028" else if rb.1 =? 8233 then "\u2029" else rb.2
  end.
Definition quoted (s : string) : string := dq +:+ concat_strings (escape_rune <$> runes s) +:+ dq.

(** Numbers below a millionth and from 10^21 on have an exponent, of which a zero in front is removed. *)
Definition strip_exponent (s : string) : string :=
  let n := String.length s in
  if (4 <=? n)%nat && bool_decide (str_take 3 (str_drop (n - 4) s) = "e-0") then str_take (n - 2) s +:+ str_drop (n - 1) s else s.
Definition float_text (x : float64) : string :=
  let a := match x with S754_finite _ m e => S754_finite false m e | _ => x end in
  match x with
  | S754_finite _ _ _ =>
    if f_ltb a (f_frac 1 1000000) || f_geb a (f_of_Z (10 ^ 21)) then strip_exponent (format_with fmt_e x) else FormatFloat_f x
  | _ => FormatFloat_f x
  end.

Fixpoint text (e : enc) : string :=
  match e with
  | ENull => "null"
  | EInt z => FormatInt z
  | EFloat x => float_text x
  | EBool b => FormatBool b
  | EStr s => quoted s
  | EArr l => "[" +:+ Join (map text l) "," +:+ "]"
  | EObj l => "{" +:+ Join (map (fun kv => quoted kv.1 +:+ ":" +:+ text kv.2) l) "," +:+ "}"
  end.

(** Infinities and NaN are an error. *)
Fixpoint encodable (e : enc) : bool :=
  match e with
  | EFloat x => negb (f_is_nan x || f_is_inf x)
  | EArr l => forallb encodable l
  | EObj l => forallb (fun kv => encodable kv.2) l
  | _ => true
  end.
Definition Marshal (e : enc) : option string := if encodable e then Some (text e) else None.

(** ** [Unmarshal] *)

Fixpoint skip_ws (s : string) : string :=
  match s with
  | String c r => let z := byte_of c in if (z =? 32) || (z =? 9) || (z =? 10) || (z =? 13) then skip_ws r else s
  | EmptyString => s
  end.

Definition hex_val (c : ascii) : option Z :=
  let z := byte_of c in
  if Strings.between 48 57 z then Some (z - 48) else if Strings.between 97 102 z then Some (z - 87) else if Strings.between 65 70 z then Some (z - 55) else None.

(** [getu4]: four hexadecimal digits. *)
Definition hex4 (s : string) : option (Z * string) :=
  match s with
  | String a (String b (String c (String d r))) =>
    va ← hex_val a; vb ← hex_val b; vc ← hex_val c; vd ← hex_val d; Some (((va * 16 + vb) * 16 + vc) * 16 + vd, r)
  | _ => None
  end.

(** A rune in UTF-16: two halves make one; a half alone is the error rune. *)
Definition utf16 (r : Z) (s : string) : string * string :=
  if Strings.between 55296 57343 r then
    match s with
    | String a (String b s') =>
      match (if (a =? "\")%char && (b =? "u")%char then hex4 s' else None) with
      | Some (r2, rest) =>
        if (r <? 56320) && Strings.between 56320 57343 r2 then (encode_rune (65536 + (r - 55296) * 1024 + (r2 - 56320)), rest) else (encode_rune RuneError, s)
      | None => (encode_rune RuneError, s)
      end
    | _ => (encode_rune RuneError, s)
    end
  else (encode_rune r, s).

(** The next character of a text, and the rest; control characters are an error. *)
Definition next_char (s : string) : option (string * string) :=
  match s with
  | EmptyString => None
  | String c r =>
    if (c =? "\")%char then
      match r with
      | EmptyString => None
      | String d r =>
        if (d =? dquote)%char || (d =? "\")%char || (d =? "/")%char then Some (String d EmptyString, r)
        else if (d =? "b")%char then Some (String "008" EmptyString, r)
        else if (d =? "f")%char then Some (String "012" EmptyString, r)
        else if (d =? "n")%char then Some (String "010" EmptyString, r)
        else if (d =? "r")%char then Some (String "013" EmptyString, r)
        else if (d =? "t")%char then Some (String "009" EmptyString, r)
        else if (d =? "u")%char then '(x, r) ← hex4 r; Some (utf16 x r)
        else None
      end
    else if byte_of c <? 32 then None
    else if byte_of c <? 128 then Some (String c EmptyString, r)
    else let '(x, w) := decode_rune (bytes s) in Some (encode_rune x, str_drop w s)
  end.

(** A text after its opening quote. *)
Fixpoint unquote (fuel : nat) (s : string) : option (string * string) :=
  match fuel with
  | O => None
  | S fuel =>
    match s with
    | EmptyString => None
    | String c r =>
      if (c =? dquote)%char then Some (EmptyString, r)
      else '(t, r) ← next_char s; '(u, r) ← unquote fuel r; Some (t +:+ u, r)
    end
  end.

(** Numbers. *)
Fixpoint digits_span (s : string) : string * string :=
  match s with
  | String c r => if is_digit c then let '(a, b) := digits_span r in (String c a, b) else (EmptyString, s)
  | EmptyString => (EmptyString, s)
  end.
Definition int_part (s : string) : option (string * string) :=
  match s with
  | String c r => if (c =? "0")%char then Some ("0", r) else if is_digit c then Some (digits_span s) else None
  | EmptyString => None
  end.
Definition frac_part (s : string) : option (string * string) :=
  match s with
  | String "." r => let '(a, b) := digits_span r in if decide (a = EmptyString) then None else Some (String "." a, b)
  | _ => Some (EmptyString, s)
  end.
Definition exp_part (s : string) : option (string * string) :=
  match s with
  | String c r =>
    if (c =? "e")%char || (c =? "E")%char then
      let '(sg, r) := match r with String d r' => if (d =? "+")%char || (d =? "-")%char then (String d EmptyString, r') else (EmptyString, r) | _ => (EmptyString, r) end in
      let '(a, b) := digits_span r in if decide (a = EmptyString) then None else Some (String c (sg +:+ a), b)
    else Some (EmptyString, s)
  | EmptyString => Some (EmptyString, s)
  end.
Definition number (s : string) : option (string * string) :=
  let '(sg, s) := match s with String "-" r => ("-", r) | _ => (EmptyString, s) end in
  '(i, s) ← int_part s; '(f, s) ← frac_part s; '(e, s) ← exp_part s; Some (sg +:+ i +:+ f +:+ e, s).

(** A member replaces one with the same key. *)
Fixpoint obj_insert (k : string) (v : json) (l : list (string * json)) : list (string * json) :=
  match l with [] => [(k, v)] | (k', v') :: l => if decide (k = k') then (k, v) :: l else (k', v') :: obj_insert k v l end.

Section Loops.
Context (val : string -> option (json * string)).

Fixpoint members (fuel : nat) (s : string) (acc : list (string * json)) : option (json * string) :=
  match fuel with
  | O => None
  | S fuel =>
    match skip_ws s with
    | String c r =>
      if (c =? dquote)%char then
        '(k, r) ← unquote (S (String.length r)) r;
        match skip_ws r with
        | String ":" r =>
          '(v, r) ← val r;
          let acc := obj_insert k v acc in
          match skip_ws r with
          | String "," r => members fuel r acc
          | String "}" r => Some (JObj acc, r)
          | _ => None
          end
        | _ => None
        end
      else None
    | EmptyString => None
    end
  end.

Fixpoint items (fuel : nat) (s : string) (acc : list json) : option (json * string) :=
  match fuel with
  | O => None
  | S fuel =>
    '(v, r) ← val s;
    match skip_ws r with
    | String "," r => items fuel r (acc ++ [v])
    | String "]" r => Some (JArr (acc ++ [v]), r)
    | _ => None
    end
  end.
End Loops.

(** A value, nested at most [fuel] deep. *)
Fixpoint value (fuel : nat) (s : string) : option (json * string) :=
  match fuel with
  | O => None
  | S fuel =>
    match skip_ws s with
    | EmptyString => None
    | String c r =>
      if (c =? "{")%char then
        match skip_ws r with String "}" r' => Some (JObj [], r') | _ => members (value fuel) (S (String.length r)) r [] end
      else if (c =? "[")%char then
        match skip_ws r with String "]" r' => Some (JArr [], r') | _ => items (value fuel) (S (String.length r)) r [] end
      else if (c =? dquote)%char then '(t, r) ← unquote (S (String.length r)) r; Some (JStr t, r)
      else if (c =? "t")%char then r ← strip_prefix "rue" r; Some (JBool true, r)
      else if (c =? "f")%char then r ← strip_prefix "alse" r; Some (JBool false, r)
      else if (c =? "n")%char then r ← strip_prefix "ull" r; Some (JNull, r)
      else '(t, r) ← number (String c r); x ← ParseFloat t; Some (JNum x, r)
    end
  end.

Definition Unmarshal (s : string) : option json :=
  '(v, r) ← value (S (String.length s)) s; if decide (skip_ws r = EmptyString) then Some v else None.

(** ** The JSON serializer *)

Definition enc_val (v : Val) : enc :=
  match v with VNil => ENull | VFloat x => EFloat x | VInt z => EInt z | VUint z => EInt z | VString s => EStr s | VBool b => EBool b end.

Module JsonOut.

(** JSON has no infinities and no NaN: such fields are left out. *)
Definition special (v : Val) : bool := match v with VFloat x => f_is_nan x || f_is_inf x | _ => false end.

Definition createObject (units : Z) (m : metric) : enc :=
  let tags := foldl (fun acc t => <[Key t := EStr (Value t)]> acc) ∅ (tags m) in
  let fields := foldl (fun acc f => if special (FValue f) then acc else <[FKey f := enc_val (FValue f)]> acc) ∅ (fields m) in
  map_enc {["tags" := map_enc tags; "fields" := map_enc fields; "name" := EStr (name m); "timestamp" := EInt (Z.quot (int64 (tm m)) units)]}.

(** [None] is an error of [Marshal]. *)
Definition Serialize (units : Z) (m : metric) : option string := (fun s => s +:+ lf) <$> Marshal (createObject units m).
Definition SerializeBatch (units : Z) (ms : list metric) : option string := Marshal (map_enc {["metrics" := EArr (createObject units <$> ms)]}).

(** The constructor; [None] does not return. *)
Definition NewSerializer (timestampUnits : Z) : option Z := truncateDuration timestampUnits.
End JsonOut.

(** ** nowmetric *)

Module Now.

Record OIMetric := mkOI { Metric_ : string; Resource : string; Node : string; OValue : enc; Timestamp : Z; CiMapping : option string; Source : string }.

Definition verifyValue (v : Val) : bool := match v with VString _ => false | _ => true end.

Fixpoint tag_loop (ts : list Tag) (resource node : string) : string * string :=
  match ts with
  | [] => (resource, node)
  | t :: ts =>
    if decide (Key t = EmptyString \/ Value t = EmptyString) then tag_loop ts resource node
    else tag_loop ts (if decide (Key t = "objectname") then Value t else resource) (if decide (Key t = "host") then Value t else node)
  end.

Definition points (m : metric) : list OIMetric :=
  let '(resource, node) := tag_loop (tags m) EmptyString EmptyString in
  omap (fun f => if verifyValue (FValue f) && negb (bool_decide (FKey f = EmptyString)) then
      Some (mkOI (FKey f) resource node (enc_val (FValue f)) (Z.quot (int64 (tm m)) 1000000) (if decide (node = EmptyString) then None else Some node) "Telegraf")
    else None) (fields m).

Definition enc_point (o : OIMetric) : enc :=
  EObj [("metric_type", EStr (Metric_ o)); ("resource", EStr (Resource o)); ("node", EStr (Node o)); ("value", OValue o);
    ("timestamp", EInt (Timestamp o));
    ("ci2metric_id", match CiMapping o with Some n => EObj [("node", EStr n)] | None => ENull end); ("source", EStr (Source o))].

(** A slice without elements is nil, which is written as null. *)
Definition createObject (m : metric) : option string :=
  match points m with [] => Marshal ENull | ps => Marshal (EArr (enc_point <$> ps)) end.

(** An error is dropped. *)
Definition Serialize (m : metric) : string := default EmptyString (createObject m).

(** The arrays are joined by replacing text. *)
Definition SerializeBatch (ms : list metric) : option string :=
  l ← mapM createObject ms; Some (ReplaceAll (concat_strings l) "][" ",").
End Now.

(** ** splunkmetric *)

Module Splunk.

Record serializer := mkSerializer { HecRouting : bool; SplunkmetricMultiMetric : bool }.
Record CommonTags := mkCT { Time : float64; Host : string; Index : string; CSource : string; CFields : gmap string enc }.

(** Flags are written as 1 and 0. *)
Definition verifyValue (v : Val) : option enc :=
  match v with VString _ => None | VBool b => Some (EInt (if b then 1 else 0)) | v => Some (enc_val v) end.

Definition unless_empty (k s : string) : list (string * enc) := if decide (s = EmptyString) then [] else [(k, EStr s)].
Definition HECTimeSeries (c : CommonTags) (fields : gmap string enc) : enc :=
  EObj ([("time", EFloat (Time c)); ("event", EStr "metric")] ++ unless_empty "host" (Host c) ++ unless_empty "index" (Index c) ++
    unless_empty "source" (CSource c) ++ [("fields", map_enc fields)]).

(** The text of the fields collected so far; without routing the time becomes one of them. *)
Definition output (s : serializer) (c : CommonTags) (fields : gmap string enc) : option string * gmap string enc :=
  if HecRouting s then (Marshal (HECTimeSeries c fields), fields)
  else let fields := <["time" := EFloat (Time c)]> fields in (Marshal (map_enc fields), fields).

(** All fields in one object. *)
Definition createMulti (s : serializer) (m : metric) (c : CommonTags) : option string :=
  let fields := foldl (fun acc f => match verifyValue (FValue f) with
    | Some v => <["metric_name:" +:+ name m +:+ "." +:+ FKey f := v]> acc
    | None => acc
    end) (CFields c) (Metric.fields m) in
  (output s c fields).1.

(** An object for each field; they share the map. *)
Fixpoint single_loop (s : serializer) (nm : string) (c : CommonTags) (fs : list Field) (fields : gmap string enc) (group : string) : option string :=
  match fs with
  | [] => Some group
  | f :: fs =>
    match verifyValue (FValue f) with
    | None => single_loop s nm c fs fields group
    | Some v =>
      let '(out, fields) := output s c (<["_value" := v]> (<["metric_name" := EStr (nm +:+ "." +:+ FKey f)]> fields)) in
      t ← out; single_loop s nm c fs fields (group +:+ t)
    end
  end.
Definition createSingle (s : serializer) (m : metric) (c : CommonTags) : option string :=
  single_loop s (name m) c (Metric.fields m) (CFields c) EmptyString.

Definition common (s : serializer) (m : metric) : CommonTags :=
  let ts := Tags m in
  mkCT (f_div (f_of_Z (int64 (tm m))) (f_of_Z 1000000000)) (default EmptyString (ts !! "host")) (default EmptyString (ts !! "index"))
    (default EmptyString (ts !! "source"))
    ((EStr <$> delete "host" (delete "index" (delete "source" ts))) ∪
     {["config:hecRouting" := EBool (HecRouting s); "config:multiMetric" := EBool (SplunkmetricMultiMetric s)]}).

(** The errors are dropped, and with them all of the metric. *)
Definition createObject (s : serializer) (m : metric) : string :=
  let c := common s m in
  default EmptyString (if SplunkmetricMultiMetric s then createMulti s m c else createSingle s m c).

Definition Serialize (s : serializer) (m : metric) : string := createObject s m.
Definition SerializeBatch (s : serializer) (ms : list metric) : string := concat_strings (createObject s <$> ms).
End Splunk.

(** ** Examples *)

#[local] Existing Instance map_range_default.

Definition ex_point (host : string) (v : Val) : metric := Metric.New "cpu" {["host" := host]} (go_of_val <$> {["a" := v]}) 5000000000 [].

(** A metric without a number is written as null between the arrays, which is no JSON document. *)
Lemma now_batch_null : exists s, Now.SerializeBatch [ex_point "h" (VString "x"); ex_point "h" (VInt 1)] = Some s /\ Unmarshal s = None.
Proof. eexists. split; [vm_compute; reflexivity|]. vm_compute. reflexivity. Qed.

(** The text that joins arrays is replaced in values as well. *)
Lemma now_batch_replaces : Now.SerializeBatch [ex_point "a][b" (VInt 1)] = Now.SerializeBatch [ex_point "a,b" (VInt 1)] /\
  Now.Serialize (ex_point "a][b" (VInt 1)) <> Now.Serialize (ex_point "a,b" (VInt 1)).
Proof. split; [vm_compute; reflexivity|]. intros E. vm_compute in E. discriminate. Qed.

(** One field without a JSON form drops all the fields of its metric, without an error. *)
Lemma splunk_nan_drops :
  let m v := Metric.New "cpu" ∅ (go_of_val <$> {["a" := VInt 1; "b" := v]}) 5000000000 [] in
  (forall b, Splunk.Serialize (Splunk.mkSerializer b false) (m (VFloat S754_nan)) = EmptyString) /\
  (forall b, Splunk.Serialize (Splunk.mkSerializer b true) (m (VFloat S754_nan)) = EmptyString) /\
  Splunk.Serialize (Splunk.mkSerializer false true) (m (VString "x")) <> EmptyString.
Proof. cbv zeta. split; [intros []; vm_compute; reflexivity|]. split; [intros []; vm_compute; reflexivity|]. intros E. vm_compute in E. discriminate. Qed.

(** A tag of the name of a dimension is replaced: the time of the metric takes the place of the tag [time]. *)
Lemma splunk_tag_replaced :
  let m t := Metric.New "cpu" {["time" := t]} (go_of_val <$> {["a" := VInt 1]}) 5000000000 [] in
  Splunk.Serialize (Splunk.mkSerializer false false) (m "x") = Splunk.Serialize (Splunk.mkSerializer false false) (m "y").
Proof. vm_compute. reflexivity. Qed.
