(* ===== verification/JsonSpec.v ===== *)
(** * JSON texts read back

    What [Json.Marshal] writes, [Json.Unmarshal] reads, and what the JSON serializer writes of a metric the JSON parser makes into
    a metric again. *)

From Stdlib Require Import Ascii SpecFloat.
From S2P Require Import Prelude Float64 Strconv Strings Parse Metric Filter Converter Digits JsonParser Json.

(** ** Integers below 2^53 are exact *)

Lemma digits2_size p : digits2_pos p = Pos.size p.
Proof. induction p as [p IH|p IH|]; cbn; [by rewrite IH|by rewrite IH|done]. Qed.

Lemma iter_xO d p : Zpos (Pos.iter xO p d) = Zpos p * 2 ^ Zpos d /\ Zpos (digits2_pos (Pos.iter xO p d)) = Zpos (digits2_pos p) + Zpos d.
Proof.
  induction d as [|d [IH1 IH2]] using Pos.peano_ind; [cbn; lia|]. rewrite Pos.iter_succ. split.
  - change (Zpos (xO (Pos.iter xO p d))) with (2 * Zpos (Pos.iter xO p d)). rewrite IH1, Pos2Z.inj_succ, Z.pow_succ_r by lia. lia.
  - cbn [digits2_pos]. rewrite Pos2Z.inj_succ, IH2, Pos2Z.inj_succ. lia.
Qed.

Lemma size_bounds p : 2 ^ (Zpos (Pos.size p) - 1) <= Zpos p < 2 ^ Zpos (Pos.size p).
Proof.
  pose proof (Pos.size_gt p) as H1. pose proof (Pos.size_le p) as H2. apply Pos2Z.pos_lt_pos in H1. apply Pos2Z.pos_le_pos in H2.
  rewrite Pos2Z.inj_pow in H1, H2. change (Zpos p~0) with (2 * Zpos p) in H2. split; [|done].
  replace (Zpos (Pos.size p)) with (Z.succ (Zpos (Pos.size p) - 1)) in H2 by lia. rewrite Z.pow_succ_r in H2 by lia. lia.
Qed.

Lemma round_exact m e : Zpos (digits2_pos m) = 53 -> -1000 <= e <= 0 -> binary_round_aux f64_prec f64_emax false (Zpos m) e loc_Exact = S754_finite false m e.
Proof.
  intros Hd He. assert (shr_fexp f64_prec f64_emax (Zpos m) e loc_Exact = (shr_record_of_loc (Zpos m) loc_Exact, e)) as Hs.
  { unfold shr_fexp. cbn [Zdigits2]. rewrite Hd. unfold fexp, SpecFloat.emin, f64_prec, f64_emax.
    replace (Z.max (53 + e - 53) (3 - 1024 - 53) - e) with 0 by lia. done. }
  unfold binary_round_aux. rewrite Hs. cbn [shr_record_of_loc shr_m loc_of_shr_record round_nearest_even]. rewrite Hs. cbn [shr_record_of_loc shr_m].
  rewrite (proj2 (Z.leb_le e _)); [done|]. unfold f64_prec, f64_emax. lia.
Qed.

Lemma f_of_Z_exact z : 0 < z < 2 ^ 53 -> exists m e, f_of_Z z = S754_finite false m e /\ -52 <= e <= 0 /\ Zpos m = z * 2 ^ (- e).
Proof.
  intros Hz. destruct z as [|p|p]; [lia| |lia]. pose proof (size_bounds p) as Hs. set (s := Zpos (Pos.size p)) in *.
  assert (1 <= s <= 53) as Hs53.
  { split; [unfold s; lia|]. apply Z.lt_pred_le. apply (Z.pow_lt_mono_r_iff 2); [lia|lia|]. rewrite Z.sub_1_r in Hs. lia. }
  unfold f_of_Z. cbn [binary_normalize]. unfold binary_round. rewrite digits2_size. fold s. rewrite Z.add_0_r.
  assert (fexp f64_prec f64_emax s = s - 53) as -> by (unfold fexp, SpecFloat.emin, f64_prec, f64_emax; lia).
  unfold shl_align. rewrite Z.sub_0_r. destruct (s - 53) as [|d|d] eqn:Ed; [|lia|].
  - exists p, 0. rewrite round_exact; [|rewrite digits2_size; fold s; lia|lia]. split; [done|]. split; [lia|]. cbn. lia.
  - destruct (iter_xO d p) as [Hm Hd]. exists (Pos.iter xO p d), (Zneg d). rewrite round_exact; [|rewrite Hd, digits2_size; fold s; lia|lia].
    split; [done|]. split; [lia|]. rewrite Hm. done.
Qed.

(** The float of an integer, as it is read from its text. *)
Definition int_float (z : Z) : float64 := with_sign (z <? 0) (if z =? 0 then S754_zero false else f_of_Z (Z.abs z)).

Lemma ParseFloat_nat neg n : 0 <= n < 2 ^ 53 ->
  ParseFloat ((if neg : bool then "-" else EmptyString) +:+ FormatUint n) = Some (with_sign neg (if n =? 0 then S754_zero false else f_of_Z n)).
Proof.
  intros Hn. pose proof (FormatUint_read n ltac:(lia)) as Hr. set (t := FormatUint n) in *.
  destruct t as [|c s] eqn:E; [by apply FormatUint_nonempty in E; [|lia]|].
  pose proof Hr as Hr'. apply read_digits_cons in Hr' as [Hc Hr']. destruct (digit_char_spec c Hc) as (Hd & _ & _).
  assert (forall d u, s = String d u -> lower d <> 120) as Hx.
  { intros d u ->. apply read_digits_cons in Hr' as [Hd' _]. by apply digit_char_spec. }
  assert (mantissa_loop 10 (String c s) false false false 0 0 = (n, 0, true, false, EmptyString)) as Hm.
  { rewrite <- (str_app_nil_r (String c s)). rewrite (mantissa_digits _ _ _ _ _ _ _ n Hr). done. }
  destruct (special_digit c s Hd) as [Hs1 Hs2]. pose proof (not_hex c s Hd Hx) as Hh.
  assert (code c = byte_of c) as Ec by done.
  assert (strip_sign (String c s) = String c s) as Hss.
  { cbn [strip_sign]. by rewrite (proj2 (Z.eqb_neq (code c) 45)), (proj2 (Z.eqb_neq (code c) 43)) by lia. }
  assert (n <> 0 -> of_decimal n (0 - 0) = f_of_Z n /\ f_is_inf (f_of_Z n) = false) as Hi.
  { intros Hn0. unfold of_decimal. change (0 - 0) with 0. cbn [Z.leb Z.compare]. change (10 ^ 0) with 1. rewrite Z.mul_1_r.
    destruct (f_of_Z_exact n ltac:(lia)) as (m & e & Hf & _). by rewrite Hf. }
  remember (String c s) as num eqn:En. unfold ParseFloat. destruct neg.
  - change ("-" +:+ num) with (String "-" num). rewrite Hs2. change (strip_sign (String "-" num)) with num.
    rewrite Hh, Hm. cbn [negb read_exp]. rewrite bool_decide_eq_true_2 by done. cbn [negb orb andb].
    destruct (Z.eqb_spec n 0) as [|Hn0]; [done|]. destruct (Hi Hn0) as [-> ->]. done.
  - change (EmptyString +:+ num) with num. rewrite Hs1, Hss, Hh, Hm. cbn [negb read_exp]. rewrite bool_decide_eq_true_2 by done.
    cbn [negb orb andb].
    assert ((match num with String c _ => code c =? 45 | EmptyString => false end) = false) as -> by (rewrite En; apply Z.eqb_neq; lia).
    destruct (Z.eqb_spec n 0) as [|Hn0]; [done|]. destruct (Hi Hn0) as [-> ->]. done.
Qed.

Lemma ParseFloat_int z : - 2 ^ 53 < z < 2 ^ 53 -> ParseFloat (FormatInt z) = Some (int_float z).
Proof.
  intros Hz. unfold FormatInt, int_float. destruct (Z.ltb_spec z 0).
  - change (String "-" (FormatUint (- z))) with ("-" +:+ FormatUint (- z)). rewrite (ParseFloat_nat true (- z)) by lia. rewrite Z.abs_neq by lia.
    by rewrite (proj2 (Z.eqb_neq (- z) 0)), (proj2 (Z.eqb_neq z 0)) by lia.
  - change (FormatUint z) with (EmptyString +:+ FormatUint z). rewrite (ParseFloat_nat false z) by lia. by rewrite Z.abs_eq by lia.
Qed.

(** ** Numbers end where the text goes on *)

Definition stops (rest : string) : bool :=
  match rest with EmptyString => true | String c _ => (c =? ",")%char || (c =? "}")%char || (c =? "]")%char end.
Lemma stops_char c r : stops (String c r) = true -> is_digit c = false /\ c <> "."%char /\ c <> "e"%char /\ c <> "E"%char.
Proof. cbn [stops]. rewrite !orb_true_iff, !Ascii.eqb_eq. by intros [[->| ->]| ->]. Qed.

Lemma digits_span_app s a b rest : digits_span s = (a, b) -> stops rest = true -> digits_span (s +:+ rest) = (a, b +:+ rest).
Proof.
  revert a b. induction s as [|c s IH]; intros a b; cbn [digits_span].
  - intros [= <- <-] Hr. change (EmptyString +:+ rest) with rest. destruct rest as [|c r]; [done|]. cbn [digits_span].
    destruct (stops_char c r Hr) as (-> & _). done.
  - change (String c s +:+ rest) with (String c (s +:+ rest)). cbn [digits_span]. destruct (is_digit c).
    + destruct (digits_span s) as [a' b'] eqn:E. intros [= <- <-] Hr. by rewrite (IH a' b' eq_refl Hr).
    + intros [= <- <-] _. done.
Qed.
Lemma int_part_app s a b rest : int_part s = Some (a, b) -> stops rest = true -> int_part (s +:+ rest) = Some (a, b +:+ rest).
Proof.
  destruct s as [|c s]; [done|]. cbn [int_part]. intros Hi Hr. change (String c s +:+ rest) with (String c (s +:+ rest)). cbn [int_part].
  destruct (c =? "0")%char; [by injection Hi as <- <-|]. destruct (is_digit c); [|done]. injection Hi as Hi.
  change (String c (s +:+ rest)) with (String c s +:+ rest). by rewrite (digits_span_app (String c s) a b rest Hi Hr).
Qed.
Lemma frac_part_other c r : c <> "."%char -> frac_part (String c r) = Some (EmptyString, String c r).
Proof. intros Hc. unfold frac_part. destruct c as [[] [] [] [] [] [] [] []]; done. Qed.
Lemma frac_part_app s a b rest : frac_part s = Some (a, b) -> stops rest = true -> frac_part (s +:+ rest) = Some (a, b +:+ rest).
Proof.
  destruct s as [|c s]; intros Hf Hr.
  - injection Hf as <- <-. change (EmptyString +:+ rest) with rest. destruct rest as [|c r]; [done|]. destruct (stops_char c r Hr) as (_ & Hc & _).
    by apply frac_part_other.
  - change (String c s +:+ rest) with (String c (s +:+ rest)). destruct (decide (c = "."%char)) as [->|Hc].
    + cbn [frac_part] in *. destruct (digits_span s) as [x y] eqn:E. rewrite (digits_span_app _ _ _ _ E Hr).
      destruct (decide (x = EmptyString)); [done|]. by injection Hf as <- <-.
    + rewrite frac_part_other in * by done. by injection Hf as <- <-.
Qed.
Lemma exp_part_app s a b rest : exp_part s = Some (a, b) -> stops rest = true -> exp_part (s +:+ rest) = Some (a, b +:+ rest).
Proof.
  destruct s as [|c s]; intros Hf Hr.
  - injection Hf as <- <-. change (EmptyString +:+ rest) with rest. destruct rest as [|c r]; [done|]. destruct (stops_char c r Hr) as (_ & _ & H1 & H2).
    cbn [exp_part]. by rewrite (proj2 (Ascii.eqb_neq c "e")), (proj2 (Ascii.eqb_neq c "E")) by done.
  - change (String c s +:+ rest) with (String c (s +:+ rest)). cbn [exp_part] in *. destruct ((c =? "e")%char || (c =? "E")%char); [|by injection Hf as <- <-].
    destruct s as [|d s]; [done|]. change (String d s +:+ rest) with (String d (s +:+ rest)). cbv iota beta in *. destruct ((d =? "+")%char || (d =? "-")%char).
    + destruct (digits_span s) as [x y] eqn:E. rewrite (digits_span_app _ _ _ _ E Hr). destruct (decide (x = EmptyString)); [done|]. by injection Hf as <- <-.
    + destruct (digits_span (String d s)) as [x y] eqn:E. change (String d (s +:+ rest)) with (String d s +:+ rest).
      rewrite (digits_span_app _ _ _ _ E Hr). destruct (decide (x = EmptyString)); [done|]. by injection Hf as <- <-.
Qed.

Definition number_abs (s : string) : option (string * string) := '(i, s) ← int_part s; '(f, s) ← frac_part s; '(e, s) ← exp_part s; Some (i +:+ f +:+ e, s).
Lemma number_abs_app s t rest : number_abs s = Some (t, EmptyString) -> stops rest = true -> number_abs (s +:+ rest) = Some (t, rest).
Proof.
  unfold number_abs. intros Hn Hr. destruct (int_part s) as [[i s1]|] eqn:E1; [|done]. revert Hn. binds. destruct (frac_part s1) as [[f s2]|] eqn:E2; [|done]. binds.
  destruct (exp_part s2) as [[e s3]|] eqn:E3; [|done]. binds. intros [= <- ->]. rewrite (int_part_app _ _ _ _ E1 Hr). binds.
  rewrite (frac_part_app _ _ _ _ E2 Hr). binds. rewrite (exp_part_app _ _ _ _ E3 Hr). binds. done.
Qed.
Lemma number_minus s : number (String "-" s) = (fun r => ("-" +:+ r.1, r.2)) <$> number_abs s.
Proof.
  unfold number, number_abs. destruct (int_part s) as [[i s1]|]; [|done]. binds. destruct (frac_part s1) as [[f s2]|]; [|done]. binds.
  by destruct (exp_part s2) as [[e s3]|].
Qed.
Lemma number_other s : (forall r, s <> String "-" r) -> number s = number_abs s.
Proof.
  intros Hs. unfold number, number_abs. destruct s as [|c s]; [done|].
  assert (c <> "-"%char) as Hc by (intros ->; by apply (Hs s)). destruct c as [[] [] [] [] [] [] [] []]; done.
Qed.
Lemma number_app t rest : number t = Some (t, EmptyString) -> stops rest = true -> number (t +:+ rest) = Some (t, rest).
Proof.
  intros Hn Hr. destruct t as [|c t]; [done|]. destruct (decide (c = "-"%char)) as [->|Hc].
  - change (String "-" t +:+ rest) with (String "-" (t +:+ rest)). rewrite number_minus in *.
    destruct (number_abs t) as [[u v]|] eqn:E; [|done]. cbn [fmap option_fmap option_map fst snd] in Hn.
    change ("-" +:+ u) with (String "-" u) in Hn. injection Hn as -> ->. by rewrite (number_abs_app _ _ _ E Hr).
  - change (String c t +:+ rest) with (String c (t +:+ rest)). rewrite number_other in * by (intros r; congruence).
    change (String c (t +:+ rest)) with (String c t +:+ rest). by apply number_abs_app.
Qed.

Lemma digits_span_all s acc v : read_digits s acc = Some v -> digits_span s = (s, EmptyString).
Proof.
  revert acc. induction s as [|c s IH]; intros acc Hv; [done|]. apply read_digits_cons in Hv as [Hc Hv]. cbn [digits_span].
  destruct (digit_char_spec c Hc) as (-> & _). by rewrite (IH _ Hv).
Qed.
Lemma number_abs_nat n : 0 <= n -> number_abs (FormatUint n) = Some (FormatUint n, EmptyString).
Proof.
  intros Hn. destruct (decide (n = 0)) as [->|Hn0]; [done|]. destruct (FormatUint_first n ltac:(lia)) as (d & s & Hd & E).
  pose proof (FormatUint_read n Hn) as Hr. rewrite E in *. unfold number_abs. cbn [int_part].
  assert ((digit_char d =? "0")%char = false) as ->.
  { apply Ascii.eqb_neq. intros Ed. apply (f_equal code) in Ed. rewrite code_digit in Ed by lia. change (code "0") with 48 in Ed. lia. }
  assert (is_digit (digit_char d) = true) as -> by (unfold is_digit, Parse.between; rewrite code_digit by lia; apply andb_true_iff; rewrite !Z.leb_le; lia).
  rewrite (digits_span_all _ _ _ Hr). binds. cbn [frac_part]. binds. cbn [exp_part]. binds. change (EmptyString +:+ EmptyString) with EmptyString. by rewrite str_app_nil_r.
Qed.
Lemma number_int z : number (FormatInt z) = Some (FormatInt z, EmptyString).
Proof.
  unfold FormatInt. destruct (Z.ltb_spec z 0).
  - rewrite number_minus, number_abs_nat by lia. done.
  - rewrite number_other; [by apply number_abs_nat|]. intros r E. pose proof (FormatUint_read z ltac:(lia)) as Hr. rewrite E in Hr. by cbn in Hr.
Qed.

(** The first character of a number is not one that starts another value, and no space. *)
Lemma number_head t : number t = Some (t, EmptyString) -> exists c r, t = String c r /\ (c = "-"%char \/ is_digit c = true).
Proof.
  intros Hn. destruct t as [|c r]; [done|]. exists c, r. split; [done|]. destruct (decide (c = "-"%char)) as [->|Hc]; [by left|]. right.
  rewrite number_other in Hn by congruence. unfold number_abs in Hn. cbn [int_part] in Hn. destruct (Ascii.eqb_spec c "0"); [by subst|]. by destruct (is_digit c).
Qed.

Lemma number_text fuel t rest x :
  number t = Some (t, EmptyString) -> ParseFloat t = Some x -> stops rest = true -> value (S fuel) (t +:+ rest) = Some (JNum x, rest).
Proof.
  intros Hn Hx Hr. destruct (number_head t Hn) as (c & r & -> & Hc). pose proof (number_app _ _ Hn Hr) as Ha.
  change (String c r +:+ rest) with (String c (r +:+ rest)) in *. cbn [value].
  assert (forall d, is_digit d = false -> d <> "-"%char -> (c =? d)%char = false) as Hd.
  { intros d H1 H2. apply Ascii.eqb_neq. intros ->. destruct Hc as [->|Hc]; congruence. }
  assert (skip_ws (String c (r +:+ rest)) = String c (r +:+ rest)) as ->.
  { cbn [skip_ws]. assert ((byte_of c =? 32) || (byte_of c =? 9) || (byte_of c =? 10) || (byte_of c =? 13) = false) as ->; [|done].
    destruct Hc as [->|Hc]; [done|]. unfold is_digit, Parse.between in Hc. apply andb_true_iff in Hc as [H1 H2]. apply Z.leb_le in H1, H2.
    change (code c) with (byte_of c) in *. by rewrite !(proj2 (Z.eqb_neq _ _)) by lia. }
  rewrite !Hd by done. rewrite Ha. binds. by rewrite Hx.
Qed.

(** ** Texts *)

Lemma next_char_escape c r : byte_of c < 128 -> next_char (escape_char c +:+ r) = Some (String c EmptyString, r).
Proof. intros Hc. destruct c as [[] [] [] [] [] [] [] []]; try (exfalso; vm_compute in Hc; discriminate); reflexivity. Qed.
Lemma escape_char_head c : byte_of c < 128 -> exists d t, escape_char c = String d t /\ (d =? dquote)%char = false.
Proof. intros Hc. destruct c as [[] [] [] [] [] [] [] []]; try (exfalso; vm_compute in Hc; discriminate); by do 2 eexists. Qed.

Definition escaped (s : string) : string := concat_strings (escape_rune <$> runes s).
Lemma escaped_cons c s : is_ascii (String c s) = true -> escaped (String c s) = escape_char c +:+ escaped s.
Proof.
  intros Ha. unfold escaped. rewrite runes_ascii by done. cbn [is_ascii] in Ha. apply andb_true_iff in Ha as [Hc Ha]. rewrite runes_ascii by done.
  cbn [chars fmap list_fmap]. unfold concat_strings. cbn [foldr]. f_equal. unfold escape_rune. cbn [snd]. by rewrite Hc.
Qed.

Lemma unquote_escaped s : forall fuel rest, is_ascii s = true -> (String.length s < fuel)%nat ->
  unquote fuel (escaped s +:+ dq +:+ rest) = Some (s, rest).
Proof.
  induction s as [|c s IH]; intros fuel rest Ha Hf; destruct fuel as [|fuel]; try lia; [done|].
  rewrite escaped_cons by done. cbn [is_ascii] in Ha. apply andb_true_iff in Ha as [Hc Ha]. apply Z.ltb_lt in Hc. rewrite str_app_assoc.
  pose proof (next_char_escape c (escaped s +:+ dq +:+ rest) Hc) as Hn. destruct (escape_char_head c Hc) as (d & t & E & Hd). rewrite E in *.
  change (String d t +:+ ?u) with (String d (t +:+ u)) in *. cbn [unquote]. rewrite Hd, Hn. binds. rewrite IH by (done || simpl in Hf; lia). done.
Qed.

Lemma escaped_length s : is_ascii s = true -> (String.length s <= String.length (escaped s))%nat.
Proof.
  induction s as [|c s IH]; intros Ha; [done|]. rewrite escaped_cons by done. cbn [is_ascii] in Ha. apply andb_true_iff in Ha as [Hc Ha]. apply Z.ltb_lt in Hc.
  destruct (escape_char_head c Hc) as (d & t & -> & _). rewrite str_length_app. cbn [String.length]. specialize (IH Ha). lia.
Qed.

(** A quoted text, read where a text is expected. *)
Lemma unquote_quoted s rest : is_ascii s = true ->
  exists r, quoted s +:+ rest = String dquote r /\ unquote (S (String.length r)) r = Some (s, rest).
Proof.
  intros Ha. exists (escaped s +:+ dq +:+ rest). split; [unfold quoted; by rewrite !str_app_assoc|]. apply unquote_escaped; [done|].
  rewrite str_length_app. pose proof (escaped_length s Ha). lia.
Qed.

(** ** Values *)

Section enc_induction.
Variable P : enc -> Prop.
Hypothesis Hnull : P ENull.
Hypothesis Hint : forall z, P (EInt z).
Hypothesis Hfloat : forall x, P (EFloat x).
Hypothesis Hbool : forall b, P (EBool b).
Hypothesis Hstr : forall s, P (EStr s).
Hypothesis Harr : forall l, Forall P l -> P (EArr l).
Hypothesis Hobj : forall l, Forall (fun kv => P kv.2) l -> P (EObj l).

Fixpoint enc_nested (e : enc) : P e :=
  match e with
  | ENull => Hnull
  | EInt z => Hint z
  | EFloat x => Hfloat x
  | EBool b => Hbool b
  | EStr s => Hstr s
  | EArr l => Harr l ((fix elems l := match l return Forall P l with [] => Forall_nil_2 _ | x :: l => Forall_cons_2 _ _ _ (enc_nested x) (elems l) end) l)
  | EObj l => Hobj l ((fix entries l := match l return Forall (fun kv => P kv.2) l with
      | [] => Forall_nil_2 _ | kv :: l => Forall_cons_2 _ _ _ (enc_nested kv.2) (entries l) end) l)
  end.
End enc_induction.

Fixpoint dec (e : enc) : json :=
  match e with
  | ENull => JNull
  | EInt z => JNum (int_float z)
  | EFloat x => JNum x
  | EBool b => JBool b
  | EStr s => JStr s
  | EArr l => JArr (map dec l)
  | EObj l => JObj (map (fun kv => (kv.1, dec kv.2)) l)
  end.

(** What reads back: integers that doubles hold exactly, ASCII texts, numbers whose text gives them back, objects without a key twice. *)
Definition float_back (x : float64) : bool :=
  bool_decide (number (float_text x) = Some (float_text x, EmptyString)) && bool_decide (ParseFloat (float_text x) = Some x).
Fixpoint readable (e : enc) : bool :=
  match e with
  | EInt z => (- 2 ^ 53 <? z) && (z <? 2 ^ 53)
  | EFloat x => float_back x
  | EStr s => is_ascii s
  | EArr l => forallb readable l
  | EObj l => bool_decide (NoDup l.*1) && forallb (fun kv => is_ascii kv.1 && readable kv.2) l
  | _ => true
  end.
Fixpoint depth (e : enc) : nat :=
  match e with
  | EArr l => S (foldr (fun e n => Nat.max (depth e) n) 0%nat l)
  | EObj l => S (foldr (fun kv n => Nat.max (depth kv.2) n) 0%nat l)
  | _ => 0
  end.

Definition reads (fuel : nat) (e : enc) : Prop := forall rest, stops rest = true -> value fuel (text e +:+ rest) = Some (dec e, rest).

Lemma join_length ls : (length ls <= S (String.length (Join ls ",")))%nat.
Proof.
  induction ls as [|s ls IH]; [simpl; lia|]. destruct ls as [|t ls]; [simpl; lia|]. rewrite Join_cons by done. rewrite !str_length_app. cbn [length String.length] in *. lia.
Qed.

Definition member (kv : string * enc) : string := quoted kv.1 +:+ ":" +:+ text kv.2.
Lemma members_text fuel l : forall n acc rest,
  l <> [] -> Forall (fun kv => is_ascii kv.1 = true /\ reads fuel kv.2) l -> (length l <= n)%nat -> NoDup (acc.*1 ++ l.*1) ->
  members (value fuel) n (Join (map member l) "," +:+ "}" +:+ rest) acc = Some (JObj (acc ++ map (fun kv => (kv.1, dec kv.2)) l), rest).
Proof.
  assert (forall k v acc, k ∉ acc.*1 -> obj_insert k v acc = acc ++ [(k, v)]) as Hins.
  { intros k v acc. induction acc as [|[k' v'] acc IH]; [done|]. cbn. rewrite not_elem_of_cons. intros [Hk Hn]. rewrite decide_False by done. by rewrite IH. }
  induction l as [|[k e] l IH]; intros n acc rest Hne Hl Hn Hnd; [done|]. apply Forall_cons in Hl as [[Hk He] Hl]. cbn [fst snd] in *.
  destruct n as [|n]; [simpl in Hn; lia|]. cbn [map]. set (tail := match l with [] => "}" +:+ rest | _ => "," +:+ Join (map member l) "," +:+ "}" +:+ rest end).
  assert (Join (member (k, e) :: map member l) "," +:+ "}" +:+ rest = quoted k +:+ ":" +:+ text e +:+ tail) as ->.
  { unfold member at 1, tail. cbn [fst snd]. destruct l as [|kv l]; [cbn [map Join]; by rewrite !str_app_assoc|].
    rewrite Join_cons by done. by rewrite !str_app_assoc. }
  destruct (unquote_quoted k (":" +:+ text e +:+ tail) Hk) as (r & -> & Hu). cbn [members].
  change (skip_ws (String dquote r)) with (String dquote r). cbv iota. change (dquote =? dquote)%char with true. cbv iota. rewrite Hu. binds.
  change (":" +:+ text e +:+ tail) with (String ":" (text e +:+ tail)). change (skip_ws (String ":" (text e +:+ tail))) with (String ":" (text e +:+ tail)). cbv iota beta.
  assert (stops tail = true) as Ht by (unfold tail; by destruct l). rewrite (He tail Ht). binds.
  rewrite Hins by (intros Hin; apply NoDup_app in Hnd as (_ & Hd & _); apply (Hd k Hin); by left).
  unfold tail. destruct l as [|kv l].
  - change ("}" +:+ rest) with (String "}" rest). change (skip_ws (String "}" rest)) with (String "}" rest). done.
  - change ("," +:+ ?u) with (String "," u). set (u := Join _ _ +:+ _). change (skip_ws (String "," u)) with (String "," u). cbv iota beta. unfold u.
    rewrite IH; [|done|done|simpl in Hn |- *; lia|].
    + by rewrite <- app_assoc.
    + rewrite fmap_app, <- app_assoc. exact Hnd.
Qed.

Lemma items_text fuel l : forall n acc rest, l <> [] -> Forall (reads fuel) l -> (length l <= n)%nat ->
  items (value fuel) n (Join (map text l) "," +:+ "]" +:+ rest) acc = Some (JArr (acc ++ map dec l), rest).
Proof.
  induction l as [|e l IH]; intros n acc rest Hne Hl Hn; [done|]. apply Forall_cons in Hl as [He Hl]. destruct n as [|n]; [simpl in Hn; lia|].
  cbn [map]. set (tail := match l with [] => "]" +:+ rest | _ => "," +:+ Join (map text l) "," +:+ "]" +:+ rest end).
  assert (Join (text e :: map text l) "," +:+ "]" +:+ rest = text e +:+ tail) as ->.
  { unfold tail. destruct l as [|e' l]; [done|]. rewrite Join_cons by done. by rewrite !str_app_assoc. }
  assert (stops tail = true) as Ht by (unfold tail; by destruct l). cbn [items]. rewrite (He tail Ht). binds. unfold tail. destruct l as [|e' l].
  - change ("]" +:+ rest) with (String "]" rest). change (skip_ws (String "]" rest)) with (String "]" rest). done.
  - change ("," +:+ ?u) with (String "," u). set (u := Join _ _ +:+ _). change (skip_ws (String "," u)) with (String "," u). cbv iota beta. unfold u.
    rewrite IH; [|done|done|simpl in Hn |- *; lia]. by rewrite <- app_assoc.
Qed.

Lemma depth_in l e : e ∈ l -> (depth e <= foldr (fun e n => Nat.max (depth e) n) 0 l)%nat.
Proof. induction l as [|x l IH]; [by intros ?%not_elem_of_nil|]. rewrite elem_of_cons. cbn [foldr]. intros [->|Hin]; [lia|]. specialize (IH Hin). lia. Qed.
Lemma depth_member l (kv : string * enc) : kv ∈ l -> (depth kv.2 <= foldr (fun kv n => Nat.max (depth kv.2) n) 0 l)%nat.
Proof. induction l as [|x l IH]; [by intros ?%not_elem_of_nil|]. rewrite elem_of_cons. cbn [foldr]. intros [->|Hin]; [lia|]. specialize (IH Hin). lia. Qed.

Lemma text_head e rest : readable e = true -> exists c r, text e +:+ rest = String c r /\ c <> "]"%char /\ c <> "}"%char /\ skip_ws (String c r) = String c r.
Proof.
  assert (forall t, number t = Some (t, EmptyString) -> exists c r, t +:+ rest = String c r /\ c <> "]"%char /\ c <> "}"%char /\ skip_ws (String c r) = String c r) as Hn.
  { intros t Ht. destruct (number_head t Ht) as (c & r & -> & Hc). exists c, (r +:+ rest). split; [done|].
    split; [intros ->; by destruct Hc|]. split; [intros ->; by destruct Hc|]. cbn [skip_ws].
    assert ((byte_of c =? 32) || (byte_of c =? 9) || (byte_of c =? 10) || (byte_of c =? 13) = false) as ->; [|done].
    destruct Hc as [->|Hc]; [done|]. unfold is_digit, Parse.between in Hc. apply andb_true_iff in Hc as [H1 H2]. apply Z.leb_le in H1, H2.
    change (code c) with (byte_of c) in *. by rewrite !(proj2 (Z.eqb_neq _ _)) by lia. }
  destruct e as [|z|x|b|s|l|l]; intros Hr.
  - by do 2 eexists.
  - apply Hn, number_int.
  - apply Hn. cbn [readable] in Hr. unfold float_back in Hr. apply andb_true_iff in Hr as [Hr _]. by apply bool_decide_eq_true in Hr.
  - destruct b; by do 2 eexists.
  - destruct (unquote_quoted s rest Hr) as (r & E & _). exists dquote, r. done.
  - by do 2 eexists.
  - by do 2 eexists.
Qed.

Lemma text_reads e : readable e = true -> forall fuel, (depth e < fuel)%nat -> reads fuel e.
Proof.
  induction e as [|z|x|b|s|l IH|l IH] using enc_nested; intros Hr fuel Hf rest Hs; destruct fuel as [|fuel]; try lia; cbn [text dec readable depth] in *.
  - done.
  - apply andb_true_iff in Hr as [H1 H2]. apply Z.ltb_lt in H1, H2. apply number_text; [apply number_int|apply ParseFloat_int; lia|done].
  - unfold float_back in Hr. apply andb_true_iff in Hr as [H1 H2]. apply bool_decide_eq_true in H1, H2. by apply number_text.
  - by destruct b.
  - destruct (unquote_quoted s rest Hr) as (r & -> & Hu). cbn [value]. change (skip_ws (String dquote r)) with (String dquote r). cbv iota.
    change (dquote =? "{")%char with false. change (dquote =? "[")%char with false. change (dquote =? dquote)%char with true. cbv iota. by rewrite Hu.
  - change (("[" +:+ ?a) +:+ rest) with (String "[" (a +:+ rest)). rewrite str_app_assoc. cbn [value]. set (r := Join _ _ +:+ _).
    change (skip_ws (String "[" r)) with (String "[" r). cbv iota. change ("[" =? "{")%char with false. change ("[" =? "[")%char with true. cbv iota.
    rewrite forallb_forall in Hr. destruct l as [|e l]; [done|].
    assert (items (value fuel) (S (String.length r)) r [] = Some (JArr (map dec (e :: l)), rest)) as Hi.
    { apply (items_text fuel (e :: l)); [done| |].
      - rewrite Forall_forall in *. intros e' Hin. apply IH; [done|apply Hr; by apply list_elem_of_In|]. pose proof (depth_in _ _ Hin). lia.
      - unfold r. rewrite str_length_app. pose proof (join_length (map text (e :: l))) as Hj. rewrite length_map in Hj. cbn [String.length] in *. lia. }
    assert (exists c t, r = String c t /\ c <> "]"%char /\ c <> "}"%char /\ skip_ws (String c t) = String c t) as (c & t & Er & Hc & _ & Hw).
    { unfold r. destruct l as [|e' l]; [cbn [map Join]; apply text_head; apply Hr; by left|]. cbn [map]. rewrite Join_cons by done. rewrite !str_app_assoc.
      apply text_head. apply Hr. by left. }
    rewrite Hi. rewrite Er, Hw. destruct c as [[] [] [] [] [] [] [] []]; done.
  - change (("{" +:+ ?a) +:+ rest) with (String "{" (a +:+ rest)). rewrite str_app_assoc. cbn [value]. fold member. set (r := Join _ _ +:+ _).
    change (skip_ws (String "{" r)) with (String "{" r). cbv iota. change ("{" =? "{")%char with true. cbv iota.
    apply andb_true_iff in Hr as [Hnd Hr]. apply bool_decide_eq_true in Hnd. rewrite forallb_forall in Hr. destruct l as [|kv l]; [done|].
    assert (members (value fuel) (S (String.length r)) r [] = Some (JObj (map (fun kv => (kv.1, dec kv.2)) (kv :: l)), rest)) as Hi.
    { apply (members_text fuel (kv :: l)); [done| | |done].
      - rewrite Forall_forall in *. intros kv' Hin. specialize (Hr kv' ltac:(by apply list_elem_of_In)). apply andb_true_iff in Hr as [Hk Hr].
        split; [done|]. apply IH; [done|done|]. pose proof (depth_member _ _ Hin). lia.
      - unfold r. rewrite str_length_app. pose proof (join_length (map member (kv :: l))) as Hj. rewrite length_map in Hj. cbn [String.length] in *. lia. }
    assert (exists t, r = String dquote t) as (t & Er).
    { unfold r. destruct l as [|kv' l]; [by eexists|]. cbn [map]. rewrite Join_cons by done. unfold member at 1. unfold quoted. rewrite !str_app_assoc. by eexists. }
    rewrite Hi. rewrite Er. done.
Qed.

Lemma join_in s ls : s ∈ ls -> (String.length s <= String.length (Join ls ","))%nat.
Proof.
  induction ls as [|t ls IH]; [by intros ?%not_elem_of_nil|]. rewrite elem_of_cons. destruct ls as [|t' ls].
  - intros [->|?%not_elem_of_nil]; [|done]. cbn [Join]. lia.
  - rewrite Join_cons by done. rewrite !str_length_app. intros [->|Hin]; [lia|]. specialize (IH Hin). lia.
Qed.
Lemma fold_max_le {A} (f : A -> nat) l n : (forall x, x ∈ l -> (f x <= n)%nat) -> (foldr (fun x n => Nat.max (f x) n) 0 l <= n)%nat.
Proof. induction l as [|x l IH]; intros Hl; [simpl; lia|]. cbn [foldr]. specialize (IH ltac:(intros y Hy; apply Hl; by right)). specialize (Hl x ltac:(by left)). lia. Qed.

Lemma depth_length e : (depth e <= String.length (text e))%nat.
Proof.
  induction e as [|z|x|b|s|l IH|l IH] using enc_nested; cbn [depth text]; try lia; rewrite !str_length_app; cbn [String.length]; rewrite Forall_forall in IH.
  - pose proof (fold_max_le depth l (String.length (Join (map text l) ","))) as Hm. specialize (Hm ltac:(intros e He; specialize (IH e He);
      pose proof (join_in (text e) (map text l) ltac:(apply list_elem_of_In, in_map; by apply list_elem_of_In)); lia)). lia.
  - fold member. pose proof (fold_max_le (fun kv => depth kv.2) l (String.length (Join (map member l) ","))) as Hm.
    specialize (Hm ltac:(intros kv Hkv; specialize (IH kv Hkv); pose proof (join_in (member kv) (map member l) ltac:(apply list_elem_of_In, in_map; by apply list_elem_of_In)) as Hj;
      unfold member in Hj at 1; rewrite !str_length_app in Hj; lia)). lia.
Qed.

(** [Unmarshal] of what [Marshal] writes. *)
Lemma Unmarshal_text e : readable e = true -> Unmarshal (text e) = Some (dec e).
Proof.
  intros Hr. unfold Unmarshal. rewrite <- (str_app_nil_r (text e)) at 2. rewrite (text_reads e Hr); [by binds| |done].
  pose proof (depth_length e). lia.
Qed.

(** ** The text of a metric *)

Lemma escape_char_ascii c : byte_of c < 128 -> is_ascii (escape_char c) = true.
Proof. intros Hc. destruct c as [[] [] [] [] [] [] [] []]; try (exfalso; vm_compute in Hc; discriminate); reflexivity. Qed.
Lemma quoted_ascii s : is_ascii s = true -> is_ascii (quoted s) = true.
Proof.
  intros Ha. unfold quoted. fold (escaped s). rewrite !is_ascii_app. cut (is_ascii (escaped s) = true); [intros ->; done|].
  induction s as [|c s IH]; [done|]. rewrite escaped_cons by done. cbn [is_ascii] in Ha. apply andb_true_iff in Ha as [Hc Ha].
  rewrite is_ascii_app, escape_char_ascii by (by apply Z.ltb_lt). by apply IH.
Qed.
Lemma join_ascii ls : Forall (fun s => is_ascii s = true) ls -> is_ascii (Join ls ",") = true.
Proof.
  induction 1 as [|s ls Hs Hls IH]; [done|]. destruct ls as [|t ls]; [done|]. rewrite Join_cons by done. by rewrite !is_ascii_app, Hs, IH.
Qed.

(** Floats whose text is ASCII; that of a finite number always is. *)
Fixpoint ascii_floats (e : enc) : bool :=
  match e with
  | EFloat x => is_ascii (float_text x)
  | EArr l => forallb ascii_floats l
  | EObj l => forallb (fun kv => ascii_floats kv.2) l
  | _ => true
  end.
Lemma text_ascii e : readable e = true -> ascii_floats e = true -> is_ascii (text e) = true.
Proof.
  induction e as [|z|x|b|s|l IH|l IH] using enc_nested; intros Hr Hf; cbn [text readable ascii_floats] in *; try done.
  - apply printable_ascii. apply FormatInt_chars.
  - by destruct b.
  - by apply quoted_ascii.
  - rewrite !is_ascii_app, join_ascii; [done|]. rewrite forallb_forall in Hr, Hf. rewrite Forall_forall in IH. apply Forall_forall. intros t Ht.
    apply list_elem_of_In, in_map_iff in Ht as (e & <- & Hin). apply IH; [by apply list_elem_of_In|by apply Hr|by apply Hf].
  - apply andb_true_iff in Hr as [_ Hr]. rewrite !is_ascii_app, join_ascii; [done|]. rewrite forallb_forall in Hr, Hf. rewrite Forall_forall in IH. apply Forall_forall. intros t Ht.
    apply list_elem_of_In, in_map_iff in Ht as (kv & <- & Hin). specialize (Hr kv Hin). apply andb_true_iff in Hr as [Hk Hr].
    rewrite !is_ascii_app, quoted_ascii by done. rewrite IH; [done|by apply list_elem_of_In|done|by apply Hf].
Qed.

(** Space around a text that neither starts nor ends with space. *)
Lemma TrimSpace_line c s d : is_ascii (String c s) = true -> IsSpace (byte_of c) = false -> IsSpace (byte_of d) = false -> (byte_of d <? 128) = true ->
  TrimSpace ((String c s +:+ String d EmptyString) +:+ lf) = String c s +:+ String d EmptyString.
Proof.
  intros Ha Hc Hd Hd'. unfold TrimSpace. rewrite runes_ascii.
  2:{ rewrite !is_ascii_app, Ha. cbn [is_ascii]. by rewrite Hd'. }
  rewrite !chars_app. set (cs := chars (String c s) ++ chars (String d EmptyString)).
  assert (drop_space (cs ++ chars lf) = cs ++ chars lf) as -> by (unfold cs; cbn [chars app drop_space]; by rewrite Hc).
  rewrite reverse_app. change (reverse (chars lf)) with (chars lf). change (chars lf) with [(10, lf)]. cbn [app drop_space]. change (IsSpace 10) with true. cbv iota.
  assert (drop_space (reverse cs) = reverse cs) as ->.
  { unfold cs. rewrite reverse_app. change (chars (String d EmptyString)) with [(byte_of d, String d EmptyString)]. rewrite reverse_singleton. cbn [app drop_space]. by rewrite Hd. }
  rewrite reverse_involutive. unfold cs. rewrite <- chars_app. apply chars_concat.
Qed.

(** ** The object of a metric *)

Lemma foldl_insert_map {A B} (k : A -> string) (v : A -> B) (l : list A) : NoDup (k <$> l) ->
  foldl (fun acc x => <[k x := v x]> acc) (∅ : gmap string B) l = list_to_map ((fun x => (k x, v x)) <$> l).
Proof.
  cut (forall M : gmap string B, NoDup (k <$> l) -> foldl (fun acc x => <[k x := v x]> acc) M l = list_to_map ((fun x => (k x, v x)) <$> l) ∪ M).
  { intros Hc Hnd. rewrite Hc by done. apply (right_id_L ∅ (∪)). }
  induction l as [|x l IH]; intros M Hnd; [cbn; by rewrite (left_id_L ∅ (∪))|]. cbn [fmap list_fmap foldl] in *. apply NoDup_cons in Hnd as [Hx Hnd].
  rewrite IH by done. cbn. rewrite <- insert_union_r, insert_union_l; [done|]. apply not_elem_of_list_to_map_1. rewrite <- list_fmap_compose. exact Hx.
Qed.

(** The fields that are written. *)
Definition written (m : metric) : gmap string Val := filter (fun kv => JsonOut.special kv.2 = false) (Metric.Fields m).

Lemma sorted_list {V} (f : V -> enc) (M : gmap string V) :
  exists l, map_enc (f <$> M) = EObj (prod_map id f <$> l) /\ l ≡ₚ map_to_list M.
Proof.
  destruct (Permutation_map_inv (prod_map id f) (map_to_list M) (l1 := sort_by fst (map_to_list (f <$> M)))) as (l & E & Hl).
  { rewrite sort_by_perm. by rewrite map_to_list_fmap. }
  exists l. split; [unfold map_enc; by rewrite E|by rewrite Hl].
Qed.

Lemma tags_enc m : wf m -> foldl (fun acc t => <[Key t := EStr (Value t)]> acc) ∅ (tags m) = EStr <$> Tags m.
Proof.
  intros [Hw _]. apply tags_wf_NoDup in Hw. rewrite (foldl_insert_map Key (fun t => EStr (Value t))) by done.
  unfold Tags. rewrite keyed_map_list_to_map by done. rewrite <- list_to_map_fmap. f_equal. by rewrite <- list_fmap_compose.
Qed.
Lemma fields_enc m : wf m ->
  foldl (fun acc f => if JsonOut.special (FValue f) then acc else <[FKey f := enc_val (FValue f)]> acc) ∅ (fields m) = enc_val <$> written m.
Proof.
  intros [_ Hw].
  assert (forall M : gmap string enc, foldl (fun acc f => if JsonOut.special (FValue f) then acc else <[FKey f := enc_val (FValue f)]> acc) M (fields m) =
    foldl (fun acc f => <[FKey f := enc_val (FValue f)]> acc) M (filter (fun f => JsonOut.special (FValue f) = false) (fields m))) as ->.
  { clear Hw. induction (fields m) as [|f fs IH]; intros M; [done|]. cbn [foldl]. rewrite filter_cons. destruct (JsonOut.special (FValue f)).
    - by rewrite decide_False by done.
    - rewrite decide_True by done. cbn [foldl]. apply IH. }
  assert (NoDup (FKey <$> filter (fun f => JsonOut.special (FValue f) = false) (fields m))) as Hnd.
  { eapply sublist_NoDup; [exact Hw|]. apply fmap_sublist, sublist_filter. }
  rewrite (foldl_insert_map FKey (fun f => enc_val (FValue f))) by done.
  unfold written, Metric.Fields. rewrite keyed_map_list_to_map by done. apply map_eq. intros k. apply option_eq. intros e.
  rewrite <- elem_of_list_to_map by (rewrite <- list_fmap_compose; exact Hnd). rewrite lookup_fmap_Some. setoid_rewrite map_lookup_filter_Some.
  setoid_rewrite <- elem_of_list_to_map; [|rewrite <- list_fmap_compose; exact Hw]. rewrite list_elem_of_fmap. setoid_rewrite list_elem_of_filter. setoid_rewrite list_elem_of_fmap.
  split.
  - intros (f & [= -> ->] & Hs & Hin). exists (FValue f). split; [done|]. split; [by exists f|done].
  - intros (v & <- & (f & [= -> ->] & Hin) & Hs). by exists f.
Qed.

Lemma object_shape units m : wf m -> exists fl tl,
  JsonOut.createObject units m = EObj [("fields", EObj (prod_map id enc_val <$> fl)); ("name", EStr (name m)); ("tags", EObj (prod_map id EStr <$> tl));
    ("timestamp", EInt (Z.quot (int64 (tm m)) units))] /\ fl ≡ₚ map_to_list (written m) /\ tl ≡ₚ map_to_list (Tags m).
Proof.
  intros Hw. destruct (sorted_list enc_val (written m)) as (fl & Ef & Hf). destruct (sorted_list EStr (Tags m)) as (tl & Et & Ht).
  exists fl, tl. split; [|done]. unfold JsonOut.createObject. rewrite tags_enc, fields_enc, Ef, Et by done. reflexivity.
Qed.

(** What a field is read as. *)
Definition val_back (v : Val) : Val :=
  match v with VInt z | VUint z => VFloat (int_float z) | v => v end.
Definition val_ok (v : Val) : bool :=
  match v with
  | VNil => false
  | VInt z | VUint z => (- 2 ^ 53 <? z) && (z <? 2 ^ 53)
  | VFloat x => JsonOut.special v || (float_back x && is_ascii (float_text x))
  | VString s => is_ascii s
  | VBool _ => true
  end.
Definition json_ok (m : metric) : Prop :=
  wf m /\ is_ascii (name m) = true /\ map_Forall (fun k v => is_ascii k = true /\ is_ascii v = true) (Tags m) /\
  map_Forall (fun k v => is_ascii k = true /\ val_ok v = true) (Metric.Fields m) /\ 0 <= tm m <= MaxInt64.

Lemma written_ok m k v : json_ok m -> written m !! k = Some v -> is_ascii k = true /\ readable (enc_val v) = true /\ encodable (enc_val v) = true /\
  ascii_floats (enc_val v) = true /\ forall key, leaves (dec (enc_val v)) key = [(key, val_back v)].
Proof.
  intros (_ & _ & _ & Hf & _) Hk. apply map_lookup_filter_Some in Hk as [Hk Hs]. cbn [snd] in Hs. destruct (Hf k v Hk) as [Ha Hv]. split; [done|].
  destruct v as [|x|z|z|s|b]; cbn [val_ok enc_val readable encodable ascii_floats dec leaves val_back] in *; try done.
  rewrite Hs in Hv. cbn [orb] in Hv. apply andb_true_iff in Hv as [H1 H2]. cbn [JsonOut.special] in Hs. by rewrite H1, H2, Hs.
Qed.

Definition fields_key (k : string) : string := "fields_" +:+ k.
Definition tags_key (k : string) : string := "tags_" +:+ k.
#[export] Instance fields_key_inj : Inj (=) (=) fields_key.
Proof. intros a b E. by injection E. Qed.
#[export] Instance tags_key_inj : Inj (=) (=) tags_key.
Proof. intros a b E. by injection E. Qed.

Section Object.
Context (m : metric) (units ts : Z) (fl : list (string * Val)) (tl : list (string * string)).
Context (Hm : json_ok m) (Hfl : fl ≡ₚ map_to_list (written m)) (Htl : tl ≡ₚ map_to_list (Tags m)).

Definition object_members : list (string * enc) :=
  [("fields", EObj (prod_map id enc_val <$> fl)); ("name", EStr (name m)); ("tags", EObj (prod_map id EStr <$> tl)); ("timestamp", EInt ts)].
Definition the_object : enc := EObj object_members.

Lemma fl_elem k v : (k, v) ∈ fl <-> written m !! k = Some v.
Proof. rewrite Hfl. apply elem_of_map_to_list. Qed.
Lemma tl_elem k v : (k, v) ∈ tl <-> Tags m !! k = Some v.
Proof. rewrite Htl. apply elem_of_map_to_list. Qed.

Lemma object_conditions : - 2 ^ 53 < ts < 2 ^ 53 ->
  readable the_object = true /\ encodable the_object = true /\ ascii_floats the_object = true /\ decoded (dec the_object) = true.
Proof.
  intros Hts. assert (NoDup fl.*1) as Hn1 by (rewrite Hfl; apply NoDup_fst_map_to_list). assert (NoDup tl.*1) as Hn2 by (rewrite Htl; apply NoDup_fst_map_to_list).
  assert (forall {V} (f : V -> enc) (l : list (string * V)), (prod_map id f <$> l).*1 = l.*1) as Hk by (intros; by rewrite <- list_fmap_compose).
  assert (forall kv, In kv (prod_map id enc_val <$> fl) -> is_ascii kv.1 && readable kv.2 = true /\ encodable kv.2 = true /\ ascii_floats kv.2 = true /\ decoded (dec kv.2) = true) as Hf.
  { intros kv Hin. apply list_elem_of_In, list_elem_of_fmap in Hin as ([k v] & -> & Hin%fl_elem). destruct (written_ok _ _ _ Hm Hin) as (H1 & H2 & H3 & H4 & _).
    cbn [prod_map fst snd id]. rewrite H1, H2, H3, H4. split_and!; try done. by destruct v. }
  assert (forall kv, In kv (prod_map id EStr <$> tl) -> is_ascii kv.1 && readable kv.2 = true /\ encodable kv.2 = true /\ ascii_floats kv.2 = true /\ decoded (dec kv.2) = true) as Ht.
  { intros kv Hin. apply list_elem_of_In, list_elem_of_fmap in Hin as ([k v] & -> & Hin%tl_elem). destruct Hm as (_ & _ & Hta & _). destruct (Hta k v Hin) as [H1 H2].
    cbn [prod_map fst snd id readable]. by rewrite H1, H2. }
  unfold the_object, object_members. split_and!.
  - cbn [readable forallb fst snd]. rewrite (proj2 (forallb_forall _ _) (fun kv Hin => proj1 (Hf kv Hin))), (proj2 (forallb_forall _ _) (fun kv Hin => proj1 (Ht kv Hin))).
    rewrite !Hk, (bool_decide_eq_true_2 _ Hn1), (bool_decide_eq_true_2 _ Hn2). destruct Hm as (_ & -> & _). rewrite (proj2 (Z.ltb_lt _ ts)), (proj2 (Z.ltb_lt ts _)) by lia.
    rewrite bool_decide_eq_true_2; [done|]. cbn [fmap list_fmap fst]. apply (bool_decide_unpack _). vm_compute. exact I.
  - cbn [encodable forallb fst snd]. rewrite (proj2 (forallb_forall _ _) (fun kv Hin => proj1 (proj2 (Hf kv Hin)))). by rewrite (proj2 (forallb_forall _ _) (fun kv Hin => proj1 (proj2 (Ht kv Hin)))).
  - cbn [ascii_floats forallb fst snd]. rewrite (proj2 (forallb_forall _ _) (fun kv Hin => proj1 (proj2 (proj2 (Hf kv Hin))))).
    by rewrite (proj2 (forallb_forall _ _) (fun kv Hin => proj1 (proj2 (proj2 (Ht kv Hin))))).
  - cbn [dec decoded map forallb fst snd]. rewrite !andb_true_iff. split_and!; try done; apply forallb_forall; intros kv Hin; apply in_map_iff in Hin as (kv' & <- & Hin);
      cbn [snd]; [by apply Hf|by apply Ht].
Qed.

Definition object_leaves : list (string * Val) :=
  ((fun kv => (fields_key kv.1, val_back kv.2)) <$> fl) ++ [("name", VString (name m))] ++ ((fun kv => (tags_key kv.1, VString kv.2)) <$> tl) ++
  [("timestamp", VFloat (int_float ts))].

Lemma the_leaves : leaves (dec the_object) EmptyString = object_leaves.
Proof.
  unfold the_object, object_members, object_leaves. cbn [dec map leaves concat fst snd]. change (field_key EmptyString ?k) with k. rewrite app_nil_r.
  assert (forall l, (forall kv, kv ∈ l -> (kv : string * Val) ∈ fl) ->
    concat (map (fun kv => leaves kv.2 (field_key "fields" kv.1)) (map (fun kv => (kv.1, dec kv.2)) (prod_map id enc_val <$> l))) = (fun kv => (fields_key kv.1, val_back kv.2)) <$> l) as Hf.
  { induction l as [|[k v] l IH]; intros Hin; [done|]. cbn [fmap list_fmap map concat fst snd prod_map]. rewrite IH by (intros; apply Hin; by right).
    specialize (Hin (k, v) ltac:(by left)). apply fl_elem in Hin. destruct (written_ok _ _ _ Hm Hin) as (_ & _ & _ & _ & Hl). rewrite Hl. done. }
  rewrite (Hf fl) by done. do 2 f_equal.
  assert (forall l, concat (map (fun kv => leaves kv.2 (field_key "tags" kv.1)) (map (fun kv => (kv.1, dec kv.2)) (prod_map id EStr <$> l))) =
    (fun kv => (tags_key kv.1, VString kv.2)) <$> l) as Ht.
  { induction l as [|[k v] l IH]; [done|]. cbn [fmap list_fmap map concat fst snd prod_map]. rewrite IH. done. }
  by rewrite Ht.
Qed.
End Object.

(** ** A metric read back from its text *)

Lemma float_components_int `{FloatConv} z : 0 <= z < 2 ^ 53 -> float_components (int_float z) = (z, 0).
Proof.
  intros Hz. unfold int_float. rewrite (proj2 (Z.ltb_ge z 0)) by lia. destruct (Z.eqb_spec z 0) as [->|Hz0]; [done|].
  rewrite Z.abs_eq by lia. destruct (f_of_Z_exact z ltac:(lia)) as (m & e & E & He & Hm). rewrite E. cbn [with_sign float_components]. unfold Modf.
  assert (int64_of (S754_finite false m e) = z) as Hi.
  { cbn [int64_of]. assert ((if 0 <=? e then Zpos m * 2 ^ e else Zpos m / 2 ^ (- e)) = z) as ->.
    { rewrite Hm. destruct (Z.leb_spec 0 e); [replace e with 0 by lia; cbn; lia|]. apply Z.div_mul. lia. }
    rewrite (proj2 (Z.leb_le MinInt64 z)), (proj2 (Z.leb_le z MaxInt64)) by (unfold MinInt64, MaxInt64; lia). done. }
  destruct (Z.leb_spec 0 e) as [He0|He0]; cbv beta iota zeta.
  - by rewrite Hi.
  - rewrite Hm. rewrite Z.div_mul, Z.mod_mul by lia. cbn [with_sign]. rewrite E. cbn [with_sign]. by rewrite Hi.
Qed.

(** What the reading relies on of the package [time]. *)
Class TimeLaws `{TimeLib} := {
  instant_unix : forall n, instant (Unix_UTC n) = n;
  Year_unix : forall n, 0 <= n <= MaxInt64 -> Year (Unix_UTC n) <> 0;
}.

Lemma ParseTimestamp_seconds `{FloatConv} `{TimeLib} z loc : 0 <= z < 2 ^ 53 ->
  ParseTimestamp "unix" (VFloat (int_float z)) loc = inl (Unix_UTC (z * 1000000000)).
Proof.
  intros Hz. unfold ParseTimestamp. rewrite decide_True by (by left). unfold parseUnix. cbn [parseComponents]. rewrite float_components_int by done.
  rewrite decide_True by done. by rewrite Z.add_0_r.
Qed.

(** The parser set up for what the serializer writes of [m]: the paths of its tags, the name and the seconds. *)
Definition reader `{Glob} (m : metric) (nm : string) (sf : option Matcher) (strict : bool) : Parser :=
  mkParser nm ((fun t => tags_key (Key t)) <$> tags m) sf "name" EmptyString "timestamp" "unix" EmptyString ∅ strict.

Section Leaves.
Context (m : metric) (ts : Z) (fl : list (string * Val)) (tl : list (string * string)).
Context (Hfl : fl ≡ₚ map_to_list (written m)) (Htl : tl ≡ₚ map_to_list (Tags m)).

Lemma object_leaves_elem k v : (k, v) ∈ object_leaves m ts fl tl <->
  (exists k' v', k = fields_key k' /\ v = val_back v' /\ written m !! k' = Some v') \/ (k = "name" /\ v = VString (name m)) \/
  (exists k' s, k = tags_key k' /\ v = VString s /\ Tags m !! k' = Some s) \/ (k = "timestamp" /\ v = VFloat (int_float ts)).
Proof.
  unfold object_leaves. rewrite !elem_of_app, !list_elem_of_fmap, !list_elem_of_singleton. rewrite !pair_equal_spec.
  split; (intros [H|[H|[H|H]]]; [left|right; left|right; right; left|right; right; right]); try done.
  - destruct H as ([k' v'] & [= -> ->] & Hin). apply (fl_elem m fl Hfl) in Hin. eauto.
  - destruct H as ([k' s] & [= -> ->] & Hin). apply (tl_elem m tl Htl) in Hin. eauto.
  - destruct H as (k' & v' & -> & -> & Hin). exists (k', v'). split; [done|]. by apply (fl_elem m fl Hfl).
  - destruct H as (k' & s & -> & -> & Hin). exists (k', s). split; [done|]. by apply (tl_elem m tl Htl).
Qed.

Lemma object_leaves_keys : NoDup (object_leaves m ts fl tl).*1.
Proof.
  unfold object_leaves. rewrite !fmap_app, <- !list_fmap_compose. cbn [fmap list_fmap fst].
  assert (NoDup fl.*1) as H1 by (rewrite Hfl; apply NoDup_fst_map_to_list). assert (NoDup tl.*1) as H2 by (rewrite Htl; apply NoDup_fst_map_to_list).
  pose proof (NoDup_fmap_2 fields_key _ H1) as H1'. pose proof (NoDup_fmap_2 tags_key _ H2) as H2'. rewrite <- list_fmap_compose in H1'. rewrite <- list_fmap_compose in H2'.
  apply NoDup_app. split; [exact H1'|]. split.
  - intros k (kv & -> & _)%list_elem_of_fmap. rewrite !elem_of_app, list_elem_of_fmap, !list_elem_of_singleton. by intros [?|[(? & ? & _)|?]].
  - apply NoDup_app. split; [apply NoDup_singleton|]. split.
    + intros k ->%list_elem_of_singleton. rewrite elem_of_app, list_elem_of_fmap, list_elem_of_singleton. by intros [(? & ? & _)|?].
    + apply NoDup_app. split; [exact H2'|]. split; [|apply NoDup_singleton]. intros k (kv & -> & _)%list_elem_of_fmap. by rewrite list_elem_of_singleton.
Qed.

Lemma leaf_lookup k v : (list_to_map (object_leaves m ts fl tl) : gmap string Val) !! k = Some v <-> (k, v) ∈ object_leaves m ts fl tl.
Proof. symmetry. apply elem_of_list_to_map, object_leaves_keys. Qed.
End Leaves.

(** Parsing a line of an object that reads back. *)
Lemma Parse_line `{Glob} `{ObjectRange} `{MapRange} `{FloatConv} `{TimeLib} GetBytes (p : Parser) (now : time) l :
  query p = EmptyString -> readable (EObj l) = true -> ascii_floats (EObj l) = true ->
  Parse Unmarshal GetBytes p now (text (EObj l) +:+ lf) = parseObject p now ((fun kv => (kv.1, dec kv.2)) <$> l) now.
Proof.
  intros Hq Hr Ha. unfold Parse. rewrite decide_False by (rewrite Hq; naive_solver). cbn [negb]. pose proof (text_ascii _ Hr Ha) as Hx. pose proof (Unmarshal_text _ Hr) as Hu.
  cbn [text] in *. revert Hx Hu. generalize (Join (map (fun kv => quoted kv.1 +:+ ":" +:+ text kv.2) l) ","). intros body Hx Hu.
  change ("{" +:+ body +:+ "}") with (String "{" body +:+ "}") in *. rewrite is_ascii_app in Hx. apply andb_true_iff in Hx as [Hx _].
  rewrite (TrimSpace_line "{" body "}") by done. change (strip_prefix utf8BOM _) with (@None string). cbn [default].
  rewrite decide_False by done. by rewrite Hu.
Qed.

Definition seconds (m : metric) : Z := tm m / 1000000000.
Lemma seconds_bounds m : json_ok m -> 0 <= seconds m < 2 ^ 53 /\ 0 <= seconds m * 1000000000 <= MaxInt64 /\ Z.quot (int64 (tm m)) 1000000000 = seconds m.
Proof.
  intros (_ & _ & _ & _ & Ht). unfold seconds. pose proof (Z.mul_div_le (tm m) 1000000000 ltac:(lia)). assert (0 <= tm m / 1000000000) by (apply Z.div_pos; lia).
  rewrite int64_small by (unfold MinInt64, MaxInt64 in *; lia). rewrite Z.quot_div_nonneg by lia. unfold MaxInt64 in *. lia.
Qed.

Section Roundtrip.
Context `{Glob} `{ObjectRange} `{MapRange} `{FloatConv} `{TimeLib} `{!TimeLaws}.

(** What a field of the path [fields_k] is read as, if it stays one. *)
Definition read_field (p : Parser) (k : string) (v : Val) : option Val := if stays p (fields_key k) (val_back v) then Some (val_back v) else None.

Lemma reader_tag m nm sf strict k : k ∈ tagKeys (reader m nm sf strict) <-> exists t, k = tags_key t /\ is_Some (Tags m !! t).
Proof.
  cbn [reader tagKeys]. rewrite list_elem_of_fmap. setoid_rewrite <- elem_of_dom. unfold Tags. rewrite keyed_map_dom. setoid_rewrite elem_of_list_to_set. setoid_rewrite list_elem_of_fmap.
  split; [intros (t & -> & Ht); eauto|intros (? & -> & t & -> & Ht); eauto].
Qed.

Section Reading.
Context (m : metric) (nm : string) (sf : option Matcher) (strict : bool) (fl : list (string * Val)) (tl : list (string * string)).
Context (Hfl : fl ≡ₚ map_to_list (written m)) (Htl : tl ≡ₚ map_to_list (Tags m)).
Let p := reader m nm sf strict.
Let L : gmap string Val := list_to_map (object_leaves m (seconds m) fl tl).

Lemma read_tags (T : gmap string string) :
  (forall k, T !! k = if decide (k ∈ tagKeys p) then match delete (timeKey p) L !! k ≫= tag_text with Some s => Some s | None => defaultTags p !! k end
    else defaultTags p !! k) -> T = kmap tags_key (Tags m).
Proof.
  intros HT. apply map_eq. intros k. rewrite HT. destruct (decide (k ∈ tagKeys p)) as [Hk|Hk].
  - apply reader_tag in Hk as (t & -> & s & Hs). rewrite (lookup_kmap tags_key), Hs. cbn [p reader timeKey]. rewrite lookup_delete_ne by done.
    assert (L !! tags_key t = Some (VString s)) as ->; [|done]. apply leaf_lookup; [done..|]. apply object_leaves_elem; [done..|]. right; right; left. eauto.
  - symmetry. apply eq_None_not_Some. intros [s Hs]. apply (lookup_kmap_Some tags_key) in Hs as (t & -> & Ht). apply Hk, reader_tag. eauto.
Qed.

Lemma read_fields (F : gmap string Val) : matches_string p "name" = false ->
  (forall k, F !! k = if decide (k ∈ tagKeys p) then None else match delete (timeKey p) L !! k with Some v => if stays p k v then Some v else None | None => None end) ->
  F = kmap fields_key (map_imap (read_field p) (written m)).
Proof.
  intros Hn HF. apply map_eq. intros k. apply option_eq. intros v. rewrite HF, (lookup_kmap_Some fields_key). setoid_rewrite map_lookup_imap.
  split.
  - destruct (decide _) as [|Hk]; [done|]. destruct (delete _ L !! k) as [w|] eqn:E; [|done]. apply lookup_delete_Some in E as [Hne E].
    destruct (stays p k w) eqn:Es; [|done]. intros [= ->]. apply leaf_lookup in E; [|done..]. apply object_leaves_elem in E; [|done..].
    destruct E as [(k' & v' & -> & -> & Hw)|[[-> ->]|[(k' & s & -> & -> & Hs)|[-> _]]]].
    + exists k'. split; [done|]. rewrite Hw. cbn. unfold read_field. by rewrite Es.
    + cbn [stays] in Es. congruence.
    + destruct Hk. apply reader_tag. eauto.
    + done.
  - intros (k' & -> & Hv). apply bind_Some in Hv as (w & Hw & Hr). unfold read_field in Hr. destruct (stays _ _ _) eqn:Es; [|done]. injection Hr as <-.
    rewrite decide_False by (intros (t & ? & _)%reader_tag; done). rewrite lookup_delete_ne by done.
    assert (L !! fields_key k' = Some (val_back w)) as ->; [|by rewrite Es]. apply leaf_lookup; [done..|]. apply object_leaves_elem; [done..|]. left. eauto.
Qed.

Lemma read_time now : json_ok m -> object_time p now now L = inl (Unix_UTC (seconds m * 1000000000), delete "timestamp" L).
Proof.
  intros Hm. destruct (seconds_bounds m Hm) as (Hs1 & Hs2 & _). unfold object_time. cbn [p reader timeKey timeFormat timezone].
  rewrite decide_True, decide_False by done. assert (L !! "timestamp" = Some (VFloat (int_float (seconds m)))) as ->.
  { apply leaf_lookup; [done..|]. apply object_leaves_elem; [done..|]. by right; right; right. }
  rewrite ParseTimestamp_seconds by done. by rewrite (proj2 (Z.eqb_neq _ _) (Year_unix _ Hs2)).
Qed.

Lemma read_name : object_name p L = name m.
Proof.
  unfold object_name. cbn [p reader nameKey]. rewrite decide_True by done. assert (L !! "name" = Some (VString (name m))) as ->; [|done].
  apply leaf_lookup; [done..|]. apply object_leaves_elem; [done..|]. by right; left.
Qed.
End Reading.

(** C33: a metric written as JSON is read back. For a metric with ASCII texts, integers below 2^53 and floats that their texts give back,
    the serializer (unit: a second) writes a line, and the parser that takes the name, the time in seconds and the paths of the tags from it makes
    exactly one metric of it, for whatever order maps are ranged in: the name is kept, the time is cut to the second, every tag has the path
    [tags_k], every finite field the path [fields_k], integers becoming floats, texts and flags staying
    exactly when the filter for them matches. *)
Theorem JSON_roundtrip GetBytes (m : metric) (nm : string) (sf : option Matcher) (strict : bool) (now : time) (Hm : json_ok m)
    (Hn : matches_string (reader m nm sf strict) "name" = false) :
  exists s m', JsonOut.Serialize 1000000000 m = Some s /\ Parse Unmarshal GetBytes (reader m nm sf strict) now s = inl [m'] /\ wf m' /\
    name m' = name m /\ tm m' = tm m / 1000000000 * 1000000000 /\ Tags m' = kmap tags_key (Tags m) /\
    Metric.Fields m' = kmap fields_key (map_imap (read_field (reader m nm sf strict)) (written m)).
Proof.
  destruct (seconds_bounds m Hm) as (Hs1 & Hs2 & Hq). destruct (object_shape 1000000000 m (proj1 Hm)) as (fl & tl & Eo & Hfl & Htl). rewrite Hq in Eo.
  destruct (object_conditions m (seconds m) fl tl Hm Hfl Htl ltac:(lia)) as (Hr & He & Ha & Hd). change (JsonOut.createObject 1000000000 m = the_object m (seconds m) fl tl) in Eo.
  pose proof (the_leaves m (seconds m) fl tl Hm Hfl) as Hl. pose proof (object_leaves_keys m (seconds m) fl tl Hfl Htl) as Hk. rewrite <- Hl in Hk.
  change (dec (the_object m (seconds m) fl tl)) with (JObj ((fun kv => (kv.1, dec kv.2)) <$> object_members m (seconds m) fl tl)) in *.
  pose proof (parseObject_spec (reader m nm sf strict) now now _ Hd Hk) as Hs. cbv zeta in Hs. rewrite Hl, (read_time m nm sf strict fl tl Hfl Htl now Hm) in Hs.
  destruct Hs as (m' & Ep & Hw & En & Et & HT & HF). exists (text (the_object m (seconds m) fl tl) +:+ lf), m'.
  split; [unfold JsonOut.Serialize; rewrite Eo; unfold Marshal; by rewrite He|]. split; [rewrite <- Ep; by apply Parse_line|]. split; [done|].
  split; [by rewrite En, read_name|]. split; [by rewrite Et, instant_unix|]. split; [by eapply read_tags|by eapply read_fields].
Qed.
End Roundtrip.

(** ** Examples *)

#[local] Existing Instances JsonParser.ex_range JsonParser.ex_conv JsonParser.ex_time map_range_default alt_glob.
#[local, refine] Instance ex_laws : TimeLaws := {| instant_unix := fun _ => eq_refl |}.
Proof. done. Defined.

Definition ex_metric : metric :=
  Metric.New "disk" {["host" := "a & b"]} (go_of_val <$> {["free" := VFloat (f_frac 3 2); "used" := VInt 7; "state" := VString "up"; "lost" := VFloat S754_nan]})
    1600000000500000000 [].
Definition ex_reader : Parser := reader ex_metric "json" (Some (M_filtersingle "fields_state")) false.

(** The text of a metric without a tag. *)
Lemma ex_text : JsonOut.Serialize 1000000000 (Metric.New "cpu" ∅ (go_of_val <$> {["n" := VInt 7; "x" := VFloat S754_nan]}) 5000000000 []) =
  Some ("{" +:+ dq +:+ "fields" +:+ dq +:+ ":{" +:+ dq +:+ "n" +:+ dq +:+ ":7}," +:+ dq +:+ "name" +:+ dq +:+ ":" +:+ dq +:+ "cpu" +:+ dq +:+
    "," +:+ dq +:+ "tags" +:+ dq +:+ ":{}," +:+ dq +:+ "timestamp" +:+ dq +:+ ":5}" +:+ lf).
Proof. vm_compute. reflexivity. Qed.

Lemma ex_json_ok : json_ok ex_metric.
Proof. split; [apply New_wf|]. split_and!; apply (bool_decide_unpack _); vm_compute; exact I. Qed.

Lemma JSON_roundtrip_witness : exists s m', JsonOut.Serialize 1000000000 ex_metric = Some s /\
  Parse Unmarshal (fun b _ => (b, true)) ex_reader ex_now s = inl [m'] /\ name m' = "disk" /\ tm m' = 1600000000000000000 /\
  Tags m' = kmap tags_key (Tags ex_metric) /\ Metric.Fields m' = kmap fields_key (map_imap (read_field ex_reader) (written ex_metric)).
Proof.
  destruct (JSON_roundtrip (fun b _ => (b, true)) ex_metric "json" (Some (M_filtersingle "fields_state")) false ex_now ex_json_ok) as (s & m' & H1 & H2 & _ & H3 & H4 & H5 & H6).
  { reflexivity. }
  exists s, m'. split_and!; done.
Defined.
Lemma ex_read_back : Metric.Fields <$> (match Parse Unmarshal (fun b _ => (b, true)) ex_reader ex_now (default EmptyString (JsonOut.Serialize 1000000000 ex_metric)) with inl ms => ms | _ => [] end)
  = [{["fields_free" := VFloat (f_frac 3 2); "fields_used" := VFloat (f_of_Z 7); "fields_state" := VString "up"]}].
Proof. vm_compute. reflexivity. Qed.
