(* ===== verification/LineProtocol.v ===== *)
(** * The parser of the line protocol

    [plugins/parsers/influx]: the machine of [machine.go.rl], from which [machine.go] is generated, [handler.go] and [parser.go].

    [step] is the automaton of the grammar: what the machine does with a byte in a state. Its states are those of the generated machine, up
    to equivalence, that can be reached without a vertical tab. A vertical tab is both white space and a
    character of names, keys and values, so where both are possible the generated machine follows both readings at once; these five
    states are [Both], and a text that leads there is [Ambiguous] and not read further here. *)

From Stdlib Require Import Ascii.
From S2P Require Import Prelude Float64 Strconv Strings Parse Metric Converter Running Processors Agent Influx.

(** ** The automaton *)

Inductive action := ABegin | ABeginMetric | AName | ATagKey | ATagValue | AFieldKey | AInteger | AUnsigned | AFloat | ABool | AString | ATimestamp
| ANewline | AFinish.

#[export] Instance action_eq_dec : EqDecision action.
Proof. solve_decision. Defined.

Inductive HErr := ENum (e : ParseErr) | EFloatNum | EBoolText.
Inductive MErr := ErrNameParse | ErrFieldParse | ErrTagParse | ErrTimestampParse | ErrParse | EOF | EHandler (e : HErr).

#[export] Instance ParseErr_eq_dec : EqDecision ParseErr.
Proof. solve_decision. Defined.
#[export] Instance HErr_eq_dec : EqDecision HErr.
Proof. solve_decision. Defined.
#[export] Instance MErr_eq_dec : EqDecision MErr.
Proof. solve_decision. Defined.

(** The states. The flag says whether only a series is read, without fields. Numbers are told apart by what can still follow; [Bool] has
    the texts that complete a flag, [Timestamp] the digits read. *)
Inductive state := Align | AlignCR | Comment | Discard | ErrorState
| Main | Indent | SeriesStart | Name (series : bool) | NameEsc (series : bool)
| TagKeyStart (series : bool) | TagKey (series : bool) | TagKeyEsc (series : bool)
| TagValueStart (series : bool) | TagValue (series : bool) | TagValueEsc (series : bool)
| Gap | FieldStart | FieldKey | FieldKeyEsc | FieldValue
| QuoteStart | Quoted | QuotedEsc
| Minus | Dot | Zero | Digits | NegZero | NegDigits | ZeroDigits | Frac | ExpMark | ExpSign | Exp | IntEnd | UintEnd
| Bool (rest : list string) | ValueEnd | Space | TimestampMinus | Timestamp (n : nat) | TimestampEnd | EndCR.

#[export] Instance state_eq_dec : EqDecision state.
Proof. solve_decision. Defined.

(** [To]: the actions, and the next state after the byte. [Hold]: the byte is read again. [Line]: the actions, and the line is
    complete. [Error]: the line is given up before the byte. [Stuck]: no transition and no error action. *)
Inductive outcome := To (l : list action) (s : state) | Hold (s : state) | Line (l : list action) | Error (e : MErr) | Stuck | Both.

Definition ws (z : Z) : bool := (z =? 9) || (z =? 11) || (z =? 12) || (z =? 32).
Definition control_char (z : Z) : bool := (z =? 9) || (z =? 10) || (z =? 12) || (z =? 13).
Definition digit (z : Z) : bool := (48 <=? z) && (z <=? 57).

(** After a value, whose action is [a]. *)
Definition value_end (a : list action) (z : Z) : outcome :=
  if z =? 10 then Line (a ++ [ANewline])
  else if z =? 13 then To a EndCR
  else if z =? 44 then To a FieldStart
  else if ws z then To a Space
  else Error ErrFieldParse.

(** In the digits of a number: [dot], [int] and [uint] say what may follow besides an exponent. *)
Definition number_step (more : state) (dot int uint : bool) (z : Z) : outcome :=
  if digit z then To [] more
  else if dot && (z =? 46) then To [] Frac
  else if int && (z =? 105) then To [] IntEnd
  else if uint && (z =? 117) then To [] UintEnd
  else if (z =? 69) || (z =? 101) then To [] ExpMark
  else value_end [AFloat] z.

(** The first byte of a measurement; [a] are the actions before it. *)
Definition name_start (a : list action) (series : bool) (z : Z) : outcome :=
  if control_char z || (z =? 32) || (z =? 35) || (z =? 44) then Error ErrNameParse
  else To (a ++ [ABegin]) (if z =? 92 then NameEsc series else Name series).

(** A byte of a tag key or value in which nothing is escaped. *)
Definition tag_delimiter (z : Z) : bool := control_char z || (z =? 32) || (z =? 44) || (z =? 61).
Definition tag_start (first esc : state) (z : Z) : outcome :=
  if tag_delimiter z then Error ErrTagParse else To [ABegin] (if z =? 92 then esc else first).
Definition tag_escaped (s : state) (z : Z) : outcome :=
  if control_char z then Error ErrTagParse else if z =? 92 then Hold s else To [] s.

(** What ends the tags. *)
Definition series_end (a : list action) (series : bool) (z : Z) : outcome :=
  if z =? 44 then To a (TagKeyStart series)
  else if series then
    if z =? 10 then Line (a ++ [ANewline]) else if z =? 13 then To a EndCR else Error ErrTagParse
  else if z =? 11 then Both
  else if (z =? 9) || (z =? 12) || (z =? 32) then To a Gap
  else Error ErrTagParse.

Definition field_delimiter (z : Z) : bool := control_char z || (z =? 32) || (z =? 44) || (z =? 61).
Definition field_start (z : Z) : outcome :=
  if field_delimiter z then Error ErrFieldParse else To [ABegin] (if z =? 92 then FieldKeyEsc else FieldKey).

(** The texts of [ws] that start with a byte, without it. *)
Definition derive (c : ascii) (l : list string) : list string :=
  omap (fun t => match t with String d t => if (c =? d)%char then Some t else None | EmptyString => None end) l.

Definition field_value (z : Z) : outcome :=
  if z =? 34 then To [] QuoteStart
  else if z =? 45 then To [ABegin] Minus
  else if z =? 46 then To [ABegin] Dot
  else if z =? 48 then To [ABegin] Zero
  else if digit z then To [ABegin] Digits
  else if z =? 70 then To [ABegin] (Bool [EmptyString; "ALSE"; "alse"])
  else if z =? 102 then To [ABegin] (Bool [EmptyString; "alse"])
  else if z =? 84 then To [ABegin] (Bool [EmptyString; "RUE"; "rue"])
  else if z =? 116 then To [ABegin] (Bool [EmptyString; "rue"])
  else Error ErrFieldParse.

Definition step (s : state) (c : ascii) : outcome :=
  let z := byte_of c in
  match s with
  | Align =>
    if z =? 10 then To [ANewline] Align else if z =? 13 then To [] AlignCR else if z =? 35 then To [] Comment
    else if ws z then To [] Align else Hold Main
  | AlignCR => if z =? 10 then To [ANewline] Align else Stuck
  | Comment => if z =? 10 then To [ANewline] Align else To [] Comment
  | Discard => if z =? 10 then To [ANewline] Align else To [] Discard
  | ErrorState => Stuck
  | Main => if z =? 11 then Both else if ws z then To [ABeginMetric] Indent else name_start [ABeginMetric] false z
  | Indent => if z =? 11 then Both else if ws z then To [] Indent else name_start [] false z
  | SeriesStart => name_start [ABeginMetric] true z
  | Name ser => if z =? 92 then To [] (NameEsc ser)
    else if (if ser then control_char z || (z =? 32) else control_char z || (z =? 11) || (z =? 32)) || (z =? 44) then series_end [AName] ser z else To [] (Name ser)
  | NameEsc ser => if control_char z then Stuck else To [] (Name ser)
  | TagKeyStart ser => tag_start (TagKey ser) (TagKeyEsc ser) z
  | TagKey ser => if z =? 61 then To [ATagKey] (TagValueStart ser) else if z =? 92 then To [] (TagKeyEsc ser)
    else if tag_delimiter z then Error ErrTagParse else To [] (TagKey ser)
  | TagKeyEsc ser => tag_escaped (TagKey ser) z
  | TagValueStart ser => tag_start (TagValue ser) (TagValueEsc ser) z
  | TagValue ser => if z =? 92 then To [] (TagValueEsc ser)
    else if (if ser then tag_delimiter z else tag_delimiter z || (z =? 11)) then series_end [ATagValue] ser z else To [] (TagValue ser)
  | TagValueEsc ser => tag_escaped (TagValue ser) z
  | Gap => if z =? 11 then Both else if ws z then To [] Gap else field_start z
  | FieldStart => field_start z
  | FieldKey => if z =? 61 then To [AFieldKey] FieldValue else if z =? 92 then To [] FieldKeyEsc
    else if field_delimiter z then Error ErrFieldParse else To [] FieldKey
  | FieldKeyEsc => if control_char z then Error ErrFieldParse else To [] FieldKey
  | FieldValue => field_value z
  | QuoteStart =>
    if z =? 34 then To [ABegin; AString] ValueEnd else if z =? 92 then To [ABegin] QuotedEsc
    else if z =? 10 then To [ABegin; ANewline] Quoted else To [ABegin] Quoted
  | Quoted =>
    if z =? 34 then To [AString] ValueEnd else if z =? 92 then To [] QuotedEsc else if z =? 10 then To [ANewline] Quoted else To [] Quoted
  | QuotedEsc => if (z =? 34) || (z =? 92) then To [] Quoted else Error ErrFieldParse
  | Minus => if z =? 46 then To [] Dot else if z =? 48 then To [] NegZero else if digit z then To [] NegDigits else Error ErrFieldParse
  | Dot => if digit z then To [] Frac else Error ErrFieldParse
  | Zero => number_step ZeroDigits true true true z
  | Digits => number_step Digits true true true z
  | NegZero => number_step ZeroDigits true true false z
  | NegDigits => number_step NegDigits true true false z
  | ZeroDigits => number_step ZeroDigits true false false z
  | Frac => number_step Frac false false false z
  | ExpMark => if (z =? 34) || (z =? 43) || (z =? 45) then To [] ExpSign else if digit z then To [] Exp else Error ErrFieldParse
  | ExpSign => if digit z then To [] Exp else Error ErrFieldParse
  | Exp => if digit z then To [] Exp else value_end [AFloat] z
  | IntEnd => value_end [AInteger] z
  | UintEnd => value_end [AUnsigned] z
  | Bool l =>
    if decide (derive c l = []) then (if decide (EmptyString ∈ l) then value_end [ABool] z else Error ErrFieldParse)
    else To [] (Bool (derive c l))
  | ValueEnd => value_end [] z
  | Space =>
    if z =? 10 then Line [ANewline] else if z =? 13 then To [] EndCR else if ws z then To [] Space
    else if z =? 45 then To [ABegin] TimestampMinus else if digit z then To [ABegin] (Timestamp 1) else Error ErrTimestampParse
  | TimestampMinus => if digit z then To [] (Timestamp 1) else Error ErrTimestampParse
  | Timestamp n =>
    if z =? 10 then Line [ATimestamp; ANewline] else if z =? 13 then To [ATimestamp] EndCR else if ws z then To [ATimestamp] TimestampEnd
    else if digit z && (n <? 19)%nat then To [] (Timestamp (S n)) else Error ErrTimestampParse
  | TimestampEnd => if z =? 10 then Line [ANewline] else if z =? 13 then To [] EndCR else if ws z then To [] TimestampEnd else Stuck
  | EndCR => if z =? 10 then Line [ANewline] else Stuck
  end.

(** At the end of the text: the actions, and the error they end with. *)
Definition at_end (s : state) : list action * option MErr :=
  match s with
  | Main => ([ABeginMetric; AFinish], None)
  | Indent | SeriesStart => ([], Some ErrNameParse)
  | Name true => ([AName], None)
  | Name false => ([AName], Some ErrTagParse)
  | TagKeyStart _ | TagKey _ | TagKeyEsc _ | TagValueStart _ | TagValueEsc _ => ([], Some ErrTagParse)
  | TagValue true => ([ATagValue], None)
  | TagValue false => ([ATagValue], Some ErrTagParse)
  | Gap | FieldStart | FieldKey | FieldKeyEsc | FieldValue | QuoteStart | Quoted | QuotedEsc | Minus | Dot | ExpMark | ExpSign => ([], Some ErrFieldParse)
  | Zero | Digits | NegZero | NegDigits | ZeroDigits | Frac | Exp => ([AFloat; AFinish], None)
  | IntEnd => ([AInteger; AFinish], None)
  | UintEnd => ([AUnsigned; AFinish], None)
  | Bool l => if decide (EmptyString ∈ l) then ([ABool; AFinish], None) else ([], Some ErrFieldParse)
  | ValueEnd | Space | TimestampEnd => ([AFinish], None)
  | TimestampMinus => ([], Some ErrTimestampParse)
  | Timestamp _ => ([ATimestamp; AFinish], None)
  | Align | AlignCR | Comment | Discard | ErrorState | NameEsc _ | EndCR => ([], None)
  end.

(** A byte that is held is read in the next state. *)
Definition read (s : state) (c : ascii) : outcome := match step s c with Hold s' => step s' c | o => o end.

(** ** [handler.go] *)

(** The function for the time is the clock. *)
Record MetricHandler := mkHandler { timePrecision : Z; hmetric : option metric }.

Definition NewMetricHandler : MetricHandler := mkHandler 1 None.
Definition SetTimePrecision (p : Z) (h : MetricHandler) : MetricHandler := mkHandler p (hmetric h).

Section Handler.
Context `{MapRange}.

(** A method of the metric; [None] is a panic, for there is none. *)
Definition on_metric (f : metric -> metric) (h : MetricHandler) : option (MetricHandler * option HErr) :=
  m ← hmetric h; Some (mkHandler (timePrecision h) (Some (f m)), None).
Definition failed (e : HErr) (h : MetricHandler) : option (MetricHandler * option HErr) := Some (h, Some e).

Definition SetMeasurement (nm : string) (h : MetricHandler) : option (MetricHandler * option HErr) :=
  Some (mkHandler (timePrecision h) (Some (Metric.New (nameUnescape nm) ∅ ∅ RunningAggregator.zero_time [])), None).
Definition HAddTag (k v : string) (h : MetricHandler) : option (MetricHandler * option HErr) := on_metric (AddTag (unescape k) (unescape v)) h.
Definition add_field (k : string) (v : Val) (h : MetricHandler) : option (MetricHandler * option HErr) :=
  on_metric (AddField (unescape k) (go_of_val v)) h.

(** [bytes.TrimSuffix] of one byte. *)
Fixpoint TrimSuffix1 (c : ascii) (s : string) : string :=
  match s with
  | EmptyString => EmptyString
  | String d EmptyString => if (c =? d)%char then EmptyString else s
  | String d r => String d (TrimSuffix1 c r)
  end.
(** [strconv.ParseUint(s, 10, 64)]. *)
Definition ParseUint10 (s : string) : Z + ParseErr := if decide (s = EmptyString) then inr ErrSyntax else uint10_loop s 0.

Definition AddInt (k v : string) (h : MetricHandler) : option (MetricHandler * option HErr) :=
  match ParseInt10 (TrimSuffix1 "i" v) with inr e => failed (ENum e) h | inl z => add_field k (VInt z) h end.
Definition AddUint (k v : string) (h : MetricHandler) : option (MetricHandler * option HErr) :=
  match ParseUint10 (TrimSuffix1 "u" v) with inr e => failed (ENum e) h | inl z => add_field k (VUint z) h end.
Definition AddFloat (k v : string) (h : MetricHandler) : option (MetricHandler * option HErr) :=
  match ParseFloat v with None => failed EFloatNum h | Some x => add_field k (VFloat x) h end.
Definition AddString (k v : string) (h : MetricHandler) : option (MetricHandler * option HErr) := add_field k (VString (stringFieldUnescape v)) h.
Definition AddBool (k v : string) (h : MetricHandler) : option (MetricHandler * option HErr) :=
  match ParseBool v with None => failed EBoolText h | Some b => add_field k (VBool b) h end.

(** The precision is the unit of the number; the product wraps. *)
Definition SetTimestamp (v : string) (h : MetricHandler) : option (MetricHandler * option HErr) :=
  match ParseInt10 v with inr e => failed (ENum e) h | inl z => on_metric (SetTime (int64 (z * timePrecision h))) h end.

(** [Metric]: a metric without a time gets that of the clock. *)
Definition Metric_ {W} `{ClockEnv W} (h : MetricHandler) (w : W) : option (metric * MetricHandler * W) :=
  m ← hmetric h;
  if tm m =? RunningAggregator.zero_time then
    let '(now, w) := read_clock w in
    let m := SetTime (wall (Truncate (mkTime now None) (timePrecision h))) m in
    Some (m, mkHandler (timePrecision h) (Some m), w)
  else Some (m, h, w).
End Handler.

(** ** The machine *)

Record machine := mkMachine {
  data : string;
  cs : state;
  p : nat;
  pb : nat;
  lineno : Z;
  sol : Z;
  initState : state;
  key : string;
  beginMetric : bool;
  finishMetric : bool;
}.

Definition NewMachine : machine := mkMachine EmptyString Main 0 0 0 0 Align EmptyString false false.
Definition NewSeriesMachine : machine := mkMachine EmptyString Main 0 0 0 0 SeriesStart EmptyString false false.
Definition SetData (d : string) (m : machine) : machine := mkMachine d (initState m) 0 0 1 0 (initState m) EmptyString false false.

Definition Position (m : machine) : Z := Z.of_nat (p m).
Definition LineOffset (m : machine) : Z := sol m.
Definition LineNumber (m : machine) : Z := lineno m.
Definition Column (m : machine) : Z := Z.of_nat (p m) - sol m + 1.
(** [data[pb:p]]. *)
Definition text (m : machine) : string := str_take (p m - pb m) (str_drop (pb m) (data m)).

Definition set_cs (s : state) (m : machine) : machine :=
  mkMachine (data m) s (p m) (pb m) (lineno m) (sol m) (initState m) (key m) (beginMetric m) (finishMetric m).
(** To the next byte, in a state. *)
Definition advance (s : state) (m : machine) : machine :=
  mkMachine (data m) s (S (p m)) (pb m) (lineno m) (sol m) (initState m) (key m) (beginMetric m) (finishMetric m).
Definition set_key (k : string) (m : machine) : machine :=
  mkMachine (data m) (cs m) (p m) (pb m) (lineno m) (sol m) (initState m) k (beginMetric m) (finishMetric m).
Definition begin_metric (m : machine) : machine :=
  mkMachine (data m) (cs m) (p m) (pb m) (lineno m) (sol m) (initState m) (key m) true (finishMetric m).
Definition finish_metric (m : machine) : machine :=
  mkMachine (data m) (cs m) (p m) (pb m) (lineno m) (sol m) (initState m) (key m) (beginMetric m) true.
Definition begin (m : machine) : machine :=
  mkMachine (data m) (cs m) (p m) (p m) (lineno m) (sol m) (initState m) (key m) (beginMetric m) (finishMetric m).
Definition incr_newline (m : machine) : machine :=
  mkMachine (data m) (cs m) (p m) (pb m) (lineno m + 1) (Z.of_nat (p m) + 1) (initState m) (key m) (beginMetric m) (finishMetric m).
Definition reset (m : machine) : machine :=
  mkMachine (data m) (cs m) (p m) (pb m) (lineno m) (sol m) (initState m) EmptyString false false.

Section Machine.
Context `{MapRange}.

(** One action; [None] is a panic. *)
Definition perform (a : action) (m : machine) (h : MetricHandler) : option (machine * MetricHandler * option HErr) :=
  let call r := '(h, e) ← (r : option (MetricHandler * option HErr)); Some (m, h, e) in
  match a with
  | ABegin => Some (begin m, h, None)
  | ABeginMetric => Some (begin_metric m, h, None)
  | AName => call (SetMeasurement (text m) h)
  | ATagKey | AFieldKey => Some (set_key (text m) m, h, None)
  | ATagValue => call (HAddTag (key m) (text m) h)
  | AInteger => call (AddInt (key m) (text m) h)
  | AUnsigned => call (AddUint (key m) (text m) h)
  | AFloat => call (AddFloat (key m) (text m) h)
  | ABool => call (AddBool (key m) (text m) h)
  | AString => call (AddString (key m) (text m) h)
  | ATimestamp => call (SetTimestamp (text m) h)
  | ANewline => Some (incr_newline m, h, None)
  | AFinish => Some (finish_metric m, h, None)
  end.

(** Actions up to an error. *)
Fixpoint perform_all (l : list action) (m : machine) (h : MetricHandler) : option (machine * MetricHandler * option HErr) :=
  match l with
  | [] => Some (m, h, None)
  | a :: l => '(m, h, e) ← perform a m h; match e with Some _ => Some (m, h, e) | None => perform_all l m h end
  end.

Inductive result (A : Type) := Ret (a : A) | Panics | Ambiguous.
#[global] Arguments Ret {A} a.
#[global] Arguments Panics {A}.
#[global] Arguments Ambiguous {A}.

(** The machine on the text from [p] on: it stops at the end of a line, of the text, or at an error, in front of the byte. [last]: the text ends
    there, and nothing follows later. *)
Fixpoint run_to (last : bool) (rest : string) (m : machine) (h : MetricHandler) : result (machine * MetricHandler * option MErr) :=
  match rest with
  | EmptyString =>
    if negb last then Ret (m, h, None) else
    let '(l, e) := at_end (cs m) in
    match perform_all l m h with
    | None => Panics
    | Some (m, h, Some e') => Ret (set_cs ErrorState m, h, Some (EHandler e'))
    | Some (m, h, None) => Ret (match e with Some _ => set_cs ErrorState m | None => m end, h, e)
    end
  | String c rest =>
    match read (cs m) c with
    | Both => Ambiguous
    | Error e => Ret (set_cs Discard m, h, Some e)
    | Stuck | Hold _ => Ret (set_cs ErrorState m, h, None)
    | To l s =>
      match perform_all l m h with
      | None => Panics
      | Some (m, h, Some e) => Ret (set_cs Discard m, h, Some (EHandler e))
      | Some (m, h, None) => run_to last rest (advance s m) h
      end
    | Line l =>
      match perform_all l m h with
      | None => Panics
      | Some (m, h, Some e) => Ret (set_cs Discard m, h, Some (EHandler e))
      | Some (m, h, None) => Ret (advance Align (finish_metric m), h, None)
      end
    end
  end.

Definition at_eof (m : machine) : bool := (p m =? String.length (data m))%nat.

Definition exec (m : machine) (h : MetricHandler) : result (machine * MetricHandler * option MErr) :=
  match run_to true (str_drop (p m) (data m)) m h with
  | Ret (m, h, None) =>
    if decide (cs m = ErrorState) then Ret (set_cs Discard m, h, Some ErrParse)
    else if negb (beginMetric m) && at_eof m then Ret (m, h, Some EOF)
    else Ret (m, h, None)
  | r => r
  end.

Definition Next (m : machine) (h : MetricHandler) : result (machine * MetricHandler * option MErr) :=
  if at_eof m then Ret (m, h, Some EOF) else exec (reset m) h.
End Machine.
Notation run := (run_to true).

(** ** [parser.go] *)

Record ParseError := mkParseError { Offset : Z; ELineOffset : Z; ELineNumber : Z; EColumn : Z; msg : MErr; ebuf : string }.

Definition maxErrorBufferSize : nat := 1024.

(** [strings.IndexAny(s, "\r\n")] and the text before. *)
Fixpoint first_line (s : string) : string :=
  match s with
  | EmptyString => EmptyString
  | String c s => if (byte_of c =? 13) || (byte_of c =? 10) then EmptyString else String c (first_line s)
  end.
(** The line the message shows. *)
Definition error_line (e : ParseError) : string :=
  let b := first_line (str_drop (Z.to_nat (ELineOffset e)) (ebuf e)) in
  if (maxErrorBufferSize <? String.length b)%nat then str_take maxErrorBufferSize b +:+ "..." else b.

Record Parser := mkParser { DefaultTags : gmap string string; pmachine : machine; handler : MetricHandler }.

Definition NewParser (h : MetricHandler) : Parser := mkParser ∅ NewMachine h.
Definition NewSeriesParser (h : MetricHandler) : Parser := mkParser ∅ NewSeriesMachine h.
Definition SetDefaultTags (tags : gmap string string) (ps : Parser) : Parser := mkParser tags (pmachine ps) (handler ps).

Section Parser.
Context `{MapRange} {W : Type} `{ClockEnv W}.

(** What the loop of [Parse] ends with. [OutOfFuel] does not happen ([parse_loop_ends]). *)
Inductive parsed := Metrics (ms : list metric) (m : machine) (h : MetricHandler) (w : W) | Failed (e : MErr) (m : machine) (h : MetricHandler) (w : W)
| ParsePanics | ParseAmbiguous | OutOfFuel.

Fixpoint parse_loop (fuel : nat) (m : machine) (h : MetricHandler) (w : W) (ms : list metric) : parsed :=
  match fuel with
  | O => OutOfFuel
  | S fuel =>
    match Next m h with
    | Panics => ParsePanics
    | Ambiguous => ParseAmbiguous
    | Ret (m, h, Some e) => if decide (e = EOF) then Metrics ms m h w else Failed e m h w
    | Ret (m, h, None) =>
      match Metric_ h w with
      | None => ParsePanics
      | Some (x, h, w) => parse_loop fuel m h w (ms ++ [x])
      end
    end
  end.

Definition applyDefaultTagsSingle (tags : gmap string string) (x : metric) : metric :=
  foldl (fun x kv => if HasTag kv.1 x then x else AddTag kv.1 kv.2 x) x (range_map tags).
Definition applyDefaultTags (tags : gmap string string) (ms : list metric) : list metric :=
  if decide (tags = ∅) then ms else applyDefaultTagsSingle tags <$> ms.

(** [Parse]. A metric that is returned twice is one object, and gets the tags once; they stay the same the second time. *)
Definition Parse (input : string) (ps : Parser) (w : W) : result ((list metric + ParseError) * Parser * W) :=
  match parse_loop (S (String.length input)) (SetData input (pmachine ps)) (handler ps) w [] with
  | Metrics ms m h w => Ret (inl (applyDefaultTags (DefaultTags ps) ms), mkParser (DefaultTags ps) m h, w)
  | Failed e m h w => Ret (inr (mkParseError (Position m) (LineOffset m) (LineNumber m) (Column m) e input), mkParser (DefaultTags ps) m h, w)
  | ParseAmbiguous => Ambiguous
  | _ => Panics
  end.

Inductive LineErr := EParse (e : ParseError) | ErrNoMetric.
Definition ParseLine (line : string) (ps : Parser) (w : W) : result ((metric + LineErr) * Parser * W) :=
  match Parse line ps w with
  | Ret (inr e, ps, w) => Ret (inr (EParse e), ps, w)
  | Ret (inl [], ps, w) => Ret (inr ErrNoMetric, ps, w)
  | Ret (inl (x :: _), ps, w) => Ret (inl x, ps, w)
  | Panics => Panics
  | Ambiguous => Ambiguous
  end.
End Parser.
