(* ===== verification/LineProtocolSpec.v ===== *)
(** * What the line protocol parser does

    Parsing always returns, panics at most for a text that ends in a backslash, and reads back what the serializer of [Influx]
    writes. *)

From Stdlib Require Import Ascii.
From S2P Require Import Prelude Float64 Strconv Strings Parse Metric Filter Converter Running Processors Agent Influx Digits LineProtocol.

(** ** Texts and positions *)

Lemma str_drop_length_app a b : str_drop (String.length a) (a +:+ b) = b.
Proof.
  unfold str_drop. rewrite str_length_app, Nat.add_comm, Nat.add_sub. induction a as [|c a IH].
  - change (EmptyString +:+ b) with b. induction b as [|c b IH]; [done|]. cbn. f_equal. exact IH.
  - change (String c a +:+ b) with (String c (a +:+ b)). exact IH.
Qed.
Lemma str_take_length_app a b : str_take (String.length a) (a +:+ b) = a.
Proof.
  unfold str_take. induction a as [|c a IH].
  - by destruct b.
  - change (String c a +:+ b) with (String c (a +:+ b)). cbn. f_equal. exact IH.
Qed.

(** [rest] is what is left to read. *)
Definition here (m : machine) (rest : string) : Prop := exists pre, data m = pre +:+ rest /\ p m = String.length pre.

Lemma here_drop m rest : here m rest -> str_drop (p m) (data m) = rest.
Proof. intros (pre & -> & ->). apply str_drop_length_app. Qed.
Lemma here_eof m rest : here m rest -> at_eof m = bool_decide (rest = EmptyString).
Proof.
  intros (pre & Hd & Hp). unfold at_eof. rewrite Hd, Hp, str_length_app. destruct rest as [|c rest].
  - rewrite bool_decide_eq_true_2 by done. apply Nat.eqb_eq. simpl. lia.
  - rewrite bool_decide_eq_false_2 by done. apply Nat.eqb_neq. simpl. lia.
Qed.
Lemma here_eq m m' rest : here m rest -> data m' = data m -> p m' = p m -> here m' rest.
Proof. intros (pre & ? & ?) Hd Hp. exists pre. by rewrite Hd, Hp. Qed.
Lemma here_SetData d m : here (SetData d m) d.
Proof. by exists EmptyString. Qed.

(** [n] bytes on, in a state. *)
Definition moved (s : state) (n : nat) (m : machine) : machine :=
  mkMachine (data m) s (p m + n) (pb m) (lineno m) (sol m) (initState m) (key m) (beginMetric m) (finishMetric m).

Lemma here_moved s t m rest : here m (t +:+ rest) -> here (moved s (String.length t) m) rest.
Proof. intros (pre & Hd & Hp). exists (pre +:+ t). cbn. rewrite Hd, Hp, str_length_app. by rewrite str_app_assoc. Qed.
Lemma text_moved s t m rest : here m (t +:+ rest) -> text (moved s (String.length t) (begin m)) = t.
Proof.
  intros (pre & Hd & Hp). unfold text, moved, begin. cbn [pb p data]. rewrite Hd, Hp, str_drop_length_app. replace (_ + _ - _)%nat with (String.length t) by lia.
  apply str_take_length_app.
Qed.

(** Bytes that only change the state. *)
Fixpoint walk (s : state) (t : string) : option state :=
  match t with
  | EmptyString => Some s
  | String c t => match read s c with To [] s' => walk s' t | _ => None end
  end.
Lemma walk_app s t u : walk s (t +:+ u) = s' ← walk s t; walk s' u.
Proof.
  revert s. induction t as [|c t IH]; intros s; [done|]. change (String c t +:+ u) with (String c (t +:+ u)). cbn [walk].
  destruct (read s c) as [[|] ?| | | | |]; done || apply IH.
Qed.

Section Moves.
Context `{MapRange}.

Lemma run_walk t : forall m h rest s, walk (cs m) t = Some s -> run (t +:+ rest) m h = run rest (moved s (String.length t) m) h.
Proof.
  induction t as [|c t IH]; intros m h rest s Hw.
  - injection Hw as <-. change (EmptyString +:+ rest) with rest. f_equal. destruct m. unfold moved. cbn. by rewrite Nat.add_0_r.
  - change (String c t +:+ rest) with (String c (t +:+ rest)). cbn [walk] in Hw. cbn [run_to negb]. destruct (read (cs m) c) as [[|] s1| | | | |]; try done.
    cbn [perform_all]. rewrite (IH (advance s1 m) h rest s Hw). f_equal. destruct m. unfold moved. cbn. by rewrite Nat.add_succ_r.
Qed.

(** A token that begins here. *)
Definition starts (s : state) (l : list action) (t : string) (s' : state) : Prop :=
  exists c r s1, t = String c r /\ read s c = To l s1 /\ walk s1 r = Some s'.

Lemma run_token t s m h rest : starts (cs m) [ABegin] t s -> run (t +:+ rest) m h = run rest (moved s (String.length t) (begin m)) h.
Proof.
  intros (c & r & s1 & -> & Hc & Hr). change (String c r +:+ rest) with (String c (r +:+ rest)). cbn [run_to negb]. rewrite Hc. cbn [perform_all perform mbind option_bind].
  rewrite (run_walk r (advance s1 (begin m)) h rest s Hr). f_equal. destruct m. unfold moved. cbn. by rewrite Nat.add_succ_r.
Qed.
Lemma run_first t s m h rest : starts (cs m) [ABeginMetric; ABegin] t s ->
  run (t +:+ rest) m h = run rest (moved s (String.length t) (begin (begin_metric m))) h.
Proof.
  intros (c & r & s1 & -> & Hc & Hr). change (String c r +:+ rest) with (String c (r +:+ rest)). cbn [run_to negb]. rewrite Hc. cbn [perform_all perform mbind option_bind].
  rewrite (run_walk r (advance s1 (begin (begin_metric m))) h rest s Hr). f_equal. destruct m. unfold moved. cbn. by rewrite Nat.add_succ_r.
Qed.
End Moves.

(** ** Parsing returns *)

(** States in which there is a metric, and states between metrics. *)
Definition named (s : state) : bool :=
  match s with
  | Align | AlignCR | Comment | Discard | ErrorState | Main | Indent | SeriesStart | Name _ | NameEsc _ => false
  | _ => true
  end.
Definition idle (s : state) : bool := match s with Align | AlignCR | Comment | Discard => true | _ => false end.

(** Whether there is a metric after some actions, if the ones that need it find it. *)
Fixpoint flow (b : bool) (l : list action) : option bool :=
  match l with
  | [] => Some b
  | (ABegin | ABeginMetric | ATagKey | AFieldKey | ANewline | AFinish) :: l => flow b l
  | AName :: l => flow true l
  | _ :: l => if b then flow b l else None
  end.

Ltac split_step :=
  unfold read; repeat match goal with
  | |- context [step ?s ?c] => is_var s; destruct s; unfold step
  | |- context [step _ _] => unfold step
  end;
  unfold number_step, value_end, name_start, tag_start, tag_escaped, series_end, field_start, field_value;
  repeat match goal with
  | |- context [if ?b then _ else _] => is_var b; destruct b
  | |- context [if ?b then _ else _] => let E := fresh "E" in destruct b eqn:E
  | |- context [match decide ?P with _ => _ end] => destruct (decide P)
  end.

Lemma byte_bslash c : (byte_of c =? 92) = true -> c = BSLASH.
Proof. revert c. each_char. Qed.

Lemma read_flow s c : match read s c with
  | To l s' => exists b, flow (named s) l = Some b /\ (named s' = true -> b = true) /\ (idle s' = true -> idle s = true /\ ABeginMetric ∉ l) /\
      (forall b, s' = NameEsc b -> c = BSLASH) /\ s' <> Main
  | Line l => flow (named s) l = Some true
  | Both => byte_of c = 11
  | Hold _ => False
  | _ => True
  end.
Proof.
  split_step; first [done|by apply Z.eqb_eq|eexists; split; [reflexivity|]; split; [done|]; split; [intros Hi; first [done|by split; [|rewrite ?elem_of_cons, elem_of_nil; naive_solver]]|];
    split; [intros b Hb; first [by apply byte_bslash|discriminate]|discriminate]].
Qed.

Lemma end_flow s : exists b, flow (named s) (at_end s).1 = Some b /\ ((at_end s).2 = None -> b = true \/ idle s = true \/ s = Main \/ s = ErrorState \/ exists ser, s = NameEsc ser) /\
  (idle s = true -> (at_end s).1 = []).
Proof. destruct s as [| | | | | | | |[]|[]|[]|[]|[]|[]|[]|[]| | | | | | | | | | | | | | | | | | | | | |l| | | | | |]; cbn [at_end]; try (case_decide; cbn [fst snd]); (eexists; split; [reflexivity|]; naive_solver). Qed.

Section Safety.
Context `{MapRange}.

Definition has_metric (h : MetricHandler) : bool := bool_decide (is_Some (hmetric h)).

Lemma on_metric_has f h : has_metric h = true -> exists h', on_metric f h = Some (h', None) /\ has_metric h' = true.
Proof. intros [m Hm]%bool_decide_eq_true. unfold on_metric. rewrite Hm. eexists. split; [done|]. by apply bool_decide_eq_true. Qed.

(** What an action does to the machine, and that it finds its metric. *)
Lemma perform_flow a b m h b' : flow b [a] = Some b' -> (b = true -> has_metric h = true) ->
  exists m' h' e, perform a m h = Some (m', h', e) /\ data m' = data m /\ p m' = p m /\ cs m' = cs m /\ initState m' = initState m /\
    (a <> ABeginMetric -> beginMetric m' = beginMetric m) /\ (has_metric h = true -> has_metric h' = true) /\ (e = None -> b' = true -> has_metric h' = true).
Proof.
  intros Hf Hh. destruct a; cbn [flow] in Hf; cbn [perform]; try (injection Hf as <-; eexists _, _, _; split; [reflexivity|]; by split_and!);
    destruct b; try done; injection Hf as <-; specialize (Hh eq_refl);
    unfold HAddTag, AddInt, AddUint, AddFloat, AddBool, AddString, SetTimestamp, add_field, failed;
    repeat case_match; try (match goal with |- context [on_metric ?f ?h] => destruct (on_metric_has f h Hh) as (h' & -> & Hh') end);
    eexists _, _, _; (split; [reflexivity|]); by split_and!.
Qed.

Lemma perform_all_flow l : forall b m h b', flow b l = Some b' -> (b = true -> has_metric h = true) ->
  exists m' h' e, perform_all l m h = Some (m', h', e) /\ data m' = data m /\ p m' = p m /\ cs m' = cs m /\ initState m' = initState m /\
    (ABeginMetric ∉ l -> beginMetric m' = beginMetric m) /\ (has_metric h = true -> has_metric h' = true) /\ (e = None -> b' = true -> has_metric h' = true).
Proof.
  induction l as [|a l IH]; intros b m h b' Hf Hh.
  - injection Hf as <-. eexists _, _, _. split; [reflexivity|]. by split_and!.
  - assert (exists b1, flow b [a] = Some b1 /\ flow b1 l = Some b') as (b1 & H1 & H2) by (destruct a; cbn [flow] in *; try destruct b; naive_solver).
    destruct (perform_flow a b m h b1 H1 Hh) as (m1 & h1 & e1 & Ep & Hd & Hp & Hc & Hi & Hb & Hk & Hn). cbn [perform_all]. rewrite Ep. cbn [mbind option_bind].
    destruct e1 as [e1|].
    + eexists _, _, _. split; [reflexivity|]. split_and!; try done. intros Hl. apply Hb. intros ->. apply Hl. by left.
    + destruct (IH b1 m1 h1 b' H2 (Hn eq_refl)) as (m2 & h2 & e2 & -> & Hd2 & Hp2 & Hc2 & Hi2 & Hb2 & Hk2 & Hn2). exists m2, h2, e2. split; [done|].
      split_and!; [congruence..| |by auto|done]. intros Hl. rewrite elem_of_cons in Hl. rewrite Hb2 by tauto. apply Hb. naive_solver.
Qed.

Definition ends_bslash (s : string) : Prop := exists pre, s = pre +:+ one BSLASH.
Definition has_vt (s : string) : bool := ContainsAny s [chr 11].
Lemma byte_vt c : byte_of c = 11 -> is_in c [chr 11] = true.
Proof. revert c. each_char. Qed.

(** How a run that neither panics nor fails ends: at the end of a line, or of the text. *)
Definition ended (rest rest' : string) (m m' : machine) (h' : MetricHandler) : Prop :=
  cs m' = ErrorState \/ (has_metric h' = true /\ cs m' = Align /\ (String.length rest' < String.length rest)%nat) \/
  (rest' = EmptyString /\ (has_metric h' = true \/ beginMetric m' = false \/ ends_bslash rest \/ exists b, cs m = NameEsc b /\ rest = EmptyString)).

Lemma here_advance c rest s m : here m (String c rest) -> here (advance s m) rest.
Proof. intros (pre & Hd & Hp). exists (pre +:+ one c). cbn. rewrite Hd, Hp, str_length_app. cbn. split; [|lia]. by rewrite str_app_assoc. Qed.

Lemma ended_cons c rest rest' m m1 m' h' : ended rest rest' m1 m' h' -> (forall b, cs m1 = NameEsc b -> c = BSLASH) -> ended (String c rest) rest' m m' h'.
Proof.
  intros [He|[(H1 & H2 & H3)|(He & Hr)]] Hc; [by left|right; left; split_and!; [done..|cbn; lia]|]. right; right. split; [done|].
  destruct Hr as [Hr|[Hr|[(pre & ->)|(b & Hb & ->)]]]; [by left|by right; left| |]; right; right; left.
  - by exists (String c pre).
  - exists EmptyString. by rewrite (Hc b Hb).
Qed.

Lemma run_safe rest : forall m h, here m rest -> (named (cs m) = true -> has_metric h = true) -> (idle (cs m) = true -> beginMetric m = false) -> cs m <> Main ->
  match run rest m h with
  | Panics => False
  | Ambiguous => has_vt rest = true
  | Ret (m', h', e) => data m' = data m /\ initState m' = initState m /\ (has_metric h = true -> has_metric h' = true) /\
      exists rest', here m' rest' /\ (String.length rest' <= String.length rest)%nat /\ (e = None -> ended rest rest' m m' h')
  end.
Proof.
  induction rest as [|c rest IH]; intros m h Hm Hn Hi Hmain.
  - cbn [run_to negb]. destruct (end_flow (cs m)) as (b & Hf & He & Hl). destruct (at_end (cs m)) as [l e]. cbn [fst snd] in *.
    destruct (perform_all_flow l _ m h b Hf Hn) as (m1 & h1 & e1 & -> & Hd & Hp & Hc & His & Hb & Hk & Hb').
    destruct e1 as [e1|]; [|destruct e as [e|]].
    1,2: split_and!; [done..|]; exists EmptyString; split; [by apply (here_eq m)|]; by split.
    split_and!; [done..|]. exists EmptyString. split; [by apply (here_eq m)|]. split; [done|]. intros _.
    destruct (He eq_refl) as [->|[Hid|[E|[E|[ser E]]]]]; [| |done|left; congruence|].
    + right; right. split; [done|]. left. by apply Hb'.
    + right; right. split; [done|]. right; left. rewrite Hb; [by apply Hi|]. rewrite Hl by done. apply not_elem_of_nil.
    + right; right. split; [done|]. right; right; right. eauto.
  - assert (forall s m1 h1 e1, data m1 = data m -> p m1 = p m -> initState m1 = initState m -> (has_metric h = true -> has_metric h1 = true) ->
      data (set_cs s m1) = data m /\ initState (set_cs s m1) = initState m /\ (has_metric h = true -> has_metric h1 = true) /\
      exists rest', here (set_cs s m1) rest' /\ (String.length rest' <= String.length (String c rest))%nat /\ (Some e1 = @None MErr -> ended (String c rest) rest' m (set_cs s m1) h1)) as Hstay.
    { intros s m1 h1 e1 Hd Hp His Hk. split_and!; [done..|]. exists (String c rest). split; [by apply (here_eq m)|]. by split. }
    cbn [run_to negb]. pose proof (read_flow (cs m) c) as Hr. destruct (read (cs m) c) as [l s|s|l|e| |]; [|done| | | |].
    + destruct Hr as (b & Hf & Hb & Hid & Hesc & Hne). destruct (perform_all_flow l _ m h b Hf Hn) as (m1 & h1 & e1 & -> & Hd & Hp & Hc & His & Hbm & Hk & Hb').
      destruct e1 as [e1|]; [by apply Hstay|].
      assert (here (advance s m1) rest) as Hh by (by apply (here_advance c), (here_eq m)).
      specialize (IH (advance s m1) h1 Hh). cbn [advance cs beginMetric data initState] in IH.
      destruct (run rest (advance s m1) h1) as [[[m2 h2] e2]| |]; [| |].
      * destruct IH as (Hd2 & Hi2 & Hk2 & rest' & Hh2 & Hlen & Hend); [by intros; apply Hb', Hb|intros Hs; destruct (Hid Hs); rewrite Hbm by done; by apply Hi|done|].
        split; [congruence|]. split; [congruence|]. split; [by auto|]. exists rest'. split; [done|]. split; [cbn; lia|]. intros He. apply ended_cons with (advance s m1); [by apply Hend|].
        intros b' Hs. by apply (Hesc b').
      * apply IH; [by intros; apply Hb', Hb|intros Hs; destruct (Hid Hs); rewrite Hbm by done; by apply Hi|done].
      * cbn [has_vt ContainsAny]. unfold has_vt in IH. cbn [ContainsAny]. rewrite IH; [by rewrite orb_true_r|by intros; apply Hb', Hb|intros Hs; destruct (Hid Hs); rewrite Hbm by done; by apply Hi|done].
    + destruct (perform_all_flow l _ m h true Hr Hn) as (m1 & h1 & e1 & -> & Hd & Hp & Hc & His & Hbm & Hk & Hb').
      destruct e1 as [e1|]; [by apply Hstay|]. split_and!; [done..|]. exists rest. split; [by apply (here_advance c), (here_eq m)|]. split; [cbn; lia|].
      intros _. right; left. split; [by apply Hb'|]. split; [done|cbn; lia].
    + by apply Hstay.
    + split_and!; [done..|]. exists (String c rest). split; [done|]. split; [done|]. by left.
    + unfold has_vt. cbn [ContainsAny]. by rewrite byte_vt.
Qed.

Lemma here_bslash m rest : here m rest -> ends_bslash rest -> ends_bslash (data m).
Proof. intros (pre & -> & _) (pre' & ->). exists (pre +:+ pre'). by rewrite str_app_assoc. Qed.
Lemma here_vt m rest : here m rest -> has_vt rest = true -> has_vt (data m) = true.
Proof.
  intros (pre & -> & _). unfold has_vt. rewrite !ContainsAny_all, all_chars_app, !negb_true_iff. intros ->. apply andb_false_r.
Qed.

(** Where the next line can begin. *)
Definition ready (m : machine) (rest : string) : Prop := rest = EmptyString \/ cs m = Align \/ cs m = SeriesStart.

Lemma Next_safe m h rest : here m rest -> ready m rest ->
  match Next m h with
  | Panics => False
  | Ambiguous => has_vt (data m) = true
  | Ret (m', h', e) => data m' = data m /\ initState m' = initState m /\ (has_metric h = true -> has_metric h' = true) /\
      (e = None -> exists rest', here m' rest' /\ ready m' rest' /\ (String.length rest' < String.length rest)%nat /\ (has_metric h' = true \/ ends_bslash (data m)))
  end.
Proof.
  intros Hm Hr. unfold Next. rewrite (here_eof m rest Hm). destruct (decide (rest = EmptyString)) as [->|Hne].
  { by rewrite bool_decide_eq_true_2. }
  rewrite bool_decide_eq_false_2 by done. unfold exec. assert (here (reset m) rest) as Hm' by done. rewrite (here_drop _ _ Hm').
  assert (named (cs m) = false /\ cs m <> Main) as [Hnm Hmain] by (by destruct Hr as [->|[->| ->]]).
  pose proof (run_safe rest (reset m) h Hm' ltac:(cbn; congruence) ltac:(done) Hmain) as Hs.
  destruct (run rest (reset m) h) as [[[m1 h1] e1]| |]; [|done|by eapply here_vt].
  destruct Hs as (Hd & Hi & Hk & rest' & Hh & Hlen & Hend). destruct e1 as [e1|]; [done|]. destruct (Hend eq_refl) as [He|He].
  { rewrite decide_True by done. done. }
  destruct (decide (cs m1 = ErrorState)); [done|]. rewrite (here_eof _ _ Hh).
  destruct He as [(H1 & H2 & H3)|(-> & He)].
  - destruct (negb _ && _); [done|]. split_and!; [done..|]. intros _. exists rest'. split; [done|]. split; [by right; left|]. split; [done|]. by left.
  - rewrite bool_decide_eq_true_2, andb_true_r by done. destruct (beginMetric m1) eqn:Eb; [|done]. split_and!; [done..|]. intros _. exists EmptyString.
    split; [done|]. split; [by left|]. split; [by destruct rest; [|cbn; lia]|].
    destruct He as [He|[He|[He|(b & _ & He)]]]; [by left|congruence|right; by eapply here_bslash|done].
Qed.

Context {W : Type} `{ClockEnv W}.

Lemma Metric_has h (w : W) x h' w' : Metric_ h w = Some (x, h', w') -> has_metric h' = true.
Proof.
  unfold Metric_. destruct (hmetric h) as [y|] eqn:E; [|done]. binds. destruct (_ =? _).
  - destruct (read_clock w) as [now w1]. intros [= <- <- <-]. by apply bool_decide_eq_true.
  - intros [= <- <- <-]. apply bool_decide_eq_true. by rewrite E.
Qed.
Lemma Metric_none h (w : W) : Metric_ h w = None -> has_metric h = false.
Proof.
  unfold Metric_. destruct (hmetric h) as [y|] eqn:E; binds; [by destruct (_ =? _); [destruct (read_clock w)|]|]. intros _. apply bool_decide_eq_false. rewrite E. by intros [? ?].
Qed.

(** The rounds of the loop suffice. *)
Lemma parse_loop_ends fuel : forall m h (w : W) ms rest, here m rest -> ready m rest -> (String.length rest < fuel)%nat ->
  match parse_loop fuel m h w ms with
  | OutOfFuel => False
  | ParsePanics => has_metric h = false /\ ends_bslash (data m)
  | ParseAmbiguous => has_vt (data m) = true
  | _ => True
  end.
Proof.
  induction fuel as [|fuel IH]; intros m h w ms rest Hm Hr Hf; [lia|]. cbn [parse_loop]. pose proof (Next_safe m h rest Hm Hr) as Hn.
  destruct (Next m h) as [[[m1 h1] [e|]]| |]; [by case_decide| |done|done].
  destruct Hn as (Hd & Hi & Hk & He). destruct (He eq_refl) as (rest' & Hh & Hr' & Hlen & Hb).
  destruct (Metric_ h1 w) as [[[x h2] w2]|] eqn:Em.
  - apply Metric_has in Em. specialize (IH m1 h2 w2 (ms ++ [x]) rest' Hh Hr' ltac:(lia)). rewrite Hd in IH. destruct (parse_loop _ _ _ _ _); try done. destruct IH. congruence.
  - apply Metric_none in Em. destruct Hb as [Hb|Hb]; [congruence|]. split; [|done]. destruct (has_metric h); [|done]. by rewrite Hk in Em.
Qed.

(** C25: parsing a text returns. Whatever the text, and whatever the parser read before, [Parse] comes back with metrics or an error, in as
    many rounds as the text has bytes and one more, except that it panics at most for a text that ends in a backslash while the handler holds no
    metric yet. (Only a text with a vertical tab can lead outside of the model.) *)
Theorem LineProtocol_returns (input : string) (ps : Parser) (w : W) (Hp : initState (pmachine ps) = Align \/ initState (pmachine ps) = SeriesStart) :
  match Parse input ps w with
  | Ret _ => True
  | Panics => hmetric (handler ps) = None /\ ends_bslash input
  | Ambiguous => has_vt input = true
  end.
Proof.
  unfold Parse. set (m := SetData input (pmachine ps)). assert (ready m input) as Hr by (destruct Hp; [right; left|right; right]; done).
  pose proof (parse_loop_ends (S (String.length input)) m (handler ps) w [] input (here_SetData _ _) Hr ltac:(lia)) as Hl.
  destruct (parse_loop _ _ _ _ _) as [| | | |]; try done. destruct Hl as [Hh He]. split; [|done]. apply bool_decide_eq_false in Hh. by apply eq_None_not_Some.
Qed.
End Safety.

(** ** Tokens *)

(** Text without control characters, vertical tabs and backslashes. *)
Definition clean_char (c : ascii) : bool := plain_char c && negb (bool_decide (c = chr 11)).
Definition clean (s : string) : bool := all_chars clean_char s.

Lemma clean_plain s : clean s = true -> plain s = true.
Proof. apply all_chars_impl. intros c Hc. by apply andb_true_iff in Hc as [Hc _]. Qed.

(** Escaped characters keep a token going in state [s], and start it in state [s0] with actions [l]. *)
Definition goes (f : ascii -> option string) (s : state) (c : ascii) : bool := bool_decide (walk s (default (one c) (f c)) = Some s).
Definition begins (f : ascii -> option string) (s0 : state) (l : list action) (s : state) (c : ascii) : bool :=
  match default (one c) (f c) with
  | String d u => match read s0 d with To l' s1 => bool_decide (l' = l) && bool_decide (walk s1 u = Some s) | _ => false end
  | EmptyString => false
  end.

Lemma walk_escaped f s t : all_chars (goes f s) t = true -> walk s (replace_bytes f t) = Some s.
Proof.
  induction t as [|c t IH]; [done|]. cbn [all_chars replace_bytes]. rewrite andb_true_iff. intros [Hc Ht]. apply bool_decide_eq_true in Hc.
  rewrite walk_app, Hc. binds. by apply IH.
Qed.
Lemma starts_escaped f s0 l s c t : begins f s0 l s c = true -> all_chars (goes f s) t = true -> starts s0 l (replace_bytes f (String c t)) s.
Proof.
  unfold begins. cbn [replace_bytes]. destruct (default (one c) (f c)) as [|d u]; [done|]. destruct (read s0 d) as [l' s1| | | | |] eqn:E; try done.
  rewrite andb_true_iff, !bool_decide_eq_true. intros [-> Hu] Ht. exists d, (u +:+ replace_bytes f t), s1. split; [done|]. split; [done|].
  rewrite walk_app, Hu. binds. by apply walk_escaped.
Qed.

Ltac by_bytes := apply all_ascii_spec; vm_compute; reflexivity.

Lemma name_token s : clean s = true -> (forall r, s <> String (chr 35) r) -> s <> EmptyString ->
  starts Align [ABeginMetric; ABegin] (nameEscape s) (Name false).
Proof.
  intros Hs Hh Hne. rewrite nameEscape_replaces. destruct s as [|c s]; [done|]. cbn [clean all_chars] in Hs. apply andb_true_iff in Hs as [Hc Hs].
  apply starts_escaped.
  - assert (forall c, negb (clean_char c) || bool_decide (c = chr 35) || begins nameEscaper Align [ABeginMetric; ABegin] (Name false) c = true) as Hb by by_bytes.
    specialize (Hb c). rewrite Hc, bool_decide_eq_false_2 in Hb; [done|]. intros ->. by apply (Hh s).
  - eapply all_chars_impl; [|exact Hs]. assert (forall c, negb (clean_char c) || goes nameEscaper (Name false) c = true) as Hb by by_bytes.
    intros d Hd. specialize (Hb d). by rewrite Hd in Hb.
Qed.

(** Keys and values of tags, keys of fields. *)
Lemma key_token s0 s : (forall c, negb (clean_char c) || begins escaper s0 [ABegin] s c = true) -> (forall c, negb (clean_char c) || goes escaper s c = true) ->
  forall t, clean t = true -> t <> EmptyString -> starts s0 [ABegin] (escape t) s.
Proof.
  intros Hb Hg t Ht Hne. rewrite escape_replaces. destruct t as [|c t]; [done|]. cbn [clean all_chars] in Ht. apply andb_true_iff in Ht as [Hc Ht].
  apply starts_escaped.
  - specialize (Hb c). by rewrite Hc in Hb.
  - eapply all_chars_impl; [|exact Ht]. intros d Hd. specialize (Hg d). by rewrite Hd in Hg.
Qed.
Lemma tag_key_token t : clean t = true -> t <> EmptyString -> starts (TagKeyStart false) [ABegin] (escape t) (TagKey false).
Proof. apply key_token; by_bytes. Qed.
Lemma tag_value_token t : clean t = true -> t <> EmptyString -> starts (TagValueStart false) [ABegin] (escape t) (TagValue false).
Proof. apply key_token; by_bytes. Qed.
Lemma field_key_token s0 t : s0 = Gap \/ s0 = FieldStart -> clean t = true -> t <> EmptyString -> starts s0 [ABegin] (escape t) FieldKey.
Proof. intros [-> | ->]; apply key_token; by_bytes. Qed.

(** ** Reading a line *)

Section Line.
Context `{MapRange}.

Definition same (m m' : machine) : Prop := data m' = data m /\ initState m' = initState m /\ beginMetric m' = beginMetric m.
#[export] Instance same_refl : Reflexive same.
Proof. by intros m. Qed.
#[export] Instance same_trans : Transitive same.
Proof. unfold same. intros a b c. intuition congruence. Qed.
Lemma same_moved s n m : same m (moved s n (begin m)).
Proof. done. Qed.

Lemma run_byte c rest m h l s m1 h1 : read (cs m) c = To l s -> perform_all l m h = Some (m1, h1, None) ->
  run (String c rest) m h = run rest (advance s m1) h1.
Proof. intros Hr Hp. cbn [run_to negb]. by rewrite Hr, Hp. Qed.

(** The action a token ends with. *)
Lemma run_byte1 c rest m h a s m1 h1 : read (cs m) c = To [a] s -> perform a m h = Some (m1, h1, None) ->
  run (String c rest) m h = run rest (advance s m1) h1.
Proof. intros Hr Hp. apply (run_byte c rest m h [a] s m1 h1 Hr). cbn [perform_all]. by rewrite Hp. Qed.

Definition with_metric (h : MetricHandler) (x : metric) : MetricHandler := mkHandler (timePrecision h) (Some x).
Lemma on_metric_with f h x : hmetric h = Some x -> on_metric f h = Some (with_metric h (f x), None).
Proof. intros Hx. unfold on_metric. by rewrite Hx. Qed.

Definition add_tags (ts : list Tag) (x : metric) : metric := foldl (fun x t => AddTag (Key t) (Value t) x) x ts.
Definition clean_tag (t : Tag) : Prop := clean (Key t) = true /\ clean (Value t) = true /\ Key t <> EmptyString /\ Value t <> EmptyString.

Lemma unescape_clean t : clean t = true -> unescape (escape t) = t.
Proof. intros Ht. rewrite escape_replaces. by apply unescape_escape, clean_plain. Qed.

Lemma run_tags ts : Forall clean_tag ts -> forall m h h1 x a rest,
  (cs m = Name false /\ a = AName) \/ (cs m = TagValue false /\ a = ATagValue) -> perform a m h = Some (m, h1, None) -> hmetric h1 = Some x ->
  here m (tags_text ts +:+ String SPACE rest) ->
  exists m', run (tags_text ts +:+ String SPACE rest) m h = run rest m' (with_metric h1 (add_tags ts x)) /\ cs m' = Gap /\ here m' rest /\ same m m'.
Proof.
  induction 1 as [|t ts (Hk & Hv & Nk & Nv) _ IH]; intros m h h1 x a rest Ha Hp Hx Hm.
  - change (tags_text [] +:+ String SPACE rest) with (String SPACE rest) in *. exists (advance Gap m).
    assert (read (cs m) SPACE = To [a] Gap) as Hr by (by destruct Ha as [[-> ->]|[-> ->]]).
    split; [|split; [done|]; split; [by eapply here_advance|done]]. rewrite (run_byte1 _ _ _ _ _ _ _ _ Hr Hp). f_equal. destruct h1. unfold with_metric. cbn in *. by rewrite Hx.
  - cbn [tags_text] in *. set (tail := tags_text ts +:+ String SPACE rest) in *.
    assert ((one COMMA +:+ escape (Key t) +:+ one EQUAL +:+ escape (Value t) +:+ tags_text ts) +:+ String SPACE rest =
      String COMMA (escape (Key t) +:+ String EQUAL (escape (Value t) +:+ tail))) as Et by (unfold tail; by rewrite !str_app_assoc).
    rewrite Et in *. clear Et.
    assert (read (cs m) COMMA = To [a] (TagKeyStart false)) as Hr by (by destruct Ha as [[-> ->]|[-> ->]]).
    rewrite (run_byte1 _ _ _ _ _ _ _ _ Hr Hp). set (m1 := advance (TagKeyStart false) m). assert (here m1 (escape (Key t) +:+ String EQUAL (escape (Value t) +:+ tail))) as H1 by (by eapply here_advance).
    rewrite (run_token _ _ _ _ _ (tag_key_token _ Hk Nk : starts (cs m1) _ _ _)). set (m2 := moved _ _ (begin m1)).
    assert (here m2 (String EQUAL (escape (Value t) +:+ tail))) as H2 by (by apply here_moved).
    rewrite (run_byte1 EQUAL _ m2 h1 ATagKey (TagValueStart false) (set_key (text m2) m2) h1) by done. set (m3 := advance _ (set_key (text m2) m2)).
    assert (here m3 (escape (Value t) +:+ tail)) as H3 by (by apply (here_advance EQUAL)).
    assert (key m3 = escape (Key t)) as Ek by (cbn [m3 advance set_key key]; unfold m2; eapply text_moved; exact H1).
    rewrite (run_token _ _ _ _ _ (tag_value_token _ Hv Nv : starts (cs m3) _ _ _)). set (m4 := moved _ _ (begin m3)).
    assert (here m4 tail) as H4 by (by apply here_moved).
    destruct (IH m4 h1 (with_metric h1 (AddTag (Key t) (Value t) x)) (AddTag (Key t) (Value t) x) ATagValue rest) as (m' & Er & Hc & Hh & Hs);
      [by right| |done|exact H4|].
    { cbn [perform]. unfold HAddTag. assert (text m4 = escape (Value t)) as -> by (unfold m4; eapply text_moved; exact H3). change (key m4) with (key m3). rewrite Ek.
      rewrite !unescape_clean by done. by rewrite (on_metric_with _ _ _ Hx). }
    exists m'. split; [exact Er|]. split; [done|]. split; [done|]. transitivity m4; [done|exact Hs].
Qed.
End Line.

(** ** Numbers *)

Lemma digit_read c : 0 <= byte_of c - 48 <= 9 -> digit (byte_of c) = true.
Proof. intros Hc. unfold digit. by rewrite (proj2 (Z.leb_le _ _)), (proj2 (Z.leb_le _ _)) by lia. Qed.

Lemma walk_digits s : s = Digits \/ s = NegDigits -> forall t acc v, read_digits t acc = Some v -> walk s t = Some s.
Proof.
  intros Hs. induction t as [|c t IH]; intros acc v Hr; [done|]. apply read_digits_cons in Hr as [Hc Hr]. cbn [walk].
  assert (read s c = To [] s) as -> by (apply digit_read in Hc; destruct Hs as [-> | ->]; unfold read, step, number_step; by rewrite Hc). by eapply IH.
Qed.
Lemma walk_timestamp t : forall n acc v, read_digits t acc = Some v -> (n + String.length t <= 19)%nat -> walk (Timestamp n) t = Some (Timestamp (n + String.length t)).
Proof.
  induction t as [|c t IH]; intros n acc v Hr Hn; [cbn; by rewrite Nat.add_0_r|]. apply read_digits_cons in Hr as [Hc Hr]. cbn [String.length] in *. cbn [walk].
  assert (read (Timestamp n) c = To [] (Timestamp (S n))) as ->.
  { unfold read, step. rewrite (digit_read c Hc), (proj2 (Nat.ltb_lt n 19)) by lia. unfold ws. by rewrite !(proj2 (Z.eqb_neq (byte_of c) _)) by lia. }
  rewrite (IH (S n) _ _ Hr) by lia. do 2 f_equal. lia.
Qed.

(** The first digit of a positive number, and the others. *)
Lemma FormatUint_head n : 0 < n -> exists c t v acc, FormatUint n = String c t /\ read_digits t acc = Some v /\
  read FieldValue c = To [ABegin] Digits /\ read Minus c = To [] NegDigits /\ read Space c = To [ABegin] (Timestamp 1) /\ read TimestampMinus c = To [] (Timestamp 1).
Proof.
  intros Hn. destruct (FormatUint_first n Hn) as (d & s & Hd & E). pose proof (FormatUint_read n ltac:(lia)) as Hr. rewrite E in Hr.
  apply read_digits_cons in Hr as [_ Hr]. eexists _, _, _, _. split; [exact E|]. split; [exact Hr|].
  assert (d = 1 \/ d = 2 \/ d = 3 \/ d = 4 \/ d = 5 \/ d = 6 \/ d = 7 \/ d = 8 \/ d = 9) as Hc by lia. repeat destruct Hc as [->|Hc]; try subst d; split_and!; vm_compute; reflexivity.
Qed.

Lemma int_token z : starts FieldValue [ABegin] (FormatInt z +:+ "i") IntEnd.
Proof.
  unfold FormatInt. destruct (Z.ltb_spec z 0).
  - destruct (FormatUint_head (- z) ltac:(lia)) as (c & t & v & acc & -> & Hr & _ & Hc & _). eexists "-"%char, (String c t +:+ "i"), Minus. split; [done|]. split; [done|].
    change (String c t +:+ "i") with (String c (t +:+ "i")). cbn [walk]. rewrite Hc, walk_app, (walk_digits NegDigits ltac:(by right) t acc v Hr). done.
  - destruct (decide (z = 0)) as [->|]; [by eexists "0"%char, "i", Zero|].
    destruct (FormatUint_head z ltac:(lia)) as (c & t & v & acc & -> & Hr & Hc & _). eexists c, (t +:+ "i"), Digits. split; [done|]. split; [done|].
    by rewrite walk_app, (walk_digits Digits ltac:(by left) t acc v Hr).
Qed.
Lemma uint_token z : 0 <= z -> starts FieldValue [ABegin] (FormatUint z +:+ "u") UintEnd.
Proof.
  intros Hz. destruct (decide (z = 0)) as [->|]; [by eexists "0"%char, "u", Zero|].
  destruct (FormatUint_head z ltac:(lia)) as (c & t & v & acc & -> & Hr & Hc & _). eexists c, (t +:+ "u"), Digits. split; [done|]. split; [done|].
  by rewrite walk_app, (walk_digits Digits ltac:(by left) t acc v Hr).
Qed.
Lemma timestamp_token z : MinInt64 <= z <= MaxInt64 -> exists n, starts Space [ABegin] (FormatInt z) (Timestamp n).
Proof.
  intros Hz. assert (forall n, 0 < n <= 2 ^ 63 -> forall c t, FormatUint n = String c t -> (1 + String.length t <= 19)%nat) as Hl.
  { intros n Hn c t E. pose proof (FormatUint_short n 19 ltac:(lia) ltac:(lia)) as Hs. rewrite E in Hs. cbn [String.length] in Hs. lia. }
  unfold MinInt64, MaxInt64 in Hz. unfold FormatInt. destruct (Z.ltb_spec z 0).
  - destruct (FormatUint_head (- z) ltac:(lia)) as (c & t & v & acc & E & Hr & _ & _ & _ & Hc). specialize (Hl (- z) ltac:(lia) c t E). rewrite E. eexists _, "-"%char, (String c t), TimestampMinus.
    split; [done|]. split; [done|]. cbn [walk]. rewrite Hc. by apply (walk_timestamp t 1 acc v).
  - destruct (decide (z = 0)) as [->|]; [by exists 1%nat, "0"%char, EmptyString, (Timestamp 1)|].
    destruct (FormatUint_head z ltac:(lia)) as (c & t & v & acc & E & Hr & _ & _ & Hc & _). specialize (Hl z ltac:(lia) c t E). rewrite E. eexists _, c, t, (Timestamp 1).
    split; [done|]. split; [done|]. by apply (walk_timestamp t 1 acc v).
Qed.

Lemma TrimSuffix1_app c s : TrimSuffix1 c (s +:+ String c EmptyString) = s.
Proof.
  induction s as [|d s IH].
  - change (EmptyString +:+ String c EmptyString) with (String c EmptyString). cbn [TrimSuffix1]. by rewrite Ascii.eqb_refl.
  - change (String d s +:+ String c EmptyString) with (String d (s +:+ String c EmptyString)).
    assert (exists e t, s +:+ String c EmptyString = String e t) as (e & t & E) by (destruct s; eauto). rewrite E in *. cbn [TrimSuffix1] in *. by rewrite IH.
Qed.
Lemma ParseUint10_FormatUint z : 0 <= z <= MaxUint64 -> ParseUint10 (FormatUint z) = inl z.
Proof.
  intros Hz. unfold ParseUint10. rewrite decide_False by (by apply FormatUint_nonempty; lia). apply uint10_loop_digits; [lia|lia|]. apply FormatUint_read. lia.
Qed.

(** ** Quoted text *)

Section Quotes.
Context `{MapRange}.

(** The token read so far, and what is left. *)
Definition tok (m : machine) (t rest : string) : Prop := exists pre, data m = pre +:+ t +:+ rest /\ pb m = String.length pre /\ p m = String.length (pre +:+ t).

Lemma tok_text m t rest : tok m t rest -> text m = t.
Proof.
  intros (pre & Hd & Hb & Hp). unfold text. rewrite Hd, Hb, Hp, str_drop_length_app, str_length_app. replace (_ + _ - _)%nat with (String.length t) by lia. apply str_take_length_app.
Qed.
Lemma tok_here m t rest : tok m t rest -> here m rest.
Proof. intros (pre & Hd & _ & Hp). exists (pre +:+ t). by rewrite str_app_assoc. Qed.
Lemma tok_begin m rest : here m rest -> tok (begin m) EmptyString rest.
Proof. intros (pre & Hd & Hp). exists pre. cbn. by rewrite str_app_nil_r. Qed.
Lemma tok_advance m m1 s t c rest : tok m t (String c rest) -> data m1 = data m -> pb m1 = pb m -> p m1 = p m -> tok (advance s m1) (t +:+ one c) rest.
Proof.
  intros (pre & Hd & Hb & Hp) Hd1 Hb1 Hp1. exists pre. cbn. rewrite Hd1, Hd, Hb1, Hb, Hp1, Hp. split; [by rewrite str_app_assoc|]. split; [done|].
  rewrite !str_length_app. cbn. lia.
Qed.

Lemma quote_start c r m h : cs m = QuoteStart -> run (String c r) m h = run (String c r) (set_cs Quoted (begin m)) h.
Proof.
  intros Hc. cbn [run_to negb]. rewrite Hc. cbn [set_cs cs]. unfold read, step. destruct (byte_of c =? 34); [|destruct (byte_of c =? 92); [done|by destruct (byte_of c =? 10)]].
  cbn [perform_all perform mbind option_bind]. change (text (set_cs Quoted (begin m))) with (text (begin m)). change (key (set_cs Quoted (begin m))) with (key (begin m)).
  by destruct (AddString _ _ h) as [[h1 [e|]]|].
Qed.

Definition quoted_text (s : string) : string := replace_bytes stringFieldEscaper s.

Lemma run_quoted s : forall m h t rest, cs m = Quoted -> tok m t (quoted_text s +:+ String QUOTE rest) ->
  exists m', run (quoted_text s +:+ String QUOTE rest) m h = run (String QUOTE rest) m' h /\ cs m' = Quoted /\ tok m' (t +:+ quoted_text s) (String QUOTE rest) /\
    same m m' /\ key m' = key m.
Proof.
  induction s as [|c s IH]; intros m h t rest Hc Ht.
  - exists m. split; [done|]. split; [done|]. split; [by rewrite str_app_nil_r|done].
  - unfold quoted_text in *. cbn [replace_bytes] in *. set (u := replace_bytes stringFieldEscaper s +:+ String QUOTE rest) in *.
    assert (forall a, (a +:+ replace_bytes stringFieldEscaper s) +:+ String QUOTE rest = a +:+ u) as Hu by (intros; unfold u; by rewrite str_app_assoc). rewrite !Hu in *.
    destruct (is_in c [QUOTE; BSLASH]) eqn:Es.
    + assert (stringFieldEscaper c = Some (String BSLASH (one c))) as E by (unfold stringFieldEscaper; by rewrite Es). rewrite E in *. cbn [default from_option id] in *.
      change (String BSLASH (one c) +:+ u) with (String BSLASH (String c u)) in *.
      assert (read QuotedEsc c = To [] Quoted) as Hq.
      { apply bool_decide_eq_true in Es. rewrite !elem_of_cons, elem_of_nil in Es. by destruct Es as [->|[->|[]]]. }
      rewrite (run_byte BSLASH (String c u) m h [] QuotedEsc m h) by (by rewrite ?Hc). rewrite (run_byte c u (advance QuotedEsc m) h [] Quoted (advance QuotedEsc m) h) by done.
      assert (tok (advance Quoted (advance QuotedEsc m)) ((t +:+ one BSLASH) +:+ one c) u) as Ht2 by (eapply tok_advance; [eapply tok_advance; [exact Ht|done..]|done..]).
      destruct (IH (advance Quoted (advance QuotedEsc m)) h _ rest eq_refl Ht2) as (m' & Er & Hc' & Ht' & Hs & Hk). exists m'. split; [exact Er|]. split; [done|]. split; [|done].
      rewrite !str_app_assoc in Ht'. exact Ht'.
    + assert (stringFieldEscaper c = None) as E by (unfold stringFieldEscaper; by rewrite Es). rewrite E in *. cbn [default from_option id] in *.
      change (one c +:+ u) with (String c u) in *.
      assert (exists m1, read Quoted c = To [] Quoted /\ m1 = m \/ read Quoted c = To [ANewline] Quoted /\ m1 = incr_newline m) as [m1 Hm1].
      { assert (forall c, implb (negb (is_in c [QUOTE; BSLASH])) (match read Quoted c with To [] Quoted => true | To [ANewline] Quoted => true | _ => false end) = true) as Hb by by_bytes.
        specialize (Hb c). rewrite Es in Hb. cbn [negb implb] in Hb. destruct (read Quoted c) as [[|[] []] []| | | | |]; try done; eauto. }
      assert (run (String c u) m h = run u (advance Quoted m1) h) as ->.
      { destruct Hm1 as [[Hr ->]|[Hr ->]]; eapply run_byte; [by rewrite Hc, Hr|done|by rewrite Hc, Hr|done]. }
      assert (tok (advance Quoted m1) (t +:+ one c) u) as Ht2 by (eapply tok_advance; [exact Ht|by destruct Hm1 as [[_ ->]|[_ ->]]..]).
      destruct (IH (advance Quoted m1) h _ rest eq_refl Ht2) as (m' & Er & Hc' & Ht' & Hs & Hk). exists m'. split; [exact Er|]. split; [done|].
      split; [rewrite !str_app_assoc in Ht'; exact Ht'|]. destruct Hm1 as [[_ ->]|[_ ->]]; done.
Qed.
End Quotes.

(** ** Fields *)

Lemma stringFieldUnescape_quoted s : stringFieldUnescape (quoted_text s) = s.
Proof.
  unfold stringFieldUnescape, quoted_text. apply unescape_guard; [|each_char]. apply (all_chars_impl (fun _ => true)); [|by induction s]. each_char.
Qed.

Definition after (d : ascii) : state := if decide (d = COMMA) then FieldStart else Space.
Definition float_end (s : state) : bool := match s with Zero | Digits | NegZero | NegDigits | ZeroDigits | Frac | Exp => true | _ => false end.

(** A float whose text is a number of the grammar and reads back. *)
Definition float_reads (x : float64) : bool :=
  match FormatFloat_f x with
  | String c r => match read FieldValue c with To [ABegin] s => match walk s r with Some s' => float_end s' | None => false end | _ => false end
  | EmptyString => false
  end && bool_decide (ParseFloat (FormatFloat_f x) = Some x).

(** The value a field is read as; [None] is not written. *)
Definition line_value (support : Z) (v : Val) : option Val :=
  match v with
  | VNil => None
  | VUint z => Some (if negb (Z.land support UintSupport =? 0) then VUint z else VInt (z `min` MaxInt64))
  | VFloat x => if f_is_nan x || f_is_inf x then None else Some v
  | _ => Some v
  end.
Definition value_text (support : Z) (v : Val) : option string :=
  match v with
  | VNil => None
  | VUint z => Some (if negb (Z.land support UintSupport =? 0) then FormatUint z +:+ "u" else FormatInt (z `min` MaxInt64) +:+ "i")
  | VInt z => Some (FormatInt z +:+ "i")
  | VFloat x => if f_is_nan x || f_is_inf x then None else Some (FormatFloat_f x)
  | VString s => Some (one QUOTE +:+ quoted_text s +:+ one QUOTE)
  | VBool b => Some (FormatBool b)
  end.
Definition val_good (v : Val) : bool :=
  match v with
  | VInt z => (MinInt64 <=? z) && (z <=? MaxInt64)
  | VUint z => (0 <=? z) && (z <=? MaxUint64)
  | VFloat x => f_is_nan x || f_is_inf x || float_reads x
  | _ => true
  end.

Lemma appendFieldValue_text support buf v : val_good v = true ->
  appendFieldValue (SetFieldTypeSupport support NewSerializer) buf v = (fun t => buf +:+ t) <$> value_text support v.
Proof.
  intros Hv. destruct v as [|x|z|z|s|b]; cbn [appendFieldValue value_text val_good fieldTypeSupport SetFieldTypeSupport] in *; try done.
  - destruct (f_is_nan x); [done|]. by destruct (f_is_inf x).
  - destruct (negb _); [done|]. unfold appendIntField. apply andb_true_iff in Hv as [Hv _]. apply Z.leb_le in Hv. destruct (Z.leb_spec z MaxInt64).
    + rewrite int64_small by (unfold MinInt64; lia). by rewrite Z.min_l by lia.
    + by rewrite Z.min_r by lia.
  - unfold appendStringField. by rewrite stringFieldEscape_replaces.
Qed.

Section Fields.
Context `{MapRange}.

Lemma run_scalar t s a d m h h1 rest : cs m = FieldValue -> starts FieldValue [ABegin] t s -> read s d = To [a] (after d) ->
  (forall m', text m' = t -> key m' = key m -> perform a m' h = Some (m', h1, None)) -> here m (t +:+ String d rest) ->
  exists m', run (t +:+ String d rest) m h = run rest m' h1 /\ cs m' = after d /\ here m' rest /\ same m m'.
Proof.
  intros Hc Hs Hd Ha Hm. exists (advance (after d) (moved s (String.length t) (begin m))).
  rewrite (run_token t s m h (String d rest)) by (by rewrite Hc).
  rewrite (run_byte1 d rest (moved s (String.length t) (begin m)) h a (after d) (moved s (String.length t) (begin m)) h1); [|done|].
  - split; [done|]. split; [done|]. split; [|done]. apply (here_advance d). by apply here_moved.
  - apply Ha; [|done]. eapply text_moved. exact Hm.
Qed.

Definition with_field (k : string) (v : Val) (x : metric) : metric := AddField k (go_of_val v) x.

Lemma run_value support v v' t d m h x k rest : val_good v = true -> line_value support v = Some v' -> value_text support v = Some t -> d = COMMA \/ d = SPACE ->
  cs m = FieldValue -> key m = escape k -> clean k = true -> hmetric h = Some x -> here m (t +:+ String d rest) ->
  exists m', run (t +:+ String d rest) m h = run rest m' (with_metric h (with_field k v' x)) /\ cs m' = after d /\ here m' rest /\ same m m'.
Proof.
  intros Hg Hv Ht Hd Hc Hk Hcl Hx Hm.
  assert (forall v0, add_field (escape k) v0 h = Some (with_metric h (with_field k v0 x), None)) as Hadd.
  { intros v0. unfold add_field. rewrite unescape_clean by done. by rewrite (on_metric_with _ _ _ Hx). }
  destruct v as [|y|z|z|s|b]; cbn [line_value value_text val_good] in *; try done.
  - destruct (f_is_nan y || f_is_inf y); [done|]. injection Hv as <-. injection Ht as <-. cbn [orb] in Hg. unfold float_reads in Hg. apply andb_true_iff in Hg as [Hw Hp]. apply bool_decide_eq_true in Hp.
    destruct (FormatFloat_f y) as [|c r] eqn:Ef; [done|]. destruct (read FieldValue c) as [[|[] []] s1| | | | |] eqn:Er; try done. destruct (walk s1 r) as [s|] eqn:Ew; [|done].
    apply (run_scalar _ s AFloat); [done|by exists c, r, s1|by destruct Hd as [-> | ->], s| |done]. intros m' Et Ek. cbn [perform]. unfold AddFloat. rewrite Et, Hp, Ek, Hk, Hadd. done.
  - injection Hv as <-. injection Ht as <-. apply andb_true_iff in Hg as [H1 H2]. apply Z.leb_le in H1, H2.
    apply (run_scalar _ IntEnd AInteger); [done|apply int_token|by destruct Hd as [-> | ->]| |done]. intros m' Et Ek. cbn [perform]. unfold AddInt.
    rewrite Et, TrimSuffix1_app, ParseInt10_FormatInt, Ek, Hk, Hadd by lia. done.
  - apply andb_true_iff in Hg as [H1 H2]. apply Z.leb_le in H1, H2. destruct (negb _); injection Hv as <-; injection Ht as <-.
    + apply (run_scalar _ UintEnd AUnsigned); [done|by apply uint_token|by destruct Hd as [-> | ->]| |done]. intros m' Et Ek. cbn [perform]. unfold AddUint.
      rewrite Et, TrimSuffix1_app, ParseUint10_FormatUint, Ek, Hk, Hadd by lia. done.
    + apply (run_scalar _ IntEnd AInteger); [done|apply int_token|by destruct Hd as [-> | ->]| |done]. intros m' Et Ek. cbn [perform]. unfold AddInt.
      rewrite Et, TrimSuffix1_app, ParseInt10_FormatInt, Ek, Hk, Hadd by (unfold MinInt64, MaxInt64; lia). done.
  - injection Hv as <-. injection Ht as <-.
    assert ((one QUOTE +:+ quoted_text s +:+ one QUOTE) +:+ String d rest = String QUOTE (quoted_text s +:+ String QUOTE (String d rest))) as E by (by rewrite !str_app_assoc). rewrite E in *. clear E.
    rewrite (run_byte QUOTE _ m h [] QuoteStart m h) by (by rewrite ?Hc). set (m1 := advance QuoteStart m).
    assert (here m1 (quoted_text s +:+ String QUOTE (String d rest))) as H1 by (by apply (here_advance QUOTE)).
    assert (run (quoted_text s +:+ String QUOTE (String d rest)) m1 h = run (quoted_text s +:+ String QUOTE (String d rest)) (set_cs Quoted (begin m1)) h) as ->.
    { assert (exists c r, quoted_text s +:+ String QUOTE (String d rest) = String c r) as (c & r & ->) by (destruct (quoted_text s); eauto). by apply quote_start. }
    destruct (run_quoted s (set_cs Quoted (begin m1)) h EmptyString (String d rest) eq_refl (tok_begin _ _ H1)) as (m2 & -> & Hc2 & Ht2 & Hs2 & Hk2).
    rewrite (run_byte1 QUOTE (String d rest) m2 h AString ValueEnd m2 (with_metric h (with_field k (VString s) x))).
    2:{ by rewrite Hc2. }
    2:{ cbn [perform]. rewrite (tok_text _ _ _ Ht2), Hk2. cbn [m1 advance set_cs begin key]. rewrite Hk. unfold AddString. change (EmptyString +:+ quoted_text s) with (quoted_text s). rewrite stringFieldUnescape_quoted. by rewrite Hadd. }
    exists (advance (after d) (advance ValueEnd m2)). rewrite (run_byte d rest (advance ValueEnd m2) _ [] (after d) (advance ValueEnd m2) (with_metric h (with_field k (VString s) x)));
      [|by destruct Hd as [-> | ->]|done]. split; [done|]. split; [done|]. split; [|done]. eapply here_advance, here_advance, tok_here. exact Ht2.
  - injection Hv as <-. injection Ht as <-. destruct b.
    + apply (run_scalar _ (Bool [EmptyString]) ABool); [done|by eexists "t"%char, "rue", _|by destruct Hd as [-> | ->]| |done]. intros m' Et Ek. cbn [perform]. unfold AddBool. rewrite Et, Ek, Hk.
      assert (ParseBool (FormatBool true) = Some true) as -> by done. by rewrite Hadd.
    + apply (run_scalar _ (Bool [EmptyString]) ABool); [done|by eexists "f"%char, "alse", _|by destruct Hd as [-> | ->]| |done]. intros m' Et Ek. cbn [perform]. unfold AddBool. rewrite Et, Ek, Hk.
      assert (ParseBool (FormatBool false) = Some false) as -> by done. by rewrite Hadd.
Qed.

Definition line_field (support : Z) (f : Field) : option Field :=
  if decide (FKey f = EmptyString) then None else mkField (FKey f) <$> line_value support (FValue f).
Definition field_good (f : Field) : Prop := clean (FKey f) = true /\ val_good (FValue f) = true.

(** A text that is read as a field. *)
Definition reads_field (f : Field) (t : string) : Prop := forall d m h x rest,
  d = COMMA \/ d = SPACE -> cs m = Gap \/ cs m = FieldStart -> hmetric h = Some x -> here m (t +:+ String d rest) ->
  exists m', run (t +:+ String d rest) m h = run rest m' (with_metric h (with_field (FKey f) (FValue f) x)) /\ cs m' = after d /\ here m' rest /\ same m m'.

Lemma run_field support k v v' t : clean k = true -> k <> EmptyString -> val_good v = true -> line_value support v = Some v' -> value_text support v = Some t ->
  reads_field (mkField k v') (escape k +:+ one EQUAL +:+ t).
Proof.
  intros Hk Nk Hg Hv Ht d m h x rest Hd Hc Hx Hm.
  assert ((escape k +:+ one EQUAL +:+ t) +:+ String d rest = escape k +:+ String EQUAL (t +:+ String d rest)) as E by (by rewrite !str_app_assoc). rewrite E in *. clear E.
  rewrite (run_token _ _ _ _ _ (field_key_token (cs m) k Hc Hk Nk)). set (m1 := moved _ _ (begin m)).
  assert (here m1 (String EQUAL (t +:+ String d rest))) as H1 by (by apply here_moved).
  rewrite (run_byte1 EQUAL _ m1 h AFieldKey FieldValue (set_key (text m1) m1) h) by done. set (m2 := advance _ (set_key (text m1) m1)).
  destruct (run_value support v v' t d m2 h x k rest) as (m' & Er & Hc' & Hh & Hs); try done.
  - cbn [m2 advance set_key key]. unfold m1. eapply text_moved. exact Hm.
  - by apply (here_advance EQUAL).
  - exists m'. split; [exact Er|]. split; [done|]. split; [done|]. transitivity m2; done.
Qed.

(** The pairs that are written, with what they are read as. *)
Lemma written_reads support fs : Forall field_good fs -> exists l, l.*1 = omap (line_field support) fs /\ l.*2 = omap (pair_text support) fs /\
  Forall (fun ft => reads_field ft.1 ft.2) l.
Proof.
  induction 1 as [|f fs [Hk Hg] _ (l & E1 & E2 & Hl)]; [by exists []|]. cbn [omap list_omap]. unfold line_field at 1, pair_text at 1. rewrite (appendFieldValue_text support _ _ Hg).
  destruct (decide (FKey f = EmptyString)) as [E|Nk].
  { rewrite decide_True by (rewrite escape_replaces; by apply (replace_bytes_empty _ _ _ escaper_delimits (clean_plain _ Hk))). eauto. }
  rewrite decide_False by (rewrite escape_replaces, (replace_bytes_empty _ _ _ escaper_delimits (clean_plain _ Hk)); done).
  assert (is_Some (line_value support (FValue f)) <-> is_Some (value_text support (FValue f))) as Hi.
  { destruct (FValue f) as [|x| | | |]; cbn [line_value value_text]; try (by split; intros [? ?]; eauto). destruct (f_is_nan x || f_is_inf x); by split; intros [? ?]; eauto. }
  destruct (line_value support (FValue f)) as [v'|] eqn:Ev, (value_text support (FValue f)) as [t|] eqn:Et.
  - exists ((mkField (FKey f) v', (escape (FKey f) +:+ one EQUAL) +:+ t) :: l). cbn. rewrite E1, E2. split; [done|]. split; [done|]. constructor; [|done]. cbn [fst snd].
    rewrite str_app_assoc. by eapply run_field.
  - destruct Hi as [Hi _]. by destruct Hi.
  - destruct Hi as [_ Hi]. by destruct Hi.
  - cbn. eauto.
Qed.

Definition add_fields (fs : list Field) (x : metric) : metric := foldl (fun x f => with_field (FKey f) (FValue f) x) x fs.

Lemma run_fields l : Forall (fun ft => reads_field ft.1 ft.2) l -> l <> [] -> forall m h x rest, cs m = Gap \/ cs m = FieldStart -> hmetric h = Some x ->
  here m (commas l.*2 +:+ String SPACE rest) ->
  exists m', run (commas l.*2 +:+ String SPACE rest) m h = run rest m' (with_metric h (add_fields l.*1 x)) /\ cs m' = Space /\ here m' rest /\ same m m'.
Proof.
  induction 1 as [|[f t] l Hf _ IH]; [done|]. intros _ m h x rest Hc Hx Hm. cbn [fmap list_fmap fst snd] in *. destruct l as [|ft l].
  - destruct (Hf SPACE m h x rest) as (m' & Er & Hr); [by right|done..|]. exists m'. by split.
  - set (ps := snd <$> ft :: l) in *. assert (commas (t :: ps) +:+ String SPACE rest = t +:+ String COMMA (commas ps +:+ String SPACE rest)) as E.
    { unfold ps. cbn [fmap list_fmap commas]. by rewrite !str_app_assoc. }
    change (t :: (ft :: l).*2) with (t :: ps) in *. rewrite E in *. clear E.
    destruct (Hf COMMA m h x (commas ps +:+ String SPACE rest)) as (m1 & Er & Hc1 & Hh1 & Hs1); [by left|done..|]. cbn [fst snd] in Er. rewrite Er.
    destruct (IH ltac:(done) m1 (with_metric h (with_field (FKey f) (FValue f) x)) (with_field (FKey f) (FValue f) x) rest) as (m' & Er' & Hc' & Hh' & Hs'); [by right|done|done|].
    exists m'. split; [exact Er'|]. split; [done|]. split; [done|]. by transitivity m1.
Qed.
End Fields.

(** ** Lines *)

(** The metric a line is read as: the name, the tags, the fields in the order of the line, the time. *)
Definition line_metric `{MapRange} (support : Z) (x : metric) (fs : list Field) : metric :=
  SetTime (tm x) (add_fields (omap (line_field support) fs)
    (add_tags (expressible (tags x)) (Metric.New (name x) ∅ ∅ RunningAggregator.zero_time []))).

(** What the format can express: names, tags and field keys that hold no control characters and no backslash, numbers that read back. *)
Record line_ok (x : metric) : Prop := {
  name_clean : clean (name x) = true;
  name_first : forall r, name x <> String (chr 35) r;
  name_some : name x <> EmptyString;
  tags_clean : Forall (fun t => clean (Key t) = true /\ clean (Value t) = true) (tags x);
  fields_good : Forall field_good (fields x);
  time_range : MinInt64 <= tm x <= MaxInt64;
}.

Section Lines.
Context `{MapRange}.

Lemma run_timestamp z m h x rest : MinInt64 <= z <= MaxInt64 -> timePrecision h = 1 -> hmetric h = Some x -> cs m = Space -> beginMetric m = true ->
  here m (FormatInt z +:+ String NL rest) ->
  exists m', run (FormatInt z +:+ String NL rest) m h = Ret (m', with_metric h (SetTime z x), None) /\ cs m' = Align /\ here m' rest /\ same m m'.
Proof.
  intros Hz Hp Hx Hc Hb Hm. destruct (timestamp_token z Hz) as [n Hn]. rewrite (run_token _ (Timestamp n) m h) by (by rewrite Hc). set (m1 := moved _ _ (begin m)).
  assert (text m1 = FormatInt z) as Et by (unfold m1; eapply text_moved; exact Hm).
  exists (advance Align (finish_metric (incr_newline m1))). split.
  - cbn [run_to negb]. change (read (cs m1) NL) with (Line [ATimestamp; ANewline]). cbn [perform_all perform]. unfold SetTimestamp. rewrite Et, ParseInt10_FormatInt, Hp, Z.mul_1_r by done.
    rewrite int64_small by done. by rewrite (on_metric_with _ _ _ Hx).
  - split; [done|]. split; [|done]. assert (here m1 (String NL rest)) as (pre & Hd & Hl) by (by apply here_moved). apply (here_advance NL). by exists pre.
Qed.

Lemma clean_tags x : line_ok x -> Forall clean_tag (expressible (tags x)) /\ foldl header_tag (nameEscape (name x)) (tags x) = nameEscape (name x) +:+ tags_text (expressible (tags x)).
Proof.
  intros Hx. pose proof (tags_clean x Hx) as Ht. split.
  - apply Forall_forall. intros t [[Nk Nv] Hin]%list_elem_of_filter. rewrite Forall_forall in Ht. destruct (Ht t Hin). by split_and!.
  - apply header_tags. eapply Forall_impl; [exact Ht|]. intros t [Hk Hv]. apply andb_true_iff. split; by apply clean_plain.
Qed.

Lemma Next_line support x fs m h rest : line_ok x -> Forall field_good fs -> omap (pair_text support) fs <> [] -> timePrecision h = 1 -> cs m = Align ->
  here m (line_of (header_text x) (footer_text x) (omap (pair_text support) fs) +:+ rest) ->
  exists m', Next m h = Ret (m', with_metric h (line_metric support x fs), None) /\ cs m' = Align /\ here m' rest /\ data m' = data m.
Proof.
  intros Hx Hfs Hne Hp Hc Hm. destruct (clean_tags x Hx) as [Ht Eh]. destruct (written_reads support fs Hfs) as (l & E1 & E2 & Hl).
  set (ps := omap (pair_text support) fs) in *.
  assert (line_of (header_text x) (footer_text x) ps +:+ rest = nameEscape (name x) +:+ (tags_text (expressible (tags x)) +:+ String SPACE (commas ps +:+ String SPACE (FormatInt (tm x) +:+ String NL rest)))) as E.
  { unfold line_of, header_text, footer_text. rewrite Eh, !str_app_assoc. done. }
  rewrite E in Hm. clear E. set (t3 := FormatInt (tm x) +:+ String NL rest) in *. set (t2 := commas ps +:+ String SPACE t3) in *. set (t1 := tags_text (expressible (tags x)) +:+ String SPACE t2) in *.
  pose proof (name_token (name x) (name_clean x Hx) (name_first x Hx) (name_some x Hx)) as Hn.
  unfold Next. rewrite (here_eof _ _ Hm), bool_decide_eq_false_2.
  2:{ destruct Hn as (c & r & ? & E & _). rewrite E. done. }
  unfold exec. assert (here (reset m) (nameEscape (name x) +:+ t1)) as Hm0 by done. rewrite (here_drop _ _ Hm0).
  rewrite (run_first _ _ (reset m) h t1 ltac:(cbn [reset cs]; rewrite Hc; exact Hn)). set (m1 := moved _ _ _).
  assert (here m1 t1) as H1 by (by apply here_moved).
  set (x0 := Metric.New (name x) ∅ ∅ RunningAggregator.zero_time []).
  destruct (run_tags _ Ht m1 h (with_metric h x0) x0 AName t2) as (m2 & E2' & Hc2 & Hh2 & Hs2); [by left| |done|exact H1|].
  { cbn [perform]. unfold SetMeasurement. assert (text m1 = nameEscape (name x)) as -> by (unfold m1; by apply (text_moved (Name false) _ (begin_metric (reset m)) t1)).
    rewrite nameEscape_replaces, nameUnescape_escape by (apply clean_plain, name_clean, Hx). done. }
  fold t1 in E2'. rewrite E2'. clear E2'.
  unfold t2 in Hh2 |- *. rewrite <- E2 in Hh2 |- *.
  destruct (run_fields l Hl) with (m := m2) (h := with_metric (with_metric h x0) (add_tags (expressible (tags x)) x0)) (x := add_tags (expressible (tags x)) x0) (rest := t3) as (m3 & -> & Hc3 & Hh3 & Hs3);
    [by intros ->; rewrite <- E2 in Hne|by left|done|exact Hh2|].
  unfold t3 in Hh3 |- *.
  destruct (run_timestamp (tm x) m3 (with_metric (with_metric (with_metric h x0) (add_tags (expressible (tags x)) x0)) (add_fields l.*1 (add_tags (expressible (tags x)) x0)))
    (add_fields l.*1 (add_tags (expressible (tags x)) x0)) rest) as (m4 & -> & Hc4 & Hh4 & Hs4); [apply time_range, Hx|done|done|done| |done|].
  { destruct Hs2 as (_ & _ & Hb2), Hs3 as (_ & _ & Hb3). rewrite Hb3, Hb2. done. }
  rewrite decide_False by (by rewrite Hc4). destruct Hs2 as (Hd2 & _ & Hb2), Hs3 as (Hd3 & _ & Hb3), Hs4 as (Hd4 & _ & Hb4).
  assert (beginMetric m4 = true) as -> by (rewrite Hb4, Hb3, Hb2; done). cbn [negb andb]. exists m4. split; [|split; [done|]; split; [done|]; by rewrite Hd4, Hd3, Hd2].
  rewrite E1. done.
Qed.
End Lines.

(** ** Batches *)

(** The line of a metric, when lines have no limit; without a pair there is none. *)
Definition one_line (s : Serializer) (x : metric) : string :=
  match written_pairs s x with [] => EmptyString | ps => line_of (header_text x) (footer_text x) ps end.
Definition settings (s s' : Serializer) : Prop :=
  maxLineBytes s' = maxLineBytes s /\ fieldTypeSupport s' = fieldTypeSupport s /\ fieldSortOrder s' = fieldSortOrder s.

Lemma writeMetric_one w x s : nameEscape (name x) <> EmptyString -> maxLineBytes s <= 0 ->
  exists e x' s', writeMetric w x s = (e, w +:+ one_line s x, x', s') /\ settings s s'.
Proof.
  intros Hn Hmx. destruct (writeMetric_named w x s Hn) as (s1 & (E1 & E2 & E3 & _) & Eh & Ef & ->). cbn [maxLineBytes fieldTypeSupport fieldSortOrder set_footer set_header] in *.
  pose proof (fields_loop_lines (written_fields s x) [] w s1 ltac:(by intros [])) as Hl. rewrite E2 in Hl. fold (written_pairs s x) in Hl.
  change (lens []) with 0 in Hl. change (is_nil (@nil string)) with true in Hl. change (open_of _ []) with EmptyString in Hl. rewrite str_app_nil_r in Hl.
  destruct (fields_loop _ 0 true w s1) as [[[e|first] w'] s']; destruct Hl as [(F1 & F2 & F3 & F4 & F5) (gs & _ & Hr)].
  - destruct Hr as (_ & _ & p & rest & _ & Hlong & _). lia.
  - destruct Hr as (cur & -> & _ & -> & Hps & Hgs & _). rewrite (Hgs ltac:(lia)) in *. cbn [app concat lines_of] in Hps. unfold one_line. rewrite Hps.
    destruct cur as [|q cur]; cbn [is_nil open_of].
    + eexists _, _, s'. split; [reflexivity|]. unfold settings. rewrite F1, F2, F3. done.
    + unfold write. eexists _, _, _. split.
      * rewrite F5, Ef, Eh. cbn [lines_of]. unfold line_of. change (EmptyString +:+ ?u) with u. rewrite !str_app_assoc. reflexivity.
      * unfold settings. cbn [maxLineBytes fieldTypeSupport fieldSortOrder set_written]. by rewrite F1, F2, F3.
Qed.

Fixpoint batch_text (s : Serializer) (xs : list metric) : string :=
  match xs with [] => EmptyString | x :: xs => one_line s x +:+ batch_text s xs end.

Lemma batch_loop_text xs : forall w s, Forall (fun x => nameEscape (name x) <> EmptyString) xs -> maxLineBytes s <= 0 ->
  (batch_loop xs w s).1.1 = w +:+ batch_text s xs.
Proof.
  induction xs as [|x xs IH]; intros w s Hx Hmx; [cbn; by rewrite str_app_nil_r|]. apply Forall_cons in Hx as [Hn Hx]. cbn [batch_loop].
  destruct (writeMetric_one w x s Hn Hmx) as (e & x' & s' & E & (S1 & S2 & S3)). unfold Write. rewrite E. specialize (IH (w +:+ one_line s x) s' Hx ltac:(lia)).
  destruct (batch_loop xs _ s') as [[w2 xs2] s2]. cbn [fst] in *. rewrite IH. cbn [batch_text]. rewrite str_app_assoc. do 2 f_equal.
  clear -S2 S3. induction xs as [|y ys IHy]; [done|]. cbn [batch_text]. rewrite IHy. f_equal. unfold one_line, written_pairs, written_fields. by rewrite S2, S3.
Qed.

(** ** The metrics that are read *)

Lemma addTag_last k v ts : Forall (fun t => str_lt (Key t) k) ts -> addTag k v ts = ts ++ [mkTag k v].
Proof. induction 1 as [|t ts Ht _ IH]; [done|]. cbn [addTag]. rewrite Ht, IH. done. Qed.
Lemma addField_last k v fs : k ∉ FKey <$> fs -> addField k v fs = fs ++ [mkField k v].
Proof.
  induction fs as [|f fs IH]; [done|]. cbn [fmap list_fmap addField]. rewrite elem_of_cons. intros Hk. rewrite decide_False by naive_solver. by rewrite IH by naive_solver.
Qed.

Lemma add_tags_sorted ts : forall x, tags_wf (tags x ++ ts) -> add_tags ts x = set_tags (tags x ++ ts) x.
Proof.
  induction ts as [|t ts IH]; intros x Hw; [rewrite app_nil_r; by destruct x|]. cbn [add_tags foldl]. fold (add_tags ts (AddTag (Key t) (Value t) x)).
  assert (addTag (Key t) (Value t) (tags x) = tags x ++ [t]) as Et.
  { rewrite addTag_last; [by destruct t|]. apply Forall_forall. intros t' Ht'. unfold tags_wf in Hw. apply (StronglySorted_app_1_elem_of (key_lt Key) (tags x) (t :: ts) t' t Hw); [done|by left]. }
  rewrite IH; unfold AddTag; rewrite Et; cbn [tags set_tags]; rewrite <- app_assoc; done.
Qed.
Lemma add_fields_new fs : forall x, NoDup (FKey <$> (fields x ++ fs)) -> Forall (fun f => FValue f <> VNil) fs -> add_fields fs x = set_fields (fields x ++ fs) x.
Proof.
  induction fs as [|f fs IH]; intros x Hn Hv; [rewrite app_nil_r; by destruct x|]. apply Forall_cons in Hv as [Hf Hv]. cbn [add_fields foldl]. fold (add_fields fs (with_field (FKey f) (FValue f) x)).
  assert (addField (FKey f) (convertField (go_of_val (FValue f))) (fields x) = fields x ++ [f]) as Ef.
  { assert (convertField (go_of_val (FValue f)) = FValue f) as -> by (by destruct (FValue f)). rewrite addField_last; [by destruct f|].
    rewrite fmap_app in Hn. apply NoDup_app in Hn as (_ & Hd & _). intros Hin. apply (Hd _ Hin). cbn. by left. }
  rewrite IH; [|unfold with_field, AddField; rewrite Ef; cbn [fields set_fields]; by rewrite <- app_assoc|done].
  unfold with_field, AddField. rewrite Ef. cbn [fields set_fields]. by rewrite <- app_assoc.
Qed.

Section Roundtrip.
Context `{MapRange} {W : Type} `{ClockEnv W}.

Lemma New_empty nm t : Metric.New nm ∅ ∅ t [] = mkMetric nm [] [] t Untyped false.
Proof.
  unfold Metric.New. assert (range_map (∅ : gmap string string) = []) as -> by (apply Permutation_nil_r; rewrite range_map_perm; by rewrite map_to_list_empty).
  assert (range_map (∅ : gmap string GoVal) = []) as -> by (apply Permutation_nil_r; rewrite range_map_perm; by rewrite map_to_list_empty). done.
Qed.

(** The metric that is read for a metric, if it has a line. *)
Definition read_metric (s : Serializer) (x : metric) : option metric :=
  match omap (line_field (fieldTypeSupport s)) (written_fields s x) with
  | [] => None
  | fs => Some (mkMetric (name x) (expressible (tags x)) fs (tm x) Untyped false)
  end.

Lemma written_fields_perm s x : written_fields s x ≡ₚ fields x.
Proof. unfold written_fields. destruct (fieldSortOrder s); [done|apply sort_by_perm]. Qed.
Lemma written_good s x : line_ok x -> Forall field_good (written_fields s x).
Proof. intros Hx. rewrite written_fields_perm. by apply fields_good. Qed.
Lemma written_keys s x support : wf x -> NoDup (FKey <$> omap (line_field support) (written_fields s x)).
Proof.
  intros [_ Hn]. rewrite <- (written_fields_perm s x) in Hn. induction (written_fields s x) as [|f fs IH]; [apply NoDup_nil_2|]. cbn [fmap list_fmap] in Hn. apply NoDup_cons in Hn as [Hf Hn].
  cbn [omap list_omap]. destruct (line_field support f) as [f'|] eqn:E; [|by apply IH]. cbn [fmap list_fmap]. apply NoDup_cons. split; [|by apply IH].
  assert (FKey f' = FKey f) as -> by (unfold line_field in E; case_decide; [done|]; by destruct (line_value _ _); [injection E as <-|]).
  intros (g & Eg & (f0 & Hin & E0)%list_elem_of_omap)%list_elem_of_fmap. apply Hf. apply list_elem_of_fmap. exists f0. split; [|done]. rewrite Eg.
  unfold line_field in E0. case_decide; [done|]. by destruct (line_value _ _); [injection E0 as <-|].
Qed.

Lemma line_metric_eq s x : wf x -> line_metric (fieldTypeSupport s) x (written_fields s x) =
  mkMetric (name x) (expressible (tags x)) (omap (line_field (fieldTypeSupport s)) (written_fields s x)) (tm x) Untyped false.
Proof.
  intros Hw. unfold line_metric. rewrite New_empty, add_tags_sorted.
  2:{ cbn [tags app]. destruct Hw as [Ht _]. unfold tags_wf. eapply (key_sorted_sublist Key); [|exact Ht]. apply sublist_filter. }
  rewrite add_fields_new; [done|by apply written_keys|]. cbn [fields]. apply Forall_forall. intros f (f0 & _ & E0)%list_elem_of_omap. unfold line_field in E0. case_decide; [done|].
  destruct (line_value _ (FValue f0)) as [v|] eqn:E; [|done]. injection E0 as <-. cbn [FValue]. intros ->. destruct (FValue f0); cbn [line_value] in E; repeat case_match; done.
Qed.

Lemma parse_lines s xs : Forall (fun x => wf x /\ line_ok x) xs -> forall fuel m h (w : W) ms, here m (batch_text s xs) -> cs m = Align -> timePrecision h = 1 ->
  (String.length (batch_text s xs) < fuel)%nat -> exists m' h', parse_loop fuel m h w ms = Metrics (ms ++ omap (read_metric s) xs) m' h' w.
Proof.
  induction 1 as [|x xs [Hw Hx] _ IH]; intros fuel m h w ms Hm Hc Hp Hf; (destruct fuel as [|fuel]; [cbn in Hf; lia|]).
  - cbn [parse_loop]. unfold Next. rewrite (here_eof _ _ Hm), bool_decide_eq_true_2 by done. rewrite decide_True by done. cbn [omap list_omap]. rewrite app_nil_r. eauto.
  - cbn [batch_text] in *. destruct (written_reads (fieldTypeSupport s) (written_fields s x) (written_good s x Hx)) as (l & E1 & E2 & _).
    unfold one_line, written_pairs in *. destruct (omap (pair_text _) (written_fields s x)) as [|q ps] eqn:Eps.
    + assert (omap (line_field (fieldTypeSupport s)) (written_fields s x) = []) as En by (rewrite <- E1; by destruct l).
      cbn [omap list_omap]. unfold read_metric at 1. rewrite En. by apply IH.
    + assert (exists f fs, omap (line_field (fieldTypeSupport s)) (written_fields s x) = f :: fs) as (f & fs & En) by (rewrite <- E1; destruct l; [done|]; eauto).
      rewrite <- Eps in Hm, Hf. destruct (Next_line (fieldTypeSupport s) x (written_fields s x) m h (batch_text s xs) Hx (written_good s x Hx) ltac:(by rewrite Eps) Hp Hc Hm) as (m1 & En1 & Hc1 & Hh1 & _).
      rewrite (line_metric_eq s x Hw) in En1. cbn [parse_loop]. rewrite En1. unfold Metric_. cbn [with_metric hmetric mbind option_bind tm].
      rewrite (proj2 (Z.eqb_neq _ _)) by (pose proof (time_range x Hx); unfold RunningAggregator.zero_time, MinInt64, MaxInt64 in *; lia).
      destruct (IH fuel m1 (with_metric h (mkMetric (name x) (expressible (tags x)) (omap (line_field (fieldTypeSupport s)) (written_fields s x)) (tm x) Untyped false)) w
        (ms ++ [mkMetric (name x) (expressible (tags x)) (omap (line_field (fieldTypeSupport s)) (written_fields s x)) (tm x) Untyped false]) Hh1 Hc1 Hp) as (m' & h' & Er).
      { rewrite str_length_app in Hf. unfold line_of, footer_text in Hf. rewrite !str_length_app in Hf. cbn [String.length one] in Hf. lia. }
      exists m', h'. rewrite Er. rewrite <- app_assoc. cbn [omap list_omap app]. unfold read_metric at 2. by rewrite En.
Qed.

(** C23: a batch written in the line protocol is read back. For well-formed metrics whose names, tags and field keys hold no control
    character and no backslash and whose floats their texts give back, whatever a parser has read before: [Parse] of the text of [SerializeBatch],
    without a limit of the line length, gives exactly one metric for each metric that has a serializable field, in the
    same order: the same name, the tags with a key and a value, the fields with a key in the order they were written with the same
    values, the same time. Unsigned integers become integers, cut at the largest, unless the serializer supports them. *)
Theorem LineProtocol_roundtrip (xs : list metric) (s : Serializer) (ps : Parser) (w : W) (Hx : Forall (fun x => wf x /\ line_ok x) xs) (Hs : maxLineBytes s <= 0)
    (Hp : initState (pmachine ps) = Align /\ timePrecision (handler ps) = 1 /\ DefaultTags ps = ∅) :
  exists ps', Parse (SerializeBatch xs s).1.1 ps w = Ret (inl (omap (read_metric s) xs), ps', w).
Proof.
  destruct Hp as (Hi & Ht & Hd). unfold SerializeBatch. rewrite batch_loop_text; [|eapply Forall_impl; [exact Hx|]; intros x [_ Hok]|done].
  2:{ rewrite nameEscape_replaces, (replace_bytes_empty _ _ _ nameEscaper_delimits (clean_plain _ (name_clean x Hok))). by apply name_some. }
  change (EmptyString +:+ batch_text s xs) with (batch_text s xs). unfold Parse.
  destruct (parse_lines s xs Hx (S (String.length (batch_text s xs))) (SetData (batch_text s xs) (pmachine ps)) (handler ps) w [] (here_SetData _ _) Hi Ht ltac:(lia)) as (m' & h' & ->).
  rewrite Hd. unfold applyDefaultTags. rewrite decide_True by done. eexists. reflexivity.
Qed.
End Roundtrip.

(** ** Examples *)

#[local] Instance ex_clock : ClockEnv Z := fun w => (w, w + 1).
#[local] Existing Instance map_range_default.
Definition ex_new : Parser := NewParser NewMetricHandler.
Definition ex_disk : metric :=
  mkMetric "disk io" [mkTag "host" "a=b"; mkTag "none" EmptyString] [mkField "free" (VFloat (f_frac 3 2)); mkField "used" (VUint 7); mkField "note" (VString (String "010" (one QUOTE)));
    mkField "lost" (VFloat S754_nan)] (-5) Gauge false.
Definition ex_void : metric := mkMetric "void" [] [mkField "x" VNil] 7 Untyped false.

Lemma LineProtocol_returns_witness :
  initState (pmachine ex_new) = Align /\ match Parse "cpu x=1i" ex_new 0 with Ret _ => True | Panics => hmetric (handler ex_new) = None /\ ends_bslash "cpu x=1i" | Ambiguous => has_vt "cpu x=1i" = true end.
Proof. split; [reflexivity|]. exact (LineProtocol_returns "cpu x=1i" ex_new 0 (or_introl eq_refl)). Defined.

Lemma ex_lines_ok : Forall (fun x => wf x /\ line_ok x) [ex_disk; ex_void].
Proof.
  assert (forall x r, name x = String "d" r \/ name x = String "v" r -> forall r', name x <> String (chr 35) r') as Hn by (by intros x r [-> | ->] r').
  repeat constructor; try done; try (apply (bool_decide_unpack _); vm_compute; exact I); try (vm_compute; reflexivity).
Qed.
Lemma LineProtocol_roundtrip_witness :
  exists ps', Parse (SerializeBatch [ex_disk; ex_void] NewSerializer).1.1 ex_new 0 = Ret (inl (omap (read_metric NewSerializer) [ex_disk; ex_void]), ps', 0).
Proof. apply (LineProtocol_roundtrip [ex_disk; ex_void] NewSerializer ex_new 0 ex_lines_ok); [done|by split_and!]. Defined.
Lemma ex_read_metric : omap (read_metric NewSerializer) [ex_disk; ex_void] =
  [mkMetric "disk io" [mkTag "host" "a=b"] [mkField "free" (VFloat (f_frac 3 2)); mkField "used" (VInt 7); mkField "note" (VString (String "010" (one QUOTE)))] (-5) Untyped false].
Proof. vm_compute. reflexivity. Qed.

(** A name that ends with the text in a backslash is taken for a line although there is no metric: the parser panics, and a parser that has read a
    metric gives that one again. *)
Lemma trailing_backslash_panics : Parse "cpu\" ex_new 0 = Panics.
Proof. vm_compute. reflexivity. Qed.
Lemma trailing_backslash_repeats :
  match Parse "a x=1u 5" ex_new 0 with
  | Ret (inl [x], ps, w) => exists ps', Parse "cpu\" ps w = Ret (inl [x], ps', w)
  | _ => False
  end.
Proof. vm_compute. eexists. reflexivity. Qed.

(** The exponent may have a quote for its sign; the handler then refuses the number. *)
Lemma quote_in_exponent : match Parse ("a x=1e" +:+ one QUOTE +:+ "5") ex_new 0 with Ret (inr e, _, _) => msg e = EHandler EFloatNum /\ EColumn e = 9 | _ => False end.
Proof. vm_compute. done. Qed.

(** Errors have the line and the column of the byte that does not fit. *)
Lemma error_position : match Parse ("a x=1" +:+ one NL +:+ "b,c x=1") ex_new 0 with Ret (inr e, _, _) =>
    msg e = ErrTagParse /\ ELineNumber e = 2 /\ EColumn e = 4 /\ error_line e = "b,c x=1" | _ => False end.
Proof. vm_compute. done. Qed.
