(* ===== verification/LineStream.v ===== *)
(** * The line protocol from a stream

    [plugins/parsers/influx]: the [streamMachine] of [machine.go.rl] and the [StreamParser] of [parser.go]. The reader is a parameter; the data of the machine are the
    bytes of the buffer that are filled, and its capacity is kept beside them. *)

From Stdlib Require Import Ascii.
From S2P Require Import Prelude Float64 Strconv Strings Parse Metric Filter Converter Running Processors Agent Influx Digits LineProtocol LineProtocolSpec.

(** [io.Reader]: at most that many bytes, and whether there is an error. *)
Inductive ReadErr := REOF | ROther (e : string).
#[export] Instance ReadErr_eq_dec : EqDecision ReadErr.
Proof. solve_decision. Defined.
Class Reader (R : Type) := {
  Read : nat -> R -> string * option ReadErr * R;
  Read_fits : forall n r, (String.length (Read n r).1.1 <= n)%nat;
}.

Record streamMachine (R : Type) := mkStream { smachine : machine; capacity : nat; eof : option nat; reader : R }.
#[global] Arguments mkStream {R}.
#[global] Arguments smachine {R}.
#[global] Arguments capacity {R}.
#[global] Arguments eof {R}.
#[global] Arguments reader {R}.

Inductive SErr := SMachine (e : MErr) | SRead (e : string).

(** [Running]: the rounds did not suffice. *)
Inductive stream_result (R : Type) := SRet (m : streamMachine R) (h : MetricHandler) (e : option SErr) | SPanics | SAmbiguous | SRunning.
#[global] Arguments SRet {R}.
#[global] Arguments SPanics {R}.
#[global] Arguments SAmbiguous {R}.
#[global] Arguments SRunning {R}.

Section Stream.
Context `{MapRange} {R : Type} `{Reader R}.

Definition NewStreamMachine (r : R) : streamMachine R := mkStream (SetData EmptyString NewMachine) 1024 None r.

Definition pe (m : machine) : nat := String.length (data m).
Definition at_stream_end (s : streamMachine R) : bool := (p (smachine s) =? pe (smachine s))%nat && bool_decide (eof s = Some (pe (smachine s))).

Definition set_data (d : string) (m : machine) : machine :=
  mkMachine d (cs m) (p m) (pb m) (lineno m) (sol m) (initState m) (key m) (beginMetric m) (finishMetric m).
(** What was read is removed from the front of the buffer. *)
Definition shift (m : machine) : machine :=
  mkMachine (str_drop (p m) (data m)) (cs m) 0 0 (lineno m) (sol m - Z.of_nat (p m)) (initState m) EmptyString false false.

(** [exec] on what the buffer holds. *)
Definition stream_exec (s : streamMachine R) (h : MetricHandler) : stream_result R :=
  let m := smachine s in
  let with_m m := mkStream m (capacity s) (eof s) (reader s) in
  match run_to (bool_decide (eof s = Some (pe m))) (str_drop (p m) (data m)) m h with
  | Panics => SPanics
  | Ambiguous => SAmbiguous
  | Ret (m, h, Some e) => SRet (with_m m) h (Some (SMachine e))
  | Ret (m, h, None) =>
    if decide (cs m = ErrorState) then SRet (with_m (set_cs Discard m)) h (Some (SMachine ErrParse))
    else if negb (beginMetric m) && at_stream_end (with_m m) then SRet (with_m m) h (Some (SMachine EOF))
    else SRet (with_m m) h None
  end.

(** The loop of [Next]: a full buffer is doubled, a block is read, the machine runs on it. *)
Fixpoint next_loop (fuel : nat) (s : streamMachine R) (h : MetricHandler) : stream_result R :=
  match fuel with
  | O => SRunning
  | S fuel =>
    let m := smachine s in
    let cap := if (pe m =? capacity s)%nat then (2 * capacity s)%nat else capacity s in
    let '(block, e, r) := Read (cap - pe m) (reader s) in
    match (if bool_decide (block = EmptyString) && bool_decide (e = Some REOF) then inl (Some (pe m))
           else match e with Some (ROther e) => inr e | _ => inl (eof s) end) with
    | inr e => SRet (mkStream (mkMachine (data m) (cs m) (pe m) (pb m) (lineno m) (sol m) (initState m) (key m) (beginMetric m) (finishMetric m)) cap (Some (pe m)) r) h (Some (SRead e))
    | inl eof =>
      match stream_exec (mkStream (set_data (data m +:+ block) m) cap eof r) h with
      | SRet s h None => if finishMetric (smachine s) then SRet s h None else next_loop fuel s h
      | r => r
      end
    end
  end.

Definition SNext (fuel : nat) (s : streamMachine R) (h : MetricHandler) : stream_result R :=
  if at_stream_end s then SRet s h (Some (SMachine EOF))
  else next_loop fuel (mkStream (shift (smachine s)) (capacity s) None (reader s)) h.

(** ** [StreamParser] *)

Record StreamParser := mkStreamParser { stream : streamMachine R; shandler : MetricHandler }.
Definition NewStreamParser (r : R) : StreamParser := mkStreamParser (NewStreamMachine r) NewMetricHandler.
Definition SSetTimePrecision (u : Z) (ps : StreamParser) : StreamParser := mkStreamParser (stream ps) (SetTimePrecision u (shandler ps)).
Definition LineText (s : streamMachine R) : string := str_take (p (smachine s)) (data (smachine s)).

Inductive StreamErr := StreamEOF | StreamRead (e : string) | StreamParse (e : ParseError).
Inductive stream_next {W : Type} := NRet (r : metric + StreamErr) (ps : StreamParser) (w : W) | NPanics | NAmbiguous | NRunning.

Definition Next {W} `{ClockEnv W} (fuel : nat) (ps : StreamParser) (w : W) : stream_next (W := W) :=
  match SNext fuel (stream ps) (shandler ps) with
  | SPanics => NPanics
  | SAmbiguous => NAmbiguous
  | SRunning => NRunning
  | SRet s h (Some (SMachine EOF)) => NRet (inr StreamEOF) (mkStreamParser s h) w
  | SRet s h (Some (SRead e)) => NRet (inr (StreamRead e)) (mkStreamParser s h) w
  | SRet s h (Some (SMachine e)) =>
    let m := smachine s in NRet (inr (StreamParse (mkParseError (Position m) (LineOffset m) (LineNumber m) (Column m) e (LineText s)))) (mkStreamParser s h) w
  | SRet s h None =>
    match Metric_ h w with None => NPanics | Some (x, h, w) => NRet (inl x) (mkStreamParser s h) w end
  end.
End Stream.

(** ** Blocks *)

Lemma take_prefix n d x : (n <= String.length d)%nat -> str_take n (d +:+ x) = str_take n d.
Proof.
  revert n. induction d as [|c d IH]; intros n Hn; cbn [String.length] in Hn.
  - replace n with 0%nat by lia. by destruct x.
  - change (String c d +:+ x) with (String c (d +:+ x)). destruct n as [|n]; [done|]. unfold str_take in *. cbn [String.substring]. by rewrite IH by lia.
Qed.
Lemma str_drop_cons n c d : str_drop (S n) (String c d) = str_drop n d.
Proof. done. Qed.
Lemma drop_prefix n d x : (n <= String.length d)%nat -> str_drop n (d +:+ x) = str_drop n d +:+ x.
Proof.
  revert n. induction d as [|c d IH]; intros n Hn; cbn [String.length] in Hn.
  - replace n with 0%nat by lia. pose proof (str_drop_length_app EmptyString x) as E. exact E.
  - change (String c d +:+ x) with (String c (d +:+ x)). destruct n as [|n]; [|rewrite !str_drop_cons; by apply IH; lia].
    pose proof (str_drop_length_app EmptyString (String c (d +:+ x))) as E1. pose proof (str_drop_length_app EmptyString (String c d)) as E2.
    change (String.length EmptyString) with 0%nat in *. change (EmptyString +:+ ?s) with s in *. by rewrite E1, E2.
Qed.
Lemma drop_length n d : (n <= String.length d)%nat -> String.length (str_drop n d) = (String.length d - n)%nat.
Proof.
  revert n. induction d as [|c d IH]; intros n Hn; cbn [String.length] in *; [by replace n with 0%nat by lia|]. destruct n as [|n].
  - pose proof (str_drop_length_app EmptyString (String c d)) as E. change (String.length EmptyString) with 0%nat in E. change (EmptyString +:+ ?s) with s in E. by rewrite E.
  - rewrite str_drop_cons, IH by lia. lia.
Qed.

Section Blocks.
Context `{MapRange}.

(** More text behind what is there. *)
Definition extend (x : string) (m : machine) : machine := set_data (data m +:+ x) m.
Definition extend_result (x : string) (r : result (machine * MetricHandler * option MErr)) : result (machine * MetricHandler * option MErr) :=
  match r with Ret (m, h, e) => Ret (extend x m, h, e) | r => r end.

Lemma text_extend x m : (p m <= String.length (data m))%nat -> text (extend x m) = text m.
Proof.
  intros Hp. unfold text, extend, set_data. cbn [pb p data]. destruct (decide (pb m <= p m)%nat) as [Hb|Hb].
  - rewrite drop_prefix by lia. apply take_prefix. rewrite drop_length by lia. lia.
  - replace (p m - pb m)%nat with 0%nat by lia. unfold str_take. by destruct (str_drop _ (data m +:+ x)), (str_drop _ (data m)).
Qed.

Lemma perform_extend a x m h : (p m <= String.length (data m))%nat ->
  perform a (extend x m) h = (fun r => (extend x r.1.1, r.1.2, r.2)) <$> perform a m h /\
  match perform a m h with Some (m', _, _) => p m' = p m /\ data m' = data m /\ cs m' = cs m /\ (a <> AFinish -> finishMetric m' = finishMetric m) | None => True end.
Proof.
  intros Hp. pose proof (text_extend x m Hp) as Et. destruct a; cbn [perform]; rewrite ?Et; change (key (extend x m)) with (key m); try done;
    match goal with |- context [mbind _ ?r] => destruct r as [[h' e]|] end; done.
Qed.

Lemma perform_all_extend l x : forall m h, (p m <= String.length (data m))%nat ->
  perform_all l (extend x m) h = (fun r => (extend x r.1.1, r.1.2, r.2)) <$> perform_all l m h /\
  match perform_all l m h with Some (m', _, _) => p m' = p m /\ data m' = data m /\ cs m' = cs m /\ (AFinish ∉ l -> finishMetric m' = finishMetric m) | None => True end.
Proof.
  induction l as [|a l IH]; intros m h Hp; [done|]. cbn [perform_all]. destruct (perform_extend a x m h Hp) as [E Hk]. rewrite E.
  destruct (perform a m h) as [[[m' h'] e]|]; [|done]. destruct Hk as (Hp' & Hd & Hc & Hf). cbn [fmap option_fmap option_map mbind option_bind fst snd]. destruct e as [e|].
  - split; [done|]. split_and!; try done. rewrite elem_of_cons. intros Hl. apply Hf. naive_solver.
  - destruct (IH m' h') as [E' Hk']; [by rewrite Hp', Hd|]. split; [exact E'|]. destruct (perform_all l m' h') as [[[m'' h''] e'']|]; [|done].
    destruct Hk' as (Hp'' & Hd'' & Hc'' & Hf''). split_and!; [congruence..|]. rewrite elem_of_cons. intros Hl. rewrite Hf'', Hf by naive_solver. done.
Qed.

(** The machine looks at nothing behind the text it is on. *)
Lemma run_extend x a : forall m h, here m a -> run_to false a (extend x m) h = extend_result x (run_to false a m h).
Proof.
  induction a as [|c a IH]; intros m h Hm; [done|]. cbn [run_to]. change (cs (extend x m)) with (cs m).
  assert (p m <= String.length (data m))%nat as Hp by (destruct Hm as (pre & -> & ->); rewrite str_length_app; lia).
  destruct (read (cs m) c) as [l s|s|l|e| |]; try done; destruct (perform_all_extend l x m h Hp) as [E Hk]; rewrite E; (destruct (perform_all l m h) as [[[m' h'] [e|]]|]; try done).
  cbn [fmap option_fmap option_map fst snd]. change (advance s (extend x m')) with (extend x (advance s m')). apply IH. destruct Hk as (Hp' & Hd & _). by apply (here_advance c), (here_eq m).
Qed.

(** The states of a machine for whole lines that has not failed. *)
Definition lines (s : state) : bool :=
  match s with ErrorState | Main | SeriesStart | Name true | NameEsc true | TagKeyStart true | TagKey true | TagKeyEsc true | TagValueStart true | TagValue true | TagValueEsc true => false | _ => true end.
Lemma lines_error s : lines s = true -> s <> ErrorState.
Proof. by intros ? ->. Qed.

Lemma read_finish s c : match read s c with To l s' => AFinish ∉ l /\ (lines s = true -> lines s' = true) | _ => True end.
Proof. split_step; try done. all: split; [apply (bool_decide_unpack _); vm_compute; exact I|first [done|by repeat case_match]]. Qed.

(** Whether a run has ended before the text. *)
Definition stopped (m : machine) (e : option MErr) : bool := bool_decide (is_Some e) || bool_decide (cs m = ErrorState) || finishMetric m.

(** A text is read in two parts as in one. *)
Lemma run_split last a b : forall m h, lines (cs m) = true -> finishMetric m = false -> here m (a +:+ b) ->
  run_to last (a +:+ b) m h = match run_to false a m h with
    | Ret (m', h', e) => if stopped m' e then Ret (m', h', e) else run_to last b m' h'
    | r => r
    end /\
  match run_to false a m h with
  | Ret (m', h', e) => if stopped m' e then True else here m' b /\ lines (cs m') = true /\ finishMetric m' = false /\ data m' = data m
  | _ => True
  end.
Proof.
  induction a as [|c a IH]; intros m h Hc Hf Hm.
  - change (EmptyString +:+ b) with b in *. cbn [run_to negb]. unfold stopped. rewrite (bool_decide_eq_false_2 (is_Some None)) by (by intros [? ?]). rewrite bool_decide_eq_false_2, Hf by (by apply lines_error). done.
  - change (String c a +:+ b) with (String c (a +:+ b)) in *. cbn [run_to].
    assert (p m <= String.length (data m))%nat as Hp by (destruct Hm as (pre & -> & ->); rewrite str_length_app; lia).
    assert (forall m' e, stopped m' (Some e) = true) as Hse by (intros; unfold stopped; by rewrite bool_decide_eq_true_2 by eauto).
    pose proof (read_finish (cs m) c) as Hr. destruct (read (cs m) c) as [l s|s|l|e| |]; try (by rewrite ?Hse).
    + destruct Hr as [Hl Hs]. destruct (perform_all_extend l EmptyString m h Hp) as [_ Hk]. destruct (perform_all l m h) as [[[m' h'] [e|]]|]; [by rewrite Hse| |done].
      destruct Hk as (Hp' & Hd & Hc' & Hf'). destruct (IH (advance s m') h') as [E Hi]; [by apply Hs|cbn; by rewrite Hf'|by apply (here_advance c), (here_eq m)|].
      split; [exact E|]. destruct (run_to false a (advance s m') h') as [[[m2 h2] e2]| |]; try done. destruct (stopped m2 e2); [done|]. destruct Hi as (? & ? & ? & Hd2). split_and!; try done. by rewrite Hd2.
    + destruct (perform_all l m h) as [[[m' h'] [e|]]|]; [by rewrite Hse| |done]. unfold stopped. cbn [advance finish_metric finishMetric]. by rewrite orb_true_r.
Qed.
End Blocks.

(** ** A stream is read as the whole text *)

(** A reader of a text: what it gives is the text, in blocks, and the end is reported with no bytes. *)
Class FiniteReader (R : Type) `{Reader R} := {
  content : R -> string;
  Read_content : forall n r, (0 < n)%nat -> let '(b, e, r') := Read n r in content r = b +:+ content r' /\
    (b = EmptyString -> content r = EmptyString /\ e = Some REOF) /\ (forall x, e <> Some (ROther x));
}.

Section Whole.
Context `{MapRange} {R : Type} `{FiniteReader R}.

Lemma read_begin s c : match read s c with
  | To l s' => idle s = true -> idle s' = true \/ ABeginMetric ∈ l
  | Line _ => idle s = false
  | _ => True
  end.
Proof. split_step; try done. all: intros _; first [by left|by right; left|done]. Qed.

(** A metric has begun, outside of the states between metrics. *)
Definition begun (m : machine) : Prop := idle (cs m) = true \/ beginMetric m = true.

(** A mark that one action sets and none clears. *)
Lemma perform_all_mark (mark : machine -> bool) (a0 : action) : (forall a m h, match perform a m h with Some (m', _, _) => (mark m = true -> mark m' = true) /\ (a = a0 -> mark m' = true) | None => True end) ->
  forall l m h, match perform_all l m h with
  | Some (m', _, e) => (mark m = true -> mark m' = true) /\ (e = None -> a0 ∈ l -> mark m' = true)
  | None => True
  end.
Proof.
  intros Hone. induction l as [|a l IH]; intros m h; [split; [done|]; intros _ Hin; by apply not_elem_of_nil in Hin|]. cbn [perform_all]. specialize (Hone a m h).
  destruct (perform a m h) as [[[m' h'] [e|]]|]; binds; [|specialize (IH m' h'); destruct (perform_all l m' h') as [[[m2 h2] e2]|]|]; try done.
  - by destruct Hone.
  - destruct Hone as [Ha1 Ha2], IH as [Hi1 Hi2]. split; [by auto|]. intros He. rewrite elem_of_cons. intros [Hin|Hin]; auto.
Qed.
Lemma perform_all_begin l m h : match perform_all l m h with
  | Some (m', _, e) => (beginMetric m = true -> beginMetric m' = true) /\ (e = None -> ABeginMetric ∈ l -> beginMetric m' = true)
  | None => True
  end.
Proof. apply (perform_all_mark beginMetric). intros a m' h'. destruct a; cbn [perform]; try done; by match goal with |- context [mbind _ ?r] => destruct r as [[? ?]|] end. Qed.
Lemma perform_all_finish l m h : match perform_all l m h with
  | Some (m', _, e) => (finishMetric m = true -> finishMetric m' = true) /\ (e = None -> AFinish ∈ l -> finishMetric m' = true)
  | None => True
  end.
Proof. apply (perform_all_mark finishMetric). intros a m' h'. destruct a; cbn [perform]; try done; by match goal with |- context [mbind _ ?r] => destruct r as [[? ?]|] end. Qed.

Lemma run_begun last a : forall m h, begun m -> finishMetric m = false -> (p m <= String.length (data m))%nat -> here m a ->
  match run_to last a m h with
  | Ret (m', _, e) => data m' = data m /\ (last = false -> (finishMetric m' = true -> beginMetric m' = true) /\ (stopped m' e = false -> begun m'))
  | _ => True
  end.
Proof.
  induction a as [|c a IH]; intros m h Hb Hf Hp Hm; cbn [run_to].
  - destruct last; cbn [negb]; [|split; [done|]; intros _; split; [congruence|done]]. destruct (at_end (cs m)) as [l e]. destruct (perform_all_extend l EmptyString m h Hp) as [_ Hk].
    destruct (perform_all l m h) as [[[m' h'] [e'|]]|]; try done; destruct Hk as (_ & Hd & _); split; try done; by destruct e.
  - pose proof (read_begin (cs m) c) as Hr. pose proof (read_finish (cs m) c) as Hrf. destruct (read (cs m) c) as [l s|s|l|e| |]; try done.
    2,4,5: split; [done|]; intros _; split; [cbn [set_cs finishMetric]; congruence|]; unfold stopped; cbn [set_cs cs]; by rewrite ?orb_true_r, ?(bool_decide_eq_true_2 (ErrorState = ErrorState)), ?orb_true_r by done.
    1,2: destruct (perform_all_extend l EmptyString m h Hp) as [_ Hk]; pose proof (perform_all_begin l m h) as Hpb; destruct (perform_all l m h) as [[[m' h'] [e|]]|]; try done; destruct Hk as (Hp' & Hd & Hc & Hfin), Hpb as [Hpb1 Hpb2].
    1,3: split; [done|]; intros _; unfold stopped; rewrite bool_decide_eq_true_2 by eauto; split; [|done]; cbn [set_cs finishMetric beginMetric].
    + destruct Hrf as [Hl _]. rewrite Hfin by done. congruence.
    + intros _. apply Hpb1. destruct Hb as [Hb|Hb]; [congruence|done].
    + destruct Hrf as [Hl _]. specialize (IH (advance s m') h'). cbn [advance data p cs finishMetric beginMetric] in IH. rewrite Hd in IH.
      destruct (run_to last a (advance s m') h') as [[[m2 h2] e2]| |]; try done. apply IH.
      * unfold begun. cbn [advance cs beginMetric]. destruct Hb as [Hb|Hb]; [|right; by apply Hpb1]. destruct (Hr Hb); [by left|right; by apply Hpb2].
      * by rewrite Hfin.
      * rewrite Hp'. destruct Hm as (pre & -> & ->). rewrite str_length_app. cbn. lia.
      * by apply (here_advance c), (here_eq m).
    + split; [done|]. intros _. cbn [advance finish_metric finishMetric beginMetric]. split; [intros _; apply Hpb1; destruct Hb as [Hb|Hb]; [congruence|done]|].
      unfold stopped. cbn [advance finish_metric finishMetric]. by rewrite orb_true_r.
Qed.

Lemma at_end_finish s : lines s = true -> match at_end s with (l, None) => AFinish ∈ l \/ l = [] | _ => True end.
Proof.
  destruct s; cbn [at_end lines]; repeat case_match; try done; intros _; simplify_eq; first [by right|left; apply (bool_decide_unpack _); vm_compute; exact I].
Qed.

(** A run that ends with no line and no error stands at the end of the text, in a state with nothing to do there. *)
Lemma run_rests a m h m' h' : lines (cs m) = true -> finishMetric m = false -> here m a -> run_to true a m h = Ret (m', h', None) -> finishMetric m' = false -> cs m' <> ErrorState ->
  at_end (cs m') = ([], None) /\ here m' EmptyString.
Proof.
  intros Hc Hf Hm E Hf' Hc'. destruct (run_split true a EmptyString m h Hc Hf) as [Es Hk]; [by rewrite str_app_nil_r|]. rewrite str_app_nil_r, E in Es.
  destruct (run_to false a m h) as [[[m1 h1] e1]| |]; try done. destruct (stopped m1 e1) eqn:Hst.
  - simplify_eq. unfold stopped in Hst. by rewrite Hf', (bool_decide_eq_false_2 (cs m1 = ErrorState)), bool_decide_eq_false_2 in Hst by (done || by intros [? ?]).
  - destruct Hk as (Hh & Hc1 & Hf1 & _). cbn [run_to negb] in Es. pose proof (at_end_finish (cs m1) Hc1) as Ha. destruct (at_end (cs m1)) as [l [e|]] eqn:Ea; [by destruct (perform_all l m1 h1) as [[[? ?] [?|]]|]|].
    pose proof (perform_all_finish l m1 h1) as Hpf. destruct (perform_all l m1 h1) as [[[m2 h2] [e|]]|] eqn:Ep; try done. simplify_eq.
    destruct Ha as [Ha| ->]; [|by simplify_eq/=]. destruct Hpf as [_ Hpf]. rewrite Hpf in Hf' by done. done.
Qed.

Lemma set_data_same m : set_data (data m) m = m.
Proof. by destruct m. Qed.
Lemma str_split_at n d : (n <= String.length d)%nat -> exists a b, d = a +:+ b /\ String.length a = n.
Proof.
  revert n. induction d as [|c d IH]; intros n Hn; cbn [String.length] in Hn; [exists EmptyString, EmptyString; split; [done|cbn; lia]|]. destruct n as [|n]; [by exists EmptyString, (String c d)|].
  destruct (IH n ltac:(lia)) as (a & b & -> & <-). by exists (String c a), b.
Qed.
Lemma here_self m : (p m <= pe m)%nat -> here m (str_drop (p m) (data m)).
Proof. intros Hp. unfold pe in Hp. destruct (str_split_at _ _ Hp) as (a & b & E & El). exists a. by rewrite <- El, E, str_drop_length_app. Qed.
Lemma here_le m a : here m a -> (p m <= pe m)%nat.
Proof. intros (pre & E & ->). unfold pe. rewrite E, str_length_app. lia. Qed.

(** The text is at its end, and the machine neither ends a line nor fails: the loop goes on. *)
Lemma next_hangs m h : here m EmptyString -> at_end (cs m) = ([], None) -> cs m <> ErrorState -> beginMetric m = true -> finishMetric m = false ->
  forall fuel cap ef r, content r = EmptyString -> (pe m <= cap)%nat -> (0 < cap)%nat -> next_loop fuel (mkStream m cap ef r) h = SRunning.
Proof.
  intros Hh He Hl Hb Hf. induction fuel as [|fuel IH]; intros cap ef r Hc Hp Hcap; [done|]. cbn [next_loop smachine reader capacity eof].
  set (cap' := if (pe m =? cap)%nat then _ else _). assert (pe m < cap')%nat as Hroom by (unfold cap'; destruct (Nat.eqb_spec (pe m) cap); lia).
  pose proof (Read_content (cap' - pe m) r ltac:(lia)) as Hr. destruct (Read (cap' - pe m) r) as [[b e] r']. destruct Hr as (E & Hempty & _).
  rewrite Hc in E. destruct b as [|? ?]; [|done]. destruct (Hempty eq_refl) as [_ ->]. rewrite !bool_decide_eq_true_2 by done. cbn [andb].
  rewrite str_app_nil_r, set_data_same. unfold stream_exec. cbn [smachine eof capacity reader]. rewrite bool_decide_eq_true_2 by done. rewrite (here_drop _ _ Hh). cbn [run_to negb].
  rewrite He. cbn [perform_all]. rewrite decide_False by done. rewrite Hb. cbn [negb andb smachine]. rewrite Hf. apply IH; [by rewrite E|lia..].
Qed.

Definition running (m : machine) : Prop := lines (cs m) = true /\ finishMetric m = false /\ begun m /\ (p m <= pe m)%nat.

(** Where a run ends. *)
Lemma run_where last a : forall m h, lines (cs m) = true -> finishMetric m = false -> here m a ->
  match run_to last a m h with
  | Ret (m', _, e) => (p m' <= pe m')%nat /\ (idle (cs m') = true \/ cs m' = ErrorState /\ e = None \/ here m' EmptyString /\ (last = false -> stopped m' e = false))
  | _ => True
  end.
Proof.
  induction a as [|c a IH]; intros m h Hl Hf Hm; pose proof (here_le _ _ Hm) as Hp; cbn [run_to].
  - destruct last; cbn [negb].
    + destruct (at_end (cs m)) as [l e]. destruct (perform_all_extend l EmptyString m h Hp) as [_ Hk]. destruct (perform_all l m h) as [[[m' h'] [e'|]]|]; try done; destruct Hk as (Hp' & Hd & _).
      all: assert (here m' EmptyString) as Hh by (by apply (here_eq m)). all: destruct e; (split; [by apply (here_le _ _ Hh)|by right; right]).
    + split; [done|]. right; right. split; [done|]. intros _. unfold stopped. by rewrite Hf, (bool_decide_eq_false_2 (cs m = _)), bool_decide_eq_false_2 by (by apply lines_error || intros [? ?]).
  - pose proof (read_finish (cs m) c) as Hrf. destruct (read (cs m) c) as [l s|s|l|e| |]; try done.
    2,4,5: split; [done|by (left + (right; left))].
    1,2: destruct (perform_all_extend l EmptyString m h Hp) as [_ Hk]; destruct (perform_all l m h) as [[[m' h'] [e|]]|]; try done; destruct Hk as (Hp' & Hd & _ & Hfin).
    1,3: split; [unfold pe in *; cbn; congruence|by left].
    + apply IH; [by apply Hrf|cbn; rewrite Hfin; [done|apply Hrf]|by apply (here_advance c), (here_eq m)].
    + split; [|by left]. assert (here (advance Align (finish_metric m')) a) as Hh by (by apply (here_advance c), (here_eq m)). by apply (here_le _ _ Hh).
Qed.

Definition finished (m : machine) (h : MetricHandler) (e : option MErr) : result (machine * MetricHandler * option MErr) :=
  match e with Some _ => Ret (m, h, e) | None => if decide (cs m = ErrorState) then Ret (set_cs Discard m, h, Some ErrParse) else Ret (m, h, None) end.

(** A block, and what follows it. *)
Lemma exec_block x m h : running m ->
  match run_to false (str_drop (p m) (data m)) m h with
  | Ret (m', h', e) => if stopped m' e then exec (extend x m) h = finished (extend x m') h' e /\ (e = None -> finishMetric m' = true \/ cs m' = ErrorState)
      else e = None /\ exec (extend x m) h = exec (extend x m') h' /\ running m'
  | r => exec (extend x m) h = r
  end.
Proof.
  intros (Hl & Hf & Hb & Hp). pose proof (here_self m Hp) as Hm. set (a := str_drop (p m) (data m)) in *.
  assert (here (extend x m) (a +:+ x)) as Hx by (destruct Hm as (pre & E & Ep); exists pre; cbn; by rewrite E, str_app_assoc).
  unfold exec. rewrite (here_drop _ _ Hx). destruct (run_split true a x (extend x m) h Hl Hf Hx) as [-> Hk]. rewrite (run_extend x a m h Hm) in *.
  pose proof (run_begun false a m h Hb Hf Hp Hm) as Hbg. pose proof (run_where false a m h Hl Hf Hm) as Hw. destruct (run_to false a m h) as [[[m' h'] e]| |]; try done. cbn [extend_result] in *.
  change (stopped (extend x m') e) with (stopped m' e) in *. destruct Hbg as [Hd Hbg]. destruct (Hbg eq_refl) as [Hfb Hbg']. destruct Hw as [Hpw Hw].
  destruct (stopped m' e) eqn:Hst.
  - destruct e as [e|]; [done|]. unfold finished. change (cs (extend x m')) with (cs m'). unfold stopped in Hst.
    rewrite (bool_decide_eq_false_2 (is_Some None)) in Hst by (by intros [? ?]). destruct (decide (cs m' = ErrorState)); [split; [done|by right]|]. rewrite bool_decide_eq_false_2 in Hst by done.
    change (beginMetric (extend x m')) with (beginMetric m'). rewrite Hfb by done. split; [done|by left].
  - destruct Hk as (Hh & Hl' & Hf' & _). rewrite (here_drop _ _ Hh). unfold stopped in Hst. destruct e as [e|]; [by rewrite bool_decide_eq_true_2 in Hst by eauto|]. split; [done|]. split; [done|]. split_and!; auto.
Qed.

(** A stream between two calls of [Next]. *)
Record between (s : streamMachine R) : Prop := {
  b_here : (p (smachine s) <= pe (smachine s))%nat;
  b_fits : (pe (smachine s) <= capacity s)%nat;
  b_room : (0 < capacity s)%nat;
  b_end : at_stream_end s = true -> content (reader s) = EmptyString;
  b_idle : at_stream_end s = false -> idle (cs (smachine s)) = true;
}.

Definition settled (m : machine) (e : option MErr) : bool := bool_decide (is_Some e) || finishMetric m.

(** The stream did what the machine does with the whole text; [enough] says that there were rounds enough for it. Where the machine
    has ended neither a line nor with an error, the stream goes on for ever. *)
Definition follows (enough : Prop) (x : result (machine * MetricHandler * option MErr)) (o : stream_result R) : Prop :=
  match x with
  | Ret (m', h', e) =>
    if settled m' e then enough -> exists s', o = SRet s' h' (SMachine <$> e) /\ extend (content (reader s')) (smachine s') = m' /\ between s'
    else o = SRunning
  | Panics => enough -> o = SPanics
  | Ambiguous => enough -> o = SAmbiguous
  end.

Lemma extend_nil m : extend EmptyString m = m.
Proof. unfold extend. by rewrite str_app_nil_r, set_data_same. Qed.

(** The round in which the end is seen. *)
Lemma last_round fuel cap r m h : running m -> content r = EmptyString -> (pe m <= cap)%nat -> (0 < cap)%nat ->
  follows True (exec m h) match stream_exec (mkStream m cap (Some (pe m)) r) h with
    | SRet s h None => if finishMetric (smachine s) then SRet s h None else next_loop fuel s h
    | o => o
    end.
Proof.
  intros (Hl & Hf & Hb & Hp) Hc Hfit Hcap. pose proof (here_self m Hp) as Hm. unfold exec, stream_exec. cbn [smachine eof capacity reader]. rewrite bool_decide_eq_true_2 by done.
  pose proof (run_begun true _ m h Hb Hf Hp Hm) as Hbg. pose proof (run_where true _ m h Hl Hf Hm) as Hw. pose proof (run_rests (str_drop (p m) (data m)) m h) as Hrest.
  destruct (run_to true _ m h) as [[[m' h'] e]| |]; try done. destruct Hbg as [Hd _], Hw as [Hpw Hw]. specialize (Hrest m' h' Hl Hf Hm).
  assert (pe m' = pe m) as Hpe by (unfold pe; by rewrite Hd).
  assert (forall m'', data m'' = data m' -> p m'' = p m' -> idle (cs m'') = true \/ here m'' EmptyString -> between (mkStream m'' cap (Some (pe m)) r)) as Hbt.
  { intros m'' Hd'' Hp'' Hi. assert (pe m'' = pe m') as Hpe' by (unfold pe; by rewrite Hd''). split; cbn [smachine capacity reader]; rewrite ?Hpe', ?Hp''; try done; [by rewrite Hpe|].
    unfold at_stream_end. cbn [smachine eof]. rewrite (bool_decide_eq_true_2 (Some _ = Some _)), andb_true_r by congruence. intros Hne. destruct Hi as [Hi|Hi]; [done|]. exfalso. apply here_eof in Hi. rewrite bool_decide_eq_true_2 in Hi by done. unfold at_eof in Hi. unfold pe in Hne. congruence. }
  destruct e as [e|]; cbn [follows].
  { intros _. eexists. split; [done|]. cbn [reader smachine]. rewrite Hc, extend_nil. split; [done|]. apply Hbt; [done..|]. destruct Hw as [?|[[_ ?]|[? _]]]; [by left|done|by right]. }
  destruct (decide (cs m' = ErrorState)) as [Hce|Hce].
  { cbn. intros _. eexists. split; [done|]. cbn [reader smachine]. rewrite Hc, extend_nil. split; [done|]. apply Hbt; [done..|by left]. }
  assert (at_stream_end (mkStream m' cap (Some (pe m)) r) = at_eof m') as ->.
  { unfold at_stream_end. cbn [smachine eof]. rewrite (bool_decide_eq_true_2 (Some _ = Some _)), andb_true_r by congruence. done. }
  assert (idle (cs m') = true \/ here m' EmptyString) as Hi by (destruct Hw as [?|[[? _]|[? _]]]; [by left|done|by right]).
  destruct (negb (beginMetric m') && at_eof m') eqn:Hend; cbn [follows].
  { cbn. intros _. eexists. split; [done|]. cbn [reader smachine]. rewrite Hc, extend_nil. split; [done|]. by apply Hbt. }
  unfold settled. rewrite bool_decide_eq_false_2 by (by intros [? ?]). cbn [orb smachine]. destruct (finishMetric m') eqn:Hfin.
  { intros _. eexists. split; [done|]. cbn [reader smachine]. rewrite Hc, extend_nil. split; [done|]. by apply Hbt. }
  destruct (Hrest eq_refl eq_refl Hce) as [Hae Hh]. rewrite (here_eof _ _ Hh), bool_decide_eq_true_2, andb_true_r in Hend by done. apply negb_false_iff in Hend.
  apply next_hangs; try done. by rewrite Hpe.
Qed.

Lemma follows_weaken (A B : Prop) x o : (A -> B) -> follows B x o -> follows A x o.
Proof. intros HAB. unfold follows. destruct x as [[[m' h'] e]| |]; [destruct (settled m' e)|..]; auto. Qed.

(** A round that reads a block. *)
Lemma block_round fuel cap r m h : running m -> (pe m <= cap)%nat -> (0 < cap)%nat ->
  (forall m' h', running m' -> pe m' = pe m -> follows (String.length (content r) < fuel)%nat (exec (extend (content r) m') h') (next_loop fuel (mkStream m' cap None r) h')) ->
  follows (String.length (content r) < fuel)%nat (exec (extend (content r) m) h) match stream_exec (mkStream m cap None r) h with
    | SRet s h None => if finishMetric (smachine s) then SRet s h None else next_loop fuel s h
    | o => o
    end.
Proof.
  intros Hrun Hfit Hcap Hnext. pose proof (exec_block (content r) m h Hrun) as Hx. destruct Hrun as (Hl & Hf & Hb & Hp). pose proof (here_self m Hp) as Hm.
  pose proof (run_begun false _ m h Hb Hf Hp Hm) as Hbg. pose proof (run_where false _ m h Hl Hf Hm) as Hw. unfold stream_exec. cbn [smachine eof capacity reader].
  rewrite (bool_decide_eq_false_2 (None = _)) by done. destruct (run_to false _ m h) as [[[m' h'] e]| |]; try (by rewrite Hx). destruct Hbg as [Hd _], Hw as [Hpw Hw].
  assert (pe m' = pe m) as Hpe by (unfold pe; by rewrite Hd).
  assert (forall s, idle s = true -> between (mkStream (set_cs s m') cap None r)) as Hbt.
  { intros s Hs. split; cbn [smachine capacity reader]; try done; [by change (pe (set_cs s m')) with (pe m'); rewrite Hpe|]. unfold at_stream_end. cbn [smachine eof]. rewrite (bool_decide_eq_false_2 (None = _)) by done. by rewrite andb_false_r. }
  assert (at_stream_end (mkStream m' cap None r) = false) as Hne by (unfold at_stream_end; cbn [smachine eof]; rewrite (bool_decide_eq_false_2 (None = _)) by done; by rewrite andb_false_r).
  assert (set_cs (cs m') m' = m') as Hset by (by destruct m').
  destruct (stopped m' e) eqn:Hst.
  - destruct Hx as [-> Hwhy]. assert (idle (cs m') = true \/ cs m' = ErrorState /\ e = None) as Hi by (destruct Hw as [?|[?|[_ Hk]]]; [by left|by right|by specialize (Hk eq_refl)]).
    destruct e as [e|]; unfold finished; cbn [follows].
    { unfold settled. rewrite bool_decide_eq_true_2 by eauto. intros _. eexists. split; [done|]. split; [done|]. rewrite <- Hset. apply Hbt. destruct Hi as [?|[_ ?]]; done. }
    change (cs (extend (content r) m')) with (cs m'). destruct (decide (cs m' = ErrorState)) as [Hce|Hce].
    { cbn [follows]. unfold settled. rewrite bool_decide_eq_true_2 by eauto. intros _. eexists. split; [done|]. split; [done|]. by apply Hbt. }
    rewrite Hne, andb_false_r. cbn [follows smachine]. unfold settled. change (finishMetric (extend (content r) m')) with (finishMetric m'). destruct (Hwhy eq_refl) as [Hfin|]; [|done]. rewrite Hfin, orb_true_r.
    intros _. eexists. split; [done|]. split; [done|]. rewrite <- Hset. apply Hbt. destruct Hi as [?|[? _]]; done.
  - destruct Hx as (-> & -> & Hrun'). rewrite decide_False by (apply lines_error, Hrun'). rewrite Hne, andb_false_r. cbn [smachine]. replace (finishMetric m') with false by (symmetry; apply Hrun'). by apply Hnext.
Qed.

(** The loop of [Next] does with the blocks what the machine does with the whole text, for every way the reader cuts it. *)
Lemma next_loop_follows fuel : forall cap r m h, running m -> (pe m <= cap)%nat -> (0 < cap)%nat ->
  follows (String.length (content r) < fuel)%nat (exec (extend (content r) m) h) (next_loop fuel (mkStream m cap None r) h).
Proof.
  induction fuel as [|fuel IH]; intros cap r m h Hrun Hfit Hcap.
  - unfold follows. cbn [next_loop]. destruct (exec _ h) as [[[m' h'] e]| |]; [destruct (settled m' e); [|done]|..]; lia.
  - cbn [next_loop smachine reader capacity eof]. set (cap' := if (pe m =? cap)%nat then _ else _). assert (pe m < cap')%nat as Hroom by (unfold cap'; destruct (Nat.eqb_spec (pe m) cap); lia).
    pose proof (Read_content (cap' - pe m) r ltac:(lia)) as Hr. pose proof (Read_fits (cap' - pe m) r) as Hn. destruct (Read (cap' - pe m) r) as [[b e] r']. destruct Hr as (E & Hempty & Herr). cbn [fst] in Hn.
    destruct (decide (b = EmptyString)) as [->|Hb].
    + destruct (Hempty eq_refl) as [Hc ->]. rewrite !bool_decide_eq_true_2 by done. cbn [andb]. rewrite str_app_nil_r, set_data_same, Hc, extend_nil. change (EmptyString +:+ content r') with (content r') in E.
      assert (content r' = EmptyString) as Hc' by congruence. apply (follows_weaken _ True); [done|]. apply last_round; (done || lia).
    + rewrite (bool_decide_eq_false_2 (b = _)) by done. cbn [andb].
      assert (match e with Some (ROther x) => inr x | _ => inl None end = inl None :> option nat + string) as -> by (destruct e as [[|x]|]; try done; by destruct (Herr x)).
      assert (running (extend b m)) as Hrun'. { destruct Hrun as (? & ? & ? & Hp). split_and!; try done. unfold pe, extend, set_data in *. cbn [p data]. rewrite str_length_app. lia. }
      assert (pe (extend b m) <= cap')%nat as Hfit' by (unfold pe, extend, set_data in *; cbn [data]; rewrite str_length_app; lia).
      assert (extend (content r) m = extend (content r') (extend b m)) as -> by (unfold extend, set_data; cbn; by rewrite E, str_app_assoc).
      eapply follows_weaken; [|apply (block_round fuel cap' r' (extend b m) h Hrun' Hfit'); [lia|]].
      * rewrite E, str_length_app. destruct b; [done|]. cbn. lia.
      * intros m' h' Hm' Hpe. apply IH; [done|rewrite Hpe; done|lia].
Qed.

Lemma idle_lines s : idle s = true -> lines s = true.
Proof. by destruct s. Qed.
Lemma shift_running m : idle (cs m) = true -> running (shift m).
Proof. intros Hi. split_and!; [by apply idle_lines|done|by left|cbn; lia]. Qed.
Lemma pe_shift m : (p m <= pe m)%nat -> pe (shift m) = (pe m - p m)%nat.
Proof. intros. by apply drop_length. Qed.
Lemma NewStream_between r : between (NewStreamMachine r).
Proof. split; cbn; try lia; done. Qed.

(** C24: A call of [Next] on a stream does what the machine does with all the text still to come as one, for every way in which the reader cuts
    it into blocks and however the buffer grows: the same metric, error or panic with the same machine left behind, and [Next] can be called again. The loop
    returns after at most one round per byte and one more, except where the machine, at the end of the text, has begun a metric that it neither completes
    nor refuses: there it runs for ever, as no round changes anything. *)
Theorem Stream_whole fuel s h : between s -> at_stream_end s = false ->
  follows (String.length (content (reader s)) < fuel)%nat (exec (extend (content (reader s)) (shift (smachine s))) h) (SNext fuel s h).
Proof.
  intros Hs Hend. unfold SNext. rewrite Hend. pose proof (b_here s Hs). pose proof (b_fits s Hs). pose proof (b_room s Hs).
  apply next_loop_follows; [apply shift_running; by apply b_idle|rewrite pe_shift; lia|done].
Qed.

(** The first call reads what a parser of the whole text reads. *)
Lemma Stream_first fuel r h : follows (String.length (content r) < fuel)%nat (LineProtocol.Next (SetData (content r) NewMachine) h) (SNext fuel (NewStreamMachine r) h).
Proof.
  assert (LineProtocol.Next (SetData (content r) NewMachine) h = exec (extend (content r) (shift (smachine (NewStreamMachine r)))) h) as ->.
  { unfold LineProtocol.Next. rewrite (here_eof _ (content r)) by apply here_SetData. destruct (decide (content r = EmptyString)) as [->|Hne]; [done|]. by rewrite bool_decide_eq_false_2. }
  apply (next_loop_follows fuel 1024 r (shift (smachine (NewStreamMachine r))) h); [by apply shift_running|cbn; lia|lia].
Qed.
End Whole.

(** ** Blocks in a list *)

Fixpoint read_blocks (n : nat) (l : list string) : string * option ReadErr * list string :=
  match l with
  | [] => (EmptyString, Some REOF, [])
  | b :: l => if decide (b = EmptyString) then read_blocks n l else (str_take n b, None, str_drop n b :: l)
  end.
Lemma str_take_fits n s : (String.length (str_take n s) <= n)%nat.
Proof. unfold str_take. revert n. induction s as [|c s IH]; intros [|n]; cbn [String.substring String.length]; try lia. specialize (IH n). lia. Qed.
Lemma read_blocks_fits n l : (String.length (read_blocks n l).1.1 <= n)%nat.
Proof. induction l as [|b l IH]; cbn [read_blocks]; [cbn; lia|]. destruct (decide (b = EmptyString)); [done|]. apply str_take_fits. Qed.
#[export] Instance blocks_reader : Reader (list string) := {| Read := read_blocks; Read_fits := read_blocks_fits |}.

Lemma read_blocks_content n l : (0 < n)%nat -> let '(b, e, l') := read_blocks n l in concat_strings l = b +:+ concat_strings l' /\
  (b = EmptyString -> concat_strings l = EmptyString /\ e = Some REOF) /\ (forall x, e <> Some (ROther x)).
Proof.
  intros Hn. induction l as [|b l IH]; cbn [read_blocks]; [done|]. destruct (decide (b = EmptyString)) as [->|Hb]; [exact IH|].
  change (concat_strings (?x :: l)) with (x +:+ concat_strings l). rewrite <- str_app_assoc, str_take_drop. split; [done|]. split; [|done]. intros E. destruct b; [done|]. by destruct n; [lia|].
Qed.
#[export] Instance blocks_finite : FiniteReader (list string) := {| content := concat_strings; Read_content := read_blocks_content |}.

#[local] Existing Instance map_range_default.
Definition ex_blocks : list string := ["cp"; "u x="; EmptyString; "1i"; String "010" "mem"].

Lemma Stream_whole_witness : between (NewStreamMachine ex_blocks) /\
  follows (18 < 20)%nat (exec (extend (content ex_blocks) (shift (smachine (NewStreamMachine ex_blocks)))) NewMetricHandler) (SNext 20 (NewStreamMachine ex_blocks) NewMetricHandler).
Proof. split; [apply NewStream_between|]. eapply follows_weaken; [|apply (Stream_whole 20 (NewStreamMachine ex_blocks) NewMetricHandler (NewStream_between ex_blocks)); reflexivity]. vm_compute. lia. Defined.

(** A text that ends in a carriage return behind a metric, or in a name with an escape begun: [Next] never returns. *)
Lemma stream_hangs fuel last : last ∈ [["cpu x=1i"; one (chr 13)]; [String "c" (one BSLASH)]] -> SNext fuel (NewStreamMachine last) NewMetricHandler = SRunning.
Proof.
  intros Hin. pose proof (Stream_first fuel last NewMetricHandler) as Hf. repeat (apply elem_of_cons in Hin as [->|Hin]); [..|by apply not_elem_of_nil in Hin];
    match type of Hf with follows _ ?x _ => let v := eval vm_compute in x in change x with v in Hf end; exact Hf.
Qed.
(** A parser of the same texts returns. *)
Lemma whole_text_returns : match LineProtocol.Next (SetData ("cpu x=1i" +:+ one (chr 13)) NewMachine) NewMetricHandler with Ret (m, h, None) => has_metric h = true | _ => False end.
Proof. vm_compute. reflexivity. Qed.
