(* ===== verification/LibProcessors.v ===== *)
(** * Processors around libraries

    [plugins/processors]: regex, date, template, s2geo, parser and printer, one [Module] each. Regular expressions, the
    formats of times, text templates, the cells of a sphere and parsers are library code or plugins of their own and come as
    classes. [internal/choice] is the check of options. *)

From S2P Require Import Prelude Float64 Metric Tracking Selfstat Interfaces Filter Running Accumulator Aggregators Processors Influx.
Import Ledger.

(** ** [regex.go] *)

Module Regex.

(** What the package [regexp] does. *)
Class RegexLib := {
  Regexp : Type;
  Compile : string -> option Regexp;
  MatchString : Regexp -> string -> bool;
  ReplaceAllString : Regexp -> string -> string -> string;
}.

Record converter := mkConverter { CKey : string; Pattern : string; Replacement : string; ResultKey : string; CAppend : bool }.

Section Regex.
Context `{RegexLib}.

Record Regex := mkRegex { RTags : list converter; RFields : list converter; regexCache : gmap string Regexp }.
Definition NewRegex : Regex := mkRegex [] [] ∅.

(** [convert] with the compiled pattern. *)
Definition convert_with (re : Regexp) (c : converter) (src : string) : string * string :=
  let value := if bool_decide (ResultKey c = EmptyString) || MatchString re src then ReplaceAllString re src (Replacement c) else EmptyString in
  (if decide (ResultKey c <> EmptyString) then ResultKey c else CKey c, value).

(** [None]: [MustCompile] panics. *)
Definition convert (c : converter) (src : string) (cache : gmap string Regexp) : option (string * string * gmap string Regexp) :=
  match cache !! Pattern c with
  | Some re => Some (convert_with re c src, cache)
  | None => re ← Compile (Pattern c); Some (convert_with re c src, <[Pattern c := re]> cache)
  end.

(** What a conversion of a tag and of a field do with the result. *)
Definition put_tag (c : converter) (kv : string * string) (m : metric) : metric :=
  let '(k, v) := kv in
  if decide (v = EmptyString) then m
  else AddTag k (if CAppend c then default EmptyString (GetTag k m) +:+ v else v) m.
Definition put_field (kv : string * string) (m : metric) : metric :=
  let '(k, v) := kv in if decide (v = EmptyString) then m else AddField k (go_of_val (VString v)) m.

Definition convert_tag (c : converter) (m : metric) (cache : gmap string Regexp) : option (metric * gmap string Regexp) :=
  match GetTag (CKey c) m with
  | Some value => '(kv, cache) ← convert c value cache; Some (put_tag c kv m, cache)
  | None => Some (m, cache)
  end.
Definition convert_field (c : converter) (m : metric) (cache : gmap string Regexp) : option (metric * gmap string Regexp) :=
  match GetField (CKey c) m with
  | Some (VString value) => '(kv, cache) ← convert c value cache; Some (put_field kv m, cache)
  | _ => Some (m, cache)
  end.

(** The loops over the conversions. *)
Fixpoint loop {A} (f : A -> metric -> gmap string Regexp -> option (metric * gmap string Regexp)) (l : list A) (m : metric) (cache : gmap string Regexp) :
    option (metric * gmap string Regexp) :=
  match l with
  | [] => Some (m, cache)
  | c :: l => '(m, cache) ← f c m cache; loop f l m cache
  end.

Definition edit (r : Regex) (m : metric) (cache : gmap string Regexp) : option (metric * gmap string Regexp) :=
  '(m, cache) ← loop convert_tag (RTags r) m cache; loop convert_field (RFields r) m cache.

Fixpoint apply_loop (r : Regex) (ins : list tmetric) (cache : gmap string Regexp) : option (list tmetric * gmap string Regexp) :=
  match ins with
  | [] => Some ([], cache)
  | m :: ins => '(b, cache) ← edit r (base m) cache; '(out, cache) ← apply_loop r ins cache; Some (with_base b m :: out, cache)
  end.

Definition Apply {W} (ins : list tmetric) (r : Regex) (w : W) : option (list tmetric * Regex * W) :=
  '(out, cache) ← apply_loop r ins (regexCache r); Some (out, mkRegex (RTags r) (RFields r) cache, w).

(** *** Without the cache *)

Definition convert_plain (c : converter) (src : string) : option (string * string) := (fun re => convert_with re c src) <$> Compile (Pattern c).
Definition tag_plain (m : metric) (c : converter) : option metric :=
  match GetTag (CKey c) m with Some value => (fun kv => put_tag c kv m) <$> convert_plain c value | None => Some m end.
Definition field_plain (m : metric) (c : converter) : option metric :=
  match GetField (CKey c) m with Some (VString value) => (fun kv => put_field kv m) <$> convert_plain c value | _ => Some m end.
Definition fold_opt {A} (f : metric -> A -> option metric) (l : list A) (m : metric) : option metric := foldl (fun m c => m ≫= fun m => f m c) (Some m) l.
Definition edit_plain (r : Regex) (m : metric) : option metric := m ← fold_opt tag_plain (RTags r) m; fold_opt field_plain (RFields r) m.

Definition cache_ok (cache : gmap string Regexp) : Prop := map_Forall (fun p re => Compile p = Some re) cache.

(** A step with the cache does what the step without it does, and keeps the cache right. *)
Definition agrees {A} (r : option (A * gmap string Regexp)) (s : option A) : Prop :=
  match r with Some (a, cache) => s = Some a /\ cache_ok cache | None => s = None end.

Lemma convert_agrees c src cache : cache_ok cache -> agrees (convert c src cache) (convert_plain c src).
Proof.
  intros Hc. unfold convert, convert_plain. destruct (cache !! Pattern c) as [re|] eqn:E.
  - rewrite (Hc _ _ E). by split.
  - destruct (Compile (Pattern c)) as [re|] eqn:Ec; [|done]. split; [done|]. apply map_Forall_insert_2; done.
Qed.
Lemma convert_tag_agrees c m cache : cache_ok cache -> agrees (convert_tag c m cache) (tag_plain m c).
Proof.
  intros Hc. unfold convert_tag, tag_plain. destruct (GetTag (CKey c) m) as [v|]; [|by split]. pose proof (convert_agrees c v cache Hc) as Ha.
  destruct (convert c v cache) as [[kv cache']|]; cbn in *; [destruct Ha as [-> ?]|rewrite Ha]; by cbn.
Qed.
Lemma convert_field_agrees c m cache : cache_ok cache -> agrees (convert_field c m cache) (field_plain m c).
Proof.
  intros Hc. unfold convert_field, field_plain. destruct (GetField (CKey c) m) as [[| | | |v|]|]; try by split. pose proof (convert_agrees c v cache Hc) as Ha.
  destruct (convert c v cache) as [[kv cache']|]; cbn in *; [destruct Ha as [-> ?]|rewrite Ha]; by cbn.
Qed.
Lemma fold_opt_None {A} (f : metric -> A -> option metric) l : foldl (fun m c => m ≫= fun m => f m c) None l = None.
Proof. by induction l. Qed.
Lemma loop_agrees {A} f (g : metric -> A -> option metric) l : (forall c m cache, cache_ok cache -> agrees (f c m cache) (g m c)) ->
  forall m cache, cache_ok cache -> agrees (loop f l m cache) (fold_opt g l m).
Proof.
  intros Hf. induction l as [|c l IH]; intros m cache Hc; [by split|]. cbn [loop]. unfold fold_opt. cbn [foldl]. binds. pose proof (Hf c m cache Hc) as Ha.
  destruct (f c m cache) as [[m' cache']|]; cbn in Ha.
  - destruct Ha as [-> Hc']. binds. by apply IH.
  - rewrite Ha. cbn. apply fold_opt_None.
Qed.
Lemma edit_agrees r m cache : cache_ok cache -> agrees (edit r m cache) (edit_plain r m).
Proof.
  intros Hc. unfold edit, edit_plain. pose proof (loop_agrees convert_tag tag_plain (RTags r) convert_tag_agrees m cache Hc) as Ha.
  destruct (loop convert_tag (RTags r) m cache) as [[m' cache']|]; cbn in Ha; [|by rewrite Ha]. destruct Ha as [-> Hc']. binds.
  by apply (loop_agrees convert_field field_plain (RFields r) convert_field_agrees).
Qed.

(** The cache of compiled patterns changes nothing: [Apply] edits each metric as if every pattern was compiled anew, panics exactly when a
    pattern that is needed does not compile, and keeps the cache right. *)
Theorem Regex_cache {W} ins (r : Regex) (w : W) : cache_ok (regexCache r) ->
  match Apply ins r w with
  | Some (out, r', w') => mapM (fun m => (fun b => with_base b m) <$> edit_plain r (base m)) ins = Some out /\ w' = w /\
      RTags r' = RTags r /\ RFields r' = RFields r /\ cache_ok (regexCache r')
  | None => mapM (fun m => (fun b => with_base b m) <$> edit_plain r (base m)) ins = None
  end.
Proof.
  intros Hc. unfold Apply. assert (agrees (apply_loop r ins (regexCache r)) (mapM (fun m => (fun b => with_base b m) <$> edit_plain r (base m)) ins)) as Ha.
  { revert Hc. generalize (regexCache r) as cache. induction ins as [|m ins IH]; intros cache Hc; [by split|]. cbn [apply_loop mapM]. pose proof (edit_agrees r (base m) cache Hc) as He.
    destruct (edit r (base m) cache) as [[b cache']|]; cbn in He; [|by rewrite He]. destruct He as [-> Hc']. cbn. specialize (IH cache' Hc'). unfold agrees in IH.
    destruct (apply_loop r ins cache') as [[out cache'']|]; [destruct IH as [IH ?]|]; setoid_rewrite IH; by cbn. }
  unfold agrees in Ha. destruct (apply_loop r ins (regexCache r)) as [[out cache]|]; [|done]. by destruct Ha.
Qed.
End Regex.
End Regex.

(** ** [date.go] *)

Module Date.

(** What the package [time] does with zones and layouts. *)
Class DateLib := {
  Location : Type;
  LoadLocation : string -> option Location;
  Format : Location -> string -> Z -> string;
}.

Section Date.
Context `{DateLib}.
Record Date := mkDate { TagKey : string; DateFormat : string; DateOffset : Z; Timezone : string; location : option Location }.
Definition new : Date := mkDate EmptyString EmptyString 0 "UTC" None.

(** Whether there is an error, and the new state. *)
Definition Init (d : Date) : bool * Date :=
  let l := LoadLocation (Timezone d) in
  (negb (bool_decide (is_Some l)), mkDate (TagKey d) (DateFormat d) (DateOffset d) (Timezone d) l).

(** Before [Init] there is no location, and [In] panics. *)
Definition edit (d : Date) (l : Location) (m : metric) : metric := AddTag (TagKey d) (Format l (DateFormat d) (tm m + DateOffset d)) m.
Definition Apply {W} (ins : list tmetric) (d : Date) (w : W) : option (list tmetric * Date * W) :=
  match ins, location d with
  | [], _ => Some ([], d, w)
  | _, None => None
  | _, Some l => Some (each (edit d l) ins, d, w)
  end.
End Date.
End Date.

(** ** [template.go] and [template_metric.go] *)

Module Template.

(** What a template can ask of a metric. *)
Record TemplateMetric := mkTemplateMetric { tmetric_ : metric }.
Definition TName (t : TemplateMetric) : string := name (tmetric_ t).
Definition TTag (key : string) (t : TemplateMetric) : string := default EmptyString (GetTag key (tmetric_ t)).
Definition TField (key : string) (t : TemplateMetric) : Val := default VNil (GetField key (tmetric_ t)).
Definition TTime (t : TemplateMetric) : Z := tm (tmetric_ t).

(** What the package [text/template] does; [None] is an error. *)
Class TemplateLib := {
  Tmpl : Type;
  TParse : string -> option Tmpl;
  Execute : Tmpl -> TemplateMetric -> option string;
}.

Section Template.
Context `{TemplateLib}.
Record TemplateProcessor := mkTP { TPTag : string; TPTemplate : string; tmpl : option Tmpl }.

Definition Init (r : TemplateProcessor) : bool * TemplateProcessor :=
  let t := TParse (TPTemplate r) in (negb (bool_decide (is_Some t)), mkTP (TPTag r) (TPTemplate r) t).

(** A template that fails leaves the metric as it is. *)
Definition edit (r : TemplateProcessor) (t : Tmpl) (m : metric) : metric :=
  match Execute t (mkTemplateMetric m) with Some s => AddTag (TPTag r) s m | None => m end.
Definition Apply {W} (ins : list tmetric) (r : TemplateProcessor) (w : W) : option (list tmetric * TemplateProcessor * W) :=
  match ins, tmpl r with
  | [], _ => Some ([], r, w)
  | _, None => None
  | _, Some t => Some (each (edit r t) ins, r, w)
  end.
End Template.
End Template.

(** ** [s2geo.go] *)

Module Geo.

(** The token of the parent, of a level, of the cell at a latitude and longitude; [None] if the cell is not valid. *)
Class S2Lib := cell_token : float64 -> float64 -> Z -> option string.

Record Geo := mkGeo { LatField : string; LonField : string; TagKey : string; CellLevel : Z }.
Definition new : Geo := mkGeo "lat" "lon" "s2_cell_id" 9.

(** Whether the level is an error. *)
Definition Init (g : Geo) : bool := (CellLevel g <? 0) || (30 <? CellLevel g).

Definition float_of (v : Val) : option float64 := match v with VFloat x => Some x | _ => None end.
(** The loop over the fields: the last ones with the keys count. *)
Definition scan (g : Geo) (acc : option float64 * option float64) (f : Field) : option float64 * option float64 :=
  if decide (FKey f = LatField g) then (float_of (FValue f), acc.2)
  else if decide (FKey f = LonField g) then (acc.1, float_of (FValue f))
  else acc.

Section Geo.
Context `{S2Lib}.
Definition edit (g : Geo) (m : metric) : metric :=
  match foldl (scan g) (None, None) (fields m) with
  | (Some lat, Some lon) => match cell_token lat lon (CellLevel g) with Some t => AddTag (TagKey g) t m | None => m end
  | _ => m
  end.
Definition Apply {W} (ins : list tmetric) (g : Geo) (w : W) : option (list tmetric * Geo * W) := Some (each (edit g) ins, g, w).

(** On a well-formed metric the tag is set exactly when both fields are floats and the cell is valid. *)
Lemma Geo_edit g m : wf m -> LatField g <> LonField g -> edit g m =
  match Metric.Fields m !! LatField g, Metric.Fields m !! LonField g with
  | Some (VFloat lat), Some (VFloat lon) => match cell_token lat lon (CellLevel g) with Some t => AddTag (TagKey g) t m | None => m end
  | _, _ => m
  end.
Proof.
  intros Hw Hne. unfold edit.
  assert (forall fs acc, NoDup (FKey <$> fs) -> foldl (scan g) acc fs =
    (match keyed_map FKey FValue fs !! LatField g with Some v => float_of v | None => acc.1 end,
     match keyed_map FKey FValue fs !! LonField g with Some v => float_of v | None => acc.2 end)) as Hs.
  { induction fs as [|f fs IH]; intros acc Hn; [by destruct acc|]. cbn [fmap list_fmap] in Hn. apply NoDup_cons in Hn as [Hf Hn]. cbn [foldl]. rewrite IH by done.
    assert (forall k, k = FKey f -> keyed_map FKey FValue fs !! k = None) as Hnone.
    { intros k ->. apply not_elem_of_dom. rewrite keyed_map_dom. by rewrite elem_of_list_to_set. }
    rewrite !keyed_map_list_to_map by (cbn [fmap list_fmap]; by try (apply NoDup_cons)). rewrite keyed_map_list_to_map in Hnone by done. cbn [fmap list_fmap list_to_map foldr fst snd].
    unfold scan. destruct (decide (FKey f = LatField g)) as [E1|E1]; [|destruct (decide (FKey f = LonField g)) as [E2|E2]].
    - rewrite <- E1, lookup_insert_eq, lookup_insert_ne by congruence. by rewrite (Hnone _ eq_refl).
    - rewrite <- E2, lookup_insert_eq, lookup_insert_ne by congruence. by rewrite (Hnone _ eq_refl).
    - by rewrite !lookup_insert_ne by done. }
  rewrite Hs by apply Hw. unfold Metric.Fields. cbn [fst snd].
  destruct (keyed_map FKey FValue (fields m) !! LatField g) as [[]|]; try done; by destruct (keyed_map FKey FValue (fields m) !! LonField g) as [[]|].
Qed.
End Geo.
End Geo.

(** ** [parser.go] *)

Module ParserProcessor.

(** A parser of a data format: what it makes of a text, and whether it reports an error; it may keep state. *)
Class ParserLib := {
  PConfig : Type;
  PState : Type;
  NewParser : PConfig -> option PState;
  PParse : string -> PState -> list metric * bool * PState;
}.

Section Parser.
Context `{ParserLib}.

Record Parser := mkParser { Config : PConfig; DropOriginal : bool; Merge : string; ParseFields : list string; PParser : option PState }.

(** A metric without a name gets that of the metric it is from. *)
Definition named_after (m : metric) (x : metric) : metric := if decide (name x = EmptyString) then SetName (name m) x else x.

(** The loops over the keys and the fields: the metrics that are parsed. *)
Fixpoint field_loop (k : string) (m : metric) (fs : list Field) (ps : PState) : list metric * PState :=
  match fs with
  | [] => ([], ps)
  | f :: fs =>
    let '(ms, ps) := match decide (FKey f = k), FValue f with
      | left _, VString v => let '(ms, _, ps) := PParse v ps in (named_after m <$> ms, ps)
      | _, _ => ([], ps)
      end in
    let '(ms', ps) := field_loop k m fs ps in (ms ++ ms', ps)
  end.
Fixpoint key_loop (ks : list string) (m : metric) (ps : PState) : list metric * PState :=
  match ks with
  | [] => ([], ps)
  | k :: ks => let '(ms, ps) := field_loop k m (fields m) ps in let '(ms', ps) := key_loop ks m ps in (ms ++ ms', ps)
  end.

Definition merge_one (b x : metric) : metric :=
  let b := foldl (fun b f => AddField (FKey f) (go_of_val (FValue f)) b) b (fields x) in
  let b := foldl (fun b t => AddTag (Key t) (Value t) b) b (tags x) in
  SetName (name x) b.
Definition merge (b : tmetric) (ms : list tmetric) : tmetric := with_base (foldl merge_one (base b) (base <$> ms)) b.

(** The metrics for a metric. *)
Definition emit (p : Parser) (m : tmetric) (ps : PState) : list tmetric * PState :=
  let '(ms, ps) := key_loop (ParseFields p) (base m) ps in
  let new := (if DropOriginal p then [] else [m]) ++ ((fun x => mkTM x None) <$> ms) in
  (match new with
   | [] => []
   | b :: rest => if decide (Merge p = "override") then [merge b rest] else new
   end, ps).
Fixpoint emit_loop (p : Parser) (ins : list tmetric) (ps : PState) : list tmetric * PState :=
  match ins with
  | [] => ([], ps)
  | m :: ins => let '(out, ps) := emit p m ps in let '(out', ps) := emit_loop p ins ps in (out ++ out', ps)
  end.

(** A parser that cannot be made leaves the metrics as they are. *)
Definition Apply {W} (ins : list tmetric) (p : Parser) (w : W) : option (list tmetric * Parser * W) :=
  match (match PParser p with Some ps => Some ps | None => NewParser (Config p) end) with
  | None => Some (ins, p, w)
  | Some ps => let '(out, ps) := emit_loop p ins ps in Some (out, mkParser (Config p) (DropOriginal p) (Merge p) (ParseFields p) (Some ps), w)
  end.

Lemma emit_td p m ps q : refs q (emit p m ps).1 = if DropOriginal p then 0 else refs q [m].
Proof.
  unfold emit. destruct (key_loop _ _ _) as [ms ps']. cbn [fst].
  assert (forall ms, refs q ((fun x => mkTM x None) <$> ms) = 0) as Hn by (induction ms0 as [|x xs IH]; [done|]; unfold refs in *; cbn [fmap list_fmap]; rewrite filter_cons, decide_False by done; exact IH).
  assert (forall b l, refs q [merge b l] = refs q [b]) as Hm by (intros b l; unfold refs; cbn; by destruct (decide (td b = Some q))).
  destruct (DropOriginal p); cbn [app].
  - destruct ms as [|x ms]; [done|]. cbn [fmap list_fmap]. case_decide; [rewrite Hm; apply (Hn [x])|apply (Hn (x :: ms))].
  - case_decide; [apply Hm|]. transitivity (refs q ([m] ++ ((fun x => mkTM x None) <$> ms))); [done|]. rewrite refs_app, Hn. lia.
Qed.

(** Without [drop_original] the processor settles its account with delivery tracking. With it the metrics are forgotten: of all tracked
    metrics it takes it returns none, and it resolves none. *)
Theorem ParserProcessor_tracking (ins : list tmetric) (p : Parser) (w : World) : exists out p', Apply ins p w = Some (out, p', w) /\
  (DropOriginal p = false -> moved ins out w w) /\ (DropOriginal p = true -> is_Some (PParser p) -> forall q, refs q out = 0).
Proof.
  unfold Apply. assert (forall ps q, refs q (emit_loop p ins ps).1 = if DropOriginal p then 0 else refs q ins) as Hr.
  { intros ps q. revert ps. induction ins as [|m ins IH]; intros ps; [by destruct (DropOriginal p)|]. cbn [emit_loop]. pose proof (emit_td p m ps q) as He.
    destruct (emit p m ps) as [out ps']. specialize (IH ps'). destruct (emit_loop p ins ps') as [out' ps'']. cbn [fst] in *. rewrite refs_app, He, IH.
    destruct (DropOriginal p); [done|]. change (m :: ins) with ([m] ++ ins). by rewrite refs_app. }
  assert (forall out, (forall q, refs q out = refs q ins) -> moved ins out w w) as Hm.
  { intros out Ho q d Hd Hrc. exists d. split; [done|]. rewrite Ho, int32_small by lia. lia. }
  destruct (match PParser p with Some ps => Some ps | None => NewParser (Config p) end) as [ps|] eqn:E.
  - specialize (Hr ps). destruct (emit_loop p ins ps) as [out ps']. cbn [fst] in Hr. eexists _, _. split; [done|]. split; intros Hd; rewrite Hd in Hr; [by apply Hm|done].
  - eexists _, _. split; [done|]. split; [intros _; by apply Hm|]. intros _ [ps Hps]. by rewrite Hps in E.
Qed.
End Parser.
End ParserProcessor.

(** ** [printer.go] *)

Module Printer.

(** [fmt.Printf] to the standard output. *)
Class PrintEnv (W : Type) := print : string -> W -> W.

Definition new : Serializer := NewSerializer.

(** A metric that is not serializable is not printed. The serializer may sort the fields of the metric. *)
Fixpoint Apply_loop {W} `{PrintEnv W} (ins : list tmetric) (s : Serializer) (w : W) : list tmetric * Serializer * W :=
  match ins with
  | [] => ([], s, w)
  | m :: ins =>
    let '(r, b, s) := Serialize (base m) s in
    let w := match r with inl octets => print octets w | inr _ => w end in
    let '(out, s, w) := Apply_loop ins s w in (with_base b m :: out, s, w)
  end.
Definition Apply {W} `{PrintEnv W} (ins : list tmetric) (s : Serializer) (w : W) : option (list tmetric * Serializer * W) := Some (Apply_loop ins s w).
End Printer.

(** ** [choice.go] *)

Module Choice.
Fixpoint Contains (choice : string) (choices : list string) : bool :=
  match choices with [] => false | item :: choices => if decide (item = choice) then true else Contains choice choices end.
(** The choice that is unknown. *)
Definition Check (choice : string) (available : list string) : option string := if negb (Contains choice available) then Some choice else None.
Fixpoint CheckSlice (choices available : list string) : option string :=
  match choices with [] => None | c :: choices => match Check c available with Some e => Some e | None => CheckSlice choices available end end.

Lemma Contains_spec c l : Contains c l = bool_decide (c ∈ l).
Proof.
  induction l as [|x l IH]; cbn [Contains]; [by rewrite bool_decide_eq_false_2 by (by apply not_elem_of_nil)|]. rewrite IH.
  destruct (decide (x = c)) as [->|Hx]; [by rewrite bool_decide_eq_true_2 by (by left)|]. apply bool_decide_ext. rewrite elem_of_cons. naive_solver.
Qed.
Lemma CheckSlice_spec choices available : CheckSlice choices available = None <-> choices ⊆ available.
Proof.
  induction choices as [|c l IH]; cbn [CheckSlice]; [split; [intros _ x Hx; by apply not_elem_of_nil in Hx|done]|]. unfold Check. rewrite Contains_spec.
  case_bool_decide as Hc; cbn [negb]; [rewrite IH; set_solver|]. split; [done|]. intros Hs. destruct Hc. apply Hs. by left.
Qed.
End Choice.

(** The plugins that only add a tag settle their account with delivery tracking. *)
Lemma tagging_balanced `{Date.DateLib} `{Template.TemplateLib} `{Geo.S2Lib} :
  balanced (fun _ d => is_Some (Date.location d)) Date.Apply /\ balanced (fun _ r => is_Some (Template.tmpl r)) Template.Apply /\
  balanced (fun _ _ => True) Geo.Apply.
Proof.
  assert (forall f ins w, moved ins (each f ins) w w) as He by (intros; apply moved_same; by rewrite each_td).
  split_and!; intros ins p w Hok.
  - destruct Hok as [l Hl]. unfold Date.Apply. rewrite Hl. destruct ins as [|m ins]; do 3 eexists; (split; [done|]; split; [done|]); [apply (He id [])|apply He].
  - destruct Hok as [t Ht]. unfold Template.Apply. rewrite Ht. destruct ins as [|m ins]; do 3 eexists; (split; [done|]; split; [done|]); [apply (He id [])|apply He].
  - do 3 eexists. split; [done|]. split; [done|]. apply He.
Qed.

#[export] Instance regex_processor `{Regex.RegexLib} W : Processor Regex.Regex W := Regex.Apply.
#[export] Instance date_processor `{Date.DateLib} W : Processor Date.Date W := Date.Apply.
#[export] Instance template_processor `{Template.TemplateLib} W : Processor Template.TemplateProcessor W := Template.Apply.
#[export] Instance geo_processor `{Geo.S2Lib} W : Processor Geo.Geo W := Geo.Apply.
#[export] Instance parser_processor `{ParserProcessor.ParserLib} W : Processor ParserProcessor.Parser W := ParserProcessor.Apply.
#[export] Instance printer_processor `{Printer.PrintEnv W} : Processor Serializer W := Printer.Apply.
