(* ===== verification/TextFormats.v ===== *)
(** * Formats of plain values

    The parsers of [plugins/parsers/csv], [plugins/parsers/value], [plugins/parsers/logfmt] and
    [plugins/parsers/form_urlencoded], and the serializer of [plugins/serializers/carbon2]. Splitting a text into records is
    library code ([encoding/csv], [logfmt], [net/url]) and a parameter: its results, one for each call. The clock is an
    argument. [None] is a panic. *)

From Stdlib Require Import Ascii.
From S2P Require Import Prelude Float64 Strconv Strings Parse Metric Converter Aggregators JsonParser.

(** ** Types of values

    The conversions that the CSV and the logfmt parser try, in order. *)

Definition infer (value : string) : Val :=
  match ParseInt10 value with
  | inl i => VInt i
  | inr _ =>
    match ParseFloat value with
    | Some f => VFloat f
    | None => match ParseBool value with Some b => VBool b | None => VString value end
    end
  end.

Module Csv.

Inductive CsvErr := ERead | EColumnCount | EColumnInt | EColumnFloat | EColumnBool | ETimestampColumn | ETimestampFormat | ETimestamp (e : JErr) | ENoColumns.

Record Parser := mkParser {
  MetricName : string;
  HeaderRowCount : Z;
  SkipRows : Z;
  SkipColumns : Z;
  TrimSpace : bool;
  ColumnNames : list string;
  ColumnTypes : list string;
  TagColumns : list string;
  MeasurementColumn : string;
  TimestampColumn : string;
  TimestampFormat : string;
  DefaultTags : gmap string string;
}.

Definition with_columns (cols : list string) (p : Parser) : Parser :=
  mkParser (MetricName p) (HeaderRowCount p) (SkipRows p) (SkipColumns p) (TrimSpace p) cols (ColumnTypes p) (TagColumns p)
    (MeasurementColumn p) (TimestampColumn p) (TimestampFormat p) (DefaultTags p).

(** The results of reading: a record, or an error; after the last there is the end of the text. *)
Definition reader : Type := list (option (list string)).
Definition read (r : reader) : option (list string) * reader := match r with [] => (None, []) | x :: r => (x, r) end.

(** [s[n:]], which panics beyond the length and before the start. *)
Definition slice_from {A} (n : Z) (l : list A) : option (list A) := if (0 <=? n) && (n <=? Z.of_nat (length l)) then Some (drop (Z.to_nat n) l) else None.

Definition trim (p : Parser) (s : string) : string := if TrimSpace p then Trim s " " else s.

(** The names of the header: those of several rows are joined. *)
Fixpoint join_names (names header : list string) : list string :=
  match header, names with
  | [], _ => names
  | h :: header, [] => h :: join_names [] header
  | h :: header, n :: names => (n +:+ h) :: join_names names header
  end.
Fixpoint header_loop (p : Parser) (n : nat) (names : list string) (r : reader) : option (list string) * reader :=
  match n with
  | O => (Some names, r)
  | S n =>
    match read r with
    | (None, r) => (None, r)
    | (Some header, r) => header_loop p n (join_names names (trim p <$> header)) r
    end
  end.

Section Records.
Context `{MapRange} `{FloatConv} `{TimeLib}.

(** A value of a column with a type. *)
Definition typed (ty value : string) : Val + CsvErr :=
  if decide (ty = "int") then match ParseInt10 value with inl i => inl (VInt i) | inr _ => inr EColumnInt end
  else if decide (ty = "float") then match ParseFloat value with Some f => inl (VFloat f) | None => inr EColumnFloat end
  else if decide (ty = "bool") then match ParseBool value with Some b => inl (VBool b) | None => inr EColumnBool end
  else inl (VString value).

(** The loop over the columns; [types] is what is left of the column types, if there are any. *)
Fixpoint column_loop (p : Parser) (cols record : list string) (types : option (list string)) (tags : gmap string string) (fields : gmap string Val) :
    gmap string string * gmap string Val + CsvErr :=
  match cols with
  | [] => inl (tags, fields)
  | fieldName :: cols =>
    match record with
    | [] => inl (tags, fields)
    | value :: record =>
      let value := trim p value in
      if decide (fieldName ∈ TagColumns p) then column_loop p cols record (tail <$> types) (<[fieldName := value]> tags) fields
      else match types with
      | None => column_loop p cols record None tags (<[fieldName := infer value]> fields)
      | Some [] => inr EColumnCount
      | Some (ty :: types) =>
        match typed ty value with
        | inr e => inr e
        | inl v => column_loop p cols record (Some types) tags (<[fieldName := v]> fields)
        end
      end
    end
  end.

Definition parseTimestamp (now : time) (fields : gmap string Val) (column format : string) : time + CsvErr :=
  if decide (column <> EmptyString) then
    match fields !! column with
    | None => inr ETimestampColumn
    | Some v =>
      if decide (format = EmptyString) then inr ETimestampFormat
      else match ParseTimestamp format v "UTC" with inl t => inl t | inr e => inr (ETimestamp e) end
    end
  else inl now.

(** The name: the value of the measurement column, unless it is an empty text. *)
Definition measurement (p : Parser) (fields : gmap string Val) : string :=
  match fields !! MeasurementColumn p with
  | Some v => if decide (v = VString EmptyString) then MetricName p else format_v v
  | None => MetricName p
  end.

Definition parseRecord (p : Parser) (now : time) (record : list string) : option (metric + CsvErr) :=
  record ← slice_from (SkipColumns p) record;
  Some (match column_loop p (ColumnNames p) record (if decide (ColumnTypes p = []) then None else Some (ColumnTypes p)) ∅ ∅ with
    | inr e => inr e
    | inl (tags, fields) =>
      match parseTimestamp now fields (TimestampColumn p) (TimestampFormat p) with
      | inr e => inr e
      | inl t => inl (Metric.New (measurement p fields) (DefaultTags p ∪ tags) (go_of_val <$> fields) (instant t) [])
      end
    end).

(** [ReadAll], and the loop over the table: the metrics before an error, and the error. *)
Fixpoint read_all (r : reader) : option (list (list string)) :=
  match r with [] => Some [] | None :: _ => None | Some rec :: r => t ← read_all r; Some (rec :: t) end.
Fixpoint table_loop (p : Parser) (clock : nat -> time) (table : list (list string)) : option (list metric * option CsvErr) :=
  match table with
  | [] => Some ([], None)
  | record :: table =>
    m ← parseRecord p (clock (length table)) record;
    match m with
    | inr e => Some ([], Some e)
    | inl m => '(ms, e) ← table_loop p clock table; Some (m :: ms, e)
    end
  end.

(** [Parse]: the metrics, the error, and the parser, which keeps the names of the first header. *)
Definition Parse (p : Parser) (clock : nat -> time) (r : reader) : option (list metric * option CsvErr * Parser) :=
  let r := drop (Z.to_nat (SkipRows p)) r in
  match (if decide (ColumnNames p = []) then
           match header_loop p (Z.to_nat (HeaderRowCount p)) [] r with
           | (None, _) => Some None
           | (Some names, r) => cols ← slice_from (SkipColumns p) names; Some (Some (with_columns cols p, r))
           end
         else Some (Some (p, drop (Z.to_nat (HeaderRowCount p)) r))) with
  | None => None
  | Some None => Some ([], Some ERead, p)
  | Some (Some (p, r)) =>
    match read_all r with
    | None => Some ([], Some ERead, p)
    | Some table => '(ms, e) ← table_loop p clock table; Some (ms, e, p)
    end
  end.

Definition ParseLine (p : Parser) (now : time) (r : reader) : option (metric + CsvErr) :=
  if decide (ColumnNames p = []) then Some (inr ENoColumns)
  else match (read r).1 with None => Some (inr ERead) | Some record => parseRecord p now record end.
End Records.
End Csv.

(** ** [value] *)

Module Value.
Record ValueParser := mkVP { MetricName : string; DataType : string; DefaultTags : gmap string string }.

Inductive VErr := EValueInt (e : ParseErr) | EValueFloat | EValueBool | ENoMetric.

(** The value of a type; one that is not known has none. *)
Definition value_of (ty s : string) : GoVal + VErr :=
  if decide (ty ∈ [EmptyString; "int"; "integer"]) then match ParseInt10 s with inl i => inl (GoScalar (SInt i)) | inr e => inr (EValueInt e) end
  else if decide (ty ∈ ["float"; "long"]) then match ParseFloat s with Some f => inl (GoScalar (SFloat64 f)) | None => inr EValueFloat end
  else if decide (ty ∈ ["str"; "string"]) then inl (GoScalar (SString s))
  else if decide (ty ∈ ["bool"; "boolean"]) then match ParseBool s with Some b => inl (GoScalar (SBool b)) | None => inr EValueBool end
  else inl GoNil.

(** The last word of the text, or all of it if it is a string. *)
Definition Parse `{MapRange} (p : ValueParser) (now : Z) (buf : string) : list metric + VErr :=
  let vStr := Strings.TrimSpace (Trim buf "000") in
  match (if decide (DataType p <> "string") then list.last (Strings.Fields vStr) else Some vStr) with
  | None => inl []
  | Some v =>
    match value_of (DataType p) v with
    | inr e => inr e
    | inl x => inl [Metric.New (MetricName p) (DefaultTags p) {["value" := x]} now []]
    end
  end.

Definition ParseLine `{MapRange} (p : ValueParser) (now : Z) (line : string) : metric + VErr :=
  match Parse p now line with inr e => inr e | inl [] => inr ENoMetric | inl (m :: _) => inl m end.
End Value.

(** ** [logfmt] *)

Module Logfmt.
Record Parser := mkParser { MetricName : string; DefaultTags : gmap string string }.

(** The decoder: the pairs of each record, or an error at its end. *)
Definition decoded : Type := list (list (string * string)) * bool.

Definition record_fields (kvs : list (string * string)) : gmap string Val :=
  foldl (fun fields kv => if decide (kv.2 = EmptyString) then fields else <[kv.1 := infer kv.2]> fields) ∅ kvs.

Fixpoint record_loop `{MapRange} (p : Parser) (clock : nat -> Z) (records : list (list (string * string))) : list metric :=
  match records with
  | [] => []
  | kvs :: records =>
    let fields := record_fields kvs in
    if decide (fields = ∅) then record_loop p clock records
    else Metric.New (MetricName p) ∅ (go_of_val <$> fields) (clock (length records)) [] :: record_loop p clock records
  end.

Definition applyDefaultTags `{MapRange} (p : Parser) (ms : list metric) : list metric :=
  (fun m => foldl (fun m kv => if HasTag kv.1 m then m else AddTag kv.1 kv.2 m) m (range_map (DefaultTags p))) <$> ms.

(** [None] is the error of the decoder. *)
Definition Parse `{MapRange} (p : Parser) (clock : nat -> Z) (d : decoded) : option (list metric) :=
  if d.2 then None else Some (applyDefaultTags p (record_loop p clock d.1)).

Definition ParseLine `{MapRange} (p : Parser) (clock : nat -> Z) (d : decoded) : option metric := Parse p clock d ≫= head.
End Logfmt.

(** ** [form_urlencoded] *)

Module Form.
Record Parser := mkParser { MetricName : string; DefaultTags : gmap string string; TagKeys : list string; AllowedKeys : list string }.

Definition Values : Type := gmap string (list string).

Definition filterAllowedKeys (p : Parser) (original : Values) : Values :=
  foldl (fun result key => match original !! key with Some v => <[key := v]> result | None => result end) ∅ (AllowedKeys p).

(** [value[0]] of an empty list panics; a parsed query has none. *)
Fixpoint extractTags (keys : list string) (tags : gmap string string) (values : Values) : option (gmap string string * Values) :=
  match keys with
  | [] => Some (tags, values)
  | key :: keys =>
    match values !! key with
    | None => extractTags keys tags values
    | Some value =>
      if decide (key = EmptyString) then extractTags keys tags values
      else v ← head value; extractTags keys (<[key := v]> tags) (delete key values)
    end
  end.

Definition parse_field (key : string) (value : list string) : option Val :=
  if decide (key = EmptyString) then None else v ← head value; VFloat <$> ParseFloat v.
Definition parseFields `{MapRange} (values : Values) : gmap string Val :=
  foldl (fun fields kv => match parse_field kv.1 kv.2 with Some v => <[kv.1 := v]> fields | None => fields end) ∅ (range_map values).

(** [ParseQuery] is [net/url]'s; the result is an error of it, or metrics. *)
Definition Parse `{MapRange} (ParseQuery : string -> option Values) (p : Parser) (now : Z) (buf : string) : option (option (list metric)) :=
  let buf := Strings.TrimSpace buf in
  if decide (buf = EmptyString) then Some (Some [])
  else match ParseQuery buf with
  | None => Some None
  | Some values =>
    let values := if decide (AllowedKeys p = []) then values else filterAllowedKeys p values in
    '(tags, values) ← extractTags (TagKeys p) ∅ values;
    Some (Some [Metric.New (MetricName p) (DefaultTags p ∪ tags) (go_of_val <$> parseFields values) now []])
  end.

(** [Some None] is an error: of the query, or that there is no metric. *)
Definition ParseLine `{MapRange} (ParseQuery : string -> option Values) (p : Parser) (now : Z) (line : string) : option (option metric) :=
  r ← Parse ParseQuery p now line; Some (r ≫= head).
End Form.

(** ** [carbon2] *)

Module Carbon2.
(** Everything but a text counts as a number. *)
Definition isNumeric (v : Val) : bool := match v with VString _ => false | _ => true end.

Definition spaceless (s : string) : string := ReplaceAll s " " "_".
Definition tag_text (t : Tag) : string :=
  spaceless (Key t) +:+ "=" +:+ spaceless (if decide (Value t = EmptyString) then "null" else Value t) +:+ " ".
Definition field_line (m : metric) (kv : string * Val) : string :=
  if isNumeric kv.2 then
    "metric=" +:+ spaceless (name m) +:+ " field=" +:+ spaceless kv.1 +:+ " " +:+ concat_strings (tag_text <$> tags m) +:+ " " +:+
    format_v kv.2 +:+ " " +:+ FormatInt (tm m / 1000000000) +:+ String "010" EmptyString
  else EmptyString.
Definition createObject `{MapRange} (m : metric) : string := concat_strings (field_line m <$> range_map (Metric.Fields m)).
Definition Serialize `{MapRange} (m : metric) : string := createObject m.
Definition SerializeBatch `{MapRange} (ms : list metric) : string := concat_strings (createObject <$> ms).
End Carbon2.

(** ** Round trips of values *)

Lemma infer_int z : MinInt64 <= z <= MaxInt64 -> infer (FormatInt z) = VInt z.
Proof. intros Hz. unfold infer. by rewrite ParseInt10_FormatInt. Qed.
Lemma infer_bool b : infer (FormatBool b) = VBool b.
Proof. by destruct b. Qed.

(** A number reads back from its text. *)
Lemma Value_roundtrip `{MapRange} nm ty tags now z : ty ∈ [EmptyString; "int"; "integer"] -> MinInt64 <= z <= MaxInt64 ->
  Value.Parse (Value.mkVP nm ty tags) now (FormatInt z) = inl [Metric.New nm tags {["value" := GoScalar (SInt z)]} now []].
Proof.
  intros Hty Hz. destruct (FormatInt_chars z) as (Hp & Hne & Hf). unfold Value.Parse. cbn [Value.DataType Value.MetricName Value.DefaultTags].
  assert (free_of "000" (FormatInt z) = true) as H0 by (by apply Hf).
  assert (Trim (FormatInt z) "000" = FormatInt z) as ->.
  { unfold Trim. assert (forall s, free_of "000" s = true -> trim_left "000" s = s /\ trim_right "000" s = s) as Ht.
    { induction s as [|c s IH]; intros Hs; [done|]. cbn [free_of] in Hs. apply andb_true_iff in Hs as [Hc Hs]. apply negb_true_iff, bool_decide_eq_false in Hc.
      destruct (IH Hs) as [_ Hr]. split; cbn [trim_left trim_right]; [by rewrite decide_False by congruence|]. rewrite Hr. by rewrite decide_False by naive_solver. }
    destruct (Ht _ H0) as [-> Hr]. exact Hr. }
  rewrite TrimSpace_printable by done. rewrite decide_True by (intros ->; set_solver).
  assert (Strings.Fields (FormatInt z) = [FormatInt z]) as ->.
  { change (FormatInt z) with (Join [FormatInt z] " ") at 1. apply Fields_Join. constructor; [done|constructor]. }
  cbn [list.last]. unfold Value.value_of. rewrite decide_True by done. by rewrite ParseInt10_FormatInt.
Qed.

(** ** What a CSV record becomes *)

Section CsvSpec.
Context `{MapRange} `{FloatConv} `{TimeLib}.

(** The cells of a record under the names of their columns. *)
Definition cells (p : Csv.Parser) (cols record : list string) : list (string * string) := zip cols (Csv.trim p <$> record).
Definition tag_cells (p : Csv.Parser) (l : list (string * string)) : gmap string string :=
  list_to_map (filter (fun kv => kv.1 ∈ Csv.TagColumns p) l).
Definition field_cells (p : Csv.Parser) (l : list (string * string)) : gmap string Val :=
  list_to_map (prod_map id infer <$> filter (fun kv => kv.1 ∉ Csv.TagColumns p) l).

Lemma zip_keys {A} (l : list string) (r : list A) k : k ∈ (zip l r).*1 -> k ∈ l.
Proof. revert r. induction l as [|x l IH]; intros [|y r]; cbn; [set_solver..|]. rewrite !elem_of_cons. naive_solver. Qed.
Lemma filter_keys {A} (P : string * A -> Prop) `{forall x, Decision (P x)} l k : k ∈ (filter P l).*1 -> k ∈ l.*1.
Proof. intros (kv & -> & Hin)%list_elem_of_fmap. apply list_elem_of_filter in Hin as [_ Hin]. by apply list_elem_of_fmap_2. Qed.

Lemma column_loop_cells p cols : forall record tags fields, NoDup cols ->
  Csv.column_loop p cols record None tags fields =
  inl (tag_cells p (cells p cols record) ∪ tags, field_cells p (cells p cols record) ∪ fields).
Proof.
  induction cols as [|c cols IH]; intros record tags fields Hnd.
  { cbn. unfold tag_cells, field_cells. cbn. by rewrite !(left_id_L ∅ (∪)). }
  apply NoDup_cons in Hnd as [Hc Hnd]. destruct record as [|v record].
  { cbn. unfold tag_cells, field_cells. cbn. by rewrite !(left_id_L ∅ (∪)). }
  assert (c ∉ (cells p cols record).*1) as Hcl by (intros Hin; by apply zip_keys in Hin).
  cbn [Csv.column_loop fmap option_fmap option_map]. unfold cells. cbn [fmap list_fmap zip zip_with]. fold (cells p cols record).
  unfold tag_cells, field_cells. destruct (decide (c ∈ Csv.TagColumns p)) as [Ht|Ht].
  - rewrite IH by done. rewrite filter_cons_True by done. rewrite (filter_cons_False (fun kv => kv.1 ∉ Csv.TagColumns p)) by naive_solver.
    do 2 f_equal. unfold tag_cells. cbn. rewrite <- insert_union_r, insert_union_l; [done|]. apply not_elem_of_list_to_map_1. by intros ?%filter_keys.
  - rewrite IH by done. rewrite filter_cons_False by done. rewrite (filter_cons_True (fun kv => kv.1 ∉ Csv.TagColumns p)) by done.
    do 2 f_equal. unfold field_cells. cbn. rewrite <- insert_union_r, insert_union_l; [done|]. apply not_elem_of_list_to_map_1.
    rewrite <- list_fmap_compose. by intros ?%filter_keys.
Qed.

(** A record becomes one metric: the cells of tag columns are tags under the default tags, the others fields with the type they
    read as; the name and the time are those of their columns. *)
Theorem CSV_record (p : Csv.Parser) (now : time) (record : list string)
    (Hcols : NoDup (Csv.ColumnNames p)) (Htypes : Csv.ColumnTypes p = []) (Hskip : 0 <= Csv.SkipColumns p <= Z.of_nat (length record)) :
  let l := cells p (Csv.ColumnNames p) (drop (Z.to_nat (Csv.SkipColumns p)) record) in
  match Csv.parseTimestamp now (field_cells p l) (Csv.TimestampColumn p) (Csv.TimestampFormat p) with
  | inr e => Csv.parseRecord p now record = Some (inr e)
  | inl t => exists m, Csv.parseRecord p now record = Some (inl m) /\ wf m /\ name m = Csv.measurement p (field_cells p l) /\ tm m = instant t /\
      Tags m = Csv.DefaultTags p ∪ tag_cells p l /\ Metric.Fields m = field_cells p l
  end.
Proof.
  intros l. unfold Csv.parseRecord, Csv.slice_from. rewrite (proj2 (Z.leb_le 0 _)), (proj2 (Z.leb_le (Csv.SkipColumns p) _)) by lia. cbn [andb]. binds.
  rewrite decide_True by done. rewrite column_loop_cells by done. rewrite !(right_id_L ∅ (∪)). fold l.
  destruct (Csv.parseTimestamp now (field_cells p l) _ _) as [t|e]; [|done]. eexists. split; [done|]. split; [apply New_wf|].
  pose proof (New_abs (Csv.measurement p (field_cells p l)) (Csv.DefaultTags p ∪ tag_cells p l) (go_of_val <$> field_cells p l) (instant t) []) as Ha.
  split; [by apply (f_equal a_name) in Ha|]. split; [by apply (f_equal a_time) in Ha|]. split; [apply New_Tags|].
  rewrite New_Fields. apply map_eq. intros k. rewrite lookup_omap, lookup_fmap. destruct (field_cells p l !! k) as [v|] eqn:Ek; [|done]. cbn.
  assert (v <> VNil) as Hv; [|by destruct v].
  apply elem_of_list_to_map_2, list_elem_of_fmap in Ek as ([k' s] & [= -> ->] & _). unfold infer.
  destruct (ParseInt10 s); [done|]. destruct (ParseFloat s); [done|]. by destruct (ParseBool s).
Qed.
End CsvSpec.

(** A record with fewer columns than are skipped panics. *)
Lemma short_record_panics `{MapRange} `{FloatConv} `{TimeLib} p now record :
  Z.of_nat (length record) < Csv.SkipColumns p -> Csv.parseRecord p now record = None.
Proof.
  intros Hl. unfold Csv.parseRecord, Csv.slice_from. rewrite (proj2 (Z.leb_gt (Csv.SkipColumns p) _)) by done. by rewrite andb_false_r.
Qed.

(** The names of the first header are kept: a later text is read with them whatever its own header says. *)
Lemma header_kept `{MapRange} `{FloatConv} `{TimeLib} (clock : nat -> time) :
  let p := Csv.mkParser "csv" 1 0 0 false [] [] [] EmptyString EmptyString EmptyString ∅ in
  let m := Metric.New "csv" ∅ (go_of_val <$> {["a" := VInt 1]}) (instant (clock 0%nat)) [] in
  Csv.Parse p clock [Some ["a"]; Some ["1"]] = Some ([m], None, Csv.with_columns ["a"] p) /\
  Csv.Parse (Csv.with_columns ["a"] p) clock [Some ["b"]; Some ["1"]] = Some ([m], None, Csv.with_columns ["a"] p).
Proof. split; reflexivity. Qed.

(** Flags are written as if they were numbers. *)
Lemma carbon2_flag :
  Carbon2.field_line (mkMetric "m n" [mkTag "host" EmptyString] [] 5000000000 Untyped false) ("up", VBool true) =
  "metric=m_n field=up host=null  true 5" +:+ String "010" EmptyString.
Proof. reflexivity. Qed.
